(* ===== verification/_CoqProject ===== *)
-Q . S2P
Prelude.v
RelayMessages.v
Redis.v
HAConfig.v
DistLock.v
MgmtRegistry.v
SignalPeers.v
SignalServer.v
LoginFilter.v
Ephemeral.v
FakeIP.v
RefCounter.v
RouteSelector.v
GoText.v
GoHash.v
FlowTable.v
ConnTrack.v
UDPTrack.v
ICMPTrack.v
Checksum.v
RelayServer.v
Network.v
NetIP.v
PacketNat.v
PacketDnat.v
MssClamp.v
LocalIP.v
FirewallRules.v
NetParse.v
PeerAcl.v
RouteAcl.v
PacketFilter.v
FilterRuns.v
AccessPolicy.v
Posture.v
AccountObjects.v
MapComponents.v
TokenV2.v
RelayAuth.v
Permissions.v
SetupKeys.v
Domains.v
AclManager.v
AclKeys.v
AclSync.v
FilterSync.v
AccountStore.v
AccountGroups.v
AccountPolicies.v
AccountRoutes.v
AccountUsers.v
AccountIntegrity.v
PeerRegistration.v
AccountSystem.v
RouteMap.v
ResourceMap.v
NetworkMap.v
MapCalculate.v
MapEquivalence.v
RouteSync.v
MapDelivery.v
RouteDelivery.v
HandlerChain.v
LocalResolver.v
DnsServer.v
