(* ===== verification/Prelude.v ===== *)
(** * NetBird HA: a verification development

    NetBird builds a WireGuard overlay network.  A _management_ server keeps accounts, peers
    and policies; a _signal_ server passes connection offers between peers; a _relay_ forwards
    traffic between peers that cannot reach each other; the _client_ on every peer programs
    routes, a packet filter and DNS.  This repository adds a high-availability mode: several
    signal and management instances share registries, locks, a login filter and a clean-up
    queue through Redis.  The development models the components that carry this logic as
    executable functions on explicit state, and proves the properties that make them correct.

    ** Files, and the source they model (paths below [src/])

    Shared:
    - [Prelude]: results of Go calls ([outcome]: value, error, panic), slices with Go's bounds
      checks, machine-width arithmetic, shared lemmas and tactics.
    - [GoText], [GoHash], [NetIP], [NetParse], [Domains]: what the code uses of Go's text,
      base64, SHA-256, [net/netip] and [net] packages, and the domain lists of
      [shared/management/domain].
    - [Redis]: the class [RedisServer] with [RedisLaws], the documented effect of the commands
      the code issues on the live keyspace, and [mem_redis], an instance for evaluation.
      Redis is not part of the repository: every theorem is proved for all instances.  [net]
      and [call] say what the network does to one command (executed, lost, reply lost).

    High availability and signalling:
    - [HAConfig] ([shared/distributed/config.go], [redis.go], the signal and management
      [config.go]): defaults, validation, instance id, key sanitising, client construction.
    - [DistLock] ([management/server/distributed/lock.go]): [Acquire], the heartbeat goroutine
      and the release closure; [lstep] interleaves them over any number of instances.
    - [MgmtRegistry] ([management/server/distributed/registry.go]): the [Registry] interface as
      a class, the Redis implementation, and the contract it refines.
    - [SignalPeers] ([signal/peer/peer.go]): the lock-free peer registry of one instance;
      [reg_step] is one atomic step of [Register], [cstep] the interleaving.
    - [SignalServer] ([signal/server/signal.go]): routing of messages between instances: [Send],
      the registry look-up with its retries, registration, heartbeat ticks, envelope signing,
      and the pub/sub listener.  Protobuf/JSON encoding and HMAC are parameters.
    - [LoginFilter] ([management/internals/shared/grpc/loginfilter.go]): the login rate limiter
      and its bans, locally and over Redis.
    - [Ephemeral] ([.../peers/ephemeral/manager/ephemeral.go]): the queue of disconnected
      ephemeral peers, a linked list in a heap of nodes with head and tail pointers, and
      the Redis sorted-set mode with its optimistic transaction.

    Relay:
    - [RelayMessages] ([shared/relay/messages]): byte-level encoders and decoders of the relay
      protocol.  State: byte lists; errors as [msg_err]; out-of-range slicing is [Panic].
    - [RelayServer] ([relay/server]): handshake, the per-peer read loop, the peer store and
      the subscription to the online state of other peers, on top of [RelayMessages].
    - [TokenV2], [RelayAuth] ([shared/relay/auth], [management/internals/shared/grpc/token_mgr.go],
      the part of the engine that takes a configuration over, the client's handshake): both token formats, who issues a token, who keeps
      it and who checks it.

    Accounts in the management server:
    - [Permissions] ([management/server/permissions]), [SetupKeys], [AccountStore],
      [PeerRegistration] ([setupkey.go], [peer.go], the tables of [store/sql_store.go]): roles,
      setup keys, and the registration of a peer with its retried transaction.
    - [AccountObjects], [AccountGroups], [AccountPolicies], [AccountRoutes], [AccountUsers]
      ([group.go], [policy.go], [posture_checks.go], [route.go], [nameserver.go], [dns.go],
      [networks/routers], [user.go]): every operation of the API on these objects; of users only
      their creation.  [AccountIntegrity] has the references
      between them, [AccountSystem] the sequences of calls on one store.
    - [Posture] ([management/server/posture]): the five posture checks; [AccessPolicy] sees
      them through their interface.
    - [Network] ([management/server/types/network.go], [management/server/util/util.go]): the
      address of a new peer, serial numbers, merging of network maps.

    The network map of a peer ([management/server/types]):
    - [AccessPolicy] ([account.go], [policy.go], [policyrule.go], [firewall_rule.go]): the peers,
      firewall rules and SSH users the policies give to one peer ([GetPeerConnectionResources]).
    - [RouteMap], [ResourceMap]: routes, network resources, and their firewall rules, for any
      view of an account ([MapView]); [NetworkMap]: [GetPeerNetworkMap], with DNS.
    - [MapComponents], [MapCalculate] ([account_components.go], [networkmap_components.go]): the
      second computation, the one used by default, which first cuts the account down to the part
      one peer can see and then evaluates that part alone; [MapEquivalence] compares the two.

    Client:
    - [FakeIP], [RefCounter] ([client/internal/routemanager/fakeip], [refcounter]): address
      allocation for DNS routes, and the reference counter that programs system routes.
    - [RouteSelector] ([client/internal/routeselector]): which routes the user selected.
    - [FlowTable], [ConnTrack], [UDPTrack], [ICMPTrack] ([client/firewall/uspfilter/conntrack]):
      the tables of flows of the userspace packet filter, and the flow events they report.
    - [Checksum], [PacketNat], [PacketDnat], [MssClamp], [LocalIP] ([nat.go], [filter.go],
      [localip.go] of [client/firewall/uspfilter]): translation of packets at the level of bytes.
    - [FirewallRules] ([client/firewall/manager]), [PeerAcl], [RouteAcl], [PacketFilter]: the rule
      tables and the handling of every packet; [FilterRuns]: sequences of packets.
    - [AclManager] ([client/internal/acl]), [AclKeys], [AclSync]: from the rules of a map to the
      rules of a firewall, over the class of firewalls; [FilterSync]: the packet filter is one.
    - [RouteSync], [MapDelivery], [RouteDelivery] ([.../grpc/conversion.go] and the above): the way
      of a rule from a policy on the server to the verdict on a packet at a client.
    - [HandlerChain], [LocalResolver], [DnsServer] ([client/internal/dns]: [handler_chain.go],
      [local/local.go] with [resutil], [server.go] with [host.go]): the chain of DNS handlers, the
      resolver for the zones of the map, and the server that applies a DNS configuration to both.

    ** How the components interact

    Signal instances meet in the Redis hash [DistLock] and [MgmtRegistry] also use through
    [RedisServer]: [SignalServer.Send] looks the recipient up, and either delivers through
    [SignalPeers] or publishes a signed envelope which the listener of the other instance
    delivers through its own [SignalPeers].  [RelayServer] decodes what [RelayMessages]
    encodes; the validator it calls is the one of [RelayAuth], for tokens that the management
    server issues and the client stores.

    API calls pass the check of [Permissions] and change the tables of [AccountStore]; the
    account that is read back from them is the input of the map computation.  The policies of
    the map become rules ([AccessPolicy], [RouteMap], [ResourceMap]), the rules become a message,
    the message a set of rules that [AclManager] installs in the filter, and the filter decides on
    packets with the help of the trackers and after translation.  The DNS configuration of the map
    ([NetworkMap]) is the input of [DnsServer.UpdateDNSServer], which registers the local resolver
    and the upstream resolvers in the chain that answers queries.  Two classes separate the parts:
    [RedisServer] and the firewall class of [AclManager].

    ** What the theorems show

    - Safety under concurrency: at most one holder of a distributed lock under the stated
      usage discipline, and that the discipline is needed ([DistLock]); no stream is lost
      by concurrent registrations ([SignalPeers]); a setup key is not used more often than it
      allows, however registrations interleave ([PeerRegistration]).
    - Delivery: a message for a peer of another instance is delivered there once
      ([SignalServer]); a relayed message reaches exactly the connection registered under its
      destination with the sender's id; a subscriber misses no peer ([RelayServer]); credentials
      issued by the server, once the client has taken them over, are accepted by the relay until
      they expire ([RelayAuth]).
    - Refinement: the pointer-based ephemeral list implements a list of deadlines
      ([Ephemeral]); the Redis registry implements a table with one deadline ([MgmtRegistry]);
      the chain of DNS handlers implements a table by pattern and priority ([HandlerChain]).
    - Names: the resolver answers with the records it was given and nothing else
      ([LocalResolver]), and a query for a name of the configuration in force reaches it, whatever
      else was registered, failed or came back meanwhile ([DnsServer]).
    - Access control: visibility between peers is symmetric; the connection list, the firewall
      rules and SSH authorisations are exactly what the enabled policies say ([AccessPolicy]);
      two maps agree on who connects to whom ([NetworkMap]); what a client lets in is what the
      policies allow, to itself ([MapDelivery]) and through its static IPv4 routes ([RouteDelivery]).
    - Packets: an inbound packet passes exactly for the stated reasons (fragments always), replies of tracked flows
      pass and unsolicited ones do not ([FilterRuns], [UDPTrack], [ICMPTrack]); rewriting keeps
      checksums valid and is undone by the reverse rewriting ([PacketNat], [PacketDnat]).
    - Equivalence: the map computed from components has the peers, routes, rules and SSH users
      of the map of the account, for approved peers of well-formed accounts without embedded
      peers in which directly named peers are approved ([MapEquivalence]), and where it has not.
    - Invariants of the store: over all sequences of the modelled calls no dangling references
      (but for the groups of users and routers, which the code does not check) and no change of
      another account (but for the router that an update takes over); changes of policies that
      matter to a peer are announced ([AccountSystem]).  A registration adds one peer or none,
      and an error tells which, but for the error of the map computed after it
      ([PeerRegistration]).
    - Accounting: one start and one end event per TCP flow, two ends for a flow reset in
      TIME-WAIT ([ConnTrack]); exactly-once
      hand-out of expired peers ([Ephemeral]).
    - Totality and bounds: look-ups end within nine attempts; decoders never panic; ban levels
      are bounded; address allocation is exact, with wrap-around at 32 bits.
    - Round trips: relay messages, tokens, reference-counter and selector state, translations.
    - Behaviour that the code has and its comments do not promise: examples such as a stale
      release, an ignored increment, a flapping peer, a rejected rule that blocks all.

    ** Parameters and assumptions

    Parameters, with what is used of them as hypotheses: Redis; HMAC, protobuf, JSON and gob
    encodings; hashicorp/go-version; idna; the domain splitter, [Fqdn] and the record
    parser of miekg/dns; the address parser of pion/stun; the system's resolver and host DNS manager; gopacket's decoder; the network stack of the forwarder; the device; random generators; the identity
    provider and the integrations; what gorm does with the rules of a saved policy; the text of an
    ipset selector.  Orders Go leaves open (ranging over maps) are parameters or do not show in the
    statements.  Transactions of the store are serial; generated ids are fresh, and so are those of the
    identity provider; users of an account do not change while a theorem talks about its maps; packets are handled one after another;
    the overlay is IPv4; a slice has no spare capacity unless the code asks for it.

    ** Fuel and bounds

    Loops that are not structural run with fuel and their theorems show that the fuel is
    enough: [SignalServer.lookup_loop] 9 attempts (the back-off doubles from 100 ms to 400 ms
    against a 3 s budget), [Ephemeral] the number of allocated nodes, [FakeIP.allocate_loop] and
    [Network.linear_loop] the number of addresses, the transaction of [Ephemeral] and the
    registration of [PeerRegistration] their source bounds of attempts, a chain of aliases the eight
    steps of the source, folding a checksum three rounds, an IPv6 text eight groups.  Integers are [Z] with explicit wrap-around ([wrap_u32] and
    the like) where the source's width matters; instants and durations are nanoseconds.

    ** What is not modelled

    Goroutine loops over sockets, tickers and gRPC streams appear as the step one iteration
    performs.  Logging, metrics (other than the gauges the code reads back), activity events and
    context cancellation inside library calls are left out.  Outside the development are: I/O and
    operating system glue (kernel firewalls, WireGuard device, ICE, the engine, system routes, the
    DNS exchange with upstream servers, SSH, updaters, user interfaces), where correctness lies in what the system does;
    the HTTP and gRPC surfaces, identity providers and generated code; SQL and migrations beyond
    the tables used here; the update channels of the map controller and the cached map builder,
    which carry or memoise the maps computed here; changes of users, account creation and the reverse proxy;
    the packet tracer and the delegation of the userspace filter to a native one. *)
From Stdlib.Strings Require Export Byte.
From Stdlib Require Export ZArith Lia.
From stdpp Require Export base tactics gmap list strings option numbers relations.

(** [simplify_eq] may clear a hypothesis that a tactic names afterwards. *)
#[export] Set Warnings "-clear-no-such-hyp".

#[export] Instance byte_eq_dec : EqDecision byte := Byte.byte_eq_dec.

(** * Outcomes of Go calls

    A Go function that returns [(T, error)] either returns a value, returns an
    error, or panics (an index or slice bound is out of range, a nil map is
    written).  [outcome E A] is the result type; it is a monad, so models read
    with stdpp's [x ← m; k] notation. *)
Inductive outcome (E A : Type) : Type :=
| Ret (a : A)
| Err (e : E)
| Panic.
Arguments Ret {E A} a.
Arguments Err {E A} e.
Arguments Panic {E A}.

#[export] Instance outcome_ret {E} : MRet (outcome E) := λ A a, Ret a.
#[export] Instance outcome_bind {E} : MBind (outcome E) := λ A B f m,
  match m with Ret a => f a | Err e => Err e | Panic => Panic end.

#[export] Instance outcome_eq_dec {E A} `{EqDecision E, EqDecision A} :
  EqDecision (outcome E A).
Proof. solve_decision. Defined.

(** [if] with an early error return. *)
Definition guard_err {E} (b : bool) (e : E) : outcome E unit :=
  if b then Err e else Ret tt.

Lemma bind_ret_l {E A B} (a : A) (f : A → outcome E B) : (Ret a ≫= f) = f a.
Proof. done. Qed.

Lemma bind_Ret_inv {E A B} (m : outcome E A) (f : A → outcome E B) b :
  m ≫= f = Ret b → ∃ a, m = Ret a ∧ f a = Ret b.
Proof. destruct m; naive_solver. Qed.

(** * Slices

    [s[lo:hi]], [s[lo:]], [s[i] = b] and [copy(s[off:], src)] with Go's bounds
    checks. *)
Section slices.
Context {E A : Type}.
Implicit Types s : list A.

Definition slice (lo hi : nat) s : outcome E (list A) :=
  if bool_decide (lo ≤ hi ∧ hi ≤ length s)
  then Ret (take (hi - lo) (drop lo s)) else Panic.

Definition slice_from (lo : nat) s : outcome E (list A) :=
  slice lo (length s) s.

Definition put (i : nat) (b : A) s : outcome E (list A) :=
  if bool_decide (i < length s) then Ret (<[i := b]> s) else Panic.

Definition index (i : nat) s : outcome E A :=
  match s !! i with Some b => Ret b | None => Panic end.

(** [copy] moves [min (len dst) (len src)] elements. *)
Definition copy_at (off : nat) (src : list A) s : outcome E (list A) :=
  if bool_decide (off ≤ length s)
  then Ret (take off s ++ take (length s - off) src
            ++ drop (off + length src) s)
  else Panic.

Lemma slice_in lo hi s :
  lo ≤ hi → hi ≤ length s → slice lo hi s = Ret (take (hi - lo) (drop lo s)).
Proof. intros. unfold slice. by rewrite bool_decide_eq_true_2. Qed.

Lemma slice_from_in lo s : lo ≤ length s → slice_from lo s = Ret (drop lo s).
Proof.
  intros. unfold slice_from. rewrite slice_in by lia.
  rewrite take_ge; [done | rewrite length_drop; lia].
Qed.

Lemma put_in i b s : i < length s → put i b s = Ret (<[i := b]> s).
Proof. intros. unfold put. by rewrite bool_decide_eq_true_2. Qed.

Lemma index_in i s : i < length s → ∃ b, index i s = Ret b ∧ s !! i = Some b.
Proof.
  intros [b Hb]%lookup_lt_is_Some_2. exists b. unfold index. by rewrite Hb.
Qed.

Lemma copy_at_in off src s :
  off ≤ length s →
  copy_at off src s
  = Ret (take off s ++ take (length s - off) src ++ drop (off + length src) s).
Proof. intros. unfold copy_at. by rewrite bool_decide_eq_true_2. Qed.

(** A copy never changes the length of the destination. *)
Lemma copy_at_length off src s s' :
  copy_at off src s = Ret s' → length s' = length s.
Proof.
  unfold copy_at. case_bool_decide; intros ?; simplify_eq.
  rewrite !length_app, !length_take, length_drop. lia.
Qed.
End slices.

(** * Machine integers *)
Definition wrap (w z : Z) : Z := (z mod 2 ^ w)%Z.
Abbreviation wrap_u16 := (wrap 16).
Abbreviation wrap_u32 := (wrap 32).
Abbreviation wrap_u64 := (wrap 64).
Definition in_i64 (z : Z) : Prop := (- 2 ^ 63 ≤ z < 2 ^ 63)%Z.

Lemma wrap_id w z : (0 ≤ z < 2 ^ w)%Z → wrap w z = z.
Proof. apply Z.mod_small. Qed.

Lemma wrap_bound w z : (0 ≤ w)%Z → (0 ≤ wrap w z < 2 ^ w)%Z.
Proof. intros. apply Z.mod_pos_bound. lia. Qed.

(** * Time

    [time.Time] and [time.Duration] are counted in nanoseconds. *)
Definition Millisecond : Z := 1000000.
Definition Second : Z := 1000 * Millisecond.
Definition Minute : Z := 60 * Second.
Definition Hour : Z := 60 * Minute.

(** * Automation *)
Create HintDb go discriminated.
Create Rewrite HintDb go.
#[export] Hint Resolve lookup_insert_eq lookup_delete_eq : go.
#[export] Hint Rewrite @bind_ret_l : go.

(** Split every [match]/[if] in sight and clean up. *)
Ltac go_step :=
  match goal with
  | H : context [bool_decide _] |- _ => case_bool_decide
  | |- context [bool_decide _] => case_bool_decide
  | H : context [match _ with _ => _ end] |- _ => case_match
  | |- context [match _ with _ => _ end] => case_match
  end; simplify_eq/=.
Ltac go_cases := repeat (go_step; try done).

(** * Lists *)
Lemma lookup_app_take {A} (l1 l2 : list A) n :
  length l1 = n → take n (l1 ++ l2) = l1 ∧ drop n (l1 ++ l2) = l2.
Proof. intros <-. by rewrite take_app_length, drop_app_length. Qed.

Lemma filter_all {A} (P : A → Prop) `{∀ x, Decision (P x)} l : Forall P l → filter P l = l.
Proof. induction 1; [done|]. rewrite filter_cons_True by done. by f_equal. Qed.

Lemma filter_none {A} (P : A → Prop) `{∀ x, Decision (P x)} l :
  Forall (λ x, ¬ P x) l → filter P l = [].
Proof. induction 1; [done|]. by rewrite filter_cons_False. Qed.

Lemma NoDup_fmap_filter {A B} (f : A → B) (P : A → Prop) `{∀ x, Decision (P x)} l :
  NoDup (f <$> l) → NoDup (f <$> filter P l).
Proof.
  induction l as [|x l IH]; [done|]. rewrite fmap_cons, NoDup_cons. intros [Hx Hl].
  rewrite filter_cons. case_decide; [|auto]. rewrite fmap_cons, NoDup_cons. split; [|auto].
  intros (y & Hy & Hin)%list_elem_of_fmap. apply Hx. rewrite Hy. apply list_elem_of_fmap.
  apply list_elem_of_filter in Hin as [_ ?]. eauto.
Qed.

Lemma exists_in_cons {A} (x : A) l (P : A → Prop) : (∃ y, y ∈ x :: l ∧ P y) ↔ P x ∨ ∃ y, y ∈ l ∧ P y.
Proof.
  split.
  - intros (y & [->|Hy]%elem_of_cons & HP); [by left|right; by exists y].
  - intros [HP|(y & Hy & HP)]; [exists x|exists y]; (split; [|done]); [by left|by right].
Qed.
Lemma concat_fmap_elem {A B} (f : A → list B) l x : x ∈ concat (f <$> l) ↔ ∃ y, y ∈ l ∧ x ∈ f y.
Proof.
  induction l as [|y l IH]; cbn; [split; [by intros ?%not_elem_of_nil|by intros (z & ?%not_elem_of_nil & _)]|].
  rewrite elem_of_app, IH. split.
  - intros [?|(z & ? & ?)]; [exists y; split; [by left|done]|exists z; split; [by right|done]].
  - intros (z & [->|?]%elem_of_cons & ?); [by left|right; by exists z].
Qed.

(** * Strings *)
(** Strings of a known shape are uniquely decomposed. *)
Lemma append_inj_len s1 s2 t1 t2 :
  String.length s1 = String.length s2 → s1 +:+ t1 = s2 +:+ t2 → s1 = s2 ∧ t1 = t2.
Proof.
  revert s2. induction s1 as [|c s1 IH]; intros [|c' s2]; simpl; intros Hl He; try done.
  simplify_eq. destruct (IH s2) as [-> ->]; auto.
Qed.

Lemma append_assoc s t u : s +:+ (t +:+ u) = (s +:+ t) +:+ u.
Proof.
  induction s as [|c s IH]; [done|].
  change (String c (s +:+ (t +:+ u)) = String c ((s +:+ t) +:+ u)). by rewrite IH.
Qed.

Lemma append_length s t : String.length (s +:+ t) = (String.length s + String.length t)%nat.
Proof.
  induction s as [|c s IH]; [done|].
  change (S (String.length (s +:+ t)) = S (String.length s + String.length t))%nat. by rewrite IH.
Qed.

Lemma append_inj_r s1 s2 t : s1 +:+ t = s2 +:+ t → s1 = s2.
Proof.
  intros He. apply (append_inj_len _ _ t t); [|done].
  apply (f_equal String.length) in He. rewrite !append_length in He. lia.
Qed.

Lemma append_char_inj s1 s2 c1 c2 :
  s1 +:+ String c1 "" = s2 +:+ String c2 "" → s1 = s2 ∧ c1 = c2.
Proof.
  intros He. assert (Hl : String.length s1 = String.length s2).
  { apply (f_equal String.length) in He. rewrite !append_length in He. simpl in He. lia. }
  destruct (append_inj_len _ _ _ _ Hl He). by simplify_eq.
Qed.
