(* ===== verification/RelayMessages.v ===== *)
(** Relay wire protocol: [src/shared/relay/messages] ([message.go],
    [peer_state.go], [id.go]).

    Messages are byte lists, [make([]byte, n)] is [n] zero bytes, and slicing,
    indexing and [copy] carry Go's bounds checks (see [Prelude]), so a decoder
    that could panic on some input would be visible as [Panic].  A [PeerID] is a
    [[36]byte]; [wf_id] is that array type's length. *)
From S2P Require Import Prelude.

(** ** Constants of message.go and id.go *)
Definition sha256_Size : nat := 32.
Definition prefixLength : nat := 4.
Definition peerIDSize : nat := prefixLength + sha256_Size.

Definition MaxHandshakeSize : nat := 212.
Definition MaxHandshakeRespSize : nat := 8192.
Definition MaxMessageSize : nat := 8820.
Definition CurrentProtocolVersion : byte := x01.

Definition MsgType := byte.
Definition MsgTypeUnknown : MsgType := x00.
Definition MsgTypeHello : MsgType := x01.
Definition MsgTypeHelloResponse : MsgType := x02.
Definition MsgTypeTransport : MsgType := x03.
Definition MsgTypeClose : MsgType := x04.
Definition MsgTypeHealthCheck : MsgType := x05.
Definition MsgTypeAuth : MsgType := x06.
Definition MsgTypeAuthResponse : MsgType := x07.
Definition MsgTypeSubscribePeerState : MsgType := x08.
Definition MsgTypeUnsubscribePeerState : MsgType := x09.
Definition MsgTypePeersOnline : MsgType := x0a.
Definition MsgTypePeersWentOffline : MsgType := x0b.

Definition sizeOfVersionByte : nat := 1.
Definition sizeOfMsgType : nat := 1.
Definition sizeOfProtoHeader : nat := sizeOfVersionByte + sizeOfMsgType.
Definition sizeOfMagicByte : nat := 4.
Definition headerSizeAuth : nat := sizeOfMagicByte + peerIDSize.
Definition offsetMagicByte : nat := sizeOfProtoHeader.
Definition offsetAuthPeerID : nat := sizeOfProtoHeader + sizeOfMagicByte.
Definition headerTotalSizeAuth : nat := sizeOfProtoHeader + headerSizeAuth.
Definition headerSizeHello : nat := sizeOfMagicByte + peerIDSize.
Definition headerSizeHelloResp : nat := 0.
Definition headerSizeTransport : nat := peerIDSize.
Definition offsetTransportID : nat := sizeOfProtoHeader.
Definition headerTotalSizeTransport : nat := sizeOfProtoHeader + headerSizeTransport.

Definition magicHeader : list byte := [x21; x12; xa4; x42].
Definition healthCheckMsg : list byte := [CurrentProtocolVersion; MsgTypeHealthCheck].

Inductive msg_err :=
| ErrInvalidMessageLength
| ErrUnsupportedVersion (version : nat)
| ErrInvalidMsgType (t : MsgType)
| ErrInvalidMagicHeader
| ErrTooLargeAuthPayload
| ErrMessageLength (n : nat)
| ErrNoPeerIDs
| ErrInvalidFormat
| ErrInvalidPeerListSize (n : nat).

Abbreviation res := (outcome msg_err).
Abbreviation bytes := (list byte).
Abbreviation PeerID := (list byte).

Definition wf_id (id : PeerID) : Prop := length id = peerIDSize.
Definition make (n : nat) : bytes := replicate n x00.

(** [PeerID(s)]: the slice-to-array conversion panics on a short slice. *)
Definition to_PeerID (s : bytes) : res PeerID :=
  if bool_decide (length s < peerIDSize) then Panic else Ret (take peerIDSize s).

Definition MsgType_String (m : MsgType) : string :=
  if decide (m = MsgTypeHello) then "hello"
  else if decide (m = MsgTypeHelloResponse) then "hello response"
  else if decide (m = MsgTypeAuth) then "auth"
  else if decide (m = MsgTypeAuthResponse) then "auth response"
  else if decide (m = MsgTypeTransport) then "transport"
  else if decide (m = MsgTypeClose) then "close"
  else if decide (m = MsgTypeHealthCheck) then "health check"
  else if decide (m = MsgTypeSubscribePeerState) then "subscribe peer state"
  else if decide (m = MsgTypeUnsubscribePeerState) then "unsubscribe peer state"
  else if decide (m = MsgTypePeersOnline) then "peers online"
  else if decide (m = MsgTypePeersWentOffline) then "peers went offline"
  else "unknown".

(** ** Header checks *)
Definition ValidateVersion (msg : bytes) : res nat :=
  if bool_decide (length msg < sizeOfProtoHeader) then Err ErrInvalidMessageLength
  else
    b ← index 0 msg;
    let version := Byte.to_nat b in
    if bool_decide (version ≠ Byte.to_nat CurrentProtocolVersion)
    then Err (ErrUnsupportedVersion version) else Ret version.

Definition clientMsgTypes : list MsgType :=
  [MsgTypeHello; MsgTypeAuth; MsgTypeTransport; MsgTypeClose; MsgTypeHealthCheck;
   MsgTypeSubscribePeerState; MsgTypeUnsubscribePeerState].

Definition DetermineClientMessageType (msg : bytes) : res MsgType :=
  if bool_decide (length msg < sizeOfProtoHeader) then Err ErrInvalidMessageLength
  else
    msgType ← index 1 msg;
    if bool_decide (msgType ∈ clientMsgTypes) then Ret msgType
    else Err (ErrInvalidMsgType msgType).

Definition serverMsgTypes : list MsgType :=
  [MsgTypeHelloResponse; MsgTypeAuthResponse; MsgTypeTransport; MsgTypeClose;
   MsgTypeHealthCheck; MsgTypePeersOnline; MsgTypePeersWentOffline].

Definition DetermineServerMessageType (msg : bytes) : res MsgType :=
  if bool_decide (length msg < sizeOfProtoHeader) then Err ErrInvalidMessageLength
  else
    msgType ← index 1 msg;
    if bool_decide (msgType ∈ serverMsgTypes) then Ret msgType
    else Err (ErrInvalidMsgType msgType).

(** ** Hello (deprecated) *)
Definition MarshalHelloMsg (peerID : PeerID) (additions : bytes) : res bytes :=
  let msg := make (sizeOfProtoHeader + sizeOfMagicByte) in
  msg ← put 0 CurrentProtocolVersion msg;
  msg ← put 1 MsgTypeHello msg;
  msg ← copy_at sizeOfProtoHeader magicHeader msg;
  Ret ((msg ++ peerID) ++ additions).

Definition UnmarshalHelloMsg (msg : bytes) : res (PeerID * bytes) :=
  if bool_decide (length msg < sizeOfProtoHeader + headerSizeHello)
  then Err ErrInvalidMessageLength
  else
    magic ← slice sizeOfProtoHeader (sizeOfProtoHeader + sizeOfMagicByte) msg;
    if bool_decide (magic ≠ magicHeader) then Err ErrInvalidMagicHeader
    else
      s ← slice (sizeOfProtoHeader + sizeOfMagicByte)
                (sizeOfProtoHeader + headerSizeHello) msg;
      peerID ← to_PeerID s;
      rest ← slice_from headerSizeHello msg;
      Ret (peerID, rest).

Definition MarshalHelloResponse (additionalData : bytes) : res bytes :=
  let msg := make sizeOfProtoHeader in
  msg ← put 0 CurrentProtocolVersion msg;
  msg ← put 1 MsgTypeHelloResponse msg;
  Ret (msg ++ additionalData).

Definition UnmarshalHelloResponse (msg : bytes) : res bytes :=
  if bool_decide (length msg < sizeOfProtoHeader + headerSizeHelloResp)
  then Err ErrInvalidMessageLength else Ret msg.

(** ** Auth *)
Definition MarshalAuthMsg (peerID : PeerID) (authPayload : bytes) : res bytes :=
  if bool_decide (MaxHandshakeSize < headerTotalSizeAuth + length authPayload)
  then Err ErrTooLargeAuthPayload
  else
    let msg := make (headerTotalSizeAuth + length authPayload) in
    msg ← put 0 CurrentProtocolVersion msg;
    msg ← put 1 MsgTypeAuth msg;
    msg ← copy_at sizeOfProtoHeader magicHeader msg;
    msg ← copy_at offsetAuthPeerID peerID msg;
    msg ← copy_at headerTotalSizeAuth authPayload msg;
    Ret msg.

Definition UnmarshalAuthMsg (msg : bytes) : res (PeerID * bytes) :=
  if bool_decide (length msg < headerTotalSizeAuth) then Err ErrInvalidMessageLength
  else
    magic ← slice offsetMagicByte (offsetMagicByte + sizeOfMagicByte) msg;
    if bool_decide (magic ≠ magicHeader) then Err ErrInvalidMagicHeader
    else
      s ← slice offsetAuthPeerID headerTotalSizeAuth msg;
      peerID ← to_PeerID s;
      rest ← slice_from headerTotalSizeAuth msg;
      Ret (peerID, rest).

Definition MarshalAuthResponse (address : bytes) : res bytes :=
  let msg := make sizeOfProtoHeader in
  msg ← put 0 CurrentProtocolVersion msg;
  msg ← put 1 MsgTypeAuthResponse msg;
  let msg := msg ++ address in
  if bool_decide (MaxHandshakeRespSize < length msg)
  then Err (ErrMessageLength (length msg)) else Ret msg.

Definition UnmarshalAuthResponse (msg : bytes) : res bytes :=
  if bool_decide (length msg < sizeOfProtoHeader + 1) then Err ErrInvalidMessageLength
  else slice_from sizeOfProtoHeader msg.

(** ** Close, transport, health check *)
Definition MarshalCloseMsg : bytes := [CurrentProtocolVersion; MsgTypeClose].

Definition MarshalTransportMsg (peerID : PeerID) (payload : bytes) : res bytes :=
  let msg := make (headerTotalSizeTransport + length payload) in
  msg ← put 0 CurrentProtocolVersion msg;
  msg ← put 1 MsgTypeTransport msg;
  msg ← copy_at sizeOfProtoHeader peerID msg;
  msg ← copy_at (sizeOfProtoHeader + peerIDSize) payload msg;
  Ret msg.

Definition UnmarshalTransportID (buf : bytes) : res PeerID :=
  if bool_decide (length buf < headerTotalSizeTransport)
  then Err ErrInvalidMessageLength
  else
    s ← slice offsetTransportID (offsetTransportID + peerIDSize) buf;
    copy_at 0 s (make peerIDSize).

Definition UnmarshalTransportMsg (buf : bytes) : res (PeerID * bytes) :=
  if bool_decide (length buf < headerTotalSizeTransport)
  then Err ErrInvalidMessageLength
  else
    s ← slice offsetTransportID (offsetTransportID + peerIDSize) buf;
    peerID ← copy_at 0 s (make peerIDSize);
    rest ← slice_from headerTotalSizeTransport buf;
    Ret (peerID, rest).

(** The message is updated in place; the result is its new contents. *)
Definition UpdateTransportMsg (msg : bytes) (peerID : PeerID) : res bytes :=
  if bool_decide (length msg < offsetTransportID + peerIDSize)
  then Err ErrInvalidMessageLength
  else copy_at offsetTransportID peerID msg.

Definition MarshalHealthcheck : bytes := healthCheckMsg.

(** ** Peer ids: HashID over an arbitrary 32-byte hash function *)
Definition prefix : bytes := [x73; x68; x61; x2d].  (* "sha-" *)

Definition HashID (sum256 : bytes → bytes) (peerID : bytes) : res PeerID :=
  let prefixedHash := make peerIDSize in
  prefixedHash ← copy_at 0 prefix prefixedHash;
  copy_at prefixLength (sum256 peerID) prefixedHash.

(** ** Peer-state messages *)
Definition maxPeersPerMessage : nat := (MaxMessageSize - sizeOfProtoHeader) / peerIDSize.

(** The inner loop of [marshalPeerIDs]: copy each id of the chunk at [offset]. *)
Fixpoint write_ids (offset : nat) (chunk : list PeerID) (buf : bytes) : res bytes :=
  match chunk with
  | [] => Ret buf
  | id :: chunk => buf ← copy_at offset id buf; write_ids (offset + peerIDSize) chunk buf
  end.

Definition marshal_chunk (chunk : list PeerID) (msgType : byte) : res bytes :=
  let buf := make (sizeOfProtoHeader + length chunk * peerIDSize) in
  buf ← put 0 CurrentProtocolVersion buf;
  buf ← put 1 msgType buf;
  write_ids sizeOfProtoHeader chunk buf.

(** The outer loop, [for i := 0; i < len(ids); i += maxPeersPerMessage]; [fuel]
    bounds the number of iterations ([length ids] is enough, see
    [marshalPeerIDs_total]). *)
Fixpoint marshal_loop (fuel i : nat) (ids : list PeerID) (msgType : byte)
    (messages : list bytes) : res (list bytes) :=
  if bool_decide (i < length ids) then
    match fuel with
    | O => Panic
    | S fuel =>
        let endi := i + maxPeersPerMessage in
        let endi := if bool_decide (length ids < endi) then length ids else endi in
        chunk ← slice i endi ids;
        buf ← marshal_chunk chunk msgType;
        marshal_loop fuel (i + maxPeersPerMessage) ids msgType (messages ++ [buf])
    end
  else Ret messages.

Definition marshalPeerIDs (ids : list PeerID) (msgType : byte) : res (list bytes) :=
  if bool_decide (length ids = 0) then Err ErrNoPeerIDs
  else marshal_loop (length ids) 0 ids msgType [].

(** The loop of [unmarshalPeerIDs] over [numIDs] array slots. *)
Fixpoint read_ids (numIDs offset : nat) (buf : bytes) : res (list PeerID) :=
  match numIDs with
  | O => Ret []
  | S n =>
      s ← slice offset (offset + peerIDSize) buf;
      id ← copy_at 0 s (make peerIDSize);
      ids ← read_ids n (offset + peerIDSize) buf;
      Ret (id :: ids)
  end.

Definition unmarshalPeerIDs (buf : bytes) : res (list PeerID) :=
  if bool_decide (length buf < sizeOfProtoHeader) then Err ErrInvalidFormat
  else if bool_decide ((length buf - sizeOfProtoHeader) `mod` peerIDSize ≠ 0)
  then Err (ErrInvalidPeerListSize (length buf - sizeOfProtoHeader))
  else read_ids ((length buf - sizeOfProtoHeader) `div` peerIDSize) sizeOfProtoHeader buf.

Definition MarshalSubPeerStateMsg (ids : list PeerID) := marshalPeerIDs ids MsgTypeSubscribePeerState.
Definition UnmarshalSubPeerStateMsg (buf : bytes) := unmarshalPeerIDs buf.
Definition MarshalUnsubPeerStateMsg (ids : list PeerID) := marshalPeerIDs ids MsgTypeUnsubscribePeerState.
Definition UnmarshalUnsubPeerStateMsg (buf : bytes) := unmarshalPeerIDs buf.
Definition MarshalPeersOnline (ids : list PeerID) := marshalPeerIDs ids MsgTypePeersOnline.
Definition UnmarshalPeersOnlineMsg (buf : bytes) := unmarshalPeerIDs buf.
Definition MarshalPeersWentOffline (ids : list PeerID) := marshalPeerIDs ids MsgTypePeersWentOffline.
Definition UnMarshalPeersWentOffline (buf : bytes) := unmarshalPeerIDs buf.

(** ** Normal forms of the builders and readers *)

(** Arithmetic on the layout constants. *)
Ltac layout :=
  unfold wf_id in *;
  rewrite ?length_app in *;
  repeat match goal with H : length _ = peerIDSize |- _ => rewrite ?H in *; clear H end;
  first [done | lia | cbv; lia].

Lemma put_header {B} a b n (k : bytes → res B) :
  (msg ← put 0 a (make (sizeOfProtoHeader + n)); msg ← put 1 b msg; k msg)
  = k ([a; b] ++ make n).
Proof. done. Qed.

(** Filling the zeroed tail of a buffer. *)
Lemma copy_at_make (pre src : bytes) off n m :
  off = length pre → n = length src + m →
  copy_at (E:=msg_err) off src (pre ++ make n) = Ret ((pre ++ src) ++ make m).
Proof.
  intros -> ->. unfold make. rewrite copy_at_in by (rewrite length_app; lia).
  rewrite length_app, length_replicate, take_app_length, <- app_assoc.
  rewrite (take_ge src) by lia. do 3 f_equal.
  rewrite drop_app_add, drop_replicate. f_equal. lia.
Qed.

Lemma copy_whole (s : bytes) :
  wf_id s → copy_at (E:=msg_err) 0 s (make peerIDSize) = Ret s.
Proof.
  unfold wf_id. intros Hs.
  rewrite <- (app_nil_l (make peerIDSize)), (copy_at_make _ _ _ _ 0) by (done || lia).
  by rewrite app_nil_r.
Qed.

Lemma slice_mid (pre mid post : bytes) lo hi :
  length pre = lo → length mid = hi - lo → lo ≤ hi →
  slice (E:=msg_err) lo hi (pre ++ mid ++ post) = Ret mid.
Proof.
  intros <- Hmid ?. rewrite slice_in; rewrite ?length_app; try lia.
  rewrite drop_app_length, take_app_le, take_ge by lia. done.
Qed.

Lemma slice_from_app (pre post : bytes) lo :
  length pre = lo → slice_from (E:=msg_err) lo (pre ++ post) = Ret post.
Proof.
  intros <-. rewrite slice_from_in by (rewrite length_app; lia).
  by rewrite drop_app_length.
Qed.

Lemma slice_total (s : bytes) lo hi :
  hi ≤ length s → lo ≤ hi →
  ∃ t, slice (E:=msg_err) lo hi s = Ret t ∧ length t = hi - lo.
Proof.
  intros. rewrite slice_in by lia. eexists; split; [done|].
  rewrite length_take, length_drop. lia.
Qed.

Lemma to_PeerID_eq s : wf_id s → to_PeerID s = Ret s.
Proof.
  unfold wf_id, to_PeerID. intros Hs.
  rewrite bool_decide_eq_false_2 by lia. by rewrite take_ge by lia.
Qed.

(** The three layouts of the wire format. *)
Lemma MarshalTransportMsg_eq id payload :
  wf_id id →
  MarshalTransportMsg id payload
  = Ret ([CurrentProtocolVersion; MsgTypeTransport] ++ id ++ payload).
Proof.
  unfold wf_id. intros Hid. unfold MarshalTransportMsg, headerTotalSizeTransport.
  rewrite <- Nat.add_assoc, put_header.
  rewrite (copy_at_make _ _ _ _ (length payload)), bind_ret_l
    by (done || unfold headerSizeTransport; lia).
  rewrite (copy_at_make _ _ _ _ 0), bind_ret_l
    by (rewrite ?length_app, ?Hid; done || lia).
  by rewrite app_nil_r, <- app_assoc.
Qed.

Lemma MarshalAuthMsg_eq id payload :
  wf_id id → headerTotalSizeAuth + length payload ≤ MaxHandshakeSize →
  MarshalAuthMsg id payload
  = Ret ([CurrentProtocolVersion; MsgTypeAuth] ++ magicHeader ++ id ++ payload).
Proof.
  unfold wf_id. intros Hid Hsz. unfold MarshalAuthMsg.
  rewrite bool_decide_eq_false_2 by lia.
  unfold headerTotalSizeAuth. rewrite <- Nat.add_assoc, put_header.
  rewrite (copy_at_make _ _ _ _ (peerIDSize + length payload)), bind_ret_l
    by (done || unfold headerSizeAuth; simpl; lia).
  rewrite (copy_at_make _ _ _ _ (length payload)), bind_ret_l by (done || lia).
  rewrite (copy_at_make _ _ _ _ 0), bind_ret_l
    by (rewrite ?length_app, ?Hid; done || lia).
  by rewrite app_nil_r, <- !app_assoc.
Qed.

Lemma MarshalHelloMsg_eq id additions :
  MarshalHelloMsg id additions
  = Ret ([CurrentProtocolVersion; MsgTypeHello] ++ magicHeader ++ id ++ additions).
Proof.
  unfold MarshalHelloMsg. rewrite put_header.
  rewrite (copy_at_make _ _ _ _ 0), bind_ret_l by done.
  by rewrite app_nil_r, <- !app_assoc.
Qed.

Lemma sizeOfProtoHeader_eq : sizeOfProtoHeader = 2.
Proof. done. Qed.

Lemma length_concat_ids (chunk : list PeerID) :
  Forall wf_id chunk → length (concat chunk) = length chunk * peerIDSize.
Proof.
  unfold wf_id. induction 1 as [|id chunk Hid _ IH]; [done|].
  cbn [concat length]. rewrite length_app, IH, Hid. lia.
Qed.

Lemma write_ids_eq (chunk : list PeerID) pre :
  Forall wf_id chunk →
  write_ids (length pre) chunk (pre ++ make (length chunk * peerIDSize))
  = Ret (pre ++ concat chunk).
Proof.
  intros Hc. revert pre. induction Hc as [|id chunk Hid _ IH]; intros pre.
  { done. }
  cbn [write_ids length]. unfold wf_id in Hid.
  rewrite (copy_at_make _ _ _ _ (length chunk * peerIDSize)), bind_ret_l
    by (done || lia).
  replace (length pre + peerIDSize) with (length (pre ++ id))
    by (rewrite length_app; lia).
  rewrite IH. simpl. by rewrite <- app_assoc.
Qed.

Lemma marshal_chunk_eq chunk t :
  Forall wf_id chunk →
  marshal_chunk chunk t = Ret ([CurrentProtocolVersion; t] ++ concat chunk).
Proof.
  intros. unfold marshal_chunk. rewrite put_header.
  change sizeOfProtoHeader with (length [CurrentProtocolVersion; t]).
  by apply write_ids_eq.
Qed.

Lemma read_ids_eq (chunk : list PeerID) pre :
  Forall wf_id chunk →
  read_ids (length chunk) (length pre) (pre ++ concat chunk) = Ret chunk.
Proof.
  intros Hc. revert pre. induction Hc as [|id chunk Hid _ IH]; intros pre; [done|].
  cbn [read_ids length concat]. unfold wf_id in Hid.
  rewrite slice_mid, bind_ret_l, copy_whole, bind_ret_l by (done || lia).
  replace (length pre + peerIDSize) with (length (pre ++ id))
    by (rewrite length_app; lia).
  by rewrite app_assoc, IH, bind_ret_l.
Qed.

Lemma unmarshal_chunk_eq chunk t v :
  Forall wf_id chunk → unmarshalPeerIDs ([v; t] ++ concat chunk) = Ret chunk.
Proof.
  intros Hc. unfold unmarshalPeerIDs.
  replace (length ([v; t] ++ concat chunk) - sizeOfProtoHeader)
    with (length chunk * peerIDSize)
    by (rewrite length_app, length_concat_ids, sizeOfProtoHeader_eq by done;
        cbn [length]; lia).
  rewrite bool_decide_eq_false_2
    by (rewrite length_app, sizeOfProtoHeader_eq; cbn [length]; lia).
  rewrite bool_decide_eq_false_2 by (rewrite Nat.Div0.mod_mul; lia).
  rewrite Nat.div_mul by done.
  change sizeOfProtoHeader with (length [v; t]). by apply read_ids_eq.
Qed.

Lemma maxPeersPerMessage_eq : maxPeersPerMessage = 244.
Proof. vm_compute. done. Qed.

Lemma full_chunk_fits : sizeOfProtoHeader + 244 * peerIDSize ≤ MaxMessageSize.
Proof. apply Nat.leb_le. vm_compute. done. Qed.

Definition chunk_msg (t : byte) (m : bytes) (chunk : list PeerID) : Prop :=
  chunk ≠ [] ∧ unmarshalPeerIDs m = Ret chunk
  ∧ ValidateVersion m = Ret 1 ∧ m !! 1 = Some t ∧ length m ≤ MaxMessageSize.

Lemma chunk_msg_intro chunk t :
  Forall wf_id chunk → chunk ≠ [] → length chunk ≤ 244 →
  chunk_msg t ([CurrentProtocolVersion; t] ++ concat chunk) chunk.
Proof.
  intros Hc Hne Hlen. split; [done|]. split; [by apply unmarshal_chunk_eq|].
  split; [done|]. split; [done|].
  rewrite length_app, length_concat_ids by done.
  etrans; [|apply full_chunk_fits]. rewrite sizeOfProtoHeader_eq. cbn [length].
  apply Nat.add_le_mono_l, Nat.mul_le_mono_r. done.
Qed.

(** The outer loop from index [i]: with enough fuel it returns, and the messages
    it appends decode to the ids from [i] on. *)
Lemma marshal_loop_ok fuel i ids t acc :
  Forall wf_id ids → length ids ≤ i + fuel →
  ∃ msgs chunks,
    marshal_loop fuel i ids t acc = Ret (acc ++ msgs)
    ∧ Forall2 (chunk_msg t) msgs chunks ∧ concat chunks = drop i ids.
Proof.
  intros Hids. revert i acc.
  induction fuel as [|fuel IH]; intros i acc Hf; cbn [marshal_loop].
  - rewrite bool_decide_eq_false_2 by lia. exists [], [].
    rewrite app_nil_r, drop_ge by lia. done.
  - case_bool_decide as Hi; cycle 1.
    { exists [], []. rewrite app_nil_r, drop_ge by lia. done. }
    rewrite maxPeersPerMessage_eq.
    set (e := if bool_decide _ then _ else _).
    assert (i < e ∧ e ≤ length ids ∧ e - i ≤ 244 ∧ (e = i + 244 ∨ e = length ids))
      as (He1 & He2 & He3 & He4) by (subst e; case_bool_decide; lia).
    rewrite slice_in, bind_ret_l by lia.
    set (chunk := take (e - i) (drop i ids)).
    assert (Forall wf_id chunk) as Hc by (by apply Forall_take, Forall_drop).
    assert (length chunk = e - i) as Hl
      by (unfold chunk; rewrite length_take, length_drop; lia).
    rewrite marshal_chunk_eq, bind_ret_l by done.
    destruct (IH (i + 244) (acc ++ [[CurrentProtocolVersion; t] ++ concat chunk]))
      as (msgs & chunks & -> & Hm & Hcat); [lia|].
    eexists (_ :: msgs), (chunk :: chunks). split; [by rewrite <- app_assoc|].
    split.
    + constructor; [|done]. apply chunk_msg_intro; [done| |lia].
      intros Heq. rewrite Heq in Hl. simpl in Hl. lia.
    + simpl. rewrite Hcat. unfold chunk.
      rewrite <- (take_drop (e - i) (drop i ids)) at 2. f_equal.
      rewrite drop_drop. destruct He4 as [->| ->].
      * f_equal; lia.
      * rewrite !drop_ge; [done|lia|lia].
Qed.

(** ** Decoders never read out of range *)
Lemma UnmarshalTransportMsg_total buf :
  (∃ id rest, UnmarshalTransportMsg buf = Ret (id, rest) ∧ wf_id id
     ∧ UnmarshalTransportID buf = Ret id
     ∧ ∃ h, length h = offsetTransportID ∧ buf = h ++ id ++ rest)
  ∨ (length buf < headerTotalSizeTransport
     ∧ UnmarshalTransportMsg buf = Err ErrInvalidMessageLength
     ∧ UnmarshalTransportID buf = Err ErrInvalidMessageLength).
Proof.
  unfold UnmarshalTransportMsg, UnmarshalTransportID.
  case_bool_decide as Hb; [by right|left].
  assert (buf = take offsetTransportID buf
    ++ take peerIDSize (drop offsetTransportID buf)
    ++ drop headerTotalSizeTransport buf) as Hbuf.
  { rewrite <- (take_drop offsetTransportID buf) at 1. f_equal.
    rewrite <- (take_drop peerIDSize (drop offsetTransportID buf)) at 1.
    by rewrite drop_drop. }
  assert (wf_id (take peerIDSize (drop offsetTransportID buf))) as Hid.
  { unfold wf_id. rewrite length_take, length_drop.
    unfold headerTotalSizeTransport, headerSizeTransport, offsetTransportID in *. lia. }
  rewrite slice_in by (unfold headerTotalSizeTransport, headerSizeTransport,
    offsetTransportID in *; lia).
  rewrite bind_ret_l.
  replace (offsetTransportID + peerIDSize - offsetTransportID) with peerIDSize by lia.
  rewrite copy_whole, bind_ret_l by done.
  rewrite slice_from_in, bind_ret_l by lia.
  do 2 eexists. split; [done|]. split; [done|].
  split; [by rewrite bind_ret_l, copy_whole|].
  eexists. split; [|exact Hbuf].
  rewrite length_take. unfold headerTotalSizeTransport in *. unfold offsetTransportID. lia.
Qed.

Lemma read_ids_total n off buf :
  off + n * peerIDSize ≤ length buf →
  ∃ ids, read_ids n off buf = Ret ids ∧ length ids = n ∧ Forall wf_id ids.
Proof.
  revert off. induction n as [|n IH]; intros off Hlen; cbn [read_ids].
  { by exists []. }
  destruct (slice_total buf off (off + peerIDSize)) as (s & -> & Hs); [lia|lia|].
  rewrite bind_ret_l, copy_whole, bind_ret_l by (unfold wf_id; lia).
  destruct (IH (off + peerIDSize)) as (ids & -> & Hl & Hw); [lia|].
  exists (s :: ids). split; [done|]. split; [simpl; lia|].
  constructor; [unfold wf_id; lia|done].
Qed.

Lemma UnmarshalAuthMsg_total buf :
  (∃ id rest, UnmarshalAuthMsg buf = Ret (id, rest) ∧ wf_id id)
  ∨ UnmarshalAuthMsg buf = Err ErrInvalidMessageLength
  ∨ UnmarshalAuthMsg buf = Err ErrInvalidMagicHeader.
Proof.
  unfold UnmarshalAuthMsg. case_bool_decide as Hb; [naive_solver|].
  assert (headerTotalSizeAuth = 42 ∧ offsetMagicByte = 2 ∧ sizeOfMagicByte = 4
    ∧ offsetAuthPeerID = 6 ∧ peerIDSize = 36) as (E1 & E2 & E3 & E4 & E5) by done.
  destruct (slice_total buf offsetMagicByte (offsetMagicByte + sizeOfMagicByte))
    as (m & -> & _); [lia|lia|]. rewrite bind_ret_l.
  case_bool_decide; [naive_solver|].
  destruct (slice_total buf offsetAuthPeerID headerTotalSizeAuth)
    as (s & -> & Hs); [lia|lia|]. rewrite bind_ret_l.
  assert (wf_id s) by (unfold wf_id; lia).
  rewrite to_PeerID_eq, bind_ret_l, slice_from_in by (done || lia). eauto.
Qed.

Lemma UnmarshalHelloMsg_total buf :
  (∃ id rest, UnmarshalHelloMsg buf = Ret (id, rest) ∧ wf_id id)
  ∨ UnmarshalHelloMsg buf = Err ErrInvalidMessageLength
  ∨ UnmarshalHelloMsg buf = Err ErrInvalidMagicHeader.
Proof.
  unfold UnmarshalHelloMsg. case_bool_decide as Hb; [naive_solver|].
  assert (headerSizeHello = 40 ∧ sizeOfProtoHeader = 2 ∧ sizeOfMagicByte = 4
    ∧ peerIDSize = 36) as (E1 & E2 & E3 & E4) by done.
  destruct (slice_total buf sizeOfProtoHeader (sizeOfProtoHeader + sizeOfMagicByte))
    as (m & -> & _); [lia|lia|]. rewrite bind_ret_l.
  case_bool_decide; [naive_solver|].
  destruct (slice_total buf (sizeOfProtoHeader + sizeOfMagicByte)
    (sizeOfProtoHeader + headerSizeHello)) as (s & -> & Hs); [lia|lia|].
  rewrite bind_ret_l. assert (wf_id s) by (unfold wf_id; lia).
  rewrite to_PeerID_eq, bind_ret_l, slice_from_in by (done || lia). eauto.
Qed.

Lemma unmarshalPeerIDs_total buf :
  (∃ ids, unmarshalPeerIDs buf = Ret ids ∧ Forall wf_id ids
     ∧ length buf = sizeOfProtoHeader + length ids * peerIDSize)
  ∨ unmarshalPeerIDs buf = Err ErrInvalidFormat
  ∨ unmarshalPeerIDs buf = Err (ErrInvalidPeerListSize (length buf - sizeOfProtoHeader)).
Proof.
  unfold unmarshalPeerIDs. case_bool_decide; [naive_solver|].
  case_bool_decide as Hm; [naive_solver|left].
  set (n := (length buf - sizeOfProtoHeader) `div` peerIDSize).
  assert (length buf - sizeOfProtoHeader = n * peerIDSize) as Hn.
  { pose proof (Nat.div_mod_eq (length buf - sizeOfProtoHeader) peerIDSize). lia. }
  destruct (read_ids_total n sizeOfProtoHeader buf) as (ids & -> & Hl & Hw); [lia|].
  exists ids. split; [done|]. split; [done|]. lia.
Qed.

Lemma header_checks_total buf :
  ValidateVersion buf ≠ Panic ∧ DetermineClientMessageType buf ≠ Panic
  ∧ DetermineServerMessageType buf ≠ Panic.
Proof.
  unfold ValidateVersion, DetermineClientMessageType, DetermineServerMessageType.
  case_bool_decide; [done|]. rewrite sizeOfProtoHeader_eq in *.
  destruct (index_in (E:=msg_err) 0 buf) as (b0 & -> & _); [lia|].
  destruct (index_in (E:=msg_err) 1 buf) as (b1 & -> & _); [lia|].
  rewrite !bind_ret_l. by repeat case_bool_decide.
Qed.

(** ** Properties *)

(** A transport message built for a peer carries the supported version and
    the transport type, and decodes to exactly that peer and payload, with both
    decoders of the relay. *)
Theorem transport_roundtrip id payload (Hid : wf_id id) :
  ∃ msg, MarshalTransportMsg id payload = Ret msg
    ∧ ValidateVersion msg = Ret 1
    ∧ DetermineClientMessageType msg = Ret MsgTypeTransport
    ∧ DetermineServerMessageType msg = Ret MsgTypeTransport
    ∧ UnmarshalTransportID msg = Ret id
    ∧ UnmarshalTransportMsg msg = Ret (id, payload).
Proof.
  rewrite MarshalTransportMsg_eq by done. eexists. do 4 (split; [done|]).
  destruct (UnmarshalTransportMsg_total
    ([CurrentProtocolVersion; MsgTypeTransport] ++ id ++ payload))
    as [(id' & rest & -> & Hid' & -> & h & Hh & Heq)|(Hlt & _)].
  - assert (id = id' ∧ payload = rest) as [-> ->]; [|done].
    apply app_inj_1 in Heq as [_ Heq]; [|done].
    unfold wf_id in *. apply app_inj_1 in Heq as [-> ->]; [done|congruence].
  - rewrite !length_app, Hid in Hlt. cbn [length] in Hlt.
    unfold headerTotalSizeTransport, headerSizeTransport in Hlt.
    rewrite sizeOfProtoHeader_eq in Hlt. lia.
Qed.

Definition sample_id : PeerID := prefix ++ replicate 32 x5a.

Lemma transport_roundtrip_witness :
  wf_id sample_id ∧ ∃ msg, MarshalTransportMsg sample_id [x01; x02] = Ret msg
    ∧ UnmarshalTransportMsg msg = Ret (sample_id, [x01; x02]).
Proof.
  split; [reflexivity|].
  destruct (transport_roundtrip sample_id [x01; x02]) as (m & ? & ? & ? & ? & ? & ?);
    [reflexivity|eauto].
Defined.

(** Readdressing a transport message in place, as the relay does before it
    forwards it, replaces the peer id and nothing else: the payload and the
    protocol header are kept. *)
Theorem update_transport_only_id msg id payload src
    (Hdec : UnmarshalTransportMsg msg = Ret (id, payload)) (Hsrc : wf_id src) :
  ∃ msg', UpdateTransportMsg msg src = Ret msg'
    ∧ UnmarshalTransportMsg msg' = Ret (src, payload)
    ∧ length msg' = length msg
    ∧ take sizeOfProtoHeader msg' = take sizeOfProtoHeader msg.
Proof.
  destruct (UnmarshalTransportMsg_total msg)
    as [(id' & rest & Hm & Hid' & _ & h & Hh & ->)|(_ & Hm & _)]; [|congruence].
  rewrite Hm in Hdec. simplify_eq.
  assert (UpdateTransportMsg (h ++ id ++ payload) src = Ret (h ++ src ++ payload)) as ->.
  { unfold UpdateTransportMsg, wf_id in *.
    rewrite bool_decide_eq_false_2 by (rewrite !length_app, Hid'; lia).
    rewrite copy_at_in by (rewrite length_app; lia). rewrite <- Hh, take_app_length.
    rewrite (take_ge src) by (rewrite !length_app; lia).
    by rewrite drop_app_add, Hsrc, <- Hid', drop_app_length. }
  eexists. split; [done|]. split; [|split].
  - destruct (UnmarshalTransportMsg_total (h ++ src ++ payload))
      as [(id2 & rest2 & -> & Hid2 & _ & h2 & Hh2 & Heq)|(Hlt & _)].
    + apply app_inj_1 in Heq as [_ Heq]; [|congruence].
      unfold wf_id in *. apply app_inj_1 in Heq as [-> ->]; [done|congruence].
    + unfold wf_id in *. rewrite !length_app, Hsrc, Hh in Hlt.
      unfold headerTotalSizeTransport, headerSizeTransport, offsetTransportID in Hlt. lia.
  - unfold wf_id in *. rewrite !length_app. lia.
  - unfold offsetTransportID in Hh. rewrite <- Hh. by rewrite !take_app_length.
Qed.

Lemma update_transport_only_id_witness :
  ∃ msg', UpdateTransportMsg ([x01; x03] ++ replicate 36 x07 ++ [x09]) sample_id = Ret msg'
    ∧ UnmarshalTransportMsg msg' = Ret (sample_id, [x09]).
Proof.
  destruct (update_transport_only_id ([x01; x03] ++ replicate 36 x07 ++ [x09])
    (replicate 36 x07) [x09] sample_id) as (m & ? & ? & ?);
    [vm_compute; reflexivity|vm_compute; reflexivity|eauto].
Defined.

Lemma auth_message_decodes id payload :
  wf_id id → headerTotalSizeAuth + length payload ≤ MaxHandshakeSize →
  ∃ msg, MarshalAuthMsg id payload = Ret msg
    ∧ ValidateVersion msg = Ret 1
    ∧ DetermineClientMessageType msg = Ret MsgTypeAuth
    ∧ UnmarshalAuthMsg msg = Ret (id, payload)
    ∧ length msg = headerTotalSizeAuth + length payload.
Proof.
  intros Hid Hs. rewrite MarshalAuthMsg_eq by done. eexists. split; [done|].
  assert (length ([CurrentProtocolVersion; MsgTypeAuth] ++ magicHeader ++ id ++ payload)
    = headerTotalSizeAuth + length payload) as Hlen.
  { unfold wf_id in *. rewrite !length_app, Hid. reflexivity. }
  do 2 (split; [done|]). split; [|done].
  unfold UnmarshalAuthMsg. rewrite bool_decide_eq_false_2 by lia.
  rewrite (slice_mid [_; _] magicHeader _ offsetMagicByte), bind_ret_l by layout.
  rewrite bool_decide_eq_false_2 by naive_solver.
  rewrite (app_assoc [_; _] magicHeader), slice_mid, bind_ret_l by layout.
  rewrite to_PeerID_eq, bind_ret_l by done.
  rewrite app_assoc, slice_from_app, bind_ret_l; [done|].
  unfold wf_id in Hid. rewrite length_app, Hid. done.
Qed.

(** An auth message is built exactly when it fits the handshake buffer; then
    it fits [MaxHandshakeSize], is recognised as an auth message of the supported
    version and decodes to the same peer and payload. *)
Theorem auth_roundtrip id payload (Hid : wf_id id) :
  (MarshalAuthMsg id payload = Err ErrTooLargeAuthPayload
     ∧ MaxHandshakeSize < headerTotalSizeAuth + length payload)
  ∨ ∃ msg, MarshalAuthMsg id payload = Ret msg
    ∧ length msg = headerTotalSizeAuth + length payload
    ∧ length msg ≤ MaxHandshakeSize
    ∧ ValidateVersion msg = Ret 1
    ∧ DetermineClientMessageType msg = Ret MsgTypeAuth
    ∧ UnmarshalAuthMsg msg = Ret (id, payload).
Proof.
  destruct (decide (headerTotalSizeAuth + length payload ≤ MaxHandshakeSize)) as [Hs|Hs].
  - right. destruct (auth_message_decodes id payload Hid Hs) as (msg & ? & ? & ? & ? & Hl).
    exists msg. rewrite Hl. done.
  - left. unfold MarshalAuthMsg. rewrite bool_decide_eq_true_2 by lia. split; [done|lia].
Qed.

Lemma auth_roundtrip_witness :
  ∃ msg, MarshalAuthMsg sample_id [x0a] = Ret msg
    ∧ UnmarshalAuthMsg msg = Ret (sample_id, [x0a]).
Proof.
  destruct (auth_roundtrip sample_id [x0a]) as [[Hbad _]|(m & ? & _ & _ & _ & _ & ?)];
    [reflexivity|vm_compute in Hbad; discriminate Hbad|eauto].
Defined.

Lemma marshalPeerIDs_ok ids t (Hids : Forall wf_id ids) (Hne : ids ≠ []) :
  ∃ msgs chunks, marshalPeerIDs ids t = Ret msgs
    ∧ Forall2 (chunk_msg t) msgs chunks ∧ concat chunks = ids.
Proof.
  destruct (marshal_loop_ok (length ids) 0 ids t []) as (msgs & chunks & Hm & H2 & Hc);
    [done|lia|].
  exists msgs, chunks. split; [|done]. unfold marshalPeerIDs.
  rewrite bool_decide_eq_false_2; [exact Hm|]. by destruct ids.
Qed.

(** A peer-state notification for any non-empty list of peers, however long,
    is split into messages that each fit [MaxMessageSize], carry the right
    version and type, and decode, in order, to exactly the list; the empty list is
    refused. *)
Theorem peer_state_roundtrip ids t (Hids : Forall wf_id ids) (Hne : ids ≠ []) :
  ∃ msgs chunks, marshalPeerIDs ids t = Ret msgs
    ∧ Forall2 (chunk_msg t) msgs chunks ∧ concat chunks = ids.
Proof. by apply marshalPeerIDs_ok. Qed.

Lemma peer_state_roundtrip_witness :
  ∃ msgs chunks, marshalPeerIDs (replicate 300 sample_id) MsgTypePeersOnline = Ret msgs
    ∧ Forall2 (chunk_msg MsgTypePeersOnline) msgs chunks
    ∧ concat chunks = replicate 300 sample_id.
Proof.
  apply peer_state_roundtrip; [by apply Forall_replicate|discriminate].
Defined.

(** No input, however malformed, makes a decoder or a header check of the
    relay protocol panic, and every peer id a decoder returns has the length of
    the array type. *)
Theorem decoders_never_panic buf :
  ValidateVersion buf ≠ Panic ∧ DetermineClientMessageType buf ≠ Panic
  ∧ DetermineServerMessageType buf ≠ Panic
  ∧ (match UnmarshalTransportMsg buf with Ret (id, _) => wf_id id | Err _ => True | Panic => False end)
  ∧ (match UnmarshalAuthMsg buf with Ret (id, _) => wf_id id | Err _ => True | Panic => False end)
  ∧ (match UnmarshalHelloMsg buf with Ret (id, _) => wf_id id | Err _ => True | Panic => False end)
  ∧ (match unmarshalPeerIDs buf with Ret ids => Forall wf_id ids | Err _ => True | Panic => False end).
Proof.
  destruct (header_checks_total buf) as (? & ? & ?). do 3 (split; [done|]).
  pose proof (UnmarshalTransportMsg_total buf). pose proof (UnmarshalAuthMsg_total buf).
  pose proof (UnmarshalHelloMsg_total buf). pose proof (unmarshalPeerIDs_total buf).
  destruct_or?; destruct_and?; repeat match goal with H : ∃ _, _ |- _ => destruct H end;
    destruct_and?; repeat match goal with H : _ = _ |- _ => rewrite H end; done.
Qed.

(** The deprecated hello decoder does not invert the hello encoder: what it
    returns as the additional data starts with the last two bytes of the peer id
    (it slices at [headerSizeHello], without the protocol header). *)
Theorem hello_additions_shifted id additions (Hid : wf_id id) :
  (msg ← MarshalHelloMsg id additions; UnmarshalHelloMsg msg)
  = Ret (id, drop (peerIDSize - sizeOfProtoHeader) id ++ additions).
Proof.
  rewrite MarshalHelloMsg_eq, bind_ret_l. unfold UnmarshalHelloMsg, wf_id in *.
  rewrite bool_decide_eq_false_2
    by (rewrite !length_app, Hid; cbn [length magicHeader]; cbv -[length]; lia).
  rewrite (slice_mid [_; _] magicHeader _ sizeOfProtoHeader), bind_ret_l by layout.
  rewrite bool_decide_eq_false_2 by naive_solver.
  rewrite (app_assoc [_; _] magicHeader), slice_mid, bind_ret_l by layout.
  rewrite to_PeerID_eq, bind_ret_l by done.
  rewrite slice_from_in, bind_ret_l
    by (rewrite !length_app, Hid; cbn [length magicHeader]; cbv -[length]; lia).
  do 2 f_equal.
  change headerSizeHello with (length ([CurrentProtocolVersion; MsgTypeHello] ++ magicHeader)
    + (peerIDSize - sizeOfProtoHeader)).
  rewrite drop_app_add, drop_app_le; [done|]. rewrite Hid. lia.
Qed.

Lemma hello_additions_shifted_witness :
  (msg ← MarshalHelloMsg sample_id [x0a]; UnmarshalHelloMsg msg)
  = Ret (sample_id, [x5a; x5a; x0a]).
Proof. apply (hello_additions_shifted sample_id [x0a]). reflexivity. Defined.
