(* ===== verification/Redis.v ===== *)
(** The Redis server as the HA code uses it.

    Redis and the go-redis client are not part of the repository.  [RedisServer]
    is the interface the HA components are verified against: a store type, the
    commands the code issues, and the documented effect of each command, stated
    on the server's keyspace (live keys with their typed value and expiry).  Every
    theorem about a component that talks to Redis holds for every instance of the
    class; [mem_redis] at the end of the file is a concrete instance, with which
    the witnesses are evaluated.

    A command may fail on the way: [net] is what the network does to one call. *)
From S2P Require Import Prelude.

Inductive rval :=
| RStr (v : string)
| RHash (h : gmap string string)
| RZset (z : gmap string Z).

(** A key's value and, for a key with a TTL, the instant it expires. *)
Abbreviation entry := (rval * option Z)%type.

Inductive rerr :=
| RedisNil        (* redis.Nil: no such key or field *)
| RedisWrongType  (* WRONGTYPE *)
| RedisNet.       (* the call did not complete *)

Abbreviation reply := (outcome rerr).

(** go-redis sends [EXPIRE] in whole seconds and [SET .. NX] with [EX] or [PX];
    for a positive whole number of seconds the TTL is exact. *)
Definition whole_secs (ttl : Z) : Prop := (0 < ttl)%Z ∧ (ttl mod Second = 0)%Z.

(** Reading a typed value out of the keyspace. *)
Section views.
Implicit Types ks : gmap string entry.

Definition str_at ks (k : string) : reply string :=
  match ks !! k with
  | Some (RStr v, _) => Ret v
  | Some _ => Err RedisWrongType
  | None => Err RedisNil
  end.

(** A missing hash or sorted set is an empty one. *)
Definition hash_at ks (k : string) : reply (gmap string string) :=
  match ks !! k with
  | Some (RHash h, _) => Ret h
  | Some _ => Err RedisWrongType
  | None => Ret ∅
  end.

Definition zset_at ks (k : string) : reply (gmap string Z) :=
  match ks !! k with
  | Some (RZset z, _) => Ret z
  | Some _ => Err RedisWrongType
  | None => Ret ∅
  end.

Definition expiry_of ks (k : string) : option Z := ks !! k ≫= snd.

(** Redis removes a hash or a sorted set when its last element goes. *)
Definition put_hash (k : string) (h : gmap string string) ks : gmap string entry :=
  if decide (h = ∅) then delete k ks else <[k := (RHash h, expiry_of ks k)]> ks.

Definition put_zset (k : string) (z : gmap string Z) ks : gmap string entry :=
  if decide (z = ∅) then delete k ks else <[k := (RZset z, expiry_of ks k)]> ks.

(** The keys that are still alive at instant [t]. *)
Definition alive (t : Z) (e : entry) : bool :=
  match e.2 with Some x => bool_decide (t < x)%Z | None => true end.

Definition live (t : Z) ks : gmap string entry := filter (λ p, alive t p.2 = true) ks.
End views.

Class RedisServer := {
  store : Type;
  keyspace : store → gmap string entry;
  clock : store → Z;

  SetNX : string → string → Z → store → reply bool * store;
  Get : string → store → reply string * store;
  Del : string → store → reply Z * store;
  Expire : string → Z → store → reply bool * store;
  HSet : string → string → string → store → reply Z * store;
  HGet : string → string → store → reply string * store;
  HDel : string → string → store → reply Z * store;
  ZAdd : string → Z → string → store → reply Z * store;
  ZRem : string → string → store → reply Z * store;
  ZRangeByScore : string → Z → Z → store → reply (list string) * store;
  advance : Z → store → store;
}.

(** The documented behaviour of the commands. *)
Class RedisLaws (R : RedisServer) := {
  SetNX_free k v ttl s : whole_secs ttl → keyspace s !! k = None →
    (SetNX k v ttl s).1 = Ret true
    ∧ keyspace (SetNX k v ttl s).2 = <[k := (RStr v, Some (clock s + ttl)%Z)]> (keyspace s);
  SetNX_busy k v ttl s : is_Some (keyspace s !! k) → SetNX k v ttl s = (Ret false, s);
  Get_spec k s : Get k s = (str_at (keyspace s) k, s);
  Del_spec k s :
    (Del k s).1 = Ret (if decide (is_Some (keyspace s !! k)) then 1%Z else 0%Z)
    ∧ keyspace (Del k s).2 = delete k (keyspace s);
  Expire_spec k ttl s : whole_secs ttl →
    (Expire k ttl s).1 = Ret (bool_decide (is_Some (keyspace s !! k)))
    ∧ keyspace (Expire k ttl s).2
      = alter (λ e, (e.1, Some (clock s + ttl)%Z)) k (keyspace s);
  HSet_spec k f v s :
    match hash_at (keyspace s) k with
    | Ret h => (HSet k f v s).1 = Ret (if decide (is_Some (h !! f)) then 0%Z else 1%Z)
               ∧ keyspace (HSet k f v s).2 = put_hash k (<[f := v]> h) (keyspace s)
    | _ => HSet k f v s = (Err RedisWrongType, s)
    end;
  HGet_spec k f s :
    HGet k f s = (match hash_at (keyspace s) k with
                  | Ret h => match h !! f with Some v => Ret v | None => Err RedisNil end
                  | _ => Err RedisWrongType
                  end, s);
  HDel_spec k f s :
    match hash_at (keyspace s) k with
    | Ret h => (HDel k f s).1 = Ret (if decide (is_Some (h !! f)) then 1%Z else 0%Z)
               ∧ keyspace (HDel k f s).2 = put_hash k (delete f h) (keyspace s)
    | _ => HDel k f s = (Err RedisWrongType, s)
    end;
  ZAdd_spec k sc m s :
    match zset_at (keyspace s) k with
    | Ret z => (ZAdd k sc m s).1 = Ret (if decide (is_Some (z !! m)) then 0%Z else 1%Z)
               ∧ keyspace (ZAdd k sc m s).2 = put_zset k (<[m := sc]> z) (keyspace s)
    | _ => ZAdd k sc m s = (Err RedisWrongType, s)
    end;
  ZRem_spec k m s :
    match zset_at (keyspace s) k with
    | Ret z => (ZRem k m s).1 = Ret (if decide (is_Some (z !! m)) then 1%Z else 0%Z)
               ∧ keyspace (ZRem k m s).2 = put_zset k (delete m z) (keyspace s)
    | _ => ZRem k m s = (Err RedisWrongType, s)
    end;
  ZRangeByScore_spec k lo hi s :
    match zset_at (keyspace s) k with
    | Ret z => ∃ l, ZRangeByScore k lo hi s = (Ret l, s) ∧ NoDup l
               ∧ ∀ m, m ∈ l ↔ ∃ sc, z !! m = Some sc ∧ (lo ≤ sc ≤ hi)%Z
    | _ => ZRangeByScore k lo hi s = (Err RedisWrongType, s)
    end;
  advance_spec d s : (0 ≤ d)%Z →
    clock (advance d s) = (clock s + d)%Z
    ∧ keyspace (advance d s) = live (clock s + d)%Z (keyspace s);
  clock_SetNX k v ttl s : clock (SetNX k v ttl s).2 = clock s;
  clock_Del k s : clock (Del k s).2 = clock s;
  clock_Expire k ttl s : clock (Expire k ttl s).2 = clock s;
  clock_HSet k f v s : clock (HSet k f v s).2 = clock s;
  clock_HDel k f s : clock (HDel k f s).2 = clock s;
  clock_ZAdd k sc m s : clock (ZAdd k sc m s).2 = clock s;
  clock_ZRem k m s : clock (ZRem k m s).2 = clock s;
}.

Create Rewrite HintDb redis.
#[export] Hint Rewrite @clock_SetNX @clock_Del @clock_Expire @clock_HSet @clock_HDel
  @clock_ZAdd @clock_ZRem using apply _ : redis.

(** ** One call over the network

    [NetLost]: the request never reached the server; [NetReplyLost]: the server
    executed it, but the caller sees an error (timeout, connection loss). *)
Inductive net := NetOk | NetLost | NetReplyLost.

Definition call {S A : Type} (n : net) (cmd : S → reply A * S) (s : S) : reply A * S :=
  match n with
  | NetOk => cmd s
  | NetLost => (Err RedisNet, s)
  | NetReplyLost => (Err RedisNet, (cmd s).2)
  end.

Lemma call_inv {S A} n (cmd : S → reply A * S) s a s' :
  call n cmd s = (Ret a, s') → n = NetOk ∧ cmd s = (Ret a, s').
Proof. destruct n; naive_solver. Qed.

Lemma call_state {S A} n (cmd : S → reply A * S) s :
  (call n cmd s).2 = s ∨ (call n cmd s).2 = (cmd s).2.
Proof. destruct n; simpl; auto. Qed.

Lemma live_lookup t ks k e :
  live t ks !! k = Some e ↔ ks !! k = Some e ∧ alive t e = true.
Proof. unfold live. rewrite map_lookup_filter_Some. done. Qed.

Lemma put_hash_at k h ks : hash_at (put_hash k h ks) k = Ret h.
Proof.
  unfold put_hash, hash_at. case_decide as Hh.
  - by rewrite lookup_delete_eq, Hh.
  - by rewrite lookup_insert_eq.
Qed.

Lemma put_hash_ne k k' h ks : k ≠ k' → put_hash k h ks !! k' = ks !! k'.
Proof.
  intros. unfold put_hash. case_decide; [by rewrite lookup_delete_ne|].
  by rewrite lookup_insert_ne.
Qed.

Lemma put_zset_at k z ks : zset_at (put_zset k z ks) k = Ret z.
Proof.
  unfold put_zset, zset_at. case_decide as Hz.
  - by rewrite lookup_delete_eq, Hz.
  - by rewrite lookup_insert_eq.
Qed.

(** ** A concrete server *)
Record mem := Mem { mem_keys : gmap string entry; mem_clock : Z }.

Definition mem_SetNX (k v : string) (ttl : Z) (s : mem) : reply bool * mem :=
  match mem_keys s !! k with
  | Some _ => (Ret false, s)
  | None => (Ret true, Mem (<[k := (RStr v, Some (mem_clock s + ttl)%Z)]> (mem_keys s)) (mem_clock s))
  end.

Definition mem_hash {A} (k : string) (s : mem) (f : gmap string string → reply A * gmap string string)
    : reply A * mem :=
  match hash_at (mem_keys s) k with
  | Ret h => let '(a, h') := f h in (a, Mem (put_hash k h' (mem_keys s)) (mem_clock s))
  | _ => (Err RedisWrongType, s)
  end.

Definition mem_zset {A} (k : string) (s : mem) (f : gmap string Z → reply A * gmap string Z)
    : reply A * mem :=
  match zset_at (mem_keys s) k with
  | Ret z => let '(a, z') := f z in (a, Mem (put_zset k z' (mem_keys s)) (mem_clock s))
  | _ => (Err RedisWrongType, s)
  end.

Definition mem_range (lo hi : Z) (z : gmap string Z) : list string :=
  (map_to_list (filter (λ p, (lo ≤ p.2)%Z ∧ (p.2 ≤ hi)%Z) z)).*1.

#[export, refine] Instance mem_redis : RedisServer := {|
  store := mem;
  keyspace := mem_keys;
  clock := mem_clock;
  SetNX := mem_SetNX;
  Get k s := (str_at (mem_keys s) k, s);
  Del k s := (Ret (if decide (is_Some (mem_keys s !! k)) then 1%Z else 0%Z),
              Mem (delete k (mem_keys s)) (mem_clock s));
  Expire k ttl s := (Ret (bool_decide (is_Some (mem_keys s !! k))),
    Mem (alter (λ e, (e.1, Some (mem_clock s + ttl)%Z)) k (mem_keys s)) (mem_clock s));
  HSet k f v s := mem_hash k s (λ h,
    (Ret (if decide (is_Some (h !! f)) then 0%Z else 1%Z), <[f := v]> h));
  HGet k f s := (match hash_at (mem_keys s) k with
                 | Ret h => match h !! f with Some v => Ret v | None => Err RedisNil end
                 | _ => Err RedisWrongType
                 end, s);
  HDel k f s := mem_hash k s (λ h,
    (Ret (if decide (is_Some (h !! f)) then 1%Z else 0%Z), delete f h));
  ZAdd k sc m s := mem_zset k s (λ z,
    (Ret (if decide (is_Some (z !! m)) then 0%Z else 1%Z), <[m := sc]> z));
  ZRem k m s := mem_zset k s (λ z,
    (Ret (if decide (is_Some (z !! m)) then 1%Z else 0%Z), delete m z));
  ZRangeByScore k lo hi s :=
    (match zset_at (mem_keys s) k with Ret z => Ret (mem_range lo hi z) | _ => Err RedisWrongType end, s);
  advance d s := Mem (live (mem_clock s + d)%Z (mem_keys s)) (mem_clock s + d)%Z;
|}.
Proof. Defined.

Lemma mem_range_spec lo hi z :
  NoDup (mem_range lo hi z)
  ∧ ∀ m, m ∈ mem_range lo hi z ↔ ∃ sc, z !! m = Some sc ∧ (lo ≤ sc ≤ hi)%Z.
Proof.
  unfold mem_range. split; [apply NoDup_fst_map_to_list|]. intros m.
  rewrite list_elem_of_fmap. split.
  - intros ([m' sc] & -> & Hin). apply elem_of_map_to_list in Hin.
    apply map_lookup_filter_Some in Hin as [? ?]. eauto.
  - intros (sc & Hz & Hr). exists (m, sc). split; [done|].
    apply elem_of_map_to_list, map_lookup_filter_Some. done.
Qed.

#[export] Instance mem_redis_laws : RedisLaws mem_redis.
Proof.
  split; intros; simpl in *; try done.
  - unfold mem_SetNX. by rewrite H0.
  - unfold mem_SetNX. destruct H as [? ->]. done.
  - unfold mem_hash. by destruct (hash_at _ _).
  - unfold mem_hash. by destruct (hash_at _ _).
  - unfold mem_zset. by destruct (zset_at _ _).
  - unfold mem_zset. by destruct (zset_at _ _).
  - destruct (zset_at _ _); try done. eexists. split; [done|]. apply mem_range_spec.
  - unfold mem_SetNX. by destruct (_ !! _).
  - unfold mem_hash. by destruct (hash_at _ _).
  - unfold mem_hash. by destruct (hash_at _ _).
  - unfold mem_zset. by destruct (zset_at _ _).
  - unfold mem_zset. by destruct (zset_at _ _).
Qed.
