(* ===== verification/HAConfig.v ===== *)
(** HA configuration and Redis key hygiene: [src/shared/distributed/config.go],
    [src/shared/distributed/redis.go] ([NewClient]),
    [src/signal/server/config.go] and the validation of
    [src/management/server/distributed/config.go].

    [Validate] mutates its receiver; the model returns the updated record.  The
    environment ([os.Getenv]), the random source and the outcome of the initial
    [PING] are arguments. *)
From stdpp Require Import pretty.
From S2P Require Import Prelude.
Open Scope Z_scope.

(** ** SanitizeRedisKey *)
Module Sanitize.
(** Go ranges over the runes of a string: [rune_len s] is the length of the valid
    UTF-8 sequence at the head of [s], [None] when the first byte does not start
    one (the loop then sees [U+FFFD] and moves on by one byte). *)
Definition in_range (lo hi : Z) (b : byte) : bool :=
  let z := Z.of_N (Byte.to_N b) in (lo <=? z) && (z <=? hi).
Definition cont : byte → bool := in_range 0x80 0xBF.

Definition rune_len (s : list byte) : option nat :=
  match s with
  | [] => None
  | b0 :: s1 =>
      if in_range 0x00 0x7F b0 then Some 1%nat else
      match s1 with
      | [] => None
      | b1 :: s2 =>
          if in_range 0xC2 0xDF b0 && cont b1 then Some 2%nat else
          match s2 with
          | [] => None
          | b2 :: s3 =>
              if ((in_range 0xE0 0xE0 b0 && in_range 0xA0 0xBF b1)
                  || (in_range 0xE1 0xEC b0 && cont b1)
                  || (in_range 0xED 0xED b0 && in_range 0x80 0x9F b1)
                  || (in_range 0xEE 0xEF b0 && cont b1)) && cont b2
              then Some 3%nat else
              match s3 with
              | [] => None
              | b3 :: _ =>
                  if ((in_range 0xF0 0xF0 b0 && in_range 0x90 0xBF b1)
                      || (in_range 0xF1 0xF3 b0 && cont b1)
                      || (in_range 0xF4 0xF4 b0 && in_range 0x80 0x8F b1))
                     && cont b2 && cont b3
                  then Some 4%nat else None
              end
          end
      end
  end.

Definition replacement : list byte := [xef; xbf; xbd].   (* U+FFFD *)
Definition underscore : byte := x5f.

(** [':', '*', '?', '[', '\\', '\n', '\r'] *)
Definition metas : list byte := [x3a; x2a; x3f; x5b; x5c; x0a; x0d].

Fixpoint sanitize_loop (fuel : nat) (s : list byte) : list byte :=
  match fuel, s with
  | O, _ | _, [] => []
  | S fuel, b :: rest =>
      match rune_len s with
      | Some 1%nat =>
          (if bool_decide (b ∈ metas) then underscore else b) :: sanitize_loop fuel rest
      | Some n => take n s ++ sanitize_loop fuel (drop n s)
      | None => replacement ++ sanitize_loop fuel rest
      end
  end.

Definition sanitize (s : list byte) : list byte := sanitize_loop (length s) s.
End Sanitize.

Definition SanitizeRedisKey (key : string) : string :=
  String.string_of_list_byte (Sanitize.sanitize (String.list_byte_of_string key)).

(** ** HAConfig *)
Definition MaxTimeout : Z := 30 * Second.

Record HAConfig := {
  Enabled : bool;
  RedisAddress : string;
  RedisPassword : string;
  RedisDB : Z;
  DialTimeout : Z;
  ReadTimeout : Z;
  WriteTimeout : Z;
  PoolSize : Z;
  MaxIdleConns : Z;
  MinIdleConns : Z;
  ConnMaxLifetime : Z;
  TLSEnabled : bool;
  InstanceID : string;
}.

Definition DefaultHAConfig : HAConfig := {|
  Enabled := false;
  RedisAddress := "localhost:6379";
  RedisPassword := "";
  RedisDB := 0;
  DialTimeout := 5 * Second;
  ReadTimeout := 3 * Second;
  WriteTimeout := 3 * Second;
  PoolSize := 10;
  MaxIdleConns := 5;
  MinIdleConns := 1;
  ConnMaxLifetime := 1 * Hour;
  TLSEnabled := false;
  InstanceID := "";
|}.

(** *** generateUUID: 16 random bytes with the version and variant bits set,
    printed in hexadecimal; a timestamp when the random source fails. *)
Definition hex_digit (z : Z) : Ascii.ascii :=
  default Ascii.zero (String.get (Z.to_nat z) "0123456789abcdef").

Definition hex_byte (z : Z) : string :=
  String.String (hex_digit (z / 16)) (String.String (hex_digit (z mod 16)) "").

Definition hex (l : list Z) : string := foldr (λ z s, (hex_byte z +:+ s)%string) "" l.

Definition generateUUID (rand : option (list Z)) (unix_nano : Z) : string :=
  match rand with
  | None => "auto-" +:+ pretty unix_nano
  | Some b =>
      let b := <[6%nat := Z.lor (Z.land (nth 6 b 0) 0x0f) 0x40]> b in
      let b := <[8%nat := Z.lor (Z.land (nth 8 b 0) 0x3f) 0x80]> b in
      let sub lo hi := hex (take (hi - lo) (drop lo b)) in
      sub 0%nat 4%nat +:+ "-" +:+ sub 4%nat 6%nat +:+ "-" +:+ sub 6%nat 8%nat
        +:+ "-" +:+ sub 8%nat 10%nat +:+ "-" +:+ sub 10%nat 16%nat
  end%string.

(** [getenv_id] is the value of NB_HA_INSTANCE_ID, [uuid] what [generateUUID]
    returns. *)
Definition DetectInstanceID (getenv_id uuid cfgValue : string) : string :=
  if bool_decide (cfgValue ≠ "") then cfgValue
  else if bool_decide (getenv_id ≠ "") then getenv_id
  else uuid.

Inductive cfg_err :=
| ErrRedisAddressRequired
| ErrDialTimeout (d : Z)
| ErrReadTimeout (d : Z)
| ErrWriteTimeout (d : Z)
| ErrNotEnabled
| ErrInvalidConfig (e : cfg_err)
| ErrPing.

(** [if x <= 0 { x = d }] *)
Definition default_pos (x d : Z) : Z := if x <=? 0 then d else x.
(** [if x < 0 { x = d }] *)
Definition default_nonneg (x d : Z) : Z := if x <? 0 then d else x.

Definition Validate (getenv_id uuid : string) (c : HAConfig) : outcome cfg_err HAConfig :=
  if negb (Enabled c) then Ret c
  else if bool_decide (RedisAddress c = "") then Err ErrRedisAddressRequired
  else
    let dial := default_pos (DialTimeout c) (5 * Second) in
    if MaxTimeout <? dial then Err (ErrDialTimeout dial)
    else
      let read := default_pos (ReadTimeout c) (3 * Second) in
      if MaxTimeout <? read then Err (ErrReadTimeout read)
      else
        let write := default_pos (WriteTimeout c) (3 * Second) in
        if MaxTimeout <? write then Err (ErrWriteTimeout write)
        else
          let maxIdle := default_nonneg (MaxIdleConns c) 5 in
          let minIdle := default_nonneg (MinIdleConns c) 1 in
          Ret {| Enabled := Enabled c;
                 RedisAddress := RedisAddress c;
                 RedisPassword := RedisPassword c;
                 RedisDB := RedisDB c;
                 DialTimeout := dial;
                 ReadTimeout := read;
                 WriteTimeout := write;
                 PoolSize := default_pos (PoolSize c) 10;
                 MaxIdleConns := maxIdle;
                 MinIdleConns := if maxIdle <? minIdle then maxIdle else minIdle;
                 ConnMaxLifetime := default_pos (ConnMaxLifetime c) (1 * Hour);
                 TLSEnabled := TLSEnabled c;
                 InstanceID := DetectInstanceID getenv_id uuid (InstanceID c) |}.

(** A [*HAConfig] may be nil. *)
Definition IsEnabled (c : option HAConfig) : bool :=
  match c with Some c => Enabled c | None => false end.

(** *** NewClient: the client keeps the validated copy of the configuration. *)
Definition NewClient (getenv_id uuid : string) (ping_ok : bool) (cfg : HAConfig)
    : outcome cfg_err HAConfig :=
  if negb (Enabled cfg) then Err ErrNotEnabled
  else match Validate getenv_id uuid cfg with
       | Err e => Err (ErrInvalidConfig e)
       | Panic => Panic
       | Ret cfg => if ping_ok then Ret cfg else Err ErrPing
       end.

(** ** SignalHAConfig *)
Record SignalHAConfig := {
  sig_HAConfig : HAConfig;
  RegistryKey : string;
  ChannelPrefix : string;
  PeerTTL : Z;
  HeartbeatInterval : Z;
  SendTimeout : Z;
  Secret : string;
}.

Definition DefaultSignalHAConfig : SignalHAConfig := {|
  sig_HAConfig := DefaultHAConfig;
  RegistryKey := "nb:signal:registry";
  ChannelPrefix := "nb:signal:instance:";
  PeerTTL := 30 * Second;
  HeartbeatInterval := 10 * Second;
  SendTimeout := 10 * Second;
  Secret := "";
|}.

Definition default_str (s d : string) : string := if bool_decide (s = "") then d else s.

Definition Signal_Validate (getenv_id uuid : string) (c : SignalHAConfig)
    : outcome cfg_err SignalHAConfig :=
  base ← Validate getenv_id uuid (sig_HAConfig c);
  if negb (Enabled base) then Ret c
  else Ret {| sig_HAConfig := base;
              RegistryKey := default_str (RegistryKey c) "nb:signal:registry";
              ChannelPrefix := default_str (ChannelPrefix c) "nb:signal:instance:";
              PeerTTL := default_pos (PeerTTL c) (30 * Second);
              HeartbeatInterval := default_pos (HeartbeatInterval c) (10 * Second);
              SendTimeout := default_pos (SendTimeout c) (10 * Second);
              Secret := Secret c |}.

(** ** ManagementHAConfig *)
Record ManagementHAConfig := {
  mgmt_HAConfig : HAConfig;
  PeersRegistryKey : string;
  AccountChannelPrefix : string;
  LockPrefix : string;
  LoginFilterKey : string;
  EphemeralKey : string;
  mgmt_PeerTTL : Z;
  mgmt_HeartbeatInterval : Z;
  LockTTL : Z;
}.

Definition DefaultManagementHAConfig : ManagementHAConfig := {|
  mgmt_HAConfig := DefaultHAConfig;
  PeersRegistryKey := "netbird:management:peers:registry";
  AccountChannelPrefix := "netbird:management:account:";
  LockPrefix := "netbird:management:lock:";
  LoginFilterKey := "netbird:management:login:filter";
  EphemeralKey := "nb:mgmt:ephemeral";
  mgmt_PeerTTL := 30 * Second;
  mgmt_HeartbeatInterval := 10 * Second;
  LockTTL := 15 * Second;
|}.

Definition Management_Validate (getenv_id uuid : string) (c : ManagementHAConfig)
    : outcome cfg_err ManagementHAConfig :=
  base ← Validate getenv_id uuid (mgmt_HAConfig c);
  if negb (Enabled base) then Ret c
  else Ret {| mgmt_HAConfig := base;
              PeersRegistryKey := PeersRegistryKey c;
              AccountChannelPrefix := AccountChannelPrefix c;
              LockPrefix := LockPrefix c;
              LoginFilterKey := LoginFilterKey c;
              EphemeralKey := EphemeralKey c;
              mgmt_PeerTTL := default_pos (mgmt_PeerTTL c) (30 * Second);
              mgmt_HeartbeatInterval := default_pos (mgmt_HeartbeatInterval c) (10 * Second);
              LockTTL := default_pos (LockTTL c) (15 * Second) |}.

(** ** Key hygiene *)
Module SanitizeFacts.
Import Sanitize.

Definition high (b : byte) : Prop := (0x80 <= Z.of_N (Byte.to_N b)).

Lemma in_range_high lo hi b : 0x80 <= lo → in_range lo hi b = true → high b.
Proof. unfold in_range, high. intros. lia. Qed.

Lemma high_not_meta b : high b → b ∉ metas.
Proof.
  intros Hb Hin. repeat (apply elem_of_cons in Hin as [->|Hin]; [by vm_compute in Hb|]).
  by apply elem_of_nil in Hin.
Qed.

(** A multi-byte rune is made of non-ASCII bytes, and recognising it looks at
    no byte after it. *)
Lemma rune_len_spec s n :
  rune_len s = Some n →
  (n = 1%nat ∧ ∃ b t, s = b :: t ∧ ∀ t', rune_len (b :: t') = Some 1%nat)
  ∨ ((2 ≤ n)%nat ∧ (n ≤ length s)%nat ∧ Forall high (take n s)
     ∧ ∀ t', rune_len (take n s ++ t') = Some n).
Proof.
  unfold rune_len at 1.
  destruct s as [|b0 s]; [done|]. destruct (in_range 0 _ b0) eqn:H0.
  { intros [= <-]. left. split; [done|]. exists b0, s. split; [done|].
    intros t'. simpl. by rewrite H0. }
  destruct s as [|b1 s]; [done|]. destruct (in_range 0xC2 _ b0 && _) eqn:H1.
  { intros [= <-]. right. apply andb_true_iff in H1 as [? ?].
    repeat split; [lia|simpl; lia| |].
    - repeat constructor; (eapply in_range_high; [|done]; lia).
    - intros t'. simpl. rewrite H0. simpl. by rewrite H, H1. }
  destruct s as [|b2 s]; [done|]. destruct ((_ || _) && cont b2) eqn:H2.
  { intros [= <-]. right. repeat split; [lia|simpl; lia| |].
    - apply andb_true_iff in H2 as [H2 ?].
      repeat (apply orb_true_iff in H2 as [H2|H2]); apply andb_true_iff in H2 as [? ?];
        repeat constructor; (eapply in_range_high; [|done]; lia).
    - intros t'. simpl. rewrite H0, H1, H2. done. }
  destruct s as [|b3 s]; [done|]. destruct (_ && cont b3) eqn:H3; [|done].
  intros [= <-]. right. repeat split; [lia|simpl; lia| |].
  - apply andb_true_iff in H3 as [H3 ?]. apply andb_true_iff in H3 as [H3 ?].
    repeat (apply orb_true_iff in H3 as [H3|H3]); apply andb_true_iff in H3 as [? ?];
      repeat constructor; (eapply in_range_high; [|done]; lia).
  - intros t'. simpl. rewrite H0, H1, H2, H3. done.
Qed.

Lemma underscore_not_meta : underscore ∉ metas.
Proof. apply (bool_decide_unpack _). vm_compute. done. Qed.

Definition clean (l : list byte) : Prop :=
  Forall (λ b, b ∉ metas) l
  ∧ ∀ fuel, (length l ≤ fuel)%nat → sanitize_loop fuel l = l.

Lemma clean_nil : clean [].
Proof. split; [done|]. by intros []. Qed.

Lemma clean_ascii b l :
  b ∉ metas → (∀ t, rune_len (b :: t) = Some 1%nat) → clean l → clean (b :: l).
Proof.
  intros Hb Hr [Hm Hl]. split; [by constructor|].
  intros [|fuel] Hf; [simpl in Hf; lia|]. cbn [sanitize_loop]. rewrite Hr.
  rewrite bool_decide_eq_false_2 by done. rewrite Hl; [done|simpl in Hf; lia].
Qed.

Lemma clean_rune s n l :
  (2 ≤ n)%nat → (n ≤ length s)%nat → Forall high (take n s) →
  (∀ t', rune_len (take n s ++ t') = Some n) → clean l → clean (take n s ++ l).
Proof.
  intros Hn Hlen Hh Hr [Hm Hl]. split.
  { apply Forall_app. split; [|done]. eapply Forall_impl; [done|]. apply high_not_meta. }
  assert (length (take n s) = n) as Htl by (rewrite length_take; lia).
  intros fuel Hf. rewrite length_app, Htl in Hf.
  destruct fuel as [|fuel]; [lia|].
  destruct (take n s ++ l) as [|b r] eqn:Heq.
  { destruct (take n s); simpl in Htl; [lia|done]. }
  cbn [sanitize_loop]. rewrite <- Heq, Hr.
  destruct n as [|[|n]]; [lia|lia|].
  rewrite take_app_le, drop_app_le by lia.
  rewrite (take_ge (take _ s)), (drop_ge (take _ s)) by lia.
  rewrite app_nil_l. by rewrite Hl by lia.
Qed.

Lemma sanitize_loop_clean fuel s : (length s ≤ fuel)%nat → clean (sanitize_loop fuel s).
Proof.
  revert s. induction fuel as [|fuel IH]; intros s Hf; [apply clean_nil|].
  destruct s as [|b s]; [apply clean_nil|]. cbn [sanitize_loop].
  destruct (rune_len (b :: s)) as [n|] eqn:Hr.
  - apply rune_len_spec in Hr as [(-> & b' & t & [= <- <-] & Hr)|(Hn & Hlen & Hh & Hr)].
    + apply clean_ascii; [| |apply IH; simpl in Hf; lia]; case_bool_decide; try done.
      apply underscore_not_meta.
    + destruct n as [|[|n]]; [lia|lia|]. apply clean_rune; try done.
      apply IH. rewrite length_drop. lia.
  - apply (clean_rune replacement 3); try done; try (simpl; lia).
    + repeat constructor; done.
    + apply IH. simpl in Hf. lia.
Qed.
End SanitizeFacts.

(** A sanitised key contains none of the Redis metacharacters, and
    sanitising is idempotent, for every byte string, valid UTF-8 or not. *)
Theorem sanitize_clean_idempotent key :
  Forall (λ b, b ∉ Sanitize.metas) (String.list_byte_of_string (SanitizeRedisKey key))
  ∧ SanitizeRedisKey (SanitizeRedisKey key) = SanitizeRedisKey key.
Proof.
  unfold SanitizeRedisKey, Sanitize.sanitize.
  set (l := String.list_byte_of_string key).
  destruct (SanitizeFacts.sanitize_loop_clean (length l) l) as [Hm Hl]; [done|].
  rewrite String.list_byte_of_string_of_list_byte. split; [done|]. by rewrite Hl.
Qed.

Example sanitize_registry_key :
  SanitizeRedisKey "nb:signal:registry" = "nb_signal_registry".
Proof. vm_compute. reflexivity. Qed.

(** ** Validation *)
Lemma default_pos_gt x d : 0 < d → 0 < default_pos x d.
Proof. unfold default_pos. destruct (x <=? 0) eqn:?; lia. Qed.

Lemma default_pos_id x d : 0 < x → default_pos x d = x.
Proof. unfold default_pos. destruct (x <=? 0) eqn:?; lia. Qed.

Lemma default_nonneg_ge x d : 0 <= d → 0 <= default_nonneg x d.
Proof. unfold default_nonneg. destruct (x <? 0) eqn:?; lia. Qed.

Lemma default_nonneg_id x d : 0 <= x → default_nonneg x d = x.
Proof. unfold default_nonneg. destruct (x <? 0) eqn:?; lia. Qed.

(** What a validated, enabled configuration guarantees. *)
Record valid_cfg (c : HAConfig) : Prop := {
  vc_addr : RedisAddress c ≠ "";
  vc_dial : 0 < DialTimeout c <= MaxTimeout;
  vc_read : 0 < ReadTimeout c <= MaxTimeout;
  vc_write : 0 < WriteTimeout c <= MaxTimeout;
  vc_pool : 0 < PoolSize c;
  vc_idle : 0 <= MinIdleConns c <= MaxIdleConns c;
  vc_life : 0 < ConnMaxLifetime c;
  vc_id : InstanceID c ≠ "";
}.

Lemma DetectInstanceID_nonempty env uuid v :
  uuid ≠ "" → DetectInstanceID env uuid v ≠ "".
Proof. unfold DetectInstanceID. intros. by repeat case_bool_decide. Qed.

Lemma Validate_sound env uuid c c' :
  uuid ≠ "" → Enabled c = true → Validate env uuid c = Ret c' → valid_cfg c' ∧ Enabled c' = true.
Proof.
  unfold Validate. intros Hu Hen. rewrite Hen. cbn [negb].
  case_bool_decide as Ha; [done|].
  destruct (MaxTimeout <? default_pos (DialTimeout c) _) eqn:H1; [done|].
  destruct (MaxTimeout <? default_pos (ReadTimeout c) _) eqn:H2; [done|].
  destruct (MaxTimeout <? default_pos (WriteTimeout c) _) eqn:H3; [done|].
  intros [= <-]. split; [|done].
  assert (0 < Second ∧ 0 < Hour) as [? ?] by done.
  pose proof (default_nonneg_ge (MaxIdleConns c) 5).
  pose proof (default_nonneg_ge (MinIdleConns c) 1).
  split; cbn; try (split; [by apply default_pos_gt; lia|lia]); try done.
  - by apply default_pos_gt.
  - destruct (_ <? default_nonneg (MinIdleConns c) 1) eqn:?; lia.
  - by apply default_pos_gt; lia.
  - by apply DetectInstanceID_nonempty.
Qed.

Lemma Validate_id env uuid c c' :
  Enabled c = true → Validate env uuid c = Ret c' →
  InstanceID c' = DetectInstanceID env uuid (InstanceID c).
Proof.
  unfold Validate. intros Hen. rewrite Hen. cbn [negb]. case_bool_decide; [done|].
  repeat (case_match; [done|]). by intros [= <-].
Qed.

Lemma Validate_fixpoint env uuid c :
  Enabled c = true → valid_cfg c → Validate env uuid c = Ret c.
Proof.
  intros Hen [Ha Hd Hr Hw Hp Hi Hl Hid]. unfold Validate. rewrite Hen. cbn [negb].
  rewrite bool_decide_eq_false_2 by done.
  rewrite !default_pos_id by lia. rewrite !default_nonneg_id by lia.
  destruct (MaxTimeout <? _) eqn:?; [lia|].
  destruct (MaxTimeout <? ReadTimeout c) eqn:?; [lia|].
  destruct (MaxTimeout <? WriteTimeout c) eqn:?; [lia|].
  destruct (MaxIdleConns c <? _) eqn:?; [lia|].
  unfold DetectInstanceID. rewrite bool_decide_eq_true_2 by done.
  destruct c; simpl in *; subst; done.
Qed.

(** A client is created only from an enabled configuration whose timeouts are
    positive and at most [MaxTimeout], whose pool bounds are consistent and whose
    instance id is not empty; validating again changes nothing. *)
Theorem new_client_config_valid env uuid ping c c'
    (Huuid : uuid ≠ "") (H : NewClient env uuid ping c = Ret c') :
  Enabled c = true ∧ ping = true ∧ valid_cfg c'
  ∧ (InstanceID c ≠ "" → InstanceID c' = InstanceID c)
  ∧ ∀ env' uuid', Validate env' uuid' c' = Ret c'.
Proof.
  unfold NewClient in H. destruct (Enabled c) eqn:Hen; [|done]. simpl in H.
  destruct (Validate env uuid c) as [c''| |] eqn:Hv; try done.
  destruct ping; [|done]. simplify_eq.
  destruct (Validate_sound _ _ _ _ Huuid Hen Hv) as [Hc Hen'].
  do 2 (split; [done|]). split; [done|]. split.
  - intros Hid. rewrite (Validate_id _ _ _ _ Hen Hv).
    unfold DetectInstanceID. by rewrite bool_decide_eq_true_2.
  - intros. by apply Validate_fixpoint.
Qed.

Definition sample_cfg : HAConfig :=
  {| Enabled := true; RedisAddress := "redis:6379"; RedisPassword := ""; RedisDB := 0;
     DialTimeout := 0; ReadTimeout := 0; WriteTimeout := -1; PoolSize := 0;
     MaxIdleConns := 2; MinIdleConns := 7; ConnMaxLifetime := 0; TLSEnabled := false;
     InstanceID := "" |}.

Lemma new_client_config_valid_witness :
  match NewClient "" "auto-1" true sample_cfg with
  | Ret c' => valid_cfg c' ∧ MinIdleConns c' = 2 ∧ InstanceID c' = "auto-1"
  | _ => False
  end.
Proof.
  destruct (NewClient "" "auto-1" true sample_cfg) as [c'| |] eqn:H;
    [|vm_compute in H; discriminate H|vm_compute in H; discriminate H].
  destruct (new_client_config_valid "" "auto-1" true sample_cfg c') as (_ & _ & Hv & _ & _);
    [discriminate|exact H|].
  vm_compute in H. injection H as <-. split; [exact Hv|split; reflexivity].
Defined.
