(* ===== verification/DistLock.v ===== *)
(** The distributed lock of the management server:
    [src/management/server/distributed/lock.go].

    A lock is a Redis string whose value is the instance id of its holder, set
    with [SET NX EX], kept alive by a heartbeat goroutine and removed by a Lua
    script.  [Handle] is what [Acquire] returns (the [release] closure and its
    goroutine); [lstep] interleaves the calls of any number of instances, the
    ticks of their heartbeats ([GET] and [EXPIRE] are separate commands), lost
    requests and replies, and the passing of time. *)
From S2P Require Import Prelude Redis HAConfig.
Open Scope Z_scope.

Section lock.
Context {R : RedisServer} {RL : RedisLaws R}.

Inductive lock_err :=
| ErrAcquireFailed (e : rerr)
| ErrLockHeld
| ErrReleaseFailed (e : rerr).

(** [heartbeat]: waiting for the ticker, between [GET] and [EXPIRE], or stopped. *)
Inductive beat := BeatWait | BeatOwned | BeatStopped.

Record Handle := {
  h_value : string;     (* value: the instance id *)
  h_key : string;
  h_ttl : Z;
  h_released : bool;
  h_beat : beat;
}.

Definition set_beat (b : beat) (h : Handle) : Handle :=
  {| h_value := h_value h; h_key := h_key h; h_ttl := h_ttl h;
     h_released := h_released h; h_beat := b |}.

Definition set_released (h : Handle) : Handle :=
  {| h_value := h_value h; h_key := h_key h; h_ttl := h_ttl h;
     h_released := true; h_beat := BeatStopped |}.

Definition lock_key (resource : string) : string := "lock:" +:+ SanitizeRedisKey resource.

(** [GET key == ARGV[1] ? DEL key : 0], run atomically by the server; [GET] of a
    missing key is [false] in Lua. *)
Definition unlockScript (key arg : string) (s : store) : reply Z * store :=
  match Get key s with
  | (Ret v, s') => if decide (v = arg) then Del key s' else (Ret 0, s')
  | (Err RedisNil, s') => (Ret 0, s')
  | (Err e, s') => (Err e, s')
  | (Panic, s') => (Panic, s')
  end.

Definition Acquire (n : net) (instanceID resource : string) (ttl : Z) (s : store)
    : outcome lock_err Handle * store :=
  let key := lock_key resource in
  match call n (SetNX key instanceID ttl) s with
  | (Ret true, s') =>
      (Ret {| h_value := instanceID; h_key := key; h_ttl := ttl;
              h_released := false; h_beat := BeatWait |}, s')
  | (Ret false, s') => (Err ErrLockHeld, s')
  | (Err e, s') => (Err (ErrAcquireFailed e), s')
  | (Panic, s') => (Panic, s')
  end.

(** The ticker case of the heartbeat goroutine, first half: verify ownership. *)
Definition heartbeat_get (n : net) (h : Handle) (s : store) : Handle * store :=
  match call n (Get (h_key h)) s with
  | (Ret v, s') =>
      if decide (v = h_value h) then (set_beat BeatOwned h, s')
      else (set_beat BeatStopped h, s')
  | (_, s') => (set_beat BeatStopped h, s')
  end.

(** Second half: extend the TTL; the boolean reply of [EXPIRE] is not looked at. *)
Definition heartbeat_expire (n : net) (h : Handle) (s : store) : bool * Handle * store :=
  match call n (Expire (h_key h) (h_ttl h)) s with
  | (Ret _, s') => (true, set_beat BeatWait h, s')
  | (_, s') => (false, set_beat BeatStopped h, s')
  end.

Definition Release (n : net) (h : Handle) (s : store)
    : outcome lock_err unit * Handle * store :=
  if h_released h then (Ret tt, h, s)
  else
    let h' := set_released h in
    match call n (unlockScript (h_key h) (h_value h)) s with
    | (Ret _, s') => (Ret tt, h', s')
    | (Err e, s') => (Err (ErrReleaseFailed e), h', s')
    | (Panic, s') => (Panic, h', s')
    end.

(** ** Effect of the operations on the keyspace *)
Lemma unlock_owned key v s e :
  keyspace s !! key = Some (RStr v, e) →
  (unlockScript key v s).1 = Ret 1
  ∧ keyspace (unlockScript key v s).2 = delete key (keyspace s)
  ∧ clock (unlockScript key v s).2 = clock s.
Proof.
  intros Hk. unfold unlockScript. rewrite Get_spec. unfold str_at. rewrite Hk.
  rewrite decide_True by done. destruct (Del_spec key s) as [-> ->].
  rewrite clock_Del, decide_True by eauto. done.
Qed.

Lemma unlock_foreign key v s :
  (∀ e, keyspace s !! key ≠ Some (RStr v, e)) → (unlockScript key v s).2 = s.
Proof.
  intros Hk. unfold unlockScript. rewrite Get_spec. unfold str_at.
  destruct (keyspace s !! key) as [[[w| |] e]|] eqn:E; simpl; try done.
  case_decide; [|done]. subst. naive_solver.
Qed.

(** The store after [unlockScript] is the store before it, or before it the key
    held [v] and only that key was deleted. *)
Lemma unlock_cases key v s :
  (unlockScript key v s).2 = s
  ∨ (∃ e, keyspace s !! key = Some (RStr v, e))
    ∧ keyspace (unlockScript key v s).2 = delete key (keyspace s)
    ∧ clock (unlockScript key v s).2 = clock s.
Proof.
  destruct (keyspace s !! key) as [[[w| |] e]|] eqn:E;
    try (left; apply unlock_foreign; rewrite E; naive_solver).
  destruct (decide (w = v)) as [->|].
  - right. destruct (unlock_owned _ _ _ _ E) as (_ & ? & ?). eauto.
  - left. apply unlock_foreign. rewrite E. naive_solver.
Qed.

Lemma SetNX_cases key v ttl s :
  whole_secs ttl →
  SetNX key v ttl s = (Ret false, s) ∧ is_Some (keyspace s !! key)
  ∨ keyspace s !! key = None ∧ (SetNX key v ttl s).1 = Ret true
    ∧ keyspace (SetNX key v ttl s).2 = <[key := (RStr v, Some (clock s + ttl))]> (keyspace s)
    ∧ clock (SetNX key v ttl s).2 = clock s.
Proof.
  intros Ht. destruct (keyspace s !! key) eqn:E.
  - left. split; [apply SetNX_busy|]; eauto.
  - right. destruct (SetNX_free key v ttl s Ht E). by rewrite clock_SetNX.
Qed.

Lemma Acquire_Ret n inst res ttl s h s' :
  whole_secs ttl → Acquire n inst res ttl s = (Ret h, s') →
  keyspace s !! lock_key res = None
  ∧ keyspace s' = <[lock_key res := (RStr inst, Some (clock s + ttl))]> (keyspace s)
  ∧ clock s' = clock s
  ∧ h_value h = inst ∧ h_key h = lock_key res ∧ h_ttl h = ttl
  ∧ h_released h = false ∧ h_beat h = BeatWait.
Proof.
  intros Ht. unfold Acquire.
  destruct (call n _ s) as [[[|]| |] s1] eqn:Hc; try done. intros [= <- <-].
  apply call_inv in Hc as [_ Hc].
  destruct (SetNX_cases (lock_key res) inst ttl s Ht) as [[? _]|(? & _ & ? & ?)];
    [congruence|]. rewrite Hc in *. done.
Qed.

(** A failed [Acquire] leaves the keyspace alone, except that a lost reply may
    leave the lock taken in this instance's name. *)
Lemma Acquire_store n inst res ttl s :
  whole_secs ttl →
  let s' := (Acquire n inst res ttl s).2 in
  clock s' = clock s ∧
  (keyspace s' = keyspace s
   ∨ keyspace s !! lock_key res = None
     ∧ keyspace s' = <[lock_key res := (RStr inst, Some (clock s + ttl))]> (keyspace s)).
Proof.
  intros Ht s'. subst s'. unfold Acquire.
  destruct (call_state n (SetNX (lock_key res) inst ttl) s) as [Hc|Hc];
  destruct (call n _ s) as [[[|]| |] s1]; simpl in *; subst s1; auto;
  destruct (SetNX_cases (lock_key res) inst ttl s Ht) as [[-> _]|(? & _ & ? & ?)]; auto.
Qed.

Lemma Release_store n h s :
  let s' := (Release n h s).2 in
  clock s' = clock s ∧
  (keyspace s' = keyspace s
   ∨ h_released h = false
     ∧ (∃ e, keyspace s !! h_key h = Some (RStr (h_value h), e))
     ∧ keyspace s' = delete (h_key h) (keyspace s)).
Proof.
  intros s'. subst s'. unfold Release. destruct (h_released h); [auto|].
  destruct (call_state n (unlockScript (h_key h) (h_value h)) s) as [Hc|Hc];
  destruct (call n _ s) as [[| |] s1]; simpl in *; subst s1; auto;
  destruct (unlock_cases (h_key h) (h_value h) s) as [-> |(? & ? & ?)]; auto.
Qed.

Lemma heartbeat_get_store n h s : (heartbeat_get n h s).2 = s.
Proof.
  unfold heartbeat_get.
  assert ((call n (Get (h_key h)) s).2 = s) as Hs.
  { destruct n; simpl; rewrite ?Get_spec; done. }
  destruct (call n _ s) as [[v| |] s1]; simpl in *; subst; [|done..]. by case_decide.
Qed.

Lemma heartbeat_expire_store n h s :
  whole_secs (h_ttl h) →
  let s' := (heartbeat_expire n h s).2 in
  clock s' = clock s ∧
  (keyspace s' = keyspace s ∧ (heartbeat_expire n h s).1.1 = false
   ∨ keyspace s' = alter (λ e, (e.1, Some (clock s + h_ttl h))) (h_key h) (keyspace s)).
Proof.
  intros Ht s'. subst s'. unfold heartbeat_expire.
  destruct (Expire_spec (h_key h) (h_ttl h) s Ht) as [Hr Hk].
  pose proof (clock_Expire (h_key h) (h_ttl h) s) as Hcl.
  destruct n; simpl; [|auto|auto].
  destruct (Expire (h_key h) (h_ttl h) s) as [r s1]; simpl in *. subst r. simpl. auto.
Qed.

(** ** Many instances, interleaved

    [l_end] is the holder's own lease: the instant its last successful [SET NX] or
    [EXPIRE] guarantees the lock until. *)
Record lease := { l_h : Handle; l_end : Z }.
Record sys := { sys_store : store; sys_leases : gmap nat lease }.

Inductive label :=
| LAcquire (inst key : string) (ttl : Z)
| LBeatGet (i : nat)
| LBeatExpire (i : nat)
| LRelease (i : nat)
| LTime.

Inductive lstep : sys → label → sys → Prop :=
| step_acquire σ n i inst res ttl h s' :
    sys_leases σ !! i = None →
    Acquire n inst res ttl (sys_store σ) = (Ret h, s') →
    lstep σ (LAcquire inst (lock_key res) ttl)
      {| sys_store := s';
         sys_leases := <[i := {| l_h := h; l_end := clock (sys_store σ) + ttl |}]> (sys_leases σ) |}
| step_acquire_err σ n inst res ttl e s' :
    Acquire n inst res ttl (sys_store σ) = (Err e, s') →
    lstep σ (LAcquire inst (lock_key res) ttl)
      {| sys_store := s'; sys_leases := sys_leases σ |}
| step_beat_get σ n i L h' s' :
    sys_leases σ !! i = Some L → h_beat (l_h L) = BeatWait →
    heartbeat_get n (l_h L) (sys_store σ) = (h', s') →
    lstep σ (LBeatGet i)
      {| sys_store := s';
         sys_leases := <[i := {| l_h := h'; l_end := l_end L |}]> (sys_leases σ) |}
| step_beat_expire σ n i L ok h' s' :
    sys_leases σ !! i = Some L → h_beat (l_h L) = BeatOwned →
    heartbeat_expire n (l_h L) (sys_store σ) = (ok, h', s') →
    lstep σ (LBeatExpire i)
      {| sys_store := s';
         sys_leases := <[i := {| l_h := h';
           l_end := if ok : bool then clock (sys_store σ) + h_ttl (l_h L) else l_end L |}]>
           (sys_leases σ) |}
| step_release σ n i L r h' s' :
    sys_leases σ !! i = Some L →
    (* wg.Wait(): the goroutine is not between GET and EXPIRE *)
    h_beat (l_h L) ≠ BeatOwned →
    Release n (l_h L) (sys_store σ) = (r, h', s') →
    lstep σ (LRelease i)
      {| sys_store := s';
         sys_leases := <[i := {| l_h := h'; l_end := l_end L |}]> (sys_leases σ) |}
| step_time σ d :
    0 <= d →
    lstep σ LTime {| sys_store := advance d (sys_store σ); sys_leases := sys_leases σ |}.

Definition sys_init (s : store) : sys := {| sys_store := s; sys_leases := ∅ |}.
Definition any_step (σ σ' : sys) : Prop := ∃ l, lstep σ l σ'.

(** Lease [i] is held: not released, and its holder may still count on it. *)
Definition holds (σ : sys) (i : nat) (key : string) : Prop :=
  ∃ L, sys_leases σ !! i = Some L ∧ h_key (l_h L) = key
    ∧ h_released (l_h L) = false ∧ clock (sys_store σ) < l_end L.

(** The usage under which the lock excludes: TTLs are whole seconds, an instance
    asks for a resource again only after releasing its previous handle, and the
    heartbeat's [EXPIRE] is issued within the lease it extends. *)
Definition disciplined (σ : sys) (l : label) : Prop :=
  match l with
  | LAcquire inst key ttl =>
      whole_secs ttl
      ∧ ∀ i L, sys_leases σ !! i = Some L → h_released (l_h L) = false →
               h_value (l_h L) = inst → h_key (l_h L) ≠ key
  | LBeatExpire i =>
      ∀ L, sys_leases σ !! i = Some L →
           h_released (l_h L) = false ∧ clock (sys_store σ) < l_end L
  | _ => True
  end.

Definition ok_step (σ σ' : sys) : Prop := ∃ l, lstep σ l σ' ∧ disciplined σ l.

(** ** The invariant *)
Record lock_inv (σ : sys) : Prop := {
  inv_ttl i L : sys_leases σ !! i = Some L →
    whole_secs (h_ttl (l_h L)) ∧ l_end L <= clock (sys_store σ) + h_ttl (l_h L);
  inv_backed i L :
    sys_leases σ !! i = Some L → h_released (l_h L) = false →
    clock (sys_store σ) < l_end L →
    ∃ e, keyspace (sys_store σ) !! h_key (l_h L) = Some (RStr (h_value (l_h L)), Some e)
      ∧ l_end L <= e;
  inv_single i j L1 L2 :
    sys_leases σ !! i = Some L1 → sys_leases σ !! j = Some L2 →
    h_released (l_h L1) = false → h_released (l_h L2) = false →
    h_value (l_h L1) = h_value (l_h L2) → h_key (l_h L1) = h_key (l_h L2) → i = j;
}.

(** Replacing the handle of one lease, keeping its identity and lease. *)
Definition same_lock (h h' : Handle) : Prop :=
  h_value h' = h_value h ∧ h_key h' = h_key h ∧ h_ttl h' = h_ttl h
  ∧ (h_released h' = false → h_released h = false).

(** The store moved from [s] to [s'] without weakening any held lock of another
    instance; used by every step that does not take the lock. *)
Lemma inv_update σ i L h' e' s' :
  lock_inv σ → sys_leases σ !! i = Some L → same_lock (l_h L) h' →
  clock s' = clock (sys_store σ) → e' <= clock s' + h_ttl h' →
  (∀ j M, sys_leases σ !! j = Some M → j ≠ i → h_released (l_h M) = false →
     clock (sys_store σ) < l_end M →
     keyspace s' !! h_key (l_h M) = keyspace (sys_store σ) !! h_key (l_h M)) →
  (h_released h' = false → clock s' < e' →
     ∃ e, keyspace s' !! h_key h' = Some (RStr (h_value h'), Some e) ∧ e' <= e) →
  lock_inv {| sys_store := s'; sys_leases := <[i := {| l_h := h'; l_end := e' |}]> (sys_leases σ) |}.
Proof.
  intros [It Ib Is] HL (Hv & Hk & Ht & Hr) Hc He' Hother Hown. split; simpl.
  - intros j M [[<- <-]|[? HM]]%lookup_insert_Some; simpl.
    + rewrite Ht in *. by destruct (It i L HL).
    + rewrite Hc. by apply (It j).
  - intros j M [[<- <-]|[? HM]]%lookup_insert_Some HrM HlM; simpl in *; [by apply Hown|].
    destruct (Ib j M) as (x & Hx & ?); [done|done|lia|].
    exists x. split; [|done]. rewrite <- Hx. apply (Hother j M); [done|done|done|lia].
  - intros j1 j2 M1 M2 [[<- <-]|[? H1]]%lookup_insert_Some
      [[<- <-]|[? H2]]%lookup_insert_Some; simpl; intros; try done;
      (eapply Is; [done|done|auto|auto| |]; congruence).
Qed.

(** In a reachable state no other unreleased lease has the key of a held lease
    with the same value, so a held lease of another index has another value. *)
Lemma inv_other_value σ i j L M :
  lock_inv σ → sys_leases σ !! i = Some L → sys_leases σ !! j = Some M → i ≠ j →
  h_released (l_h L) = false → h_released (l_h M) = false →
  h_key (l_h L) = h_key (l_h M) → h_value (l_h L) ≠ h_value (l_h M).
Proof. intros [_ _ Is] ?? Hne ???. intros ?. apply Hne. by eapply Is. Qed.

Lemma inv_acquire σ i inst res ttl h s' n :
  lock_inv σ → disciplined σ (LAcquire inst (lock_key res) ttl) →
  sys_leases σ !! i = None → Acquire n inst res ttl (sys_store σ) = (Ret h, s') →
  lock_inv {| sys_store := s';
    sys_leases := <[i := {| l_h := h; l_end := clock (sys_store σ) + ttl |}]> (sys_leases σ) |}.
Proof.
  intros [It Ib Is] [Ht Hone] Hi Ha.
  destruct (Acquire_Ret _ _ _ _ _ _ _ Ht Ha) as (Hfree & Hks & Hc & Hv & Hk & Htt & Hr & _).
  split; simpl.
  - rewrite Hc. intros j M [[<- <-]|[? ?]]%lookup_insert_Some; simpl;
      [rewrite Htt; split; [done|lia]|by eapply It].
  - intros j M [[<- <-]|[? HM]]%lookup_insert_Some HrM HlM; simpl in *.
    + rewrite Hks, Hk, Hv, lookup_insert_eq. eauto with lia.
    + destruct (Ib j M HM HrM) as (e & He & ?); [lia|].
      exists e. split; [|done]. rewrite Hks, lookup_insert_ne; [done|]. congruence.
  - intros j1 j2 M1 M2 [[<- <-]|[? H1]]%lookup_insert_Some
      [[<- <-]|[? H2]]%lookup_insert_Some; simpl; intros R1 R2 V K; try done.
    + exfalso. eapply Hone; [exact H2|done|congruence|congruence].
    + exfalso. eapply Hone; [exact H1|done|congruence|congruence].
    + by eapply Is.
Qed.

Lemma inv_acquire_err σ inst res ttl e s' n :
  lock_inv σ → disciplined σ (LAcquire inst (lock_key res) ttl) →
  Acquire n inst res ttl (sys_store σ) = (Err e, s') →
  lock_inv {| sys_store := s'; sys_leases := sys_leases σ |}.
Proof.
  intros [It Ib Is] [Ht _] Ha.
  pose proof (Acquire_store n inst res ttl (sys_store σ) Ht) as Hs.
  rewrite Ha in Hs. simpl in Hs. destruct Hs as [Hc Hks].
  split; simpl; [by rewrite Hc| |done].
  intros j M HM HrM HlM. destruct (Ib j M HM HrM) as (x & Hx & ?); [lia|].
  exists x. split; [|done]. destruct Hks as [->|[Hfree ->]]; [done|].
  rewrite lookup_insert_ne; [done|congruence].
Qed.

Lemma inv_time σ d :
  lock_inv σ → 0 <= d →
  lock_inv {| sys_store := advance d (sys_store σ); sys_leases := sys_leases σ |}.
Proof.
  intros [It Ib Is] Hd. destruct (advance_spec d (sys_store σ) Hd) as [Hc Hks].
  split; simpl; [| |done].
  { intros j M HM. destruct (It j M HM). rewrite Hc. split; [done|lia]. }
  intros j M HM HrM HlM. rewrite Hc in HlM.
  destruct (Ib j M HM HrM) as (x & Hx & ?); [lia|].
  exists x. split; [|done]. rewrite Hks. apply live_lookup. split; [done|].
  unfold alive. simpl. apply bool_decide_eq_true_2. lia.
Qed.

Lemma heartbeat_get_same n h s : same_lock h (heartbeat_get n h s).1.
Proof.
  unfold heartbeat_get. destruct (call n _ s) as [[v| |] s1]; [case_decide|..];
    by repeat split.
Qed.

Lemma heartbeat_expire_same n h s : same_lock h (heartbeat_expire n h s).1.2.
Proof.
  unfold heartbeat_expire. by destruct (call n _ s) as [[v| |] s1]; repeat split.
Qed.

Lemma Release_same n h s : same_lock h (Release n h s).1.2 ∧ h_released (Release n h s).1.2 = true.
Proof.
  unfold Release. destruct (h_released h) eqn:Hr; [by repeat split|].
  by destruct (call n _ s) as [[v| |] s1]; repeat split.
Qed.

Lemma ok_step_inv σ σ' : lock_inv σ → ok_step σ σ' → lock_inv σ'.
Proof.
  intros I (l & Hstep & Hd). pose proof I as [It Ib Is].
  destruct Hstep as [σ n i inst res ttl h s' Hi Ha|σ n inst res ttl e s' Ha
    |σ n i L h' s' HL Hb Hg|σ n i L ok h' s' HL Hb Hg|σ n i L r h' s' HL Hb Hg|σ d Hdd].
  - by eapply inv_acquire.
  - by eapply inv_acquire_err.
  - pose proof (heartbeat_get_same n (l_h L) (sys_store σ)) as Hs.
    pose proof (heartbeat_get_store n (l_h L) (sys_store σ)) as Hst.
    rewrite Hg in Hs, Hst. simpl in *. subst s'.
    pose proof Hs as (Hv & Hk & Ht & Hr).
    apply (inv_update σ i L); auto; [rewrite Ht; by apply (It i)|].
    intros ? ?. rewrite Hk, Hv. apply (Ib i L); auto.
  - pose proof (heartbeat_expire_same n (l_h L) (sys_store σ)) as Hs.
    pose proof (heartbeat_expire_store n (l_h L) (sys_store σ) (proj1 (It i L HL))) as Hst.
    rewrite Hg in Hs, Hst. simpl in *. destruct Hst as [Hc Hks].
    destruct (Hd L HL) as [HrL HlL]. pose proof Hs as (Hv & Hk & Ht & _).
    destruct (Ib i L HL HrL HlL) as (e & He & Hle). destruct (It i L HL) as [_ Hend].
    apply (inv_update σ i L); auto.
    + rewrite Hc, Ht. destruct ok; lia.
    + intros j M HM Hne HrM HlM. destruct Hks as [[-> _]| ->]; [done|].
      rewrite lookup_alter_ne; [done|]. intros Heq.
      destruct (Ib j M HM HrM HlM) as (e' & He' & _).
      apply (inv_other_value σ i j L M); try done. rewrite Heq in He. congruence.
    + intros _ _. rewrite Hk, Hv. destruct Hks as [[-> ->]| ->]; [eauto|].
      rewrite lookup_alter_eq, He. simpl. eexists. split; [done|].
      destruct ok; lia.
  - pose proof (Release_same n (l_h L) (sys_store σ)) as [Hs Hrel].
    pose proof (Release_store n (l_h L) (sys_store σ)) as Hst.
    rewrite Hg in Hs, Hst, Hrel. simpl in *. destruct Hst as [Hc Hks].
    pose proof Hs as (_ & _ & Ht & _).
    apply (inv_update σ i L); auto; [rewrite Hc, Ht; by apply (It i)| |congruence].
    intros j M HM Hne HrM HlM. destruct Hks as [-> |(HrL & [e He] & ->)]; [done|].
    rewrite lookup_delete_ne; [done|]. intros Heq.
    destruct (Ib j M HM HrM HlM) as (e' & He' & _).
    apply (inv_other_value σ i j L M); try done. rewrite Heq in He. congruence.
  - by apply inv_time.
Qed.

(** ** Properties *)

Lemma lock_inv_init s : lock_inv (sys_init s).
Proof. split; intros *; simpl; by rewrite lookup_empty. Qed.

Lemma reachable_inv s σ : rtc ok_step (sys_init s) σ → lock_inv σ.
Proof.
  generalize (lock_inv_init s). intros Hi Hr. revert Hi.
  induction Hr as [|σ1 σ2 σ3 Hs _ IH]; [done|]. intros Hi. by eapply IH, ok_step_inv.
Qed.

(** C1: mutual exclusion: in every state reachable by interleaved acquires,
    heartbeats, releases, lost requests, lost replies and the passing of time,
    under the stated discipline, at most one handle holds a given lock. *)
Theorem lock_mutual_exclusion s σ i j key
    (Hreach : rtc ok_step (sys_init s) σ)
    (Hi : holds σ i key) (Hj : holds σ j key) : i = j.
Proof.
  apply reachable_inv in Hreach as [_ Ib Is].
  destruct Hi as (L & HL & HkL & HrL & HlL), Hj as (M & HM & HkM & HrM & HlM).
  destruct (Ib i L HL HrL HlL) as (e & He & _), (Ib j M HM HrM HlM) as (e' & He' & _).
  apply (Is i j L M); congruence.
Qed.

(** An acquired lock that is released while still owned leaves the keyspace
    as it was before the acquire, and a second release of the same handle does
    nothing. *)
Theorem acquire_release_restores n inst res ttl s h s1
    (Httl : whole_secs ttl) (Ha : Acquire n inst res ttl s = (Ret h, s1)) :
  ∃ h' s2, Release NetOk h s1 = (Ret tt, h', s2)
    ∧ keyspace s2 = keyspace s ∧ clock s2 = clock s
    ∧ ∀ n', Release n' h' s2 = (Ret tt, h', s2).
Proof.
  destruct (Acquire_Ret _ _ _ _ _ _ _ Httl Ha) as (Hfree & Hks & Hc & Hv & Hk & _ & Hr & _).
  unfold Release. rewrite Hr. cbn [call]. rewrite Hk, Hv.
  destruct (unlock_owned (lock_key res) inst s1 (Some (clock s + ttl))) as (H1 & H2 & H3).
  { by rewrite Hks, lookup_insert_eq. }
  destruct (unlockScript _ _ s1) as [r s2]; simpl in *; subst r.
  eexists _, s2. split; [done|]. split; [|split; [congruence|done]].
  rewrite H2, Hks. by rewrite delete_insert_id.
Qed.

(** A release, whatever the network does to it, never touches a lock that
    another instance has taken over in the meantime. *)
Theorem release_spares_other_owner n h s w e
    (Hk : keyspace s !! h_key h = Some (RStr w, e)) (Hw : w ≠ h_value h) :
  keyspace (Release n h s).2 = keyspace s.
Proof.
  destruct (Release_store n h s) as [_ [->|(_ & [e' He'] & _)]]; [done|congruence].
Qed.

End lock.

(** ** Concrete runs *)
Definition mem0 : @store mem_redis := Mem ∅ 0.
Definition resource : string := "loginfilter:k".

Definition lease_A : lease (* taken at 0 with a 5s TTL *) :=
  {| l_h := {| h_value := "A"; h_key := lock_key resource; h_ttl := 5 * Second;
               h_released := false; h_beat := BeatWait |};
     l_end := 5 * Second |}.

Lemma lock_mutual_exclusion_witness :
  ∃ σ : sys (R:=mem_redis), rtc ok_step (sys_init mem0) σ ∧ holds σ 0%nat (lock_key resource)
    ∧ ∀ j, holds σ j (lock_key resource) → 0%nat = j.
Proof.
  set (σ := {| sys_store := (Acquire NetOk "A" resource (5 * Second) mem0).2;
               sys_leases := {[ 0%nat := lease_A ]} |} : sys (R:=mem_redis)).
  assert (rtc ok_step (sys_init mem0) σ) as Hr.
  { apply rtc_once. exists (LAcquire "A" (lock_key resource) (5 * Second)). split.
    - refine (step_acquire _ NetOk 0%nat "A" resource (5 * Second) (l_h lease_A) _ _ _);
        reflexivity.
    - split; [split; reflexivity|]. intros i L HL. simpl in HL.
      rewrite lookup_empty in HL. discriminate HL. }
  assert (holds σ 0%nat (lock_key resource)) as Hh.
  { exists lease_A. repeat split; reflexivity. }
  exists σ. split; [exact Hr|]. split; [exact Hh|]. intros j Hj.
  exact (lock_mutual_exclusion mem0 σ 0%nat j (lock_key resource) Hr Hh Hj).
Defined.

Lemma acquire_release_restores_witness :
  ∃ h' s2, Release NetOk (l_h lease_A) (Acquire NetOk "A" resource (5 * Second) mem0).2
           = (Ret tt, h', s2) ∧ keyspace s2 = ∅.
Proof.
  destruct (acquire_release_restores NetOk "A" resource (5 * Second) mem0
    (l_h lease_A) (Acquire NetOk "A" resource (5 * Second) mem0).2)
    as (h' & s2 & H1 & H2 & _ & _); [split; reflexivity|reflexivity|].
  exists h', s2. split; [exact H1|exact H2].
Defined.

Lemma release_spares_other_owner_witness :
  keyspace (Release NetOk (l_h lease_A)
    (Acquire NetOk "B" resource (5 * Second) mem0).2).2
  = keyspace (Acquire NetOk "B" resource (5 * Second) mem0).2.
Proof.
  apply (release_spares_other_owner NetOk (l_h lease_A)
    (Acquire NetOk "B" resource (5 * Second) mem0).2 "B" (Some (5 * Second)));
    [vm_compute; reflexivity|discriminate].
Defined.

(** The discipline is needed: the lock value is the instance id, not a token
    per acquire, so when a lease has run out and the same instance takes the
    lock again, releasing the stale handle deletes the new lock; another instance
    then acquires it while the second handle's lease still runs. *)
Theorem stale_release_breaks_exclusion :
  ∃ σ : sys (R:=mem_redis), rtc any_step (sys_init mem0) σ
    ∧ holds σ 1%nat (lock_key resource) ∧ holds σ 2%nat (lock_key resource).
Proof.
  set (h v b := {| h_value := v; h_key := lock_key resource; h_ttl := 5 * Second;
                   h_released := b; h_beat := if b : bool then BeatStopped else BeatWait |}).
  eexists. split; [|split].
  - eapply rtc_l; [exists (LAcquire "A" (lock_key resource) (5 * Second));
      refine (step_acquire _ NetOk 0%nat "A" resource (5 * Second) (h "A"%string false) _ _ _);
      reflexivity|].
    eapply rtc_l; [exists LTime; apply (step_time _ (6 * Second)); vm_compute; discriminate|].
    eapply rtc_l; [exists (LAcquire "A" (lock_key resource) (5 * Second));
      refine (step_acquire _ NetOk 1%nat "A" resource (5 * Second) (h "A"%string false) _ _ _);
      reflexivity|].
    eapply rtc_l; [exists (LRelease 0%nat);
      refine (step_release _ NetOk 0%nat _ (Ret tt) (h "A"%string true) _ _ _ _);
      [reflexivity|discriminate|reflexivity]|].
    eapply rtc_l; [exists (LAcquire "B" (lock_key resource) (5 * Second));
      refine (step_acquire _ NetOk 2%nat "B" resource (5 * Second) (h "B"%string false) _ _ _);
      reflexivity|].
    apply rtc_refl.
  - eexists. split; [vm_compute; reflexivity|]. repeat split; vm_compute; reflexivity.
  - eexists. split; [vm_compute; reflexivity|]. repeat split; vm_compute; reflexivity.
Qed.
