(* ===== verification/MgmtRegistry.v ===== *)
(** The peer registry of the management server:
    [src/management/server/distributed/registry.go].

    [Registry], the Go interface, is the class [PeerRegistry]; [RedisRegistry] implements it
    on a Redis hash that expires as a whole.  [aspec] is the contract: a table of peers
    with one deadline that every completed registration pushes back.  The refinement theorem
    relates the two over any sequence of calls, network faults and passing time. *)
From S2P Require Import Prelude Redis HAConfig.
Open Scope Z_scope.

Inductive registry_err :=
| ErrRegisterPeer (e : rerr)
| ErrRegistryTTL (e : rerr)
| ErrDeregisterPeer (e : rerr)
| ErrGetPeerInstance (e : rerr).

(** The interface [Registry]; the network decides about each command of a call. *)
Class PeerRegistry (S : Type) := {
  reg_RegisterPeer : net → net → string → string → Z → S → outcome registry_err unit * S;
  reg_DeregisterPeer : net → string → S → outcome registry_err unit * S;
  reg_GetPeerInstance : net → string → S → outcome registry_err string * S;
  reg_wait : Z → S → S;
}.

(** ** The contract *)
Record table := Table { t_peers : gmap string string; t_deadline : option Z; t_now : Z }.

(** A table without entries has no deadline. *)
Definition norm (m : gmap string string) (dl : option Z) (now : Z) : table :=
  if decide (m = ∅) then Table ∅ None now else Table m dl now.

Definition executed (n : net) : bool := match n with NetLost => false | _ => true end.
Definition answered (n : net) : bool := match n with NetOk => true | _ => false end.

Definition spec_Register (n1 n2 : net) (peerID instanceID : string) (ttl : Z) (t : table)
    : outcome registry_err unit * table :=
  let t1 := if executed n1 then Table (<[peerID := instanceID]> (t_peers t)) (t_deadline t) (t_now t) else t in
  if negb (answered n1) then (Err (ErrRegisterPeer RedisNet), t1)
  else
    let t2 := if executed n2 then Table (t_peers t1) (Some (t_now t + ttl)) (t_now t) else t1 in
    (if answered n2 then Ret tt else Err (ErrRegistryTTL RedisNet), t2).

Definition spec_Deregister (n : net) (peerID : string) (t : table) : outcome registry_err unit * table :=
  (if answered n then Ret tt else Err (ErrDeregisterPeer RedisNet),
   if executed n then norm (delete peerID (t_peers t)) (t_deadline t) (t_now t) else t).

Definition spec_Get (n : net) (peerID : string) (t : table) : outcome registry_err string * table :=
  (if answered n then
     match t_peers t !! peerID with
     | Some i => Ret i
     | None => Err (ErrGetPeerInstance RedisNil)
     end
   else Err (ErrGetPeerInstance RedisNet), t).

Definition spec_wait (d : Z) (t : table) : table :=
  let now := t_now t + d in
  match t_deadline t with
  | Some x => if x <=? now then Table ∅ None now else Table (t_peers t) (Some x) now
  | None => Table (t_peers t) None now
  end.

Definition aspec : PeerRegistry table := {|
  reg_RegisterPeer := spec_Register;
  reg_DeregisterPeer := spec_Deregister;
  reg_GetPeerInstance := spec_Get;
  reg_wait := spec_wait;
|}.

(** ** The Redis implementation *)
Section redis_registry.
Context {R : RedisServer}.

Definition peersRegistryKey (config : ManagementHAConfig) : string :=
  if bool_decide (PeersRegistryKey config ≠ "") then PeersRegistryKey config
  else "netbird:management:peers:registry".

Definition RegisterPeer (config : ManagementHAConfig) (n1 n2 : net) (peerID instanceID : string)
    (ttl : Z) (s : store) : outcome registry_err unit * store :=
  let key := peersRegistryKey config in
  match call n1 (HSet key peerID instanceID) s with
  | (Ret _, s) =>
      match call n2 (Expire key ttl) s with
      | (Ret _, s) => (Ret tt, s)
      | (Err e, s) => (Err (ErrRegistryTTL e), s)
      | (Panic, s) => (Panic, s)
      end
  | (Err e, s) => (Err (ErrRegisterPeer e), s)
  | (Panic, s) => (Panic, s)
  end.

Definition DeregisterPeer (config : ManagementHAConfig) (n : net) (peerID : string) (s : store)
    : outcome registry_err unit * store :=
  match call n (HDel (peersRegistryKey config) peerID) s with
  | (Ret _, s) => (Ret tt, s)
  | (Err e, s) => (Err (ErrDeregisterPeer e), s)
  | (Panic, s) => (Panic, s)
  end.

Definition GetPeerInstance (config : ManagementHAConfig) (n : net) (peerID : string) (s : store)
    : outcome registry_err string * store :=
  match call n (HGet (peersRegistryKey config) peerID) s with
  | (Ret instanceID, s) => (Ret instanceID, s)
  | (Err e, s) => (Err (ErrGetPeerInstance e), s)
  | (Panic, s) => (Panic, s)
  end.

Definition RedisRegistry (config : ManagementHAConfig) : PeerRegistry store := {|
  reg_RegisterPeer := RegisterPeer config;
  reg_DeregisterPeer := DeregisterPeer config;
  reg_GetPeerInstance := GetPeerInstance config;
  reg_wait := advance;
|}.
End redis_registry.

(** ** Client runs *)
Inductive rop :=
| OpRegister (n1 n2 : net) (peerID instanceID : string) (ttl : Z)
| OpDeregister (n : net) (peerID : string)
| OpGet (n : net) (peerID : string)
| OpWait (d : Z).

Inductive rres := ResUnit (r : outcome registry_err unit) | ResStr (r : outcome registry_err string) | ResWait.

Definition run_op {S} (I : PeerRegistry S) (o : rop) (s : S) : rres * S :=
  match o with
  | OpRegister n1 n2 p i ttl => let '(r, s) := reg_RegisterPeer n1 n2 p i ttl s in (ResUnit r, s)
  | OpDeregister n p => let '(r, s) := reg_DeregisterPeer n p s in (ResUnit r, s)
  | OpGet n p => let '(r, s) := reg_GetPeerInstance n p s in (ResStr r, s)
  | OpWait d => (ResWait, reg_wait d s)
  end.

Fixpoint run_ops {S} (I : PeerRegistry S) (os : list rop) (s : S) : list rres * S :=
  match os with
  | [] => ([], s)
  | o :: os => let '(r, s) := run_op I o s in let '(rs, s) := run_ops I os s in (r :: rs, s)
  end.

Definition op_ok (o : rop) : Prop :=
  match o with
  | OpRegister _ _ _ _ ttl => whole_secs ttl
  | OpWait d => 0 <= d
  | _ => True
  end.

(** ** Refinement *)
Section refinement.
Context {R : RedisServer} {RL : RedisLaws R} (config : ManagementHAConfig).
Local Abbreviation key := (peersRegistryKey config).

Definition reg_entry (t : table) : option entry :=
  if decide (t_peers t = ∅) then None else Some (RHash (t_peers t), t_deadline t).

Definition rel (t : table) (s : store) : Prop :=
  keyspace s !! key = reg_entry t ∧ clock s = t_now t ∧ (t_peers t = ∅ → t_deadline t = None).

Lemma rel_hash t s : rel t s →
  hash_at (keyspace s) key = Ret (t_peers t) ∧ expiry_of (keyspace s) key = t_deadline t.
Proof.
  intros (Hk & _ & He). unfold hash_at, expiry_of. rewrite Hk. unfold reg_entry.
  case_decide as E; simpl; [|done]. by rewrite E, He.
Qed.

Lemma put_hash_entry m ks :
  put_hash key m ks !! key = if decide (m = ∅) then None else Some (RHash m, expiry_of ks key).
Proof. unfold put_hash. case_decide; [apply lookup_delete_eq|apply lookup_insert_eq]. Qed.

Lemma HSet_rel t s p i : rel t s →
  (∃ z, (HSet key p i s).1 = Ret z)
  ∧ rel (Table (<[p := i]> (t_peers t)) (t_deadline t) (t_now t)) (HSet key p i s).2.
Proof.
  intros Hr. destruct (rel_hash _ _ Hr) as [Hh He]. destruct Hr as (_ & Hc & _).
  pose proof (HSet_spec key p i s) as Hs. rewrite Hh in Hs. destruct Hs as [-> Hk].
  split; [eauto|]. unfold rel. rewrite Hk, clock_HSet, put_hash_entry, He.
  unfold reg_entry. simpl. split_and!; [done..|]. intros E. by destruct (insert_non_empty (t_peers t) p i).
Qed.

Lemma Expire_rel t s ttl : whole_secs ttl → rel t s → t_peers t ≠ ∅ →
  (∃ z, (Expire key ttl s).1 = Ret z)
  ∧ rel (Table (t_peers t) (Some (t_now t + ttl)) (t_now t)) (Expire key ttl s).2.
Proof.
  intros Httl (Hk & Hc & _) Hne. destruct (Expire_spec key ttl s Httl) as [-> Hks].
  split; [eauto|]. unfold rel. rewrite Hks, clock_Expire, lookup_alter_eq, Hk, Hc.
  unfold reg_entry. simpl. rewrite !decide_False by done. split_and!; [done..|]. intros E. by destruct Hne.
Qed.

Lemma HDel_rel t s p : rel t s →
  (∃ z, (HDel key p s).1 = Ret z)
  ∧ rel (norm (delete p (t_peers t)) (t_deadline t) (t_now t)) (HDel key p s).2.
Proof.
  intros Hr. destruct (rel_hash _ _ Hr) as [Hh He]. destruct Hr as (_ & Hc & _).
  pose proof (HDel_spec key p s) as Hs. rewrite Hh in Hs. destruct Hs as [-> Hk].
  split; [eauto|]. unfold rel, norm. rewrite Hk, clock_HDel, put_hash_entry, He. unfold reg_entry.
  destruct (decide (delete p (t_peers t) = ∅)) as [E|E]; simpl.
  - rewrite decide_True by done. done.
  - rewrite decide_False by done. done.
Qed.

Lemma wait_rel t s d : 0 <= d → rel t s → rel (spec_wait d t) (advance d s).
Proof.
  intros Hd (Hk & Hc & He). destruct (advance_spec d s Hd) as [Hcl Hks].
  unfold rel. rewrite Hcl, Hks, Hc. unfold live, spec_wait, reg_entry in *.
  destruct (decide (t_peers t = ∅)) as [E|E].
  - rewrite (He E), E. simpl. split_and!; [|done..]. apply map_lookup_filter_None_2. by left.
  - destruct (t_deadline t) as [x|]; [destruct (Z.leb_spec x (t_now t + d))|]; simpl.
    + split_and!; [|done..]. apply map_lookup_filter_None_2. right. intros e' He'. rewrite Hk in He'.
      simplify_eq. unfold alive. simpl. rewrite bool_decide_eq_false_2; [done|lia].
    + rewrite decide_False by done. split_and!; [|done..]. apply map_lookup_filter_Some_2; [done|].
      unfold alive. simpl. apply bool_decide_eq_true_2. lia.
    + rewrite decide_False by done. split_and!; [|done..]. by apply map_lookup_filter_Some_2.
Qed.

Lemma Register_rel n1 n2 p i ttl t s : whole_secs ttl → rel t s →
  (RegisterPeer config n1 n2 p i ttl s).1 = (spec_Register n1 n2 p i ttl t).1
  ∧ rel (spec_Register n1 n2 p i ttl t).2 (RegisterPeer config n1 n2 p i ttl s).2.
Proof.
  intros Httl Hr. destruct (HSet_rel t s p i Hr) as [[z Hz] Hr1]. unfold RegisterPeer, spec_Register.
  destruct n1; simpl; [|done|done].
  destruct (HSet key p i s) as [r s1]. simpl in *. subst r.
  destruct (Expire_rel _ s1 ttl Httl Hr1) as [[z' Hz'] Hr2]; [apply insert_non_empty|].
  destruct n2; simpl; [|done|done]. destruct (Expire key ttl s1) as [r s2]. simpl in *. by subst r.
Qed.

Lemma Deregister_rel n p t s : rel t s →
  (DeregisterPeer config n p s).1 = (spec_Deregister n p t).1
  ∧ rel (spec_Deregister n p t).2 (DeregisterPeer config n p s).2.
Proof.
  intros Hr. destruct (HDel_rel t s p Hr) as [[z Hz] Hr1]. unfold DeregisterPeer, spec_Deregister.
  destruct n; simpl; [|done|done]. destruct (HDel key p s) as [r s1]. simpl in *. by subst r.
Qed.

Lemma Get_rel n p t s : rel t s →
  (GetPeerInstance config n p s).1 = (spec_Get n p t).1
  ∧ rel (spec_Get n p t).2 (GetPeerInstance config n p s).2.
Proof.
  intros Hr. destruct (rel_hash _ _ Hr) as [Hh _]. unfold GetPeerInstance, spec_Get.
  destruct n; simpl; rewrite ?HGet_spec, ?Hh; [|done|done]. by destruct (t_peers t !! p).
Qed.

Lemma op_rel o t s : op_ok o → rel t s →
  (run_op (RedisRegistry config) o s).1 = (run_op aspec o t).1
  ∧ rel (run_op aspec o t).2 (run_op (RedisRegistry config) o s).2.
Proof.
  intros Ho Hr. unfold RedisRegistry, aspec. destruct o as [n1 n2 p i ttl|n p|n p|d]; simpl in *.
  - destruct (Register_rel n1 n2 p i ttl t s Ho Hr) as [H1 H2].
    destruct (RegisterPeer _ _ _ _ _ _ _), (spec_Register _ _ _ _ _ _). simpl in *. by subst.
  - destruct (Deregister_rel n p t s Hr) as [H1 H2].
    destruct (DeregisterPeer _ _ _ _). simpl in *. by subst.
  - destruct (Get_rel n p t s Hr) as [H1 H2].
    destruct (GetPeerInstance _ _ _ _). simpl in *. by subst.
  - split; [done|]. by apply wait_rel.
Qed.

(** C36: the Redis registry implements the table with one deadline: over every sequence of
    calls, lost requests, lost replies and waiting, it gives the replies the contract gives,
    from any matching states. *)
Theorem registry_refines os t s (Hops : Forall op_ok os) (Hrel : rel t s) :
  (run_ops (RedisRegistry config) os s).1 = (run_ops aspec os t).1
  ∧ rel (run_ops aspec os t).2 (run_ops (RedisRegistry config) os s).2.
Proof.
  revert t s Hrel. induction Hops as [|o os Ho Hops IH]; intros t s Hrel; [done|]. cbn [run_ops].
  destruct (op_rel o t s Ho Hrel) as [H1 H2].
  destruct (run_op (RedisRegistry config) o s) as [r s1], (run_op aspec o t) as [r' t1].
  simpl in *. subst r'. destruct (IH t1 s1 H2) as [H3 H4].
  destruct (run_ops (RedisRegistry config) os s1), (run_ops aspec os t1). simpl in *. by subst.
Qed.
End refinement.

(** A client of the interface: registering often enough keeps a peer registered. *)
Lemma spec_registered_until_ttl p i ttl d t : 0 <= d < ttl →
  (spec_Get NetOk p (spec_wait d (spec_Register NetOk NetOk p i ttl t).2)).1 = Ret i.
Proof.
  intros Hd. unfold spec_Register, spec_wait, spec_Get. simpl.
  destruct (Z.leb_spec (t_now t + ttl) (t_now t + d)); [lia|]. simpl. by rewrite lookup_insert_eq.
Qed.

Definition demo_ops : list rop :=
  [ OpRegister NetOk NetOk "alice" "A" (30 * Second); OpRegister NetOk NetReplyLost "bob" "B" (30 * Second);
    OpWait (20 * Second); OpGet NetOk "bob"; OpDeregister NetReplyLost "alice"; OpGet NetOk "alice";
    OpWait (10 * Second); OpGet NetOk "bob" ].

Lemma registry_refines_witness :
  (run_ops (RedisRegistry DefaultManagementHAConfig) demo_ops (Mem ∅ 0)).1
  = [ ResUnit (Ret tt); ResUnit (Err (ErrRegistryTTL RedisNet)); ResWait; ResStr (Ret "B");
      ResUnit (Err (ErrDeregisterPeer RedisNet)); ResStr (Err (ErrGetPeerInstance RedisNil)); ResWait;
      ResStr (Err (ErrGetPeerInstance RedisNil)) ].
Proof.
  rewrite (proj1 (registry_refines (R:=mem_redis) DefaultManagementHAConfig demo_ops (Table ∅ None 0) (Mem ∅ 0)
    ltac:(repeat constructor; try (vm_compute; discriminate)) ltac:(repeat split))).
  vm_compute. reflexivity.
Defined.
