(* ===== verification/SignalPeers.v ===== *)
(** The local peer registry of a signal server: [src/signal/peer/peer.go].

    [Registry.Peers] is a [sync.Map] from peer id to [*Peer]; pointer identity is
    the field [ptr].  [Register] is lock free: a [LoadOrStore], then, when an older
    stream is registered, a [CompareAndSwap], then the old stream's [Cancel].  Each
    of these is one atomic step of a registering goroutine ([reg_step]), and
    [cstep] interleaves any number of goroutines with deregistrations.
    [Register] runs one goroutine alone. *)
From S2P Require Import Prelude.
Open Scope Z_scope.

Record Peer := {
  ptr : nat;          (* identity of the *Peer *)
  Id : string;
  StreamID : Z;
}.

#[export] Instance Peer_eq_dec : EqDecision Peer.
Proof. solve_decision. Defined.

Record Registry := {
  Peers : gmap string Peer;
  cancelled : gset nat;        (* peers whose Cancel was called *)
  ActivePeers : Z;
  Registrations : Z;
  Deregistrations : Z;
}.

Definition NewPeer (ptr : nat) (id : string) (now : Z) : Peer :=
  {| ptr := ptr; Id := id; StreamID := now |}.

Definition NewRegistry : Registry :=
  {| Peers := ∅; cancelled := ∅; ActivePeers := 0; Registrations := 0; Deregistrations := 0 |}.

Definition set_Peers (m : gmap string Peer) (r : Registry) : Registry :=
  {| Peers := m; cancelled := cancelled r; ActivePeers := ActivePeers r;
     Registrations := Registrations r; Deregistrations := Deregistrations r |}.

Definition Cancel (p : Peer) (r : Registry) : Registry :=
  {| Peers := Peers r; cancelled := {[ptr p]} ∪ cancelled r; ActivePeers := ActivePeers r;
     Registrations := Registrations r; Deregistrations := Deregistrations r |}.

Definition Get (r : Registry) (peerId : string) : option Peer := Peers r !! peerId.

Definition IsPeerRegistered (r : Registry) (peerId : string) : bool :=
  match Peers r !! peerId with Some _ => true | None => false end.

(** Program counter of a goroutine inside [Register]. *)
Inductive pc :=
| PLoad                       (* about to LoadOrStore *)
| PSwap (pp : Peer)           (* about to CompareAndSwap(peer.Id, pp, peer) *)
| PCancel (pp : Peer)         (* swapped, about to call pp.Cancel() *)
| PDone (ok : bool).          (* returned nil, or ErrPeerAlreadyRegistered *)

(** The tail of [Register] after a store: the metrics. *)
Definition count_registration (r : Registry) : Registry :=
  {| Peers := Peers r; cancelled := cancelled r; ActivePeers := ActivePeers r + 1;
     Registrations := Registrations r + 1; Deregistrations := Deregistrations r |}.

Definition reg_step (peer : Peer) (c : pc) (r : Registry) : pc * Registry :=
  match c with
  | PLoad =>
      match Peers r !! Id peer with
      | None => (PDone true, count_registration (set_Peers (<[Id peer := peer]> (Peers r)) r))
      | Some pp => if StreamID pp <? StreamID peer then (PSwap pp, r) else (PDone false, r)
      end
  | PSwap pp =>
      if decide (Peers r !! Id peer = Some pp)
      then (PCancel pp, set_Peers (<[Id peer := peer]> (Peers r)) r)
      else (PLoad, r)                         (* return registry.Register(peer) *)
  | PCancel pp => (PDone true, Cancel pp r)
  | PDone ok => (PDone ok, r)
  end.

Inductive reg_err := ErrPeerAlreadyRegistered.

(** One goroutine alone: the swap cannot fail. *)
Definition Register (peer : Peer) (r : Registry) : outcome reg_err unit * Registry :=
  match reg_step peer PLoad r with
  | (PSwap pp, r) =>
      match reg_step peer (PSwap pp) r with
      | (PCancel pp, r) => (Ret tt, (reg_step peer (PCancel pp) r).2)
      | (_, r) => (Panic, r)
      end
  | (PDone true, r) => (Ret tt, r)
  | (PDone false, r) => (Err ErrPeerAlreadyRegistered, r)
  | (_, r) => (Panic, r)
  end.

Definition Deregister (peer : Peer) (r : Registry) : bool * Registry :=
  if decide (Peers r !! Id peer = Some peer)
  then (true, {| Peers := delete (Id peer) (Peers r); cancelled := cancelled r;
                 ActivePeers := ActivePeers r - 1; Registrations := Registrations r;
                 Deregistrations := Deregistrations r + 1 |})
  else (false, r).

(** ** Sequential behaviour *)
Lemma Register_cases peer r :
  match Peers r !! Id peer with
  | None => Register peer r
      = (Ret tt, count_registration (set_Peers (<[Id peer := peer]> (Peers r)) r))
  | Some pp =>
      if StreamID pp <? StreamID peer
      then Register peer r = (Ret tt, Cancel pp (set_Peers (<[Id peer := peer]> (Peers r)) r))
      else Register peer r = (Err ErrPeerAlreadyRegistered, r)
  end.
Proof.
  unfold Register. simpl. destruct (Peers r !! Id peer) as [pp|] eqn:E; [|done].
  destruct (StreamID pp <? StreamID peer); [|done].
  simpl. rewrite decide_True by done. done.
Qed.

(** ** Interleaved goroutines *)
Record conc := {
  creg : Registry;
  cthreads : gmap nat (Peer * pc);     (* by pointer of the peer being registered *)
  cgone : gset nat;                    (* peers a Deregister removed *)
}.

Inductive cstep : conc → conc → Prop :=
| cstep_spawn σ p :
    cthreads σ !! ptr p = None →
    cstep σ {| creg := creg σ; cthreads := <[ptr p := (p, PLoad)]> (cthreads σ); cgone := cgone σ |}
| cstep_reg σ i p c c' r' :
    cthreads σ !! i = Some (p, c) → reg_step p c (creg σ) = (c', r') →
    cstep σ {| creg := r'; cthreads := <[i := (p, c')]> (cthreads σ); cgone := cgone σ |}
| cstep_dereg σ p r' :
    Deregister p (creg σ) = (true, r') →
    cstep σ {| creg := r'; cthreads := cthreads σ; cgone := {[ptr p]} ∪ cgone σ |}
| cstep_dereg_noop σ p r' :
    Deregister p (creg σ) = (false, r') →
    cstep σ {| creg := r'; cthreads := cthreads σ; cgone := cgone σ |}.

Definition conc_init : conc := {| creg := NewRegistry; cthreads := ∅; cgone := ∅ |}.

(** Registered and not returned with an error: the map holds it. *)
Definition stored (c : pc) : bool :=
  match c with PCancel _ | PDone true => true | _ => false end.

(** Where a stored peer can be: current, removed, cancelled, or about to be
    cancelled by the goroutine that replaced it. *)
Definition accounted (σ : conc) (p : Peer) : Prop :=
  Peers (creg σ) !! Id p = Some p ∨ ptr p ∈ cgone σ ∨ ptr p ∈ cancelled (creg σ)
  ∨ ∃ j q, cthreads σ !! j = Some (q, PCancel p).

Record conc_inv (σ : conc) : Prop := {
  ci_ptr i p c : cthreads σ !! i = Some (p, c) → ptr p = i;
  ci_key id p : Peers (creg σ) !! id = Some p →
    Id p = id ∧ ∃ c, cthreads σ !! ptr p = Some (p, c) ∧ stored c = true;
  ci_acc i p c : cthreads σ !! i = Some (p, c) → stored c = true → accounted σ p;
  ci_swap i p pp : cthreads σ !! i = Some (p, PSwap pp) ∨ cthreads σ !! i = Some (p, PCancel pp) →
    StreamID pp < StreamID p ∧ Id pp = Id p;
  ci_active : ActivePeers (creg σ) = Z.of_nat (size (Peers (creg σ)));
}.

(** ** The invariant holds along every interleaving *)
Lemma conc_inv_init : conc_inv conc_init.
Proof. split; simpl; intros *; rewrite ?lookup_empty; naive_solver. Qed.

(** A thread that does not become stored and does not give up a pending cancel
    moves without any effect on the registry. *)
Lemma inv_move σ i p c c' :
  conc_inv σ → (cthreads σ !! i = Some (p, c) ∨ cthreads σ !! i = None ∧ ptr p = i) →
  (cthreads σ !! i = Some (p, c) → stored c = false) → stored c' = false →
  (∀ pp, c' = PSwap pp → StreamID pp < StreamID p ∧ Id pp = Id p) →
  conc_inv {| creg := creg σ; cthreads := <[i := (p, c')]> (cthreads σ); cgone := cgone σ |}.
Proof.
  intros [Ip Ik Ia Is In] Hi Hc Hc' Hsw. split; simpl; [| | | |done].
  - intros j q d [[<- [= <- <-]]|[_ Hj]]%lookup_insert_Some; [|by eapply Ip].
    destruct Hi as [Hi|[_ ?]]; [by eapply Ip|done].
  - intros id q Hq. destruct (Ik id q Hq) as (? & d & Hd & Hs). split; [done|].
    exists d. rewrite lookup_insert_ne; [done|]. intros ->.
    destruct Hi as [Hi|[Hi _]]; rewrite Hi in Hd; [|done]. simplify_eq. by rewrite Hc in Hs.
  - intros j q d [[<- [= <- <-]]|[_ Hj]]%lookup_insert_Some Hs; [congruence|].
    destruct (Ia j q d Hj Hs) as [?|[?|[?|(k & x & Hk)]]]; unfold accounted; simpl; auto.
    right; right; right. exists k, x. rewrite lookup_insert_ne; [done|]. intros ->.
    destruct Hi as [Hi|[Hi _]]; rewrite Hi in Hk; [|done]. simplify_eq. by specialize (Hc Hi).
  - intros j q d [[[<- [= <- Hd]]|[_ Hj]]%lookup_insert_Some
      |[[<- [= <- Hd]]|[_ Hj]]%lookup_insert_Some]; subst; eauto. done.
Qed.

Lemma inv_store_new σ i p :
  conc_inv σ → cthreads σ !! i = Some (p, PLoad) → Peers (creg σ) !! Id p = None →
  conc_inv {| creg := count_registration (set_Peers (<[Id p := p]> (Peers (creg σ))) (creg σ));
              cthreads := <[i := (p, PDone true)]> (cthreads σ); cgone := cgone σ |}.
Proof.
  intros [Ip Ik Ia Is In] Hi Hnone. split; simpl.
  - intros j q d [[<- [= <- <-]]|[_ Hj]]%lookup_insert_Some; by eapply Ip.
  - intros id q [[<- <-]|[Hne Hq]]%lookup_insert_Some.
    + split; [done|]. exists (PDone true). by rewrite (Ip i p _ Hi), lookup_insert_eq.
    + destruct (Ik id q Hq) as (? & d & Hd & Hs). split; [done|].
      exists d. rewrite lookup_insert_ne; [done|]. intros ->. rewrite Hi in Hd. by simplify_eq.
  - intros j q d [[<- [= <- <-]]|[_ Hj]]%lookup_insert_Some Hs.
    + left. simpl. by rewrite lookup_insert_eq.
    + destruct (Ia j q d Hj Hs) as [Hq|[?|[?|(k & x & Hk)]]]; unfold accounted; simpl; auto.
      * left. rewrite lookup_insert_ne; [done|]. congruence.
      * right; right; right. exists k, x. rewrite lookup_insert_ne; [done|congruence].
  - intros j q pp [[[<- [=]]|[_ Hj]]%lookup_insert_Some
      |[[<- [=]]|[_ Hj]]%lookup_insert_Some]; eauto.
  - rewrite map_size_insert_None by done. lia.
Qed.

Lemma inv_swap σ i p pp :
  conc_inv σ → cthreads σ !! i = Some (p, PSwap pp) → Peers (creg σ) !! Id p = Some pp →
  conc_inv {| creg := set_Peers (<[Id p := p]> (Peers (creg σ))) (creg σ);
              cthreads := <[i := (p, PCancel pp)]> (cthreads σ); cgone := cgone σ |}.
Proof.
  intros [Ip Ik Ia Is In] Hi Hcur. split; simpl.
  - intros j q d [[<- [= <- <-]]|[_ Hj]]%lookup_insert_Some; by eapply Ip.
  - intros id q [[<- <-]|[Hne Hq]]%lookup_insert_Some.
    + split; [done|]. exists (PCancel pp). by rewrite (Ip i p _ Hi), lookup_insert_eq.
    + destruct (Ik id q Hq) as (? & d & Hd & Hs). split; [done|].
      exists d. rewrite lookup_insert_ne; [done|]. intros ->. rewrite Hi in Hd. by simplify_eq.
  - intros j q d [[<- [= <- <-]]|[_ Hj]]%lookup_insert_Some Hs.
    + left. simpl. by rewrite lookup_insert_eq.
    + destruct (Ia j q d Hj Hs) as [Hq|[?|[?|(k & x & Hk)]]]; unfold accounted; simpl; auto.
      * destruct (decide (Id q = Id p)) as [Heq|].
        -- right; right; right. exists i, p. rewrite lookup_insert_eq. congruence.
        -- left. by rewrite lookup_insert_ne.
      * right; right; right. exists k, x. rewrite lookup_insert_ne; [done|congruence].
  - intros j q d [[[<- [= <- <-]]|[_ Hj]]%lookup_insert_Some
      |[[<- [= <- <-]]|[_ Hj]]%lookup_insert_Some]; eauto.
  - rewrite map_size_insert_Some by eauto. done.
Qed.

Lemma inv_cancel σ i p pp :
  conc_inv σ → cthreads σ !! i = Some (p, PCancel pp) →
  conc_inv {| creg := Cancel pp (creg σ);
              cthreads := <[i := (p, PDone true)]> (cthreads σ); cgone := cgone σ |}.
Proof.
  intros [Ip Ik Ia Is In] Hi. split; simpl; [| | | |done].
  - intros j q d [[<- [= <- <-]]|[_ Hj]]%lookup_insert_Some; by eapply Ip.
  - intros id q Hq. destruct (Ik id q Hq) as (? & d & Hd & Hs). split; [done|].
    destruct (decide (ptr q = i)) as [Heq|].
    + exists (PDone true). rewrite Heq in *. rewrite Hi in Hd. simplify_eq.
      by rewrite lookup_insert_eq.
    + exists d. by rewrite lookup_insert_ne.
  - assert (∀ q, accounted σ q → accounted {| creg := Cancel pp (creg σ);
      cthreads := <[i := (p, PDone true)]> (cthreads σ); cgone := cgone σ |} q) as Hmono.
    { intros q [?|[?|[?|(k & x & Hk)]]]; unfold accounted; simpl; auto; [set_solver|].
      destruct (decide (k = i)) as [->|].
      - right; right; left. rewrite Hi in Hk. simplify_eq. set_solver.
      - right; right; right. exists k, x. by rewrite lookup_insert_ne. }
    intros j q d [[<- [= <- <-]]|[_ Hj]]%lookup_insert_Some Hs; apply Hmono; by eapply Ia.
  - intros j q d [[[<- [=]]|[_ Hj]]%lookup_insert_Some
      |[[<- [=]]|[_ Hj]]%lookup_insert_Some]; eauto.
Qed.

Lemma inv_dereg σ p r' :
  conc_inv σ → Deregister p (creg σ) = (true, r') →
  conc_inv {| creg := r'; cthreads := cthreads σ; cgone := {[ptr p]} ∪ cgone σ |}.
Proof.
  unfold Deregister. intros [Ip Ik Ia Is In]. case_decide as Hp; [|done]. intros [= <-].
  split; simpl; [done| | |done|].
  - intros id q [_ Hq]%lookup_delete_Some. by apply Ik.
  - intros j q d Hj Hs. destruct (Ia j q d Hj Hs) as [Hq|[?|[?|?]]]; unfold accounted; simpl;
      auto; [|set_solver].
    destruct (decide (Id q = Id p)) as [Heq|].
    + right; left. assert (q = p) as -> by congruence. set_solver.
    + left. by rewrite lookup_delete_ne.
  - rewrite (map_size_delete_Some) by eauto.
    assert (size (Peers (creg σ)) ≠ 0%nat); [|lia].
    intros Hz%map_size_empty_inv. rewrite Hz, lookup_empty in Hp. done.
Qed.

Lemma cstep_inv σ σ' : conc_inv σ → cstep σ σ' → conc_inv σ'.
Proof.
  intros I Hstep. destruct Hstep as [σ p Hp|σ i p c c' r' Hi Hs|σ p r' Hd|σ p r' Hd].
  - apply (inv_move σ _ p PLoad); auto; congruence.
  - destruct c as [|pp|pp|ok]; simpl in Hs.
    + destruct (Peers (creg σ) !! Id p) as [pp|] eqn:E.
      * destruct (StreamID pp <? StreamID p) eqn:Hlt; simplify_eq;
          apply (inv_move σ _ p PLoad); auto; [|done].
        intros ? [= <-]. destruct (ci_key σ I _ _ E) as [? _]. split; [lia|done].
      * simplify_eq. by apply inv_store_new.
    + case_decide; simplify_eq; [by apply inv_swap|].
      apply (inv_move σ _ p (PSwap pp)); auto; done.
    + simplify_eq. by apply inv_cancel.
    + simplify_eq. rewrite insert_id by done. by destruct σ.
  - by eapply inv_dereg.
  - unfold Deregister in Hd. case_decide; simplify_eq. by destruct σ.
Qed.

Lemma conc_reachable_inv σ : rtc cstep conc_init σ → conc_inv σ.
Proof.
  generalize conc_inv_init. intros Hi Hr. revert Hi.
  induction Hr as [|σ1 σ2 σ3 Hs _ IH]; [done|]. intros Hi. by eapply IH, cstep_inv.
Qed.

(** ** Properties *)

(** Whatever the interleaving of registrations and deregistrations, no stream
    that registered successfully is lost: it is the registered one, or it was
    deregistered, or it has been (or is about to be) cancelled by the newer stream
    that replaced it; and the active-peers gauge equals the number of registered
    peers. *)
Theorem registered_streams_accounted σ i p
    (Hreach : rtc cstep conc_init σ) (Hi : cthreads σ !! i = Some (p, PDone true)) :
  accounted σ p ∧ ActivePeers (creg σ) = Z.of_nat (size (Peers (creg σ))).
Proof.
  apply conc_reachable_inv in Hreach as [_ _ Ia _ In]. split; [by eapply Ia|done].
Qed.

Definition peer1 : Peer := {| ptr := 1; Id := "k"; StreamID := 10 |}.
Definition peer2 : Peer := {| ptr := 2; Id := "k"; StreamID := 20 |}.

Lemma registered_streams_accounted_witness :
  ∃ σ, cthreads σ !! 1%nat = Some (peer1, PDone true) ∧ accounted σ peer1.
Proof.
  set (σ1 := {| creg := NewRegistry; cthreads := {[ 1%nat := (peer1, PLoad) ]}; cgone := ∅ |}).
  set (σ2 := {| creg := (reg_step peer1 PLoad NewRegistry).2;
                cthreads := <[ 1%nat := (peer1, PDone true) ]> {[ 1%nat := (peer1, PLoad) ]};
                cgone := ∅ |}).
  assert (rtc cstep conc_init σ2) as Hr.
  { apply (rtc_l _ _ σ1); [apply (cstep_spawn conc_init peer1); reflexivity|].
    apply (rtc_l _ _ σ2); [|apply rtc_refl].
    apply (cstep_reg σ1 1%nat peer1 PLoad); reflexivity. }
  exists σ2. split; [reflexivity|].
  apply (registered_streams_accounted σ2 1%nat peer1 Hr). reflexivity.
Defined.

(** When a peer reconnects with a newer stream, the new stream is registered,
    the old one cancelled, and the deregistration the old stream then performs
    does nothing; an older stream is refused and changes nothing. *)
Theorem reconnect_keeps_newest r p q
    (Hp : Peers r !! Id p = Some p) (Hid : Id q = Id p) (Hne : StreamID p ≠ StreamID q) :
  if StreamID p <? StreamID q
  then ∃ r', Register q r = (Ret tt, r')
       ∧ Get r' (Id p) = Some q ∧ ptr p ∈ cancelled r'
       ∧ Deregister p r' = (false, r') ∧ ActivePeers r' = ActivePeers r
  else Register q r = (Err ErrPeerAlreadyRegistered, r).
Proof.
  pose proof (Register_cases q r) as Hc. rewrite Hid, Hp in Hc.
  destruct (StreamID p <? StreamID q) eqn:Hlt; [|done].
  eexists. split; [done|]. unfold Get, Deregister, Cancel, set_Peers. simpl.
  rewrite lookup_insert_eq. split; [done|]. split; [set_solver|].
  rewrite decide_False by congruence. done.
Qed.

Lemma reconnect_keeps_newest_witness :
  ∃ r', Register peer2 (Register peer1 NewRegistry).2 = (Ret tt, r')
    ∧ Get r' "k" = Some peer2 ∧ Deregister peer1 r' = (false, r').
Proof.
  destruct (reconnect_keeps_newest (Register peer1 NewRegistry).2 peer1 peer2)
    as (r' & ? & ? & _ & ? & _); [vm_compute; reflexivity|reflexivity|discriminate|].
  exists r'. split; [assumption|split; assumption].
Defined.
