(* ===== verification/SignalServer.v ===== *)
(** The signal server and its HA routing: [src/signal/server/signal.go].

    A server keeps the local registry of [SignalPeers] and, in HA mode, shares with
    the other instances a Redis hash from peer to instance and one pub/sub channel
    per instance.  Redis is the interface of [Redis]; [encoding/json] and
    HMAC-SHA256 are functions of the section with the two facts the code relies on.
    What the network, the clock and the peer's stream do during a call are
    arguments of the handler. *)
From S2P Require Import Prelude Redis HAConfig.
From S2P Require Import SignalPeers.
Open Scope Z_scope.

Record EncryptedMessage := { Key : string; RemoteKey : string; Body : list byte }.

#[export] Instance EncryptedMessage_eq_dec : EqDecision EncryptedMessage.
Proof. solve_decision. Defined.

(** [Message] is a pointer: absent in the JSON, it stays nil. *)
Record signalEnvelope := {
  FromInstance : string;
  ToPeer : string;
  Message : option EncryptedMessage;
  Signature : string;
}.

#[export] Instance signalEnvelope_eq_dec : EqDecision signalEnvelope.
Proof. solve_decision. Defined.

Inductive fail_label := LNotConnected | LError | LDisconnected | LTimeout.

Record Server := {
  registry : Registry;
  haConfig : SignalHAConfig;
  redisClient : bool;                         (* not nil *)
  instanceID : string;
  delivered : list (Peer * EncryptedMessage); (* what the streams were sent *)
  MessagesForwarded : Z;
  MessageForwardFailures : list fail_label;
}.

Definition set_registry (r : Registry) (s : Server) : Server :=
  {| registry := r; haConfig := haConfig s; redisClient := redisClient s;
     instanceID := instanceID s; delivered := delivered s;
     MessagesForwarded := MessagesForwarded s;
     MessageForwardFailures := MessageForwardFailures s |}.

Definition fail_forward (l : fail_label) (s : Server) : Server :=
  {| registry := registry s; haConfig := haConfig s; redisClient := redisClient s;
     instanceID := instanceID s; delivered := delivered s;
     MessagesForwarded := MessagesForwarded s;
     MessageForwardFailures := l :: MessageForwardFailures s |}.

Definition deliver (p : Peer) (m : EncryptedMessage) (s : Server) : Server :=
  {| registry := registry s; haConfig := haConfig s; redisClient := redisClient s;
     instanceID := instanceID s; delivered := (p, m) :: delivered s;
     MessagesForwarded := MessagesForwarded s + 1;
     MessageForwardFailures := MessageForwardFailures s |}.

(** How the send on the destination stream ends. *)
Inductive send_outcome := SendOk | SendErr | StreamDone | SendTimedOut.

(** A nil message is dereferenced on the first line. *)
Definition forwardMessageToPeer (o : send_outcome) (msg : option EncryptedMessage) (s : Server)
    : outcome unit Server :=
  match msg with
  | None => Panic
  | Some m =>
      match SignalPeers.Get (registry s) (RemoteKey m) with
      | None => Ret (fail_forward LNotConnected s)
      | Some dst =>
          Ret match o with
              | SendOk => deliver dst m s
              | SendErr => fail_forward LError s
              | StreamDone => fail_forward LDisconnected s
              | SendTimedOut =>
                  fail_forward LTimeout (set_registry (Cancel dst (registry s)) s)
              end
      end
  end.

Section signal.
Context {R : RedisServer} {RL : RedisLaws R}.

(** *** Lookup with retries *)
Inductive lookup_err := ErrContextDone | ErrDeadlineExceeded.

(** What attempt [i] of the lookup meets: the caller's context at the two selects,
    the network, the store the server has then, and how long the call takes. *)
Record attempt := {
  at_done : bool;
  at_net : net;
  at_store : store;
  at_latency : Z;
  at_done_wait : bool;
}.

Definition maxBackoff : Z := 400 * Millisecond.
Definition maxTotalTime : Z := 3 * Second.

(** [HGET]; [Some] when [err == nil && instanceID != ""]. *)
Definition registry_hget (cfg : SignalHAConfig) (peerID : string) (a : attempt) : option string :=
  match (call (at_net a) (HGet (SanitizeRedisKey (RegistryKey cfg)) (SanitizeRedisKey peerID))
              (at_store a)).1 with
  | Ret inst => if bool_decide (inst ≠ "") then Some inst else None
  | _ => None
  end.

(** [elapsed]: time since the lookup started; [Panic] when [fuel] runs out, which
    [lookup_terminates] excludes. *)
Fixpoint lookup_loop (fuel i : nat) (elapsed backoff : Z) (cfg : SignalHAConfig)
    (peerID : string) (w : nat → attempt) : outcome lookup_err string :=
  match fuel with
  | O => Panic
  | S fuel =>
      let a := w i in
      if at_done a then Err ErrContextDone
      else
        let remaining := maxTotalTime - elapsed in
        if remaining <=? 0 then Err ErrDeadlineExceeded
        else
          match registry_hget cfg peerID a with
          | Some inst => Ret inst
          | None =>
              if remaining <=? backoff then Err ErrDeadlineExceeded
              else if at_done_wait a then Err ErrContextDone
              else
                let elapsed' := elapsed + at_latency a + backoff in
                let backoff' := backoff * 2 in
                let backoff' := if maxBackoff <? backoff' then maxBackoff else backoff' in
                lookup_loop fuel (S i) elapsed' backoff' cfg peerID w
          end
  end.

Definition lookupPeerInstance (cfg : SignalHAConfig) (peerID : string) (w : nat → attempt)
    : outcome lookup_err string :=
  lookup_loop 9 0 0 (100 * Millisecond) cfg peerID w.

(** *** Registry entries in Redis *)
Definition registerPeerInRedis (s : Server) (peerID : string) (n1 n2 n3 : net) (st : store)
    : bool (* heartbeat started *) * store :=
  if negb (redisClient s) then (false, st)
  else
    let sanitizedPeerID := SanitizeRedisKey peerID in
    let sanitizedKey := SanitizeRedisKey (RegistryKey (haConfig s)) in
    match call n1 (HSet sanitizedKey sanitizedPeerID (instanceID s)) st with
    | (Ret _, st) =>
        match call n2 (Expire sanitizedKey (PeerTTL (haConfig s))) st with
        | (Ret _, st) => (true, st)
        | (_, st) => (false, (call n3 (HDel sanitizedKey sanitizedPeerID) st).2)
        end
    | (_, st) => (false, st)
    end.

(** One tick of [peerHeartbeat]; [false] when the goroutine returns. *)
Definition peerHeartbeat_tick (s : Server) (peerID : string) (n1 n2 : net) (st : store)
    : bool * store :=
  let sanitizedPeerID := SanitizeRedisKey peerID in
  let sanitizedKey := SanitizeRedisKey (RegistryKey (haConfig s)) in
  match SignalPeers.Get (registry s) peerID with
  | None => (false, st)
  | Some _ =>
      match call n1 (HSet sanitizedKey sanitizedPeerID (instanceID s)) st with
      | (Ret _, st) => (true, (call n2 (Expire sanitizedKey (PeerTTL (haConfig s))) st).2)
      | (_, st) => (true, st)
      end
  end.

Definition deregisterPeerFromRedis (s : Server) (peerID : string) (n : net) (st : store) : store :=
  if negb (redisClient s) then st
  else (call n (HDel (SanitizeRedisKey (RegistryKey (haConfig s))) (SanitizeRedisKey peerID)) st).2.

(** *** Connections *)
Inductive connect_err :=
| ErrMissingHeader
| ErrRegister (e : reg_err)
| ErrListener
| ErrHeader
| ErrPeerRegisteredAgain.

(** [header] is the id metadata of the stream, [ptr]/[now] identify the new peer,
    [listen_ok] is the dispatcher's answer. *)
Definition RegisterPeer (header : option (list string)) (ptr : nat) (now : Z) (listen_ok : bool)
    (n1 n2 n3 : net) (s : Server) (st : store) : outcome connect_err Peer * Server * store :=
  match header with
  | None => (Err ErrMissingHeader, s, st)
  | Some [] => (Panic, s, st)
  | Some (id :: _) =>
      let p := NewPeer ptr id now in
      match Register p (registry s) with
      | (Err e, r) => (Err (ErrRegister e), set_registry r s, st)
      | (Panic, r) => (Panic, set_registry r s, st)
      | (Ret _, r) =>
          let s := set_registry r s in
          let '(_, st) := registerPeerInRedis s (Id p) n1 n2 n3 st in
          if listen_ok then (Ret p, s, st) else (Err ErrListener, s, st)
      end
  end.

Definition DeregisterPeer (p : Peer) (n : net) (s : Server) (st : store) : Server * store :=
  let s := set_registry (Deregister p (registry s)).2 s in
  (s, deregisterPeerFromRedis s (Id p) n st).

(** Why [ConnectStream] ends once the peer is registered; the peer is deregistered
    in every case. *)
Inductive stream_end := HeaderFailed | StreamClosed | PeerCancelled.

Definition ConnectStream_end (p : Peer) (why : stream_end) (n : net) (s : Server) (st : store)
    : outcome connect_err unit * Server * store :=
  let r := match why with
           | HeaderFailed => Err ErrHeader
           | StreamClosed => Ret tt
           | PeerCancelled => Err ErrPeerRegisteredAgain
           end in
  (r, (DeregisterPeer p n s st).1, (DeregisterPeer p n s st).2).

(** *** Envelopes *)
Context {payload : Type}.
Context (json_Marshal : signalEnvelope → payload).
Context (json_Unmarshal : payload → option signalEnvelope).
Context (hmac_hex : string → payload → string).

Definition with_signature (sig : string) (e : signalEnvelope) : signalEnvelope :=
  {| FromInstance := FromInstance e; ToPeer := ToPeer e; Message := Message e; Signature := sig |}.

Definition signEnvelope (cfg : SignalHAConfig) (e : signalEnvelope) : signalEnvelope :=
  if bool_decide (Secret cfg = "") then e
  else with_signature (hmac_hex (Secret cfg) (json_Marshal e)) e.

Definition verifyEnvelope (cfg : SignalHAConfig) (e : signalEnvelope) : bool :=
  if bool_decide (Secret cfg = "" ∨ Signature e = "") then true
  else
    let expected := hmac_hex (Secret cfg) (json_Marshal (with_signature "" e)) in
    bool_decide (Signature e = expected).

Definition channel_of (cfg : SignalHAConfig) (inst : string) : string :=
  SanitizeRedisKey (ChannelPrefix cfg +:+ inst).

(** *** initHA: the instance id and the channel the instance listens on. *)
Definition initHA (getenv_id uuid : string) (ping_ok : bool) (cfg : SignalHAConfig)
    : outcome cfg_err (SignalHAConfig * HAConfig * string) :=
  cfg ← Signal_Validate getenv_id uuid cfg;
  client ← NewClient getenv_id uuid ping_ok (sig_HAConfig cfg);
  Ret (cfg, client, channel_of cfg (InstanceID (sig_HAConfig cfg))).

(** *** Send *)
Inductive send_err := ErrPublish | ErrDispatch.

Record send_result := {
  sr_resp : outcome send_err unit;
  sr_server : Server;
  sr_published : option (string * payload);
  sr_dispatched : bool;
}.

(** [PUBLISH]: what reaches the channel, and what the caller is told. *)
Definition publish (n : net) (channel : string) (p : payload)
    : outcome send_err unit * option (string * payload) :=
  match n with
  | NetOk => (Ret tt, Some (channel, p))
  | NetLost => (Err ErrPublish, None)
  | NetReplyLost => (Err ErrPublish, Some (channel, p))
  end.

(** [s.forwardMessageToPeer(ctx, msg)] for a message that is not nil. *)
Definition forward_msg (o : send_outcome) (m : EncryptedMessage) (s : Server) : Server :=
  match forwardMessageToPeer o (Some m) s with Ret s' => s' | _ => s end.

Definition Send (w : nat → attempt) (o : send_outcome) (pub : net)
    (dispatch : outcome send_err unit) (msg : EncryptedMessage) (s : Server) : send_result :=
  let fallback := {| sr_resp := dispatch; sr_server := s; sr_published := None;
                     sr_dispatched := true |} in
  if redisClient s then
    match lookupPeerInstance (haConfig s) (RemoteKey msg) w with
    | Ret inst =>
        if bool_decide (inst ≠ "") then
          if bool_decide (inst = instanceID s) then
            {| sr_resp := Ret tt;
               sr_server := match SignalPeers.Get (registry s) (RemoteKey msg) with
                            | Some _ => forward_msg o msg s
                            | None => s
                            end;
               sr_published := None; sr_dispatched := false |}
          else
            let envelope := signEnvelope (haConfig s)
              {| FromInstance := instanceID s; ToPeer := RemoteKey msg;
                 Message := Some msg; Signature := "" |} in
            let '(r, p) := publish pub (channel_of (haConfig s) inst) (json_Marshal envelope) in
            {| sr_resp := r; sr_server := s; sr_published := p; sr_dispatched := false |}
        else fallback
    | _ => fallback
    end
  else
    match SignalPeers.Get (registry s) (RemoteKey msg) with
    | Some _ => {| sr_resp := Ret tt; sr_server := forward_msg o msg s;
                   sr_published := None; sr_dispatched := false |}
    | None => fallback
    end.

(** *** Listener: one message of the pub/sub channel ([None]: a nil message). *)
Definition haMessageListener_msg (s : Server) (msg : option payload) (o : send_outcome)
    : outcome unit Server :=
  match msg with
  | None => Ret s
  | Some p =>
      match json_Unmarshal p with
      | None => Ret s
      | Some envelope =>
          if negb (verifyEnvelope (haConfig s) envelope) then Ret s
          else forwardMessageToPeer o (Message envelope) s
      end
  end.

(** The reconnect backoff of the listener. *)
Definition listener_backoff (backoff : Z) : Z :=
  let backoff := backoff * 2 in if 30 * Second <? backoff then 30 * Second else backoff.

(** *** What the code relies on in the two libraries *)

(** Go's [encoding/json] round-trips this struct when its strings are valid
    UTF-8. *)
Fixpoint valid_utf8 (fuel : nat) (l : list byte) : bool :=
  match fuel, l with
  | _, [] => true
  | O, _ => false
  | S fuel, _ => match Sanitize.rune_len l with
                 | Some n => valid_utf8 fuel (drop n l)
                 | None => false
                 end
  end.

Definition text (s : string) : Prop :=
  let l := String.list_byte_of_string s in valid_utf8 (length l) l = true.

Definition text_msg (m : EncryptedMessage) : Prop := text (Key m) ∧ text (RemoteKey m).

Definition text_envelope (e : signalEnvelope) : Prop :=
  text (FromInstance e) ∧ text (ToPeer e) ∧ text (Signature e)
  ∧ match Message e with Some m => text_msg m | None => True end.

Definition json_roundtrip : Prop :=
  ∀ e, text_envelope e → json_Unmarshal (json_Marshal e) = Some e.

(** The tag is 64 hexadecimal digits. *)
Definition hmac_is_text : Prop := ∀ k d, text (hmac_hex k d) ∧ hmac_hex k d ≠ "".

(** ** Lookup *)
Lemma lookup_loop_step fuel i elapsed backoff cfg peerID w :
  (backoff < maxTotalTime - elapsed →
   lookup_loop fuel (S i) (elapsed + at_latency (w i) + backoff)
     (if maxBackoff <? backoff * 2 then maxBackoff else backoff * 2) cfg peerID w ≠ Panic) →
  lookup_loop (S fuel) i elapsed backoff cfg peerID w ≠ Panic.
Proof.
  intros Hnext. cbn [lookup_loop]. destruct (at_done (w i)); [done|].
  destruct (_ <=? 0); [done|].
  destruct (registry_hget cfg peerID (w i)); [done|].
  destruct (_ <=? backoff) eqn:H1; [done|].
  destruct (at_done_wait (w i)); [done|]. apply Hnext. lia.
Qed.

Lemma lookup_loop_400 fuel i elapsed cfg peerID w :
  (∀ i, 0 <= at_latency (w i)) → (0 < fuel)%nat →
  maxTotalTime - elapsed <= 400 * Millisecond * Z.of_nat fuel →
  lookup_loop fuel i elapsed maxBackoff cfg peerID w ≠ Panic.
Proof.
  intros Hw. revert i elapsed. induction fuel as [|fuel IH]; intros i elapsed Hf Hr; [lia|].
  apply lookup_loop_step. intros Hb.
  replace (if maxBackoff <? maxBackoff * 2 then _ else _) with maxBackoff by done.
  specialize (Hw i). unfold maxBackoff in *. apply IH; [|lia].
  destruct fuel; [exfalso; lia|lia].
Qed.

Lemma lookup_sound fuel i elapsed backoff cfg peerID w inst :
  lookup_loop fuel i elapsed backoff cfg peerID w = Ret inst →
  ∃ k, (i <= k < i + fuel)%nat ∧ registry_hget cfg peerID (w k) = Some inst.
Proof.
  revert i elapsed backoff. induction fuel as [|fuel IH]; intros i elapsed backoff; [done|].
  cbn [lookup_loop]. destruct (at_done (w i)); [done|]. destruct (_ <=? 0); [done|].
  destruct (registry_hget cfg peerID (w i)) as [x|] eqn:E.
  - intros [= <-]. exists i. split; [lia|done].
  - destruct (_ <=? backoff); [done|]. destruct (at_done_wait (w i)); [done|].
    intros (k & ? & ?)%IH. exists k. split; [lia|done].
Qed.

Lemma registry_hget_Some cfg peerID a inst :
  registry_hget cfg peerID a = Some inst →
  inst ≠ "" ∧ at_net a = NetOk
  ∧ (HGet (SanitizeRedisKey (RegistryKey cfg)) (SanitizeRedisKey peerID) (at_store a)).1 = Ret inst.
Proof.
  unfold registry_hget. destruct (at_net a); simpl; try done.
  destruct (HGet _ _ _).1; try done. case_bool_decide; [|done]. by intros [= ->].
Qed.

Lemma lookupPeerInstance_sound cfg peerID w inst :
  lookupPeerInstance cfg peerID w = Ret inst →
  inst ≠ "" ∧ ∃ k, (k < 9)%nat ∧ registry_hget cfg peerID (w k) = Some inst.
Proof.
  unfold lookupPeerInstance. intros (k & ? & Hk)%lookup_sound.
  split; [by destruct (registry_hget_Some _ _ _ _ Hk)|]. exists k. split; [lia|done].
Qed.

(** ** The registry hash *)
Definition reg_key (cfg : SignalHAConfig) : string := SanitizeRedisKey (RegistryKey cfg).

Definition route_of (cfg : SignalHAConfig) (st : store) (peerID : string) : reply string :=
  (HGet (reg_key cfg) (SanitizeRedisKey peerID) st).1.

(** Nothing but a hash is stored under the registry key. *)
Definition registry_hash (cfg : SignalHAConfig) (st : store) (h : gmap string string) : Prop :=
  hash_at (keyspace st) (reg_key cfg) = Ret h.

Lemma route_of_hash cfg st h peerID :
  registry_hash cfg st h →
  route_of cfg st peerID
  = match h !! SanitizeRedisKey peerID with Some v => Ret v | None => Err RedisNil end.
Proof. unfold registry_hash, route_of. intros Hh. rewrite HGet_spec. simpl. by rewrite Hh. Qed.

Lemma HSet_hash k f v st h :
  hash_at (keyspace st) k = Ret h →
  ∃ r, HSet k f v st = (Ret r, (HSet k f v st).2)
    ∧ hash_at (keyspace (HSet k f v st).2) k = Ret (<[f := v]> h)
    ∧ is_Some (keyspace (HSet k f v st).2 !! k).
Proof.
  intros Hh. pose proof (HSet_spec k f v st) as Hs. rewrite Hh in Hs. destruct Hs as [H1 H2].
  exists (if decide (is_Some (h !! f)) then 0 else 1).
  split; [by rewrite <- H1, <- surjective_pairing|].
  rewrite H2, put_hash_at. split; [done|]. unfold put_hash.
  rewrite decide_False by apply insert_non_empty. rewrite lookup_insert_eq. eauto.
Qed.

(** After [HSET] and [EXPIRE] the field is readable until the TTL has passed. *)
Lemma HSet_Expire_routes cfg st h peerID inst ttl d :
  registry_hash cfg st h → whole_secs ttl → 0 <= d < ttl →
  let st1 := (HSet (reg_key cfg) (SanitizeRedisKey peerID) inst st).2 in
  let st2 := (Expire (reg_key cfg) ttl st1).2 in
  route_of cfg (advance d st2) peerID = Ret inst.
Proof.
  intros Hh Ht Hd st1 st2.
  destruct (HSet_hash (reg_key cfg) (SanitizeRedisKey peerID) inst st h Hh)
    as (r & _ & H1 & H2). fold st1 in H1, H2.
  destruct (Expire_spec (reg_key cfg) ttl st1 Ht) as [_ H3]. fold st2 in H3.
  destruct (advance_spec d st2) as [_ H4]; [lia|].
  assert (clock st2 = clock st1) as Hc by apply clock_Expire.
  rewrite (route_of_hash cfg _ (<[SanitizeRedisKey peerID := inst]> h)).
  { by rewrite lookup_insert_eq. }
  unfold registry_hash, hash_at in *. destruct H2 as [[v e] He]. rewrite He in H1.
  destruct v as [|g|]; try done. simplify_eq.
  assert (keyspace (advance d st2) !! reg_key cfg
    = Some (RHash (<[SanitizeRedisKey peerID := inst]> h), Some (clock st1 + ttl))) as ->; [|done].
  rewrite H4. apply live_lookup. rewrite H3, lookup_alter_eq, He. split; [done|].
  unfold alive. simpl. apply bool_decide_eq_true_2. lia.
Qed.

(** ** Signatures *)
Lemma sign_verify cfg e : Signature e = "" → verifyEnvelope cfg (signEnvelope cfg e) = true.
Proof.
  unfold verifyEnvelope, signEnvelope. intros He.
  destruct (decide (Secret cfg = "")) as [Hs|Hs].
  { by rewrite (bool_decide_eq_true_2 (Secret cfg = "" ∨ _)) by auto. }
  case_bool_decide; [done|]. rewrite (bool_decide_eq_false_2 (Secret cfg = "")) by done.
  apply bool_decide_eq_true_2. destruct e; simpl in *. by subst.
Qed.

Lemma sign_text cfg e :
  hmac_is_text → text_envelope e → text_envelope (signEnvelope cfg e).
Proof.
  intros Hh (H1 & H2 & H3 & H4). unfold signEnvelope. case_bool_decide; [done|].
  repeat split; try done. apply Hh.
Qed.

Lemma sign_message cfg e : Message (signEnvelope cfg e) = Message e.
Proof. unfold signEnvelope. by case_bool_decide. Qed.

(** ** Properties *)

(** C38: the lookup of a peer's instance terminates: whatever the network and
    Redis do, it returns within nine attempts, and an instance it returns is a
    non-empty answer the registry gave to one of them. *)
Theorem lookup_terminates cfg peerID w (Hw : ∀ i, 0 <= at_latency (w i)) :
  lookupPeerInstance cfg peerID w ≠ Panic
  ∧ ∀ inst, lookupPeerInstance cfg peerID w = Ret inst →
      inst ≠ "" ∧ ∃ k, (k < 9)%nat ∧ registry_hget cfg peerID (w k) = Some inst.
Proof.
  split; [|apply lookupPeerInstance_sound].
  unfold lookupPeerInstance. pose proof (Hw 0%nat). pose proof (Hw 1%nat).
  apply lookup_loop_step. intros _. apply lookup_loop_step. intros _.
  apply lookup_loop_400; [done|lia|].
  unfold maxTotalTime, maxBackoff, Second, Millisecond. simpl. lia.
Qed.

(** C16: end-to-end delivery across instances: when the registry maps the
    recipient to another instance and the publish goes through, exactly one
    envelope is published, on the channel that instance listens on; that
    instance accepts it and sends exactly this message on the recipient's stream.
    The sender's own state does not change. *)
Theorem cross_instance_delivery w o pub disp msg (A B : Server) dst
    (Hjson : json_roundtrip) (Hhmac : hmac_is_text)
    (Htext : text_msg msg ∧ text (instanceID A))
    (HA : redisClient A = true)
    (Hsecret : Secret (haConfig A) = Secret (haConfig B))
    (Hprefix : ChannelPrefix (haConfig A) = ChannelPrefix (haConfig B))
    (Hlookup : lookupPeerInstance (haConfig A) (RemoteKey msg) w = Ret (instanceID B))
    (Hother : instanceID B ≠ instanceID A) (Hpub : pub = NetOk)
    (Hdst : SignalPeers.Get (registry B) (RemoteKey msg) = Some dst) :
  ∃ p, Send w o pub disp msg A
       = {| sr_resp := Ret tt; sr_server := A;
            sr_published := Some (channel_of (haConfig B) (instanceID B), p);
            sr_dispatched := false |}
     ∧ haMessageListener_msg B (Some p) SendOk = Ret (deliver dst msg B).
Proof.
  unfold Send. rewrite HA, Hlookup.
  destruct (lookupPeerInstance_sound _ _ _ _ Hlookup) as [Hne _].
  rewrite bool_decide_eq_true_2 by done. rewrite bool_decide_eq_false_2 by done. subst pub.
  set (e := {| FromInstance := instanceID A; ToPeer := RemoteKey msg;
               Message := Some msg; Signature := "" |}).
  exists (json_Marshal (signEnvelope (haConfig A) e)). split.
  { simpl. unfold channel_of. by rewrite Hprefix. }
  assert (signEnvelope (haConfig A) e = signEnvelope (haConfig B) e) as ->
    by (unfold signEnvelope; by rewrite Hsecret).
  unfold haMessageListener_msg. rewrite Hjson.
  - rewrite sign_verify by done. simpl. rewrite sign_message. simpl. by rewrite Hdst.
  - destruct Htext as [[? ?] ?]. by apply sign_text.
Qed.

(** A message for a peer that the registry places on this very instance is
    never published or dispatched: it is sent on the peer's local stream when it
    has one, and otherwise dropped without changing the server. *)
Theorem send_local_or_drop w o pub disp msg (s : Server)
    (Hha : redisClient s = true)
    (Hlookup : lookupPeerInstance (haConfig s) (RemoteKey msg) w = Ret (instanceID s)) :
  let r := Send w o pub disp msg s in
  sr_resp r = Ret tt ∧ sr_published r = None ∧ sr_dispatched r = false
  ∧ (SignalPeers.Get (registry s) (RemoteKey msg) = None → sr_server r = s)
  ∧ (∀ p, SignalPeers.Get (registry s) (RemoteKey msg) = Some p → o = SendOk →
       sr_server r = deliver p msg s)
  ∧ (∀ p, SignalPeers.Get (registry s) (RemoteKey msg) = Some p → o = SendTimedOut →
       ptr p ∈ cancelled (registry (sr_server r)) ∧ delivered (sr_server r) = delivered s).
Proof.
  destruct (lookupPeerInstance_sound _ _ _ _ Hlookup) as [Hne _].
  unfold Send. rewrite Hha, Hlookup. rewrite !bool_decide_eq_true_2 by done. simpl.
  do 3 (split; [done|]). split; [by intros ->|]. unfold forward_msg. simpl. split.
  - intros p Hp ->. by rewrite Hp.
  - intros p Hp ->. rewrite Hp. simpl. split; [set_solver|done].
Qed.

(** A peer registered in Redis, and likewise one whose heartbeat just ticked,
    is found on this instance by every lookup until [PeerTTL] has passed. *)
Theorem registered_peer_routable (s : Server) peerID n3 st h d
    (Hha : redisClient s = true) (Httl : whole_secs (PeerTTL (haConfig s)))
    (Hh : registry_hash (haConfig s) st h) (Hd : 0 <= d < PeerTTL (haConfig s)) :
  (∃ st', registerPeerInRedis s peerID NetOk NetOk n3 st = (true, st')
     ∧ route_of (haConfig s) (advance d st') peerID = Ret (instanceID s))
  ∧ (is_Some (SignalPeers.Get (registry s) peerID) →
     ∃ st', peerHeartbeat_tick s peerID NetOk NetOk st = (true, st')
       ∧ route_of (haConfig s) (advance d st') peerID = Ret (instanceID s)).
Proof.
  pose proof (HSet_Expire_routes _ _ _ peerID (instanceID s) _ _ Hh Httl Hd) as Hr.
  cbv zeta in Hr.
  destruct (HSet_hash (reg_key (haConfig s)) (SanitizeRedisKey peerID) (instanceID s) st h Hh)
    as (r & Hs & _ & _).
  split.
  - unfold registerPeerInRedis. rewrite Hha. simpl. fold (reg_key (haConfig s)). rewrite Hs.
    destruct (Expire_spec (reg_key (haConfig s)) (PeerTTL (haConfig s))
      (HSet (reg_key (haConfig s)) (SanitizeRedisKey peerID) (instanceID s) st).2 Httl) as [He _].
    destruct (Expire _ _ _) as [x st2]. simpl in *. subst x. by exists st2.
  - intros [p Hp]. unfold peerHeartbeat_tick. rewrite Hp. simpl.
    fold (reg_key (haConfig s)). rewrite Hs. eauto.
Qed.

(** Deregistration is unconditional: when a peer has moved to another
    instance, the late cleanup of its old connection removes the new
    instance's registry entry, and lookups fail until the next heartbeat. *)
Theorem stale_deregister_unroutes (A : Server) p st h other
    (Hha : redisClient A = true) (Hh : registry_hash (haConfig A) st h)
    (Hnew : h !! SanitizeRedisKey (Id p) = Some other) :
  route_of (haConfig A) st (Id p) = Ret other
  ∧ route_of (haConfig A) (DeregisterPeer p NetOk A st).2 (Id p) = Err RedisNil.
Proof.
  split; [by rewrite (route_of_hash _ _ _ _ Hh), Hnew|].
  unfold DeregisterPeer, deregisterPeerFromRedis. simpl. rewrite Hha. simpl.
  fold (reg_key (haConfig A)).
  pose proof (HDel_spec (reg_key (haConfig A)) (SanitizeRedisKey (Id p)) st) as Hs.
  unfold registry_hash in Hh. rewrite Hh in Hs. destruct Hs as [_ Hs].
  rewrite (route_of_hash _ _ (delete (SanitizeRedisKey (Id p)) h)).
  - by rewrite lookup_delete_eq.
  - unfold registry_hash. by rewrite Hs, put_hash_at.
Qed.

(** A configured secret does not make signatures mandatory: an envelope
    without a signature is accepted and its message forwarded; and an accepted
    envelope without a message makes the listener dereference nil. *)
Theorem unsigned_envelope_accepted (s : Server) p e o
    (Hdec : json_Unmarshal p = Some e) (Hsig : Signature e = "") :
  haMessageListener_msg s (Some p) o = forwardMessageToPeer o (Message e) s
  ∧ (Message e = None → haMessageListener_msg s (Some p) o = Panic).
Proof.
  unfold haMessageListener_msg, verifyEnvelope. rewrite Hdec.
  rewrite bool_decide_eq_true_2 by auto. simpl. split; [done|]. by intros ->.
Qed.

(** When the message listener cannot be started, [RegisterPeer] fails but the
    peer stays in the local registry (nothing deregisters it). *)
Theorem failed_registration_leaks id hdr ptr now n1 n2 n3 (s : Server) st s' st'
    (H : RegisterPeer (Some (id :: hdr)) ptr now false n1 n2 n3 s st = (Err ErrListener, s', st')) :
  SignalPeers.Get (registry s') id = Some (NewPeer ptr id now).
Proof.
  unfold RegisterPeer in H. pose proof (Register_cases (NewPeer ptr id now) (registry s)) as Hc.
  destruct (Register (NewPeer ptr id now) (registry s)) as [[[]| |] r] eqn:E; [|done|done].
  destruct (registerPeerInRedis _ _ _ _ _ _) as [b st1]. injection H as <- <-.
  simpl. unfold SignalPeers.Get.
  change id with (Id (NewPeer ptr id now)) at 1.
  destruct (Peers (registry s) !! _) as [pp|].
  - destruct (_ <? _); [|done]. injection Hc as ->. simpl. by rewrite lookup_insert_eq.
  - injection Hc as ->. simpl. by rewrite lookup_insert_eq.
Qed.

End signal.

(** ** Concrete instances *)
Definition sig_cfg : SignalHAConfig := {|
  sig_HAConfig := DefaultHAConfig; RegistryKey := "nb:signal:registry";
  ChannelPrefix := "nb:signal:instance:"; PeerTTL := 30 * Second;
  HeartbeatInterval := 10 * Second; SendTimeout := 10 * Second; Secret := "s3cret" |}.

Definition mk_server (inst : string) (r : Registry) : Server :=
  {| registry := r; haConfig := sig_cfg; redisClient := true; instanceID := inst;
     delivered := []; MessagesForwarded := 0; MessageForwardFailures := [] |}.

Definition bob : Peer := {| ptr := 7; Id := "bob"; StreamID := 5 |}.
Definition server_A : Server := mk_server "A" NewRegistry.
Definition server_B : Server := mk_server "B" (Register bob NewRegistry).2.
Definition hello : EncryptedMessage := {| Key := "alice"; RemoteKey := "bob"; Body := [x01] |}.

Definition empty_store : @store mem_redis := Mem ∅ 0.

(** Redis after B registered bob. *)
Definition bob_store : @store mem_redis :=
  (registerPeerInRedis server_B "bob" NetOk NetOk NetOk empty_store).2.

Definition quick (st : @store mem_redis) (i : nat) : attempt :=
  {| at_done := false; at_net := NetOk; at_store := st; at_latency := 1; at_done_wait := false |}.

(** A codec and a tag satisfying the two facts. *)
Definition id_Marshal (e : signalEnvelope) : signalEnvelope := e.
Definition id_Unmarshal (e : signalEnvelope) : option signalEnvelope := Some e.
Definition toy_hmac (k : string) (e : signalEnvelope) : string := "0a".

Lemma lookup_terminates_witness :
  lookupPeerInstance sig_cfg "nobody" (quick empty_store) ≠ Panic
  ∧ lookupPeerInstance sig_cfg "nobody" (quick empty_store) = Err ErrDeadlineExceeded.
Proof.
  split; [|vm_compute; reflexivity].
  apply (lookup_terminates sig_cfg "nobody" (quick empty_store)).
  intros i. vm_compute. discriminate.
Defined.

Lemma cross_instance_delivery_witness :
  ∃ p, haMessageListener_msg id_Marshal id_Unmarshal toy_hmac server_B (Some p) SendOk
       = Ret (deliver bob hello server_B).
Proof.
  destruct (cross_instance_delivery id_Marshal id_Unmarshal toy_hmac (quick bob_store) SendOk
    NetOk (Ret tt) hello server_A server_B bob) as (p & _ & H); [..|exists p; exact H].
  - intros e _. reflexivity.
  - intros k d. split; [vm_compute; reflexivity|discriminate].
  - repeat split; vm_compute; reflexivity.
  - reflexivity.
  - reflexivity.
  - reflexivity.
  - vm_compute. reflexivity.
  - discriminate.
  - reflexivity.
  - vm_compute. reflexivity.
Defined.

Lemma send_local_or_drop_witness :
  let r := Send id_Marshal toy_hmac (quick bob_store) SendOk NetOk (Ret tt) hello server_B in
  sr_published r = None ∧ sr_server r = deliver bob hello server_B.
Proof.
  destruct (send_local_or_drop id_Marshal toy_hmac (quick bob_store) SendOk NetOk (Ret tt)
    hello server_B) as (_ & H1 & _ & _ & H2 & _); [reflexivity|vm_compute; reflexivity|].
  split; [exact H1|]. apply H2; [vm_compute; reflexivity|reflexivity].
Defined.

Lemma registered_peer_routable_witness :
  ∃ st', registerPeerInRedis server_B "bob" NetOk NetOk NetOk empty_store = (true, st')
    ∧ route_of sig_cfg (advance (29 * Second) st') "bob" = Ret "B".
Proof.
  destruct (registered_peer_routable server_B "bob" NetOk empty_store ∅ (29 * Second))
    as [H _]; [reflexivity|split; reflexivity|reflexivity|vm_compute; split; [discriminate|reflexivity]|].
  exact H.
Defined.

Lemma stale_deregister_unroutes_witness :
  route_of sig_cfg bob_store "bob" = Ret "B"
  ∧ route_of sig_cfg (DeregisterPeer bob NetOk server_A bob_store).2 "bob" = Err RedisNil.
Proof.
  apply (stale_deregister_unroutes server_A bob bob_store {[ "bob" := "B" ]} "B");
    [reflexivity|vm_compute; reflexivity|vm_compute; reflexivity].
Defined.

Lemma unsigned_envelope_accepted_witness :
  haMessageListener_msg id_Marshal id_Unmarshal toy_hmac server_B
    (Some {| FromInstance := "x"; ToPeer := "bob"; Message := Some hello; Signature := "" |}) SendOk
  = Ret (deliver bob hello server_B).
Proof.
  rewrite (proj1 (unsigned_envelope_accepted id_Marshal id_Unmarshal toy_hmac server_B
    {| FromInstance := "x"; ToPeer := "bob"; Message := Some hello; Signature := "" |}
    {| FromInstance := "x"; ToPeer := "bob"; Message := Some hello; Signature := "" |}
    SendOk eq_refl eq_refl)).
  vm_compute. reflexivity.
Defined.

Lemma failed_registration_leaks_witness :
  ∃ s' st', RegisterPeer (Some ["bob"]) 7 5 false NetOk NetOk NetOk server_A empty_store
            = (Err ErrListener, s', st') ∧ SignalPeers.Get (registry s') "bob" = Some bob.
Proof.
  eexists _, _. split; [reflexivity|].
  eapply (failed_registration_leaks "bob" [] 7 5 NetOk NetOk NetOk server_A empty_store).
  reflexivity.
Defined.
