(* ===== verification/LoginFilter.v ===== *)
(** The management server's login filter:
    [src/management/internals/shared/grpc/loginfilter.go].

    Per WireGuard key the filter counts logins in a session window, bans a key that
    reconnects too often with an exponential backoff, and limits metadata changes.
    The mutex makes every entry point atomic, so a call is a function from the
    filter (and the Redis store) to the next; [t1], [t2], [t3] are the readings of
    [time.Now()] during the call.

    [peerState] has no exported field: [encoding/json] writes it as ["{}"] and, from
    any JSON it accepts, reads back the zero value.  [json_ok] says which strings it
    accepts. *)
From S2P Require Import Prelude Redis.
Open Scope Z_scope.

Record lfConfig := {
  reconnThreshold : Z;
  baseBlockDuration : Z;
  reconnLimitForBan : Z;
  metaChangeLimit : Z;
}.

Definition initCfg : lfConfig := {|
  reconnThreshold := 5 * Minute;
  baseBlockDuration := 10 * Minute;
  reconnLimitForBan := 30;
  metaChangeLimit := 3;
|}.

Record peerState := {
  currentHash : Z;            (* uint64 *)
  sessionCounter : Z;         (* uint64 *)
  sessionStart : Z;
  lastSeen : Z;
  isBanned : bool;
  banLevel : Z;
  banExpiresAt : Z;
  metaChangeCounter : Z;
  metaChangeWindowStart : Z;
}.

(** The zero [time.Time] is January 1, year 1, relative to the Unix epoch. *)
Definition zeroTime : Z := - 62135596800 * Second.

Definition zero_peerState : peerState := {|
  currentHash := 0; sessionCounter := 0; sessionStart := zeroTime; lastSeen := zeroTime;
  isBanned := false; banLevel := 0; banExpiresAt := zeroTime;
  metaChangeCounter := 0; metaChangeWindowStart := zeroTime;
|}.

Record loginFilter := {
  cfg : lfConfig;
  logged : gmap string peerState;
  has_redis : bool;           (* redis != nil *)
  key : string;
  has_lock : bool;            (* loginLock != nil *)
}.

Definition newLoginFilterWithCfg (c : lfConfig) : loginFilter :=
  {| cfg := c; logged := ∅; has_redis := false; key := ""; has_lock := false |}.

Definition newLoginFilter : loginFilter := newLoginFilterWithCfg initCfg.

Definition newLoginFilterWithRedis (k : string) (lock : bool) : loginFilter :=
  {| cfg := initCfg; logged := ∅; has_redis := true; key := k; has_lock := lock |}.

Definition set_logged (m : gmap string peerState) (l : loginFilter) : loginFilter :=
  {| cfg := cfg l; logged := m; has_redis := has_redis l; key := key l; has_lock := has_lock l |}.

Definition MaxUint64 : Z := 2 ^ 64 - 1.

(** [Time.Sub] saturates at the bounds of [Duration]. *)
Definition time_Sub (t u : Z) : Z := Z.max (- 2 ^ 63) (Z.min (2 ^ 63 - 1) (t - u)).

(** [time.Duration(float64(base) * math.Pow(2, float64(level-1)))], exact as long as
    the result is a float64 integer; [ban_level_bounded] bounds it. *)
Definition ban_duration (c : lfConfig) (level : Z) : Z := baseBlockDuration c * 2 ^ (level - 1).

(** *** The decision on a known state *)
Definition allow_state (c : lfConfig) (t1 t2 : Z) (metaHash : Z) (s : peerState) : bool :=
  if isBanned s && (t1 <? banExpiresAt s) then false
  else if negb (metaHash =? currentHash s)
          && (t2 <? metaChangeWindowStart s + reconnThreshold c)
          && (metaChangeLimit c <=? metaChangeCounter s)
  then false
  else true.

(** *** Recording a login on a known state *)
Definition unban (now : Z) (s : peerState) : peerState :=
  if isBanned s && (banExpiresAt s <? now)
  then {| currentHash := currentHash s; sessionCounter := sessionCounter s;
          sessionStart := sessionStart s; lastSeen := lastSeen s; isBanned := false;
          banLevel := banLevel s; banExpiresAt := banExpiresAt s;
          metaChangeCounter := metaChangeCounter s;
          metaChangeWindowStart := metaChangeWindowStart s |}
  else s.

Definition decay (c : lfConfig) (now : Z) (s : peerState) : peerState :=
  if (0 <? banLevel s) && (2 * baseBlockDuration c <? time_Sub now (lastSeen s))
  then {| currentHash := currentHash s; sessionCounter := sessionCounter s;
          sessionStart := sessionStart s; lastSeen := lastSeen s; isBanned := isBanned s;
          banLevel := 0; banExpiresAt := banExpiresAt s;
          metaChangeCounter := metaChangeCounter s;
          metaChangeWindowStart := metaChangeWindowStart s |}
  else s.

Definition meta_changed (c : lfConfig) (now metaHash : Z) (s : peerState) : peerState :=
  let fresh := metaChangeWindowStart s + reconnThreshold c <? now in
  {| currentHash := metaHash; sessionCounter := 1; sessionStart := now; lastSeen := now;
     isBanned := isBanned s; banLevel := banLevel s; banExpiresAt := banExpiresAt s;
     metaChangeCounter := if fresh then 1 else metaChangeCounter s + 1;
     metaChangeWindowStart := if fresh then now else metaChangeWindowStart s |}.

Definition count_session (c : lfConfig) (now : Z) (s : peerState) : peerState :=
  let counter := if MaxUint64 - 1000 <? sessionCounter s then 0 else sessionCounter s in
  let counter := wrap_u64 (counter + 1) in
  let ban := (reconnLimitForBan c <? counter) && (time_Sub now (sessionStart s) <? reconnThreshold c) in
  {| currentHash := currentHash s;
     sessionCounter := if ban then 0 else counter;
     sessionStart := if ban then now else sessionStart s;
     lastSeen := now;
     isBanned := if ban then true else isBanned s;
     banLevel := if ban then banLevel s + 1 else banLevel s;
     banExpiresAt := if ban then now + ban_duration c (banLevel s + 1) else banExpiresAt s;
     metaChangeCounter := metaChangeCounter s;
     metaChangeWindowStart := metaChangeWindowStart s |}.

Definition new_state (now metaHash : Z) : peerState := {|
  currentHash := metaHash; sessionCounter := 1; sessionStart := now; lastSeen := now;
  isBanned := false; banLevel := 0; banExpiresAt := zeroTime;
  metaChangeCounter := 1; metaChangeWindowStart := now;
|}.

Definition add_state (c : lfConfig) (now metaHash : Z) (s : option peerState) : peerState :=
  match s with
  | None => new_state now metaHash
  | Some s =>
      let s := decay c now (unban now s) in
      if negb (metaHash =? currentHash s) then meta_changed c now metaHash s
      else count_session c now s
  end.

(** *** cleanupStaleEntries: one tick *)
Definition stale (c : lfConfig) (now : Z) (s : peerState) : bool :=
  if isBanned s && (now <? banExpiresAt s) then false
  else 2 * baseBlockDuration c <? time_Sub now (lastSeen s).

Definition cleanupStaleEntries_tick (now : Z) (l : loginFilter) : loginFilter :=
  set_logged (filter (λ p, stale (cfg l) now p.2 = false) (logged l)) l.

(** *** metaHash

    64-bit FNV-1a over the concatenated fields, plus the sum of the runes of the MAC
    addresses ([Mac] is the sequence of runes that [range] yields). *)
Record PeerSystemMeta := {
  WtVersion : string; OSVersion : string; KernelVersion : string; Hostname : string;
  SystemSerialNumber : string;
  NetworkAddresses : list (list Z);
}.

Definition fnv_offset64 : Z := 14695981039346656037.
Definition fnv_prime64 : Z := 1099511628211.

Definition fnv_Write (h : Z) (data : string) : Z :=
  foldl (λ h c, wrap_u64 (Z.lxor h (Z.of_N (Ascii.N_of_ascii c)) * fnv_prime64)) h
    (String.list_ascii_of_string data).

Definition mac_sum (macs : Z) (mac : list Z) : Z :=
  foldl (λ m r, wrap_u64 (m + wrap_u64 r)) macs mac.

Definition metaHash (meta : PeerSystemMeta) (pubip : string) : Z :=
  let h := foldl fnv_Write fnv_offset64
             [WtVersion meta; OSVersion meta; KernelVersion meta; Hostname meta;
              SystemSerialNumber meta; pubip] in
  let macs := foldl mac_sum 0 (NetworkAddresses meta) in
  wrap_u64 (h + macs).

Section filter.
Context {R : RedisServer} {RL : RedisLaws R}.
Context (json_ok : string → bool).

Definition json_Marshal_peerState (s : peerState) : string := "{}".
Definition json_Unmarshal_peerState (data : string) : option peerState :=
  if json_ok data then Some zero_peerState else None.

(** Result: allowed?, and the filter, whose map may have been filled from Redis. *)
Definition allowLoginUnderLock (t1 t2 : Z) (n : net) (wgPubKey : string) (metaHash : Z)
    (l : loginFilter) (st : store) : bool * loginFilter :=
  let decide_on (so : option peerState) (l : loginFilter) : bool * loginFilter :=
    match so with
    | None => (true, l)
    | Some s => (allow_state (cfg l) t1 t2 metaHash s, l)
    end in
  match logged l !! wgPubKey with
  | Some s => decide_on (Some s) l
  | None =>
      if has_redis l then
        match (call n (HGet (key l) wgPubKey) st).1 with
        | Ret data =>
            if bool_decide (data ≠ "") then
              match json_Unmarshal_peerState data with
              | Some s => decide_on (Some s) (set_logged (<[wgPubKey := s]> (logged l)) l)
              | None => decide_on None l
              end
            else decide_on None l
        | _ => (false, l)
        end
      else decide_on None l
  end.

Definition syncToRedis (n1 n2 : net) (wgPubKey : string) (s : peerState) (l : loginFilter)
    (st : store) : store :=
  if negb (has_redis l) then st
  else
    let st := (call n1 (HSet (key l) wgPubKey (json_Marshal_peerState s)) st).2 in
    (call n2 (Expire (key l) (2 * baseBlockDuration (cfg l))) st).2.

Definition addLoginUnderLock (now : Z) (n1 n2 : net) (wgPubKey : string) (metaHash : Z)
    (l : loginFilter) (st : store) : loginFilter * store :=
  let s := add_state (cfg l) now metaHash (logged l !! wgPubKey) in
  let l := set_logged (<[wgPubKey := s]> (logged l)) l in
  (l, syncToRedis n1 n2 wgPubKey s l st).

Definition allowLogin := allowLoginUnderLock.
Definition addLogin := addLoginUnderLock.

(** What one call meets: the clock, the lock and the network. *)
Record login_env := {
  t1 : Z; t2 : Z; t3 : Z;
  lock_acquired : bool;
  n_get : net; n_set : net; n_expire : net;
}.

Definition CheckAndAddLogin (e : login_env) (wgPubKey : string) (metaHash : Z)
    (l : loginFilter) (st : store) : bool * loginFilter * store :=
  let locked :=
    let '(ok, l) := allowLoginUnderLock (t1 e) (t2 e) (n_get e) wgPubKey metaHash l st in
    if negb ok then (false, l, st)
    else
      let '(l, st) := addLoginUnderLock (t3 e) (n_set e) (n_expire e) wgPubKey metaHash l st in
      (true, l, st) in
  if negb (has_lock l) then locked
  else if negb (lock_acquired e) then (false, l, st)
  else locked.

(** What happens to a filter: a login request or a tick of the cleanup goroutine. *)
Inductive event :=
| Login (e : login_env) (wgPubKey : string) (metaHash : Z)
| Tick (now : Z).

Definition exec (ev : event) (l : loginFilter) (st : store) : option bool * loginFilter * store :=
  match ev with
  | Login e k h => let '(ok, l, st) := CheckAndAddLogin e k h l st in (Some ok, l, st)
  | Tick now => (None, cleanupStaleEntries_tick now l, st)
  end.

Fixpoint run (evs : list event) (l : loginFilter) (st : store)
    : list (option bool) * loginFilter * store :=
  match evs with
  | [] => ([], l, st)
  | ev :: evs =>
      let '(r, l, st) := exec ev l st in
      let '(rs, l, st) := run evs l st in (r :: rs, l, st)
  end.

Definition results (evs : list event) (l : loginFilter) (st : store) : list (option bool) :=
  (run evs l st).1.1.
Definition final (evs : list event) (l : loginFilter) (st : store) : loginFilter :=
  (run evs l st).1.2.

(** ** Lemmas on single steps *)
Lemma run_cons ev evs l st :
  results (ev :: evs) l st
  = (exec ev l st).1.1 :: results evs (exec ev l st).1.2 (exec ev l st).2
  ∧ final (ev :: evs) l st = final evs (exec ev l st).1.2 (exec ev l st).2.
Proof.
  unfold results, final. simpl. destruct (exec ev l st) as [[r l'] st'].
  simpl. by destruct (run evs l' st') as [[rs l''] st''].
Qed.

(** The state a call consults for [k]: the local one, or the zero value that comes
    back from Redis when there is none. *)
Definition known (l : loginFilter) (k : string) (so : option peerState) : Prop :=
  logged l !! k = so ∨ (logged l !! k = None ∧ so = Some zero_peerState).

Lemma allowLoginUnderLock_inv tt1 tt2 n k h l st ok l' :
  allowLoginUnderLock tt1 tt2 n k h l st = (ok, l') →
  (l' = l ∨ (logged l !! k = None ∧ l' = set_logged (<[k := zero_peerState]> (logged l)) l))
  ∧ (ok = true → ∀ s, logged l' !! k = Some s → allow_state (cfg l) tt1 tt2 h s = true).
Proof.
  unfold allowLoginUnderLock, json_Unmarshal_peerState. intros Hc.
  destruct (logged l !! k) as [s|] eqn:Hk; [naive_solver|].
  destruct (has_redis l); [|naive_solver].
  destruct ((call n (HGet (key l) k) st).1) as [data| |]; [|naive_solver..].
  case_bool_decide; [|naive_solver].
  destruct (json_ok data); [|naive_solver].
  simplify_eq. split; [by right|]. intros Ha s. simpl. rewrite lookup_insert_eq.
  intros ?; by simplify_eq.
Qed.

(** A call denies without recording, or allows and records the login on top of the
    state it consulted. *)
Lemma CheckAndAddLogin_inv e k h l st ok l' st' :
  CheckAndAddLogin e k h l st = (ok, l', st') →
  cfg l' = cfg l ∧
  ((ok = false ∧ st' = st ∧
    (l' = l ∨ (logged l !! k = None ∧ logged l' = <[k := zero_peerState]> (logged l))))
   ∨ (ok = true ∧ ∃ so, known l k so
       ∧ (∀ s, so = Some s → allow_state (cfg l) (t1 e) (t2 e) h s = true)
       ∧ logged l' = <[k := add_state (cfg l) (t3 e) h so]> (logged l))).
Proof.
  unfold CheckAndAddLogin. intros Hc.
  destruct (has_lock l); simpl in Hc; [destruct (lock_acquired e); simpl in Hc; [|naive_solver]|];
    destruct (allowLoginUnderLock _ _ _ _ _ _ _) as [a l1] eqn:Ha;
    apply allowLoginUnderLock_inv in Ha as [Hl Hal]; destruct a; simpl in Hc; simplify_eq.
  all: destruct Hl as [-> | [Hn ->]]; (split; [done|]); simpl in *.
  all: try (left; split_and!; [done|done|]; by (left + right)).
  all: right; split; [done|]; eexists; unfold known;
    rewrite ?lookup_insert_eq, ?insert_insert_eq in *; split_and!; [| |done]; auto.
Qed.

(** ** Bans are bounded *)
Definition wf_cfg (c : lfConfig) : Prop :=
  0 < baseBlockDuration c ∧ 2 * baseBlockDuration c < 2 ^ 63 - 1.

Definition ban_ok (c : lfConfig) (s : peerState) : Prop :=
  0 ≤ banLevel s ≤ 3
  ∧ (banLevel s = 3 → isBanned s = true ∧ lastSeen s + 4 * baseBlockDuration c ≤ banExpiresAt s)
  ∧ (isBanned s = true → banExpiresAt s ≤ lastSeen s + 4 * baseBlockDuration c).

Lemma time_Sub_gt d t u : d < 2 ^ 63 - 1 → d < t - u → d < time_Sub t u.
Proof. unfold time_Sub. lia. Qed.

Lemma time_Sub_lt d t u : 0 < d → t - u < d → time_Sub t u < d.
Proof. unfold time_Sub. lia. Qed.

Lemma ban_duration_le c lvl : 0 < baseBlockDuration c → 1 ≤ lvl ≤ 3 →
  ban_duration c lvl ≤ 4 * baseBlockDuration c
  ∧ (lvl = 3 → ban_duration c lvl = 4 * baseBlockDuration c).
Proof.
  intros. unfold ban_duration. assert (lvl = 1 ∨ lvl = 2 ∨ lvl = 3) as [-> | [-> | ->]] by lia; simpl; lia.
Qed.

(** Once a ban is served, the decay has reset a level-three counter: the level a
    login is recorded on is at most two. *)
Lemma decay_level c now s :
  wf_cfg c → ban_ok c s → (isBanned s = true → banExpiresAt s ≤ now) →
  0 ≤ banLevel (decay c now (unban now s)) ≤ 2
  ∧ (isBanned (decay c now (unban now s)) = true → banExpiresAt (decay c now (unban now s)) ≤ now)
  ∧ currentHash (decay c now (unban now s)) = currentHash s.
Proof.
  intros [??] (Hl & H3 & Hexp) Hserved. unfold decay, unban.
  destruct (decide (banLevel s = 3)) as [E3|].
  - destruct (H3 E3) as [Hb Hlo]. specialize (Hserved Hb). rewrite Hb. simpl.
    destruct (banExpiresAt s <? now) eqn:?; simpl; rewrite E3;
    (rewrite (proj2 (Z.ltb_lt _ _) (time_Sub_gt (2 * baseBlockDuration c) now (lastSeen s) ltac:(lia) ltac:(lia))));
    simpl; split_and!; try lia; auto.
  - destruct (isBanned s) eqn:Hb; simpl; repeat case_match; simpl in *; rewrite ?Hb;
      split_and!; try lia; auto; congruence.
Qed.

Lemma add_state_ban_ok c tt1 tt2 now h so :
  wf_cfg c → tt1 ≤ now → (∀ s, so = Some s → ban_ok c s ∧ allow_state c tt1 tt2 h s = true) →
  ban_ok c (add_state c now h so).
Proof.
  intros Hwf Ht Hso. destruct so as [s|]; [|by unfold ban_ok; simpl; lia].
  destruct (Hso s eq_refl) as [Hok Hal]. simpl.
  assert (Hserved : isBanned s = true → banExpiresAt s ≤ now).
  { unfold allow_state in Hal. intros Hb. rewrite Hb in Hal. simpl in Hal.
    destruct (tt1 <? banExpiresAt s) eqn:?; [done|lia]. }
  destruct (decay_level c now s Hwf Hok Hserved) as (Hl & Hb & _).
  remember (decay c now (unban now s)) as s' eqn:Hs'. clear Hs' Hok Hal Hserved Hso.
  destruct Hwf. unfold meta_changed, count_session, ban_ok.
  case_match; simpl; [split_and!; [lia|lia|lia|intros Hb'; specialize (Hb Hb'); lia]|].
  destruct (_ && (time_Sub _ _ <? _)); simpl.
  - destruct (ban_duration_le c (banLevel s' + 1)) as [? H3]; [lia..|].
    split_and!; lia.
  - split_and!; [lia|lia|lia|intros Hb'; specialize (Hb Hb'); lia].
Qed.

Definition event_timed (ev : event) : Prop :=
  match ev with Login e _ _ => t1 e ≤ t3 e | Tick _ => True end.

Definition filter_ok (l : loginFilter) : Prop :=
  wf_cfg (cfg l) ∧ map_Forall (λ _ s, ban_ok (cfg l) s) (logged l).

Lemma zero_ban_ok c : wf_cfg c → ban_ok c zero_peerState.
Proof. intros [??]. unfold ban_ok; simpl; naive_solver lia. Qed.

Lemma exec_cfg ev l st : cfg (exec ev l st).1.2 = cfg l.
Proof.
  destruct ev as [e k h|now]; [|done]. simpl.
  destruct (CheckAndAddLogin e k h l st) as [[ok l'] st'] eqn:E.
  by apply CheckAndAddLogin_inv in E as [? _].
Qed.

Lemma exec_ok ev l st : event_timed ev → filter_ok l → filter_ok (exec ev l st).1.2.
Proof.
  intros Ht [Hwf Hm]. destruct ev as [e k h|now]; simpl in *.
  - destruct (CheckAndAddLogin e k h l st) as [[ok l'] st'] eqn:E. simpl.
    apply CheckAndAddLogin_inv in E as [Hc E]. unfold filter_ok. rewrite Hc. split; [done|].
    destruct E as [(-> & -> & [->|[_ ->]]) | (-> & so & Hk & Hal & ->)];
      [done|apply map_Forall_insert_2; [by apply zero_ban_ok|done]|].
    apply map_Forall_insert_2; [|done]. eapply add_state_ban_ok; [done..|].
    intros s ->. split; [|by apply Hal]. destruct Hk as [Hk|[_ Hk]]; simplify_eq.
    + by apply Hm in Hk.
    + by apply zero_ban_ok.
  - split; [done|]. simpl. intros k s. rewrite map_lookup_filter_Some. intros [? _]. by eapply Hm.
Qed.

(** However many logins a key attempts, and whatever Redis and the network do,
    its ban level never exceeds three and no ban lasts longer than four base
    durations after the login that was last recorded: a served ban always outlasts
    the decay window, so the exponential backoff cannot run away (or overflow). *)
Theorem ban_level_bounded evs l st k s :
  filter_ok l → Forall event_timed evs → logged (final evs l st) !! k = Some s →
  0 ≤ banLevel s ≤ 3
  ∧ (isBanned s = true → banExpiresAt s ≤ lastSeen s + 4 * baseBlockDuration (cfg l)).
Proof.
  intros Hok Hev. enough (Hf : cfg (final evs l st) = cfg l ∧ filter_ok (final evs l st)).
  { destruct Hf as [Hc [_ Hm]]. intros Hk. apply Hm in Hk. rewrite Hc in Hk. unfold ban_ok in Hk. tauto. }
  revert l st Hok. induction Hev as [|ev evs Hev _ IH]; intros l st Hok; [done|].
  rewrite (proj2 (run_cons ev evs l st)).
  destruct (IH _ (exec ev l st).2 (exec_ok ev l st Hev Hok)) as [-> ?]. split; [|done].
  apply exec_cfg.
Qed.

(** ** A ban is enforced until it expires *)
Definition event_before (T : Z) (ev : event) : Prop :=
  match ev with Login e _ _ => t1 e < T | Tick now => now < T end.

Definition login_of (k : string) (ev : event) : bool :=
  match ev with Login _ k' _ => bool_decide (k' = k) | Tick _ => false end.

Lemma exec_banned ev l st k s :
  logged l !! k = Some s → isBanned s = true → event_before (banExpiresAt s) ev →
  logged (exec ev l st).1.2 !! k = Some s
  ∧ (login_of k ev = true → (exec ev l st).1.1 = Some false).
Proof.
  intros Hk Hb Hev. destruct ev as [e k' h|now]; simpl in *.
  - destruct (CheckAndAddLogin e k' h l st) as [[ok l'] st'] eqn:E. simpl.
    apply CheckAndAddLogin_inv in E as [_ E].
    destruct E as [(-> & _ & [->|[Hn ->]]) | (-> & so & Hkn & Hal & ->)];
      [done|rewrite lookup_insert_ne by congruence; done|].
    destruct (decide (k' = k)) as [->|]; [|by rewrite lookup_insert_ne, bool_decide_eq_false_2].
    destruct Hkn as [Hkn|[? _]]; [|congruence]. rewrite Hk in Hkn. specialize (Hal s (eq_sym Hkn)).
    unfold allow_state in Hal. rewrite Hb, (proj2 (Z.ltb_lt _ _) Hev) in Hal. done.
  - rewrite map_lookup_filter_Some. split; [|done]. split; [done|]. simpl. unfold stale.
    by rewrite Hb, (proj2 (Z.ltb_lt _ _) Hev).
Qed.

(** While a ban runs, every login of the banned key is denied and its state is
    neither changed nor evicted: no sequence of logins of any key, cleanup ticks, lock
    failures or Redis failures shortens or extends it. *)
Theorem ban_enforced_until_expiry evs l st k s :
  logged l !! k = Some s → isBanned s = true → Forall (event_before (banExpiresAt s)) evs →
  logged (final evs l st) !! k = Some s
  ∧ ∀ i ev, evs !! i = Some ev → login_of k ev = true →
      results evs l st !! i = Some (Some false).
Proof.
  intros Hk Hb Hev. revert l st Hk. induction Hev as [|ev evs Hev _ IH]; intros l st Hk.
  - split; [done|]. intros i ev. by rewrite lookup_nil.
  - destruct (exec_banned ev l st k s Hk Hb Hev) as [Hk' Hden].
    destruct (run_cons ev evs l st) as [-> ->].
    destruct (IH _ (exec ev l st).2 Hk') as [? Hi]. split; [done|].
    intros [|i] ev' Hlk Hof; simpl in *; [simplify_eq; by rewrite Hden|by eapply Hi].
Qed.

(** ** A flood is banned *)
Definition counting (c : lfConfig) (h start n : Z) (s : peerState) : Prop :=
  currentHash s = h ∧ sessionStart s = start ∧ sessionCounter s = n
  ∧ isBanned s = false ∧ banLevel s = 0.

Lemma count_next c h start n now s :
  counting c h start n s → 0 ≤ n < MaxUint64 - 1000 → 0 < reconnThreshold c →
  start ≤ now < start + reconnThreshold c →
  let s' := add_state c now h (Some s) in
  if reconnLimitForBan c <? n + 1
  then isBanned s' = true ∧ banLevel s' = 1 ∧ banExpiresAt s' = now + baseBlockDuration c
  else counting c h start (n + 1) s'.
Proof.
  intros (Hh & Hs & Hn & Hb & Hl) Hr Hc Ht. unfold MaxUint64 in Hr. simpl.
  assert (Hun : unban now s = s) by (unfold unban; by rewrite Hb).
  assert (Hde : decay c now s = s) by (unfold decay; by rewrite Hl).
  rewrite Hun, Hde, Hh, Z.eqb_refl. simpl. unfold count_session.
  rewrite Hn. unfold MaxUint64. rewrite (proj2 (Z.ltb_ge (2 ^ 64 - 1 - 1000) n)) by lia.
  rewrite wrap_id by lia. rewrite Hs.
  rewrite (proj2 (Z.ltb_lt _ _) (time_Sub_lt (reconnThreshold c) now start Hc ltac:(lia))), andb_true_r.
  unfold ban_duration. destruct (_ <? n + 1); simpl; rewrite ?Hl; [|done].
  split_and!; [done..|]. change (2 ^ (0 + 1 - 1)) with 1. lia.
Qed.

(** What a login of [k] does on a plain filter (no Redis, no lock). *)
Lemma plain_login e k h l st s :
  has_redis l = false → has_lock l = false → logged l !! k = Some s → isBanned s = false →
  currentHash s = h →
  CheckAndAddLogin e k h l st
  = (true, set_logged (<[k := add_state (cfg l) (t3 e) h (Some s)]> (logged l)) l, st).
Proof.
  intros Hr Hl Hk Hb Hh. unfold CheckAndAddLogin, allowLoginUnderLock, addLoginUnderLock, syncToRedis.
  rewrite Hl. simpl. rewrite Hk. unfold allow_state. rewrite Hb, Hh, Z.eqb_refl. simpl.
  by rewrite Hr, Hk.
Qed.

Lemma flood_counts es k h l st s n start :
  has_redis l = false → has_lock l = false → logged l !! k = Some s →
  counting (cfg l) h start n s → 0 < reconnThreshold (cfg l) →
  Forall (λ e, start ≤ t3 e < start + reconnThreshold (cfg l)) es →
  0 ≤ n → n + Z.of_nat (length es) = reconnLimitForBan (cfg l) + 1 →
  reconnLimitForBan (cfg l) < MaxUint64 - 1000 → es ≠ [] →
  results ((λ e, Login e k h) <$> es) l st = replicate (length es) (Some true)
  ∧ ∃ s' e, last es = Some e ∧ logged (final ((λ e, Login e k h) <$> es) l st) !! k = Some s'
     ∧ isBanned s' = true ∧ banExpiresAt s' = t3 e + baseBlockDuration (cfg l).
Proof.
  revert l st s n. induction es as [|e es IH]; [done|].
  intros l st s n Hr Hl Hk Hc Hth Hes Hn0 Hn Hlim _.
  apply Forall_cons in Hes as [He Hes]. cbn [length] in Hn.
  pose proof Hc as (Hh & _ & _ & Hb & _).
  pose proof (plain_login e k h l st s Hr Hl Hk Hb Hh) as Hstep.
  pose proof (count_next (cfg l) h start n (t3 e) s Hc ltac:(lia) Hth He) as Hnx. simpl in Hnx.
  rewrite fmap_cons. destruct (run_cons (Login e k h) ((λ e, Login e k h) <$> es) l st) as [-> ->].
  cbn [exec]. rewrite Hstep. cbn -[add_state]. set (l1 := set_logged _ l).
  destruct es as [|e' es].
  - rewrite (proj2 (Z.ltb_lt _ _)) in Hnx by (simpl in Hn; lia). split; [done|].
    eexists _, e. split; [done|]. split; [by cbn -[add_state]; rewrite lookup_insert_eq|]. tauto.
  - rewrite (proj2 (Z.ltb_ge _ _)) in Hnx by (simpl in Hn; lia).
    destruct (IH l1 st _ (n + 1) Hr Hl ltac:(cbn -[add_state]; apply lookup_insert_eq) Hnx Hth Hes)
      as [-> (s' & el & ? & ? & ? & ?)]; [cbn in *; lia..|done|]. split; [done|]. by exists s', el.
Qed.

(** Without Redis, a key that logs in more than [reconnLimitForBan] times with the
    same metadata inside one [reconnThreshold] window is allowed each of these times
    and is then banned for the base duration, counted from its last login. *)
Theorem flood_is_banned e0 es k h l st :
  has_redis l = false → has_lock l = false → logged l !! k = None → 0 < reconnThreshold (cfg l) →
  0 < reconnLimitForBan (cfg l) < MaxUint64 - 1000 →
  Z.of_nat (length es) = reconnLimitForBan (cfg l) →
  Forall (λ e, t3 e0 ≤ t3 e < t3 e0 + reconnThreshold (cfg l)) es →
  results ((λ e, Login e k h) <$> e0 :: es) l st = replicate (S (length es)) (Some true)
  ∧ ∃ s e, last es = Some e ∧ logged (final ((λ e, Login e k h) <$> e0 :: es) l st) !! k = Some s
     ∧ isBanned s = true ∧ banExpiresAt s = t3 e + baseBlockDuration (cfg l).
Proof.
  intros Hr Hl Hk Hth Hlim Hlen Hes. rewrite fmap_cons.
  destruct (run_cons (Login e0 k h) ((λ e, Login e k h) <$> es) l st) as [-> ->].
  assert (Hstep : CheckAndAddLogin e0 k h l st
    = (true, set_logged (<[k := new_state (t3 e0) h]> (logged l)) l, st)).
  { unfold CheckAndAddLogin, allowLoginUnderLock, addLoginUnderLock, syncToRedis.
    rewrite Hl. simpl. rewrite Hk, Hr. simpl. by rewrite Hk, Hr. }
  cbn [exec]. rewrite Hstep. cbn. set (l1 := set_logged _ l).
  destruct (flood_counts es k h l1 st (new_state (t3 e0) h) 1 (t3 e0))
    as [-> (s' & el & ? & ? & ? & ?)]; try done; try (simpl; lia).
  - simpl. apply lookup_insert_eq.
  - intros Hnil. rewrite Hnil in Hlen. simpl in Hlen. lia.
  - split; [done|]. by exists s', el.
Qed.

(** ** The filter in HA mode *)
Lemma allow_missing_in_redis tt1 tt2 n k h l st :
  has_redis l = true → logged l !! k = None → keyspace st !! key l = None →
  allowLoginUnderLock tt1 tt2 n k h l st = (false, l).
Proof.
  intros Hr Hk Hks. unfold allowLoginUnderLock. rewrite Hk, Hr.
  destruct n; simpl; [|done..]. rewrite HGet_spec. unfold hash_at. by rewrite Hks.
Qed.

(** In HA mode a deployment whose registry key does not exist yet denies every
    login, for ever: [HGET] answers [redis.Nil], which the filter takes for an outage,
    and since only an allowed login writes the key, nothing is ever recorded. *)
Theorem ha_fresh_deployment_denies_all evs l st :
  has_redis l = true → logged l = ∅ → keyspace st !! key l = None →
  run evs l st = ((λ ev, match ev with Login _ _ _ => Some false | Tick _ => None end) <$> evs, l, st).
Proof.
  intros Hr Hm Hks.
  assert (Hexec : ∀ ev, exec ev l st
    = (match ev with Login _ _ _ => Some false | Tick _ => None end, l, st)).
  { intros [e k h|now]; simpl.
    - unfold CheckAndAddLogin.
      rewrite allow_missing_in_redis by (done || by rewrite Hm, lookup_empty). simpl.
      by repeat case_match; simplify_eq.
    - unfold cleanupStaleEntries_tick. rewrite Hm, map_filter_empty. by destruct l; simpl in *; subst. }
  induction evs as [|ev evs IH]; [done|]. cbn [run]. rewrite Hexec. cbn. by rewrite IH.
Qed.

Lemma hash_at_expire k k' ttl st h :
  whole_secs ttl → hash_at (keyspace st) k = Ret h →
  hash_at (keyspace (Expire k' ttl st).2) k = Ret h.
Proof.
  intros Hw Hh. destruct (Expire_spec k' ttl st Hw) as [_ ->]. unfold hash_at in *.
  destruct (decide (k = k')) as [->|]; [|by rewrite lookup_alter_ne].
  rewrite lookup_alter_eq. by destruct (keyspace st !! k') as [[[]?]|].
Qed.

(** A ban is not shared between instances.  The state an instance writes to Redis
    has no exported field, so another instance reads back the zero state: it allows a
    login of a key that is banned elsewhere, and counts it from the start. *)
Theorem ban_not_shared lA lB st stA k s h e m ok lB' stB :
  isBanned s = true →
  has_redis lA = true → whole_secs (2 * baseBlockDuration (cfg lA)) →
  hash_at (keyspace st) (key lA) = Ret m → stA = syncToRedis NetOk NetOk k s lA st →
  json_ok "{}" = true →
  has_redis lB = true → key lB = key lA → logged lB !! k = None → lock_acquired e = true →
  n_get e = NetOk → zeroTime + reconnThreshold (cfg lB) ≤ t2 e →
  CheckAndAddLogin e k h lB stA = (ok, lB', stB) →
  ok = true ∧ logged lB' !! k = Some (add_state (cfg lB) (t3 e) h (Some zero_peerState)).
Proof.
  intros _ HrA Hw Hm -> Hjs HrB Hkey HkB Hlock Hnet Ht.
  unfold CheckAndAddLogin, allowLoginUnderLock, syncToRedis.
  rewrite HrA, HrB, HkB, Hnet, Hkey, Hlock. cbn -[add_state allow_state].
  pose proof (HSet_spec (key lA) k (json_Marshal_peerState s) st) as Hs. rewrite Hm in Hs.
  destruct Hs as [_ Hs]. rewrite HGet_spec.
  rewrite (hash_at_expire _ _ _ _ (<[k:=json_Marshal_peerState s]> m) Hw)
    by (rewrite Hs; apply put_hash_at).
  cbn -[add_state allow_state]. rewrite lookup_insert_eq. unfold json_Unmarshal_peerState.
  rewrite bool_decide_eq_true_2 by done. cbn -[add_state allow_state].
  unfold json_Marshal_peerState. rewrite Hjs. cbn -[add_state allow_state].
  assert (Ha : allow_state (cfg lB) (t1 e) (t2 e) h zero_peerState = true).
  { unfold allow_state. simpl. rewrite (proj2 (Z.ltb_ge _ _) Ht). by rewrite andb_false_r. }
  rewrite Ha. cbn -[add_state allow_state].
  destruct (has_lock lB); intros [= <- <- <-]; (split; [done|]); cbn -[add_state];
    by rewrite !lookup_insert_eq.
Qed.
End filter.

(** ** metaHash *)
Lemma fnv_Write_app h a b : fnv_Write h (a +:+ b) = fnv_Write (fnv_Write h a) b.
Proof.
  unfold fnv_Write. revert h. induction a as [|c a IH]; intros h; [done|]. simpl. apply IH.
Qed.

Lemma mac_sum_spec m mac : wrap_u64 (mac_sum m mac) = wrap_u64 (m + foldr Z.add 0 mac).
Proof.
  unfold mac_sum, wrap. revert m. induction mac as [|r mac IH]; intros m; cbn [foldl foldr].
  - by rewrite Z.add_0_r.
  - rewrite IH, Zplus_mod_idemp_l, <-Z.add_assoc, Z.add_assoc, <-(Zplus_mod_idemp_r _ m) by done.
    rewrite <-Zplus_mod_idemp_l, Zplus_mod_idemp_r, Zplus_mod_idemp_l.
    by rewrite Zplus_mod_idemp_r, Z.add_assoc.
Qed.

Definition rune_total (nas : list (list Z)) : Z :=
  foldr (λ mac a, foldr Z.add 0 mac + a) 0 nas.

Lemma mac_sums_spec nas m : wrap_u64 (foldl mac_sum m nas) = wrap_u64 (m + rune_total nas).
Proof.
  revert m. induction nas as [|mac nas IH]; intros m; cbn [foldl rune_total foldr].
  - by rewrite Z.add_0_r.
  - rewrite IH. fold (rune_total nas). unfold wrap.
    rewrite <-Zplus_mod_idemp_l. change (mac_sum m mac mod 2 ^ 64) with (wrap_u64 (mac_sum m mac)).
    rewrite mac_sum_spec. unfold wrap. by rewrite Zplus_mod_idemp_l, Z.add_assoc.
Qed.

#[export] Instance rune_total_proper : Proper ((≡ₚ) ==> (=)) rune_total.
Proof. intros xs ys Hp. induction Hp; simpl; lia. Qed.

Definition moved (meta : PeerSystemMeta) (wt os : string) (nas : list (list Z)) : PeerSystemMeta :=
  {| WtVersion := wt; OSVersion := os; KernelVersion := KernelVersion meta;
     Hostname := Hostname meta; SystemSerialNumber := SystemSerialNumber meta;
     NetworkAddresses := nas |}.

(** The metadata hash is a 64-bit value that does not depend on the order in which
    the network interfaces are reported; nor does it see where one field ends and the
    next begins, so shifting characters between adjacent fields is not a change. *)
Theorem metaHash_order_and_boundaries meta pubip a b c nas nas' :
  nas ≡ₚ nas' →
  metaHash (moved meta (a +:+ b) c nas) pubip = metaHash (moved meta a (b +:+ c) nas') pubip
  ∧ 0 ≤ metaHash meta pubip < 2 ^ 64.
Proof.
  intros Hp. split; [|by apply wrap_bound]. unfold metaHash. cbn [foldl WtVersion OSVersion
    KernelVersion Hostname SystemSerialNumber NetworkAddresses moved].
  rewrite !fnv_Write_app. set (h := fnv_Write _ pubip). unfold wrap at 1 2.
  rewrite <-(Zplus_mod_idemp_r (foldl mac_sum 0 nas)), <-(Zplus_mod_idemp_r (foldl mac_sum 0 nas')).
  change (foldl mac_sum 0 ?x mod 2 ^ 64) with (wrap_u64 (foldl mac_sum 0 x)).
  by rewrite !mac_sums_spec, Hp.
Qed.

(** ** Witnesses *)
Definition at_time (t : Z) : login_env :=
  {| t1 := t; t2 := t; t3 := t; lock_acquired := true; n_get := NetOk; n_set := NetOk; n_expire := NetOk |}.

Definition accept_all (s : string) : bool := true.
Definition no_redis : @store mem_redis := Mem ∅ 0.
Definition burst : list event := (λ i, Login (at_time (Z.of_nat i * Second)) "peer" 7) <$> seq 0 31.

Lemma ban_level_bounded_witness :
  ∃ s, logged (final (R:=mem_redis) accept_all burst newLoginFilter no_redis) !! "peer" = Some s
    ∧ isBanned s = true ∧ (0 ≤ banLevel s ≤ 3
    ∧ (isBanned s = true → banExpiresAt s ≤ lastSeen s + 4 * baseBlockDuration initCfg)).
Proof.
  eexists. split; [vm_compute; reflexivity|]. split; [done|].
  apply (ban_level_bounded (R:=mem_redis) accept_all burst newLoginFilter no_redis "peer").
  - split; [vm_compute; done|]. by intros k s.
  - repeat constructor; vm_compute; done.
  - vm_compute. reflexivity.
Defined.

Definition banned_state : peerState :=
  {| currentHash := 7; sessionCounter := 0; sessionStart := 30 * Second; lastSeen := 30 * Second;
     isBanned := true; banLevel := 1; banExpiresAt := 30 * Second + 10 * Minute;
     metaChangeCounter := 1; metaChangeWindowStart := 0 |}.
Definition banned_filter : loginFilter := set_logged {[ "peer" := banned_state ]} newLoginFilter.
Definition during_ban : list event :=
  [Login (at_time (31 * Second)) "peer" 7; Tick (5 * Minute); Login (at_time (9 * Minute)) "peer" 8].

Lemma ban_enforced_until_expiry_witness :
  logged (final (R:=mem_redis) accept_all during_ban banned_filter no_redis) !! "peer" = Some banned_state
  ∧ results (R:=mem_redis) accept_all during_ban banned_filter no_redis !! 2%nat = Some (Some false).
Proof.
  destruct (ban_enforced_until_expiry (R:=mem_redis) accept_all during_ban banned_filter no_redis
    "peer" banned_state) as [H1 H2].
  - reflexivity.
  - reflexivity.
  - repeat constructor; vm_compute; reflexivity.
  - split; [exact H1|]. by apply (H2 2%nat (Login (at_time (9 * Minute)) "peer" 8)).
Defined.

Definition burst_tail : list login_env := (λ i, at_time (Z.of_nat i * Second)) <$> seq 1 30.

Lemma flood_is_banned_witness :
  length burst_tail = 30%nat
  ∧ results (R:=mem_redis) accept_all ((λ e, Login e "peer" 7) <$> at_time 0 :: burst_tail)
      newLoginFilter no_redis = replicate (S (length burst_tail)) (Some true).
Proof.
  split; [reflexivity|].
  refine (proj1 (flood_is_banned (R:=mem_redis) accept_all (at_time 0) burst_tail "peer" 7
    newLoginFilter no_redis eq_refl eq_refl eq_refl _ _ _ _)); [vm_compute; done..|].
  repeat constructor; vm_compute; done.
Defined.

Definition ha_filter : loginFilter := newLoginFilterWithRedis "nb:loginfilter" true.

Lemma ha_fresh_deployment_denies_all_witness :
  run (R:=mem_redis) accept_all [Login (at_time 5) "peer" 7] ha_filter no_redis
  = ([Some false], ha_filter, no_redis).
Proof.
  by apply (ha_fresh_deployment_denies_all (R:=mem_redis) accept_all [Login (at_time 5) "peer" 7]).
Defined.

Definition after_ban : @store mem_redis :=
  syncToRedis (R:=mem_redis) NetOk NetOk "peer" banned_state ha_filter no_redis.

Lemma ban_not_shared_witness :
  60 * Second < banExpiresAt banned_state
  ∧ (CheckAndAddLogin (R:=mem_redis) accept_all (at_time (60 * Second)) "peer" 7 ha_filter after_ban).1.1
    = true.
Proof.
  split; [vm_compute; done|].
  destruct (CheckAndAddLogin (R:=mem_redis) accept_all (at_time (60 * Second)) "peer" 7 ha_filter after_ban)
    as [[ok lB'] stB] eqn:E.
  refine (proj1 (ban_not_shared (R:=mem_redis) accept_all ha_filter ha_filter no_redis after_ban "peer"
    banned_state 7 (at_time (60 * Second)) ∅ ok lB' stB eq_refl eq_refl _ eq_refl eq_refl eq_refl
    eq_refl eq_refl eq_refl eq_refl eq_refl _ E)); [by vm_compute|vm_compute; done].
Defined.

Lemma metaHash_order_and_boundaries_witness :
  let meta := {| WtVersion := "0.45"; OSVersion := "6"; KernelVersion := "6.1"; Hostname := "h";
                 SystemSerialNumber := "s"; NetworkAddresses := [[1; 2]; [3]] |} in
  metaHash (moved meta ("a" +:+ "b") "c" [[1; 2]; [3]]) "ip"
  = metaHash (moved meta "a" ("b" +:+ "c") [[3]; [1; 2]]) "ip"
  ∧ 0 ≤ metaHash meta "ip" < 2 ^ 64.
Proof. apply metaHash_order_and_boundaries. constructor. Defined.
