(* ===== verification/Ephemeral.v ===== *)
(** The manager of ephemeral peers:
    [src/management/internals/modules/peers/ephemeral/manager/ephemeral.go].

    Disconnected ephemeral peers wait in a singly linked list, ordered by deadline,
    from which a timer removes the expired ones and hands them to [DeletePeers]; in
    HA mode the waiting list is a sorted set in Redis, polled by every instance with
    an optimistic transaction.

    The linked list is modelled as the code has it: nodes in a heap, [next] pointers,
    a head and a tail pointer; a nil dereference panics, and the loops over [next]
    run with fuel.  [Rep] relates a heap to the list it represents, and the theorems
    say that the pointer operations implement the list operations: they neither panic
    nor run out of fuel.  [peersLock] makes each operation atomic. *)
From Stdlib.Strings Require Import Ascii.
From stdpp Require Import sorting.
From S2P Require Import Prelude Redis.
Open Scope Z_scope.

Record ephemeralPeer := { id : string; accountID : string; deadline : Z; next : option nat }.

Inductive fault := OutOfFuel.

Record EphemeralManager := {
  heap : gmap nat ephemeralPeer;
  allocated : nat;                   (* nodes allocated so far, named 0 .. allocated-1 *)
  headPeer : option nat;
  tailPeer : option nat;
  timer : option Z;                  (* nil, or a timer and when it fires *)
  stopped : bool;                    (* the timer was stopped and does not fire *)
  polling : bool;                    (* [redisPollLoop] runs: [cancel] is set and was not called *)
  lifeTime : Z;
  cleanupWindow : Z;
  has_redisClient : bool;
  ephemeralKey : string;
}.

Definition EphemeralLifeTime : Z := 10 * Minute.
Definition default_cleanupWindow : Z := Minute.

Definition NewEphemeralManager : EphemeralManager :=
  {| heap := ∅; allocated := 0; headPeer := None; tailPeer := None; timer := None; stopped := false; polling := false;
     lifeTime := EphemeralLifeTime; cleanupWindow := default_cleanupWindow;
     has_redisClient := false; ephemeralKey := "" |}.

Definition WithRedis (client : bool) (k : string) (e : EphemeralManager) : EphemeralManager :=
  {| heap := heap e; allocated := allocated e; headPeer := headPeer e; tailPeer := tailPeer e;
     timer := timer e; stopped := stopped e; polling := polling e; lifeTime := lifeTime e; cleanupWindow := cleanupWindow e;
     has_redisClient := client; ephemeralKey := k |}.

Definition haEnabled (e : EphemeralManager) : bool :=
  has_redisClient e && bool_decide (ephemeralKey e ≠ "").

Definition with_list (h : gmap nat ephemeralPeer) (n : nat) (hd tl : option nat) (e : EphemeralManager)
    : EphemeralManager :=
  {| heap := h; allocated := n; headPeer := hd; tailPeer := tl; timer := timer e; stopped := stopped e; polling := polling e;
     lifeTime := lifeTime e; cleanupWindow := cleanupWindow e;
     has_redisClient := has_redisClient e; ephemeralKey := ephemeralKey e |}.

(** A new timer runs; without a timer there is none to stop. *)
Definition with_timer (t : option Z) (e : EphemeralManager) : EphemeralManager :=
  {| heap := heap e; allocated := allocated e; headPeer := headPeer e; tailPeer := tailPeer e;
     timer := t; stopped := false; polling := polling e; lifeTime := lifeTime e; cleanupWindow := cleanupWindow e;
     has_redisClient := has_redisClient e; ephemeralKey := ephemeralKey e |}.

Definition with_running (stp pol : bool) (e : EphemeralManager) : EphemeralManager :=
  {| heap := heap e; allocated := allocated e; headPeer := headPeer e; tailPeer := tailPeer e;
     timer := timer e; stopped := stp; polling := pol; lifeTime := lifeTime e; cleanupWindow := cleanupWindow e;
     has_redisClient := has_redisClient e; ephemeralKey := ephemeralKey e |}.

Definition deref (h : gmap nat ephemeralPeer) (o : option nat) : outcome fault ephemeralPeer :=
  match o ≫= (h !!.) with Some p => Ret p | None => Panic end.

Definition set_next (nx : option nat) (p : ephemeralPeer) : ephemeralPeer :=
  {| id := id p; accountID := accountID p; deadline := deadline p; next := nx |}.

(** *** List operations on the heap *)
Definition addPeer (acc peerID : string) (dl : Z) (e : EphemeralManager)
    : outcome fault EphemeralManager :=
  let n := allocated e in
  let h := <[n := {| id := peerID; accountID := acc; deadline := dl; next := None |}]> (heap e) in
  let hd := match headPeer e with None => Some n | o => o end in
  h ← match tailPeer e with
      | None => Ret h
      | Some t => p ← deref h (Some t); Ret (<[t := set_next (Some n) p]> h)
      end;
  Ret (with_list h (S n) hd (Some n) e).

Fixpoint removePeer_loop (fuel : nat) (h : gmap nat ephemeralPeer) (tl : option nat) (l : nat)
    (peerID : string) : outcome fault (gmap nat ephemeralPeer * option nat) :=
  match fuel with
  | O => Err OutOfFuel
  | S fuel =>
      p ← deref h (Some l);
      match next p with
      | None => Ret (h, tl)
      | Some n =>
          q ← deref h (Some n);
          if bool_decide (id q = peerID) then
            t ← deref h tl;
            Ret (<[l := set_next (next q) p]> h,
                 if bool_decide (id t = peerID) then Some l else tl)
          else removePeer_loop fuel h tl n peerID
      end
  end.

Definition removePeer (peerID : string) (e : EphemeralManager) : outcome fault EphemeralManager :=
  match headPeer e with
  | None => Ret e
  | Some l =>
      p ← deref (heap e) (Some l);
      if bool_decide (id p = peerID) then
        t ← deref (heap e) (tailPeer e);
        Ret (with_list (heap e) (allocated e) (next p)
               (if bool_decide (id t = peerID) then None else tailPeer e) e)
      else
        '(h, tl) ← removePeer_loop (allocated e) (heap e) (tailPeer e) l peerID;
        Ret (with_list h (allocated e) (headPeer e) tl e)
  end.

Fixpoint isPeerOnList_loop (fuel : nat) (h : gmap nat ephemeralPeer) (o : option nat)
    (peerID : string) : outcome fault bool :=
  match fuel with
  | O => Err OutOfFuel
  | S fuel =>
      match o with
      | None => Ret false
      | Some l =>
          p ← deref h (Some l);
          if bool_decide (id p = peerID) then Ret true else isPeerOnList_loop fuel h (next p) peerID
      end
  end.

Definition isPeerOnList (peerID : string) (e : EphemeralManager) : outcome fault bool :=
  isPeerOnList_loop (S (allocated e)) (heap e) (headPeer e) peerID.

Definition newDeadLine (now : Z) (e : EphemeralManager) : Z := now + lifeTime e.

(** The delay of the timer armed for the current head. *)
Definition arm (now : Z) (p : ephemeralPeer) (e : EphemeralManager) : Z :=
  now + Z.max 0 (deadline p - now + cleanupWindow e).

(** *** cleanup *)
Fixpoint cleanup_loop (fuel : nat) (now : Z) (o : option nat) (e : EphemeralManager)
    (deletePeers : gmap string ephemeralPeer)
    : outcome fault (EphemeralManager * gmap string ephemeralPeer) :=
  match fuel with
  | O => Err OutOfFuel
  | S fuel =>
      match o with
      | None => Ret (e, deletePeers)
      | Some l =>
          p ← deref (heap e) (Some l);
          if now <? deadline p then Ret (e, deletePeers)
          else
            cleanup_loop fuel now (next p)
              (with_list (heap e) (allocated e) (next p)
                 (match next p with None => None | _ => tailPeer e end) e)
              (<[id p := p]> deletePeers)
      end
  end.

(** [peerIDsPerAccount]; Go ranges over the map in an unspecified order. *)
Definition group_by_account (deletePeers : gmap string ephemeralPeer) : gmap string (list string) :=
  map_fold (λ i p m, <[accountID p := default [] (m !! accountID p) ++ [i]]> m) ∅ deletePeers.

(** Returns the [DeletePeers] calls, one per account. *)
Definition cleanup (now now' : Z) (e : EphemeralManager)
    : outcome fault (EphemeralManager * gmap string (list string)) :=
  '(e, deletePeers) ← cleanup_loop (S (allocated e)) now (headPeer e) e ∅;
  e ← match headPeer e with
      | Some l => p ← deref (heap e) (Some l); Ret (with_timer (Some (arm now' p e)) e)
      | None => Ret (with_timer None e)
      end;
  Ret (e, group_by_account deletePeers).

(** *** Handlers, with their calls to Redis *)
Definition memberSeparator : Ascii.ascii := "|"%char.

Definition member (peerID acc : string) : string := peerID +:+ String memberSeparator acc.

(** [strings.SplitN(member, "|", 2)], when it yields two parts. *)
Fixpoint SplitN2 (s : string) : option (string * string) :=
  match s with
  | EmptyString => None
  | String c s =>
      if bool_decide (c = memberSeparator) then Some ("", s)
      else match SplitN2 s with Some (a, b) => Some (String c a, b) | None => None end
  end.

Definition UnixMilli (t : Z) : Z := t / Millisecond.

(** What the manager reads of an [nbpeer.Peer]. *)
Record Peer := { p_ID : string; p_AccountID : string; p_Ephemeral : bool }.

Section handlers.
Context {R : RedisServer} {RL : RedisLaws R}.

Definition redisZAdd (n : net) (peerID acc : string) (dl : Z) (e : EphemeralManager) (st : store) : store :=
  (call n (ZAdd (ephemeralKey e) (UnixMilli dl) (member peerID acc)) st).2.

Definition redisZRem (n : net) (peerID acc : string) (e : EphemeralManager) (st : store) : store :=
  (call n (ZRem (ephemeralKey e) (member peerID acc)) st).2.

Definition OnPeerConnected (n : net) (peer : Peer) (e : EphemeralManager) (st : store)
    : outcome fault (EphemeralManager * store) :=
  if negb (p_Ephemeral peer) then Ret (e, st)
  else
    e ← removePeer (p_ID peer) e;
    let st := if haEnabled e then redisZRem n (p_ID peer) (p_AccountID peer) e st else st in
    let e := match headPeer e with None => with_timer None e | Some _ => e end in
    Ret (e, st).

Definition OnPeerDisconnected (now now' : Z) (n : net) (peer : Peer) (e : EphemeralManager) (st : store)
    : outcome fault (EphemeralManager * store) :=
  if negb (p_Ephemeral peer) then Ret (e, st)
  else
    on ← isPeerOnList (p_ID peer) e;
    if (on : bool) then Ret (e, st)
    else
      let dl := newDeadLine now e in
      e ← addPeer (p_AccountID peer) (p_ID peer) dl e;
      let st := if haEnabled e then redisZAdd n (p_ID peer) (p_AccountID peer) dl e st else st in
      e ← match haEnabled e, timer e with
          | false, None => p ← deref (heap e) (headPeer e); Ret (with_timer (Some (arm now' p e)) e)
          | _, _ => Ret e
          end;
      Ret (e, st).

(** [GetAllEphemeralPeers] may fail: [None]. *)
Fixpoint addPeers (dl : Z) (peers : list Peer) (e : EphemeralManager) : outcome fault EphemeralManager :=
  match peers with
  | [] => Ret e
  | p :: peers => e ← addPeer (p_AccountID p) (p_ID p) dl e; addPeers dl peers e
  end.

Definition loadEphemeralPeers (now : Z) (peers : option (list Peer)) (e : EphemeralManager)
    : outcome fault EphemeralManager :=
  match peers with None => Ret e | Some peers => addPeers (newDeadLine now e) peers e end.

Fixpoint sync_loop (fuel : nat) (n : net) (o : option nat) (e : EphemeralManager) (st : store)
    : outcome fault store :=
  match fuel with
  | O => Err OutOfFuel
  | S fuel =>
      match o with
      | None => Ret st
      | Some l =>
          p ← deref (heap e) (Some l);
          sync_loop fuel n (next p) e (redisZAdd n (id p) (accountID p) (deadline p) e st)
      end
  end.

Definition LoadInitialPeers (now now' : Z) (n : net) (peers : option (list Peer)) (e : EphemeralManager)
    (st : store) : outcome fault (EphemeralManager * store) :=
  e ← loadEphemeralPeers now peers e;
  if haEnabled e then
    st ← sync_loop (S (allocated e)) n (headPeer e) e st;
    Ret (with_running (stopped e) true e, st)
  else
    match headPeer e with
    | Some _ => Ret (with_timer (Some (now' + lifeTime e)) e, st)
    | None => Ret (e, st)
    end.

(** The timer is stopped, but the field keeps it: a later disconnect does not start a new one. *)
Definition Stop (e : EphemeralManager) : EphemeralManager :=
  with_running (match timer e with Some _ => true | None => stopped e end) false e.

(** *** redisCleanup

    One attempt is a WATCH transaction.  Between the read and the EXEC other clients
    run; [touched] says whether they touched the watched key, in which case the
    server refuses the EXEC. *)
Record tx_env := {
  x_now : Z;
  x_range : net;
  x_others : store → store;
  x_touched : bool;
  x_exec : net;
}.

(** What the server guarantees of [WATCH]. *)
Definition watch_ok (k : string) (x : tx_env) (st : store) : Prop :=
  x_touched x = false → keyspace (x_others x st) !! k = keyspace st !! k.

Definition valid_members (members : list string) : list (string * (string * string)) :=
  omap (λ m, match SplitN2 m with Some ps => Some (m, ps) | None => None end) members.

Definition group_members (vs : list (string * (string * string))) : gmap string (list string) :=
  foldl (λ g v, <[v.2.2 := default [] (g !! v.2.2) ++ [v.2.1]]> g) ∅ vs.

Definition zrem_all (k : string) (members : list string) (st : store) : store :=
  foldl (λ st m, (ZRem k m st).2) st members.

Fixpoint removePeers (ids : list string) (e : EphemeralManager) : outcome fault EphemeralManager :=
  match ids with
  | [] => Ret e
  | i :: ids => e ← removePeer i e; removePeers ids e
  end.

(** [None]: the attempt failed and is retried. *)
Definition redisCleanup_attempt (x : tx_env) (e : EphemeralManager) (st : store)
    : outcome fault (option (gmap string (list string)) * EphemeralManager * store) :=
  match call (x_range x) (ZRangeByScore (ephemeralKey e) 0 (UnixMilli (x_now x))) st with
  | (Ret members, st) =>
      if bool_decide (members = []) then Ret (Some ∅, e, st)
      else
        let vs := valid_members members in
        if bool_decide (vs = []) then Ret (Some ∅, e, st)
        else
          let st := x_others x st in
          if x_touched x then Ret (None, e, st)
          else
            match x_exec x with
            | NetLost => Ret (None, e, st)
            | NetReplyLost => Ret (None, e, zrem_all (ephemeralKey e) vs.*1 st)
            | NetOk =>
                let st := zrem_all (ephemeralKey e) vs.*1 st in
                e ← removePeers (fst ∘ snd <$> vs) e;
                Ret (Some (group_members vs), e, st)
            end
  | (_, st) => Ret (None, e, st)
  end.

(** At most [maxRetries] attempts: one per environment in the list. *)
Definition maxRetries : nat := 3.

Fixpoint redisCleanup_loop (xs : list tx_env) (e : EphemeralManager) (st : store)
    : outcome fault (gmap string (list string) * EphemeralManager * store) :=
  match xs with
  | [] => Ret (∅, e, st)
  | x :: xs =>
      '(r, e, st) ← redisCleanup_attempt x e st;
      match r with
      | Some calls => Ret (calls, e, st)
      | None => redisCleanup_loop xs e st
      end
  end.

Definition redisCleanup (xs : list tx_env) (e : EphemeralManager) (st : store)
    : outcome fault (gmap string (list string) * EphemeralManager * store) :=
  redisCleanup_loop (take maxRetries xs) e st.
End handlers.

(** ** The list a heap represents *)
Abbreviation item := (string * string * Z)%type.

Definition node (t : item) (nx : option nat) : ephemeralPeer :=
  {| id := t.1.1; accountID := t.1.2; deadline := t.2; next := nx |}.

Fixpoint chain (h : gmap nat ephemeralPeer) (locs : list nat) (ts : list item) : Prop :=
  match locs, ts with
  | [], [] => True
  | l :: locs, t :: ts => h !! l = Some (node t (head locs)) ∧ chain h locs ts
  | _, _ => False
  end.

Definition Rep (e : EphemeralManager) (ts : list item) : Prop :=
  ∃ locs, chain (heap e) locs ts ∧ NoDup locs ∧ Forall (λ l, l < allocated e)%nat locs
    ∧ headPeer e = head locs ∧ tailPeer e = last locs.

(** Everything but the list. *)
Definition same_conf (e e' : EphemeralManager) : Prop :=
  timer e' = timer e ∧ lifeTime e' = lifeTime e ∧ cleanupWindow e' = cleanupWindow e
  ∧ has_redisClient e' = has_redisClient e ∧ ephemeralKey e' = ephemeralKey e ∧ stopped e' = stopped e.

Lemma deref_some h l p : h !! l = Some p → deref h (Some l) = Ret p.
Proof. unfold deref. simpl. by intros ->. Qed.

Lemma chain_length h locs ts : chain h locs ts → length locs = length ts.
Proof.
  revert ts. induction locs as [|l locs IH]; intros [|t ts]; simpl; try done.
  intros [_ ?]. f_equal. auto.
Qed.

Lemma chain_ext h h' locs ts :
  (∀ l, l ∈ locs → h' !! l = h !! l) → chain h locs ts → chain h' locs ts.
Proof.
  revert ts. induction locs as [|l locs IH]; intros [|t ts] Hh; simpl; try done.
  intros [Hl Hc]. rewrite Hh by set_solver. split; [done|]. apply IH; [set_solver|done].
Qed.

Lemma chain_last h locs ts tl :
  chain h locs ts → last locs = Some tl → ∃ t, last ts = Some t ∧ h !! tl = Some (node t None).
Proof.
  revert ts. induction locs as [|l locs IH]; intros [|t ts]; try done.
  intros [Hl Hc]. destruct locs as [|l' locs]; simpl.
  - destruct ts; [|done]. intros [= <-]. eauto.
  - intros Hlast. destruct (IH ts Hc Hlast) as (t' & Ht & ?). destruct ts; [done|]. eauto.
Qed.

Lemma chain_snoc h locs ts n t tl p :
  chain h locs ts → NoDup locs → n ∉ locs → h !! n = Some (node t None) →
  last locs = Some tl → h !! tl = Some p →
  chain (<[tl := set_next (Some n) p]> h) (locs ++ [n]) (ts ++ [t]).
Proof.
  revert ts. induction locs as [|l locs IH]; intros [|t0 ts]; try done.
  intros [Hl Hc] [Hnl Hnd]%NoDup_cons Hn Hnew Hlast Hp. destruct locs as [|l' locs].
  - destruct ts; [|done]. simpl in Hlast. simplify_eq/=. rewrite lookup_insert_eq.
    split; [done|]. rewrite lookup_insert_ne by set_solver. done.
  - specialize (IH ts Hc Hnd ltac:(set_solver) Hnew Hlast Hp).
    assert (tl ≠ l).
    { intros ->. apply Hnl. change (last (l' :: locs) = Some l) in Hlast.
      rewrite last_lookup in Hlast. by eapply list_elem_of_lookup_2. }
    cbn [app chain]. rewrite lookup_insert_ne by done. split; [done|]. exact IH.
Qed.

Lemma bounded_length (locs : list nat) n :
  NoDup locs → Forall (λ l, l < n)%nat locs → (length locs ≤ n)%nat.
Proof.
  intros Hnd Hb. rewrite <-(length_seq n 0).
  apply submseteq_length, NoDup_submseteq; [done|]. intros l Hl.
  rewrite Forall_forall in Hb. apply elem_of_seq. specialize (Hb l Hl). lia.
Qed.

(** ** The pointer operations implement the list operations *)
Lemma addPeer_rep a i d e ts :
  Rep e ts → ∃ e1, addPeer a i d e = Ret e1 ∧ Rep e1 (ts ++ [(i, a, d)]) ∧ same_conf e e1.
Proof.
  intros (locs & Hc & Hnd & Hb & Hhd & Htl). unfold addPeer.
  assert (Hn : allocated e ∉ locs).
  { intros Hin. rewrite Forall_forall in Hb. specialize (Hb _ Hin). simpl in Hb. lia. }
  set (h1 := <[allocated e := _]> (heap e)).
  assert (Hc1 : chain h1 locs ts).
  { eapply chain_ext; [|done]. intros l Hl. unfold h1. rewrite lookup_insert_ne; [done|set_solver]. }
  assert (Hnew : h1 !! allocated e = Some (node (i, a, d) None)) by apply lookup_insert_eq.
  destruct (last locs) as [tl|] eqn:Hlast.
  - destruct (chain_last _ _ _ _ Hc1 Hlast) as (t & _ & Hp). rewrite Htl, (deref_some _ _ _ Hp), !bind_ret_l.
    eexists. split; [reflexivity|]. split; [|done]. exists (locs ++ [allocated e]). simpl. split_and!.
    + by eapply chain_snoc.
    + apply NoDup_app. split_and!; [done|set_solver|apply NoDup_singleton].
    + apply Forall_app. split; [|repeat constructor]. eapply Forall_impl; [done|]. simpl. lia.
    + rewrite Hhd. by destruct locs.
    + by rewrite last_snoc.
  - apply last_None in Hlast as ->. destruct ts; [|done]. rewrite Htl, Hhd. simpl.
    eexists. split; [reflexivity|]. split; [|done]. exists [allocated e]. simpl. split_and!; try done.
    + apply NoDup_singleton.
    + repeat constructor.
Qed.

Abbreviation ids ts := (fst ∘ fst <$> ts : list string).

(** The list operation: the item with this id goes. *)
Definition spec_remove (i : string) (ts : list item) : list item := filter (λ t, t.1.1 ≠ i) ts.

Lemma spec_remove_absent i ts : i ∉ ids ts → spec_remove i ts = ts.
Proof.
  unfold spec_remove. induction ts as [|t ts IH]; [done|]. rewrite fmap_cons, not_elem_of_cons.
  intros [? ?]. rewrite filter_cons_True by (simpl in *; congruence). by rewrite IH.
Qed.

Lemma removePeer_loop_rep fuel h tl l t ls ts i :
  chain h (l :: ls) (t :: ts) → NoDup (l :: ls) → NoDup (ids ts) → t.1.1 ≠ i →
  tl = last (l :: ls) → (length (l :: ls) ≤ fuel)%nat →
  ∃ h' ls', removePeer_loop fuel h tl l i = Ret (h', last (l :: ls'))
    ∧ chain h' (l :: ls') (t :: spec_remove i ts) ∧ sublist ls' ls
    ∧ (∀ x, x ∉ l :: ls → h' !! x = h !! x).
Proof.
  revert fuel l t ts. induction ls as [|n ls IH]; intros fuel l t ts [Hl Hc] Hnd Hids Ht -> Hf;
    (destruct fuel as [|fuel]; [simpl in Hf; lia|]).
  - destruct ts; [|done]. exists h, []. cbn [removePeer_loop]. by rewrite (deref_some _ _ _ Hl), bind_ret_l.
  - destruct ts as [|t1 ts]; [done|]. pose proof Hc as [Hn Hc'].
    rewrite fmap_cons, NoDup_cons in Hids. destruct Hids as [Hnot Hids].
    pose proof Hnd as [Hnl Hnd']%NoDup_cons.
    cbn [removePeer_loop]. rewrite (deref_some _ _ _ Hl), bind_ret_l. cbn [next node head].
    rewrite (deref_some _ _ _ Hn), bind_ret_l. cbn [id node].
    case_bool_decide as Hi.
    + destruct (last (l :: n :: ls)) as [tl|] eqn:Hlast; [|by apply last_None in Hlast].
      destruct (chain_last h (l :: n :: ls) (t :: t1 :: ts) tl) as (tt & Htt & Hp); [done..|].
      rewrite (deref_some _ _ _ Hp), bind_ret_l.
      exists (<[l:=set_next (head ls) (node t (Some n))]> h), ls. split_and!.
      * do 2 f_equal. destruct ls as [|l2 ls].
        -- destruct ts; [|done]. simpl in Htt. simplify_eq. by rewrite bool_decide_eq_true_2.
        -- rewrite bool_decide_eq_false_2; [done|]. intros Htt2. apply Hnot. simpl in Hi, Htt2. subst i.
           destruct ts as [|t2 ts]; [done|]. change (last (t2 :: ts) = Some tt) in Htt.
           rewrite last_lookup in Htt. apply list_elem_of_lookup_2 in Htt.
           apply list_elem_of_fmap. by exists tt.
      * unfold spec_remove. rewrite filter_cons_False by (simpl in Hi; naive_solver).
        fold (spec_remove i ts). simpl in Hi. rewrite spec_remove_absent by (subst i; done).
        split; [by rewrite lookup_insert_eq|]. eapply chain_ext; [|done].
        intros x Hx. rewrite lookup_insert_ne; [done|]. set_solver.
      * by constructor.
      * intros x Hx. rewrite lookup_insert_ne; [done|set_solver].
    + destruct (IH fuel n t1 ts Hc Hnd' Hids Hi eq_refl ltac:(simpl in *; lia))
        as (h' & ls' & Hloop & Hc2 & Hsub & Hout).
      exists h', (n :: ls'). rewrite Hloop. split_and!; [done| |by constructor|].
      * unfold spec_remove. rewrite filter_cons_True by done. split; [|exact Hc2].
        rewrite Hout by done. done.
      * intros x Hx. apply Hout. set_solver.
Qed.

Lemma removePeer_rep i e ts :
  Rep e ts → NoDup (ids ts) →
  ∃ e', removePeer i e = Ret e' ∧ Rep e' (spec_remove i ts) ∧ same_conf e e'.
Proof.
  intros (locs & Hc & Hnd & Hb & Hhd & Htl) Hids. unfold removePeer.
  destruct locs as [|l locs], ts as [|t ts]; try done; rewrite Hhd; cbn [head].
  { exists e. split; [done|]. split; [|done]. by exists []. }
  pose proof Hc as [Hl Hc']. rewrite (deref_some _ _ _ Hl), bind_ret_l. cbn [id next node].
  rewrite fmap_cons, NoDup_cons in Hids. destruct Hids as [Hnot Hids].
  pose proof Hnd as [Hnl Hnd']%NoDup_cons. pose proof Hb as [Hbl Hb']%Forall_cons.
  unfold spec_remove. case_bool_decide as Hi.
  - rewrite filter_cons_False by naive_solver. fold (spec_remove i ts).
    rewrite spec_remove_absent by (rewrite <-Hi; done).
    destruct (last (l :: locs)) as [tl|] eqn:Hlast; [|by apply last_None in Hlast].
    destruct (chain_last _ _ _ _ Hc Hlast) as (tt & Htt & Hp).
    rewrite Htl, (deref_some _ _ _ Hp), bind_ret_l. cbn [id node]. eexists. split; [done|]. split; [|done].
    exists locs. cbn. split_and!; try done. destruct locs as [|l2 locs].
    + destruct ts; [|done]. simpl in Htt. simplify_eq. by rewrite bool_decide_eq_true_2.
    + rewrite bool_decide_eq_false_2; [done|]. intros Hc2. apply Hnot. simpl. rewrite Hi, <-Hc2.
      destruct ts as [|t2 ts]; [done|]. change (last (t2 :: ts) = Some tt) in Htt.
      rewrite last_lookup in Htt. apply list_elem_of_lookup_2 in Htt.
      apply list_elem_of_fmap. by exists tt.
  - rewrite filter_cons_True by done. fold (spec_remove i ts).
    destruct (removePeer_loop_rep (allocated e) (heap e) (tailPeer e) l t locs ts i)
      as (h' & ls' & -> & Hc2 & Hsub & _); try done; [by apply bounded_length|].
    eexists. split; [done|]. split; [|done]. exists (l :: ls').
    split; [exact Hc2|]. split_and!; try done.
    + eapply sublist_NoDup; [exact Hnd|]. by constructor.
    + constructor; [done|]. apply Forall_forall. intros x Hx. rewrite Forall_forall in Hb'.
      apply Hb'. by eapply elem_of_sublist.
Qed.

Lemma isPeerOnList_rep i e ts : Rep e ts → isPeerOnList i e = Ret (bool_decide (i ∈ ids ts)).
Proof.
  intros (locs & Hc & Hnd & Hb & Hhd & _). unfold isPeerOnList. rewrite Hhd.
  pose proof (bounded_length _ _ Hnd Hb) as Hlen. apply Nat.lt_succ_r in Hlen.
  revert Hlen. generalize (S (allocated e)) as fuel. clear Hhd Hnd Hb. revert ts Hc.
  induction locs as [|l locs IH]; intros [|t ts] Hc [|fuel] Hlen; try done; try (simpl in Hlen; lia).
  destruct Hc as [Hl Hc]. cbn [isPeerOnList_loop head].
  rewrite (deref_some _ _ _ Hl), bind_ret_l. cbn [id next node].
  case_bool_decide as Hi.
  - rewrite bool_decide_eq_true_2; [done|]. rewrite <-Hi. set_solver.
  - rewrite (IH ts Hc fuel) by (simpl in Hlen; lia). f_equal. apply bool_decide_ext.
    rewrite fmap_cons, elem_of_cons. naive_solver.
Qed.

(** *** Cleanup *)
Abbreviation by_deadline := (StronglySorted (λ a b : item, a.2 ≤ b.2)).
Definition due (now : Z) (ts : list item) : list item := filter (λ t, t.2 ≤ now) ts.
Definition waiting (now : Z) (ts : list item) : list item := filter (λ t, now < t.2) ts.
Definition item_of (p : ephemeralPeer) : item := (id p, accountID p, deadline p).

Lemma not_due now t ts :
  by_deadline (t :: ts) → now < t.2 → due now (t :: ts) = [] ∧ waiting now (t :: ts) = t :: ts.
Proof.
  intros [_ Hall]%StronglySorted_inv Ht. split; [apply filter_none|apply filter_all];
    (constructor; [lia|]; eapply Forall_impl; [done|]; simpl; lia).
Qed.

Definition collect (D : gmap string ephemeralPeer) (qs : list ephemeralPeer) : gmap string ephemeralPeer :=
  foldl (λ D q, <[id q := q]> D) D qs.

Lemma cleanup_loop_rep fuel now e ts D :
  Rep e ts → by_deadline ts → (length ts < fuel)%nat →
  ∃ e' qs, cleanup_loop fuel now (headPeer e) e D = Ret (e', collect D qs)
    ∧ item_of <$> qs = due now ts ∧ Rep e' (waiting now ts) ∧ same_conf e e'.
Proof.
  revert fuel e D. induction ts as [|t ts IH]; intros [|fuel] e D HR Hs Hf; try (simpl in Hf; lia);
    destruct HR as (locs & Hc & Hnd & Hb & Hhd & Htl).
  - destruct locs; [|done]. rewrite Hhd. exists e, []. split; [done|]. split; [done|]. split; [|done].
    by exists [].
  - destruct locs as [|l locs]; [done|]. rewrite Hhd. cbn [cleanup_loop head].
    pose proof Hc as [Hl Hc']. rewrite (deref_some _ _ _ Hl), bind_ret_l. cbn [deadline next id node].
    destruct (now <? t.2) eqn:Ht.
    + apply Z.ltb_lt in Ht. destruct (not_due now t ts Hs Ht) as [-> ->].
      exists e, []. split; [done|]. split; [done|]. split; [|done]. by exists (l :: locs).
    + apply Z.ltb_ge in Ht. apply StronglySorted_inv in Hs as [Hs _].
      apply NoDup_cons in Hnd as [? Hnd]. apply Forall_cons in Hb as [? Hb].
      set (e1 := with_list _ _ _ _ e).
      destruct (IH fuel e1 (<[t.1.1:=node t (head locs)]> D)) as (e' & qs & Heq & Hqs & HR & Hsc).
      * exists locs. cbn. split_and!; try done. rewrite Htl. destruct locs; [done|]. by rewrite last_cons_cons.
      * done.
      * simpl in Hf. lia.
      * exists e', (node t (head locs) :: qs). split_and!; [exact Heq| | |done].
        -- unfold due. rewrite filter_cons_True by done. rewrite fmap_cons. unfold due in Hqs.
           rewrite Hqs. unfold item_of, node. simpl. by destruct t as [[??]?].
        -- unfold waiting. rewrite filter_cons_False by lia. done.
Qed.

Lemma collect_lookup qs D i q :
  NoDup (id <$> qs) →
  collect D qs !! i = Some q ↔ (q ∈ qs ∧ id q = i) ∨ (i ∉ id <$> qs ∧ D !! i = Some q).
Proof.
  unfold collect. revert D. induction qs as [|p qs IH]; intros D Hnd; [set_solver|].
  rewrite fmap_cons, NoDup_cons in Hnd. destruct Hnd as [Hp Hnd]. cbn [foldl]. rewrite IH by done.
  rewrite fmap_cons, elem_of_cons, not_elem_of_cons. destruct (decide (id p = i)) as [<-|Hne].
  - rewrite lookup_insert_eq. split; [naive_solver|].
    intros [[[->|Hq] Hid]|[[??]?]]; [right; by split| |done]. left. split; [done|]. done.
  - rewrite lookup_insert_ne by done. naive_solver.
Qed.

Lemma group_by_account_spec D a :
  NoDup (default [] (group_by_account D !! a))
  ∧ ∀ i, i ∈ default [] (group_by_account D !! a) ↔ ∃ p, D !! i = Some p ∧ accountID p = a.
Proof.
  revert a. unfold group_by_account.
  apply (map_fold_weak_ind (λ G D, ∀ a, NoDup (default [] (G !! a))
    ∧ ∀ i, i ∈ default [] (G !! a) ↔ ∃ p, D !! i = Some p ∧ accountID p = a)).
  - intros a. rewrite lookup_empty. split; [constructor|]. intros i. rewrite lookup_empty. set_solver.
  - intros j p D' G Hj IH a. destruct (IH a) as [Hnd Hin]. destruct (decide (accountID p = a)) as [<-|Hne].
    + rewrite lookup_insert_eq. simpl. split.
      * apply NoDup_app. split_and!; [done| |apply NoDup_singleton].
        intros x Hx ->%list_elem_of_singleton. apply Hin in Hx as (? & ? & _). congruence.
      * intros i. rewrite elem_of_app, list_elem_of_singleton, Hin.
        destruct (decide (i = j)) as [->|]; [rewrite lookup_insert_eq; naive_solver|].
        rewrite lookup_insert_ne by done. naive_solver.
    + rewrite lookup_insert_ne by done. split; [done|]. intros i. rewrite Hin.
      destruct (decide (i = j)) as [->|]; [rewrite lookup_insert_eq; naive_solver|].
      by rewrite lookup_insert_ne by done.
Qed.

Lemma group_due qs ts now a i :
  NoDup (ids ts) → item_of <$> qs = due now ts →
  (∃ p, collect ∅ qs !! i = Some p ∧ accountID p = a) ↔ ∃ dl, (i, a, dl) ∈ ts ∧ dl ≤ now.
Proof.
  intros Hnd Hqs.
  assert (Hids : id <$> qs = ids (due now ts)) by (rewrite <-Hqs, <-list_fmap_compose; done).
  assert (Hnd2 : NoDup (id <$> qs)).
  { rewrite Hids. by apply NoDup_fmap_filter. }
  assert (Hmem : ∀ t, t ∈ item_of <$> qs ↔ t.2 ≤ now ∧ t ∈ ts).
  { intros t. rewrite Hqs. unfold due. by rewrite list_elem_of_filter. }
  split.
  - intros (p & Hp & Ha). apply collect_lookup in Hp; [|done].
    destruct Hp as [[Hp Hid]|[_ Hp]]; [|by rewrite lookup_empty in Hp].
    assert (Hin : item_of p ∈ item_of <$> qs) by (apply list_elem_of_fmap; eauto).
    apply Hmem in Hin as [? ?]. exists (deadline p). subst. by split.
  - intros (dl & Hin & Hdl).
    assert (Hin2 : (i, a, dl) ∈ item_of <$> qs) by (by apply Hmem).
    apply list_elem_of_fmap in Hin2 as (p & Hp & Hq). unfold item_of in Hp. simplify_eq.
    exists p. split; [|done]. apply collect_lookup; [done|]. by left.
Qed.

Lemma cleanup_rep now now' e ts :
  Rep e ts → by_deadline ts → NoDup (ids ts) →
  ∃ e' calls, cleanup now now' e = Ret (e', calls)
    ∧ Rep e' (waiting now ts)
    ∧ (∀ a, NoDup (default [] (calls !! a)))
    ∧ (∀ a i, i ∈ default [] (calls !! a) ↔ ∃ dl, (i, a, dl) ∈ ts ∧ dl ≤ now)
    ∧ timer e' = match waiting now ts with
                 | [] => None
                 | t :: _ => Some (now' + Z.max 0 (t.2 - now' + cleanupWindow e))
                 end
    ∧ lifeTime e' = lifeTime e ∧ cleanupWindow e' = cleanupWindow e ∧ haEnabled e' = haEnabled e ∧ stopped e' = false.
Proof.
  intros HR Hs Hids. unfold cleanup.
  destruct (cleanup_loop_rep (S (allocated e)) now e ts ∅ HR Hs) as (e1 & qs & -> & Hqs & HR1 & Hsc).
  { destruct HR as (locs & Hc & Hnd & Hb & _). rewrite <-(chain_length _ _ _ Hc).
    pose proof (bounded_length _ _ Hnd Hb). lia. }
  rewrite bind_ret_l. cbv beta iota.
  assert (Hg : ∀ a, NoDup (default [] (group_by_account (collect ∅ qs) !! a))
    ∧ ∀ i, i ∈ default [] (group_by_account (collect ∅ qs) !! a) ↔ ∃ dl, (i, a, dl) ∈ ts ∧ dl ≤ now).
  { intros a. destruct (group_by_account_spec (collect ∅ qs) a) as [? Hin]. split; [done|].
    intros i. rewrite Hin. by apply group_due. }
  destruct Hsc as (_ & Hlt & Hcw & Hrc & Hek & _). pose proof HR1 as (locs & Hc & _ & _ & Hhd & _).
  destruct (waiting now ts) as [|t ws], locs as [|l locs]; try done; rewrite Hhd; cbn [head].
  - rewrite bind_ret_l. eexists _, _. split; [done|]. unfold haEnabled. simpl. rewrite Hrc, Hek. naive_solver.
  - pose proof Hc as [Hl _]. rewrite (deref_some _ _ _ Hl), !bind_ret_l. eexists _, _. split; [done|].
    unfold haEnabled, arm. simpl. rewrite Hrc, Hek, Hcw. naive_solver.
Qed.

(** ** The manager as a state machine (without Redis) *)
Inductive ev :=
| EvConnected (p : Peer)
| EvDisconnected (now now' : Z) (p : Peer)
| EvCleanup (now now' : Z).

Definition calls_t := gmap string (list string).

Section machine.
Context {R : RedisServer}.

Definition exec (x : ev) (e : EphemeralManager) (st : store)
    : outcome fault (EphemeralManager * store * calls_t) :=
  match x with
  | EvConnected p => '(e, st) ← OnPeerConnected NetOk p e st; Ret (e, st, ∅)
  | EvDisconnected now now' p => '(e, st) ← OnPeerDisconnected now now' NetOk p e st; Ret (e, st, ∅)
  | EvCleanup now now' => '(e, calls) ← cleanup now now' e; Ret (e, st, calls)
  end.

Fixpoint run (xs : list ev) (e : EphemeralManager) (st : store)
    : outcome fault (EphemeralManager * list calls_t) :=
  match xs with
  | [] => Ret (e, [])
  | x :: xs =>
      '(e, st, calls) ← exec x e st;
      '(e, outs) ← run xs e st;
      Ret (e, calls :: outs)
  end.
End machine.

(** The specification: a list of waiting peers. *)
Definition spec_step (life : Z) (ts : list item) (x : ev) : list item :=
  match x with
  | EvConnected p => if p_Ephemeral p then spec_remove (p_ID p) ts else ts
  | EvDisconnected now _ p =>
      if p_Ephemeral p && negb (bool_decide (p_ID p ∈ ids ts))
      then ts ++ [(p_ID p, p_AccountID p, now + life)] else ts
  | EvCleanup now _ => waiting now ts
  end.

(** What the specification says of the [DeletePeers] calls of a step. *)
Definition spec_calls (ts : list item) (x : ev) (calls : calls_t) : Prop :=
  match x with
  | EvCleanup now _ =>
      (∀ a, NoDup (default [] (calls !! a)))
      ∧ ∀ a i, i ∈ default [] (calls !! a) ↔ ∃ dl, (i, a, dl) ∈ ts ∧ dl ≤ now
  | _ => calls = ∅
  end.

(** Clock readings never go back; [T] is the last one. *)
Definition end_time (T : Z) (x : ev) : Z :=
  match x with EvConnected _ => T | EvDisconnected _ n _ | EvCleanup _ n => n end.
Definition timed (T : Z) (x : ev) : Prop :=
  match x with EvConnected _ => True | EvDisconnected n n' _ | EvCleanup n n' => T ≤ n ≤ n' end.
Fixpoint all_timed (T : Z) (xs : list ev) : Prop :=
  match xs with [] => True | x :: xs => timed T x ∧ all_timed (end_time T x) xs end.

Definition armed (e : EphemeralManager) (ts : list item) (T : Z) : Prop :=
  match timer e with
  | None => ts = []
  | Some tm => ts ≠ [] ∧ ∀ t, t ∈ ts → tm ≤ t.2 + cleanupWindow e ∨ tm ≤ T
  end.

Definition Inv (e : EphemeralManager) (ts : list item) (T : Z) : Prop :=
  Rep e ts ∧ NoDup (ids ts) ∧ by_deadline ts ∧ Forall (λ t, t.2 ≤ T + lifeTime e) ts
  ∧ armed e ts T ∧ haEnabled e = false ∧ 0 ≤ lifeTime e ∧ 0 ≤ cleanupWindow e ∧ stopped e = false.

Lemma by_deadline_filter (P : item → Prop) `{∀ x, Decision (P x)} ts :
  by_deadline ts → by_deadline (filter P ts).
Proof.
  induction 1 as [|t ts Hs IH Hall]; [constructor|]. rewrite filter_cons.
  case_decide; [|done]. constructor; [done|]. apply Forall_forall. intros x Hx.
  apply list_elem_of_filter in Hx as [_ Hx]. rewrite Forall_forall in Hall. auto.
Qed.

Lemma by_deadline_snoc ts t :
  by_deadline ts → Forall (λ u : item, u.2 ≤ t.2) ts → by_deadline (ts ++ [t]).
Proof.
  induction 1 as [|u ts Hs IH Hall]; [by repeat constructor|].
  intros [Hu Hts]%Forall_cons. cbn [app]. constructor; [by apply IH|].
  apply Forall_app. split; [done|]. by repeat constructor.
Qed.

Lemma Rep_head e ts : Rep e ts → (headPeer e = None ↔ ts = []).
Proof.
  intros (locs & Hc & _ & _ & -> & _). destruct locs, ts; simpl in *; naive_solver.
Qed.

Lemma Rep_with_timer t e ts : Rep (with_timer t e) ts ↔ Rep e ts.
Proof. done. Qed.

Lemma same_conf_ha e e' : same_conf e e' → haEnabled e' = haEnabled e.
Proof. intros (_ & _ & _ & Hr & Hk & _). unfold haEnabled. by rewrite Hr, Hk. Qed.

Section machine_proofs.
Context {R : RedisServer}.

Lemma filter_inv (P : item → Prop) `{∀ x, Decision (P x)} ts e T :
  NoDup (ids ts) → by_deadline ts → Forall (λ t, t.2 ≤ T + lifeTime e) ts →
  NoDup (ids (filter P ts)) ∧ by_deadline (filter P ts)
  ∧ Forall (λ t, t.2 ≤ T + lifeTime e) (filter P ts).
Proof.
  intros ? ? Hall. split_and!; [by apply NoDup_fmap_filter|by apply by_deadline_filter|].
  rewrite Forall_forall in *. intros x [_ Hx]%list_elem_of_filter. auto.
Qed.

Lemma connected_step p e ts T (st : store) :
  Inv e ts T → ∃ e', exec (EvConnected p) e st = Ret (e', st, ∅)
    ∧ Inv e' (spec_step (lifeTime e) ts (EvConnected p)) T ∧ lifeTime e' = lifeTime e ∧ cleanupWindow e' = cleanupWindow e.
Proof.
  intros HI. pose proof HI as (HR & Hids & Hs & Hdl & Ha & Hha & Hl0 & Hw0 & Hst).
  cbn [exec spec_step]. unfold OnPeerConnected.
  destruct (p_Ephemeral p); cbn [negb]; [|by exists e].
  destruct (removePeer_rep (p_ID p) e ts HR Hids) as (e1 & -> & HR1 & Hsc). rewrite bind_ret_l.
  pose proof Hsc as (Ht & Hlt & Hcw & _ & _ & Hsp). rewrite (same_conf_ha _ _ Hsc), Hha. cbv beta iota zeta.
  rewrite !bind_ret_l. eexists. split; [done|].
  destruct (filter_inv (λ t, t.1.1 ≠ p_ID p) ts e T Hids Hs Hdl) as (Hids1 & Hs1 & Hdl1).
  fold (spec_remove (p_ID p) ts) in *. pose proof (same_conf_ha _ _ Hsc) as Hha1.
  destruct (headPeer e1) as [l|] eqn:Hh.
  - split; [|done]. unfold Inv. rewrite Hlt, Hcw. split_and!; try done; [|congruence..].
    unfold armed in *. rewrite Ht, Hcw.
    assert (Hne : spec_remove (p_ID p) ts ≠ []) by (intros E; apply (Rep_head e1) in E; [congruence|done]).
    destruct (timer e) as [tm|]; [|by subst ts]. destruct Ha as [_ Ha]. split; [done|].
    intros t [_ Hin]%list_elem_of_filter. auto.
  - split; [|done]. unfold Inv. cbn [lifeTime cleanupWindow with_timer]. rewrite Hlt, Hcw.
    split_and!; try done; [|unfold haEnabled in *; simpl; congruence..].
    unfold armed. simpl. by apply (Rep_head e1).
Qed.

Lemma arm_bound now p e : 0 ≤ cleanupWindow e → arm now p e ≤ deadline p + cleanupWindow e ∨ arm now p e ≤ now.
Proof. unfold arm. lia. Qed.

Lemma disconnected_step now now' p e ts T (st : store) :
  Inv e ts T → T ≤ now ≤ now' → ∃ e', exec (EvDisconnected now now' p) e st = Ret (e', st, ∅)
    ∧ Inv e' (spec_step (lifeTime e) ts (EvDisconnected now now' p)) now' ∧ lifeTime e' = lifeTime e ∧ cleanupWindow e' = cleanupWindow e.
Proof.
  intros HI HT. pose proof HI as (HR & Hids & Hs & Hdl & Ha & Hha & Hl0 & Hw0 & Hst).
  assert (HI' : Inv e ts now').
  { unfold Inv, armed in *. split_and!; try done; [eapply Forall_impl; [done|]; simpl; lia|].
    destruct (timer e); [|done]. split; [tauto|]. intros t Hin. destruct Ha as [_ Ha].
    destruct (Ha t Hin); [by left|right; lia]. }
  cbn [exec spec_step]. unfold OnPeerDisconnected.
  destruct (p_Ephemeral p); cbn [negb andb]; [|by exists e].
  rewrite (isPeerOnList_rep _ _ _ HR), bind_ret_l. case_bool_decide as Hon; [by exists e|]. cbn [negb].
  destruct (addPeer_rep (p_AccountID p) (p_ID p) (newDeadLine now e) e ts HR) as (e1 & -> & HR1 & Hsc).
  rewrite bind_ret_l. pose proof Hsc as (Ht & Hlt & Hcw & _ & _ & Hsp). rewrite (same_conf_ha _ _ Hsc), Hha.
  cbv beta iota zeta. rewrite Ht. unfold newDeadLine in *.
  set (new := (p_ID p, p_AccountID p, now + lifeTime e)) in *.
  assert (Hcore : NoDup (ids (ts ++ [new])) ∧ by_deadline (ts ++ [new])
    ∧ Forall (λ t, t.2 ≤ now' + lifeTime e) (ts ++ [new])).
  { split_and!.
    - rewrite fmap_app. apply NoDup_app. split_and!; [done| |apply NoDup_singleton].
      intros x Hx ->%list_elem_of_singleton. done.
    - apply by_deadline_snoc; [done|]. eapply Forall_impl; [done|]. simpl. lia.
    - apply Forall_app. split; [eapply Forall_impl; [done|]; simpl; lia|]. repeat constructor. simpl. lia. }
  pose proof (same_conf_ha _ _ Hsc) as Hha1. destruct Hcore as (Hids1 & Hs1 & Hdl1).
  destruct (timer e) as [tm|] eqn:Htm.
  - rewrite !bind_ret_l. exists e1. split; [done|]. split; [|done]. unfold Inv. rewrite Hlt, Hcw.
    split_and!; try done; [|congruence..]. unfold armed in *. rewrite Ht, Hcw. rewrite Htm in Ha.
    destruct Ha as [Hne Ha]. split; [by destruct ts|].
    assert (Hall : ∀ t, t ∈ ts → tm ≤ t.2 + cleanupWindow e ∨ tm ≤ now').
    { intros t Hin. destruct (Ha t Hin); [by left|right; lia]. }
    intros t [Hin| ->%list_elem_of_singleton]%elem_of_app; [by apply Hall|].
    destruct ts as [|t0 ts]; [done|]. destruct (Hall t0 ltac:(left)) as [Hb|]; [|by right]. left.
    apply Forall_cons in Hdl as [Hd0 _]. simpl in *. lia.
  - unfold armed in Ha. rewrite Htm in Ha. subst ts.
    pose proof HR1 as (locs & Hc & _ & _ & Hhd & _). destruct locs as [|l [|??]]; [done| |by destruct Hc].
    pose proof Hc as [Hl _]. rewrite Hhd. cbn [head]. rewrite (deref_some _ _ _ Hl), !bind_ret_l.
    eexists. split; [done|]. split; [|done]. unfold Inv. cbn [lifeTime cleanupWindow with_timer].
    rewrite Hlt, Hcw. split_and!; try done; [|unfold haEnabled in *; simpl; congruence..].
    unfold armed. simpl. split; [done|]. intros t ->%list_elem_of_singleton.
    rewrite <-Hcw in *. by apply (arm_bound now' (node new None)).
Qed.

Lemma cleanup_step now now' e ts T (st : store) :
  Inv e ts T → T ≤ now ≤ now' → ∃ e' calls, exec (EvCleanup now now') e st = Ret (e', st, calls)
    ∧ Inv e' (waiting now ts) now' ∧ spec_calls ts (EvCleanup now now') calls
    ∧ lifeTime e' = lifeTime e ∧ cleanupWindow e' = cleanupWindow e.
Proof.
  intros (HR & Hids & Hs & Hdl & Ha & Hha & Hl0 & Hw0 & Hst) HT. cbn [exec].
  destruct (cleanup_rep now now' e ts HR Hs Hids)
    as (e1 & calls & -> & HR1 & Hnd & Hin & Ht & Hlt & Hcw & Hha1 & Hst1).
  rewrite bind_ret_l. eexists _, _. split; [done|]. split; [|by split].
  destruct (filter_inv (λ t, now < t.2) ts e T Hids Hs Hdl) as (Hids1 & Hs1 & Hdl1).
  fold (waiting now ts) in *. unfold Inv. rewrite Hlt, Hcw. split_and!; try done; [| |congruence].
  - eapply Forall_impl; [done|]. simpl. lia.
  - unfold armed. rewrite Ht, Hcw. destruct (waiting now ts) as [|t0 ws]; [done|]. split; [done|].
    apply StronglySorted_inv in Hs1 as [_ Hall]. rewrite Forall_forall in Hall.
    intros t [->|Hin2]%elem_of_cons; [lia|]. specialize (Hall t Hin2). simpl in Hall. lia.
Qed.

Lemma exec_step x e ts T (st : store) :
  Inv e ts T → timed T x →
  ∃ e' calls, exec x e st = Ret (e', st, calls)
    ∧ Inv e' (spec_step (lifeTime e) ts x) (end_time T x) ∧ spec_calls ts x calls
    ∧ lifeTime e' = lifeTime e ∧ cleanupWindow e' = cleanupWindow e.
Proof.
  intros HI Ht. destruct x as [p|now now' p|now now'].
  - destruct (connected_step p e ts T st HI) as (e' & ? & ? & ? & ?). by exists e', ∅.
  - destruct (disconnected_step now now' p e ts T st HI Ht) as (e' & ? & ? & ? & ?). by exists e', ∅.
  - by apply (cleanup_step now now' e ts T).
Qed.

Lemma run_refines xs e ts T (st : store) :
  Inv e ts T → all_timed T xs →
  ∃ e' outs, run xs e st = Ret (e', outs)
    ∧ Inv e' (foldl (spec_step (lifeTime e)) ts xs) (foldl end_time T xs)
    ∧ length outs = length xs ∧ cleanupWindow e' = cleanupWindow e
    ∧ ∀ i x c, xs !! i = Some x → outs !! i = Some c →
         spec_calls (foldl (spec_step (lifeTime e)) ts (take i xs)) x c.
Proof.
  revert e ts T. induction xs as [|x xs IH]; intros e ts T HI Ht.
  - exists e, []. split; [done|]. split; [done|]. split; [done|]. split; [done|]. by intros i x c.
  - destruct Ht as [Ht Hts]. destruct (exec_step x e ts T st HI Ht) as (e1 & c & Hex & HI1 & Hc & Hlt & Hcw).
    destruct (IH e1 _ _ HI1 Hts) as (e2 & outs & Hrun & HI2 & Hlen & Hcw2 & Hout). rewrite Hlt in *.
    exists e2, (c :: outs). split; [by cbn [run]; rewrite Hex, bind_ret_l, Hrun|].
    split; [done|]. split; [simpl; lia|]. split; [congruence|]. intros [|i] y d Hy Hd; simpl in *; [by simplify_eq|eauto].
Qed.

(** C31: Over any sequence of connects, disconnects and cleanups from an empty manager without
    high availability, with a clock that does not go back, the pointer-based manager
    implements the waiting list: no operation panics or loops, the heap always represents the specified list, every cleanup hands
    exactly the expired peers to [DeletePeers], grouped by account, and a timer is armed
    exactly while peers wait, no later than the first deadline plus the window. *)
Theorem ephemeral_list_refinement xs T (st : store) :
  all_timed T xs →
  let wait := foldl (spec_step EphemeralLifeTime) [] in
  ∃ e outs, run xs NewEphemeralManager st = Ret (e, outs)
    ∧ Rep e (wait xs) ∧ NoDup (ids (wait xs)) ∧ by_deadline (wait xs)
    ∧ (∀ i x c, xs !! i = Some x → outs !! i = Some c → spec_calls (wait (take i xs)) x c)
    ∧ length outs = length xs
    ∧ match timer e with
      | None => wait xs = []
      | Some tm => wait xs ≠ []
          ∧ ∀ t, t ∈ wait xs → tm ≤ t.2 + default_cleanupWindow ∨ tm ≤ foldl end_time T xs
      end
    ∧ stopped e = false.
Proof.
  intros Ht wait.
  assert (HI : Inv NewEphemeralManager [] T).
  { split_and!; try done; [|constructor..]. exists []. split_and!; try done; constructor. }
  destruct (run_refines xs NewEphemeralManager [] T st HI Ht) as (e & outs & Hr & HI' & Hlen & Hcw & Hout).
  exists e, outs. pose proof HI' as (HR & Hids & Hs & _ & Ha & _ & _ & _ & Hst). unfold armed in Ha.
  split_and!; try done. destruct (timer e); [|done]. by rewrite Hcw in Ha.
Qed.
End machine_proofs.

(** ** HA mode: the sorted set in Redis *)
Lemma SplitN2_inv m i a : SplitN2 m = Some (i, a) → m = member i a ∧ SplitN2 i = None.
Proof.
  revert i. induction m as [|c m IH]; intros i; [done|]. cbn [SplitN2].
  case_bool_decide as Hc; [intros [= <- <-]; by subst c|].
  destruct (SplitN2 m) as [[x y]|]; [|done]. intros [= <- <-].
  destruct (IH x eq_refl) as [-> Hx]. split; [done|]. cbn [SplitN2].
  by rewrite bool_decide_eq_false_2, Hx.
Qed.

(** A member decodes to the peer and the account it was built from: peer ids contain
    no separator (account ids may). *)
Lemma SplitN2_member i a : SplitN2 i = None → SplitN2 (member i a) = Some (i, a).
Proof.
  induction i as [|c i IH]; intros Hi; [done|].
  change (member (String c i) a) with (String c (member i a)). cbn [SplitN2] in *.
  case_bool_decide; [done|]. destruct (SplitN2 i) as [[??]|]; [done|]. by rewrite IH.
Qed.

Lemma valid_members_elem ms m i a :
  (m, (i, a)) ∈ valid_members ms ↔ m ∈ ms ∧ SplitN2 m = Some (i, a).
Proof.
  unfold valid_members. rewrite list_elem_of_omap. split.
  - intros (m' & ? & Hm). destruct (SplitN2 m') as [[??]|] eqn:?; simplify_eq. done.
  - intros [? Hs]. exists m. by rewrite Hs.
Qed.

Lemma group_members_spec vs a i :
  i ∈ default [] (group_members vs !! a) ↔ ∃ m, (m, (i, a)) ∈ vs.
Proof.
  unfold group_members.
  enough (Hg : ∀ g : gmap string (list string),
    i ∈ default [] (foldl (λ g v, <[v.2.2 := default [] (g !! v.2.2) ++ [v.2.1]]> g) g vs !! a)
    ↔ i ∈ default [] (g !! a) ∨ ∃ m, (m, (i, a)) ∈ vs).
  { rewrite Hg, lookup_empty. set_solver. }
  induction vs as [|[m [i' a']] vs IH]; intros g; [set_solver|]. cbn [foldl snd fst]. rewrite IH.
  destruct (decide (a' = a)) as [->|].
  - rewrite lookup_insert_eq. simpl. rewrite elem_of_app, list_elem_of_singleton.
    setoid_rewrite elem_of_cons. naive_solver.
  - rewrite lookup_insert_ne by done. setoid_rewrite elem_of_cons. naive_solver.
Qed.

Section redis.
Context {R : RedisServer} {RL : RedisLaws R}.

Lemma zrem_all_spec k ms st z :
  zset_at (keyspace st) k = Ret z →
  ∃ z', zset_at (keyspace (zrem_all k ms st)) k = Ret z'
    ∧ ∀ m, z' !! m = if bool_decide (m ∈ ms) then None else z !! m.
Proof.
  revert st z. induction ms as [|m0 ms IH]; intros st z Hz.
  - exists z. by split.
  - pose proof (ZRem_spec k m0 st) as Hr. rewrite Hz in Hr. destruct Hr as [_ Hr].
    destruct (IH (ZRem k m0 st).2 (delete m0 z)) as (z' & Hz' & Hm).
    { rewrite Hr. apply put_zset_at. }
    exists z'. split; [done|]. intros m. rewrite Hm. destruct (decide (m = m0)) as [->|].
    + rewrite lookup_delete_eq, (bool_decide_eq_true_2 (m0 ∈ m0 :: ms)) by set_solver.
      by case_bool_decide.
    + rewrite lookup_delete_ne by done. do 2 case_bool_decide; set_solver.
Qed.

Lemma removePeers_rep js e ts :
  Rep e ts → NoDup (ids ts) →
  ∃ e', removePeers js e = Ret e' ∧ Rep e' (foldl (λ ts i, spec_remove i ts) ts js) ∧ same_conf e e'.
Proof.
  revert e ts. induction js as [|i js IH]; intros e ts HR Hids; [by exists e|]. cbn [removePeers foldl].
  destruct (removePeer_rep i e ts HR Hids) as (e1 & -> & HR1 & Hsc). rewrite bind_ret_l.
  destruct (IH e1 _ HR1 ltac:(by apply NoDup_fmap_filter)) as (e2 & ? & ? & Hsc2).
  exists e2. split; [done|]. split; [done|]. unfold same_conf in *. naive_solver congruence.
Qed.

(** The due members of a sorted set. *)
Definition due_member (z : gmap string Z) (now : Z) (i a : string) : Prop :=
  ∃ sc, z !! member i a = Some sc ∧ 0 ≤ sc ≤ UnixMilli now.

(** C37: One committed round of the HA cleanup is exactly-once: the peers it hands to
    [DeletePeers] are exactly those that are due in the sorted set at the instant of the
    EXEC, whatever other instances did since the read, and they leave the set in that
    same instant, so no other instance can hand them out again; members that are not due
    stay.  A refused round has no effect. *)
Theorem redis_cleanup_exactly_once x e st ts z z1 :
  Rep e ts → NoDup (ids ts) →
  zset_at (keyspace st) (ephemeralKey e) = Ret z →
  zset_at (keyspace (x_others x st)) (ephemeralKey e) = Ret z1 →
  watch_ok (ephemeralKey e) x st →
  x_exec x ≠ NetReplyLost →
  ∃ r e' st', redisCleanup_attempt x e st = Ret (r, e', st')
    ∧ match r with
      | None => e' = e ∧ (st' = st ∨ st' = x_others x st)
      | Some calls =>
          (calls = ∅ ∧ e' = e ∧ st' = st ∧ (∀ i a, SplitN2 i = None → ¬ due_member z (x_now x) i a))
          ∨ (∃ z', zset_at (keyspace st') (ephemeralKey e) = Ret z'
             ∧ (∀ i a, SplitN2 i = None →
                  (i ∈ default [] (calls !! a) ↔ due_member z1 (x_now x) i a)
                  ∧ z' !! member i a = if bool_decide (i ∈ default [] (calls !! a)) then None
                                       else z1 !! member i a))
      end.
Proof.
  intros HR Hids Hz Hz1 Hw Hex. unfold redisCleanup_attempt.
  pose proof (ZRangeByScore_spec (ephemeralKey e) 0 (UnixMilli (x_now x)) st) as Hr. rewrite Hz in Hr.
  destruct Hr as (ms & Hr & _ & Hms).
  destruct (x_range x); cbn [call]; [|eexists None, e, _; split; [done|]; by auto|rewrite Hr; eexists None, e, _; split; [done|]; by auto].
  rewrite Hr.
  assert (Hdue : ∀ i a, SplitN2 i = None → due_member z (x_now x) i a ↔ member i a ∈ ms).
  { intros i a _. rewrite Hms. done. }
  case_bool_decide as Hnil.
  { subst ms. eexists _, _, _. split; [done|]. left. split_and!; try done.
    intros i a Hi. rewrite Hdue by done. set_solver. }
  cbv zeta. case_bool_decide as Hvs.
  { eexists _, _, _. split; [done|]. left. split_and!; try done. intros i a Hi Hd.
    apply Hdue in Hd; [|done]. assert (Hin : (member i a, (i, a)) ∈ valid_members ms).
    { apply valid_members_elem. split; [done|]. by apply SplitN2_member. }
    rewrite Hvs in Hin. set_solver. }
  destruct (x_touched x) eqn:Ht; [eexists None, e, _; split; [done|]; by auto|].
  destruct (x_exec x); [|eexists None, e, _; split; [done|]; by auto|done].
  destruct (removePeers_rep (fst ∘ snd <$> valid_members ms) e ts HR Hids) as (e' & -> & _ & _).
  rewrite bind_ret_l. eexists _, _, _. split; [done|]. right.
  assert (z1 = z) as ->.
  { unfold zset_at in *. rewrite (Hw Ht) in Hz1. congruence. }
  destruct (zrem_all_spec (ephemeralKey e) (valid_members ms).*1 (x_others x st) z Hz1) as (z' & Hz' & Hm).
  exists z'. split; [done|]. intros i a Hi.
  assert (Hiff : i ∈ default [] (group_members (valid_members ms) !! a) ↔ member i a ∈ ms).
  { rewrite group_members_spec. setoid_rewrite valid_members_elem. split.
    - intros (m & Hin & [-> _]%SplitN2_inv). done.
    - intros Hin. exists (member i a). split; [done|]. by apply SplitN2_member. }
  split; [by rewrite Hiff, Hdue|]. rewrite Hm. erewrite bool_decide_ext; [done|]. rewrite Hiff.
  rewrite list_elem_of_fmap. split.
  - intros ([m [i' a']] & Heq & [Hin _]%valid_members_elem). simpl in Heq. by subst m.
  - intros Hin. exists (member i a, (i, a)). split; [done|]. apply valid_members_elem.
    split; [done|]. by apply SplitN2_member.
Qed.

(** A round whose EXEC is executed but whose reply is lost drops the due peers: they
    have left the sorted set, the retry finds nothing, and [DeletePeers] is never called
    for them, so they stay in the database until an instance restarts. *)
Theorem cleanup_reply_lost_leaks x y e st z i0 a0 :
  zset_at (keyspace st) (ephemeralKey e) = Ret z →
  SplitN2 i0 = None → due_member z (x_now x) i0 a0 →
  x_range x = NetOk → x_others x st = st → x_touched x = false → x_exec x = NetReplyLost →
  x_range y = NetOk → x_now y = x_now x →
  ∃ st' z', redisCleanup [x; y] e st = Ret (∅, e, st')
    ∧ zset_at (keyspace st') (ephemeralKey e) = Ret z' ∧ z' !! member i0 a0 = None.
Proof.
  intros Hz Hi0 Hd0 Hx Ho Ht He Hy Hnow.
  pose proof (ZRangeByScore_spec (ephemeralKey e) 0 (UnixMilli (x_now x)) st) as Hr. rewrite Hz in Hr.
  destruct Hr as (ms & Hr & _ & Hms).
  assert (Hin0 : (member i0 a0, (i0, a0)) ∈ valid_members ms).
  { apply valid_members_elem. split; [|by apply SplitN2_member]. apply Hms. done. }
  destruct (zrem_all_spec (ephemeralKey e) (valid_members ms).*1 st z Hz) as (z' & Hz' & Hm).
  set (st1 := zrem_all _ _ _) in *.
  assert (H1 : redisCleanup_attempt x e st = Ret (None, e, st1)).
  { unfold redisCleanup_attempt. rewrite Hx. cbn [call]. rewrite Hr, Ho, Ht, He.
    rewrite bool_decide_eq_false_2 by (intros ->; simpl in Hin0; set_solver).
    cbv zeta. by rewrite bool_decide_eq_false_2 by (intros Hn; rewrite Hn in Hin0; set_solver). }
  pose proof (ZRangeByScore_spec (ephemeralKey e) 0 (UnixMilli (x_now y)) st1) as Hr'. rewrite Hz' in Hr'.
  destruct Hr' as (ms' & Hr' & _ & Hms'). rewrite Hnow in Hms', Hr'.
  assert (Hv' : valid_members ms' = []).
  { apply elem_of_nil_inv. intros [m [i a]] [Hin Hs]%valid_members_elem.
    apply Hms' in Hin as (sc & Hsc & Hrange). rewrite Hm in Hsc. case_bool_decide as Hnin; [done|].
    apply Hnin, list_elem_of_fmap. exists (m, (i, a)). split; [done|]. apply valid_members_elem.
    split; [|done]. apply Hms. eauto. }
  assert (H2 : redisCleanup_attempt y e st1 = Ret (Some ∅, e, st1)).
  { unfold redisCleanup_attempt. rewrite Hy, Hnow. cbn [call]. rewrite Hr', Hv'.
    case_bool_decide; [done|]. cbv zeta. by rewrite bool_decide_eq_true_2. }
  exists st1, z'. split_and!; [|done|].
  - unfold redisCleanup. cbn [take maxRetries redisCleanup_loop].
    by rewrite H1, bind_ret_l, H2, bind_ret_l.
  - rewrite Hm, bool_decide_eq_true_2; [done|]. apply list_elem_of_fmap.
    by exists (member i0 a0, (i0, a0)).
Qed.
End redis.

(** ** Witnesses *)
Definition eph (i : string) : Peer := {| p_ID := i; p_AccountID := "acc"; p_Ephemeral := true |}.
Definition day : list ev :=
  [EvDisconnected 0 0 (eph "a"); EvDisconnected Second Second (eph "b"); EvConnected (eph "a");
   EvDisconnected Minute Minute (eph "c"); EvCleanup (10 * Minute + Second) (10 * Minute + Second)].

Lemma ephemeral_list_refinement_witness :
  foldl (spec_step EphemeralLifeTime) [] day = [("c", "acc", 11 * Minute)]
  ∧ ∃ e outs, run (R:=mem_redis) day NewEphemeralManager (Mem ∅ 0) = Ret (e, outs)
     ∧ Rep e (foldl (spec_step EphemeralLifeTime) [] day).
Proof.
  split; [reflexivity|].
  destruct (ephemeral_list_refinement (R:=mem_redis) day 0 (Mem ∅ 0)) as (e & outs & Hr & HR & _).
  { repeat split; vm_compute; done. }
  exists e, outs. split; [exact Hr|exact HR].
Defined.

(** The same day, evaluated: only [b] is deleted, and the timer is armed for [c]. *)
Example day_run :
  (λ r, match r with Ret (e, outs) => Some (outs !! 4%nat, timer e) | _ => None end)
    (run (R:=mem_redis) day NewEphemeralManager (Mem ∅ 0))
  = Some (Some {[ "acc" := ["b"] ]}, Some (12 * Minute)).
Proof. vm_compute. reflexivity. Qed.

(** After [Stop] a peer that disconnects is put on the list, but no timer runs for it. *)
Example disconnect_after_stop :
  match OnPeerDisconnected (R:=mem_redis) 0 0 NetOk (eph "a") NewEphemeralManager (Mem ∅ 0) with
  | Ret (e, st) =>
      match OnPeerDisconnected Second Second NetOk (eph "b") (Stop e) st with
      | Ret (e', _) => isPeerOnList "b" e' = Ret true ∧ stopped e' = true ∧ timer e' = timer e
      | _ => False
      end
  | _ => False
  end.
Proof. vm_compute. auto. Qed.

Definition ha_manager : EphemeralManager := WithRedis true "eph" NewEphemeralManager.
Definition due_store : @store mem_redis :=
  Mem {[ "eph" := (RZset {[ "a|acc" := 5000; "b|acc" := 90000 ]}, None) ]} 0.
Definition quiet (exec : net) : @tx_env mem_redis :=
  {| x_now := Minute; x_range := NetOk; x_others := λ st, st; x_touched := false; x_exec := exec |}.

Definition due_set : gmap string Z := {[ "a|acc" := 5000; "b|acc" := 90000 ]}.

Lemma due_store_set : zset_at (@keyspace mem_redis due_store) (ephemeralKey ha_manager) = Ret due_set.
Proof. reflexivity. Qed.

Lemma redis_cleanup_exactly_once_witness :
  ∃ r e' st', redisCleanup_attempt (quiet NetOk) ha_manager due_store = Ret (r, e', st').
Proof.
  assert (HR : Rep ha_manager []) by (exists []; split_and!; try done; constructor).
  destruct (redis_cleanup_exactly_once (quiet NetOk) ha_manager due_store [] due_set due_set HR
    NoDup_nil_2 due_store_set due_store_set (λ _, eq_refl) ltac:(by intros [=]))
    as (r & e' & st' & Heq & _).
  exists r, e', st'. exact Heq.
Defined.

Example due_store_cleanup :
  (λ r, match r with Ret (calls, _, _) => calls | _ => None end)
    (redisCleanup_attempt (quiet NetOk) ha_manager due_store) = Some {[ "acc" := ["a"] ]}.
Proof. vm_compute. reflexivity. Qed.

Lemma cleanup_reply_lost_leaks_witness :
  ∃ st' z', redisCleanup [quiet NetReplyLost; quiet NetOk] ha_manager due_store = Ret (∅, ha_manager, st')
    ∧ zset_at (@keyspace mem_redis st') (ephemeralKey ha_manager) = Ret z' ∧ z' !! member "a" "acc" = None.
Proof.
  refine (cleanup_reply_lost_leaks (quiet NetReplyLost) (quiet NetOk) ha_manager due_store
    due_set "a" "acc" due_store_set eq_refl _ eq_refl eq_refl eq_refl eq_refl eq_refl eq_refl).
  exists 5000. split; [reflexivity|vm_compute; done].
Defined.
