(* ===== verification/FakeIP.v ===== *)
(** The allocator of fake addresses for DNS routes:
    [src/client/internal/routemanager/fakeip/fakeip.go].

    An IPv4 address is its 32-bit number.  The maps are keyed by [netip.Addr] in the
    source; only IPv4 addresses ever enter them, so they are keyed by the number here.
    The search loop runs with fuel; [size fakeToReal + 1] probes are always enough,
    because the probes made so far are pairwise different and all in use. *)
From S2P Require Import Prelude.
Open Scope Z_scope.

Inductive Addr := V4 (ip : Z) | V6 (ip : Z).

Record Manager := {
  nextIP : Z;
  allocated : gmap Z Z;       (* real IP -> fake IP *)
  fakeToReal : gmap Z Z;      (* fake IP -> real IP *)
  baseIP : Z;
  maxIP : Z;
}.

Definition AddrFrom4 (a b c d : Z) : Z := a * 2 ^ 24 + b * 2 ^ 16 + c * 2 ^ 8 + d.

Definition NewManager : Manager :=
  let base := AddrFrom4 240 0 0 1 in
  {| nextIP := base; allocated := ∅; fakeToReal := ∅; baseIP := base;
     maxIP := AddrFrom4 240 255 255 254 |}.

Inductive fakeip_err := ErrNotIPv4 | ErrExhausted | ErrFuel.

Definition set_next (ip : Z) (m : Manager) : Manager :=
  {| nextIP := ip; allocated := allocated m; fakeToReal := fakeToReal m;
     baseIP := baseIP m; maxIP := maxIP m |}.

Definition bind_ips (real fake : Z) (m : Manager) : Manager :=
  {| nextIP := nextIP m; allocated := <[real := fake]> (allocated m);
     fakeToReal := <[fake := real]> (fakeToReal m); baseIP := baseIP m; maxIP := maxIP m |}.

(** [Next], with the wrap at the boundary. *)
Definition advance (m : Manager) : Z := if maxIP m <=? nextIP m then baseIP m else nextIP m + 1.

Fixpoint allocate_loop (fuel : nat) (startIP realIP : Z) (m : Manager)
    : outcome fakeip_err Z * Manager :=
  match fuel with
  | O => (Err ErrFuel, m)
  | S fuel =>
      let currentIP := nextIP m in
      let m := set_next (advance m) m in
      match fakeToReal m !! currentIP with
      | None => (Ret currentIP, bind_ips realIP currentIP m)
      | Some _ =>
          if nextIP m =? startIP then (Err ErrExhausted, m)
          else allocate_loop fuel startIP realIP m
      end
  end.

Definition AllocateFakeIP (realIP : Addr) (m : Manager) : outcome fakeip_err Z * Manager :=
  match realIP with
  | V6 _ => (Err ErrNotIPv4, m)
  | V4 r =>
      match allocated m !! r with
      | Some fakeIP => (Ret fakeIP, m)
      | None => allocate_loop (S (size (fakeToReal m))) (nextIP m) r m
      end
  end.

Definition GetFakeIP (realIP : Addr) (m : Manager) : option Z :=
  match realIP with V4 r => allocated m !! r | V6 _ => None end.

Definition GetRealIP (fakeIP : Addr) (m : Manager) : option Z :=
  match fakeIP with V4 f => fakeToReal m !! f | V6 _ => None end.

(** 240.0.0.0/8 as address and prefix length. *)
Definition GetFakeIPBlock : Z * Z := (AddrFrom4 240 0 0 0, 8).

(** ** The invariant *)
Definition WF (m : Manager) : Prop :=
  baseIP m ≤ nextIP m ≤ maxIP m
  ∧ (∀ r f, allocated m !! r = Some f ↔ fakeToReal m !! f = Some r)
  ∧ (∀ f r, fakeToReal m !! f = Some r → baseIP m ≤ f ≤ maxIP m).

(** The [k]-th address probed from [start]. *)
Definition probe (m : Manager) (start : Z) (k : nat) : Z :=
  baseIP m + (start - baseIP m + Z.of_nat k) mod (maxIP m - baseIP m + 1).

Lemma mod_succ x R : 0 < R → (x + 1) mod R = if x mod R =? R - 1 then 0 else x mod R + 1.
Proof.
  intros HR. pose proof (Z.mod_pos_bound x R HR). pose proof (Z.div_mod x R ltac:(lia)).
  destruct (x mod R =? R - 1) eqn:E; symmetry.
  - apply (Z.mod_unique_pos _ _ (x / R + 1)); [lia|]. apply Z.eqb_eq in E. lia.
  - apply (Z.mod_unique_pos _ _ (x / R)); [|lia]. apply Z.eqb_neq in E. lia.
Qed.

Lemma advance_probe m start k :
  baseIP m ≤ maxIP m → nextIP m = probe m start k → advance m = probe m start (S k).
Proof.
  intros Hr Hn. unfold advance. rewrite Hn. unfold probe. set (R := maxIP m - baseIP m + 1).
  replace (start - baseIP m + Z.of_nat (S k)) with (start - baseIP m + Z.of_nat k + 1) by lia.
  set (x := start - baseIP m + Z.of_nat k). rewrite mod_succ by lia.
  pose proof (Z.mod_pos_bound x R ltac:(lia)) as Hb.
  destruct (Z.leb_spec (maxIP m) (baseIP m + x mod R)), (Z.eqb_spec (x mod R) (R - 1)); lia.
Qed.

Lemma probe_range m start k : baseIP m ≤ maxIP m → baseIP m ≤ probe m start k ≤ maxIP m.
Proof.
  intros. unfold probe.
  pose proof (Z.mod_pos_bound (start - baseIP m + Z.of_nat k) (maxIP m - baseIP m + 1)). lia.
Qed.

Lemma probe_0 m start : baseIP m ≤ start ≤ maxIP m → probe m start 0 = start.
Proof. intros. unfold probe. rewrite Z.mod_small; lia. Qed.

Definition range (m : Manager) : Z := maxIP m - baseIP m + 1.

Lemma probe_inj m start j k :
  Z.of_nat j < range m → Z.of_nat k < range m → probe m start j = probe m start k → j = k.
Proof.
  unfold probe. fold (range m). intros Hj Hk Heq.
  generalize dependent (range m). generalize (start - baseIP m). intros a R Hj Hk Heq.
  assert (E : (a + Z.of_nat j) mod R = (a + Z.of_nat k) mod R) by lia.
  pose proof (Z.div_mod (a + Z.of_nat j) R ltac:(lia)) as E1.
  pose proof (Z.div_mod (a + Z.of_nat k) R ltac:(lia)) as E2.
  rewrite E in E1. remember ((a + Z.of_nat k) mod R) as r eqn:Hr. clear Hr E Heq.
  remember ((a + Z.of_nat j) / R) as q1 eqn:Hq1. remember ((a + Z.of_nat k) / R) as q2 eqn:Hq2.
  clear Hq1 Hq2.
  assert (R * (q1 - q2) = Z.of_nat j - Z.of_nat k) as Hd
    by (rewrite Z.mul_sub_distr_l; lia).
  assert (q1 - q2 = 0) as Hz; [|rewrite Hz, Z.mul_0_r in Hd; lia].
  generalize dependent (q1 - q2). intros d Hd. assert (d < 1) by nia. assert (-1 < d) by nia. lia.
Qed.

(** Every address of the block is probed within one round. *)
Lemma probe_surj m start f :
  baseIP m ≤ f ≤ maxIP m → ∃ k, Z.of_nat k < range m ∧ probe m start k = f.
Proof.
  intros Hf. set (R := range m). exists (Z.to_nat ((f - start) mod R)).
  assert (0 < R) by (unfold R, range; lia). pose proof (Z.mod_pos_bound (f - start) R ltac:(lia)).
  split; [lia|]. unfold probe. fold (range m). fold R. rewrite Z2Nat.id by lia.
  rewrite Z.add_mod_idemp_r by lia. replace (start - baseIP m + (f - start)) with (f - baseIP m) by lia.
  rewrite Z.mod_small; unfold R, range; lia.
Qed.

(** The first [k] probes are pairwise different and in use, so there are at most as
    many as entries. *)
Lemma probes_bounded m start k :
  Z.of_nat k ≤ range m → (∀ j, (j < k)%nat → is_Some (fakeToReal m !! probe m start j)) →
  (k ≤ size (fakeToReal m))%nat.
Proof.
  intros Hk Hin. set (X := list_to_set (probe m start <$> seq 0 k) : gset Z).
  assert (Hsz : size X = k).
  { unfold X. rewrite size_list_to_set, length_fmap, length_seq; [done|].
    apply NoDup_fmap_2_strong; [|apply NoDup_seq]. intros x y Hx%elem_of_seq Hy%elem_of_seq.
    apply probe_inj; lia. }
  rewrite <-Hsz, <-size_dom. apply subseteq_size. intros f.
  unfold X. rewrite elem_of_list_to_set. intros (j & -> & Hj%elem_of_seq)%list_elem_of_fmap.
  apply elem_of_dom, Hin. lia.
Qed.

Lemma probe_round m start k :
  baseIP m ≤ start ≤ maxIP m → Z.of_nat k < range m →
  (probe m start (S k) = start ↔ Z.of_nat (S k) = range m).
Proof.
  intros Hs Hk. rewrite <-(probe_0 m start) at 2 by done. split.
  - intros Heq. destruct (decide (Z.of_nat (S k) = range m)); [done|].
    apply probe_inj in Heq; lia.
  - intros Heq. unfold probe. fold (range m). rewrite Heq.
    rewrite <-Z.add_mod_idemp_r, Z.mod_same by (unfold range; lia). done.
Qed.

Lemma allocate_loop_spec fuel start r m k :
  baseIP m ≤ start ≤ maxIP m → nextIP m = probe m start k → Z.of_nat k < range m →
  (∀ j, (j < k)%nat → is_Some (fakeToReal m !! probe m start j)) →
  (fuel + k = S (size (fakeToReal m)))%nat →
  ∃ n, baseIP m ≤ n ≤ maxIP m ∧
    ((∃ f, allocate_loop fuel start r m = (Ret f, bind_ips r f (set_next n m))
        ∧ fakeToReal m !! f = None ∧ baseIP m ≤ f ≤ maxIP m)
     ∨ (allocate_loop fuel start r m = (Err ErrExhausted, set_next n m)
        ∧ ∀ f, baseIP m ≤ f ≤ maxIP m → is_Some (fakeToReal m !! f))).
Proof.
  revert m k. induction fuel as [|fuel IH]; intros m k Hs Hn Hk Hin Hf.
  - pose proof (probes_bounded m start k ltac:(lia) Hin). lia.
  - assert (Hbm : baseIP m ≤ maxIP m) by lia. cbn [allocate_loop].
    rewrite (advance_probe m start k Hbm Hn), Hn. cbn [set_next fakeToReal nextIP].
    destruct (fakeToReal m !! probe m start k) as [r'|] eqn:Hcur.
    + assert (Hin' : ∀ j, (j < S k)%nat → is_Some (fakeToReal m !! probe m start j)).
      { intros j Hj. destruct (decide (j = k)) as [->|]; [by rewrite Hcur|]. apply Hin. lia. }
      pose proof (probe_round m start k Hs Hk) as Hround.
      destruct (Z.eqb_spec (probe m start (S k)) start) as [E|E].
      * exists (probe m start (S k)). split; [by apply probe_range|]. right. split; [done|].
        intros f Hfr. destruct (probe_surj m start f Hfr) as (j & Hj & <-). apply Hin'.
        apply Hround in E. lia.
      * destruct (IH (set_next (probe m start (S k)) m) (S k)) as (n & Hnr & Hres); try done.
        -- change (Z.of_nat (S k) < range m). assert (Z.of_nat (S k) ≠ range m) by naive_solver. lia.
        -- simpl. lia.
        -- exists n. split; [done|]. exact Hres.
    + exists (probe m start (S k)). split; [by apply probe_range|]. left.
      exists (probe m start k). split; [done|]. split; [done|]. by apply probe_range.
Qed.

(** Allocation terminates within the fuel and never hands out an address twice: a
    real address that has a fake one gets it again; otherwise an unused address of the
    block is bound to it, in both directions, and the maps stay inverse to each other;
    and it fails exactly when the block is exhausted, leaving the maps alone. *)
Theorem allocate_fake_ip_spec m r :
  WF m →
  let '(res, m') := AllocateFakeIP (V4 r) m in
  WF m' ∧ baseIP m' = baseIP m ∧ maxIP m' = maxIP m
  ∧ match res with
    | Ret f => GetFakeIP (V4 r) m' = Some f ∧ GetRealIP (V4 f) m' = Some r ∧ baseIP m ≤ f ≤ maxIP m
               ∧ (∀ r', r' ≠ r → GetFakeIP (V4 r') m' = GetFakeIP (V4 r') m)
    | Err ErrExhausted =>
        GetFakeIP (V4 r) m = None ∧ allocated m' = allocated m ∧ fakeToReal m' = fakeToReal m
        ∧ ∀ f, baseIP m ≤ f ≤ maxIP m → is_Some (GetRealIP (V4 f) m)
    | _ => False
    end.
Proof.
  intros HWF. pose proof HWF as (Hn & Hinv & Hrg). cbn [AllocateFakeIP].
  destruct (allocated m !! r) as [f|] eqn:Hr.
  - cbn. pose proof (proj1 (Hinv r f) Hr) as Hf. split_and!; try done; by eapply Hrg.
  - destruct (allocate_loop_spec (S (size (fakeToReal m))) (nextIP m) r m 0) as (n & Hnr & Hres); try done.
    { by rewrite probe_0. } { unfold range. lia. } { intros j Hj. lia. }
    destruct Hres as [(f & -> & Hfree & Hfr) | [-> Hall]]; [|by split_and!].
    split; [|cbn; rewrite !lookup_insert_eq; split_and!; try done; try lia;
             intros r' Hr'; by rewrite lookup_insert_ne].
    split; [done|]. cbn. split.
    + intros r' f'. destruct (decide (r' = r)) as [->|Hr'], (decide (f' = f)) as [->|Hf'];
        rewrite ?lookup_insert_eq, ?lookup_insert_ne by done; try done.
      * rewrite <-Hinv, Hr. naive_solver.
      * rewrite Hinv, Hfree. naive_solver.
    + intros f' r'. destruct (decide (f' = f)) as [->|]; [done|]. rewrite lookup_insert_ne by done.
      apply Hrg.
Qed.

Lemma WF_NewManager : WF NewManager.
Proof. split_and!; try done. Qed.

Lemma allocate_fake_ip_spec_witness :
  let '(res, m') := AllocateFakeIP (V4 (AddrFrom4 10 0 0 7)) NewManager in
  res = Ret (AddrFrom4 240 0 0 1) ∧ WF m'.
Proof.
  pose proof (allocate_fake_ip_spec NewManager (AddrFrom4 10 0 0 7) WF_NewManager) as H.
  destruct (AllocateFakeIP (V4 (AddrFrom4 10 0 0 7)) NewManager) as [res m'] eqn:E.
  vm_compute in E. injection E as <- <-. split; [reflexivity|]. apply H.
Defined.
