(* ===== verification/RefCounter.v ===== *)
(** The generic reference counter of the route manager:
    [src/client/internal/routemanager/refcounter/refcounter.go].

    [AddFunc] and [RemoveFunc] are callbacks; they are the parameters [add] and
    [remove], and every operation returns, beside its result, the callback invocations
    it made, in order.  A Go map that may be nil is an [option]: reading a nil map finds
    nothing, writing one panics.  Logging is left out. *)
From S2P Require Import Prelude.
Open Scope Z_scope.

Record Ref (O : Type) := MkRef { Count : Z; Out : O }.
Arguments MkRef {O}.
Arguments Count {O}.
Arguments Out {O}.

(** What [AddFunc] returns. *)
Inductive add_res (O : Type) := AddOk (o : O) | AddIgnore | AddFail.
Arguments AddOk {O}.
Arguments AddIgnore {O}.
Arguments AddFail {O}.

Inductive call_t (Key O : Type) :=
| CallAdd (k : Key) (r : add_res O)
| CallRemove (k : Key) (o : O) (ok : bool).
Arguments CallAdd {Key O}.
Arguments CallRemove {Key O}.

Inductive refcount_err := ErrAdd | ErrRemove | ErrDecode.

Section counter.
Context {Key I O : Type} `{Countable Key} (zeroO : O).
Context (add : Key → I → add_res O) (remove : Key → O → bool).

Record Counter := {
  refCountMap : option (gmap Key (Ref O));
  idMap : option (gmap string (list Key));
}.

Abbreviation calls := (list (call_t Key O)).
Abbreviation result A := (outcome Empty_set A).

Definition New : Counter := {| refCountMap := Some ∅; idMap := Some ∅ |}.

(** Both counters share the maps afterwards; the old one must not be used again. *)
Definition LoadData (existing rm : Counter) : Counter :=
  {| refCountMap := refCountMap existing; idMap := idMap existing |}.

Definition lookup_ref (k : Key) (rm : Counter) : option (Ref O) := refCountMap rm ≫= (.!! k).

Definition Get (k : Key) (rm : Counter) : Ref O * bool :=
  match lookup_ref k rm with Some r => (r, true) | None => (MkRef 0 zeroO, false) end.

Definition set_refs (m : option (gmap Key (Ref O))) (rm : Counter) : Counter :=
  {| refCountMap := m; idMap := idMap rm |}.
Definition set_ids (m : option (gmap string (list Key))) (rm : Counter) : Counter :=
  {| refCountMap := refCountMap rm; idMap := m |}.

Definition write_ref (k : Key) (r : Ref O) (rm : Counter) : result Counter :=
  match refCountMap rm with
  | Some m => Ret (set_refs (Some (<[k := r]> m)) rm)
  | None => Panic
  end.

Definition increment (k : Key) (i : I) (rm : Counter)
    : result (Ref O * option refcount_err * Counter * calls) :=
  let ref := default (MkRef 0 zeroO) (lookup_ref k rm) in
  let store_ref (ref : Ref O) (cs : calls) :=
    let ref := MkRef (Count ref + 1) (Out ref) in
    rm ← write_ref k ref rm; Ret (ref, None, rm, cs) in
  if Count ref =? 0 then
    match add k i with
    | AddIgnore => Ret (ref, None, rm, [CallAdd k AddIgnore])
    | AddFail => Ret (ref, Some ErrAdd, rm, [CallAdd k AddFail])
    | AddOk out => store_ref (MkRef (Count ref) out) [CallAdd k (AddOk out)]
    end
  else store_ref ref [].

Definition Increment := increment.

Definition IncrementWithID (id : string) (k : Key) (i : I) (rm : Counter)
    : result (Ref O * option refcount_err * Counter * calls) :=
  '(ref, err, rm, cs) ← increment k i rm;
  match err with
  | Some e => Ret (ref, Some e, rm, cs)
  | None =>
      match idMap rm with
      | None => Panic
      | Some m => Ret (ref, None, set_ids (Some (<[id := default [] (m !! id) ++ [k]]> m)) rm, cs)
      end
  end.

Definition decrement (k : Key) (rm : Counter)
    : result (Ref O * option refcount_err * Counter * calls) :=
  match lookup_ref k rm with
  | None => Ret (MkRef 0 zeroO, None, rm, [])
  | Some ref =>
      if Count ref =? 1 then
        if remove k (Out ref)
        then Ret (ref, None, set_refs (delete k <$> refCountMap rm) rm, [CallRemove k (Out ref) true])
        else Ret (ref, Some ErrRemove, rm, [CallRemove k (Out ref) false])
      else
        let ref := MkRef (Count ref - 1) (Out ref) in
        rm ← write_ref k ref rm; Ret (ref, None, rm, [])
  end.

Definition Decrement := decrement.

Fixpoint decrement_all (ks : list Key) (rm : Counter) : result (list refcount_err * Counter * calls) :=
  match ks with
  | [] => Ret ([], rm, [])
  | k :: ks =>
      '(_, err, rm, cs) ← decrement k rm;
      '(errs, rm, cs') ← decrement_all ks rm;
      Ret (match err with Some e => e :: errs | None => errs end, rm, cs ++ cs')
  end.

Definition DecrementWithID (id : string) (rm : Counter) : result (list refcount_err * Counter * calls) :=
  '(errs, rm, cs) ← decrement_all (default [] (idMap rm ≫= (.!! id))) rm;
  Ret (errs, set_ids (delete id <$> idMap rm) rm, cs).

(** The order in which Go ranges over the map is unspecified. *)
Definition Flush (rm : Counter) : list refcount_err * Counter * calls :=
  let rs := map_to_list (default ∅ (refCountMap rm)) in
  (omap (λ p, if remove p.1 (Out p.2) then None else Some ErrRemove) rs,
   {| refCountMap := (λ _, ∅) <$> refCountMap rm; idMap := (λ _, ∅) <$> idMap rm |},
   (λ p, CallRemove p.1 (Out p.2) (remove p.1 (Out p.2))) <$> rs).

Definition Clear (rm : Counter) : Counter :=
  {| refCountMap := (λ _, ∅) <$> refCountMap rm; idMap := (λ _, ∅) <$> idMap rm |}.

(** [json.Unmarshal] into the temporary struct is a parameter: it fails, or yields the
    two fields, a missing or null field as nil. *)
Definition MarshalJSON (rm : Counter) : option (gmap Key (Ref O)) * option (gmap string (list Key)) :=
  (refCountMap rm, idMap rm).

Definition UnmarshalJSON (decoded : option (option (gmap Key (Ref O)) * option (gmap string (list Key))))
    (rm : Counter) : option refcount_err * Counter :=
  match decoded with
  | None => (Some ErrDecode, rm)
  | Some (refs, ids) =>
      let rm := {| refCountMap := refs; idMap := ids |} in
      (* the source now replaces a nil map in the temporary struct, not in [rm] *)
      (None, rm)
  end.
End counter.
Arguments Counter Key {O EqDecision0 H}.
Arguments refCountMap {Key O EqDecision0 H}.
Arguments idMap {Key O EqDecision0 H}.

(** ** Sequences of operations

    Each operation comes with the callbacks as they behave during that operation. *)
Section proofs.
Context {Key I O : Type} `{Countable Key} `{EqDecision O} (zeroO : O).
Implicit Types rm : Counter Key (O:=O).

Inductive op :=
| OIncrement (add : Key → I → add_res O) (k : Key) (i : I)
| OIncrementWithID (add : Key → I → add_res O) (id : string) (k : Key) (i : I)
| ODecrement (remove : Key → O → bool) (k : Key)
| ODecrementWithID (remove : Key → O → bool) (id : string)
| OFlush (remove : Key → O → bool).

Definition exec (x : op) rm : outcome Empty_set (Counter Key (O:=O) * list (call_t Key O)) :=
  match x with
  | OIncrement add k i => '(_, _, rm, cs) ← Increment zeroO add k i rm; Ret (rm, cs)
  | OIncrementWithID add id k i => '(_, _, rm, cs) ← IncrementWithID zeroO add id k i rm; Ret (rm, cs)
  | ODecrement remove k => '(_, _, rm, cs) ← Decrement zeroO remove k rm; Ret (rm, cs)
  | ODecrementWithID remove id => '(_, rm, cs) ← DecrementWithID zeroO remove id rm; Ret (rm, cs)
  | OFlush remove => let '(_, rm, cs) := Flush remove rm in Ret (rm, cs)
  end.

Fixpoint run (xs : list op) rm : outcome Empty_set (Counter Key (O:=O) * list (call_t Key O)) :=
  match xs with
  | [] => Ret (rm, [])
  | x :: xs => '(rm, cs) ← exec x rm; '(rm, cs') ← run xs rm; Ret (rm, cs ++ cs')
  end.

(** What the callbacks have installed, replayed from the invocations.  [None]: a key was
    added while installed, or removed while not installed, or with another [Out] than the
    one [AddFunc] returned. *)
Fixpoint replay (inst : gmap Key O) (cs : list (call_t Key O)) : option (gmap Key O) :=
  match cs with
  | [] => Some inst
  | CallAdd k r :: cs =>
      match inst !! k with
      | Some _ => None
      | None => replay (match r with AddOk o => <[k := o]> inst | _ => inst end) cs
      end
  | CallRemove k o ok :: cs =>
      if decide (inst !! k = Some o) then replay (if ok then delete k inst else inst) cs else None
  end.

Definition outs rm : gmap Key O := Out <$> default ∅ (refCountMap rm).

Definition WF rm : Prop :=
  (∃ m, refCountMap rm = Some m ∧ map_Forall (λ _ r, 1 ≤ Count r) m) ∧ is_Some (idMap rm).

Lemma replay_app inst cs cs' : replay inst (cs ++ cs') = (replay inst cs ≫= λ i, replay i cs').
Proof.
  revert inst. induction cs as [|[k r|k o ok] cs IH]; intros inst; simpl; [done|..].
  - by destruct (inst !! k).
  - by case_decide.
Qed.

Lemma increment_spec (add : Key → I → add_res O) k i rm :
  WF rm → ∃ ref err rm' cs, increment zeroO add k i rm = Ret (ref, err, rm', cs)
    ∧ WF rm' ∧ replay (outs rm) cs = Some (outs rm') ∧ idMap rm' = idMap rm.
Proof.
  intros [(m & Hm & Hc) Hid]. unfold increment, lookup_ref, write_ref, outs. rewrite Hm. simpl.
  destruct (m !! k) as [r|] eqn:Hk; simpl.
  - pose proof (Hc _ _ Hk) as Hr. simpl in Hr. rewrite (proj2 (Z.eqb_neq _ _)) by lia. simpl.
    eexists _, _, _, _. split; [done|]. split; [|split; [|done]].
    + split; [|done]. eexists. split; [done|]. apply map_Forall_insert_2; [simpl; lia|done].
    + simpl. f_equal. rewrite fmap_insert. simpl. rewrite insert_id; [done|]. by rewrite lookup_fmap, Hk.
  - assert (Hnone : (Out <$> m : gmap Key O) !! k = None) by (by rewrite lookup_fmap, Hk).
    destruct (add k i) as [o| |]; simpl; eexists _, _, _, _; (split; [done|]); simpl; rewrite Hnone.
    + split; [|split; [by rewrite fmap_insert|done]]. split; [|done].
      eexists. split; [done|]. apply map_Forall_insert_2; [simpl; lia|done].
    + split; [by split; [exists m|]|]. by rewrite Hm.
    + split; [by split; [exists m|]|]. by rewrite Hm.
Qed.

Lemma decrement_spec remove k rm :
  WF rm → ∃ ref err rm' cs, decrement zeroO remove k rm = Ret (ref, err, rm', cs)
    ∧ WF rm' ∧ replay (outs rm) cs = Some (outs rm') ∧ idMap rm' = idMap rm.
Proof.
  intros [(m & Hm & Hc) Hid]. unfold decrement, lookup_ref, write_ref, outs. rewrite Hm. simpl.
  destruct (m !! k) as [r|] eqn:Hk; simpl.
  - pose proof (Hc _ _ Hk) as Hr. simpl in Hr.
    assert (Hin : (Out <$> m : gmap Key O) !! k = Some (Out r)) by (by rewrite lookup_fmap, Hk).
    destruct (Z.eqb_spec (Count r) 1).
    + destruct (remove k (Out r)); eexists _, _, _, _; (split; [done|]); simpl;
        rewrite decide_True by done.
      * split; [|by rewrite fmap_delete]. split; [|done]. eexists. split; [done|].
        by apply map_Forall_delete.
      * rewrite Hm. by split; [split; [exists m|]|].
    + simpl. eexists _, _, _, _. split; [done|]. split; [|split; [|done]].
      * split; [|done]. eexists. split; [done|]. apply map_Forall_insert_2; [simpl; lia|done].
      * simpl. f_equal. rewrite fmap_insert. simpl. rewrite insert_id; [done|]. by rewrite lookup_fmap, Hk.
  - eexists _, _, _, _. split; [done|]. split; [by split; [exists m|]|]. by rewrite Hm.
Qed.

Lemma decrement_all_spec remove ks rm :
  WF rm → ∃ errs rm' cs, decrement_all zeroO remove ks rm = Ret (errs, rm', cs)
    ∧ WF rm' ∧ replay (outs rm) cs = Some (outs rm') ∧ idMap rm' = idMap rm.
Proof.
  revert rm. induction ks as [|k ks IH]; intros rm Hwf; [by eexists _, _, _|].
  cbn [decrement_all]. destruct (decrement_spec remove k rm Hwf) as (ref & err & rm1 & cs & -> & Hwf1 & Hr & Hi).
  rewrite bind_ret_l. destruct (IH rm1 Hwf1) as (errs & rm2 & cs' & -> & ? & Hr2 & Hi2).
  rewrite bind_ret_l. eexists _, _, _. split; [done|]. split; [done|]. split; [|congruence].
  by rewrite replay_app, Hr.
Qed.

Lemma replay_flush (remove : Key → O → bool) (l : list (Key * Ref O)) :
  (∀ k o, remove k o = true) → NoDup l.*1 →
  replay (Out <$> (list_to_map l : gmap Key (Ref O)))
    ((λ p, CallRemove p.1 (Out p.2) (remove p.1 (Out p.2))) <$> l) = Some ∅.
Proof.
  intros Hok. induction l as [|[k r] l IH]; [intros; simpl; by rewrite fmap_empty|].
  rewrite fmap_cons, NoDup_cons. intros [Hk Hnd]. cbn [fmap list_fmap replay fst snd list_to_map foldr curry].
  rewrite fmap_insert, decide_True by apply lookup_insert_eq.
  rewrite Hok, delete_insert_id; [by apply IH|].
  rewrite lookup_fmap. apply fmap_None. by apply not_elem_of_list_to_map.
Qed.

(** A flush whose [RemoveFunc] fails forgets keys that stay installed. *)
Definition flush_succeeds (x : op) : Prop :=
  match x with OFlush remove => ∀ k o, remove k o = true | _ => True end.

Lemma exec_spec x rm :
  WF rm → flush_succeeds x →
  ∃ rm' cs, exec x rm = Ret (rm', cs) ∧ WF rm' ∧ replay (outs rm) cs = Some (outs rm').
Proof.
  intros Hwf Hfl. destruct x as [add k i|add id k i|remove k|remove id|remove]; cbn [exec].
  - unfold Increment. destruct (increment_spec add k i rm Hwf) as (? & ? & ? & ? & -> & ? & ? & _). eauto.
  - unfold IncrementWithID. destruct (increment_spec add k i rm Hwf) as (? & err & rm1 & ? & -> & Hwf1 & ? & _).
    rewrite bind_ret_l. destruct err; [rewrite bind_ret_l; eauto|].
    pose proof Hwf1 as [? [m Hm]]. rewrite Hm. rewrite bind_ret_l. eexists _, _. split; [done|].
    by split; [split|].
  - unfold Decrement. destruct (decrement_spec remove k rm Hwf) as (? & ? & ? & ? & -> & ? & ? & _). eauto.
  - unfold DecrementWithID.
    destruct (decrement_all_spec remove (default [] (idMap rm ≫= (.!! id))) rm Hwf)
      as (? & rm1 & ? & -> & Hwf1 & ? & _).
    rewrite !bind_ret_l. eexists _, _. split; [done|]. split; [|done].
    destruct Hwf1 as [? [m Hm]]. split; [done|]. simpl. by rewrite Hm.
  - eexists _, _. split; [done|]. destruct Hwf as [(m & Hm & _) [im Him]].
    split; [split; simpl; rewrite ?Hm, ?Him; [by eexists|done]|].
    unfold outs. simpl. rewrite Hm. simpl. rewrite fmap_empty, <-(list_to_map_to_list m) at 1.
    apply replay_flush; [done|]. apply NoDup_fst_map_to_list.
Qed.

(** Over any sequence of operations, with callbacks that fail or ignore at will, the
    counter never panics, and its callbacks are properly bracketed: [AddFunc] is invoked
    only for keys that are not installed, [RemoveFunc] only for installed keys, with the
    [Out] their [AddFunc] returned; and the counter's keys are exactly the installed ones,
    each with a positive count. *)
Theorem callbacks_bracketed xs :
  Forall flush_succeeds xs →
  ∃ rm cs, run xs New = Ret (rm, cs) ∧ replay ∅ cs = Some (outs rm)
    ∧ ∀ k r, lookup_ref k rm = Some r → 1 ≤ Count r.
Proof.
  intros Hfl.
  enough (Hg : ∀ rm, WF rm → ∃ rm' cs, run xs rm = Ret (rm', cs) ∧ WF rm' ∧ replay (outs rm) cs = Some (outs rm')).
  { destruct (Hg New) as (rm & cs & ? & Hwf & Hr).
    - split; [|done]. by exists ∅.
    - exists rm, cs. split; [done|]. split.
      + unfold outs in Hr at 1. simpl in Hr. by rewrite fmap_empty in Hr.
      + destruct Hwf as [(m & Hm & Hc) _]. unfold lookup_ref. rewrite Hm. simpl. apply Hc. }
  induction Hfl as [|x xs Hx _ IH]; intros rm Hwf; [by exists rm, []|].
  cbn [run]. destruct (exec_spec x rm Hwf Hx) as (rm1 & cs & -> & Hwf1 & Hr). rewrite bind_ret_l.
  destruct (IH rm1 Hwf1) as (rm2 & cs' & -> & ? & Hr2). rewrite bind_ret_l.
  eexists _, _. split; [done|]. split; [done|]. by rewrite replay_app, Hr.
Qed.

(** ** References held by IDs *)
Definition occurrences (k : Key) (l : list Key) : Z := Z.of_nat (length (filter (k =.) l)).
Definition held (k : Key) (m : gmap string (list Key)) : Z :=
  map_fold (λ _ l n, occurrences k l + n) 0 m.
Definition count_of (k : Key) rm : Z := default 0 (Count <$> lookup_ref k rm).

Lemma held_delete k m id :
  held k m = occurrences k (default [] (m !! id)) + held k (delete id m).
Proof.
  unfold held. destruct (m !! id) as [l|] eqn:Hl.
  - rewrite (map_fold_delete_L _ _ id l) by (done || intros; lia). done.
  - by rewrite delete_id.
Qed.

Lemma held_insert k m id l : held k (<[id := l]> m) = occurrences k l + held k (delete id m).
Proof.
  rewrite (held_delete k (<[id := l]> m) id), lookup_insert_eq. simpl.
  by rewrite delete_insert_eq.
Qed.

Lemma occurrences_cons k k' l :
  occurrences k (k' :: l) = (if decide (k = k') then 1 else 0) + occurrences k l.
Proof. unfold occurrences. rewrite filter_cons. case_decide; simpl; lia. Qed.

Lemma occurrences_snoc k k' l :
  occurrences k (l ++ [k']) = occurrences k l + (if decide (k = k') then 1 else 0).
Proof. unfold occurrences. rewrite filter_app, length_app, filter_cons. case_decide; simpl; lia. Qed.

Lemma held_nonneg k m : 0 ≤ held k m.
Proof.
  unfold held. apply (map_fold_weak_ind (λ n _, 0 ≤ n)); [done|].
  intros id l m' n _ Hn. unfold occurrences. lia.
Qed.

Lemma count_of_eq k rm m : refCountMap rm = Some m → count_of k rm = default 0 (Count <$> m !! k).
Proof. intros Hm. unfold count_of, lookup_ref. by rewrite Hm. Qed.

Lemma increment_count (add : Key → I → add_res O) k i rm ref err rm' cs :
  WF rm → (∀ k i, add k i ≠ AddIgnore) → increment zeroO add k i rm = Ret (ref, err, rm', cs) →
  match err with
  | Some _ => rm' = rm
  | None => ∀ k', count_of k' rm' = count_of k' rm + (if decide (k' = k) then 1 else 0)
  end.
Proof.
  intros [(m & Hm & Hc) Hid] Hadd. unfold increment, lookup_ref, write_ref. rewrite Hm. simpl.
  assert (Hpost : ∀ r, Count r = default 0 (Count <$> m !! k) + 1 →
    ∀ k', count_of k' (set_refs (Some (<[k := r]> m)) rm)
          = count_of k' rm + (if decide (k' = k) then 1 else 0)).
  { intros r Hr k'. rewrite (count_of_eq k' rm m Hm), (count_of_eq _ _ (<[k:=r]> m)) by done.
    destruct (decide (k' = k)) as [->|]; [rewrite lookup_insert_eq; simpl; lia|].
    rewrite lookup_insert_ne by done. lia. }
  destruct (m !! k) as [r|] eqn:Hk; simpl.
  - pose proof (Hc _ _ Hk) as Hr. simpl in Hr. rewrite (proj2 (Z.eqb_neq _ _)) by lia. simpl.
    intros [= <- <- <- <-]. apply Hpost. done.
  - specialize (Hadd k i). destruct (add k i); [|done|]; intros [= <- <- <- <-]; [|done].
    apply Hpost. done.
Qed.

Lemma decrement_count (remove : Key → O → bool) k rm ref err rm' cs :
  WF rm → (∀ k o, remove k o = true) → decrement zeroO remove k rm = Ret (ref, err, rm', cs) →
  ∀ k', count_of k' rm' = if decide (k' = k) then Z.max 0 (count_of k' rm - 1) else count_of k' rm.
Proof.
  intros [(m & Hm & Hc) Hid] Hrem. unfold decrement, lookup_ref, write_ref. rewrite Hm. simpl.
  intros Hd k'. rewrite (count_of_eq k' rm m Hm). destruct (m !! k) as [r|] eqn:Hk; simpl in Hd.
  - pose proof (Hc _ _ Hk) as Hr. simpl in Hr. rewrite Hrem in Hd.
    destruct (Z.eqb_spec (Count r) 1); injection Hd as <- <- <- <-;
      (erewrite count_of_eq; [|done]); destruct (decide (k' = k)) as [->|];
      rewrite ?lookup_delete_eq, ?lookup_delete_ne, ?lookup_insert_eq, ?lookup_insert_ne by done;
      rewrite ?Hk; simpl; lia.
  - injection Hd as <- <- <- <-. rewrite (count_of_eq k' rm m Hm).
    destruct (decide (k' = k)) as [->|]; [|done]. by rewrite Hk.
Qed.

Lemma decrement_all_count (remove : Key → O → bool) ks rm errs rm' cs :
  WF rm → (∀ k o, remove k o = true) → (∀ k, occurrences k ks ≤ count_of k rm) →
  decrement_all zeroO remove ks rm = Ret (errs, rm', cs) →
  ∀ k, count_of k rm' = count_of k rm - occurrences k ks.
Proof.
  intros Hwf Hrem. revert rm errs cs Hwf. induction ks as [|k0 ks IH]; intros rm errs cs Hwf Hocc Hd k.
  - cbn in Hd. injection Hd as <- <- <-. unfold occurrences. simpl. lia.
  - cbn [decrement_all] in Hd.
    destruct (decrement_spec remove k0 rm Hwf) as (ref & err & rm1 & c1 & Hd1 & Hwf1 & _).
    pose proof (decrement_count remove k0 rm ref err rm1 c1 Hwf Hrem Hd1) as Hc1.
    rewrite Hd1, bind_ret_l in Hd.
    destruct (decrement_all_spec remove ks rm1 Hwf1) as (errs2 & rm2 & c2 & Hd2 & _).
    rewrite Hd2, bind_ret_l in Hd. injection Hd as <- <- <-.
    assert (Hge : ∀ k, 0 ≤ occurrences k ks) by (intros; unfold occurrences; lia).
    rewrite (IH rm1 errs2 c2 Hwf1) by
      (done || (intros k1; specialize (Hocc k1); rewrite occurrences_cons in Hocc; rewrite Hc1;
                specialize (Hge k1); case_decide; lia)).
    rewrite Hc1. specialize (Hocc k). rewrite occurrences_cons in *. specialize (Hge k).
    case_decide; lia.
Qed.

(** The grouped interface, with callbacks that may fail to add but do not ignore. *)
Definition id_op (x : op) : Prop :=
  match x with
  | OIncrementWithID add _ _ _ => ∀ k i, add k i ≠ AddIgnore
  | ODecrementWithID remove _ => ∀ k o, remove k o = true
  | _ => False
  end.

Definition balanced rm : Prop :=
  WF rm ∧ ∃ im, idMap rm = Some im ∧ ∀ k, count_of k rm = held k im.

Lemma exec_balanced x rm :
  balanced rm → id_op x → ∃ rm' cs, exec x rm = Ret (rm', cs) ∧ balanced rm'.
Proof.
  intros [Hwf (im & Him & Hbal)] Hx. destruct x as [|add id k i| |remove id|]; try done; cbn [exec].
  - unfold IncrementWithID.
    destruct (increment_spec add k i rm Hwf) as (ref & err & rm1 & cs & Hi & Hwf1 & _ & Hid1).
    pose proof (increment_count add k i rm ref err rm1 cs Hwf Hx Hi) as Hc. rewrite Hi, bind_ret_l.
    destruct err as [e|]; [subst rm1; rewrite bind_ret_l; eexists _, _; split; [done|]; split; eauto|].
    rewrite Hid1, Him, bind_ret_l. eexists _, _. split; [done|]. split.
    { destruct Hwf1 as [? _]. by split. }
    eexists. split; [done|]. intros k'. rewrite held_insert, occurrences_snoc.
    change (count_of k' (set_ids _ rm1)) with (count_of k' rm1).
    rewrite Hc, Hbal, (held_delete k' im id). case_decide; lia.
  - unfold DecrementWithID. rewrite Him. simpl.
    destruct (decrement_all_spec remove (default [] (im !! id)) rm Hwf)
      as (errs & rm1 & cs & Hd & Hwf1 & _ & Hid1).
    assert (Hocc : ∀ k, occurrences k (default [] (im !! id)) ≤ count_of k rm).
    { intros k. rewrite Hbal, (held_delete k im id). pose proof (held_nonneg k (delete id im)). lia. }
    pose proof (decrement_all_count remove _ rm errs rm1 cs Hwf Hx Hocc Hd) as Hc.
    rewrite Hd, !bind_ret_l. eexists _, _. split; [done|]. split.
    { destruct Hwf1 as [? _]. split; [done|]. simpl. by rewrite Hid1, Him. }
    eexists. split; [simpl; by rewrite Hid1, Him|]. intros k.
    change (count_of k (set_ids _ rm1)) with (count_of k rm1).
    rewrite Hc, Hbal, (held_delete k im id). lia.
Qed.

(** When references are taken and dropped by ID, and [AddFunc] does not answer
    [ErrIgnore], the count of a key is at all times the number of references the IDs
    hold to it: dropping one ID never releases a reference of another, and a key is
    forgotten when, and only when, the last ID that references it goes. *)
Theorem id_references_balanced xs :
  Forall id_op xs →
  ∃ rm cs im, run xs New = Ret (rm, cs) ∧ idMap rm = Some im
    ∧ (∀ k, count_of k rm = held k im)
    ∧ (∀ k, lookup_ref k rm = None ↔ held k im = 0).
Proof.
  intros Hxs.
  enough (Hg : ∀ rm, balanced rm → ∃ rm' cs, run xs rm = Ret (rm', cs) ∧ balanced rm').
  { destruct (Hg New) as (rm & cs & Hr & Hwf & im & Him & Hbal).
    - split; [split; [by exists ∅|done]|]. exists ∅. split; [done|]. intros k. reflexivity.
    - exists rm, cs, im. split_and!; try done. intros k. rewrite <-Hbal.
      destruct Hwf as [(m & Hm & Hc) _]. unfold count_of, lookup_ref. rewrite Hm. simpl.
      destruct (m !! k) as [r|] eqn:Hk; simpl; [|done]. pose proof (Hc _ _ Hk) as Hr1. simpl in Hr1.
      split; [done|lia]. }
  induction Hxs as [|x xs Hx _ IH]; intros rm Hb; [by exists rm, []|].
  cbn [run]. destruct (exec_balanced x rm Hb Hx) as (rm1 & cs & -> & Hb1). rewrite bind_ret_l.
  destruct (IH rm1 Hb1) as (rm2 & cs' & -> & ?). rewrite bind_ret_l. eauto.
Qed.

(** An ignored increment still files the key under its ID.  When the same key is
    later added for another ID, dropping the first ID removes the key although the
    second still references it. *)
Theorem ignored_increment_steals_reference (add_ignore add_ok : Key → I → add_res O)
    (remove : Key → O → bool) a b k i o :
  a ≠ b → add_ignore k i = AddIgnore → add_ok k i = AddOk o → remove k o = true →
  ∃ rm cs, run [OIncrementWithID add_ignore a k i; OIncrementWithID add_ok b k i;
                ODecrementWithID remove a] New = Ret (rm, cs)
    ∧ lookup_ref k rm = None ∧ idMap rm = Some {[ b := [k] ]}
    ∧ cs = [CallAdd k AddIgnore; CallAdd k (AddOk o); CallRemove k o true].
Proof.
  intros Hab Hi Ho Hr. cbn [run exec].
  unfold IncrementWithID, increment, lookup_ref, write_ref. simpl. rewrite lookup_empty. simpl.
  rewrite Hi. simpl. rewrite lookup_empty. simpl. rewrite Ho. simpl.
  rewrite !lookup_insert_ne, lookup_empty by done. simpl.
  unfold DecrementWithID. simpl. rewrite ?lookup_empty. simpl.
  rewrite lookup_insert_ne, lookup_insert_eq by done. simpl.
  unfold decrement, lookup_ref. simpl. rewrite lookup_insert_eq. simpl. rewrite Hr. simpl.
  eexists _, _. split; [reflexivity|]. simpl. split_and!; try done.
  - by rewrite delete_insert_eq, lookup_delete_eq.
  - do 2 f_equal. rewrite delete_insert_ne by done. by rewrite delete_insert_id by apply lookup_empty.
Qed.

(** Restoring a counter from JSON in which a field is missing leaves a nil map
    behind (the replacement is made on the temporary), and the first successful
    increment panics. *)
Theorem unmarshal_null_then_increment_panics (add : Key → I → add_res O) rm0 ids k i o :
  add k i = AddOk o →
  let '(err, rm) := UnmarshalJSON (Some (None, ids)) rm0 in
  err = None ∧ Increment zeroO add k i rm = Panic.
Proof. intros Ha. simpl. split; [done|]. unfold Increment, increment. simpl. by rewrite Ha. Qed.
End proofs.

(** ** Witnesses *)
Definition ok_add (k : string) (i : unit) : add_res nat := AddOk 7%nat.
Definition ignore_add (k : string) (i : unit) : add_res nat := AddIgnore.
Definition ok_remove (k : string) (o : nat) : bool := true.
Definition session : list (op (Key:=string) (I:=unit) (O:=nat)) :=
  [OIncrementWithID ok_add "a" "10.0.0.0/8" tt; OIncrementWithID ok_add "b" "10.0.0.0/8" tt;
   ODecrementWithID ok_remove "a"].

Lemma callbacks_bracketed_witness :
  ∃ rm cs, run 0%nat session New = Ret (rm, cs) ∧ replay ∅ cs = Some (outs rm).
Proof.
  destruct (callbacks_bracketed 0%nat session) as (rm & cs & Hr & Hp & _); [by repeat constructor|].
  by exists rm, cs.
Defined.

Lemma id_references_balanced_witness :
  ∃ rm cs im, run 0%nat session New = Ret (rm, cs) ∧ idMap rm = Some im
    ∧ count_of "10.0.0.0/8" rm = held "10.0.0.0/8" im.
Proof.
  destruct (id_references_balanced 0%nat session) as (rm & cs & im & Hr & Hi & Hc & _).
  { repeat constructor; done. }
  exists rm, cs, im. split; [exact Hr|]. split; [exact Hi|]. apply Hc.
Defined.

Lemma ignored_increment_steals_reference_witness :
  ∃ rm cs, run 0%nat [OIncrementWithID ignore_add "a" "k" tt; OIncrementWithID ok_add "b" "k" tt;
                      ODecrementWithID ok_remove "a"] New = Ret (rm, cs)
    ∧ lookup_ref "k" rm = None ∧ idMap rm = Some {[ "b" := ["k"] ]}.
Proof.
  destruct (ignored_increment_steals_reference 0%nat ignore_add ok_add ok_remove "a" "b" "k" tt 7%nat)
    as (rm & cs & ? & ? & ? & _); [done..|]. by exists rm, cs.
Defined.

Lemma unmarshal_null_then_increment_panics_witness :
  let rm0 : Counter string := New in
  (UnmarshalJSON (Some (None, Some ∅)) rm0).1 = None
  ∧ Increment 0%nat ok_add "k" tt (UnmarshalJSON (Some (None, Some ∅)) rm0).2 = Panic.
Proof.
  exact (unmarshal_null_then_increment_panics 0%nat ok_add New (Some ∅) "k" tt 7%nat eq_refl).
Defined.
