(* ===== verification/RouteSelector.v ===== *)
(** The client's route selection:
    [src/client/internal/routeselector/routeselector.go], with [HAUniqueID.NetID] of
    [src/route/hauniqueid.go].

    A Go map used as a set is a [gset], and nil is [None]: reading a nil map finds
    nothing, writing one panics.  The mutex makes every method atomic.  Of a route the
    selector reads the network and the [SkipAutoApply] flag. *)
From Stdlib.Strings Require Import Ascii.
From S2P Require Import Prelude.

Definition haSeparator : ascii := "|"%char.

(** [id[:strings.LastIndex(id, haSeparator)]], when there is one. *)
Fixpoint before_last (s : string) : option string :=
  match s with
  | EmptyString => None
  | String c s =>
      match before_last s with
      | Some p => Some (String c p)
      | None => if bool_decide (c = haSeparator) then Some "" else None
      end
  end.

Definition NetID (id : string) : string := default id (before_last id).

Record Route := { r_ID : string; r_Network : string; SkipAutoApply : bool }.

Abbreviation HAMap := (gmap string (list Route)).

Record RouteSelector := {
  deselectedRoutes : option (gset string);
  selectedRoutes : option (gset string);
  deselectAll : bool;
}.

Abbreviation result := (outcome Empty_set).

Definition NewRouteSelector : RouteSelector :=
  {| deselectedRoutes := Some ∅; selectedRoutes := Some ∅; deselectAll := false |}.

Definition has (r : string) (m : option (gset string)) : bool :=
  match m with Some s => bool_decide (r ∈ s) | None => false end.

Definition write (r : string) (m : option (gset string)) : result (option (gset string)) :=
  match m with Some s => Ret (Some ({[ r ]} ∪ s)) | None => Panic end.

Definition remove (r : string) (m : option (gset string)) : option (gset string) :=
  (λ s, s ∖ {[ r ]}) <$> m.

Fixpoint select_loop (routes allRoutes : list string) (rs : RouteSelector)
    : result (list string * RouteSelector) :=
  match routes with
  | [] => Ret ([], rs)
  | r :: routes =>
      if bool_decide (r ∈ allRoutes) then
        sel ← write r (selectedRoutes rs);
        select_loop routes allRoutes
          {| deselectedRoutes := remove r (deselectedRoutes rs); selectedRoutes := sel;
             deselectAll := deselectAll rs |}
      else
        '(errs, rs) ← select_loop routes allRoutes rs; Ret (r :: errs, rs)
  end.

(** The errors are the routes that are not available. *)
Definition SelectRoutes (routes : list string) (appendRoute : bool) (allRoutes : list string)
    (rs : RouteSelector) : result (list string * RouteSelector) :=
  let rs :=
    if negb appendRoute || deselectAll rs
    then {| deselectedRoutes := Some (list_to_set allRoutes); selectedRoutes := Some ∅;
            deselectAll := deselectAll rs |}
    else rs in
  '(errs, rs) ← select_loop routes allRoutes rs;
  Ret (errs, {| deselectedRoutes := deselectedRoutes rs; selectedRoutes := selectedRoutes rs;
                deselectAll := false |}).

Definition SelectAllRoutes (rs : RouteSelector) : RouteSelector :=
  {| deselectedRoutes := Some ∅; selectedRoutes := Some ∅; deselectAll := false |}.

Fixpoint deselect_loop (routes allRoutes : list string) (rs : RouteSelector)
    : result (list string * RouteSelector) :=
  match routes with
  | [] => Ret ([], rs)
  | r :: routes =>
      if bool_decide (r ∈ allRoutes) then
        des ← write r (deselectedRoutes rs);
        deselect_loop routes allRoutes
          {| deselectedRoutes := des; selectedRoutes := remove r (selectedRoutes rs);
             deselectAll := deselectAll rs |}
      else
        '(errs, rs) ← deselect_loop routes allRoutes rs; Ret (r :: errs, rs)
  end.

Definition DeselectRoutes (routes allRoutes : list string) (rs : RouteSelector)
    : result (list string * RouteSelector) :=
  if deselectAll rs then Ret ([], rs) else deselect_loop routes allRoutes rs.

Definition DeselectAllRoutes (rs : RouteSelector) : RouteSelector :=
  {| deselectedRoutes := Some ∅; selectedRoutes := Some ∅; deselectAll := true |}.

Definition IsSelected (routeID : string) (rs : RouteSelector) : bool :=
  if deselectAll rs then false else negb (has routeID (deselectedRoutes rs)).

Definition FilterSelected (routes : HAMap) (rs : RouteSelector) : HAMap :=
  if deselectAll rs then ∅
  else filter (λ p, has (NetID p.1) (deselectedRoutes rs) = false) routes.

Definition HasUserSelectionForRoute (routeID : string) (rs : RouteSelector) : bool :=
  has routeID (selectedRoutes rs) || has routeID (deselectedRoutes rs).

Definition isDeselected (netID : string) (rs : RouteSelector) : bool :=
  has netID (deselectedRoutes rs) || deselectAll rs.

Definition exitNodeCIDR : string := "0.0.0.0/0".

Definition isExitNode (rt : list Route) : bool :=
  match rt with [] => false | r :: _ => bool_decide (r_Network r = exitNodeCIDR) end.

Definition hasUserSelections (rs : RouteSelector) : bool :=
  bool_decide (0 < size (default ∅ (selectedRoutes rs)))
  || bool_decide (0 < size (default ∅ (deselectedRoutes rs))).

Definition collectSelected (rt : list Route) : list Route :=
  filter (λ r, SkipAutoApply r = false) rt.

(** What the filter puts into the output for one entry, if anything. *)
Definition applyExitNodeFilter (netID : string) (rt : list Route) (rs : RouteSelector)
    : option (list Route) :=
  if hasUserSelections rs then
    if IsSelected netID rs then Some rt else None
  else
    let sel := collectSelected rt in
    if bool_decide (0 < length sel) then Some sel else None.

Definition FilterSelectedExitNodes (routes : HAMap) (rs : RouteSelector) : HAMap :=
  if deselectAll rs then ∅
  else
    map_imap (λ id rt,
      let netID := NetID id in
      if isDeselected netID rs then None
      else if negb (isExitNode rt) then Some rt
      else applyExitNodeFilter netID rt rs) routes.

(** *** JSON

    [encoding/json] on the wire struct is a parameter. *)
Record wire := { w_selected : option (gset string); w_deselected : option (gset string); w_all : bool }.

Section json.
Context (json_Marshal : wire → string) (json_Unmarshal : string → option wire).

Definition MarshalJSON (rs : RouteSelector) : string :=
  json_Marshal {| w_selected := selectedRoutes rs; w_deselected := deselectedRoutes rs;
                  w_all := deselectAll rs |}.

Definition UnmarshalJSON (data : string) (rs : RouteSelector) : option RouteSelector :=
  if bool_decide (data = "" ∨ data = "null") then Some NewRouteSelector
  else
    match json_Unmarshal data with
    | None => None
    | Some t =>
        Some {| selectedRoutes := Some (default ∅ (w_selected t));
                deselectedRoutes := Some (default ∅ (w_deselected t));
                deselectAll := w_all t |}
    end.
End json.

(** ** The invariant and the operations *)
Definition sel_of (s d : gset string) (all : bool) : RouteSelector :=
  {| deselectedRoutes := Some d; selectedRoutes := Some s; deselectAll := all |}.

Definition WF (rs : RouteSelector) : Prop := ∃ s d, rs = sel_of s d (deselectAll rs) ∧ s ## d.

Definition available (routes allRoutes : list string) : list string := filter (.∈ allRoutes) routes.
Definition unavailable (routes allRoutes : list string) : list string := filter (.∉ allRoutes) routes.

Lemma select_loop_spec routes allRoutes s d b :
  select_loop routes allRoutes (sel_of s d b)
  = Ret (unavailable routes allRoutes,
         sel_of (list_to_set (available routes allRoutes) ∪ s)
                (d ∖ list_to_set (available routes allRoutes)) b).
Proof.
  revert s d. induction routes as [|r routes IH]; intros s d; cbn [select_loop].
  { do 2 f_equal. unfold sel_of. do 2 f_equal; set_solver. }
  unfold available, unavailable in *. case_bool_decide as Hr.
  - rewrite (filter_cons_True (.∈ allRoutes)), (filter_cons_False (.∉ allRoutes)) by tauto.
    etrans; [apply IH|]. do 2 f_equal. unfold sel_of. do 2 f_equal; set_solver.
  - rewrite (filter_cons_False (.∈ allRoutes)), (filter_cons_True (.∉ allRoutes)) by done.
    by rewrite IH.
Qed.

Lemma deselect_loop_spec routes allRoutes s d b :
  deselect_loop routes allRoutes (sel_of s d b)
  = Ret (unavailable routes allRoutes,
         sel_of (s ∖ list_to_set (available routes allRoutes))
                (list_to_set (available routes allRoutes) ∪ d) b).
Proof.
  revert s d. induction routes as [|r routes IH]; intros s d; cbn [deselect_loop].
  { do 2 f_equal. unfold sel_of. do 2 f_equal; set_solver. }
  unfold available, unavailable in *. case_bool_decide as Hr.
  - rewrite (filter_cons_True (.∈ allRoutes)), (filter_cons_False (.∉ allRoutes)) by tauto.
    etrans; [apply IH|]. do 2 f_equal. unfold sel_of. do 2 f_equal; set_solver.
  - rewrite (filter_cons_False (.∈ allRoutes)), (filter_cons_True (.∉ allRoutes)) by done.
    by rewrite IH.
Qed.

Lemma IsSelected_sel_of r s d : IsSelected r (sel_of s d false) = bool_decide (r ∉ d).
Proof. unfold IsSelected. simpl. by rewrite bool_decide_not. Qed.

Lemma elem_available r routes allRoutes : r ∈ available routes allRoutes ↔ r ∈ routes ∧ r ∈ allRoutes.
Proof. unfold available. rewrite list_elem_of_filter. tauto. Qed.

(** Selecting routes selects the requested routes that exist and reports the others;
    without [append] (or after "deselect all") every other known route becomes
    deselected, with [append] the other routes keep their state; a route nobody has
    mentioned stays selected by default.  The two sets stay disjoint. *)
Theorem select_routes_spec routes app allRoutes rs :
  WF rs →
  ∃ rs', SelectRoutes routes app allRoutes rs = Ret (unavailable routes allRoutes, rs')
    ∧ WF rs' ∧ deselectAll rs' = false
    ∧ ∀ r, IsSelected r rs'
           = if bool_decide (r ∈ routes ∧ r ∈ allRoutes) then true
             else if negb app || deselectAll rs then bool_decide (r ∉ allRoutes)
             else IsSelected r rs.
Proof.
  intros (s & d & Hrs & Hdis). rewrite Hrs. unfold SelectRoutes. cbn [deselectAll sel_of].
  assert (Hfin : ∀ s d b, s ## d → ∃ rs',
    ('(errs, rs) ← select_loop routes allRoutes (sel_of s d b);
     Ret (errs, {| deselectedRoutes := deselectedRoutes rs; selectedRoutes := selectedRoutes rs;
                   deselectAll := false |})) = (Ret (unavailable routes allRoutes, rs') : result _)
    ∧ WF rs' ∧ deselectAll rs' = false
    ∧ ∀ r, IsSelected r rs' = if bool_decide (r ∈ routes ∧ r ∈ allRoutes) then true
                              else bool_decide (r ∉ d)).
  { clear. intros s d b Hdis. rewrite select_loop_spec, bind_ret_l. eexists. split; [done|].
    split; [|split; [done|]].
    - eexists _, _. split; [done|]. set_solver.
    - intros r. unfold IsSelected. cbn [deselectAll deselectedRoutes sel_of has].
      rewrite <-bool_decide_not. rewrite (bool_decide_ext _ _ (symmetry (elem_available r routes allRoutes))).
      destruct (decide (r ∈ available routes allRoutes)) as [Hav|Hav];
        [rewrite (bool_decide_eq_true_2 (r ∈ available _ _)) by done
        |rewrite (bool_decide_eq_false_2 (r ∈ available _ _)) by done].
      + apply bool_decide_eq_true_2. rewrite elem_of_difference, elem_of_list_to_set. tauto.
      + apply bool_decide_ext. rewrite elem_of_difference, elem_of_list_to_set. tauto. }
  destruct (negb app || deselectAll rs) eqn:Hb.
  - destruct (Hfin ∅ (list_to_set allRoutes) (deselectAll rs)) as (rs' & Heq & Hwf & Hd & Hs); [set_solver|].
    exists rs'. split; [exact Heq|]. split; [done|]. split; [done|]. intros r. rewrite Hs.
    case_bool_decide; [done|]. apply bool_decide_ext. set_solver.
  - destruct (Hfin s d (deselectAll rs) Hdis) as (rs' & Heq & Hwf & Hd & Hs).
    exists rs'. split; [exact Heq|]. split; [done|]. split; [done|]. intros r. rewrite Hs.
    apply orb_false_iff in Hb as [_ ->]. by rewrite IsSelected_sel_of.
Qed.

(** Deselecting routes deselects exactly the requested routes that exist and reports
    the others; the rest keep their state, and while everything is deselected the call
    changes nothing. *)
Theorem deselect_routes_spec routes allRoutes rs :
  WF rs →
  ∃ rs', DeselectRoutes routes allRoutes rs
         = Ret (if deselectAll rs then [] else unavailable routes allRoutes, rs')
    ∧ WF rs'
    ∧ ∀ r, IsSelected r rs'
           = IsSelected r rs && negb (bool_decide (r ∈ routes ∧ r ∈ allRoutes)).
Proof.
  intros (s & d & Hrs & Hdis). rewrite Hrs. unfold DeselectRoutes. cbn [deselectAll sel_of].
  destruct (deselectAll rs).
  - eexists. split; [done|]. split; [by eexists _, _|]. intros r. done.
  - rewrite deselect_loop_spec. eexists. split; [done|]. split; [eexists _, _; split; [done|]; set_solver|].
    intros r. rewrite !IsSelected_sel_of, <-bool_decide_not, <-bool_decide_and.
    apply bool_decide_ext. rewrite not_elem_of_union, elem_of_list_to_set, elem_available. tauto.
Qed.

(** ** Filtering *)
Lemma before_last_app p q : before_last q = None → before_last (p +:+ String haSeparator q) = Some p.
Proof.
  intros Hq. induction p as [|c p IH]; simpl; [by rewrite Hq|]. by rewrite IH.
Qed.

(** The network id comes back out of the key [GetHAUniqueID] builds from it (a printed
    network contains no separator). *)
Lemma NetID_roundtrip netID network :
  before_last network = None → NetID (netID +:+ String haSeparator network) = netID.
Proof. intros Hn. unfold NetID. by rewrite before_last_app. Qed.

Lemma has_IsSelected r rs : deselectAll rs = false → has r (deselectedRoutes rs) = negb (IsSelected r rs).
Proof. intros Hd. unfold IsSelected. by rewrite Hd, negb_involutive. Qed.

Lemma unique_route rt0 (P : list Route → Prop) :
  (∃ rt1, Some rt0 = Some rt1 ∧ true = true ∧ P rt1) ↔ P rt0.
Proof. naive_solver. Qed.

(** Both filters keep only entries whose network is selected.  [FilterSelected] keeps
    all of them; the exit-node filter also drops, as long as the user has made no
    selection at all, the exit-node routes that are not to be applied automatically, and
    an exit node of which nothing remains. *)
Theorem filters_spec routes rs id rt :
  (FilterSelected routes rs !! id = Some rt
   ↔ routes !! id = Some rt ∧ IsSelected (NetID id) rs = true)
  ∧ (FilterSelectedExitNodes routes rs !! id = Some rt
     ↔ ∃ rt0, routes !! id = Some rt0 ∧ IsSelected (NetID id) rs = true
         ∧ if isExitNode rt0 && negb (hasUserSelections rs)
           then rt = collectSelected rt0 ∧ rt ≠ [] else rt = rt0).
Proof.
  unfold FilterSelected, FilterSelectedExitNodes. destruct (deselectAll rs) eqn:Hd.
  { unfold IsSelected. rewrite Hd, lookup_empty. naive_solver. }
  split.
  - rewrite map_lookup_filter_Some. cbn [fst]. rewrite has_IsSelected by done. rewrite negb_false_iff. done.
  - rewrite map_lookup_imap. unfold isDeselected, applyExitNodeFilter.
    destruct (routes !! id) as [rt0|]; cbn [mbind option_bind]; [|naive_solver].
    rewrite Hd, orb_false_r, has_IsSelected by done.
    destruct (IsSelected (NetID id) rs); cbn [negb]; [|naive_solver].
    rewrite (unique_route rt0 (λ rt0, if isExitNode rt0 && negb (hasUserSelections rs)
      then rt = collectSelected rt0 ∧ rt ≠ [] else rt = rt0)).
    destruct (isExitNode rt0), (hasUserSelections rs); cbn [negb andb]; try naive_solver.
    cbv zeta. destruct (collectSelected rt0) as [|r0 sel] eqn:Hc; simpl; naive_solver.
Qed.

(** ** Persistence *)
Section persistence.
Context (json_Marshal : wire → string) (json_Unmarshal : string → option wire).

Definition wire_of (rs : RouteSelector) : wire :=
  {| w_selected := selectedRoutes rs; w_deselected := deselectedRoutes rs; w_all := deselectAll rs |}.

(** A selector survives a save and a load, and whatever is loaded (an empty file, a
    null document, missing fields) the sets are non-nil, so that the next selection
    cannot panic. *)
Theorem selector_persistence rs rs0 :
  WF rs → json_Unmarshal (json_Marshal (wire_of rs)) = Some (wire_of rs) →
  json_Marshal (wire_of rs) ≠ "" → json_Marshal (wire_of rs) ≠ "null" →
  UnmarshalJSON json_Unmarshal (MarshalJSON json_Marshal rs) rs0 = Some rs
  ∧ ∀ data rs1 routes app allRoutes, UnmarshalJSON json_Unmarshal data rs0 = Some rs1 →
      ∃ rs2, SelectRoutes routes app allRoutes rs1 = Ret (unavailable routes allRoutes, rs2).
Proof.
  intros (s & d & Hrs & _) Hj He Hn. unfold MarshalJSON, UnmarshalJSON. fold (wire_of rs). split.
  - rewrite bool_decide_eq_false_2 by naive_solver. rewrite Hj, Hrs. done.
  - intros data rs1 routes app allRoutes Hu.
    assert (∃ s d b, rs1 = sel_of s d b) as (s1 & d1 & b1 & ->).
    { case_bool_decide; [simplify_eq; by exists ∅, ∅, false|].
      destruct (json_Unmarshal data); [|done]. simplify_eq. by eexists _, _, _. }
    unfold SelectRoutes. cbn [deselectAll sel_of]. destruct (negb app || b1).
    + eexists. pose proof (select_loop_spec routes allRoutes ∅ (list_to_set allRoutes) b1) as Hl.
      unfold sel_of at 1 in Hl. rewrite Hl. done.
    + rewrite select_loop_spec, bind_ret_l. by eexists.
Qed.
End persistence.

(** ** Witnesses *)
Definition known : list string := ["a"; "b"; "exit"].

Lemma WF_New : WF NewRouteSelector.
Proof. exists ∅, ∅. split; [done|set_solver]. Qed.

Lemma select_routes_spec_witness :
  ∃ rs', SelectRoutes ["a"; "zz"] false known NewRouteSelector = Ret (["zz"], rs')
    ∧ IsSelected "a" rs' = true ∧ IsSelected "b" rs' = false.
Proof.
  destruct (select_routes_spec ["a"; "zz"] false known NewRouteSelector WF_New) as (rs' & Heq & _ & _ & Hs).
  exists rs'. split; [exact Heq|]. rewrite !Hs. split; reflexivity.
Defined.

Lemma deselect_routes_spec_witness :
  ∃ rs', DeselectRoutes ["b"; "zz"] known NewRouteSelector = Ret (["zz"], rs')
    ∧ IsSelected "a" rs' = true ∧ IsSelected "b" rs' = false.
Proof.
  destruct (deselect_routes_spec ["b"; "zz"] known NewRouteSelector WF_New) as (rs' & Heq & _ & Hs).
  exists rs'. split; [exact Heq|]. rewrite !Hs. split; reflexivity.
Defined.

Definition some_json (w : wire) : string := "{..}".
Definition read_json (s : string) : option wire := Some (wire_of NewRouteSelector).

Lemma selector_persistence_witness :
  UnmarshalJSON read_json (MarshalJSON some_json NewRouteSelector) NewRouteSelector = Some NewRouteSelector.
Proof. by apply (selector_persistence some_json read_json NewRouteSelector NewRouteSelector WF_New). Defined.
