(* ===== verification/GoText.v ===== *)
(** What the code uses of Go's [strconv] (base 10, 64 bits), [strings] and [encoding/base64]
    ([StdEncoding]), on byte strings.

    [strconv.ParseInt(s, 10, 64)] accepts an optional sign and at least one digit, and fails
    when the value does not fit 64 bits.  [base64.StdEncoding.DecodeString] skips line breaks,
    insists on padding and ignores the bits the last character does not use. *)
From S2P Require Import Prelude.

Abbreviation bytes := (list byte).
Definition str (s : string) : bytes := String.list_byte_of_string s.
Open Scope Z_scope.

Definition byte_Z (b : byte) : Z := Z.of_N (Byte.to_N b).
(** A Go conversion [byte(z)]. *)
Definition Z_byte (z : Z) : byte := default x00 (Byte.of_N (Z.to_N (z mod 256))).

Lemma byte_Z_bound b : 0 ≤ byte_Z b < 256.
Proof. unfold byte_Z. pose proof (Byte.to_N_bounded b). lia. Qed.

Lemma Z_byte_Z b : Z_byte (byte_Z b) = b.
Proof.
  unfold Z_byte. rewrite Z.mod_small by apply byte_Z_bound. unfold byte_Z.
  by rewrite N2Z.id, Byte.of_to_N.
Qed.

Lemma byte_Z_byte z : 0 ≤ z < 256 → byte_Z (Z_byte z) = z.
Proof.
  intros Hz. unfold Z_byte, byte_Z. rewrite Z.mod_small by done.
  destruct (Byte.of_N (Z.to_N z)) as [b|] eqn:Hb; simpl.
  - apply Byte.to_of_N in Hb. rewrite Hb. lia.
  - apply Byte.of_N_None_iff in Hb. lia.
Qed.

(** ** strconv *)
Definition digit_char (d : Z) : byte := Z_byte (48 + d).
Definition digit_val (c : byte) : option Z :=
  let d := byte_Z c - 48 in
  if bool_decide (0 ≤ d ≤ 9) then Some d else None.

(** Digits of [n], least significant first; 20 digits hold any 64-bit value. *)
Fixpoint digits_rev (fuel : nat) (n : Z) : list Z :=
  match fuel with
  | O => []
  | S f => n mod 10 :: if bool_decide (n < 10) then [] else digits_rev f (n / 10)
  end.

Definition FormatUint (n : Z) : bytes := digit_char <$> rev (digits_rev 20 n).
Definition FormatInt (n : Z) : bytes :=
  if bool_decide (n < 0) then x2d :: FormatUint (- n) else FormatUint n.

Definition parse_step (acc : option Z) (c : byte) : option Z :=
  v ← acc; d ← digit_val c; Some (v * 10 + d).
Definition parse_digits (s : bytes) : option Z :=
  match s with [] => None | _ => foldl parse_step (Some 0) s end.

Definition ParseInt (s : bytes) : option Z :=
  v ← match s with
      | x2d :: s => Z.opp <$> parse_digits s
      | x2b :: s => parse_digits s
      | _ => parse_digits s
      end;
  if bool_decide (in_i64 v) then Some v else None.

Definition digits_value (ds : list Z) : Z := foldr (λ d v, v * 10 + d) 0 ds.

Lemma digits_rev_value fuel n :
  0 ≤ n < 10 ^ Z.of_nat fuel → digits_value (digits_rev fuel n) = n.
Proof.
  revert n. induction fuel as [|f IH]; intros n Hn; simpl; [simpl in Hn; lia|].
  rewrite Nat2Z.inj_succ, Z.pow_succ_r in Hn by lia.
  pose proof (Z.div_mod n 10 ltac:(lia)) as Hdm.
  case_bool_decide; simpl; [pose proof (Z.mod_small n 10); lia|].
  rewrite IH; [lia|]. split; [apply Z.div_pos; lia|]. apply Z.div_lt_upper_bound; lia.
Qed.

Lemma digits_rev_digit fuel n : 0 ≤ n → Forall (λ d, 0 ≤ d < 10) (digits_rev fuel n).
Proof.
  revert n. induction fuel as [|f IH]; intros n Hn; simpl; [done|].
  constructor; [apply Z.mod_pos_bound; lia|].
  case_bool_decide; [done|]. apply IH, Z.div_pos; lia.
Qed.

Lemma digits_value_lt ds :
  Forall (λ d, 0 ≤ d < 10) ds → 0 ≤ digits_value ds < 10 ^ Z.of_nat (length ds).
Proof.
  induction 1; simpl; [lia|]. rewrite Nat2Z.inj_succ, Z.pow_succ_r by lia. lia.
Qed.

Lemma digit_val_char d : 0 ≤ d < 10 → digit_val (digit_char d) = Some d.
Proof.
  intros. unfold digit_val, digit_char. rewrite byte_Z_byte by lia.
  rewrite bool_decide_eq_true_2 by lia. f_equal. lia.
Qed.

(** The first digit is not a sign. *)
Lemma digit_char_not_sign d : 0 ≤ d < 10 → digit_char d ≠ x2d ∧ digit_char d ≠ x2b.
Proof.
  intros. split; intros Heq; apply (f_equal byte_Z) in Heq; unfold digit_char in Heq;
    rewrite byte_Z_byte in Heq by lia; vm_compute in Heq; destruct d as [|p|p]; try lia;
    repeat (destruct p as [p|p|]; try lia; try discriminate).
Qed.

Lemma parse_digits_format ds :
  ds ≠ [] → Forall (λ d, 0 ≤ d < 10) ds →
  parse_digits (digit_char <$> rev ds) = Some (digits_value ds).
Proof.
  intros Hne Hds.
  assert (Hfold : foldl parse_step (Some 0) (digit_char <$> rev ds) = Some (digits_value ds)).
  { clear Hne. induction Hds as [|d ds Hd _ IH]; [done|]. simpl. rewrite fmap_app, foldl_app, IH.
    simpl. by rewrite digit_val_char. }
  unfold parse_digits. destruct (digit_char <$> rev ds) eqn:E; [|done].
  apply fmap_nil_inv in E. by destruct ds using rev_ind; [|rewrite rev_unit in E].
Qed.

Lemma FormatUint_parse n :
  0 ≤ n < 10 ^ 20 → parse_digits (FormatUint n) = Some n
  ∧ ∃ d t, FormatUint n = digit_char d :: t ∧ 0 ≤ d < 10.
Proof.
  intros Hn. pose proof (digits_rev_digit 20 n ltac:(lia)) as Hd. split.
  - unfold FormatUint. rewrite parse_digits_format, digits_rev_value; [done|lia|done..].
  - unfold FormatUint. destruct (rev (digits_rev 20 n)) as [|d t] eqn:E.
    + apply (f_equal (@rev Z)) in E. by rewrite rev_involutive in E.
    + exists d, (digit_char <$> t). split; [done|]. rewrite Forall_forall in Hd. apply Hd.
      rewrite list_elem_of_In, in_rev, E. by left.
Qed.

Lemma ParseInt_FormatInt n : in_i64 n → ParseInt (FormatInt n) = Some n.
Proof.
  intros Hn. assert (- 10 ^ 20 < n < 10 ^ 20) as Hb by (unfold in_i64 in Hn; lia).
  unfold ParseInt, FormatInt. case_bool_decide.
  - destruct (FormatUint_parse (- n)) as [-> _]; [lia|]. simpl.
    rewrite Z.opp_involutive. by rewrite bool_decide_eq_true_2.
  - destruct (FormatUint_parse n) as [Hp (d & t & Hf & Hd)]; [lia|].
    destruct (digit_char_not_sign d Hd). rewrite Hf in *.
    destruct (digit_char d); try done; rewrite Hp; simpl; by rewrite bool_decide_eq_true_2.
Qed.

(** A value has at least [k + 1] digits from [10 ^ k] on. *)
Lemma FormatInt_length n k :
  10 ^ Z.of_nat k ≤ n < 10 ^ 20 → (k < length (FormatInt n) ≤ 20)%nat.
Proof.
  intros Hn. assert (0 < 10 ^ Z.of_nat k) by lia. unfold FormatInt.
  rewrite bool_decide_eq_false_2 by lia. unfold FormatUint. rewrite length_fmap, length_rev.
  assert (∀ f m, (length (digits_rev f m) ≤ f)%nat) as Hle.
  { induction f as [|f IH]; intros m; simpl; [done|]. specialize (IH (m / 10)).
    case_bool_decide; simpl; lia. }
  split; [|apply Hle].
  pose proof (digits_value_lt _ (digits_rev_digit 20 n ltac:(lia))) as Hlt.
  rewrite digits_rev_value in Hlt by lia.
  assert (10 ^ Z.of_nat k < 10 ^ Z.of_nat (length (digits_rev 20 n))) as Hp by lia.
  apply Z.pow_lt_mono_r_iff in Hp; lia.
Qed.

(** ** base64 *)
Definition b64_char (d : Z) : byte :=
  Z_byte (if bool_decide (d < 26) then 65 + d
          else if bool_decide (d < 52) then 71 + d
          else if bool_decide (d < 62) then d - 4
          else if bool_decide (d = 62) then 43 else 47).

Definition b64_val (c : byte) : option Z :=
  let z := byte_Z c in
  if bool_decide (65 ≤ z ≤ 90) then Some (z - 65)
  else if bool_decide (97 ≤ z ≤ 122) then Some (z - 71)
  else if bool_decide (48 ≤ z ≤ 57) then Some (z + 4)
  else if bool_decide (z = 43) then Some 62
  else if bool_decide (z = 47) then Some 63 else None.

Definition b64_pad : byte := x3d.

Fixpoint b64_EncodeToString (s : bytes) : bytes :=
  match s with
  | a :: b :: c :: s =>
      let v := byte_Z a * 65536 + byte_Z b * 256 + byte_Z c in
      [b64_char (v / 262144); b64_char (v / 4096 mod 64); b64_char (v / 64 mod 64);
       b64_char (v mod 64)] ++ b64_EncodeToString s
  | [a; b] =>
      let v := byte_Z a * 65536 + byte_Z b * 256 in
      [b64_char (v / 262144); b64_char (v / 4096 mod 64); b64_char (v / 64 mod 64); b64_pad]
  | [a] =>
      let v := byte_Z a * 65536 in
      [b64_char (v / 262144); b64_char (v / 4096 mod 64); b64_pad; b64_pad]
  | [] => []
  end.

(** Four characters at a time; a padded group is the last one. *)
Fixpoint b64_decode_quads (s : bytes) : option bytes :=
  match s with
  | [] => Some []
  | c0 :: c1 :: c2 :: c3 :: s =>
      d0 ← b64_val c0; d1 ← b64_val c1;
      let a := Z_byte (d0 * 4 + d1 / 16) in
      if bool_decide (c2 = b64_pad) then
        if bool_decide (c3 = b64_pad ∧ s = []) then Some [a] else None
      else
        d2 ← b64_val c2;
        let b := Z_byte (d1 * 16 + d2 / 4) in
        if bool_decide (c3 = b64_pad) then if bool_decide (s = []) then Some [a; b] else None
        else d3 ← b64_val c3; rest ← b64_decode_quads s;
             Some (a :: b :: Z_byte (d2 * 64 + d3) :: rest)
  | _ => None
  end.

Definition b64_DecodeString (s : bytes) : option bytes :=
  b64_decode_quads (filter (λ c, ¬ (c = x0a ∨ c = x0d)) s).

Lemma b64_char_ok d :
  0 ≤ d < 64 → b64_val (b64_char d) = Some d ∧ b64_char d ≠ b64_pad
               ∧ ¬ (b64_char d = x0a ∨ b64_char d = x0d).
Proof.
  intros Hd. rewrite <- (Z2Nat.id d) by lia. assert (Z.to_nat d < 64)%nat as Hn by lia.
  revert Hn. generalize (Z.to_nat d). clear. intros n Hn.
  do 64 (destruct n as [|n]; [split; [reflexivity|split; [discriminate|intros [?|?]; discriminate]]|]).
  lia.
Qed.

(** The four characters of a group: their values, and the bytes they stand for. *)
Lemma b64_group a b c (v := byte_Z a * 65536 + byte_Z b * 256 + byte_Z c) :
  0 ≤ v / 262144 < 64 ∧ 0 ≤ v / 4096 mod 64 < 64 ∧ 0 ≤ v / 64 mod 64 < 64 ∧ 0 ≤ v mod 64 < 64
  ∧ Z_byte (v / 262144 * 4 + v / 4096 mod 64 / 16) = a
  ∧ Z_byte (v / 4096 mod 64 * 16 + v / 64 mod 64 / 4) = b
  ∧ Z_byte (v / 64 mod 64 * 64 + v mod 64) = c.
Proof.
  pose proof (byte_Z_bound a); pose proof (byte_Z_bound b); pose proof (byte_Z_bound c).
  assert (Hm : ∀ z x, z mod 256 = byte_Z x → Z_byte z = x).
  { intros z x Hz. unfold Z_byte. rewrite Hz, <- (Z.mod_small (byte_Z x) 256) by apply byte_Z_bound.
    apply Z_byte_Z. }
  split_and!; try apply Hm; subst v; Z.to_euclidean_division_equations; lia.
Qed.

(** Induction three bytes at a time, as the encoder goes. *)
Lemma b64_ind (P : bytes → Prop) :
  P [] → (∀ a, P [a]) → (∀ a b, P [a; b]) → (∀ a b c s, P s → P (a :: b :: c :: s)) → ∀ s, P s.
Proof.
  intros H0 H1 H2 H3 s. induction s as [s IH] using (induction_ltof1 _ length).
  destruct s as [|a [|b [|c s]]]; auto. apply H3, IH. unfold ltof. simpl. lia.
Qed.

Lemma b64_clean s : Forall (λ c, ¬ (c = x0a ∨ c = x0d)) (b64_EncodeToString s).
Proof.
  assert (Hpad : ¬ (b64_pad = x0a ∨ b64_pad = x0d)) by (by intros [?|?]).
  induction s as [|a|a b|a b c s IH] using b64_ind; cbn [b64_EncodeToString app].
  - done.
  - destruct (b64_group a x00 x00) as (?&?&?&_). change (byte_Z x00) with 0 in *.
    rewrite ?Z.mul_0_l, ?Z.add_0_r in *. repeat constructor; try done; by apply b64_char_ok.
  - destruct (b64_group a b x00) as (?&?&?&_). change (byte_Z x00) with 0 in *.
    rewrite ?Z.add_0_r in *. repeat constructor; try done; by apply b64_char_ok.
  - destruct (b64_group a b c) as (?&?&?&?&_). repeat constructor; try done; by apply b64_char_ok.
Qed.

Ltac b64_step H := destruct (b64_char_ok _ H) as (-> & ? & _); cbn [mbind option_bind].

Lemma b64_decode_encode s : b64_decode_quads (b64_EncodeToString s) = Some s.
Proof.
  induction s as [|a|a b|a b c s IH] using b64_ind; cbn [b64_EncodeToString b64_decode_quads app].
  - done.
  - destruct (b64_group a x00 x00) as (H0&H1&H2&_&Ha&_). change (byte_Z x00) with 0 in *.
    rewrite ?Z.mul_0_l, ?Z.add_0_r in *. b64_step H0. b64_step H1. by rewrite Ha.
  - destruct (b64_group a b x00) as (H0&H1&H2&_&Ha&Hb&_). change (byte_Z x00) with 0 in *.
    rewrite ?Z.add_0_r in *. b64_step H0. b64_step H1.
    rewrite bool_decide_eq_false_2 by (by apply b64_char_ok). b64_step H2. by rewrite Ha, Hb.
  - destruct (b64_group a b c) as (H0&H1&H2&H3&Ha&Hb&Hc). b64_step H0. b64_step H1.
    rewrite bool_decide_eq_false_2 by (by apply b64_char_ok). b64_step H2.
    rewrite bool_decide_eq_false_2 by (by apply b64_char_ok). b64_step H3.
    rewrite IH. cbn [mbind option_bind]. by rewrite Ha, Hb, Hc.
Qed.

Lemma b64_roundtrip s : b64_DecodeString (b64_EncodeToString s) = Some s.
Proof. unfold b64_DecodeString. rewrite filter_all by apply b64_clean. apply b64_decode_encode. Qed.

Lemma b64_encode_inj s t : b64_EncodeToString s = b64_EncodeToString t → s = t.
Proof.
  intros H. apply (f_equal b64_DecodeString) in H. rewrite !b64_roundtrip in H. by simplify_eq.
Qed.

(** ** Strings *)
(** [strings.ToLower] on ASCII. *)
Definition lower_char (c : Ascii.ascii) : Ascii.ascii :=
  let n := Ascii.nat_of_ascii c in
  if bool_decide (65 ≤ n ∧ n ≤ 90)%nat then Ascii.ascii_of_nat (n + 32) else c.
Fixpoint ToLower (s : string) : string :=
  match s with
  | String.EmptyString => String.EmptyString
  | String.String c s => String.String (lower_char c) (ToLower s)
  end.
Lemma lower_char_idem c : lower_char (lower_char c) = lower_char c.
Proof. destruct c as [[] [] [] [] [] [] [] []]; reflexivity. Qed.
Lemma ToLower_idem s : ToLower (ToLower s) = ToLower s.
Proof. induction s as [|c s IH]; [done|]. cbn. by rewrite lower_char_idem, IH. Qed.
