(* ===== verification/GoHash.v ===== *)
(** The hash functions of Go's [crypto/sha1], [crypto/sha256] and [crypto/hmac] that the code
    calls, as functions on byte strings (FIPS 180-4, RFC 2104), with the published test
    vectors as examples.  Words are [Z] below [2 ^ 32]. *)
From S2P Require Import Prelude GoText.
Open Scope Z_scope.

Definition rotl (n x : Z) : Z := Z.lor (wrap_u32 (Z.shiftl x n)) (Z.shiftr x (32 - n)).
Definition rotr (n x : Z) : Z := rotl (32 - n) x.
Definition not32 (x : Z) : Z := Z.lxor x 0xffffffff.
Definition add32 (x y : Z) : Z := wrap_u32 (x + y).

(** Big-endian words. *)
Definition word_bytes (w : Z) : bytes :=
  [Z_byte (Z.shiftr w 24); Z_byte (Z.shiftr w 16); Z_byte (Z.shiftr w 8); Z_byte w].

Fixpoint words (s : bytes) : list Z :=
  match s with
  | a :: b :: c :: d :: s =>
      (byte_Z a * 16777216 + byte_Z b * 65536 + byte_Z c * 256 + byte_Z d) :: words s
  | _ => []
  end.

(** Padding to a multiple of 64 bytes: a one bit, zeros, the length in bits. *)
Definition pad (s : bytes) : bytes :=
  let n := Z.of_nat (length s) in
  s ++ [x80] ++ replicate (Z.to_nat ((55 - n) mod 64)) x00
    ++ word_bytes (Z.shiftr (n * 8) 32) ++ word_bytes (wrap_u32 (n * 8)).

(** [blocks] feeds 16 words at a time to the compression function. *)
Fixpoint blocks (fuel : nat) {S : Type} (compress : S → list Z → S) (h : S) (ws : list Z) : S :=
  match fuel, ws with
  | Datatypes.S f, _ :: _ => blocks f compress (compress h (take 16 ws)) (drop 16 ws)
  | _, _ => h
  end.

(** The message schedule, newest word first: each word is computed from earlier ones. *)
Fixpoint schedule (n : nat) (next : list Z → Z) (ws : list Z) : list Z :=
  match n with O => rev ws | Datatypes.S n => schedule n next (next ws :: ws) end.

(** ** SHA-256 *)
(** The constants are the first 32 bits of the fractional parts of the cube roots of the first
    64 primes; the initial state takes the square roots of the first eight. *)
Definition is_prime (n : nat) : bool :=
  bool_decide (2 ≤ n)%nat && forallb (λ d, negb (Nat.eqb (Nat.modulo n d) 0)) (seq 2 (n - 2)).
Definition primes : list Z := Z.of_nat <$> take 64 (filter is_prime (seq 0 312)).

(** Bitwise integer cube root: [n] bits, most significant first. *)
Fixpoint cbrt_bits (n : nat) (r x : Z) : Z :=
  match n with
  | O => r
  | S n => let r' := r + 2 ^ Z.of_nat n in cbrt_bits n (if bool_decide (r' ^ 3 ≤ x) then r' else r) x
  end.
Definition cube_root_bits (p : Z) : Z := wrap_u32 (cbrt_bits 40 0 (p * 2 ^ 96)).
Definition square_root_bits (p : Z) : Z := wrap_u32 (Z.sqrt (p * 2 ^ 64)).

Definition K256 : list Z := Eval vm_compute in cube_root_bits <$> primes.

Record state256 := St256 { a2 : Z; b2 : Z; c2 : Z; d2 : Z; e2 : Z; f2 : Z; g2 : Z; h2 : Z }.
Definition init256 : state256 := Eval vm_compute in
  let r i := square_root_bits (nth i primes 0) in
  St256 (r 0%nat) (r 1%nat) (r 2%nat) (r 3%nat) (r 4%nat) (r 5%nat) (r 6%nat) (r 7%nat).

Definition next256 (ws : list Z) : Z :=
  let w i := nth i ws 0 in
  let s0 := Z.lxor (Z.lxor (rotr 7 (w 14%nat)) (rotr 18 (w 14%nat))) (Z.shiftr (w 14%nat) 3) in
  let s1 := Z.lxor (Z.lxor (rotr 17 (w 1%nat)) (rotr 19 (w 1%nat))) (Z.shiftr (w 1%nat) 10) in
  wrap_u32 (w 15%nat + s0 + w 6%nat + s1).

Definition round256 (s : state256) (kw : Z * Z) : state256 :=
  let '(St256 a b c d e f g h) := s in
  let S1 := Z.lxor (Z.lxor (rotr 6 e) (rotr 11 e)) (rotr 25 e) in
  let ch := Z.lxor (Z.land e f) (Z.land (not32 e) g) in
  let t1 := wrap_u32 (h + S1 + ch + kw.1 + kw.2) in
  let S0 := Z.lxor (Z.lxor (rotr 2 a) (rotr 13 a)) (rotr 22 a) in
  let maj := Z.lxor (Z.lxor (Z.land a b) (Z.land a c)) (Z.land b c) in
  St256 (wrap_u32 (t1 + S0 + maj)) a b c (add32 d t1) e f g.

Definition compress256 (s : state256) (ws : list Z) : state256 :=
  let '(St256 a b c d e f g h) := s in
  let '(St256 a' b' c' d' e' f' g' h') :=
    foldl round256 s (zip K256 (schedule 48 next256 (rev ws))) in
  St256 (add32 a a') (add32 b b') (add32 c c') (add32 d d')
        (add32 e e') (add32 f f') (add32 g g') (add32 h h').

Definition Sum256 (s : bytes) : bytes :=
  let '(St256 a b c d e f g h) := blocks (length s + 1) compress256 init256 (words (pad s)) in
  word_bytes a ++ word_bytes b ++ word_bytes c ++ word_bytes d
  ++ word_bytes e ++ word_bytes f ++ word_bytes g ++ word_bytes h.

(** ** SHA-1 *)
Record state1 := St1 { a1 : Z; b1 : Z; c1 : Z; d1 : Z; e1 : Z }.
Definition init1 : state1 := St1 0x67452301 0xefcdab89 0x98badcfe 0x10325476 0xc3d2e1f0.

Definition next1 (ws : list Z) : Z :=
  let w i := nth i ws 0 in
  rotl 1 (Z.lxor (Z.lxor (Z.lxor (w 2%nat) (w 7%nat)) (w 13%nat)) (w 15%nat)).

Definition round1 (s : state1) (tw : nat * Z) : state1 :=
  let '(St1 a b c d e) := s in
  let '(f, k) :=
    if bool_decide (tw.1 < 20)%nat then (Z.lor (Z.land b c) (Z.land (not32 b) d), 0x5a827999)
    else if bool_decide (tw.1 < 40)%nat then (Z.lxor (Z.lxor b c) d, 0x6ed9eba1)
    else if bool_decide (tw.1 < 60)%nat
         then (Z.lor (Z.lor (Z.land b c) (Z.land b d)) (Z.land c d), 0x8f1bbcdc)
    else (Z.lxor (Z.lxor b c) d, 0xca62c1d6) in
  St1 (wrap_u32 (rotl 5 a + f + e + k + tw.2)) a (rotl 30 b) c d.

Definition compress1 (s : state1) (ws : list Z) : state1 :=
  let '(St1 a b c d e) := s in
  let '(St1 a' b' c' d' e') :=
    foldl round1 s (zip (seq 0 80) (schedule 64 next1 (rev ws))) in
  St1 (add32 a a') (add32 b b') (add32 c c') (add32 d d') (add32 e e').

Definition Sum1 (s : bytes) : bytes :=
  let '(St1 a b c d e) := blocks (length s + 1) compress1 init1 (words (pad s)) in
  word_bytes a ++ word_bytes b ++ word_bytes c ++ word_bytes d ++ word_bytes e.

(** ** HMAC

    [hash.Hash] is what the code passes around as [func() hash.Hash]; both hashes have a
    block of 64 bytes. *)
Record Hash := { Sum : bytes → bytes; Size : nat }.
Definition sha256_New : Hash := {| Sum := Sum256; Size := 32 |}.
Definition sha1_New : Hash := {| Sum := Sum1; Size := 20 |}.
Definition BlockSize : nat := 64.

Definition xor_byte (z : Z) (b : byte) : byte := Z_byte (Z.lxor (byte_Z b) z).

Definition hmac (h : Hash) (key msg : bytes) : bytes :=
  let key := if bool_decide (BlockSize < length key)%nat then Sum h key else key in
  let key := key ++ replicate (BlockSize - length key) x00 in
  Sum h ((xor_byte 0x5c <$> key) ++ Sum h ((xor_byte 0x36 <$> key) ++ msg)).

Definition hash_wf (h : Hash) : Prop := ∀ s, length (Sum h s) = Size h.

Lemma Sum256_length s : length (Sum256 s) = 32%nat.
Proof. unfold Sum256. by destruct (blocks _ _ _ _). Qed.

Lemma Sum1_length s : length (Sum1 s) = 20%nat.
Proof. unfold Sum1. by destruct (blocks _ _ _ _). Qed.

Lemma hmac_length h key msg : hash_wf h → length (hmac h key msg) = Size h.
Proof. intros Hh. apply Hh. Qed.

Lemma sha256_wf : hash_wf sha256_New.
Proof. exact Sum256_length. Qed.

(** ** Published test vectors *)

(** Sixteen digits at a time, so that the expected values read as in the standards. *)
Definition hex (z : Z) (n : nat) : bytes :=
  (λ i, Z_byte (Z.shiftr z (8 * Z.of_nat i))) <$> rev (seq 0 n).

Example sha256_abc :
  Sum256 (str "abc")
  = hex 0xba7816bf8f01cfea414140de5dae2223b00361a396177a9cb410ff61f20015ad 32.
Proof. vm_compute. reflexivity. Qed.

Example sha256_two_blocks :
  Sum256 (str "abcdbcdecdefdefgefghfghighijhijkijkljklmklmnlmnomnopnopq")
  = hex 0x248d6a61d20638b8e5c026930c3e6039a33ce45964ff2167f6ecedd419db06c1 32.
Proof. vm_compute. reflexivity. Qed.

Example sha1_abc : Sum1 (str "abc") = hex 0xa9993e364706816aba3e25717850c26c9cd0d89d 20.
Proof. vm_compute. reflexivity. Qed.

Example hmac_sha256_jefe :
  hmac sha256_New (str "Jefe") (str "what do ya want for nothing?")
  = hex 0x5bdcc146bf60754e6a042426089575c75a003f089d2739839dec58b964ec3843 32.
Proof. vm_compute. reflexivity. Qed.

Example hmac_sha1_jefe :
  hmac sha1_New (str "Jefe") (str "what do ya want for nothing?")
  = hex 0xeffcdf6ae5eb2fa2d27416d5f184df9c259a7c79 20.
Proof. vm_compute. reflexivity. Qed.
