(* ===== verification/FlowTable.v ===== *)
(** What the connection trackers of the user-space packet filter share:
    [src/client/firewall/uspfilter/conntrack/common.go] and the flow events of
    [src/client/internal/netflow/types/types.go]; and the accounting of flow events for any
    table of connections, which the TCP, UDP and ICMP trackers instantiate.

    [uuid.New] is an argument of the operations that call it, as is the clock ([now], in
    nanoseconds); [netip.Addr] is an opaque number. *)
From S2P Require Import Prelude.
Open Scope Z_scope.

Inductive Direction := DirectionUnknown | Ingress | Egress.
#[export] Instance Direction_eq_dec : EqDecision Direction.
Proof. solve_decision. Defined.

Inductive EventType := TypeUnknown | TypeStart | TypeEnd | TypeDrop.
#[export] Instance EventType_eq_dec : EqDecision EventType.
Proof. solve_decision. Defined.

(** The protocol numbers the trackers report. *)
Definition ProtoICMP : Z := 1.
Definition ProtoTCP : Z := 6.
Definition ProtoUDP : Z := 17.

Record EventFields := {
  e_FlowID : Z; e_Type : EventType; e_RuleID : option string; e_Direction : Direction;
  e_Protocol : Z; e_SourceIP : Z; e_DestIP : Z; e_SourcePort : Z; e_DestPort : Z;
  e_ICMPType : Z; e_ICMPCode : Z;
  e_RxPackets : Z; e_TxPackets : Z; e_RxBytes : Z; e_TxBytes : Z;
}.

Record ConnKey := { SrcIP : Z; DstIP : Z; SrcPort : Z; DstPort : Z }.
#[export] Instance ConnKey_eq_dec : EqDecision ConnKey.
Proof. solve_decision. Defined.
#[export, refine] Instance ConnKey_countable : Countable ConnKey :=
  inj_countable' (λ k, (SrcIP k, DstIP k, SrcPort k, DstPort k))
    (λ '(a, b, c, d), {| SrcIP := a; DstIP := b; SrcPort := c; DstPort := d |}) _.
Proof. by intros []. Defined.

Record BaseConnTrack := {
  FlowId : Z; Dir : Direction; SourceIP : Z; DestIP : Z;
  lastSeen : Z; PacketsTx : Z; PacketsRx : Z; BytesTx : Z; BytesRx : Z;
  DNATOrigPort : Z;
}.

Definition newBase (flow : Z) (d : Direction) (src dst : Z) : BaseConnTrack :=
  {| FlowId := flow; Dir := d; SourceIP := src; DestIP := dst; lastSeen := 0;
     PacketsTx := 0; PacketsRx := 0; BytesTx := 0; BytesRx := 0; DNATOrigPort := 0 |}.

Definition UpdateLastSeen (now : Z) (c : BaseConnTrack) : BaseConnTrack :=
  {| FlowId := FlowId c; Dir := Dir c; SourceIP := SourceIP c; DestIP := DestIP c;
     lastSeen := now; PacketsTx := PacketsTx c; PacketsRx := PacketsRx c;
     BytesTx := BytesTx c; BytesRx := BytesRx c; DNATOrigPort := DNATOrigPort c |}.

Definition UpdateCounters (d : Direction) (bytes : Z) (c : BaseConnTrack) : BaseConnTrack :=
  let tx := bool_decide (d = Egress) in
  {| FlowId := FlowId c; Dir := Dir c; SourceIP := SourceIP c; DestIP := DestIP c;
     lastSeen := lastSeen c;
     PacketsTx := if tx then wrap_u64 (PacketsTx c + 1) else PacketsTx c;
     PacketsRx := if tx then PacketsRx c else wrap_u64 (PacketsRx c + 1);
     BytesTx := if tx then wrap_u64 (BytesTx c + wrap_u64 bytes) else BytesTx c;
     BytesRx := if tx then BytesRx c else wrap_u64 (BytesRx c + wrap_u64 bytes);
     DNATOrigPort := DNATOrigPort c |}.

(** [DNATOrigPort.Store(uint32(origPort))] *)
Definition StoreDNATOrigPort (port : Z) (c : BaseConnTrack) : BaseConnTrack :=
  {| FlowId := FlowId c; Dir := Dir c; SourceIP := SourceIP c; DestIP := DestIP c;
     lastSeen := lastSeen c; PacketsTx := PacketsTx c; PacketsRx := PacketsRx c;
     BytesTx := BytesTx c; BytesRx := BytesRx c; DNATOrigPort := port |}.

Definition timeoutExceeded (now timeout : Z) (c : BaseConnTrack) : bool := timeout <? now - lastSeen c.

(** Both calls a packet of a connection makes. *)
Definition touch (now : Z) (d : Direction) (size : Z) (c : BaseConnTrack) : BaseConnTrack :=
  UpdateCounters d size (UpdateLastSeen now c).

Definition base_event (typ : EventType) (c : BaseConnTrack) (ruleID : option string)
    (proto sport dport icmpType icmpCode : Z) : EventFields :=
  {| e_FlowID := FlowId c; e_Type := typ; e_RuleID := ruleID; e_Direction := Dir c;
     e_Protocol := proto; e_SourceIP := SourceIP c; e_DestIP := DestIP c;
     e_SourcePort := sport; e_DestPort := dport; e_ICMPType := icmpType; e_ICMPCode := icmpCode;
     e_RxPackets := PacketsRx c; e_TxPackets := PacketsTx c;
     e_RxBytes := BytesRx c; e_TxBytes := BytesTx c |}.

(** * Counting flow events *)
Definition count_events (f : Z) (typ : EventType) (evs : list EventFields) : nat :=
  length (filter (λ e, e_FlowID e = f ∧ e_Type e = typ) evs).

Lemma count_app f typ evs evs' :
  count_events f typ (evs ++ evs') = (count_events f typ evs + count_events f typ evs')%nat.
Proof. unfold count_events. by rewrite filter_app, length_app. Qed.

Lemma count_one f typ e :
  count_events f typ [e] = if decide (e_FlowID e = f ∧ e_Type e = typ) then 1%nat else 0%nat.
Proof. unfold count_events. rewrite filter_cons. simpl. by case_decide. Qed.

#[export] Instance count_proper f typ : Proper ((≡ₚ) ==> (=)) (count_events f typ).
Proof. intros xs ys Hp. unfold count_events. by rewrite Hp. Qed.

(** The event in question is, or is not, of that flow and type. *)
Ltac count_side := solve [congruence | split; congruence | intros [? ?]; congruence].

Abbreviation b2n b := (if (b : bool) then 1%nat else 0%nat).

(** * Accounts of a connection table

    [ended c] says that the end event of [c] has been sent while [c] is in the table; [wf] is
    what every connection in the table satisfies. *)
Section accounts.
Context {K : Type} `{Countable K} {C : Type}.
Context (flow_of : C → Z) (ended : C → bool) (wf : C → Prop).

(** [e] is an event of type [typ] of the flow of [c]. *)
Definition event_of (typ : EventType) (c : C) (e : EventFields) : Prop :=
  e_FlowID e = flow_of c ∧ e_Type e = typ.

(** What one packet does to the accounts of its connection. *)
Definition accounted (c c' : C) (evs : list EventFields) : Prop :=
  flow_of c' = flow_of c ∧ wf c' ∧ (ended c = true → ended c' = true)
  ∧ (∀ f, count_events f TypeStart evs = 0%nat)
  ∧ (∀ f, f ≠ flow_of c → count_events f TypeEnd evs = 0%nat)
  ∧ (count_events (flow_of c) TypeEnd evs + b2n (ended c) = b2n (ended c'))%nat.

Lemma accounted_end c c' e :
  event_of TypeEnd c' e → flow_of c' = flow_of c → wf c' → ended c' = true → ended c = false →
  accounted c c' [e].
Proof.
  intros [Hf1 Ht1] Hf Hok He' He. unfold accounted. rewrite He, He'. split_and!; try done.
  - intros f. rewrite count_one, decide_False; [done|]. intros [_ ?]. congruence.
  - intros f Hne. rewrite count_one, decide_False; [done|]. intros [? _]. congruence.
  - rewrite count_one, decide_True; [done|]. split; congruence.
Qed.

Lemma accounted_quiet c c' :
  flow_of c' = flow_of c → wf c' → ended c' = ended c → accounted c c' [].
Proof. intros Hf Hok He. unfold accounted. rewrite He. by split_and!. Qed.

(** The accounts of a tracker: [evs] are the events sent so far, [F] the flow ids used, [S]
    those of packets that were reported without opening a connection. *)
Definition settled (f : Z) (evs : list EventFields) : Prop :=
  (count_events f TypeStart evs = 0%nat ∧ count_events f TypeEnd evs = 0%nat)
  ∨ (count_events f TypeStart evs = 1%nat ∧ count_events f TypeEnd evs = 1%nat).

Definition open_conn (F : gset Z) (evs : list EventFields) (c : C) : Prop :=
  flow_of c ∈ F ∧ wf c ∧ count_events (flow_of c) TypeStart evs = 1%nat
  ∧ count_events (flow_of c) TypeEnd evs = b2n (ended c).

Record Inv (m : gmap K C) (evs : list EventFields) (F S : gset Z) : Prop := {
  inv_open : ∀ k c, m !! k = Some c → open_conn F evs c ∧ flow_of c ∉ S;
  inv_inj : ∀ k1 k2 c1 c2,
    m !! k1 = Some c1 → m !! k2 = Some c2 → flow_of c1 = flow_of c2 → k1 = k2;
  inv_unused : ∀ f, f ∉ F → count_events f TypeStart evs = 0%nat ∧ count_events f TypeEnd evs = 0%nat;
  inv_settled : ∀ f, f ∉ S → (∀ k c, m !! k = Some c → flow_of c ≠ f) → settled f evs;
  inv_single : ∀ f, f ∈ S →
    f ∈ F ∧ count_events f TypeStart evs = 1%nat ∧ count_events f TypeEnd evs = 0%nat;
}.

Lemma Inv_empty : Inv ∅ [] ∅ ∅.
Proof. split; intros; try (by rewrite lookup_empty in * ); try done. by left. Qed.

Lemma Inv_mono m evs F F' S : F ⊆ F' → Inv m evs F S → Inv m evs F' S.
Proof.
  intros Hsub [Ho Hu Hf Hs Hn]. split; try done.
  - intros k c Hk. destruct (Ho k c Hk) as [(? & ? & ? & ?) ?]. split; [|done]. split_and!; try done. set_solver.
  - intros f Hf'. apply Hf. set_solver.
  - intros f HS. destruct (Hn f HS) as (? & ? & ?). split_and!; try done. set_solver.
Qed.

(** Events that concern one flow leave the accounts of the others alone. *)
Definition others_same (f0 : Z) (evs evs' : list EventFields) : Prop :=
  ∀ f, f ≠ f0 → count_events f TypeStart (evs ++ evs') = count_events f TypeStart evs
    ∧ count_events f TypeEnd (evs ++ evs') = count_events f TypeEnd evs.

Lemma others_open f0 evs evs' F c :
  others_same f0 evs evs' → flow_of c ≠ f0 → open_conn F evs c → open_conn F (evs ++ evs') c.
Proof.
  intros Ho Hne (? & ? & ? & ?). destruct (Ho _ Hne) as [Ha Hb]. unfold open_conn. by rewrite Ha, Hb.
Qed.

(** A packet of a tracked connection. *)
Lemma Inv_update m evs F S k c c' evs' :
  Inv m evs F S → m !! k = Some c → accounted c c' evs' → Inv (<[k := c']> m) (evs ++ evs') F S.
Proof.
  intros [Ho Hu Hf Hs Hn] Hk (Hfl & Hok & _ & Hst & Hend & Hcnt).
  assert (Hother : others_same (flow_of c) evs evs').
  { intros f Hne. rewrite !count_app, Hst, Hend by done. lia. }
  destruct (Ho k c Hk) as [(HcF & Hcok & Hcs & Hce) HcS].
  split.
  - intros k1 c1. destruct (decide (k1 = k)) as [->|Hne].
    + rewrite lookup_insert_eq. intros [= <-]. unfold open_conn. rewrite Hfl, !count_app, Hst, Hcs, Hce.
      split_and!; try done; lia.
    + rewrite lookup_insert_ne by done. intros Hk1. destruct (Ho k1 c1 Hk1) as [Hoc ?]. split; [|done].
      eapply others_open; [done| |done]. intros E; apply Hne; by eapply Hu.
  - intros k1 k2 c1 c2. destruct (decide (k1 = k)) as [->|], (decide (k2 = k)) as [->|]; try done;
      rewrite ?lookup_insert_eq, ?lookup_insert_ne by done; intros; simplify_eq; eapply Hu; eauto; congruence.
  - intros f HfF. assert (f ≠ flow_of c) by set_solver. destruct (Hother f) as [-> ->]; [done|]. auto.
  - intros f HS Hno. assert (Hne : f ≠ flow_of c).
    { intros ->. apply (Hno k c'); [apply lookup_insert_eq|done]. }
    unfold settled. destruct (Hother f Hne) as [-> ->]. apply Hs; [done|]. intros k1 c1 Hk1.
    destruct (decide (k1 = k)) as [->|]; [congruence|]. apply (Hno k1). by rewrite lookup_insert_ne.
  - intros f HS. assert (Hne : f ≠ flow_of c) by congruence. destruct (Hother f Hne) as [-> ->]. auto.
Qed.

(** A new connection, possibly in place of one that has ended. *)
Lemma Inv_new m evs F S k flow c c0 evs' e :
  Inv m evs F S → flow ∉ F → flow_of c0 = flow → ended c0 = false → accounted c0 c evs' →
  event_of TypeStart c e → (∀ c1, m !! k = Some c1 → ended c1 = true) →
  Inv (<[k := c]> m) (evs ++ evs' ++ [e]) ({[ flow ]} ∪ F) S.
Proof.
  intros [Ho Hu Hf Hs Hn] HnF Hfl0 He0 (Hfl & Hok & _ & Hst & Hend & Hcnt) [Hef Het] Hold.
  rewrite He0 in Hcnt. destruct (Hf flow HnF) as [Hs0 Hen0].
  assert (Hother : others_same flow evs (evs' ++ [e])).
  { intros f Hne. rewrite !count_app, Hst, Hend, !count_one, !decide_False by count_side. lia. }
  assert (Hnin : ∀ k1 c1, m !! k1 = Some c1 → flow_of c1 ≠ flow).
  { intros k1 c1 Hk1 E. destruct (Ho k1 c1 Hk1) as [(? & _) _]. congruence. }
  assert (HnS : flow ∉ S) by (intros HS; by destruct (Hn flow HS)).
  split.
  - intros k1 c1. destruct (decide (k1 = k)) as [->|Hne].
    + rewrite lookup_insert_eq. intros [= <-]. split; [|congruence]. unfold open_conn. rewrite Hfl, Hfl0 in *.
      rewrite !count_app, Hst, !count_one, decide_True, decide_False by count_side.
      split_and!; [set_solver|done|lia|lia].
    + rewrite lookup_insert_ne by done. intros Hk1. destruct (Ho k1 c1 Hk1) as [(? & Hoc) ?]. split; [|done].
      eapply others_open; [done|by eapply Hnin|]. split; [set_solver|done].
  - intros k1 k2 c1 c2. destruct (decide (k1 = k)) as [->|], (decide (k2 = k)) as [->|]; try done;
      rewrite ?lookup_insert_eq, ?lookup_insert_ne by done; intros H1 H2 E; simplify_eq.
    + exfalso. eapply Hnin; [exact H2|]. congruence.
    + exfalso. eapply Hnin; [exact H1|]. congruence.
    + by eapply Hu.
  - intros f HfF. destruct (Hother f) as [-> ->]; [set_solver|]. apply Hf. set_solver.
  - intros f HS Hno. assert (Hne : f ≠ flow).
    { intros ->. apply (Hno k c); [apply lookup_insert_eq|congruence]. }
    unfold settled. destruct (Hother f Hne) as [-> ->].
    destruct (m !! k) as [c1|] eqn:Hk; [destruct (decide (flow_of c1 = f)) as [<-|Hn1]|].
    + right. destruct (Ho k c1 Hk) as [(_ & _ & ? & Hce) _]. by rewrite (Hold c1 eq_refl) in Hce.
    + apply Hs; [done|]. intros k2 c2 Hk2. destruct (decide (k2 = k)) as [->|]; [congruence|].
      apply (Hno k2). by rewrite lookup_insert_ne.
    + apply Hs; [done|]. intros k2 c2 Hk2. destruct (decide (k2 = k)) as [->|]; [congruence|].
      apply (Hno k2). by rewrite lookup_insert_ne.
  - intros f HS. assert (Hne : f ≠ flow) by congruence. destruct (Hn f HS) as (? & ? & ?).
    destruct (Hother f Hne) as [-> ->]. split_and!; try done. set_solver.
Qed.

(** A packet that is reported with a fresh flow id and opens no connection. *)
Lemma Inv_single m evs F S flow e :
  Inv m evs F S → flow ∉ F → e_FlowID e = flow → e_Type e = TypeStart →
  Inv m (evs ++ [e]) ({[ flow ]} ∪ F) ({[ flow ]} ∪ S).
Proof.
  intros [Ho Hu Hf Hs Hn] HnF Hef Het. destruct (Hf flow HnF) as [Hs0 Hen0].
  assert (Hother : others_same flow evs [e]).
  { intros f Hne. rewrite !count_app, !count_one, !decide_False by count_side. lia. }
  split.
  - intros k c Hk. destruct (Ho k c Hk) as [(HF & Hoc) ?].
    assert (flow_of c ≠ flow) by congruence. split; [|set_solver].
    eapply others_open; [done..|]. split; [set_solver|done].
  - done.
  - intros f HfF. destruct (Hother f) as [-> ->]; [set_solver|]. apply Hf. set_solver.
  - intros f HS Hno. unfold settled. destruct (Hother f) as [-> ->]; [set_solver|]. apply Hs; [set_solver|done].
  - intros f [->%elem_of_singleton|HS]%elem_of_union.
    + rewrite !count_app, !count_one, decide_True, decide_False by count_side. split_and!; [set_solver|lia..].
    + destruct (Hn f HS) as (? & ? & ?). assert (f ≠ flow) by congruence.
      destruct (Hother f) as [-> ->]; [done|]. split_and!; try done. set_solver.
Qed.

(** ** Removing connections

    [del] selects the connections to remove and [ev] the event sent for one: the end event
    exactly when it is removed and has not sent it yet. *)
Context (del : C → bool) (ev : C → option EventFields).
Definition ev_ok : Prop := ∀ c,
  match ev c with
  | Some e => event_of TypeEnd c e ∧ ended c = false ∧ del c = true
  | None => del c = true → ended c = true
  end.

Definition removal_events (l : list (K * C)) : list EventFields := omap (λ p, ev p.2) l.

Lemma removal_events_cons p l :
  removal_events (p :: l) = match ev p.2 with Some e => e :: removal_events l | None => removal_events l end.
Proof. done. Qed.

Lemma removal_events_other l f typ :
  ev_ok → (typ ≠ TypeEnd ∨ Forall (λ p, flow_of p.2 ≠ f) l) → count_events f typ (removal_events l) = 0%nat.
Proof.
  intros Hev Hl. induction l as [|p l IH]; [done|]. rewrite removal_events_cons.
  assert (IH' : count_events f typ (removal_events l) = 0%nat).
  { apply IH. destruct Hl as [?|[_ ?]%Forall_cons]; auto. }
  pose proof (Hev p.2) as He. destruct (ev p.2) as [e|]; [|done]. destruct He as ([Hf Ht] & _).
  change (?x :: ?y) with ([x] ++ y). rewrite count_app, count_one, IH', decide_False; [done|].
  intros [? ?]. destruct Hl as [?|[? _]%Forall_cons]; congruence.
Qed.

Lemma Inv_remove m evs F S :
  ev_ok → Inv m evs F S →
  Inv (filter (λ p, del p.2 = false) m) (evs ++ removal_events (map_to_list m)) F S.
Proof.
  intros Hev [Ho Hu Hf Hs Hn].
  assert (Hst : ∀ f, count_events f TypeStart (removal_events (map_to_list m)) = 0%nat).
  { intros f. apply removal_events_other; [done|]. by left. }
  assert (Hnone : ∀ f, (∀ k c, m !! k = Some c → flow_of c ≠ f) →
    count_events f TypeEnd (removal_events (map_to_list m)) = 0%nat).
  { intros f Hno. apply removal_events_other; [done|]. right. apply Forall_forall.
    intros [k c] Hin%elem_of_map_to_list. by eapply Hno. }
  assert (Hone : ∀ k c, m !! k = Some c →
    count_events (flow_of c) TypeEnd (removal_events (map_to_list m)) = b2n (bool_decide (is_Some (ev c)))).
  { intros k c Hk. assert (Hp : map_to_list m ≡ₚ (k, c) :: map_to_list (delete k m)).
    { by rewrite map_to_list_delete. }
    unfold removal_events at 1. rewrite Hp. fold (removal_events ((k, c) :: map_to_list (delete k m))).
    rewrite removal_events_cons. cbn [snd].
    assert (Hrest : count_events (flow_of c) TypeEnd (removal_events (map_to_list (delete k m))) = 0%nat).
    { apply removal_events_other; [done|]. right. apply Forall_forall. intros [k1 c1] Hin%elem_of_map_to_list.
      apply lookup_delete_Some in Hin as [Hne Hk1]. simpl. intros E. apply Hne. symmetry. by eapply Hu. }
    pose proof (Hev c) as He. destruct (ev c) as [e|]; [|by rewrite Hrest]. destruct He as (Hoe & _).
    change (?x :: ?y) with ([x] ++ y). by rewrite count_app, count_one, Hrest, decide_True. }
  split.
  - intros k c [Hk Hkeep]%map_lookup_filter_Some. destruct (Ho k c Hk) as [(? & ? & ? & ?) ?].
    split; [|done]. unfold open_conn. rewrite !count_app, Hst, (Hone k c Hk).
    pose proof (Hev c) as He. destruct (ev c) as [e|].
    + destruct He as (_ & _ & He). simpl in Hkeep. congruence.
    + rewrite bool_decide_eq_false_2 by (by intros [? ?]). split_and!; try done; lia.
  - intros k1 k2 c1 c2 [? _]%map_lookup_filter_Some [? _]%map_lookup_filter_Some. by eapply Hu.
  - intros f HfF. destruct (Hf f HfF). rewrite !count_app, Hst, Hnone; [lia|].
    intros k c Hk E. destruct (Ho k c Hk) as [(? & _) _]. congruence.
  - intros f HS Hno. unfold settled. rewrite !count_app, Hst.
    destruct (decide (Exists (λ p, flow_of p.2 = f) (map_to_list m))) as [Hex|Hnex].
    + apply Exists_exists in Hex as ([k c] & Hin%elem_of_map_to_list & <-). simpl in *.
      rewrite (Hone k c Hin). destruct (Ho k c Hin) as [(_ & _ & -> & ->) _].
      assert (Hdel : del c = true).
      { destruct (del c) eqn:E; [done|]. exfalso. apply (Hno k c); [|done].
        by apply map_lookup_filter_Some. }
      right. split; [lia|]. pose proof (Hev c) as He. destruct (ev c) as [e|].
      * destruct He as (_ & -> & _). by rewrite bool_decide_eq_true_2.
      * rewrite (He Hdel). by rewrite bool_decide_eq_false_2 by (by intros [? ?]).
    + rewrite Hnone; [rewrite !Nat.add_0_r; apply Hs; [done|]|];
        intros k c Hk E; apply Hnex, Exists_exists; exists (k, c); by rewrite elem_of_map_to_list.
  - intros f HS. destruct (Hn f HS) as (? & ? & ?). rewrite !count_app, Hst, Hnone; [split_and!; try done; lia|].
    intros k c Hk E. destruct (Ho k c Hk) as [_ ?]. congruence.
Qed.
End accounts.

(** * Datagram flows

    Tables whose connections are kept alive by packets alone: how long an entry stays, and
    which operations of the past an entry is evidence of. *)
Section datagrams.
Context {K : Type} `{Countable K} {C : Type} (base_of : C → BaseConnTrack).

(** The flow [k] has been seen at [tau] or later. *)
Definition alive (tau : Z) (k : K) (m : gmap K C) : Prop :=
  ∃ c, m !! k = Some c ∧ tau ≤ lastSeen (base_of c).

Lemma alive_insert tau k m k' c :
  alive tau k m ∨ k' = k → (k' = k → tau ≤ lastSeen (base_of c)) → alive tau k (<[k' := c]> m).
Proof.
  intros Ha Hc. destruct (decide (k' = k)) as [->|Hne].
  - exists c. by rewrite lookup_insert_eq; auto.
  - destruct Ha as [(c0 & Hk & ?)|]; [|done]. exists c0. by rewrite lookup_insert_ne.
Qed.

Definition drop_stale (now timeout : Z) (m : gmap K C) : gmap K C :=
  filter (λ p, timeoutExceeded now timeout (base_of p.2) = false) m.

Lemma alive_drop_stale tau now timeout k m :
  alive tau k m → now ≤ tau + timeout → alive tau k (drop_stale now timeout m).
Proof.
  intros (c & Hk & Hc) Hn. exists c. split; [|done]. apply map_lookup_filter_Some. split; [done|].
  unfold timeoutExceeded. simpl. lia.
Qed.

(** Every entry is evidence of two operations of the history [h]: one that opened it and one
    that it was last seen by. *)
Context {Op : Type} (time : Op → Z) (mentions opens : Op → K → Prop).

Definition evidenced (h : list Op) (m : gmap K C) : Prop :=
  ∀ k c, m !! k = Some c →
    (∃ x, x ∈ h ∧ opens x k) ∧ ∃ x, x ∈ h ∧ mentions x k ∧ time x = lastSeen (base_of c).

Lemma evidenced_mono h x m : evidenced h m → evidenced (x :: h) m.
Proof.
  intros He k c Hk. destruct (He k c Hk) as [(y & ? & ?) (z & ? & ? & ?)].
  split; [exists y|exists z]; rewrite elem_of_cons; auto.
Qed.

Lemma evidenced_touch h x m k c c' :
  evidenced h m → m !! k = Some c → mentions x k → time x = lastSeen (base_of c') →
  evidenced (x :: h) (<[k := c']> m).
Proof.
  intros He Hk Hm Ht k1 c1. destruct (decide (k1 = k)) as [->|Hne].
  - rewrite lookup_insert_eq. intros [= <-]. destruct (He k c Hk) as [(y & ? & ?) _].
    split; [exists y|exists x]; rewrite elem_of_cons; auto.
  - rewrite lookup_insert_ne by done. apply evidenced_mono, He.
Qed.

Lemma evidenced_open h x m k c :
  evidenced h m → opens x k → mentions x k → time x = lastSeen (base_of c) →
  evidenced (x :: h) (<[k := c]> m).
Proof.
  intros He Ho Hm Ht k1 c1. destruct (decide (k1 = k)) as [->|Hne].
  - rewrite lookup_insert_eq. intros [= <-]. split; exists x; rewrite elem_of_cons; auto.
  - rewrite lookup_insert_ne by done. apply evidenced_mono, He.
Qed.

Lemma evidenced_drop h x m now timeout : evidenced h m → evidenced (x :: h) (drop_stale now timeout m).
Proof. intros He k c [Hk _]%map_lookup_filter_Some. by apply (evidenced_mono h x m He). Qed.

(** ** Steps

    What one operation [x] of a datagram tracker may do to the table.  [flow x] is the flow id
    it would draw, [single x] says that it may report a packet without opening a connection. *)
Context (flow : Op → option Z) (single : Op → Prop).
Abbreviation flow_of c := (FlowId (base_of c)).

Inductive dstep (tmo : Z) (x : Op) (m : gmap K C) : gmap K C → list EventFields → Prop :=
| d_same : dstep tmo x m m []
| d_touch k c c' :
    m !! k = Some c → mentions x k → lastSeen (base_of c') = time x → flow_of c' = flow_of c →
    dstep tmo x m (<[k := c']> m) []
| d_open k c e :
    m !! k = None → opens x k → mentions x k → lastSeen (base_of c) = time x →
    flow x = Some (flow_of c) → event_of (λ c, flow_of c) TypeStart c e →
    dstep tmo x m (<[k := c]> m) [e]
| d_single e :
    single x → flow x = Some (e_FlowID e) → e_Type e = TypeStart → dstep tmo x m m [e]
| d_clean ev :
    (∀ c, match ev c with
          | Some e => event_of (λ c, flow_of c) TypeEnd c e ∧ timeoutExceeded (time x) tmo (base_of c) = true
          | None => timeoutExceeded (time x) tmo (base_of c) = false
          end) →
    dstep tmo x m (drop_stale (time x) tmo m) (removal_events ev (map_to_list m)).

Lemma dstep_alive tmo x m m' evs tau k :
  dstep tmo x m m' evs → alive tau k m → tau ≤ time x ≤ tau + tmo → alive tau k m'.
Proof.
  intros Hd Ha Ht. destruct Hd as [|k1 c c' ? ? Hl ?|k1 c e ? ? ? Hl ? ?|e ? ? ?|ev Hev]; try done.
  - apply alive_insert; [by left|]. rewrite Hl. lia.
  - apply alive_insert; [by left|]. rewrite Hl. lia.
  - apply alive_drop_stale; [done|lia].
Qed.

Lemma dstep_evidenced tmo x m m' evs h :
  dstep tmo x m m' evs → evidenced h m → evidenced (x :: h) m'.
Proof.
  intros Hd He. destruct Hd; [by apply evidenced_mono|eapply evidenced_touch; eauto
    |by apply evidenced_open|by apply evidenced_mono|by apply evidenced_drop].
Qed.

(** Connections in the table have not sent their end event. *)
Definition dInv (m : gmap K C) (evs : list EventFields) (F S : gset Z) : Prop :=
  Inv (λ c, flow_of c) (λ _, false) (λ _, True) m evs F S.

Definition draw (x : Op) (F : gset Z) : gset Z :=
  match flow x with Some f => {[ f ]} ∪ F | None => F end.

Lemma dInv_draw x m evs F S : dInv m evs F S → dInv m evs (draw x F) S.
Proof. intros HI. eapply Inv_mono; [|done]. unfold draw. case_match; set_solver. Qed.

Lemma dstep_accounts tmo x m m' evs evs' F S :
  dstep tmo x m m' evs' → dInv m evs F S → (∀ f, flow x = Some f → f ∉ F) →
  ∃ S', dInv m' (evs ++ evs') (draw x F) S' ∧ (S' = S ∨ single x).
Proof.
  intros Hd HI Hfr. destruct Hd as [|k c c' Hk _ _ Hf|k c e Hk _ _ _ Hf He|e Hs Hf Ht|ev Hev].
  - exists S. rewrite app_nil_r. split; [by apply dInv_draw|by left].
  - exists S. split; [|by left]. apply dInv_draw. eapply Inv_update; [done..|]. by apply accounted_quiet.
  - exists S. split; [|by left]. unfold draw. rewrite Hf.
    apply (Inv_new _ _ _ m evs F S k (flow_of c) c c [] e); [done|by apply Hfr|done..| |done|].
    + by apply accounted_quiet.
    + intros ?. by rewrite Hk.
  - eexists. split; [|by right]. unfold draw. rewrite Hf. by apply Inv_single; [|apply Hfr|..].
  - exists S. split; [|by left]. apply dInv_draw.
    apply (Inv_remove _ _ _ (λ c, timeoutExceeded (time x) tmo (base_of c)) ev); [|done].
    intros c. specialize (Hev c). destruct (ev c); [naive_solver|congruence].
Qed.
End datagrams.
