(* ===== verification/ConnTrack.v ===== *)
(** TCP connection tracking of the user-space packet filter:
    [src/client/firewall/uspfilter/conntrack/tcp.go], on top of [FlowTable].

    A packet is handled by one call; the calls are run one after the other, so a
    [CompareAndSwap] fails only when its expected value is wrong.  A connection is
    reached through a pointer in the source: here every update writes it back under its
    key.  After [Close] the connection map is nil ([None]): reading it finds nothing,
    writing it panics.  [uuid.New] is an argument ([flow]), as is the clock ([now], in
    nanoseconds); [netip.Addr] is an opaque number.  Log calls are left out. *)
From S2P Require Import Prelude FlowTable.
Open Scope Z_scope.

Definition MSL : Z := 2 * Minute.
Definition TimeWaitTimeout : Z := 2 * MSL.

Definition TCPFin : Z := 0x01.
Definition TCPSyn : Z := 0x02.
Definition TCPRst : Z := 0x04.
Definition TCPPush : Z := 0x08.
Definition TCPAck : Z := 0x10.
Definition TCPUrg : Z := 0x20.

Definition DefaultTCPTimeout : Z := 3 * Hour.
Definition TCPHandshakeTimeout : Z := 60 * Second.

Inductive TCPState :=
| TCPStateNew | TCPStateSynSent | TCPStateSynReceived | TCPStateEstablished | TCPStateFinWait1
| TCPStateFinWait2 | TCPStateClosing | TCPStateTimeWait | TCPStateCloseWait | TCPStateLastAck
| TCPStateClosed.
#[export] Instance TCPState_eq_dec : EqDecision TCPState.
Proof. solve_decision. Defined.

Definition TCPState_String (s : TCPState) : string :=
  match s with
  | TCPStateNew => "New" | TCPStateSynSent => "SYN Sent" | TCPStateSynReceived => "SYN Received"
  | TCPStateEstablished => "Established" | TCPStateFinWait1 => "FIN Wait 1"
  | TCPStateFinWait2 => "FIN Wait 2" | TCPStateClosing => "Closing" | TCPStateTimeWait => "Time Wait"
  | TCPStateCloseWait => "Close Wait" | TCPStateLastAck => "Last ACK" | TCPStateClosed => "Closed"
  end.

(** The [iota] constants. *)
Definition state_num (s : TCPState) : Z :=
  match s with
  | TCPStateNew => 0 | TCPStateSynSent => 1 | TCPStateSynReceived => 2 | TCPStateEstablished => 3
  | TCPStateFinWait1 => 4 | TCPStateFinWait2 => 5 | TCPStateClosing => 6 | TCPStateTimeWait => 7
  | TCPStateCloseWait => 8 | TCPStateLastAck => 9 | TCPStateClosed => 10
  end.

(** The embedded [BaseConnTrack] is a coercion, as field access through it is in Go. *)
Record TCPConnTrack := {
  base :> BaseConnTrack; SourcePort : Z; DestPort : Z; state : TCPState; tombstone : bool }.

Definition set_base (b : BaseConnTrack) (c : TCPConnTrack) : TCPConnTrack :=
  {| base := b; SourcePort := SourcePort c; DestPort := DestPort c; state := state c;
     tombstone := tombstone c |}.

Definition SetState (s : TCPState) (c : TCPConnTrack) : TCPConnTrack :=
  {| base := base c; SourcePort := SourcePort c; DestPort := DestPort c; state := s;
     tombstone := tombstone c |}.

Definition SetTombstone (c : TCPConnTrack) : TCPConnTrack :=
  {| base := base c; SourcePort := SourcePort c; DestPort := DestPort c; state := state c;
     tombstone := true |}.

Definition CompareAndSwapState (old new : TCPState) (c : TCPConnTrack) : bool * TCPConnTrack :=
  if bool_decide (state c = old) then (true, SetState new c) else (false, c).

(** [flags&mask != 0] *)
Definition has (flags mask : Z) : bool := negb (Z.land flags mask =? 0).

Definition IsSupersededBy (flags : Z) (c : TCPConnTrack) : bool :=
  if tombstone c then true
  else has flags TCPSyn && negb (has flags TCPAck) && bool_decide (state c = TCPStateTimeWait).

Definition sendEvent (typ : EventType) (c : TCPConnTrack) (ruleID : option string) : EventFields :=
  base_event typ c ruleID ProtoTCP (SourcePort c) (DestPort c) 0 0.

(** *** The state machine: the [switch] of [updateState]

    The result is [TCPStateNew], the zero value, when no case applies. *)
Definition nextState (currentState : TCPState) (connDir packetDir : Direction) (flags : Z) : TCPState :=
  match currentState with
  | TCPStateNew =>
      if has flags TCPSyn && negb (has flags TCPAck)
      then if bool_decide (connDir = Egress) then TCPStateSynSent else TCPStateSynReceived
      else TCPStateNew
  | TCPStateSynSent =>
      if has flags TCPSyn && has flags TCPAck
      then if bool_decide (packetDir ≠ connDir) then TCPStateEstablished else TCPStateSynReceived
      else TCPStateNew
  | TCPStateSynReceived =>
      if has flags TCPAck && negb (has flags TCPSyn)
      then if bool_decide (packetDir = connDir) then TCPStateEstablished else TCPStateNew
      else TCPStateNew
  | TCPStateEstablished =>
      if has flags TCPFin
      then if bool_decide (packetDir = connDir) then TCPStateFinWait1 else TCPStateCloseWait
      else TCPStateNew
  | TCPStateFinWait1 =>
      if bool_decide (packetDir ≠ connDir) then
        if has flags TCPFin && has flags TCPAck then TCPStateClosing
        else if has flags TCPFin then TCPStateClosing
        else if has flags TCPAck then TCPStateFinWait2 else TCPStateNew
      else TCPStateNew
  | TCPStateFinWait2 => if has flags TCPFin then TCPStateTimeWait else TCPStateNew
  | TCPStateClosing => if has flags TCPAck then TCPStateTimeWait else TCPStateNew
  | TCPStateCloseWait => if has flags TCPFin then TCPStateLastAck else TCPStateNew
  | TCPStateLastAck => if has flags TCPAck then TCPStateClosed else TCPStateNew
  | TCPStateTimeWait | TCPStateClosed => TCPStateNew
  end.

Definition updateState (now : Z) (c : TCPConnTrack) (flags : Z) (packetDir : Direction) (size : Z)
    : TCPConnTrack * list EventFields :=
  let c := set_base (UpdateCounters packetDir size (UpdateLastSeen now c)) c in
  let currentState := state c in
  if has flags TCPRst then
    let '(swapped, c) := CompareAndSwapState currentState TCPStateClosed c in
    if (swapped : bool)
    then let c := SetTombstone c in (c, [sendEvent TypeEnd c None])
    else (c, [])
  else
    let newState := nextState currentState (Dir c) packetDir flags in
    if negb (state_num newState =? 0) then
      let '(swapped, c) := CompareAndSwapState currentState newState c in
      if (swapped : bool) then
        match newState with
        | TCPStateTimeWait => (c, [sendEvent TypeEnd c None])
        | TCPStateClosed => let c := SetTombstone c in (c, [sendEvent TypeEnd c None])
        | _ => (c, [])
        end
      else (c, [])
    else (c, []).

Definition isValidFlagCombination (flags : Z) : bool :=
  if has flags TCPSyn && has flags TCPFin then false
  else if has flags TCPRst && (has flags TCPSyn || has flags TCPFin) then false
  else true.

Definition isValidStateForFlags (s : TCPState) (flags : Z) : bool :=
  if negb (isValidFlagCombination flags) then false
  else if has flags TCPRst then
    match s with TCPStateSynSent => has flags TCPAck | _ => true end
  else
    match s with
    | TCPStateNew => has flags TCPSyn && negb (has flags TCPAck)
    | TCPStateSynSent => has flags TCPSyn && has flags TCPAck
    | TCPStateSynReceived | TCPStateEstablished => has flags TCPAck
    | TCPStateFinWait1 | TCPStateFinWait2 => has flags TCPFin || has flags TCPAck
    | TCPStateClosing | TCPStateTimeWait => has flags TCPAck
    | TCPStateCloseWait => has flags TCPFin || has flags TCPAck
    | TCPStateLastAck | TCPStateClosed => has flags TCPAck
    end.

(** *** The tracker *)
Record TCPTracker := {
  connections : option (gmap ConnKey TCPConnTrack);
  timeout : Z;
  waitTimeout : Z;
}.

Definition NewTCPTracker (t : Z) : TCPTracker :=
  {| connections := Some ∅;
     timeout := if t =? 0 then DefaultTCPTimeout else t;
     waitTimeout := if t =? 0 then TimeWaitTimeout else Z.quot t 45 |}.

Definition get (k : ConnKey) (t : TCPTracker) : option TCPConnTrack := connections t ≫= (.!! k).

Definition set_connections (m : option (gmap ConnKey TCPConnTrack)) (t : TCPTracker) : TCPTracker :=
  {| connections := m; timeout := timeout t; waitTimeout := waitTimeout t |}.

(** The connection behind the pointer changes; the key is there already. *)
Definition write_back (k : ConnKey) (c : TCPConnTrack) (t : TCPTracker) : TCPTracker :=
  set_connections (<[k := c]> <$> connections t) t.

(** One packet. *)
Record packet := { p_src : Z; p_dst : Z; p_sport : Z; p_dport : Z; p_flags : Z; p_size : Z }.

Definition key_of (p : packet) : ConnKey :=
  {| SrcIP := p_src p; DstIP := p_dst p; SrcPort := p_sport p; DstPort := p_dport p |}.
Definition rev_key_of (p : packet) : ConnKey :=
  {| SrcIP := p_dst p; DstIP := p_src p; SrcPort := p_dport p; DstPort := p_sport p |}.

(** Result: the DNAT port when the connection exists, the tracker and the events. *)
Definition updateIfExists (now : Z) (k : ConnKey) (flags : Z) (d : Direction) (size : Z) (t : TCPTracker)
    : option Z * TCPTracker * list EventFields :=
  match get k t with
  | Some c =>
      if IsSupersededBy flags c then (None, t, [])
      else
        let '(c, evs) := updateState now c flags d size in
        (Some (wrap_u16 (DNATOrigPort c)), write_back k c t, evs)
  | None => (None, t, [])
  end.

Definition newConn (flow : Z) (d : Direction) (p : packet) (origPort : Z) : TCPConnTrack :=
  {| base := StoreDNATOrigPort origPort (newBase flow d (p_src p) (p_dst p));
     SourcePort := p_sport p; DestPort := p_dport p; state := TCPStateNew; tombstone := false |}.

Definition track (now flow : Z) (p : packet) (d : Direction) (ruleID : option string) (origPort : Z)
    (t : TCPTracker) : outcome Empty_set (TCPTracker * list EventFields) :=
  let '(ex, t, evs) := updateIfExists now (key_of p) (p_flags p) d (p_size p) t in
  if bool_decide (is_Some ex) || negb (has (p_flags p) TCPSyn) then Ret (t, evs)
  else
    let '(c, evs') := updateState now (newConn flow d p origPort) (p_flags p) d (p_size p) in
    match connections t with
    | None => Panic
    | Some m =>
        Ret (set_connections (Some (<[key_of p := c]> m)) t,
             evs ++ evs' ++ [sendEvent TypeStart c ruleID])
    end.

Definition TrackOutbound (now flow : Z) (p : packet) (t : TCPTracker)
    : outcome Empty_set (Z * TCPTracker * list EventFields) :=
  match updateIfExists now (rev_key_of p) (p_flags p) Egress (p_size p) t with
  | (Some origPort, t, evs) => Ret (origPort, t, evs)
  | (None, t, evs) =>
      '(t, evs') ← track now flow p Egress None 0 t;
      Ret (0, t, evs ++ evs')
  end.

Definition TrackInbound (now flow : Z) (p : packet) (ruleID : option string) (dnatOrigPort : Z)
    (t : TCPTracker) : outcome Empty_set (TCPTracker * list EventFields) :=
  track now flow p Ingress ruleID dnatOrigPort t.

Definition IsValidInbound (now : Z) (p : packet) (t : TCPTracker) : bool * TCPTracker * list EventFields :=
  match get (rev_key_of p) t with
  | None => (false, t, [])
  | Some c =>
      if IsSupersededBy (p_flags p) c then (false, t, [])
      else if negb (isValidStateForFlags (state c) (p_flags p)) then
        if bool_decide (state c = TCPStateEstablished) then (true, t, []) else (false, t, [])
      else
        let '(c, evs) := updateState now c (p_flags p) Ingress (p_size p) in
        (true, write_back (rev_key_of p) c t, evs)
  end.

Definition state_timeout (s : TCPState) (t : TCPTracker) : Z :=
  match s with
  | TCPStateTimeWait => waitTimeout t
  | TCPStateEstablished => timeout t
  | _ => TCPHandshakeTimeout
  end.

(** The loop body of [cleanup]: delete the entry?, and the event to send. *)
Definition cleanup_one (now : Z) (t : TCPTracker) (c : TCPConnTrack) : bool * option EventFields :=
  if tombstone c then (true, None)
  else if timeoutExceeded now (state_timeout (state c) t) c
  then (true, if bool_decide (state c ≠ TCPStateTimeWait) then Some (sendEvent TypeEnd c None) else None)
  else (false, None).

(** Go ranges over the map in an unspecified order. *)
Definition cleanup (now : Z) (t : TCPTracker) : TCPTracker * list EventFields :=
  (set_connections (filter (λ p, (cleanup_one now t p.2).1 = false) <$> connections t) t,
   omap (λ p, (cleanup_one now t p.2).2) (map_to_list (default ∅ (connections t)))).

Definition GetConnection (srcIP srcPort dstIP dstPort : Z) (t : TCPTracker) : option TCPConnTrack :=
  get {| SrcIP := srcIP; DstIP := dstIP; SrcPort := srcPort; DstPort := dstPort |} t.

Definition Close (t : TCPTracker) : TCPTracker := set_connections None t.

(** ** Flow accounting *)
Definition ended (c : TCPConnTrack) : bool := tombstone c || bool_decide (state c = TCPStateTimeWait).

(** A closed connection is always tombstoned. *)
Definition conn_ok (c : TCPConnTrack) : Prop := state c = TCPStateClosed → tombstone c = true.

Lemma nextState_not_final s cd pd flags :
  nextState s cd pd flags ≠ TCPStateNew → s ≠ TCPStateTimeWait ∧ s ≠ TCPStateClosed.
Proof. by destruct s. Qed.

Definition tcp_flow (c : TCPConnTrack) : Z := FlowId c.
Abbreviation tcp_accounted := (accounted tcp_flow ended conn_ok).
Abbreviation tcp_Inv m evs F := (Inv tcp_flow ended conn_ok m evs F ∅).

Lemma sendEvent_of typ c r : event_of tcp_flow typ c (sendEvent typ c r).
Proof. done. Qed.

(** One packet sends the end event exactly when it ends the connection. *)
Lemma updateState_spec now c flags d size c' evs :
  updateState now c flags d size = (c', evs) →
  conn_ok c → tombstone c = false → (has flags TCPRst = true → state c ≠ TCPStateTimeWait) →
  tcp_accounted c c' evs.
Proof.
  intros Hu Hok Ht Hr. unfold updateState in Hu. set (c1 := set_base _ c) in *.
  assert (Hs : state c1 = state c) by done. assert (Hf : tcp_flow c1 = tcp_flow c) by done.
  assert (Ht1 : tombstone c1 = false) by done. clearbody c1.
  assert (He : ended c = bool_decide (state c = TCPStateTimeWait)) by (unfold ended; by rewrite Ht).
  unfold CompareAndSwapState in Hu. rewrite bool_decide_eq_true_2 in Hu by done.
  destruct (has flags TCPRst) eqn:Hrst.
  - injection Hu as <- <-. specialize (Hr eq_refl).
    apply accounted_end; [apply sendEvent_of|done..|]. by rewrite He, bool_decide_eq_false_2.
  - clear Hr. rewrite Hs in Hu. pose proof (nextState_not_final (state c) (Dir c1) d flags) as Hnw.
    remember (nextState (state c) (Dir c1) d flags) as ns eqn:Hns. clear Hns.
    destruct (decide (ns = TCPStateNew)) as [->|Hnn].
    { injection Hu as <- <-. apply accounted_quiet; [done| |].
      - unfold conn_ok. rewrite Hs. intros Hc. specialize (Hok Hc). congruence.
      - unfold ended. by rewrite Hs, Ht1, Ht. }
    destruct (Hnw Hnn) as [Hntw _]. rewrite bool_decide_eq_false_2 in He by done.
    assert (Hquiet : ns ≠ TCPStateTimeWait → ns ≠ TCPStateClosed → tcp_accounted c (SetState ns c1) []).
    { intros ? ?. apply accounted_quiet; [done|intros Hc; simpl in Hc; by subst|]. rewrite He. unfold ended. simpl.
      by rewrite Ht1, bool_decide_eq_false_2. }
    destruct ns; cbn in Hu; injection Hu as <- <-;
      solve [done | by apply Hquiet | apply accounted_end; [apply sendEvent_of|done|done|unfold ended; simpl; by rewrite ?orb_true_r|done]].
Qed.

(** A reset in TIME-WAIT sends the end event once more. *)
Lemma updateState_again now c flags d size c' evs :
  updateState now c flags d size = (c', evs) → has flags TCPRst = true → state c = TCPStateTimeWait →
  evs = [sendEvent TypeEnd c' None] ∧ tombstone c' = true ∧ tcp_accounted c c' [].
Proof.
  intros Hu Hr Hs. unfold updateState in Hu. rewrite Hr in Hu. unfold CompareAndSwapState in Hu.
  rewrite bool_decide_eq_true_2 in Hu by done. injection Hu as <- <-. split; [done|]. split; [done|].
  apply accounted_quiet; [done..|]. transitivity true; [done|]. unfold ended. by rewrite Hs, bool_decide_eq_true_2, orb_true_r.
Qed.

(** *** Cleanup *)
Lemma cleanup_ok now t :
  ev_ok tcp_flow ended (λ c, (cleanup_one now t c).1) (λ c, (cleanup_one now t c).2).
Proof.
  intros c. unfold cleanup_one, ended. destruct (tombstone c); [done|].
  destruct (timeoutExceeded now (state_timeout (state c) t) c); [|done]. simpl.
  by repeat case_bool_decide.
Qed.

(** *** Runs of the tracker *)
Inductive op :=
| Outbound (now flow : Z) (p : packet)
| Inbound (now flow : Z) (p : packet) (ruleID : option string) (dnatOrigPort : Z)
| Check (now : Z) (p : packet)
| Cleanup (now : Z).

Definition exec (x : op) (t : TCPTracker) : outcome Empty_set (TCPTracker * list EventFields) :=
  match x with
  | Outbound now flow p => '(_, t, evs) ← TrackOutbound now flow p t; Ret (t, evs)
  | Inbound now flow p r port => TrackInbound now flow p r port t
  | Check now p => let '(_, t, evs) := IsValidInbound now p t in Ret (t, evs)
  | Cleanup now => Ret (cleanup now t)
  end.

(** The flow id drawn by an operation is a new one. *)
Definition fresh_flow (x : op) (F : gset Z) : Prop :=
  match x with Outbound _ f _ | Inbound _ f _ _ _ => f ∉ F | _ => True end.
Definition add_flow (x : op) (F : gset Z) : gset Z :=
  match x with Outbound _ f _ | Inbound _ f _ _ _ => {[ f ]} ∪ F | _ => F end.

(** The flows that an operation resets in TIME-WAIT. *)
Definition reset_in_wait (flags : Z) (k : ConnKey) (t : TCPTracker) : gset Z :=
  match get k t with
  | Some c => if has flags TCPRst && negb (IsSupersededBy flags c) && bool_decide (state c = TCPStateTimeWait) then {[ FlowId c ]} else ∅
  | None => ∅
  end.
Definition found (flags : Z) (k : ConnKey) (t : TCPTracker) : bool :=
  match get k t with Some c => negb (IsSupersededBy flags c) | None => false end.
Definition resets (x : op) (t : TCPTracker) : gset Z :=
  match x with
  | Outbound _ _ p => reset_in_wait (p_flags p) (if found (p_flags p) (rev_key_of p) t then rev_key_of p else key_of p) t
  | Inbound _ _ p _ _ => reset_in_wait (p_flags p) (key_of p) t
  | Check _ p => if isValidFlagCombination (p_flags p) then reset_in_wait (p_flags p) (rev_key_of p) t else ∅
  | Cleanup _ => ∅
  end.

(** A tracker with the events it has sent, the flow ids it has drawn, and the flows that were reset
    while they were in TIME-WAIT. *)
Inductive reach : TCPTracker → list EventFields → gset Z → gset Z → Prop :=
| reach_new tmo : reach (NewTCPTracker tmo) [] ∅ ∅
| reach_step t evs F D x t' evs' :
    reach t evs F D → fresh_flow x F → exec x t = Ret (t', evs') →
    reach t' (evs ++ evs') (add_flow x F) (resets x t ∪ D).

(** The events are those of the accounts, and one more end event for each flow in [D]. *)
Definition TInv (t : TCPTracker) (evs : list EventFields) (F D : gset Z) : Prop :=
  ∃ m core, connections t = Some m ∧ tcp_Inv m core F ∧ D ⊆ F
  ∧ (∀ k (c : TCPConnTrack), m !! k = Some c → FlowId c ∈ D → tombstone c = true)
  ∧ ∀ f, count_events f TypeStart evs = count_events f TypeStart core
       ∧ count_events f TypeEnd evs = (count_events f TypeEnd core + if decide (f ∈ D) then 1 else 0)%nat.

Lemma superseded_ended flags c : IsSupersededBy flags c = true → ended c = true.
Proof.
  unfold IsSupersededBy, ended. destruct (tombstone c); [done|]. simpl.
  rewrite !andb_true_iff. tauto.
Qed.

Lemma not_superseded_alive flags c : IsSupersededBy flags c = false → tombstone c = false.
Proof. unfold IsSupersededBy. by destruct (tombstone c). Qed.

(** The accounts after events that are all accounted for. *)
Lemma counts_app evs core evs' (D : gset Z) :
  (∀ f, count_events f TypeStart evs = count_events f TypeStart core
      ∧ count_events f TypeEnd evs = (count_events f TypeEnd core + if decide (f ∈ D) then 1 else 0)%nat) →
  ∀ f, count_events f TypeStart (evs ++ evs') = count_events f TypeStart (core ++ evs')
     ∧ count_events f TypeEnd (evs ++ evs') = (count_events f TypeEnd (core ++ evs') + if decide (f ∈ D) then 1 else 0)%nat.
Proof. intros H f. destruct (H f) as [H1 H2]. rewrite !count_app, H1, H2. lia. Qed.

Lemma updateIfExists_inv now k flags d size t evs F D r t' evs' :
  TInv t evs F D → updateIfExists now k flags d size t = (r, t', evs') →
  TInv t' (evs ++ evs') F (reset_in_wait flags k t ∪ D)
  ∧ bool_decide (is_Some r) = found flags k t
  ∧ (r = None → t' = t ∧ evs' = [] ∧ reset_in_wait flags k t = ∅ ∧ ∀ c, get k t = Some c → ended c = true).
Proof.
  intros (m & core & Hm & HI & HD & Ht & Hc). unfold updateIfExists, reset_in_wait, found. destruct (get k t) as [c|] eqn:Hk.
  - destruct (IsSupersededBy flags c) eqn:Hsup.
    + intros [= <- <- <-]. cbn [negb]. rewrite app_nil_r, andb_false_r. cbn [andb]. rewrite (left_id_L ∅ (∪)). split; [by exists m, core|]. split; [done|]. intros _. split_and!; try done.
      intros ? [= <-]. by eapply superseded_ended.
    + destruct (updateState now c flags d size) as [c' e] eqn:Hu. intros [= <- <- <-].
      assert (Hk' : m !! k = Some c) by (unfold get in Hk; by rewrite Hm in Hk).
      assert (Hok : conn_ok c) by (by destruct (inv_open _ _ _ _ _ _ _ HI k c Hk') as [(_ & ? & _) _]).
      assert (HcF : FlowId c ∈ F) by (by destruct (inv_open _ _ _ _ _ _ _ HI k c Hk') as [(? & _) _]).
      pose proof (not_superseded_alive _ _ Hsup) as Halive.
      split; [|split; [by apply bool_decide_eq_true_2|done]]. cbn [negb]. rewrite andb_true_r.
      destruct (has flags TCPRst && bool_decide (state c = TCPStateTimeWait)) eqn:Hrst.
      * apply andb_true_iff in Hrst as [Hr Hs%bool_decide_eq_true]. destruct (updateState_again _ _ _ _ _ _ _ Hu Hr Hs) as (-> & Ht' & Ha).
        assert (Hf : FlowId c' = FlowId c) by apply Ha. assert (HnD : FlowId c ∉ D) by (intros Hin; rewrite (Ht k c Hk' Hin) in Halive; done).
        exists (<[k := c']> m), (core ++ []). split; [simpl; by rewrite Hm|]. split; [by eapply Inv_update|]. split; [set_solver|]. split.
        -- intros k1 c1 [[<- <-]|[Hne Hk1]]%lookup_insert_Some; [done|]. intros [Hin%elem_of_singleton|Hin]%elem_of_union; [|by eapply Ht].
           destruct Hne. by eapply (inv_inj _ _ _ _ _ _ _ HI k k1 c c1).
        -- intros f. destruct (Hc f) as [H1 H2]. rewrite app_nil_r, !count_app, !count_one, H1, H2. split.
           ++ rewrite decide_False; [lia|]. by intros [_ ?].
           ++ change (e_FlowID (sendEvent TypeEnd c' None)) with (FlowId c'). rewrite Hf. destruct (decide (FlowId c = f)) as [<-|Hne].
              ** rewrite (decide_True (P := _ ∧ _)) by done. rewrite (decide_False (P := FlowId c ∈ D)) by done. rewrite decide_True by set_solver. lia.
              ** rewrite (decide_False (P := _ ∧ _)) by tauto. rewrite (decide_ext (f ∈ {[FlowId c]} ∪ D) (f ∈ D)) by set_solver. lia.
      * rewrite (left_id_L ∅ (∪)). assert (Ha : tcp_accounted c c' e).
        { eapply updateState_spec; [done..|]. intros Hr Hs. rewrite Hr, bool_decide_eq_true_2 in Hrst by done. done. }
        exists (<[k := c']> m), (core ++ e). split; [simpl; by rewrite Hm|]. split; [by eapply Inv_update|]. split; [done|]. split; [|exact (counts_app _ _ _ _ Hc)].
        intros k1 c1 [[<- <-]|[Hne Hk1]]%lookup_insert_Some; [|by apply (Ht k1)]. assert (Hf : FlowId c' = FlowId c) by apply Ha. rewrite Hf.
        intros Hin. rewrite (Ht k c Hk' Hin) in Halive. done.
  - intros [= <- <- <-]. rewrite app_nil_r, (left_id_L ∅ (∪)). split; [by exists m, core|]. done.
Qed.

Lemma TInv_mono t evs F F' D : F ⊆ F' → TInv t evs F D → TInv t evs F' D.
Proof. intros Hs (m & core & ? & ? & ? & ? & ?). exists m, core. split; [done|]. split; [by eapply Inv_mono|]. split; [set_solver|done]. Qed.

Lemma track_inv now flow p d r port t evs F D :
  TInv t evs F D → flow ∉ F →
  ∃ t' evs', track now flow p d r port t = Ret (t', evs')
    ∧ TInv t' (evs ++ evs') ({[ flow ]} ∪ F) (reset_in_wait (p_flags p) (key_of p) t ∪ D).
Proof.
  intros HT HnF. unfold track.
  destruct (updateIfExists now (key_of p) (p_flags p) d (p_size p) t) as [[ex t1] e1] eqn:Hu.
  destruct (updateIfExists_inv _ _ _ _ _ _ _ _ _ _ _ _ HT Hu) as (HT1 & _ & Hnone).
  destruct (bool_decide (is_Some ex) || negb (has (p_flags p) TCPSyn)) eqn:Hc.
  { eexists _, _. split; [done|]. eapply TInv_mono; [|done]. set_solver. }
  apply orb_false_iff in Hc as [Hex%bool_decide_eq_false _].
  destruct ex as [?|]; [exfalso; eauto|]. destruct (Hnone eq_refl) as (-> & -> & -> & Hold). rewrite (left_id_L ∅ (∪)).
  destruct HT as (m & core & Hm & HI & HD & Ht & Hcnt). rewrite Hm.
  destruct (updateState now (newConn flow d p port) (p_flags p) d (p_size p)) as [c e2] eqn:Hu2.
  assert (Ha : tcp_accounted (newConn flow d p port) c e2) by (by eapply updateState_spec).
  eexists _, _. split; [done|]. exists (<[key_of p := c]> m), (core ++ e2 ++ [sendEvent TypeStart c r]). split; [done|].
  rewrite app_nil_l. split; [|split; [set_solver|split; [|exact (counts_app _ _ _ _ Hcnt)]]].
  - eapply (Inv_new _ _ _ m core F ∅ (key_of p) flow c (newConn flow d p port)); try done.
    intros c1 Hc1. apply Hold. unfold get. by rewrite Hm.
  - intros k1 c1 [[<- <-]|[Hne Hk1]]%lookup_insert_Some; [|by apply (Ht k1)]. assert (Hf : FlowId c = flow) by apply Ha. rewrite Hf. set_solver.
Qed.

Lemma exec_inv x t evs F D :
  TInv t evs F D → fresh_flow x F →
  ∃ t' evs', exec x t = Ret (t', evs') ∧ TInv t' (evs ++ evs') (add_flow x F) (resets x t ∪ D).
Proof.
  intros HT Hfr. destruct x as [now flow p|now flow p r port|now p|now]; cbn [exec resets].
  - unfold TrackOutbound.
    destruct (updateIfExists now (rev_key_of p) (p_flags p) Egress (p_size p) t) as [[ex t1] e1] eqn:Hu.
    destruct (updateIfExists_inv _ _ _ _ _ _ _ _ _ _ _ _ HT Hu) as (HT1 & <- & Hnone).
    destruct ex as [port|].
    + eexists _, _. split; [done|]. eapply TInv_mono; [|done]. set_solver.
    + destruct (Hnone eq_refl) as (-> & -> & _ & _).
      destruct (track_inv now flow p Egress None 0 t evs F D HT Hfr) as (t2 & e2 & -> & ?).
      eexists _, _. by split.
  - by apply track_inv.
  - unfold IsValidInbound. destruct (get (rev_key_of p) t) as [c|] eqn:Hk.
    2: { unfold reset_in_wait. rewrite Hk. eexists _, _. split; [done|]. rewrite app_nil_r. by destruct (isValidFlagCombination _); rewrite (left_id_L ∅ (∪)). }
    destruct (IsSupersededBy (p_flags p) c) eqn:Hsup.
    { unfold reset_in_wait. rewrite Hk, Hsup. cbn [negb]. rewrite andb_false_r. cbn [andb]. eexists _, _. split; [done|]. rewrite app_nil_r. by destruct (isValidFlagCombination _); rewrite (left_id_L ∅ (∪)). }
    destruct (isValidStateForFlags (state c) (p_flags p)) eqn:Hv; cbn [negb].
    + assert (Hvc : isValidFlagCombination (p_flags p) = true) by (unfold isValidStateForFlags in Hv; by destruct (isValidFlagCombination _)).
      rewrite Hvc. destruct (updateIfExists now (rev_key_of p) (p_flags p) Ingress (p_size p) t) as [[ex t1] e1] eqn:Hu.
      destruct (updateIfExists_inv _ _ _ _ _ _ _ _ _ _ _ _ HT Hu) as [HT1 _].
      unfold updateIfExists in Hu. rewrite Hk, Hsup in Hu.
      destruct (updateState now c (p_flags p) Ingress (p_size p)) as [c' e] eqn:Hu2. simplify_eq.
      eexists _, _. by split.
    + assert (Hno : (if isValidFlagCombination (p_flags p) then reset_in_wait (p_flags p) (rev_key_of p) t else ∅) = ∅).
      { unfold isValidStateForFlags in Hv. destruct (isValidFlagCombination (p_flags p)); [|done]. cbn [negb] in Hv. unfold reset_in_wait. rewrite Hk.
        destruct (has (p_flags p) TCPRst); [|done]. by destruct (state c); rewrite ?andb_false_r. }
      rewrite Hno, (left_id_L ∅ (∪)). case_bool_decide; eexists _, _; (split; [done|]); by rewrite app_nil_r.
  - destruct HT as (m & core & Hm & HI & HD & Ht & Hc). unfold cleanup. rewrite Hm. eexists _, _. split; [done|]. rewrite (left_id_L ∅ (∪)).
    eexists _, (core ++ _). split; [done|]. split; [by apply (Inv_remove _ _ _ _ _ _ _ _ _ (cleanup_ok now t))|]. split; [done|]. split; [|exact (counts_app _ _ _ _ Hc)].
    intros k c [Hk _]%map_lookup_filter_Some. by apply (Ht k).
Qed.

(** C17: Every tracked flow is accounted for exactly once, but for one case.  In every reachable
    tracker (flow ids drawn fresh) no operation panics; each flow has sent one start event; while
    its connection is in the table it has sent its end event exactly if it is tombstoned or in
    TIME-WAIT; and once it has left the table, by timeout, by cleanup or because a new connection
    took its place, it has sent exactly one.  The case: a flow that was reset while it was in
    TIME-WAIT has sent one end event more, two in all. *)
Theorem flow_accounted_once t evs F D :
  reach t evs F D →
  ∃ m, connections t = Some m
  ∧ (∀ k (c : TCPConnTrack), m !! k = Some c → count_events (FlowId c) TypeStart evs = 1%nat
       ∧ count_events (FlowId c) TypeEnd evs = ((if ended c then 1 else 0) + if decide (FlowId c ∈ D) then 1 else 0)%nat
       ∧ (FlowId c ∈ D → ended c = true))
  ∧ (∀ f, (∀ k (c : TCPConnTrack), m !! k = Some c → FlowId c ≠ f) →
       count_events f TypeEnd evs = (count_events f TypeStart evs + if decide (f ∈ D) then 1 else 0)%nat
       ∧ (count_events f TypeStart evs ≤ 1)%nat)
  ∧ (∀ x, fresh_flow x F → ∃ t' evs', exec x t = Ret (t', evs')).
Proof.
  intros Hreach.
  assert (HT : TInv t evs F D).
  { induction Hreach as [tmo|t evs F D x t' evs' _ IH Hfr Hex].
    - exists ∅, []. split; [done|]. split; [apply Inv_empty|]. done.
    - destruct (exec_inv x t evs F D IH Hfr) as (t2 & e2 & Hex2 & ?). congruence. }
  pose proof HT as (m & core & Hm & [Ho _ _ Hs _] & HD & Ht & Hc). exists m. split; [done|]. split_and!.
  - intros k c Hk. destruct (Ho k c Hk) as [(_ & _ & H1 & H2) _]. destruct (Hc (FlowId c)) as [E1 E2]. unfold tcp_flow in *. rewrite E1, E2, H1, H2.
    split_and!; [done..|]. intros Hin. unfold ended. by rewrite (Ht k c Hk Hin).
  - intros f Hno. destruct (Hc f) as [-> ->]. destruct (Hs f (not_elem_of_empty f) Hno) as [[-> ->]|[-> ->]]; split; lia.
  - intros x Hfr. destruct (exec_inv x t evs F D HT Hfr) as (t2 & e2 & ? & _). eauto.
Qed.

(** A reset that arrives for a connection in TIME-WAIT is let through and sends the
    end event again, although entering TIME-WAIT has sent it already: such a flow is
    reported as ended twice. *)
Theorem rst_in_time_wait_ends_twice now p t c :
  get (rev_key_of p) t = Some c → state c = TCPStateTimeWait → tombstone c = false →
  has (p_flags p) TCPRst = true → has (p_flags p) TCPSyn = false → has (p_flags p) TCPFin = false →
  ended c = true
  ∧ ∃ t' e, IsValidInbound now p t = (true, t', [e])
      ∧ e_FlowID e = FlowId c ∧ e_Type e = TypeEnd.
Proof.
  intros Hk Hs Ht Hr Hsyn Hfin. split; [unfold ended; by rewrite Hs, bool_decide_eq_true_2, orb_true_r|].
  unfold IsValidInbound. rewrite Hk. unfold IsSupersededBy. rewrite Ht, Hsyn. simpl.
  unfold isValidStateForFlags, isValidFlagCombination. rewrite Hr, Hsyn, Hfin, Hs. simpl.
  unfold updateState, CompareAndSwapState. rewrite Hr. simpl. rewrite bool_decide_eq_true_2 by done.
  eexists _, _. by split.
Qed.

(** After [Close] a connection attempt panics: the connection map is nil and [track]
    writes to it. *)
Theorem track_after_close_panics now flow p d r port t :
  has (p_flags p) TCPSyn = true → track now flow p d r port (Close t) = Panic.
Proof.
  intros Hs. unfold track, updateIfExists. simpl. rewrite Hs. simpl.
  by destruct (updateState now (newConn flow d p port) (p_flags p) d (p_size p)).
Qed.

(** ** The state machine *)

(** The packets of one connection, in order. *)
Definition feed (c : TCPConnTrack) (pkts : list (Direction * Z)) : TCPConnTrack :=
  foldl (λ c p, (updateState 0 c p.2 p.1 0).1) c pkts.

Definition rank (s : TCPState) : nat :=
  match s with
  | TCPStateNew => 0 | TCPStateSynSent => 1 | TCPStateSynReceived => 2 | TCPStateEstablished => 3
  | TCPStateFinWait1 | TCPStateCloseWait => 4
  | TCPStateFinWait2 | TCPStateClosing | TCPStateLastAck => 5
  | TCPStateTimeWait => 6 | TCPStateClosed => 7
  end.

Lemma updateState_state now c flags d size :
  state (updateState now c flags d size).1
  = if has flags TCPRst then TCPStateClosed
    else match nextState (state c) (Dir c) d flags with TCPStateNew => state c | s => s end.
Proof.
  unfold updateState, CompareAndSwapState. rewrite !bool_decide_eq_true_2 by done. simpl.
  destruct (has flags TCPRst); [done|]. by destruct (nextState (state c) (Dir c) d flags) eqn:E.
Qed.

Lemma updateState_dir now c flags d size : Dir (updateState now c flags d size).1 = Dir c.
Proof.
  unfold updateState, CompareAndSwapState. rewrite !bool_decide_eq_true_2 by done. simpl.
  destruct (has flags TCPRst); [done|]. by destruct (nextState (state c) (Dir c) d flags).
Qed.

Lemma feed_snoc c pkts p : feed c (pkts ++ [p]) = (updateState 0 (feed c pkts) p.2 p.1 0).1.
Proof. unfold feed. by rewrite foldl_app. Qed.

Lemma feed_dir c pkts : Dir (feed c pkts) = Dir c.
Proof.
  induction pkts as [|p pkts IH] using rev_ind; [done|]. by rewrite feed_snoc, updateState_dir.
Qed.

Lemma nextState_rank s cd pd flags :
  nextState s cd pd flags = TCPStateNew ∨ (rank s < rank (nextState s cd pd flags))%nat.
Proof. destruct s; simpl; repeat case_match; simpl; auto with lia. Qed.

(** A connection attempt (SYN without ACK), later answered by SYN and ACK. *)
Definition is_syn (p : Direction * Z) : bool := has p.2 TCPSyn && negb (has p.2 TCPAck).
Definition is_syn_ack (p : Direction * Z) : bool := has p.2 TCPSyn && has p.2 TCPAck.

Definition saw_syn (pkts : list (Direction * Z)) : Prop :=
  ∃ l p r, pkts = l ++ p :: r ∧ is_syn p = true.
Definition saw_handshake (pkts : list (Direction * Z)) : Prop :=
  ∃ l p m q r, pkts = l ++ p :: m ++ q :: r ∧ is_syn p = true ∧ is_syn_ack q = true.

Lemma saw_syn_snoc pkts p : saw_syn pkts ∨ is_syn p = true → saw_syn (pkts ++ [p]).
Proof.
  intros [(l & q & r & -> & Hq)|Hp].
  - exists l, q, (r ++ [p]). by rewrite <-app_assoc.
  - exists pkts, p, []. done.
Qed.

Lemma saw_handshake_snoc pkts p :
  saw_handshake pkts ∨ (saw_syn pkts ∧ is_syn_ack p = true) → saw_handshake (pkts ++ [p]).
Proof.
  intros [(l & a & m & b & r & -> & Ha & Hb)|[(l & a & r & -> & Ha) Hp]].
  - exists l, a, m, b, (r ++ [p]). split; [|done]. rewrite <-app_assoc. cbn [app]. by rewrite <-app_assoc.
  - exists l, a, r, p, []. split; [|done]. by rewrite <-app_assoc.
Qed.

Lemma updateState_rank now c flags d size :
  let s' := state (updateState now c flags d size).1 in
  (rank (state c) ≤ rank s' ≤ 7)%nat ∧ (rank (state c) = rank s' → state c = s').
Proof.
  simpl. rewrite updateState_state. destruct (has flags TCPRst).
  - by destruct (state c); simpl; auto with lia.
  - destruct (nextState_rank (state c) (Dir c) d flags) as [->|Hr]; [by destruct (state c); simpl; auto with lia|].
    destruct (nextState (state c) (Dir c) d flags); simpl in *; lia.
Qed.

Lemma handshake_evidence c pkts :
  state c = TCPStateNew → Dir c = Egress →
  (state (feed c pkts) = TCPStateSynSent → saw_syn pkts)
  ∧ (state (feed c pkts) ≠ TCPStateNew → state (feed c pkts) ≠ TCPStateSynSent →
     state (feed c pkts) ≠ TCPStateClosed → saw_handshake pkts).
Proof.
  intros Hn Hd. induction pkts as [|p pkts [IHs IHh]] using rev_ind; [simpl; by rewrite Hn|].
  rewrite feed_snoc, updateState_state, feed_dir, Hd. destruct (has p.2 TCPRst); [done|].
  assert (Hs : state (feed c pkts) = TCPStateSynSent ∨ is_syn p = true → saw_syn (pkts ++ [p])).
  { intros [?|?]; apply saw_syn_snoc; auto. }
  assert (Hh : saw_handshake pkts → saw_handshake (pkts ++ [p])) by (intros; apply saw_handshake_snoc; auto).
  destruct (state (feed c pkts)); simpl; try (repeat case_match; split; by auto).
  destruct (has p.2 TCPSyn && has p.2 TCPAck) eqn:E; [|split; [auto|congruence]].
  assert (saw_handshake (pkts ++ [p])) by (apply saw_handshake_snoc; right; split; [by apply IHs|done]).
  by case_bool_decide.
Qed.

(** The state of a connection only moves forward (a state is never entered twice, so
    at most seven packets change it), and an outgoing connection gets past the handshake
    only on packets that contain one: unless it was reset, a state beyond SYN-SENT means
    that a SYN and, after it, a SYN with ACK were seen. *)
Theorem tcp_states_follow_handshake c pkts p :
  state c = TCPStateNew → Dir c = Egress →
  (rank (state (feed c pkts)) ≤ rank (state (feed c (pkts ++ [p]))) ≤ 7)%nat
  ∧ (rank (state (feed c pkts)) = rank (state (feed c (pkts ++ [p]))) →
       state (feed c pkts) = state (feed c (pkts ++ [p])))
  ∧ (state (feed c pkts) = TCPStateSynSent → saw_syn pkts)
  ∧ (state (feed c pkts) ≠ TCPStateNew → state (feed c pkts) ≠ TCPStateSynSent →
     state (feed c pkts) ≠ TCPStateClosed → saw_handshake pkts).
Proof.
  intros Hn Hd. rewrite feed_snoc.
  destruct (updateState_rank 0 (feed c pkts) p.2 p.1 0) as [? ?]. split; [done|]. split; [done|].
  by apply handshake_evidence.
Qed.

(** ** Witnesses *)
Definition pkt (flags : Z) : packet :=
  {| p_src := 1; p_dst := 2; p_sport := 5000; p_dport := 443; p_flags := flags; p_size := 60 |}.
Definition back (flags : Z) : packet :=
  {| p_src := 2; p_dst := 1; p_sport := 443; p_dport := 5000; p_flags := flags; p_size := 60 |}.

Definition in_time_wait : TCPConnTrack :=
  SetState TCPStateTimeWait (newConn 77 Egress (pkt TCPSyn) 0).
Definition tw_tracker : TCPTracker :=
  set_connections (Some {[ key_of (pkt TCPSyn) := in_time_wait ]}) (NewTCPTracker 0).

Lemma rst_in_time_wait_ends_twice_witness :
  ended in_time_wait = true
  ∧ ∃ t' e, IsValidInbound 9 (back (Z.lor TCPRst TCPAck)) tw_tracker = (true, t', [e])
      ∧ e_FlowID e = FlowId in_time_wait ∧ e_Type e = TypeEnd.
Proof.
  exact (rst_in_time_wait_ends_twice 9 (back (Z.lor TCPRst TCPAck)) tw_tracker in_time_wait
    eq_refl eq_refl eq_refl eq_refl eq_refl eq_refl).
Defined.

Lemma track_after_close_panics_witness :
  track 0 1 (pkt TCPSyn) Egress None 0 (Close (NewTCPTracker 0)) = Panic.
Proof. exact (track_after_close_panics 0 1 (pkt TCPSyn) Egress None 0 (NewTCPTracker 0) eq_refl). Defined.

Definition handshake : list (Direction * Z) := [(Egress, TCPSyn); (Ingress, Z.lor TCPSyn TCPAck)].

Lemma tcp_states_follow_handshake_witness :
  let c := newConn 1 Egress (pkt TCPSyn) 0 in
  state (feed c handshake) = TCPStateEstablished ∧ saw_handshake handshake.
Proof.
  split; [reflexivity|].
  apply (tcp_states_follow_handshake (newConn 1 Egress (pkt TCPSyn) 0) handshake (Egress, TCPAck)); done.
Defined.

(** A tracked connection attempt that times out. *)
Definition after_syn : TCPTracker * list EventFields :=
  match exec (Outbound 0 77 (pkt TCPSyn)) (NewTCPTracker 0) with Ret r => r | _ => (NewTCPTracker 0, []) end.
Definition after_timeout : TCPTracker * list EventFields :=
  match exec (Cleanup (61 * Second)) after_syn.1 with Ret r => r | _ => (NewTCPTracker 0, []) end.

Lemma flow_accounted_once_witness :
  connections after_timeout.1 = Some ∅
  ∧ count_events 77 TypeStart (([] ++ after_syn.2) ++ after_timeout.2) = 1%nat
  ∧ count_events 77 TypeStart (([] ++ after_syn.2) ++ after_timeout.2)
    = count_events 77 TypeEnd (([] ++ after_syn.2) ++ after_timeout.2).
Proof.
  assert (Hm : connections after_timeout.1 = Some ∅) by reflexivity.
  split; [exact Hm|]. split; [reflexivity|].
  destruct (flow_accounted_once after_timeout.1 (([] ++ after_syn.2) ++ after_timeout.2)
    (add_flow (Cleanup (61 * Second)) (add_flow (Outbound 0 77 (pkt TCPSyn)) ∅))
    (resets (Cleanup (61 * Second)) after_syn.1 ∪ (resets (Outbound 0 77 (pkt TCPSyn)) (NewTCPTracker 0) ∪ ∅))) as (m & Hm' & _ & Hs & _).
  - assert (Hr1 : reach after_syn.1 ([] ++ after_syn.2) (add_flow (Outbound 0 77 (pkt TCPSyn)) ∅) (resets (Outbound 0 77 (pkt TCPSyn)) (NewTCPTracker 0) ∪ ∅)).
    { refine (reach_step (NewTCPTracker 0) [] ∅ ∅ (Outbound 0 77 (pkt TCPSyn)) after_syn.1 after_syn.2
        (reach_new 0) _ _); [apply not_elem_of_empty|vm_compute; reflexivity]. }
    refine (reach_step after_syn.1 ([] ++ after_syn.2) _ _ (Cleanup (61 * Second)) after_timeout.1
      after_timeout.2 Hr1 I _). vm_compute. reflexivity.
  - rewrite Hm in Hm'. injection Hm' as <-. destruct (Hs 77) as [E _]; [intros k c; by rewrite lookup_empty|]. rewrite E. reflexivity.
Defined.
