(* ===== verification/UDPTrack.v ===== *)
(** UDP connection tracking of the user-space packet filter:
    [src/client/firewall/uspfilter/conntrack/udp.go], on top of [FlowTable].

    Calls run one after the other; a connection changed through its pointer is written back
    under its key.  After [Close] the table is nil ([None]): reading it finds nothing,
    writing it panics.  Log calls and the ticker are left out. *)
From S2P Require Import Prelude FlowTable.
Open Scope Z_scope.

Definition DefaultUDPTimeout : Z := 30 * Second.

Record UDPConnTrack := { base :> BaseConnTrack; SourcePort : Z; DestPort : Z }.
Record UDPTracker := { connections : option (gmap ConnKey UDPConnTrack); timeout : Z }.

Definition NewUDPTracker (t : Z) : UDPTracker :=
  {| connections := Some ∅; timeout := if t =? 0 then DefaultUDPTimeout else t |}.

Definition get (k : ConnKey) (t : UDPTracker) : option UDPConnTrack := connections t ≫= (.!! k).
Definition set_connections (m : option (gmap ConnKey UDPConnTrack)) (t : UDPTracker) : UDPTracker :=
  {| connections := m; timeout := timeout t |}.
Definition set_base (b : BaseConnTrack) (c : UDPConnTrack) : UDPConnTrack :=
  {| base := b; SourcePort := SourcePort c; DestPort := DestPort c |}.
Definition write_back (k : ConnKey) (c : UDPConnTrack) (t : UDPTracker) : UDPTracker :=
  set_connections (<[k := c]> <$> connections t) t.

Definition sendEvent (typ : EventType) (c : UDPConnTrack) (ruleID : option string) : EventFields :=
  base_event typ c ruleID ProtoUDP (SourcePort c) (DestPort c) 0 0.

(** One datagram. *)
Record datagram := { p_src : Z; p_dst : Z; p_sport : Z; p_dport : Z; p_size : Z }.
Definition key_of (p : datagram) : ConnKey :=
  {| SrcIP := p_src p; DstIP := p_dst p; SrcPort := p_sport p; DstPort := p_dport p |}.
Definition rev_key_of (p : datagram) : ConnKey :=
  {| SrcIP := p_dst p; DstIP := p_src p; SrcPort := p_dport p; DstPort := p_sport p |}.

(** The DNAT port of the connection, when there is one. *)
Definition updateIfExists (now : Z) (k : ConnKey) (d : Direction) (size : Z) (t : UDPTracker)
    : option Z * UDPTracker :=
  match get k t with
  | Some c =>
      let c := set_base (touch now d size c) c in
      (Some (wrap_u16 (DNATOrigPort c)), write_back k c t)
  | None => (None, t)
  end.

Definition newConn (now flow : Z) (p : datagram) (d : Direction) (origPort : Z) : UDPConnTrack :=
  {| base := touch now d (p_size p)
               (StoreDNATOrigPort origPort (newBase flow d (p_src p) (p_dst p)));
     SourcePort := p_sport p; DestPort := p_dport p |}.

Definition track (now flow : Z) (p : datagram) (d : Direction) (ruleID : option string) (origPort : Z)
    (t : UDPTracker) : outcome Empty_set (UDPTracker * list EventFields) :=
  match updateIfExists now (key_of p) d (p_size p) t with
  | (Some _, t) => Ret (t, [])
  | (None, t) =>
      let c := newConn now flow p d origPort in
      match connections t with
      | None => Panic
      | Some m => Ret (set_connections (Some (<[key_of p := c]> m)) t, [sendEvent TypeStart c ruleID])
      end
  end.

Definition TrackOutbound (now flow : Z) (p : datagram) (t : UDPTracker)
    : outcome Empty_set (Z * UDPTracker * list EventFields) :=
  match updateIfExists now (rev_key_of p) Egress (p_size p) t with
  | (Some origPort, t) => Ret (origPort, t, [])
  | (None, t) => '(t, evs) ← track now flow p Egress None 0 t; Ret (0, t, evs)
  end.

Definition TrackInbound (now flow : Z) (p : datagram) (ruleID : option string) (dnatOrigPort : Z)
    (t : UDPTracker) : outcome Empty_set (UDPTracker * list EventFields) :=
  track now flow p Ingress ruleID dnatOrigPort t.

Definition IsValidInbound (now : Z) (p : datagram) (t : UDPTracker) : bool * UDPTracker :=
  match get (rev_key_of p) t with
  | None => (false, t)
  | Some c =>
      if timeoutExceeded now (timeout t) c then (false, t)
      else (true, write_back (rev_key_of p) (set_base (touch now Ingress (p_size p) c) c) t)
  end.

(** The loop body of [cleanup]; Go ranges over the map in an unspecified order. *)
Definition expired (now : Z) (t : UDPTracker) (c : UDPConnTrack) : bool :=
  timeoutExceeded now (timeout t) c.
Definition end_event (now : Z) (t : UDPTracker) (c : UDPConnTrack) : option EventFields :=
  if expired now t c then Some (sendEvent TypeEnd c None) else None.

Definition cleanup (now : Z) (t : UDPTracker) : UDPTracker * list EventFields :=
  (set_connections (drop_stale base now (timeout t) <$> connections t) t,
   removal_events (end_event now t) (map_to_list (default ∅ (connections t)))).

Definition Close (t : UDPTracker) : UDPTracker := set_connections None t.

Definition GetConnection (srcIP srcPort dstIP dstPort : Z) (t : UDPTracker) : option UDPConnTrack :=
  get {| SrcIP := srcIP; DstIP := dstIP; SrcPort := srcPort; DstPort := dstPort |} t.
Definition Timeout (t : UDPTracker) : Z := timeout t.

(** * Runs *)
Inductive op :=
| Outbound (now flow : Z) (p : datagram)
| Inbound (now flow : Z) (p : datagram) (ruleID : option string) (dnatOrigPort : Z)
| Check (now : Z) (p : datagram)
| Cleanup (now : Z).

Definition exec (x : op) (t : UDPTracker) : outcome Empty_set (UDPTracker * list EventFields) :=
  match x with
  | Outbound now flow p => '(_, t, evs) ← TrackOutbound now flow p t; Ret (t, evs)
  | Inbound now flow p r port => TrackInbound now flow p r port t
  | Check now p => Ret ((IsValidInbound now p t).2, [])
  | Cleanup now => Ret (cleanup now t)
  end.

Definition op_time (x : op) : Z :=
  match x with Outbound now _ _ | Inbound now _ _ _ _ | Check now _ | Cleanup now => now end.
Definition mentions (x : op) (k : ConnKey) : Prop :=
  match x with
  | Outbound _ _ p => k = key_of p ∨ k = rev_key_of p
  | Inbound _ _ p _ _ => k = key_of p
  | Check _ p => k = rev_key_of p
  | Cleanup _ => False
  end.
Definition opens (x : op) (k : ConnKey) : Prop :=
  match x with
  | Outbound _ _ p | Inbound _ _ p _ _ => k = key_of p
  | _ => False
  end.
Definition fresh_flow (x : op) (F : gset Z) : Prop :=
  match x with Outbound _ f _ | Inbound _ f _ _ _ => f ∉ F | _ => True end.
Definition add_flow (x : op) (F : gset Z) : gset Z :=
  match x with Outbound _ f _ | Inbound _ f _ _ _ => {[ f ]} ∪ F | _ => F end.

(** A tracker, the operations so far (newest first), its events and flow ids. *)
Inductive reach (tmo : Z) : UDPTracker → list op → list EventFields → gset Z → Prop :=
| reach_new : reach tmo (NewUDPTracker tmo) [] [] ∅
| reach_step t h evs F x t' evs' :
    reach tmo t h evs F → fresh_flow x F → exec x t = Ret (t', evs') →
    reach tmo t' (x :: h) (evs ++ evs') (add_flow x F).

Definition op_flow (x : op) : option Z :=
  match x with Outbound _ f _ | Inbound _ f _ _ _ => Some f | _ => None end.
Abbreviation udp_step := (dstep base op_time mentions opens op_flow (λ _, False)).
Abbreviation udp_Inv := (dInv (C:=UDPConnTrack) base).

Lemma udp_key_lookup t m k : connections t = Some m → get k t = m !! k.
Proof. intros Hm. unfold get. by rewrite Hm. Qed.

Lemma udp_track_step now flow p d r port t m x :
  connections t = Some m → op_time x = now → mentions x (key_of p) → opens x (key_of p) →
  op_flow x = Some flow →
  ∃ m' evs, track now flow p d r port t = Ret (set_connections (Some m') t, evs)
    ∧ udp_step (timeout t) x m m' evs.
Proof.
  intros Hm Ht Hme Ho Hf. unfold track, updateIfExists. rewrite (udp_key_lookup t m) by done.
  destruct (m !! key_of p) as [c|] eqn:Hk.
  - eexists _, _. split; [unfold write_back; by rewrite Hm|]. by eapply d_touch.
  - rewrite Hm. eexists _, _. split; [done|]. by apply d_open.
Qed.

(** Every operation is one step of the table, and none panics while the tracker is open. *)
Lemma udp_exec_step x t m :
  connections t = Some m →
  ∃ m' evs, exec x t = Ret (set_connections (Some m') t, evs) ∧ udp_step (timeout t) x m m' evs.
Proof.
  intros Hm. destruct x as [now flow p|now flow p r port|now p|now]; cbn [exec].
  - unfold TrackOutbound, updateIfExists. rewrite (udp_key_lookup t m) by done.
    destruct (m !! rev_key_of p) as [c|] eqn:Hk.
    + eexists _, _. split; [unfold write_back; by rewrite Hm|]. eapply d_touch; [done|by right|done..].
    + destruct (udp_track_step now flow p Egress None 0 t m (Outbound now flow p)) as (m' & evs & -> & Hs);
        [done|done|by left|done..|]. by exists m', evs.
  - by apply udp_track_step.
  - unfold IsValidInbound. rewrite (udp_key_lookup t m) by done.
    assert (Hid : set_connections (Some m) t = t) by (destruct t; simpl in *; by subst).
    destruct (m !! rev_key_of p) as [c|] eqn:Hk; [|exists m, []; rewrite Hid; split; [done|constructor]].
    destruct (timeoutExceeded now (timeout t) c); [exists m, []; rewrite Hid; split; [done|constructor]|].
    eexists _, _. split; [unfold write_back; cbn; by rewrite Hm|]. by eapply d_touch.
  - unfold cleanup. rewrite Hm. eexists _, _. split; [done|].
    apply (d_clean base op_time mentions opens op_flow (λ _, False) (timeout t) (Cleanup now) m).
    intros c. unfold end_event, expired. simpl. by destruct (timeoutExceeded now (timeout t) c).
Qed.

(** Reachable trackers. *)
Lemma udp_reach_inv tmo t h evs F :
  reach tmo t h evs F →
  timeout t = timeout (NewUDPTracker tmo)
  ∧ ∃ m, connections t = Some m ∧ evidenced base op_time mentions opens h m ∧ udp_Inv m evs F ∅.
Proof.
  induction 1 as [|t h evs F x t' evs' _ IH Hfr Hex].
  - split; [done|]. exists ∅. split; [done|]. split; [|apply Inv_empty]. intros k c. by rewrite lookup_empty.
  - destruct IH as (Ht & m & Hm & He & HI). destruct (udp_exec_step x t m Hm) as (m' & evs1 & Hx & Hs).
    rewrite Hx in Hex. injection Hex as <- <-. split; [done|]. exists m'. split; [done|].
    split; [by eapply dstep_evidenced|].
    destruct (dstep_accounts _ _ _ _ _ _ _ _ _ _ evs _ F ∅ Hs HI) as (S & HS & [->|[]]).
    + intros f. destruct x; simpl in *; congruence.
    + by destruct x.
Qed.

(** The filter lets an inbound datagram pass without consulting its rules only as part of a
    flow that this host has opened with a datagram of its own (or that was tracked under the
    same key) and of which a datagram was seen within the timeout. *)
Theorem udp_only_replies_pass tmo t h evs F now p :
  reach tmo t h evs F → (IsValidInbound now p t).1 = true →
  (∃ x, x ∈ h ∧ opens x (rev_key_of p))
  ∧ ∃ y, y ∈ h ∧ mentions y (rev_key_of p) ∧ now - op_time y ≤ timeout t.
Proof.
  intros (_ & m & Hm & He & _)%udp_reach_inv. unfold IsValidInbound. rewrite (udp_key_lookup t m) by done.
  destruct (m !! rev_key_of p) as [c|] eqn:Hk; [|done].
  destruct (timeoutExceeded now (timeout t) c) eqn:Hto; [done|]. intros _.
  destruct (He _ _ Hk) as [? (y & ? & ? & Hy)]. split; [done|]. exists y. split_and!; [done..|].
  unfold timeoutExceeded in Hto. lia.
Qed.

(** Operations one after the other. *)
Fixpoint run (xs : list op) (t : UDPTracker) : outcome Empty_set UDPTracker :=
  match xs with [] => Ret t | x :: xs => '(t, _) ← exec x t; run xs t end.

Lemma run_alive xs t m tau k :
  connections t = Some m → alive base tau k m →
  Forall (λ x, tau ≤ op_time x ≤ tau + timeout t) xs →
  ∃ t' m', run xs t = Ret t' ∧ connections t' = Some m' ∧ alive base tau k m' ∧ timeout t' = timeout t.
Proof.
  revert t m. induction xs as [|x xs IH]; intros t m Hm Ha Hxs; [by eexists _, _|].
  apply Forall_cons in Hxs as [Hx Hxs]. destruct (udp_exec_step x t m Hm) as (m' & evs & Hex & Hs).
  cbn [run]. rewrite Hex, bind_ret_l.
  apply (IH (set_connections (Some m') t) m'); [done|by eapply dstep_alive|done].
Qed.

(** A datagram that leaves outside of a flow the other side opened is tracked as seen now. *)
Lemma outbound_alive t m now flow p : connections t = Some m → m !! rev_key_of p = None →
  ∃ m1 evs, TrackOutbound now flow p t = Ret (0, set_connections (Some m1) t, evs) ∧ alive base now (key_of p) m1.
Proof.
  intros Hm Hrev. unfold TrackOutbound, track, updateIfExists. rewrite (udp_key_lookup t m), Hrev by done.
  rewrite (udp_key_lookup t m) by done. destruct (m !! key_of p) as [c|].
  - eexists _, _. split; [unfold write_back; by rewrite Hm|]. apply alive_insert; [by right|]. simpl. lia.
  - rewrite Hm. eexists _, _. split; [done|]. apply alive_insert; [by right|]. simpl. lia.
Qed.
(** A datagram of the other direction passes while the flow is alive. *)
Lemma alive_passes t m tau k now q : connections t = Some m → alive base tau k m → rev_key_of q = k →
  now ≤ tau + timeout t → (IsValidInbound now q t).1 = true.
Proof.
  intros Hm (c & Hk & Hc) <- Hn. unfold IsValidInbound. rewrite (udp_key_lookup t m), Hk by done.
  replace (timeoutExceeded now (timeout t) c) with false; [done|]. unfold timeoutExceeded. symmetry. apply Z.ltb_ge. lia.
Qed.

(** Replies pass.  Once a datagram has left this host outside of a flow the other side
    opened, the replies of that flow are let through for the whole timeout, whatever other
    traffic is tracked and whenever the table is cleaned meanwhile. *)
Theorem udp_replies_pass t m now flow p xs now' q :
  connections t = Some m → m !! rev_key_of p = None → rev_key_of q = key_of p →
  Forall (λ x, now ≤ op_time x ≤ now + timeout t) xs → now ≤ now' ≤ now + timeout t →
  ∃ t1 evs t2, TrackOutbound now flow p t = Ret (0, t1, evs)
    ∧ run xs t1 = Ret t2 ∧ (IsValidInbound now' q t2).1 = true.
Proof.
  intros Hm Hrev Hq Hxs Hn. destruct (outbound_alive t m now flow p Hm Hrev) as (m1 & evs & Ht & Ha).
  destruct (run_alive xs (set_connections (Some m1) t) m1 now (key_of p)) as (t2 & m2 & Hr & Hm2 & Ha2 & Ht2); [done..|].
  eexists _, _, t2. split; [exact Ht|]. split; [done|]. eapply alive_passes; [done..|]. rewrite Ht2. simpl. lia.
Qed.

(** Every UDP flow is reported once: one start event, no end event while its connection is in
    the table, and exactly one end event after the connection has timed out.  No operation on
    an open tracker panics. *)
Theorem udp_flow_accounted tmo t h evs F :
  reach tmo t h evs F →
  ∃ m, connections t = Some m
  ∧ (∀ k (c : UDPConnTrack), m !! k = Some c →
       count_events (FlowId c) TypeStart evs = 1%nat ∧ count_events (FlowId c) TypeEnd evs = 0%nat)
  ∧ (∀ f, (∀ k (c : UDPConnTrack), m !! k = Some c → FlowId c ≠ f) →
       count_events f TypeStart evs = count_events f TypeEnd evs ∧ (count_events f TypeEnd evs ≤ 1)%nat)
  ∧ ∀ x, ∃ r, exec x t = Ret r.
Proof.
  intros (_ & m & Hm & _ & [Ho _ _ Hs _])%udp_reach_inv. exists m. split; [done|]. split_and!.
  - intros k c Hk. by destruct (Ho k c Hk) as [(_ & _ & ? & ?) _].
  - intros f Hno. destruct (Hs f (not_elem_of_empty f) Hno) as [[-> ->]|[-> ->]]; split; lia.
  - intros x. destruct (udp_exec_step x t m Hm) as (? & ? & ? & _). eauto.
Qed.

(** ** Samples: a DNS query and its answer *)
Definition query : datagram := {| p_src := 1; p_dst := 2; p_sport := 5353; p_dport := 53; p_size := 60 |}.
Definition answer : datagram := {| p_src := 2; p_dst := 1; p_sport := 53; p_dport := 5353; p_size := 300 |}.
Definition sent : op := Outbound 0 7 query.
Definition after_sent : UDPTracker * list EventFields :=
  match exec sent (NewUDPTracker 0) with Ret r => r | _ => (NewUDPTracker 0, []) end.
Definition swept : op := Cleanup (31 * Second).
Definition after_swept : UDPTracker * list EventFields :=
  match exec swept after_sent.1 with Ret r => r | _ => (NewUDPTracker 0, []) end.

Lemma sent_reach : reach 0 after_sent.1 [sent] ([] ++ after_sent.2) (add_flow sent ∅).
Proof.
  apply (reach_step 0 (NewUDPTracker 0) [] [] ∅ sent); [constructor|apply not_elem_of_empty|].
  vm_compute. reflexivity.
Qed.

Lemma udp_only_replies_pass_witness :
  (IsValidInbound Second answer after_sent.1).1 = true
  ∧ ∃ y, y ∈ [sent] ∧ mentions y (rev_key_of answer) ∧ Second - op_time y ≤ timeout after_sent.1.
Proof.
  split; [vm_compute; reflexivity|].
  apply (udp_only_replies_pass 0 after_sent.1 [sent] ([] ++ after_sent.2) (add_flow sent ∅) Second answer);
    [exact sent_reach|vm_compute; reflexivity].
Defined.

Lemma udp_replies_pass_witness :
  ∃ t1 evs t2, TrackOutbound 0 7 query (NewUDPTracker 0) = Ret (0, t1, evs)
    ∧ run [Cleanup (15 * Second); Outbound (20 * Second) 8 answer] t1 = Ret t2
    ∧ (IsValidInbound (30 * Second) answer t2).1 = true.
Proof.
  apply (udp_replies_pass (NewUDPTracker 0) ∅ 0 7 query
    [Cleanup (15 * Second); Outbound (20 * Second) 8 answer] (30 * Second) answer);
    [reflexivity|reflexivity|reflexivity| |vm_compute; split; discriminate].
  repeat constructor; vm_compute; discriminate.
Defined.

Lemma udp_flow_accounted_witness :
  connections after_swept.1 = Some ∅
  ∧ count_events 7 TypeStart (([] ++ after_sent.2) ++ after_swept.2) = 1%nat
  ∧ count_events 7 TypeStart (([] ++ after_sent.2) ++ after_swept.2)
    = count_events 7 TypeEnd (([] ++ after_sent.2) ++ after_swept.2).
Proof.
  assert (Hm : connections after_swept.1 = Some ∅) by reflexivity.
  split; [exact Hm|]. split; [reflexivity|].
  destruct (udp_flow_accounted 0 after_swept.1 [swept; sent] (([] ++ after_sent.2) ++ after_swept.2)
    (add_flow swept (add_flow sent ∅))) as (m & Hm' & _ & Hs & _).
  - apply (reach_step 0 after_sent.1 [sent] _ _ swept _ after_swept.2 sent_reach); [exact I|].
    vm_compute. reflexivity.
  - rewrite Hm in Hm'. injection Hm' as <-. apply Hs. intros k c. by rewrite lookup_empty.
Defined.
