(* ===== verification/ICMPTrack.v ===== *)
(** ICMP tracking of the user-space packet filter:
    [src/client/firewall/uspfilter/conntrack/icmp.go], on top of [FlowTable].

    A packet carries the type and code that gopacket extracts from its type code.  Calls run
    one after the other; after [Close] the table is nil ([None]).  The description of an
    embedded packet, which the source formats as text for the log, is a value here. *)
From S2P Require Import Prelude FlowTable GoText.
Open Scope Z_scope.

Definition DefaultICMPTimeout : Z := 30 * Second.
Definition MaxICMPPayloadLength : nat := 28.
Definition ICMPv4TypeEchoReply : Z := 0.
Definition ICMPv4TypeEchoRequest : Z := 8.

Record ICMPConnKey := { SrcIP : Z; DstIP : Z; ID : Z }.
#[export] Instance ICMPConnKey_eq_dec : EqDecision ICMPConnKey.
Proof. solve_decision. Defined.
#[export, refine] Instance ICMPConnKey_countable : Countable ICMPConnKey :=
  inj_countable' (λ k, (SrcIP k, DstIP k, ID k))
    (λ '(a, b, c), {| SrcIP := a; DstIP := b; ID := c |}) _.
Proof. by intros []. Defined.

Record ICMPConnTrack := { base :> BaseConnTrack; ICMPType : Z; ICMPCode : Z }.
Record ICMPTracker := { connections : option (gmap ICMPConnKey ICMPConnTrack); timeout : Z }.

(** ** What the log says about an ICMP packet *)
Record ICMPInfo := { TypeCode : Z * Z; PayloadData : bytes; PayloadLen : nat }.

Inductive original :=
| OrigTCP (src : bytes) (sport : Z) (dst : bytes) (dport : Z)
| OrigUDP (src : bytes) (sport : Z) (dst : bytes) (dport : Z)
| OrigICMP (src dst : bytes) (icmpType icmpCode : Z)
| OrigProto (protocol : Z) (src dst : bytes).

Definition isErrorMessage (info : ICMPInfo) : bool :=
  let typ := (TypeCode info).1 in
  (typ =? 3) || (typ =? 5) || (typ =? 11) || (typ =? 12).

(** [uint16(b[i])<<8 | uint16(b[i+1])] *)
Definition port_at (i : nat) (b : bytes) : outcome Empty_set Z :=
  hi ← index i b; lo ← index (i + 1) b; Ret (Z.lor (wrap_u16 (Z.shiftl (byte_Z hi) 8)) (byte_Z lo)).

Definition parseOriginalPacket (info : ICMPInfo) : outcome Empty_set (option original) :=
  if bool_decide (PayloadLen info < MaxICMPPayloadLength)%nat then Ret None
  else
    b0 ← index 0 (PayloadData info);
    if negb (Z.land (Z.shiftr (byte_Z b0) 4) 0xf =? 4) then Ret None
    else
      b9 ← index 9 (PayloadData info);
      let protocol := byte_Z b9 in
      srcIP ← slice 12 16 (PayloadData info);
      dstIP ← slice 16 20 (PayloadData info);
      transportData ← slice_from 20 (PayloadData info);
      if protocol =? ProtoTCP then
        sport ← port_at 0 transportData; dport ← port_at 2 transportData;
        Ret (Some (OrigTCP srcIP sport dstIP dport))
      else if protocol =? ProtoUDP then
        sport ← port_at 0 transportData; dport ← port_at 2 transportData;
        Ret (Some (OrigUDP srcIP sport dstIP dport))
      else if protocol =? ProtoICMP then
        t ← index 0 transportData; c ← index 1 transportData;
        Ret (Some (OrigICMP srcIP dstIP (byte_Z t) (byte_Z c)))
      else Ret (Some (OrigProto protocol srcIP dstIP)).

(** The part of [ICMPInfo.String] after the type code. *)
Definition describe (info : ICMPInfo) : outcome Empty_set (option original) :=
  if isErrorMessage info && bool_decide (MaxICMPPayloadLength ≤ PayloadLen info)%nat
  then parseOriginalPacket info else Ret None.

(** ** The tracker *)
Definition NewICMPTracker (t : Z) : ICMPTracker :=
  {| connections := Some ∅; timeout := if t =? 0 then DefaultICMPTimeout else t |}.

Definition get (k : ICMPConnKey) (t : ICMPTracker) : option ICMPConnTrack := connections t ≫= (.!! k).
Definition set_connections (m : option (gmap ICMPConnKey ICMPConnTrack)) (t : ICMPTracker) : ICMPTracker :=
  {| connections := m; timeout := timeout t |}.
Definition set_base (b : BaseConnTrack) (c : ICMPConnTrack) : ICMPConnTrack :=
  {| base := b; ICMPType := ICMPType c; ICMPCode := ICMPCode c |}.
Definition write_back (k : ICMPConnKey) (c : ICMPConnTrack) (t : ICMPTracker) : ICMPTracker :=
  set_connections (<[k := c]> <$> connections t) t.

Definition sendEvent (typ : EventType) (c : ICMPConnTrack) (ruleID : option string) : EventFields :=
  base_event typ c ruleID ProtoICMP 0 0 (ICMPType c) (ICMPCode c).

Definition sendStartEvent (flow : Z) (d : Direction) (srcIP dstIP typ code : Z)
    (ruleID : option string) (size : Z) : EventFields :=
  let rx := bool_decide (d = Ingress) in
  {| e_FlowID := flow; e_Type := TypeStart; e_RuleID := ruleID; e_Direction := d;
     e_Protocol := ProtoICMP; e_SourceIP := srcIP; e_DestIP := dstIP; e_SourcePort := 0;
     e_DestPort := 0; e_ICMPType := typ; e_ICMPCode := code;
     e_RxPackets := if rx then 1 else 0; e_TxPackets := if rx then 0 else 1;
     e_RxBytes := if rx then wrap_u64 size else 0; e_TxBytes := if rx then 0 else wrap_u64 size |}.

Record icmp_packet := {
  p_src : Z; p_dst : Z; p_id : Z; p_type : Z; p_code : Z; p_payload : bytes; p_size : Z }.
Definition key_of (p : icmp_packet) : ICMPConnKey :=
  {| SrcIP := p_src p; DstIP := p_dst p; ID := p_id p |}.
Definition rev_key_of (p : icmp_packet) : ICMPConnKey :=
  {| SrcIP := p_dst p; DstIP := p_src p; ID := p_id p |}.

Definition updateIfExists (now : Z) (k : ICMPConnKey) (d : Direction) (size : Z) (t : ICMPTracker)
    : bool * ICMPTracker :=
  match get k t with
  | Some c => (true, write_back k (set_base (touch now d size c) c) t)
  | None => (false, t)
  end.

(** The 28-byte array of the log value: the payload cut to its size, then zeros. *)
Definition info_of (p : icmp_packet) : outcome Empty_set ICMPInfo :=
  let zero := replicate MaxICMPPayloadLength x00 in
  if bool_decide (0 < length (p_payload p))%nat then
    let len := Nat.min (length (p_payload p)) MaxICMPPayloadLength in
    src ← slice 0 len (p_payload p);
    data ← copy_at 0 src zero;
    Ret {| TypeCode := (p_type p, p_code p); PayloadData := data; PayloadLen := len |}
  else Ret {| TypeCode := (p_type p, p_code p); PayloadData := zero; PayloadLen := 0 |}.

Definition newConn (now flow : Z) (p : icmp_packet) (d : Direction) : ICMPConnTrack :=
  {| base := touch now d (p_size p) (newBase flow d (p_src p) (p_dst p));
     ICMPType := p_type p; ICMPCode := p_code p |}.

Definition track (now flow : Z) (p : icmp_packet) (d : Direction) (ruleId : option string)
    (t : ICMPTracker) : outcome Empty_set (ICMPTracker * list EventFields) :=
  match updateIfExists now (key_of p) d (p_size p) t with
  | (true, t) => Ret (t, [])
  | (false, t) =>
      info ← info_of p;
      _ ← describe info;   (* evaluated by the log line, when the trace level is on *)
      if negb (p_type p =? ICMPv4TypeEchoRequest) then
        Ret (t, [sendStartEvent flow d (p_src p) (p_dst p) (p_type p) (p_code p) ruleId (p_size p)])
      else
        let c := newConn now flow p d in
        match connections t with
        | None => Panic
        | Some m => Ret (set_connections (Some (<[key_of p := c]> m)) t, [sendEvent TypeStart c ruleId])
        end
  end.

Definition TrackOutbound (now flow : Z) (p : icmp_packet) (t : ICMPTracker)
    : outcome Empty_set (ICMPTracker * list EventFields) :=
  match updateIfExists now (rev_key_of p) Egress (p_size p) t with
  | (true, t) => Ret (t, [])
  | (false, t) => track now flow p Egress None t
  end.

Definition TrackInbound (now flow : Z) (p : icmp_packet) (ruleId : option string) (t : ICMPTracker)
    : outcome Empty_set (ICMPTracker * list EventFields) :=
  track now flow p Ingress ruleId t.

Definition IsValidInbound (now : Z) (p : icmp_packet) (t : ICMPTracker) : bool * ICMPTracker :=
  if negb (p_type p =? ICMPv4TypeEchoReply) then (false, t)
  else
    match get (rev_key_of p) t with
    | None => (false, t)
    | Some c =>
        if timeoutExceeded now (timeout t) c then (false, t)
        else (true, write_back (rev_key_of p) (set_base (touch now Ingress (p_size p) c) c) t)
    end.

Definition end_event (now : Z) (t : ICMPTracker) (c : ICMPConnTrack) : option EventFields :=
  if timeoutExceeded now (timeout t) c then Some (sendEvent TypeEnd c None) else None.

Definition cleanup (now : Z) (t : ICMPTracker) : ICMPTracker * list EventFields :=
  (set_connections (drop_stale base now (timeout t) <$> connections t) t,
   removal_events (end_event now t) (map_to_list (default ∅ (connections t)))).

Definition Close (t : ICMPTracker) : ICMPTracker := set_connections None t.

(** * The log value never panics *)
Lemma icmp_slice_total {E} (s : bytes) lo hi :
  (lo ≤ hi)%nat → (hi ≤ length s)%nat →
  ∃ b, slice (E:=E) lo hi s = Ret b ∧ length b = (hi - lo)%nat.
Proof. intros. rewrite slice_in by done. eexists. split; [done|]. rewrite length_take, length_drop. lia. Qed.

Lemma index_total {E} (s : bytes) i : (i < length s)%nat → ∃ b, index (E:=E) i s = Ret b.
Proof. intros Hi. destruct (index_in (E:=E) i s Hi) as (b & ? & _). eauto. Qed.

Lemma port_total s i : (i + 1 < length s)%nat → ∃ z, port_at i s = Ret z.
Proof.
  intros Hi. unfold port_at. destruct (index_total (E:=Empty_set) s i) as [h ->]; [lia|].
  rewrite bind_ret_l. destruct (index_total (E:=Empty_set) s (i + 1)) as [l ->]; [lia|]. eauto.
Qed.

(** Any payload, of any length and content, is described without reading out of bounds. *)
Lemma describe_total p : ∃ info o, info_of p = Ret info ∧ describe info = Ret o.
Proof.
  assert (∃ info, info_of p = Ret info ∧ length (PayloadData info) = MaxICMPPayloadLength)
    as (info & -> & Hl).
  { unfold info_of. case_bool_decide; [|by eexists].
    rewrite slice_in by lia. rewrite bind_ret_l.
    destruct (copy_at (E:=Empty_set) 0 (take _ (drop 0 (p_payload p))) (replicate MaxICMPPayloadLength x00))
      as [d|[]|] eqn:Hc; [|by unfold copy_at in Hc].
    eexists. split; [done|]. apply copy_at_length in Hc. by rewrite length_replicate in Hc. }
  exists info. unfold describe. destruct (isErrorMessage info && _); [|eauto].
  unfold parseOriginalPacket. case_bool_decide; [eauto|]. unfold MaxICMPPayloadLength in *.
  destruct (index_total (E:=Empty_set) (PayloadData info) 0) as [b0 ->]; [lia|]. rewrite bind_ret_l.
  destruct (negb _); [eauto|].
  destruct (index_total (E:=Empty_set) (PayloadData info) 9) as [b9 ->]; [lia|]. rewrite bind_ret_l.
  destruct (icmp_slice_total (E:=Empty_set) (PayloadData info) 12 16) as (src & -> & _); [lia..|]. rewrite bind_ret_l.
  destruct (icmp_slice_total (E:=Empty_set) (PayloadData info) 16 20) as (dst & -> & _); [lia..|]. rewrite bind_ret_l.
  unfold slice_from.
  destruct (icmp_slice_total (E:=Empty_set) (PayloadData info) 20 (length (PayloadData info)))
    as (tr & -> & Htr); [lia..|]. rewrite bind_ret_l, Hl in *.
  destruct (port_total tr 0) as [sp ->]; [lia|]. destruct (port_total tr 2) as [dp ->]; [lia|].
  destruct (index_total (E:=Empty_set) tr 0) as [t0 ->]; [lia|].
  destruct (index_total (E:=Empty_set) tr 1) as [t1 ->]; [lia|]. rewrite !bind_ret_l.
  repeat case_match; eauto.
Qed.

(** * Runs *)
Inductive op :=
| Outbound (now flow : Z) (p : icmp_packet)
| Inbound (now flow : Z) (p : icmp_packet) (ruleId : option string)
| Check (now : Z) (p : icmp_packet)
| Cleanup (now : Z).

Definition exec (x : op) (t : ICMPTracker) : outcome Empty_set (ICMPTracker * list EventFields) :=
  match x with
  | Outbound now flow p => TrackOutbound now flow p t
  | Inbound now flow p r => TrackInbound now flow p r t
  | Check now p => Ret ((IsValidInbound now p t).2, [])
  | Cleanup now => Ret (cleanup now t)
  end.

Definition op_time (x : op) : Z :=
  match x with Outbound now _ _ | Inbound now _ _ _ | Check now _ | Cleanup now => now end.
Definition mentions (x : op) (k : ICMPConnKey) : Prop :=
  match x with
  | Outbound _ _ p => k = key_of p ∨ k = rev_key_of p
  | Inbound _ _ p _ => k = key_of p
  | Check _ p => k = rev_key_of p
  | Cleanup _ => False
  end.
(** Only echo requests open a connection. *)
Definition opens (x : op) (k : ICMPConnKey) : Prop :=
  match x with
  | Outbound _ _ p | Inbound _ _ p _ => k = key_of p ∧ p_type p = ICMPv4TypeEchoRequest
  | _ => False
  end.
Definition single (x : op) : Prop :=
  match x with
  | Outbound _ _ p | Inbound _ _ p _ => p_type p ≠ ICMPv4TypeEchoRequest
  | _ => False
  end.
Definition op_flow (x : op) : option Z :=
  match x with Outbound _ f _ | Inbound _ f _ _ => Some f | _ => None end.
Definition fresh_flow (x : op) (F : gset Z) : Prop := ∀ f, op_flow x = Some f → f ∉ F.

Inductive reach (tmo : Z) : ICMPTracker → list op → list EventFields → gset Z → Prop :=
| reach_new : reach tmo (NewICMPTracker tmo) [] [] ∅
| reach_step t h evs F x t' evs' :
    reach tmo t h evs F → fresh_flow x F → exec x t = Ret (t', evs') →
    reach tmo t' (x :: h) (evs ++ evs') (draw op_flow x F).

Abbreviation icmp_step := (dstep base op_time mentions opens op_flow single).
Abbreviation icmp_Inv := (dInv (C:=ICMPConnTrack) base).

Lemma icmp_key_lookup t m k : connections t = Some m → get k t = m !! k.
Proof. intros Hm. unfold get. by rewrite Hm. Qed.

Lemma same_table t m : connections t = Some m → set_connections (Some m) t = t.
Proof. destruct t. simpl. by intros ->. Qed.

Lemma icmp_track_step now flow p d r t m x :
  connections t = Some m → op_time x = now → mentions x (key_of p) →
  (p_type p = ICMPv4TypeEchoRequest → opens x (key_of p)) →
  (p_type p ≠ ICMPv4TypeEchoRequest → single x) → op_flow x = Some flow →
  ∃ m' evs, track now flow p d r t = Ret (set_connections (Some m') t, evs)
    ∧ icmp_step (timeout t) x m m' evs.
Proof.
  intros Hm Ht Hme Ho Hsg Hf. unfold track, updateIfExists. rewrite (icmp_key_lookup t m) by done.
  destruct (m !! key_of p) as [c|] eqn:Hk.
  - eexists _, _. split; [unfold write_back; by rewrite Hm|]. by eapply d_touch.
  - destruct (describe_total p) as (info & o & -> & Hd). rewrite bind_ret_l, Hd, bind_ret_l.
    destruct (p_type p =? ICMPv4TypeEchoRequest) eqn:Hty; cbn [negb].
    + rewrite Hm. eexists _, _. split; [done|]. apply Z.eqb_eq in Hty. apply d_open; auto; done.
    + exists m. eexists. rewrite same_table by done. split; [done|]. apply Z.eqb_neq in Hty.
      apply d_single; auto.
Qed.

(** Every operation is one step of the table, and none panics while the tracker is open. *)
Lemma icmp_exec_step x t m :
  connections t = Some m →
  ∃ m' evs, exec x t = Ret (set_connections (Some m') t, evs) ∧ icmp_step (timeout t) x m m' evs.
Proof.
  intros Hm. destruct x as [now flow p|now flow p r|now p|now]; cbn [exec].
  - unfold TrackOutbound, updateIfExists. rewrite (icmp_key_lookup t m) by done.
    destruct (m !! rev_key_of p) as [c|] eqn:Hk.
    + eexists _, _. split; [unfold write_back; by rewrite Hm|]. eapply d_touch; [done|by right|done..].
    + apply icmp_track_step; try done. by left.
  - by apply icmp_track_step.
  - unfold IsValidInbound. rewrite (icmp_key_lookup t m) by done.
    destruct (negb _); [exists m, []; rewrite same_table by done; split; [done|constructor]|].
    destruct (m !! rev_key_of p) as [c|] eqn:Hk;
      [|exists m, []; rewrite same_table by done; split; [done|constructor]].
    destruct (timeoutExceeded now (timeout t) c);
      [exists m, []; rewrite same_table by done; split; [done|constructor]|].
    eexists _, _. split; [unfold write_back; cbn; by rewrite Hm|]. by eapply d_touch.
  - unfold cleanup. rewrite Hm. eexists _, _. split; [done|].
    apply (d_clean base op_time mentions opens op_flow single (timeout t) (Cleanup now) m).
    intros c. unfold end_event. simpl. by destruct (timeoutExceeded now (timeout t) c).
Qed.

Lemma icmp_reach_inv tmo t h evs F :
  reach tmo t h evs F →
  ∃ m S, connections t = Some m ∧ evidenced base op_time mentions opens h m ∧ icmp_Inv m evs F S.
Proof.
  induction 1 as [|t h evs F x t' evs' _ IH Hfr Hex].
  - exists ∅, ∅. split; [done|]. split; [|apply Inv_empty]. intros k c. by rewrite lookup_empty.
  - destruct IH as (m & S & Hm & He & HI). destruct (icmp_exec_step x t m Hm) as (m' & evs1 & Hx & Hs).
    rewrite Hx in Hex. injection Hex as <- <-.
    destruct (dstep_accounts _ _ _ _ _ _ _ _ _ _ evs _ F S Hs HI Hfr) as (S' & HS & _).
    exists m', S'. split; [done|]. split; [by eapply dstep_evidenced|done].
Qed.

(** C18: Of inbound ICMP only echo replies pass on state, and only those that answer an echo request
    with the same identifier between the same hosts that has been tracked, when a packet of
    that exchange was seen within the timeout; an echo request opens one flow, which is
    reported with one start event and, after it has left the table, one end event.  No
    packet, whatever its payload, makes an open tracker panic. *)
Theorem icmp_only_echo_replies_pass tmo t h evs F :
  reach tmo t h evs F →
  (∀ now p, (IsValidInbound now p t).1 = true →
     p_type p = ICMPv4TypeEchoReply
     ∧ (∃ x, x ∈ h ∧ opens x (rev_key_of p))
     ∧ ∃ y, y ∈ h ∧ mentions y (rev_key_of p) ∧ now - op_time y ≤ timeout t)
  ∧ (∃ m, connections t = Some m
     ∧ (∀ k (c : ICMPConnTrack), m !! k = Some c →
          count_events (FlowId c) TypeStart evs = 1%nat ∧ count_events (FlowId c) TypeEnd evs = 0%nat)
     ∧ (∀ f, (count_events f TypeEnd evs ≤ count_events f TypeStart evs ≤ 1)%nat))
  ∧ ∀ x, ∃ r, exec x t = Ret r.
Proof.
  intros (m & S & Hm & He & [Ho _ _ Hs Hsg])%icmp_reach_inv. split_and!.
  - intros now p. unfold IsValidInbound. rewrite (icmp_key_lookup t m) by done.
    destruct (p_type p =? ICMPv4TypeEchoReply) eqn:Hty; [|done]. cbn [negb]. apply Z.eqb_eq in Hty.
    destruct (m !! rev_key_of p) as [c|] eqn:Hk; [|done].
    destruct (timeoutExceeded now (timeout t) c) eqn:Hto; [done|]. intros _.
    destruct (He _ _ Hk) as [? (y & ? & ? & Hy)]. split_and!; [done..|]. exists y. split_and!; [done..|].
    unfold timeoutExceeded in Hto. lia.
  - exists m. split; [done|]. split.
    + intros k c Hk. by destruct (Ho k c Hk) as [(_ & _ & ? & ?) _].
    + intros f. destruct (decide (f ∈ S)) as [HS|HS]; [destruct (Hsg f HS) as (_ & -> & ->); lia|].
      destruct (decide (Exists (λ p : ICMPConnKey * ICMPConnTrack, FlowId p.2 = f) (map_to_list m)))
        as [Hex|Hnex].
      * apply Exists_exists in Hex as ([k c] & Hin%elem_of_map_to_list & <-). cbn [snd].
        destruct (Ho k c Hin) as [(_ & _ & -> & ->) _]. lia.
      * destruct (Hs f HS) as [[-> ->]|[-> ->]]; [|lia..].
        intros k c Hk E. apply Hnex, Exists_exists. exists (k, c). by rewrite elem_of_map_to_list.
  - intros x. destruct (icmp_exec_step x t m Hm) as (? & ? & ? & _). eauto.
Qed.

(** ** Samples: a ping *)
Definition ping (src dst typ : Z) (payload : bytes) : icmp_packet :=
  {| p_src := src; p_dst := dst; p_id := 9; p_type := typ; p_code := 0; p_payload := payload; p_size := 84 |}.
Definition asked : op := Outbound 0 7 (ping 1 2 8 []).
Definition after_asked : ICMPTracker * list EventFields :=
  match exec asked (NewICMPTracker 0) with Ret r => r | _ => (NewICMPTracker 0, []) end.

Lemma icmp_only_echo_replies_pass_witness :
  (IsValidInbound Second (ping 2 1 0 []) after_asked.1).1 = true
  ∧ ∃ x, x ∈ [asked] ∧ opens x (rev_key_of (ping 2 1 0 [])).
Proof.
  assert (Hv : (IsValidInbound Second (ping 2 1 0 []) after_asked.1).1 = true) by (vm_compute; reflexivity).
  split; [exact Hv|].
  destruct (icmp_only_echo_replies_pass 0 after_asked.1 [asked] ([] ++ after_asked.2) (draw op_flow asked ∅))
    as (Hp & _ & _).
  - apply (reach_step 0 (NewICMPTracker 0) [] [] ∅ asked); [constructor| |vm_compute; reflexivity].
    intros f _. apply not_elem_of_empty.
  - exact (proj1 (proj2 (Hp _ _ Hv))).
Defined.

(** An error message about a datagram of ours: the ports of the embedded packet. *)
Definition unreachable : icmp_packet :=
  ping 2 1 3 ([x45; x00; x00; x54; x00; x00; x00; x00; x40; x11; x00; x00]
              ++ [x0a; x00; x00; x01] ++ [x0a; x00; x00; x02] ++ [x14; xe9; x00; x35; x00; x00; x00; x00]).
Example unreachable_described :
  (info ← info_of unreachable; describe info)
  = Ret (Some (OrigUDP [x0a; x00; x00; x01] 5353 [x0a; x00; x00; x02] 53)).
Proof. vm_compute. reflexivity. Qed.
