(* ===== verification/Checksum.v ===== *)
(** Internet checksums of the user-space packet filter: the arithmetic of
    [src/client/firewall/uspfilter/nat.go].

    Sums are kept in 32 bits, as in the source.  The reference is RFC 1071: the one's complement
    sum of the 16-bit words, the last odd byte padded with a zero; a checksum is right when the
    sum over the data and the checksum is 0xFFFF.  The development reasons modulo 65535, where
    one's complement addition is addition ([≡ₒ]). *)
From S2P Require Import Prelude GoText.
Open Scope Z_scope.

(** ** What the code computes *)
Definition u16 (hi lo : byte) : Z := byte_Z hi * 256 + byte_Z lo.
Definition add32 (a b : Z) : Z := wrap_u32 (a + b).
(** [^x] on a [uint16] *)
Definition not16 (x : Z) : Z := Z.lxor x 0xFFFF.

(** [for i < len-1; i += 2 { sum += Uint16(data[i:i+2]) }], the data starting at [i]. *)
Fixpoint add_words (sum : Z) (data : bytes) : Z :=
  match data with
  | hi :: lo :: data => add_words (add32 sum (u16 hi lo)) data
  | _ => sum
  end.

(** [if len(data)%2 == 1 { sum += uint32(data[len(data)-1]) << 8 }] *)
Definition add_odd (sum : Z) (data : bytes) : Z :=
  if Nat.odd (length data) then add32 sum (Z.shiftl (byte_Z (default x00 (last data))) 8) else sum.

(** The carry fold at the end, and the complement. *)
Definition fold_carry (sum : Z) : Z :=
  let sum := add32 (Z.land sum 0xFFFF) (Z.shiftr sum 16) in
  if 0xFFFF <? sum then add32 sum 1 else sum.
Definition finish (sum : Z) : Z := not16 (wrap_u16 (fold_carry sum)).

(** The words of the header without the checksum field, in two sums. *)
Definition ipv4Checksum (header : bytes) : Z :=
  match header with
  | h0 :: h1 :: h2 :: h3 :: h4 :: h5 :: h6 :: h7 :: h8 :: h9 :: _ :: _ :: h12 :: h13 :: h14 :: h15
    :: h16 :: h17 :: h18 :: h19 :: rest =>
      let sum1 := add32 0 (u16 h0 h1) in
      let sum2 := add32 0 (u16 h2 h3) in
      let sum1 := add32 sum1 (u16 h4 h5) in
      let sum2 := add32 sum2 (u16 h6 h7) in
      let sum1 := add32 sum1 (u16 h8 h9) in
      let sum2 := add32 sum2 (u16 h12 h13) in
      let sum1 := add32 sum1 (u16 h14 h15) in
      let sum2 := add32 sum2 (u16 h16 h17) in
      let sum1 := add32 sum1 (u16 h18 h19) in
      finish (add_odd (add_words (add32 sum1 sum2) rest) header)
  | _ => 0
  end.

(** Sixteen bytes at once in four sums, while there are sixteen. *)
Fixpoint icmp_blocks (sum1 sum2 sum3 sum4 : Z) (data : bytes) : Z * bytes :=
  match data with
  | d0 :: d1 :: d2 :: d3 :: d4 :: d5 :: d6 :: d7 :: d8 :: d9 :: d10 :: d11 :: d12 :: d13 :: d14 :: d15 :: data =>
      icmp_blocks (add32 (add32 sum1 (u16 d0 d1)) (u16 d8 d9)) (add32 (add32 sum2 (u16 d2 d3)) (u16 d10 d11))
                  (add32 (add32 sum3 (u16 d4 d5)) (u16 d12 d13)) (add32 (add32 sum4 (u16 d6 d7)) (u16 d14 d15)) data
  | _ => (add32 (add32 (add32 sum1 sum2) sum3) sum4, data)
  end.

Definition icmpChecksum (data : bytes) : Z :=
  let '(sum, rest) := icmp_blocks 0 0 0 0 data in
  finish (add_odd (add_words sum rest) data).

(** [for i < len-1; i += 2 { sum += uint32(^Uint16(old[i:i+2])) }] and the odd byte. *)
Fixpoint sub_words (sum : Z) (data : bytes) : Z :=
  match data with
  | hi :: lo :: data => sub_words (add32 sum (not16 (u16 hi lo))) data
  | [b] => add32 sum (Z.shiftl (Z.lxor (byte_Z b) 0xFF) 8)
  | [] => sum
  end.

Definition incrementalUpdate (oldChecksum : Z) (oldBytes newBytes : bytes) : Z :=
  let sum := not16 oldChecksum in
  let sum :=
    match oldBytes, newBytes with
    | [o0; o1; o2; o3], [n0; n1; n2; n3] =>
        add32 (add32 (add32 (add32 sum (not16 (u16 o0 o1))) (not16 (u16 o2 o3))) (u16 n0 n1)) (u16 n2 n3)
    | _, _ => add_odd (add_words (sub_words sum oldBytes) newBytes) newBytes
    end in
  finish sum.

(** ** The reference *)
(** One's complement addition of 16-bit numbers: the carry goes around. *)
Definition oc_add (a b : Z) : Z := let s := a + b in if 0xFFFF <? s then s - 0xFFFF else s.
Fixpoint ocsum (data : bytes) : Z :=
  match data with
  | hi :: lo :: data => oc_add (u16 hi lo) (ocsum data)
  | [hi] => u16 hi x00
  | [] => 0
  end.

(** The sum of the words as a number. *)
Fixpoint wsum (data : bytes) : Z :=
  match data with
  | hi :: lo :: data => u16 hi lo + wsum data
  | [hi] => u16 hi x00
  | [] => 0
  end.

(** ** Arithmetic modulo 65535 *)
Definition oc_eq (a b : Z) : Prop := ∃ k, a = b + k * 65535.
Infix "≡ₒ" := oc_eq (at level 70) : Z_scope.

#[export] Instance oc_eq_equiv : Equivalence oc_eq.
Proof.
  split.
  - intros a. exists 0. lia.
  - intros a b [k ->]. exists (- k). lia.
  - intros a b c [k ->] [l ->]. exists (k + l). lia.
Qed.
#[export] Instance oc_add_proper : Proper (oc_eq ==> oc_eq ==> oc_eq) Z.add.
Proof. intros ? a [k ->] ? b [l ->]. exists (k + l). lia. Qed.
#[export] Instance oc_opp_proper : Proper (oc_eq ==> oc_eq) Z.opp.
Proof. intros ? a [k ->]. exists (- k). lia. Qed.
#[export] Instance oc_sub_proper : Proper (oc_eq ==> oc_eq ==> oc_eq) Z.sub.
Proof. intros ? a [k ->] ? b [l ->]. exists (k - l). lia. Qed.

Lemma oc_eq_sub a b k : a - b = k * 65535 → a ≡ₒ b.
Proof. intros H. exists k. lia. Qed.
Lemma oc_eq_small a b : a ≡ₒ b → 0 < a ≤ 65535 → 0 < b ≤ 65535 → a = b.
Proof. intros [k ->] Ha Hb. lia. Qed.

Lemma u16_bound hi lo : 0 ≤ u16 hi lo ≤ 65535.
Proof. unfold u16. pose proof (byte_Z_bound hi). pose proof (byte_Z_bound lo). lia. Qed.

Lemma not16_eq x : 0 ≤ x ≤ 65535 → not16 x = 65535 - x.
Proof.
  intros Hx. unfold not16. change 0xFFFF with (Z.ones 16).
  assert (Z.lxor x (Z.ones 16) = Z.lnot x mod 2 ^ 16) as ->.
  { apply Z.bits_inj'. intros i Hi. rewrite Z.lxor_spec, Z.testbit_ones_nonneg by lia.
    destruct (Z.ltb_spec i 16).
    - rewrite Z.mod_pow2_bits_low, Z.lnot_spec by lia. by destruct (Z.testbit x i).
    - rewrite Z.mod_pow2_bits_high by lia. rewrite <- (Z.mod_small x (2 ^ 16)) by lia.
      by rewrite Z.mod_pow2_bits_high by lia. }
  change (2 ^ 16) with 65536. rewrite <- (Z.mod_add (Z.lnot x) 1 65536) by lia. unfold Z.lnot.
  change (Z.ones 16) with 65535. rewrite Z.mod_small; lia.
Qed.
Lemma not16_oc x : 0 ≤ x ≤ 65535 → not16 x ≡ₒ - x.
Proof. intros Hx. rewrite not16_eq by done. apply (oc_eq_sub _ _ 1). lia. Qed.

Lemma fold_carry_spec s : 0 ≤ s < 2 ^ 32 →
  wrap_u16 (fold_carry s) ≡ₒ s ∧ 0 ≤ wrap_u16 (fold_carry s) ≤ 65535 ∧ (0 < s → 0 < wrap_u16 (fold_carry s)).
Proof.
  intros Hs. unfold fold_carry. change 0xFFFF with (Z.ones 16). rewrite Z.land_ones, Z.shiftr_div_pow2 by lia.
  change (Z.ones 16) with 65535. change (2 ^ 16) with 65536. change (2 ^ 32) with 4294967296 in Hs.
  pose proof (Z.div_mod s 65536 ltac:(lia)). pose proof (Z.mod_pos_bound s 65536 ltac:(lia)).
  pose proof (Z.div_lt_upper_bound s 65536 65536 ltac:(lia) ltac:(lia)). pose proof (Z.div_pos s 65536 ltac:(lia) ltac:(lia)).
  set (q := s / 65536) in *. set (r := s mod 65536) in *. unfold add32. rewrite (wrap_id 32 (r + q)) by lia.
  destruct (Z.ltb_spec 65535 (r + q)).
  - rewrite (wrap_id 32) by lia. assert (wrap 16 (r + q + 1) = r + q + 1 - 65536) as ->.
    { unfold wrap. change (2 ^ 16) with 65536. rewrite <- (Z.mod_add _ (-1)) by lia. rewrite Z.mod_small; lia. }
    split_and!; [|lia..]. apply (oc_eq_sub _ _ (- q - 1)). lia.
  - rewrite wrap_id by lia. split_and!; [|lia..]. apply (oc_eq_sub _ _ (- q)). lia.
Qed.

(** The checksum of a sum is its negation, and never 0xFFFF unless the sum is 0. *)
Lemma finish_spec s : 0 ≤ s < 2 ^ 32 → finish s ≡ₒ - s ∧ 0 ≤ finish s ≤ 65535 ∧ (0 < s → finish s < 65535).
Proof.
  intros Hs. destruct (fold_carry_spec s Hs) as (He & Hb & Hp). unfold finish. rewrite not16_eq by done.
  split_and!; [|lia..]. transitivity (- wrap_u16 (fold_carry s)); [apply (oc_eq_sub _ _ 1); lia|by rewrite He].
Qed.

(** ** Sums of words *)
(** Two bytes at a time. *)
Lemma pair_ind (P : bytes → Prop) : P [] → (∀ b, P [b]) → (∀ hi lo d, P d → P (hi :: lo :: d)) → ∀ d, P d.
Proof.
  intros H0 H1 H2. assert (∀ n d, (length d ≤ n)%nat → P d) as H.
  { induction n as [|n IH]; intros [|hi [|lo d]] Hd; cbn in Hd; try done; try lia. apply H2, IH. lia. }
  intros d. by apply (H (length d)).
Qed.

Lemma wsum_nonneg d : 0 ≤ wsum d.
Proof.
  induction d as [|b|hi lo d IH] using pair_ind; cbn; [lia| |]; [pose proof (u16_bound b x00)|pose proof (u16_bound hi lo)];
    lia.
Qed.
Lemma wsum_bound d : wsum d ≤ 65535 * Z.of_nat (length d).
Proof.
  induction d as [|b|hi lo d IH] using pair_ind; cbn [wsum length]; [lia| |].
  - pose proof (u16_bound b x00). lia.
  - pose proof (u16_bound hi lo). lia.
Qed.
Lemma wsum_app d e : Nat.even (length d) = true → wsum (d ++ e) = wsum d + wsum e.
Proof.
  induction d as [|b|hi lo d IH] using pair_ind; intros Hd; [done|done|]. cbn [app wsum]. rewrite IH by done. lia.
Qed.

Lemma add32_small a b : 0 ≤ a → 0 ≤ b → a + b < 2 ^ 32 → add32 a b = a + b.
Proof. intros. apply wrap_id. lia. Qed.

(** Evaluate 32-bit additions that do not overflow, inside out. *)
Ltac add_small :=
  repeat match goal with
  | |- context [add32 ?a ?b] =>
      lazymatch a with context [add32] => fail | _ =>
      lazymatch b with context [add32] => fail | _ => rewrite (add32_small a b) by lia end end
  end.

Lemma add_words_odd sum d : 0 ≤ sum → sum + wsum d < 2 ^ 32 → add_odd (add_words sum d) d = sum + wsum d.
Proof.
  revert sum. induction d as [|b|hi lo d IH] using pair_ind; intros sum Hs Hb; cbn [wsum add_words] in *.
  - unfold add_odd. cbn. lia.
  - unfold add_odd. cbn [length Nat.odd last default]. pose proof (byte_Z_bound b). unfold u16 in *.
    change (byte_Z x00) with 0 in *. rewrite Z.shiftl_mul_pow2 by lia. change (Nat.odd 1) with true. cbn [from_option id].
    cbv match. rewrite add32_small; lia.
  - pose proof (u16_bound hi lo). pose proof (wsum_nonneg d). rewrite add32_small by lia.
    transitivity (add_odd (add_words (sum + u16 hi lo) d) d); [|rewrite IH by lia; lia].
    unfold add_odd. cbn [length]. rewrite Nat.odd_succ_succ. destruct d; done.
Qed.

Lemma add_odd_app sum d e : Nat.even (length d) = true → add_odd sum (d ++ e) = add_odd sum e.
Proof.
  intros Hd. unfold add_odd. rewrite length_app, Nat.odd_add.
  rewrite <- Nat.negb_even, Hd. cbn [negb xorb]. destruct (Nat.odd (length e)) eqn:He; cbn; [|done].
  destruct e as [|b e]; [done|]. do 3 f_equal. rewrite last_app. destruct (last (b :: e)) eqn:Hl; [done|]. by apply last_None in Hl.
Qed.

Lemma add_odd_drop n sum d : Nat.even n = true → (n ≤ length d)%nat → add_odd sum d = add_odd sum (drop n d).
Proof.
  intros He Hn. rewrite <- (take_drop n d) at 1. apply add_odd_app. by rewrite length_take, Nat.min_l.
Qed.

(** ** Checksums against the reference *)
Lemma oc_add_spec a b : 0 ≤ a ≤ 65535 → 0 ≤ b ≤ 65535 →
  oc_add a b ≡ₒ a + b ∧ 0 ≤ oc_add a b ≤ 65535 ∧ (oc_add a b = 0 ↔ a = 0 ∧ b = 0).
Proof.
  intros Ha Hb. unfold oc_add. destruct (Z.ltb_spec 65535 (a + b)); (split; [|lia]).
  - apply (oc_eq_sub _ _ (-1)). lia.
  - apply (oc_eq_sub _ _ 0). lia.
Qed.

Lemma ocsum_spec d : ocsum d ≡ₒ wsum d ∧ 0 ≤ ocsum d ≤ 65535 ∧ (ocsum d = 0 ↔ wsum d = 0).
Proof.
  induction d as [|b|hi lo d (IH1 & IH2 & IH3)] using pair_ind; cbn [ocsum wsum].
  - split; [done|lia].
  - split; [done|]. pose proof (u16_bound b x00). lia.
  - pose proof (u16_bound hi lo). destruct (oc_add_spec (u16 hi lo) (ocsum d)) as (H1 & H2 & H3); [done..|].
    pose proof (wsum_nonneg d). split; [by rewrite H1, IH1|]. lia.
Qed.

(** A receiver accepts the data. *)
Definition verifies (d : bytes) : Prop := ocsum d = 0xFFFF.

Lemma verifies_iff d : verifies d ↔ wsum d ≡ₒ 0 ∧ wsum d ≠ 0.
Proof.
  unfold verifies. destruct (ocsum_spec d) as (He & Hb & Hz). split.
  - intros H. rewrite H in *. split; [rewrite <- He; by exists 1|lia].
  - intros [H Hn]. rewrite <- He in H. apply (oc_eq_small _ 65535); [rewrite H; by exists (-1)|lia..].
Qed.

(** ** Changing bytes *)
Definition byte_at (i : nat) (d : bytes) : Z := byte_Z (default x00 (d !! i)).
(** [BigEndian.Uint16(d[i:i+2])] in range, and the effect of [PutUint16(d[i:i+2], v)]. *)
Definition word (i : nat) (d : bytes) : Z := byte_at i d * 256 + byte_at (i + 1) d.
Definition set16 (i : nat) (v : Z) (d : bytes) : bytes :=
  <[(i + 1)%nat := Z_byte v]> (<[i := Z_byte (Z.shiftr v 8)]> d).

Definition weight (i : nat) : Z := if Nat.even i then 256 else 1.

Lemma wsum_insert i b d : (i < length d)%nat →
  wsum (<[i := b]> d) = wsum d + weight i * (byte_Z b - byte_at i d).
Proof.
  revert i. induction d as [|c|hi lo d IH] using pair_ind; intros i Hi; cbn [length] in Hi; [lia| |].
  - destruct i; [|lia]. cbn. unfold u16, byte_at. cbn. lia.
  - destruct i as [|[|i]].
    + change (wsum (b :: lo :: d) = wsum (hi :: lo :: d) + 256 * (byte_Z b - byte_Z hi)). cbn [wsum]. unfold u16. lia.
    + change (wsum (hi :: b :: d) = wsum (hi :: lo :: d) + 1 * (byte_Z b - byte_Z lo)). cbn [wsum]. unfold u16. lia.
    + change (u16 hi lo + wsum (<[i := b]> d) = u16 hi lo + wsum d + weight i * (byte_Z b - byte_at i d)).
      rewrite IH by lia. lia.
Qed.

Lemma word_bound i d : 0 ≤ word i d ≤ 65535.
Proof.
  unfold word, byte_at. pose proof (byte_Z_bound (default x00 (d !! i))).
  pose proof (byte_Z_bound (default x00 (d !! (i + 1)%nat))). lia.
Qed.

Lemma length_set16 i v d : length (set16 i v d) = length d.
Proof. unfold set16. by rewrite !length_insert. Qed.

Lemma set16_bytes v : 0 ≤ v ≤ 65535 → byte_Z (Z_byte (Z.shiftr v 8)) * 256 + byte_Z (Z_byte v) = v.
Proof.
  intros Hv. rewrite Z.shiftr_div_pow2 by lia. change (2 ^ 8) with 256.
  pose proof (Z.div_mod v 256). pose proof (Z.mod_pos_bound v 256).
  rewrite byte_Z_byte by (split; [apply Z.div_pos; lia|apply Z.div_lt_upper_bound; lia]).
  assert (Z_byte v = Z_byte (v mod 256)) as -> by (unfold Z_byte; by rewrite Z.mod_mod by lia).
  rewrite byte_Z_byte by lia. lia.
Qed.

Lemma word_set16 i v d : 0 ≤ v ≤ 65535 → (i + 1 < length d)%nat → word i (set16 i v d) = v.
Proof.
  intros Hv Hi. unfold word, byte_at, set16. rewrite list_lookup_insert_ne by lia.
  rewrite !list_lookup_insert_eq by (rewrite ?length_insert; lia). cbn. by apply set16_bytes.
Qed.
Lemma byte_at_insert_ne i j b d : i ≠ j → byte_at i (<[j := b]> d) = byte_at i d.
Proof. intros H. unfold byte_at. by rewrite list_lookup_insert_ne. Qed.
Lemma byte_at_set16_ne i j v d : i ≠ j → i ≠ (j + 1)%nat → byte_at i (set16 j v d) = byte_at i d.
Proof. intros. unfold set16. by rewrite !byte_at_insert_ne. Qed.
Lemma word_set16_ne i j v d : (i + 1 < j ∨ j + 1 < i)%nat → word i (set16 j v d) = word i d.
Proof. intros. unfold word. by rewrite !byte_at_set16_ne by lia. Qed.

(** An aligned word is replaced in the sum. *)
Lemma wsum_set16 i v d : Nat.even i = true → 0 ≤ v ≤ 65535 → (i + 1 < length d)%nat →
  wsum (set16 i v d) = wsum d - word i d + v.
Proof.
  intros He Hv Hi. unfold set16. rewrite !wsum_insert by (rewrite ?length_insert; lia).
  rewrite byte_at_insert_ne by lia. unfold weight, word. rewrite Nat.add_1_r in *. rewrite He.
  assert (Nat.even (S i) = false) as -> by (rewrite Nat.even_succ, <- Nat.negb_even, He; done).
  pose proof (set16_bytes v Hv). lia.
Qed.

(** The words of a header before, at and after the checksum field. *)
Lemma ipv4Checksum_eq h : (20 ≤ length h ≤ 60)%nat → ipv4Checksum h = finish (wsum h - word 10 h).
Proof.
  intros Hl. do 20 (destruct h as [|? h]; [cbn in Hl; lia|]). cbn [length] in Hl.
  unfold word, byte_at. cbn [lookup list_lookup Nat.add default]. unfold ipv4Checksum. cbv zeta.
  rewrite (add_odd_drop 20) by (done || cbn; lia). cbn [drop]. f_equal. cbn [wsum].
  pose proof (wsum_nonneg h). pose proof (wsum_bound h).
  repeat match goal with |- context [u16 ?x ?y] =>
    let w := fresh "w" in pose proof (u16_bound x y); set (w := u16 x y) in * end.
  add_small. rewrite drop_0, add_words_odd by lia. change (byte_Z (id b9) * 256 + byte_Z (id b10)) with w8. lia.
Qed.

Lemma icmp_blocks_spec n d s1 s2 s3 s4 : (length d ≤ n)%nat → 0 ≤ s1 → 0 ≤ s2 → 0 ≤ s3 → 0 ≤ s4 →
  s1 + s2 + s3 + s4 + wsum d < 2 ^ 32 →
  let '(s, r) := icmp_blocks s1 s2 s3 s4 d in
  0 ≤ s ∧ s + wsum r = s1 + s2 + s3 + s4 + wsum d ∧ ∃ pre, d = pre ++ r ∧ Nat.even (length pre) = true.
Proof.
  revert d s1 s2 s3 s4. induction n as [|n IH]; intros d s1 s2 s3 s4 Hl H1 H2 H3 H4 Hb.
  { destruct d; [|cbn in Hl; lia]. cbn in *. add_small. split_and!; [lia..|by exists []]. }
  do 16 (destruct d as [|? d]; [
    cbn [icmp_blocks]; match goal with |- context [add32 (add32 (add32 s1 s2) s3) s4] => idtac end;
    match type of Hb with context [wsum ?e] => pose proof (wsum_nonneg e) end;
    add_small; split_and!; [lia|lia|by exists []]|]).
  cbn [icmp_blocks]. cbn [wsum] in *. pose proof (wsum_nonneg d).
  repeat match goal with |- context [u16 ?x ?y] =>
    let w := fresh "w" in pose proof (u16_bound x y); set (w := u16 x y) in * end.
  add_small. cbn [length] in Hl.
  match goal with |- context [icmp_blocks ?a ?b ?c ?e d] => pose proof (IH d a b c e) as Hi; destruct (icmp_blocks a b c e d) as [s r] end.
  destruct Hi as (Hs & Hsum & pre & -> & Hp); [lia..|]. split_and!; [done|lia|].
  eexists (_ :: _ :: _ :: _ :: _ :: _ :: _ :: _ :: _ :: _ :: _ :: _ :: _ :: _ :: _ :: _ :: pre). split; [reflexivity|done].
Qed.

(** Computed over four sums or over one: the same checksum. *)
Lemma icmpChecksum_eq d : Z.of_nat (length d) ≤ 65535 → icmpChecksum d = finish (wsum d).
Proof.
  intros Hl. unfold icmpChecksum. pose proof (wsum_bound d).
  pose proof (icmp_blocks_spec (length d) d 0 0 0 0) as Hi. destruct (icmp_blocks 0 0 0 0 d) as [s r].
  destruct Hi as (Hs & Hsum & pre & -> & Hp); [lia..|]. f_equal. rewrite add_odd_app by done.
  rewrite add_words_odd; lia.
Qed.

Lemma sub_words_spec s d : Nat.even (length d) = true → 0 ≤ s → s + 65535 * Z.of_nat (length d) < 2 ^ 32 →
  sub_words s d ≡ₒ s - wsum d ∧ 0 ≤ sub_words s d ≤ s + 65535 * Z.of_nat (length d).
Proof.
  revert s. induction d as [|b|hi lo d IH] using pair_ind; intros s He Hs Hb; cbn [sub_words wsum length] in *.
  - split; [apply (oc_eq_sub _ _ 0)|]; lia.
  - done.
  - pose proof (u16_bound hi lo). rewrite not16_eq by done. rewrite add32_small by lia.
    destruct (IH (s + (65535 - u16 hi lo))) as [H1 H2]; [done|lia|lia|]. split; [|lia].
    rewrite H1. apply (oc_eq_sub _ _ 1). lia.
Qed.

(** RFC 1624: the new checksum accounts for the bytes that changed. *)
Lemma incrementalUpdate_spec c old new : 0 ≤ c ≤ 65535 → Nat.even (length old) = true →
  (length old ≤ 1000)%nat → (length new ≤ 1000)%nat →
  incrementalUpdate c old new ≡ₒ c + wsum old - wsum new ∧ 0 ≤ incrementalUpdate c old new ≤ 65535.
Proof.
  intros Hc He Ho Hn. unfold incrementalUpdate. rewrite not16_eq by done.
  match goal with |- context [finish ?s] => enough (s ≡ₒ 65535 - c - wsum old + wsum new ∧ 0 ≤ s < 2 ^ 32) as [H1 H2] end.
  { destruct (finish_spec _ H2) as (Hf & Hb & _). split; [|done]. rewrite Hf, H1. apply (oc_eq_sub _ _ (-1)). lia. }
  assert (Hgen : add_odd (add_words (sub_words (65535 - c) old) new) new ≡ₒ 65535 - c - wsum old + wsum new
                 ∧ 0 ≤ add_odd (add_words (sub_words (65535 - c) old) new) new < 2 ^ 32).
  { destruct (sub_words_spec (65535 - c) old) as [H1 H2]; [done|lia..|]. pose proof (wsum_bound new).
    pose proof (wsum_nonneg new). rewrite add_words_odd by lia. split; [|lia]. by rewrite H1. }
  destruct old as [|o0 [|o1 [|o2 [|o3 [|]]]]]; try exact Hgen.
  destruct new as [|n0 [|n1 [|n2 [|n3 [|]]]]]; try exact Hgen.
Qed.

(** The odd byte of the bytes taken out is complemented within its byte, not within its word, so
    the general path is wrong for an odd number of bytes; the filter only passes 2 or 4. *)
Example odd_update_wrong :
  incrementalUpdate 0x1234 [x01] [x01] = 0x1333 ∧ incrementalUpdate 0x1234 [x01; x00] [x01; x00] = 0x1234.
Proof. vm_compute. auto. Qed.
