(* ===== verification/RelayServer.v ===== *)
(** The relay server: [src/relay/server/store/] (store, listener, notifier),
    [src/relay/server/peer.go], [handshake.go] and [relay.go].

    [Peer] and [Listener] objects live in tables indexed by a handle, so that the pointer
    comparison of [DeletePeer] is a comparison of handles; a peer's listener has the
    peer's handle.  Every method that takes a lock is one step.  The event channel of a
    listener has a bounded buffer: a send into a full buffer blocks ([None]) unless the
    listener is cancelled.  A connection is the list of messages written to it; writing
    to a closed connection fails.  Metrics, logging and the health-check timers are left
    out; the validator and the gob decoder are parameters. *)
From S2P Require Import Prelude RelayMessages.

#[export, refine] Instance byte_countable : Countable byte :=
  {| encode b := encode (Byte.to_N b); decode p := decode p ≫= Byte.of_N |}.
Proof. intros b. rewrite decode_encode. simpl. apply Byte.of_to_N. Defined.

(** ** store/listener.go *)
Record Listener := {
  eventChan : list (PeerID * bool);           (* (peerID, online), oldest first *)
  interestedPeersForOffline : gset PeerID;
  interestedPeersForOnline : gset PeerID;
  ctx_done : bool;
}.

Definition eventChan_cap : nat := 244.

Definition newListener : Listener :=
  {| eventChan := []; interestedPeersForOffline := ∅; interestedPeersForOnline := ∅; ctx_done := false |}.

Definition AddInterestedPeers (peerIDs : list PeerID) (l : Listener) : Listener :=
  {| eventChan := eventChan l;
     interestedPeersForOffline := list_to_set peerIDs ∪ interestedPeersForOffline l;
     interestedPeersForOnline := list_to_set peerIDs ∪ interestedPeersForOnline l;
     ctx_done := ctx_done l |}.

Definition RemoveInterestedPeer (peerIDs : list PeerID) (l : Listener) : Listener :=
  {| eventChan := eventChan l;
     interestedPeersForOffline := interestedPeersForOffline l ∖ list_to_set peerIDs;
     interestedPeersForOnline := interestedPeersForOnline l ∖ list_to_set peerIDs;
     ctx_done := ctx_done l |}.

(** The [select] on the channel and the context.  With both ready Go picks either; the
    model keeps the event, which a cancelled listener never reads. *)
Definition send_event (e : PeerID * bool) (l : Listener) : option Listener :=
  if bool_decide (length (eventChan l) < eventChan_cap) then
    Some {| eventChan := eventChan l ++ [e];
            interestedPeersForOffline := interestedPeersForOffline l;
            interestedPeersForOnline := interestedPeersForOnline l; ctx_done := ctx_done l |}
  else if ctx_done l then Some l
  else None.

Definition peerWentOffline (peerID : PeerID) (l : Listener) : option Listener :=
  if bool_decide (peerID ∈ interestedPeersForOffline l) then send_event (peerID, false) l else Some l.

Definition peerComeOnline (peerID : PeerID) (l : Listener) : option Listener :=
  if bool_decide (peerID ∈ interestedPeersForOnline l) then
    l ← send_event (peerID, true) l;
    Some {| eventChan := eventChan l; interestedPeersForOffline := interestedPeersForOffline l;
            interestedPeersForOnline := interestedPeersForOnline l ∖ {[ peerID ]};
            ctx_done := ctx_done l |}
  else Some l.

(** One turn of [listenForEvents]: drain the channel and sort the events into two lists;
    the online callback runs first, then the offline one, each if its list is not empty. *)
Inductive callback := OnOnline (peers : list PeerID) | OnOffline (peers : list PeerID).

Definition listen_turn (l : Listener) : list callback * Listener :=
  let peersOnline := (filter (λ e, e.2 = true) (eventChan l)).*1 in
  let peersOffline := (filter (λ e, e.2 = false) (eventChan l)).*1 in
  ((if bool_decide (peersOnline = []) then [] else [OnOnline peersOnline])
   ++ (if bool_decide (peersOffline = []) then [] else [OnOffline peersOffline]),
   {| eventChan := []; interestedPeersForOffline := interestedPeersForOffline l;
      interestedPeersForOnline := interestedPeersForOnline l; ctx_done := ctx_done l |}).

(** ** The server *)
Record Peer := { id : PeerID; open : bool; written : list bytes }.

Record Relay := {
  objects : gmap nat Peer;                 (* every Peer ever created *)
  peers : gmap PeerID nat;                 (* store.peers *)
  listeners : gmap nat Listener;           (* notifier.listeners *)
  closed : bool;
}.

Definition NewRelay : Relay := {| objects := ∅; peers := ∅; listeners := ∅; closed := false |}.

Definition set_objects (m : gmap nat Peer) (r : Relay) : Relay :=
  {| objects := m; peers := peers r; listeners := listeners r; closed := closed r |}.
Definition set_peers (m : gmap PeerID nat) (r : Relay) : Relay :=
  {| objects := objects r; peers := m; listeners := listeners r; closed := closed r |}.
Definition set_listeners (m : gmap nat Listener) (r : Relay) : Relay :=
  {| objects := objects r; peers := peers r; listeners := m; closed := closed r |}.

(** *** peer.go: the connection *)
Definition NewPeer (h : nat) (i : PeerID) (r : Relay) : Relay :=
  set_objects (<[h := {| id := i; open := true; written := [] |}]> (objects r)) r.

Definition Close (h : nat) (r : Relay) : Relay :=
  set_objects (alter (λ p, {| id := id p; open := false; written := written p |}) h (objects r)) r.

(** [Write]: true when the message was written. *)
Definition Write (h : nat) (b : bytes) (r : Relay) : bool * Relay :=
  match objects r !! h with
  | Some p =>
      if open p
      then (true, set_objects (<[h := {| id := id p; open := true; written := written p ++ [b] |}]> (objects r)) r)
      else (false, r)
  | None => (false, r)
  end.

Definition CloseGracefully (h : nat) (r : Relay) : Relay := Close h (Write h MarshalCloseMsg r).2.

(** *** store/store.go *)
Definition AddPeer (h : nat) (i : PeerID) (r : Relay) : bool * Relay :=
  match peers r !! i with
  | Some old => (true, set_peers (<[i := h]> (peers r)) (Close old r))
  | None => (false, set_peers (<[i := h]> (peers r)) r)
  end.

Definition DeletePeer (h : nat) (i : PeerID) (r : Relay) : bool * Relay :=
  match peers r !! i with
  | Some dp => if bool_decide (dp = h) then (true, set_peers (delete i (peers r)) r) else (false, r)
  | None => (false, r)
  end.

Definition store_Peer (i : PeerID) (r : Relay) : option nat := peers r !! i.

Definition Peers (r : Relay) : list nat := (map_to_list (peers r)).*2.

Definition GetOnlinePeersAndRegisterInterest (peerIDs : list PeerID) (h : nat) (r : Relay)
    : list PeerID * Relay :=
  (filter (λ i, is_Some (peers r !! i)) peerIDs,
   set_listeners (alter (AddInterestedPeers peerIDs) h (listeners r)) r).

(** *** store/notifier.go *)
Definition NewListener (h : nat) (r : Relay) : Relay :=
  set_listeners (<[h := newListener]> (listeners r)) r.

Definition RemoveListener (h : nat) (r : Relay) : Relay := set_listeners (delete h (listeners r)) r.

(** The notification of all listeners goes through when none of them blocks. *)
Definition notify (f : Listener → option Listener) (r : Relay) : option Relay :=
  if bool_decide (map_Forall (λ _ l, is_Some (f l)) (listeners r))
  then Some (set_listeners (omap f (listeners r)) r) else None.

Definition PeerWentOffline (i : PeerID) (r : Relay) : option Relay := notify (peerWentOffline i) r.
Definition PeerCameOnline (i : PeerID) (r : Relay) : option Relay := notify (peerComeOnline i) r.

(** *** peer.go: the messages of a client *)
Abbreviation step := (outcome Empty_set).

(** An error of the callee is logged and ends the handler without an effect; a panic of
    the callee is one of the handler. *)
Definition on_ok {A B} (m : res A) (dflt : B) (k : A → step B) : step B :=
  match m with Ret a => k a | Err _ => Ret dflt | Panic => Panic end.

Definition handleTransportMsg (h : nat) (msg : bytes) (r : Relay) : step Relay :=
  on_ok (UnmarshalTransportID msg) r (λ peerID,
    match store_Peer peerID r with
    | None => Ret r
    | Some dp =>
        match objects r !! h with
        | None => Panic
        | Some p => on_ok (UpdateTransportMsg msg (id p)) r (λ msg, Ret (Write dp msg r).2)
        end
    end).

Definition write_all (h : nat) (msgs : list bytes) (r : Relay) : Relay :=
  foldl (λ r m, (Write h m r).2) r msgs.

Definition sendPeersOnline (h : nat) (ps : list PeerID) (r : Relay) : step Relay :=
  on_ok (MarshalPeersOnline ps) r (λ msgs, Ret (write_all h msgs r)).

Definition sendPeersWentOffline (h : nat) (ps : list PeerID) (r : Relay) : step Relay :=
  on_ok (MarshalPeersWentOffline ps) r (λ msgs, Ret (write_all h msgs r)).

Definition handleSubscribePeerState (h : nat) (msg : bytes) (r : Relay) : step Relay :=
  on_ok (UnmarshalSubPeerStateMsg msg) r (λ peerIDs,
    let '(onlinePeers, r) := GetOnlinePeersAndRegisterInterest peerIDs h r in
    if bool_decide (onlinePeers = []) then Ret r else sendPeersOnline h onlinePeers r).

Definition handleUnsubscribePeerState (h : nat) (msg : bytes) (r : Relay) : step Relay :=
  on_ok (UnmarshalUnsubPeerStateMsg msg) r (λ peerIDs,
    Ret (set_listeners (alter (RemoveInterestedPeer peerIDs) h (listeners r)) r)).

Definition handleMsgType (h : nat) (msgType : MsgType) (msg : bytes) (r : Relay) : step Relay :=
  if decide (msgType = MsgTypeHealthCheck) then Ret r
  else if decide (msgType = MsgTypeTransport) then handleTransportMsg h msg r
  else if decide (msgType = MsgTypeClose) then Ret (Close h r)
  else if decide (msgType = MsgTypeSubscribePeerState) then handleSubscribePeerState h msg r
  else if decide (msgType = MsgTypeUnsubscribePeerState) then handleUnsubscribePeerState h msg r
  else Ret r.

(** One turn of the read loop of [Work]; false when the loop returns. *)
Definition Work_turn (h : nat) (msg : bytes) (r : Relay) : step (bool * Relay) :=
  if bool_decide (msg = []) then Ret (false, r)
  else
    on_ok (ValidateVersion msg) (false, r) (λ _,
      on_ok (DetermineClientMessageType msg) (false, r) (λ msgType,
        r ← handleMsgType h msgType msg r; Ret (true, r))).

Definition Work_start (h : nat) (r : Relay) : Relay := NewListener h r.
Definition Work_end (h : nat) (r : Relay) : Relay := Close h (RemoveListener h r).

(** A callback of the listener's goroutine. *)
Definition run_callback (h : nat) (c : callback) (r : Relay) : step Relay :=
  match c with
  | OnOnline ps => sendPeersOnline h ps r
  | OnOffline ps => sendPeersWentOffline h ps r
  end.

(** *** relay.go: [Accept] after the handshake, and the goroutine that runs [Work] *)
Definition Accept_register (h : nat) (i : PeerID) (r : Relay) : option Relay :=
  if closed r then Some r
  else PeerCameOnline i (AddPeer h i (NewPeer h i r)).2.

Definition Accept_done (h : nat) (i : PeerID) (r : Relay) : option Relay :=
  let '(deleted, r) := DeletePeer h i r in
  if (deleted : bool) then PeerWentOffline i r else Some r.

Definition Shutdown (r : Relay) : Relay :=
  let r := foldr CloseGracefully r (Peers r) in
  {| objects := objects r; peers := peers r; listeners := listeners r; closed := true |}.

(** *** handshake.go *)
Section handshake.
Context (Validate : bytes → bool).               (* Validator.Validate *)
Context (ValidateHelloMsgType : bytes → bool).   (* Validator.ValidateHelloMsgType *)
Context (auth_UnmarshalMsg : bytes → option bytes).  (* gob: the AdditionalData *)

Inductive hs_err := HsRead | HsVersion | HsMsgType | HsInvalidType | HsUnmarshal | HsAuth.
Abbreviation hs := (outcome hs_err).

Definition lift {A} (e : hs_err) (m : res A) : hs A :=
  match m with Ret a => Ret a | Err _ => Err e | Panic => Panic end.

Definition handleHelloMsg (buf : bytes) : hs PeerID :=
  '(peerID, authData) ← lift HsUnmarshal (UnmarshalHelloMsg buf);
  match auth_UnmarshalMsg authData with
  | None => Err HsUnmarshal
  | Some data => if ValidateHelloMsgType data then Ret peerID else Err HsAuth
  end.

Definition handleAuthMsg (buf : bytes) : hs PeerID :=
  '(rawPeerID, authPayload) ← lift HsUnmarshal (UnmarshalAuthMsg buf);
  if Validate authPayload then Ret rawPeerID else Err HsAuth.

(** The result carries [handshakeMethodAuth], which selects the response. *)
Definition handshakeReceive (read : option bytes) : hs (PeerID * bool) :=
  match read with
  | None => Err HsRead
  | Some buf =>
      _ ← lift HsVersion (ValidateVersion buf);
      msgType ← lift HsMsgType (DetermineClientMessageType buf);
      if decide (msgType = MsgTypeHello) then p ← handleHelloMsg buf; Ret (p, false)
      else if decide (msgType = MsgTypeAuth) then p ← handleAuthMsg buf; Ret (p, true)
      else Err HsInvalidType
  end.

Record preparedMsg := { responseHelloMsg : bytes; responseAuthMsg : bytes }.

(** [addrData] is the gob encoding of the instance address. *)
Definition newPreparedMsg (addrData instanceURL : bytes) : res preparedMsg :=
  rhm ← MarshalHelloResponse addrData;
  ram ← MarshalAuthResponse instanceURL;
  Ret {| responseHelloMsg := rhm; responseAuthMsg := ram |}.

Definition handshakeResponse (handshakeMethodAuth : bool) (m : preparedMsg) : bytes :=
  if handshakeMethodAuth then responseAuthMsg m else responseHelloMsg m.
End handshake.

(** ** Transport *)
Lemma Write_open h b r p :
  objects r !! h = Some p → open p = true →
  Write h b r = (true, set_objects (<[h := {| id := id p; open := true; written := written p ++ [b] |}]>
                                      (objects r)) r).
Proof. intros Hp Ho. unfold Write. by rewrite Hp, Ho. Qed.

(** C32: A transport message travels end to end.  What client [a] encodes for peer [idb]
    reaches exactly the connection that is registered under [idb], as one message that
    decodes there to [a]'s id, stamped by the server, and the unchanged payload; nothing
    else in the server changes.  A message for a peer that is not connected is dropped. *)
Theorem relay_end_to_end r a pa idb payload :
  objects r !! a = Some pa → wf_id (id pa) → wf_id idb →
  ∃ m, MarshalTransportMsg idb payload = Ret m
    ∧ match peers r !! idb with
      | None => Work_turn a m r = Ret (true, r)
      | Some b => ∀ pb, objects r !! b = Some pb → open pb = true →
          ∃ m', Work_turn a m r
                = Ret (true, set_objects (<[b := {| id := id pb; open := true;
                                                    written := written pb ++ [m'] |}]> (objects r)) r)
            ∧ DetermineServerMessageType m' = Ret MsgTypeTransport
            ∧ UnmarshalTransportMsg m' = Ret (id pa, payload)
      end.
Proof.
  intros Ha Hwa Hwb.
  destruct (transport_roundtrip idb payload Hwb) as (m & Hm & Hv & Hc & Hs & Hid & Hdec).
  exists m. split; [done|].
  assert (Hne : m ≠ []) by (intros ->; by vm_compute in Hid).
  assert (Hturn : Work_turn a m r = (r ← handleTransportMsg a m r; Ret (true, r))).
  { unfold Work_turn. rewrite bool_decide_eq_false_2 by done. rewrite Hv, Hc. done. }
  rewrite Hturn. unfold handleTransportMsg, store_Peer. rewrite Hid. cbn [on_ok].
  destruct (peers r !! idb) as [b|] eqn:Hb; [|done]. intros pb Hpb Hopen. rewrite Ha.
  destruct (update_transport_only_id m idb payload (id pa) Hdec Hwa) as (m' & Hu & Hdec' & Hlen & Htake).
  rewrite Hu. cbn [on_ok]. rewrite (Write_open b m' r pb Hpb Hopen). exists m'. split; [done|].
  split; [|done]. destruct m as [|b0 [|b1 m]]; [done|by vm_compute in Hs|].
  destruct m' as [|c0 [|c1 m']]; [done|done|]. cbn in Htake. injection Htake as -> ->. exact Hs.
Qed.

(** ** No client message panics the server *)
Lemma UnmarshalTransportID_total buf :
  (∃ i, UnmarshalTransportID buf = Ret i ∧ wf_id i ∧ headerTotalSizeTransport ≤ length buf)
  ∨ ∃ e, UnmarshalTransportID buf = Err e.
Proof.
  destruct (UnmarshalTransportMsg_total buf) as [(i & rest & _ & Hw & Hid & h & Hh & ->)|(_ & _ & ?)]; [|eauto].
  left. exists i. split; [done|]. split; [done|]. unfold wf_id in Hw. rewrite !length_app, Hh, Hw.
  unfold headerTotalSizeTransport, headerSizeTransport, offsetTransportID. lia.
Qed.

Lemma UpdateTransportMsg_total buf i :
  headerTotalSizeTransport ≤ length buf → ∃ m, UpdateTransportMsg buf i = Ret m.
Proof.
  intros Hl. unfold UpdateTransportMsg, headerTotalSizeTransport, headerSizeTransport, offsetTransportID in *.
  rewrite bool_decide_eq_false_2 by lia. rewrite copy_at_in by lia. eauto.
Qed.

Lemma send_peers_total h t ps r :
  Forall wf_id ps → ∃ r', on_ok (marshalPeerIDs ps t) r (λ msgs, Ret (write_all h msgs r)) = (Ret r' : step Relay).
Proof.
  intros Hw. destruct ps as [|i ps].
  - unfold marshalPeerIDs. simpl. eauto.
  - destruct (marshalPeerIDs_ok (i :: ps) t Hw) as (msgs & ? & -> & _); [done|]. simpl. eauto.
Qed.

Lemma handleMsgType_total h t msg r p :
  objects r !! h = Some p → ∃ r', handleMsgType h t msg r = Ret r'.
Proof.
  intros Hp. unfold handleMsgType. repeat (case_decide; [try by eauto|]); try by eauto.
  - unfold handleTransportMsg. destruct (UnmarshalTransportID_total msg) as [(i & -> & _ & Hl)|(e & ->)];
      cbn [on_ok]; [|by eauto]. destruct (store_Peer i r); [|by eauto]. rewrite Hp.
    destruct (UpdateTransportMsg_total msg (id p) Hl) as (m & ->). simpl. eauto.
  - unfold handleSubscribePeerState, UnmarshalSubPeerStateMsg.
    destruct (unmarshalPeerIDs_total msg) as [(ids & -> & Hw & _)|[->| ->]]; cbn [on_ok]; [|by eauto..].
    simpl. case_bool_decide; [by eauto|]. apply send_peers_total.
    rewrite Forall_forall in *. intros i [_ Hi]%list_elem_of_filter. auto.
  - unfold handleUnsubscribePeerState, UnmarshalUnsubPeerStateMsg.
    destruct (unmarshalPeerIDs_total msg) as [(ids & -> & _)|[->| ->]]; cbn [on_ok]; by eauto.
Qed.

(** C39: Whatever bytes a connected client sends, one turn of its read loop returns: no
    message of any type or length panics the server. *)
Theorem client_cannot_panic_relay h p msg r :
  objects r !! h = Some p → ∃ cont r', Work_turn h msg r = Ret (cont, r').
Proof.
  intros Hp. unfold Work_turn. case_bool_decide; [by eauto|].
  destruct (header_checks_total msg) as (Hv & Hc & _).
  destruct (ValidateVersion msg); [|by simpl; eauto|done]. cbn [on_ok].
  destruct (DetermineClientMessageType msg) as [t| |]; [|by simpl; eauto|done]. cbn [on_ok].
  destruct (handleMsgType_total h t msg r p Hp) as (r' & ->). rewrite bind_ret_l. eauto.
Qed.

(** ** Authentication *)
Section auth.
Context (Validate ValidateHelloMsgType : bytes → bool) (auth_UnmarshalMsg : bytes → option bytes).

(** The handshake never panics, and it yields a peer id only for a first message of
    the supported version that carries that id and whose credentials the validator has
    accepted. *)
Theorem handshake_authenticates read :
  match handshakeReceive Validate ValidateHelloMsgType auth_UnmarshalMsg read with
  | Panic => False
  | Err _ => True
  | Ret (p, auth) =>
      wf_id p ∧ ∃ buf, read = Some buf ∧ ValidateVersion buf = Ret 1
      ∧ if (auth : bool)
        then ∃ payload, UnmarshalAuthMsg buf = Ret (p, payload) ∧ Validate payload = true
        else ∃ data d, UnmarshalHelloMsg buf = Ret (p, data) ∧ auth_UnmarshalMsg data = Some d
                       ∧ ValidateHelloMsgType d = true
  end.
Proof.
  unfold handshakeReceive. destruct read as [buf|]; [|done].
  destruct (header_checks_total buf) as (Hv & Hc & _).
  assert (Hv1 : ∀ v, ValidateVersion buf = Ret v → v = 1).
  { intros v. unfold ValidateVersion. case_bool_decide; [done|]. destruct (index 0 buf); [|done..].
    simpl. case_bool_decide as Hne; [done|]. intros [= <-]. exact Hne. }
  destruct (ValidateVersion buf) as [v| |] eqn:Hver; [|done..]. rewrite (Hv1 v eq_refl) in Hver. cbn [lift].
  rewrite bind_ret_l. destruct (DetermineClientMessageType buf) as [t| |]; [|done..]. cbn [lift].
  rewrite bind_ret_l. case_decide as Hhello; [|case_decide as Hauth; [|done]].
  - unfold handleHelloMsg. pose proof (UnmarshalHelloMsg_total buf) as Htot.
    destruct (UnmarshalHelloMsg buf) as [[p data]| |] eqn:Hum; [|done|naive_solver].
    cbn [lift]. rewrite bind_ret_l. destruct (auth_UnmarshalMsg data) as [d|] eqn:Hd; [|done].
    destruct (ValidateHelloMsgType d) eqn:Hok; [|done]. rewrite bind_ret_l.
    split; [naive_solver|]. exists buf. split; [done|]. split; [done|]. by exists data, d.
  - unfold handleAuthMsg. pose proof (UnmarshalAuthMsg_total buf) as Htot.
    destruct (UnmarshalAuthMsg buf) as [[p payload]| |] eqn:Hum; [|done|naive_solver].
    cbn [lift]. rewrite bind_ret_l. destruct (Validate payload) eqn:Hok; [|done]. rewrite bind_ret_l.
    split; [naive_solver|]. exists buf. split; [done|]. split; [done|]. by exists payload.
Qed.
End auth.

(** ** Connections and notifications *)
Lemma notify_lookup f r r' h l :
  notify f r = Some r' → listeners r !! h = Some l →
  ∃ l', f l = Some l' ∧ listeners r' !! h = Some l' ∧ peers r' = peers r ∧ objects r' = objects r.
Proof.
  unfold notify. case_bool_decide as Hall; [|done]. intros [= <-] Hl.
  destruct (Hall h l Hl) as [l' Hl']. exists l'. split; [done|]. simpl. split; [|done].
  by rewrite lookup_omap, Hl.
Qed.

Lemma notify_store f r r' : notify f r = Some r' → peers r' = peers r ∧ objects r' = objects r.
Proof. unfold notify. case_bool_decide; [|done]. by intros [= <-]. Qed.

(** The newest connection of a peer owns its registration: registering closes the
    connection it replaces, and when the replaced connection's goroutine ends, however
    late, neither the registration nor any listener changes, so that nobody is told that
    the peer went offline. *)
Theorem reconnect_keeps_registration h old i r r1 :
  closed r = false → objects r !! h = None → h ≠ old → peers r !! i = Some old →
  Accept_register h i r = Some r1 →
  peers r1 !! i = Some h
  ∧ (∀ p, objects r !! old = Some p →
       objects r1 !! old = Some {| id := id p; open := false; written := written p |})
  ∧ ∀ r2, peers r2 !! i = Some h → Accept_done old i r2 = Some r2.
Proof.
  intros Hc Hh Hne Hold. unfold Accept_register. rewrite Hc. unfold AddPeer. simpl. rewrite Hold.
  intros Hn. apply notify_store in Hn as [Hp Ho]. split_and!.
  - rewrite Hp. simpl. apply lookup_insert_eq.
  - intros p Hpo. rewrite Ho. simpl. rewrite lookup_alter_eq, lookup_insert_ne by done. by rewrite Hpo.
  - intros r2 H2. unfold Accept_done, DeletePeer. rewrite H2. by rewrite bool_decide_eq_false_2.
Qed.

Lemma write_all_spec h msgs r p :
  objects r !! h = Some p → open p = true →
  objects (write_all h msgs r) !! h = Some {| id := id p; open := true; written := written p ++ msgs |}
  ∧ peers (write_all h msgs r) = peers r ∧ listeners (write_all h msgs r) = listeners r
  ∧ closed (write_all h msgs r) = closed r.
Proof.
  revert r p. induction msgs as [|m msgs IH]; intros r p Hp Ho.
  - rewrite app_nil_r. simpl. rewrite Hp. destruct p; simpl in *; by subst.
  - cbn [write_all foldl]. rewrite (Write_open h m r p Hp Ho). cbn [snd].
    destruct (IH (set_objects (<[h:={| id := id p; open := true; written := written p ++ [m] |}]> (objects r)) r)
      {| id := id p; open := true; written := written p ++ [m] |}) as (H1 & H2 & H3 & H4);
      [apply lookup_insert_eq|done|].
    unfold write_all in *. rewrite H1, H2, H3, H4. simpl. by rewrite <-app_assoc.
Qed.

(** C35: A subscription misses no peer.  After a subscribe message for [x] the subscriber
    either is told at once that [x] is online (when it is registered), or has an online
    event for [x] queued as soon as a connection of [x] is accepted; there is no window
    between the two. *)
Theorem subscription_misses_nobody s ps l msg ids x r r1 :
  objects r !! s = Some ps → open ps = true → listeners r !! s = Some l → closed r = false →
  UnmarshalSubPeerStateMsg msg = Ret ids → x ∈ ids →
  handleSubscribePeerState s msg r = Ret r1 →
  match peers r !! x with
  | Some _ => ∃ p1 m on, objects r1 !! s = Some p1 ∧ m ∈ written p1
      ∧ UnmarshalPeersOnlineMsg m = Ret on ∧ x ∈ on
  | None => ∀ h r2, Accept_register h x r1 = Some r2 →
      ∃ l2, listeners r2 !! s = Some l2
        ∧ (length (eventChan l) < eventChan_cap → last (eventChan l2) = Some (x, true))
  end.
Proof.
  intros Hs Ho Hl Hcl Hm Hx. unfold handleSubscribePeerState. rewrite Hm. cbn [on_ok].
  unfold GetOnlinePeersAndRegisterInterest. set (on := filter _ ids).
  set (rI := set_listeners _ r). intros Hr1.
  assert (Hwf : Forall wf_id ids).
  { unfold UnmarshalSubPeerStateMsg in Hm.
    destruct (unmarshalPeerIDs_total msg) as [(ids' & E & Hw & _)|[E|E]]; rewrite E in Hm; by simplify_eq. }
  assert (Hcase : (on = [] ∧ r1 = rI) ∨ (on ≠ [] ∧ ∃ msgs chunks, r1 = write_all s msgs rI
    ∧ Forall2 (chunk_msg MsgTypePeersOnline) msgs chunks ∧ concat chunks = on)).
  { case_bool_decide as Hn; [left; by simplify_eq|]. right. split; [done|]. unfold sendPeersOnline in Hr1.
    destruct (marshalPeerIDs_ok on MsgTypePeersOnline) as (msgs & chunks & Heq & ? & ?); [|done|].
    - rewrite Forall_forall in *. intros i [_ Hi]%list_elem_of_filter. auto.
    - unfold MarshalPeersOnline in Hr1. rewrite Heq in Hr1. simpl in Hr1. simplify_eq. eauto. }
  assert (HrI : objects rI = objects r ∧ peers rI = peers r ∧ closed rI = closed r
    ∧ listeners rI !! s = Some (AddInterestedPeers ids l)).
  { unfold rI. simpl. rewrite lookup_alter_eq, Hl. done. }
  destruct HrI as (HoI & HpI & HcI & HlI).
  destruct (peers r !! x) as [hx|] eqn:Hpx.
  - assert (Hon : x ∈ on) by (unfold on; apply list_elem_of_filter; rewrite Hpx; eauto).
    destruct Hcase as [[Hn _]|(_ & msgs & chunks & -> & H2 & Hcat)]; [rewrite Hn in Hon; set_solver|].
    rewrite <-Hcat in Hon. apply list_elem_of_In, in_concat in Hon as (chunk & Hin & Hxc).
    apply list_elem_of_In in Hin, Hxc. apply list_elem_of_lookup_1 in Hin as (k & Hk).
    destruct (Forall2_lookup_r _ _ _ _ _ H2 Hk) as (m & Hmk & (_ & Hdec & _)).
    destruct (write_all_spec s msgs rI ps) as (Hobj & _); [by rewrite HoI|done|].
    eexists _, m, chunk. split; [exact Hobj|]. split; [|done]. simpl. apply elem_of_app. right.
    by eapply list_elem_of_lookup_2.
  - intros h r2 Hacc.
    assert (Hr1s : closed r1 = false ∧ peers r1 = peers r ∧ listeners r1 !! s = Some (AddInterestedPeers ids l)).
    { destruct Hcase as [[_ ->]|(_ & msgs & chunks & -> & _)]; [by rewrite HcI|].
      destruct (write_all_spec s msgs rI ps) as (_ & -> & -> & ->); [by rewrite HoI|done|]. by rewrite HcI. }
    destruct Hr1s as (Hc1 & Hp1 & Hl1). unfold Accept_register in Hacc. rewrite Hc1 in Hacc.
    assert (Hlis : listeners (AddPeer h x (NewPeer h x r1)).2 = listeners r1).
    { unfold AddPeer. by destruct (peers (NewPeer h x r1) !! x). }
    rewrite <-Hlis in Hl1. destruct (notify_lookup _ _ _ _ _ Hacc Hl1) as (l2 & Hl2 & Hlook & _).
    exists l2. split; [done|]. intros Hcap. unfold peerComeOnline in Hl2. simpl in Hl2.
    rewrite bool_decide_eq_true_2 in Hl2 by set_solver. unfold send_event in Hl2. simpl in Hl2.
    rewrite bool_decide_eq_true_2 in Hl2 by done. simpl in Hl2. injection Hl2 as <-. simpl. apply last_snoc.
Qed.

(** What a client believes about [x] after a turn of callbacks. *)
Definition belief (x : PeerID) (cbs : list callback) (v : option bool) : option bool :=
  foldl (λ v c, match c with
                | OnOnline ps => if bool_decide (x ∈ ps) then Some true else v
                | OnOffline ps => if bool_decide (x ∈ ps) then Some false else v
                end) v cbs.

Lemma in_events x b (es : list (PeerID * bool)) : x ∈ (filter (λ e, e.2 = b) es).*1 ↔ (x, b) ∈ es.
Proof.
  rewrite list_elem_of_fmap. split.
  - intros ([y c] & -> & [Hc ?]%list_elem_of_filter). simpl in *. by subst.
  - intros ?. exists (x, b). split; [done|]. by apply list_elem_of_filter.
Qed.

(** A turn of the listener reports a peer as offline whenever its batch contains an
    offline event of it, in whatever order the events were sent, and as online only when
    the batch contains online events alone. *)
Lemma listen_turn_belief x l v :
  belief x (listen_turn l).1 v
  = if bool_decide ((x, false) ∈ eventChan l) then Some false
    else if bool_decide ((x, true) ∈ eventChan l) then Some true else v.
Proof.
  unfold listen_turn, belief. simpl.
  pose proof (in_events x true (eventChan l)) as Hon. pose proof (in_events x false (eventChan l)) as Hoff.
  set (on := (filter (λ e, e.2 = true) (eventChan l)).*1) in *.
  set (off := (filter (λ e, e.2 = false) (eventChan l)).*1) in *.
  rewrite <-(bool_decide_ext _ _ Hon), <-(bool_decide_ext _ _ Hoff).
  rewrite foldl_app. case_bool_decide as H1; case_bool_decide as H2; simpl; rewrite ?H1, ?H2;
    repeat case_bool_decide; set_solver.
Qed.

(** A peer that reconnects between two turns of a subscriber's listener is reported
    to that subscriber as online and then as offline, although it is connected, and the
    subscriber's interest in its coming online is gone, so that nothing corrects it. *)
Theorem flapping_peer_reported_offline s l x hx h r r1 r2 :
  closed r = false → peers r !! x = Some hx → listeners r !! s = Some l → eventChan l = [] →
  x ∈ interestedPeersForOffline l → x ∈ interestedPeersForOnline l →
  Accept_done hx x r = Some r1 → Accept_register h x r1 = Some r2 →
  peers r2 !! x = Some h
  ∧ ∃ l2, listeners r2 !! s = Some l2 ∧ eventChan l2 = [(x, false); (x, true)]
     ∧ (listen_turn l2).1 = [OnOnline [x]; OnOffline [x]]
     ∧ belief x (listen_turn l2).1 (Some true) = Some false
     ∧ x ∉ interestedPeersForOnline l2.
Proof.
  intros Hc Hx Hl Hq Hoff Hon. unfold Accept_done, DeletePeer. rewrite Hx, bool_decide_eq_true_2 by done.
  intros Hd Ha.
  destruct (notify_lookup _ _ _ _ _ Hd (Hl : listeners (set_peers (delete x (peers r)) r) !! s = Some l))
    as (l1 & Hl1 & Hlook1 & Hp1 & _).
  unfold peerWentOffline, send_event in Hl1. rewrite bool_decide_eq_true_2 in Hl1 by done.
  rewrite Hq in Hl1. rewrite bool_decide_eq_true_2 in Hl1 by (unfold eventChan_cap; simpl; lia).
  injection Hl1 as <-. simpl in Hp1.
  assert (Hc1 : closed r1 = false).
  { unfold PeerWentOffline, notify in Hd. case_bool_decide; [|done]. by injection Hd as <-. }
  unfold Accept_register in Ha. rewrite Hc1 in Ha.
  assert (Hlis : listeners (AddPeer h x (NewPeer h x r1)).2 = listeners r1).
  { unfold AddPeer. by destruct (peers (NewPeer h x r1) !! x). }
  rewrite <-Hlis in Hlook1. destruct (notify_lookup _ _ _ _ _ Ha Hlook1) as (l2 & Hl2 & Hlook2 & Hp2 & _).
  unfold peerComeOnline, send_event in Hl2. simpl in Hl2. rewrite bool_decide_eq_true_2 in Hl2 by done.
  cbn in Hl2. injection Hl2 as <-.
  split.
  - rewrite Hp2. unfold AddPeer. simpl. rewrite Hp1, lookup_delete_eq. apply lookup_insert_eq.
  - eexists. split; [done|]. split; [done|]. split; [done|]. split; [|set_solver].
    rewrite listen_turn_belief. simpl. by rewrite bool_decide_eq_true_2 by set_solver.
Qed.

(** ** Witnesses *)
Definition other_id : PeerID := prefix ++ replicate 32 x11.
Definition two_peers : Relay :=
  {| objects := {[ 0 := {| id := sample_id; open := true; written := [] |};
                   1 := {| id := other_id; open := true; written := [] |} ]};
     peers := {[ sample_id := 0; other_id := 1 ]};
     listeners := {[ 0 := AddInterestedPeers [other_id] newListener; 1 := newListener ]};
     closed := false |}.

Lemma relay_end_to_end_witness :
  ∃ m m', MarshalTransportMsg other_id [x01; x02] = Ret m
    ∧ UnmarshalTransportMsg m' = Ret (sample_id, [x01; x02])
    ∧ Work_turn 0 m two_peers
      = Ret (true, set_objects (<[1 := {| id := other_id; open := true; written := [] ++ [m'] |}]>
                                  (objects two_peers)) two_peers).
Proof.
  destruct (relay_end_to_end two_peers 0 {| id := sample_id; open := true; written := [] |} other_id [x01; x02]
    eq_refl eq_refl eq_refl) as (m & Hm & Hr).
  destruct (Hr {| id := other_id; open := true; written := [] |} eq_refl eq_refl) as (m' & Hw & _ & Hd).
  exists m, m'. split; [exact Hm|]. split; [exact Hd|]. exact Hw.
Defined.

Lemma client_cannot_panic_relay_witness :
  ∃ cont r', Work_turn 0 [x01; x08; xff] two_peers = Ret (cont, r').
Proof. exact (client_cannot_panic_relay 0 _ [x01; x08; xff] two_peers eq_refl). Defined.

Definition accepted : Relay := default NewRelay (Accept_register 2 other_id two_peers).

Lemma reconnect_keeps_registration_witness :
  peers accepted !! other_id = Some 2 ∧ Accept_done 1 other_id accepted = Some accepted.
Proof.
  assert (Ha : Accept_register 2 other_id two_peers = Some accepted) by (vm_compute; reflexivity).
  destruct (reconnect_keeps_registration 2 1 other_id two_peers accepted eq_refl eq_refl
    ltac:(discriminate) eq_refl Ha) as (H1 & _ & H3).
  split; [exact H1|]. by apply H3.
Defined.

Definition subscribe_msg : bytes := [x01; x08] ++ other_id.
Definition subscribed : Relay :=
  match handleSubscribePeerState 0 subscribe_msg two_peers with Ret r => r | _ => NewRelay end.

Lemma subscription_misses_nobody_witness :
  ∃ p1 m on, objects subscribed !! 0 = Some p1 ∧ m ∈ written p1
    ∧ UnmarshalPeersOnlineMsg m = Ret on ∧ other_id ∈ on.
Proof.
  assert (Hs : handleSubscribePeerState 0 subscribe_msg two_peers = Ret subscribed) by (vm_compute; reflexivity).
  assert (Hd : UnmarshalSubPeerStateMsg subscribe_msg = Ret [other_id]) by (vm_compute; reflexivity).
  exact (subscription_misses_nobody 0 {| id := sample_id; open := true; written := [] |}
    (AddInterestedPeers [other_id] newListener) subscribe_msg [other_id] other_id two_peers subscribed
    eq_refl eq_refl eq_refl eq_refl Hd ltac:(left) Hs).
Defined.

Definition dropped : Relay := default NewRelay (Accept_done 1 other_id two_peers).
Definition back_again : Relay := default NewRelay (Accept_register 2 other_id dropped).

Lemma flapping_peer_reported_offline_witness :
  peers back_again !! other_id = Some 2
  ∧ ∃ l2, listeners back_again !! 0 = Some l2
     ∧ (listen_turn l2).1 = [OnOnline [other_id]; OnOffline [other_id]]
     ∧ belief other_id (listen_turn l2).1 (Some true) = Some false.
Proof.
  assert (Hd : Accept_done 1 other_id two_peers = Some dropped) by (vm_compute; reflexivity).
  assert (Ha : Accept_register 2 other_id dropped = Some back_again) by (vm_compute; reflexivity).
  destruct (flapping_peer_reported_offline 0 (AddInterestedPeers [other_id] newListener) other_id 1 2
    two_peers dropped back_again eq_refl eq_refl eq_refl eq_refl ltac:(set_solver) ltac:(set_solver) Hd Ha)
    as (H1 & l2 & Hl & _ & Ht & Hb & _).
  split; [exact H1|]. exists l2. split; [exact Hl|]. split; [exact Ht|exact Hb].
Defined.
