(* ===== verification/Network.v ===== *)
(** Addresses of an account's network and the merge of network maps:
    [src/management/server/types/network.go].

    An IPv4 network is its 32-bit network number and prefix length; [net.IP] is a byte
    slice, of 4 or 16 bytes when it is an address.  The random generator is a parameter:
    [intn i n] is the result of the [i]-th call, [Intn n].  [Intn] panics unless [n] is
    positive.  The search loop runs with the number of addresses as fuel. *)
From S2P Require Import Prelude.
Open Scope Z_scope.

Abbreviation IP := (list byte).

Definition byte_Z (b : byte) : Z := Z.of_N (Byte.to_N b).
Definition Z_byte (z : Z) : byte := default x00 (Byte.of_N (Z.to_N (z mod 256))).

(** [binary.BigEndian]. *)
Definition BigEndian_Uint32 (b : IP) : Z := foldl (λ acc x, acc * 256 + byte_Z x) 0 (take 4 b).
Definition BigEndian_PutUint32 (n : Z) : IP :=
  [Z_byte (n / 2 ^ 24); Z_byte (n / 2 ^ 16); Z_byte (n / 2 ^ 8); Z_byte n].

(** [IP.To4]: a 4-byte slice, or the tail of a 16-byte IPv4-mapped address. *)
Definition v4InV6Prefix : IP := replicate 10 x00 ++ [xff; xff].
Definition To4 (ip : IP) : IP :=
  if bool_decide (length ip = 4%nat) then ip
  else if bool_decide (length ip = 16%nat ∧ take 12 ip = v4InV6Prefix) then drop 12 ip
  else [].

Definition ipToUint32 (ip : IP) : Z :=
  let ip := To4 ip in
  if bool_decide (length ip < 4)%nat then 0 else BigEndian_Uint32 ip.

Definition uint32ToIP (n : Z) : IP := BigEndian_PutUint32 n.

(** An IPv4 [net.IPNet] with a canonical mask. *)
Record IPNet := { net_ip : Z; ones : Z }.

Definition hostBits (n : IPNet) : Z := 32 - ones n.
Definition totalIPs (n : IPNet) : Z := wrap_u32 (Z.shiftl 1 (hostBits n)).
Definition baseIP (n : IPNet) : Z :=
  Z.land (net_ip n) (Z.shiftl (2 ^ ones n - 1) (hostBits n)).

Inductive ip_err := ErrOutOfIPs | ErrFuel.

Section alloc.
Context (intn : nat → Z → Z).

Definition Intn (i : nat) (n : Z) : outcome ip_err Z := if 0 <? n then Ret (intn i n) else Panic.

Definition taken_set (n : IPNet) (takenIps : list IP) : gset Z :=
  list_to_set (ipToUint32 <$> takenIps)
  ∪ {[ baseIP n; wrap_u32 (wrap_u32 (baseIP n + totalIPs n) - 1) ]}.

Fixpoint random_loop (k i : nat) (n : IPNet) (taken : gset Z) : outcome ip_err (option Z) :=
  match k with
  | O => Ret None
  | S k =>
      r ← Intn i (wrap_u32 (totalIPs n - 2));
      let candidate := wrap_u32 (baseIP n + wrap_u32 (wrap_u32 r + 1)) in
      if bool_decide (candidate ∈ taken) then random_loop k (S i) n taken else Ret (Some candidate)
  end.

Fixpoint linear_loop (fuel : nat) (offset : Z) (n : IPNet) (taken : gset Z) : outcome ip_err (option Z) :=
  if offset <? wrap_u32 (totalIPs n - 1) then
    match fuel with
    | O => Err ErrFuel
    | S fuel =>
        let candidate := wrap_u32 (baseIP n + offset) in
        if bool_decide (candidate ∈ taken) then linear_loop fuel (wrap_u32 (offset + 1)) n taken
        else Ret (Some candidate)
    end
  else Ret None.

Definition AllocatePeerIP (n : IPNet) (takenIps : list IP) : outcome ip_err IP :=
  let taken := taken_set n takenIps in
  let maxAttempts := Z.quot (totalIPs n - Z.of_nat (size taken)) 100 in
  r ← random_loop (Z.to_nat maxAttempts) 0 n taken;
  match r with
  | Some candidate => Ret (uint32ToIP candidate)
  | None =>
      r ← linear_loop (Z.to_nat (totalIPs n)) 1 n taken;
      match r with
      | Some candidate => Ret (uint32ToIP candidate)
      | None => Err ErrOutOfIPs
      end
  end.

Definition AllocateRandomPeerIP (n : IPNet) : outcome ip_err IP :=
  r ← Intn 0 (wrap_u32 (totalIPs n - 2));
  Ret (uint32ToIP (wrap_u32 (baseIP n + wrap_u32 (wrap_u32 r + 1)))).
End alloc.

(** *** Serial numbers and merging *)
Record Network := { Identifier : string; Net : IPNet; Dns : string; Serial : Z }.

Definition IncSerial (n : Network) : Network :=
  {| Identifier := Identifier n; Net := Net n; Dns := Dns n; Serial := wrap_u64 (Serial n + 1) |}.
Definition CurrentSerial (n : Network) : Z := Serial n.
Definition Copy (n : Network) : Network :=
  {| Identifier := Identifier n; Net := Net n; Dns := Dns n; Serial := Serial n |}.

(** [maps.Values] yields the values in an unspecified order. *)
Definition mergeUniquePeersByID {P} (ID : P → string) (peers1 peers2 : list P) : list P :=
  let result : gmap string P := foldl (λ m p, <[ID p := p]> m) ∅ peers1 in
  let result := foldl (λ m p, match m !! ID p with Some _ => m | None => <[ID p := p]> m end) result peers2 in
  (map_to_list result).*2.

(** [util.MergeUnique] and [util.contains], over an [Equal] method. *)
Section merge.
Context {T : Type} (Equal : T → T → bool).

Fixpoint contains (slice : list T) (element : T) : bool :=
  match slice with
  | [] => false
  | item :: slice => if Equal item element then true else contains slice element
  end.

Definition append_unique (result : list T) (item : T) : list T :=
  if contains result item then result else result ++ [item].

Definition MergeUnique (arr1 arr2 : list T) : list T :=
  foldl append_unique (foldl append_unique [] arr1) arr2.
End merge.

(** ** Addresses *)
Lemma byte_Z_Z_byte z : byte_Z (Z_byte z) = z mod 256.
Proof.
  unfold byte_Z, Z_byte. pose proof (Z.mod_pos_bound z 256 ltac:(lia)) as Hb.
  destruct (Byte.of_N (Z.to_N (z mod 256))) as [b|] eqn:E.
  - apply Byte.to_of_N in E. simpl. rewrite E. lia.
  - apply Byte.of_N_None_iff in E. lia.
Qed.

Lemma ipToUint32_uint32ToIP n : 0 ≤ n < 2 ^ 32 → ipToUint32 (uint32ToIP n) = n.
Proof.
  intros Hn. unfold ipToUint32, uint32ToIP. change (To4 (BigEndian_PutUint32 n)) with (BigEndian_PutUint32 n).
  unfold BigEndian_PutUint32. cbv zeta. simpl length.
  rewrite bool_decide_eq_false_2 by lia. unfold BigEndian_Uint32. cbn [take foldl].
  rewrite !byte_Z_Z_byte. change (2 ^ 32) with 4294967296 in *.
  change (2 ^ 24) with 16777216. change (2 ^ 16) with 65536. change (2 ^ 8) with 256.
  Z.to_euclidean_division_equations. lia.
Qed.

Section properties.
Context (intn : nat → Z → Z) (intn_range : ∀ i n, 0 < n → 0 ≤ intn i n < n).
Context (n : IPNet) (Hip : 0 ≤ net_ip n < 2 ^ 32) (Hones : 1 ≤ ones n ≤ 32).

Lemma totalIPs_eq : totalIPs n = 2 ^ hostBits n ∧ 1 ≤ 2 ^ hostBits n ≤ 2 ^ 31.
Proof.
  unfold totalIPs, hostBits. rewrite Z.shiftl_1_l.
  assert (2 ^ 0 ≤ 2 ^ (32 - ones n)) by (apply Z.pow_le_mono_r; lia).
  assert (2 ^ (32 - ones n) ≤ 2 ^ 31) by (apply Z.pow_le_mono_r; lia).
  rewrite wrap_id by lia. lia.
Qed.

Lemma land_high_bits x m h : 0 ≤ h →
  Z.land x (Z.shiftl m h) = Z.shiftl (Z.land (Z.shiftr x h) m) h.
Proof.
  intros Hh. apply Z.bits_inj'. intros i Hi. rewrite Z.land_spec, !Z.shiftl_spec by lia.
  destruct (decide (i < h)) as [Hlt|Hge].
  - rewrite !(Z.testbit_neg_r _ (i - h)) by lia. apply andb_false_r.
  - rewrite Z.land_spec, Z.shiftr_spec by lia. by replace (i - h + h) with i by lia.
Qed.

(** The host addresses do not wrap around. *)
Lemma baseIP_range : 0 ≤ baseIP n ∧ baseIP n + totalIPs n ≤ 2 ^ 32.
Proof.
  destruct totalIPs_eq as [-> Hb]. unfold baseIP.
  assert (Hh : 0 ≤ hostBits n) by (unfold hostBits; lia).
  rewrite land_high_bits, Z.shiftl_mul_pow2 by lia.
  replace (2 ^ ones n - 1) with (Z.ones (ones n)) by (rewrite Z.ones_equiv; lia).
  rewrite Z.land_ones by lia. pose proof (Z.mod_pos_bound (Z.shiftr (net_ip n) (hostBits n)) (2 ^ ones n)).
  assert (Hpow : 2 ^ 32 = 2 ^ ones n * 2 ^ hostBits n).
  { rewrite <-Z.pow_add_r by lia. f_equal. unfold hostBits. lia. }
  rewrite Hpow. assert (0 < 2 ^ ones n) by (apply Z.pow_pos_nonneg; lia). nia.
Qed.

Definition host (c : Z) : Prop := baseIP n < c < baseIP n + totalIPs n - 1.

Lemma candidate_host o : 1 ≤ o < totalIPs n - 1 → wrap_u32 (baseIP n + o) = baseIP n + o ∧ host (baseIP n + o).
Proof.
  intros Ho. destruct baseIP_range. unfold host. split; [|lia]. apply wrap_id. lia.
Qed.

Lemma random_loop_spec k i taken : k = 0%nat ∨ 2 < totalIPs n →
  ∃ r, random_loop intn k i n taken = Ret r ∧ ∀ c, r = Some c → host c ∧ c ∉ taken.
Proof.
  intros Hk. revert i. induction k as [|k IH]; intros i; [by exists None|]. cbn [random_loop].
  destruct Hk as [?|Hk]; [done|]. specialize (IH (or_intror Hk)).
  destruct totalIPs_eq as [Ht Hb]. unfold Intn.
  rewrite (wrap_id 32 (totalIPs n - 2)) by lia.
  rewrite (proj2 (Z.ltb_lt _ _)) by lia. rewrite bind_ret_l. cbv zeta.
  pose proof (intn_range i (totalIPs n - 2) ltac:(lia)) as Hr.
  rewrite (wrap_id 32 (intn i (totalIPs n - 2))) by lia. rewrite (wrap_id 32 (_ + 1)) by lia.
  destruct (candidate_host (intn i (totalIPs n - 2) + 1)) as [-> Hh]; [lia|].
  case_bool_decide as Hin; [apply IH|]. eexists. split; [done|]. by intros c [= <-].
Qed.

Lemma linear_loop_spec fuel o taken :
  1 ≤ o ≤ Z.max 1 (totalIPs n - 1) → totalIPs n - 1 - o ≤ Z.of_nat fuel →
  (∀ o', 1 ≤ o' < o → baseIP n + o' ∈ taken) →
  ∃ r, linear_loop fuel o n taken = Ret r
    ∧ match r with Some c => host c ∧ c ∉ taken | None => ∀ c, host c → c ∈ taken end.
Proof.
  destruct totalIPs_eq as [Ht Hb]. revert o. induction fuel as [|fuel IH]; intros o Ho Hf Hpre;
    cbn [linear_loop]; rewrite (wrap_id 32 (totalIPs n - 1)) by lia;
    destruct (Z.ltb_spec o (totalIPs n - 1)); try lia.
  - exists None. split; [done|]. intros c Hc. unfold host in Hc.
    replace c with (baseIP n + (c - baseIP n)) by lia. apply Hpre. lia.
  - destruct (candidate_host o) as [Hw Hh]; [lia|]. cbv zeta. rewrite Hw.
    rewrite (wrap_id 32 (o + 1)) by lia. case_bool_decide as Hin; [|by eexists].
    apply IH; [lia|lia|]. intros o' Ho'. destruct (decide (o' = o)) as [->|]; [done|]. apply Hpre. lia.
  - exists None. split; [done|]. intros c Hc. unfold host in Hc.
    replace c with (baseIP n + (c - baseIP n)) by lia. apply Hpre. lia.
Qed.

(** [AllocateRandomPeerIP] picks a host address, and panics in a network without one. *)
Theorem allocate_random_peer_ip_spec :
  match AllocateRandomPeerIP intn n with
  | Ret ip => baseIP n < ipToUint32 ip < baseIP n + totalIPs n - 1
  | Err _ => False
  | Panic => ones n = 31
  end ∨ ones n = 32.
Proof.
  destruct (decide (ones n = 32)) as [|H32]; [by right|left]. unfold AllocateRandomPeerIP, Intn.
  assert (2 ^ 1 ≤ 2 ^ hostBits n) by (apply Z.pow_le_mono_r; unfold hostBits; lia).
  destruct baseIP_range. destruct totalIPs_eq as [Ht Hb].
  rewrite (wrap_id 32 (totalIPs n - 2)) by lia.
  destruct (Z.ltb_spec 0 (totalIPs n - 2)) as [Hlt|Hge].
  - rewrite bind_ret_l. pose proof (intn_range 0 (totalIPs n - 2) ltac:(lia)) as Hr.
    rewrite (wrap_id 32 (intn 0 (totalIPs n - 2))) by lia. rewrite (wrap_id 32 (_ + 1)) by lia.
    destruct (candidate_host (intn 0 (totalIPs n - 2) + 1)) as [-> Hh]; [lia|].
    unfold host in Hh. rewrite ipToUint32_uint32ToIP; lia.
  - simpl. destruct (decide (ones n = 31)) as [|H31]; [done|exfalso].
    assert (2 ^ 2 ≤ 2 ^ hostBits n) by (apply Z.pow_le_mono_r; unfold hostBits; lia). lia.
Qed.

(** C40: [AllocatePeerIP] returns a host address of the network (never the network or the
    broadcast address) that no peer has, whatever the random generator answers, and it
    reports exhaustion exactly when every host address is taken. *)
Theorem allocate_peer_ip_spec takenIps :
  match AllocatePeerIP intn n takenIps with
  | Ret ip => baseIP n < ipToUint32 ip < baseIP n + totalIPs n - 1 ∧ length ip = 4%nat
              ∧ ∀ t, t ∈ takenIps → ipToUint32 t ≠ ipToUint32 ip
  | Err ErrOutOfIPs => ∀ c, baseIP n < c < baseIP n + totalIPs n - 1 →
                         ∃ t, t ∈ takenIps ∧ ipToUint32 t = c
  | _ => False
  end.
Proof.
  destruct baseIP_range as [Hb0 Hb1]. destruct totalIPs_eq as [Ht Hb]. unfold AllocatePeerIP. cbv zeta.
  assert (Hok : ∀ c, host c → c ∉ taken_set n takenIps →
    (baseIP n < ipToUint32 (uint32ToIP c) < baseIP n + totalIPs n - 1 ∧ length (uint32ToIP c) = 4%nat
     ∧ ∀ t, t ∈ takenIps → ipToUint32 t ≠ ipToUint32 (uint32ToIP c))).
  { intros c Hc Hn. unfold host in Hc. rewrite ipToUint32_uint32ToIP by lia. split_and!; [lia|lia|done|].
    intros t Hin <-. apply Hn. unfold taken_set. apply elem_of_union_l, elem_of_list_to_set.
    apply list_elem_of_fmap. eauto. }
  destruct (random_loop_spec (Z.to_nat (Z.quot (totalIPs n - Z.of_nat (size (taken_set n takenIps))) 100)) 0
    (taken_set n takenIps)) as ([c|] & -> & Hr); [Z.to_euclidean_division_equations; lia| |]; rewrite bind_ret_l.
  { destruct (Hr c eq_refl). by apply Hok. }
  destruct (linear_loop_spec (Z.to_nat (totalIPs n)) 1 (taken_set n takenIps)) as (r & -> & Hl); [lia|lia|lia|].
  rewrite bind_ret_l. destruct r as [c|]; [destruct Hl; by apply Hok|]. intros c Hc.
  specialize (Hl c Hc). unfold taken_set in Hl. apply elem_of_union in Hl as [Hl|Hl].
  - apply elem_of_list_to_set, list_elem_of_fmap in Hl as (t & -> & ?). eauto.
  - exfalso. unfold host in Hc. apply elem_of_union in Hl as [Hl|Hl]; apply elem_of_singleton in Hl; [lia|].
    unfold wrap in Hl. rewrite Zminus_mod_idemp_l, Z.mod_small in Hl; lia.
Qed.
End properties.

Definition net24 : IPNet := {| net_ip := 1684275456; ones := 24 |}.

Lemma allocate_peer_ip_spec_witness :
  AllocatePeerIP (λ _ _, 0) net24 [uint32ToIP 1684275457] = Ret (uint32ToIP 1684275458)
  ∧ ∀ t, t ∈ [uint32ToIP 1684275457] → ipToUint32 t ≠ ipToUint32 (uint32ToIP 1684275458).
Proof.
  assert (E : AllocatePeerIP (λ _ _, 0) net24 [uint32ToIP 1684275457] = Ret (uint32ToIP 1684275458))
    by (vm_compute; reflexivity).
  split; [exact E|].
  pose proof (allocate_peer_ip_spec (λ _ _, 0) ltac:(lia) net24 ltac:(cbn; lia) ltac:(cbn; lia)
    [uint32ToIP 1684275457]) as H.
  rewrite E in H. exact (proj2 (proj2 H)).
Defined.

(** ** Merging *)
Section merge_properties.
Context {T : Type} (Equal : T → T → bool) (Hrefl : ∀ x, Equal x x = true).

Lemma contains_spec slice x : contains Equal slice x = true ↔ ∃ y, y ∈ slice ∧ Equal y x = true.
Proof.
  induction slice as [|y slice IH]; cbn [contains]; [set_solver|].
  destruct (Equal y x) eqn:E.
  - split; [|done]. intros _. exists y. set_solver.
  - rewrite IH. split; intros (z & Hz & ?); exists z; [set_solver|].
    apply elem_of_cons in Hz as [->|]; [congruence|done].
Qed.

(** The inputs [done] have a representative in [res], a subsequence without two equal items. *)
Definition merged (done res : list T) : Prop :=
  res `sublist_of` done
  ∧ (∀ x, x ∈ done → ∃ y, y ∈ res ∧ Equal y x = true)
  ∧ (∀ i j x y, (i < j)%nat → res !! i = Some x → res !! j = Some y → Equal x y = false).

Lemma append_unique_merged inputs res x :
  merged inputs res → merged (inputs ++ [x]) (append_unique Equal res x).
Proof.
  intros (Hsub & Hrep & Huniq). unfold append_unique. destruct (contains Equal res x) eqn:E.
  - apply contains_spec in E. split_and!; [by apply sublist_inserts_r| |done].
    intros z [Hz|Hz%list_elem_of_singleton]%elem_of_app; [by apply Hrep|]. by subst.
  - assert (Hno : ∀ y, y ∈ res → Equal y x = false).
    { intros y Hy. destruct (Equal y x) eqn:E'; [|done].
      rewrite (proj2 (contains_spec res x)) in E by eauto. done. }
    split_and!; [by apply sublist_app| |].
    + intros z [Hz|Hz%list_elem_of_singleton]%elem_of_app; [|subst; exists x; set_solver].
      destruct (Hrep z Hz) as (y & ? & ?). exists y. set_solver.
    + intros i j a b Hij Ha Hb. apply lookup_app_Some in Hb as [Hb|[Hlen Hb]].
      * rewrite lookup_app_l in Ha by (apply lookup_lt_Some in Hb; lia). by eapply Huniq.
      * apply list_lookup_singleton_Some in Hb as [Hj <-].
        rewrite lookup_app_l in Ha by lia. apply Hno. by eapply list_elem_of_lookup_2.
Qed.

Lemma append_all_merged l inputs res :
  merged inputs res → merged (inputs ++ l) (foldl (append_unique Equal) res l).
Proof.
  revert inputs res. induction l as [|x l IH]; intros inputs res Hm; [by rewrite app_nil_r|].
  simpl. rewrite cons_middle, app_assoc. apply IH. by apply append_unique_merged.
Qed.

(** Merging keeps, in order, one representative of every item of the two slices. *)
Theorem merge_unique_spec arr1 arr2 :
  merged (arr1 ++ arr2) (MergeUnique Equal arr1 arr2).
Proof.
  apply append_all_merged. apply (append_all_merged arr1 [] []).
  split_and!; [done|set_solver|]. by intros i j x y _ [=].
Qed.
End merge_properties.

Section merge_peers.
Context {P : Type} (ID : P → string).

Definition by_id (m : gmap string P) : Prop := ∀ i p, m !! i = Some p → ID p = i.
Definition put (m : gmap string P) (p : P) : gmap string P := <[ID p := p]> m.
Definition put_new (m : gmap string P) (p : P) : gmap string P :=
  match m !! ID p with Some _ => m | None => <[ID p := p]> m end.

Lemma put_all l m : by_id m →
  by_id (foldl put m l)
  ∧ (∀ i p, foldl put m l !! i = Some p → p ∈ l ∨ m !! i = Some p)
  ∧ (∀ p, p ∈ l → is_Some (foldl put m l !! ID p)) ∧ (∀ i, is_Some (m !! i) → is_Some (foldl put m l !! i)).
Proof.
  revert m. induction l as [|q l IH]; intros m Hm; simpl; [set_solver|].
  destruct (IH (put m q)) as (H1 & H2 & H3 & H4).
  { intros i p. unfold put. rewrite lookup_insert_Some. intros [[<- <-]|[_ H]]; [done|by apply Hm]. }
  assert (Hq : is_Some (put m q !! ID q)) by (unfold put; rewrite lookup_insert_eq; eauto).
  split_and!; [done| | |].
  - intros i p Hp. destruct (H2 i p Hp) as [?|Hp']; [set_solver|]. unfold put in Hp'.
    apply lookup_insert_Some in Hp' as [[? ->]|[_ ?]]; [set_solver|by right].
  - intros p [->|Hp]%elem_of_cons; [by apply H4|by apply H3].
  - intros i Hi. apply H4. unfold put. rewrite lookup_insert_is_Some. destruct (decide (ID q = i)); auto.
Qed.

Lemma put_new_all l m : by_id m →
  by_id (foldl put_new m l)
  ∧ (∀ i p, foldl put_new m l !! i = Some p → p ∈ l ∧ m !! i = None ∨ m !! i = Some p)
  ∧ (∀ p, p ∈ l → is_Some (foldl put_new m l !! ID p))
  ∧ (∀ i, is_Some (m !! i) → is_Some (foldl put_new m l !! i)).
Proof.
  revert m. induction l as [|q l IH]; intros m Hm; simpl; [set_solver|].
  assert (Hput : by_id (put_new m q) ∧ is_Some (put_new m q !! ID q)
    ∧ (∀ i p, put_new m q !! i = Some p → p = q ∧ m !! i = None ∨ m !! i = Some p)
    ∧ (∀ i p, m !! i = Some p → put_new m q !! i = Some p)).
  { unfold put_new. destruct (m !! ID q) as [p|] eqn:E; [split_and!; eauto|].
    split_and!; [|rewrite lookup_insert_eq; eauto| |].
    - intros i p. rewrite lookup_insert_Some. intros [[<- <-]|[_ H]]; [done|by apply Hm].
    - intros i p. rewrite lookup_insert_Some. intros [[<- <-]|[_ H]]; auto.
    - intros i p Hi. rewrite lookup_insert_ne; congruence. }
  destruct Hput as (H0 & Hq & Hold & Hkeep). destruct (IH (put_new m q) H0) as (H1 & H2 & H3 & H4).
  split_and!; [done| | |].
  - intros i p Hp. destruct (H2 i p Hp) as [[? Hn]|Hp'].
    + left. split; [set_solver|]. destruct (m !! i) eqn:E; [|done]. apply Hkeep in E. congruence.
    + destruct (Hold i p Hp') as [[-> ?]|?]; [left; set_solver|by right].
  - intros p [->|Hp]%elem_of_cons; [by apply H4|by apply H3].
  - intros i [p Hi]. apply H4. rewrite (Hkeep i p Hi). eauto.
Qed.

(** Merging two peer lists yields one peer per identifier of either list, the first list's
    where both know the identifier. *)
Theorem merge_peers_spec peers1 peers2 :
  let r := mergeUniquePeersByID ID peers1 peers2 in
  NoDup (ID <$> r) ∧ (∀ i, i ∈ ID <$> r ↔ i ∈ ID <$> (peers1 ++ peers2))
  ∧ (∀ p, p ∈ r → p ∈ peers1 ∨ p ∈ peers2 ∧ ID p ∉ ID <$> peers1).
Proof.
  cbv zeta. unfold mergeUniquePeersByID. fold put put_new.
  set (m1 := foldl put ∅ peers1). set (m2 := foldl put_new m1 peers2).
  destruct (put_all peers1 ∅) as (A1 & A2 & A3 & _); [by intros ? ?|]. fold m1 in A1, A2, A3.
  destruct (put_new_all peers2 m1 A1) as (B1 & B2 & B3 & B4). fold m2 in B1, B2, B3, B4.
  assert (Hr : ∀ p, p ∈ (map_to_list m2).*2 ↔ m2 !! ID p = Some p).
  { intros p. rewrite list_elem_of_fmap. split.
    - intros ([i q] & -> & Hq%elem_of_map_to_list). simpl. by rewrite (B1 i q Hq).
    - intros Hp. exists (ID p, p). by rewrite elem_of_map_to_list. }
  assert (Hk : ID <$> (map_to_list m2).*2 = (map_to_list m2).*1).
  { rewrite <-list_fmap_compose. apply list_fmap_ext. intros i [j q] Hj%list_elem_of_lookup_2.
    apply elem_of_map_to_list in Hj. simpl. by apply B1. }
  split_and!.
  - rewrite Hk. apply NoDup_fst_map_to_list.
  - intros i. rewrite fmap_app, elem_of_app, !list_elem_of_fmap. split.
    + intros (p & -> & Hp%Hr). destruct (B2 _ p Hp) as [[? _]|Hp1]; [right; eauto|].
      destruct (A2 _ p Hp1) as [?|[=]]. left; eauto.
    + assert (Hin : ∀ i, is_Some (m2 !! i) → ∃ y, i = ID y ∧ y ∈ (map_to_list m2).*2).
      { intros j [q Hq]. pose proof (B1 j q Hq) as <-. exists q. split; [done|by apply Hr]. }
      intros [(p & -> & Hp)|(p & -> & Hp)]; apply Hin; auto.
  - intros p Hp%Hr. destruct (B2 _ p Hp) as [[? Hn]|Hp1].
    + right. split; [done|]. intros (q & Hq & Hin)%list_elem_of_fmap. rewrite Hq in Hn.
      destruct (A3 q Hin). congruence.
    + left. destruct (A2 _ p Hp1) as [?|[=]]. done.
Qed.
End merge_peers.
