(* ===== verification/NetIP.v ===== *)
(** The part of Go's [net/netip] the models use: addresses and prefixes.

    A valid prefix is an IPv4 or IPv6 address with a prefix length; [netip.Prefix] is an
    [option], whose [None] is the invalid (zero) prefix, and so is [netip.Addr].  Addresses
    and prefixes carry no zone. *)
From S2P Require Import Prelude GoText.
Open Scope Z_scope.

Record prefix := { px_v6 : bool; px_addr : Z; px_bits : Z }.
#[export] Instance prefix_eq_dec : EqDecision prefix.
Proof. solve_decision. Defined.
Abbreviation Prefix := (option prefix).

Definition IsValid (p : Prefix) : bool := bool_decide (is_Some p).

Definition addr_bits (p : prefix) : Z := if px_v6 p then 128 else 32.

(** [Prefix.Masked]: the host bits are cleared; of an invalid prefix it is the invalid one. *)
Definition masked (p : prefix) : prefix :=
  let host := addr_bits p - px_bits p in
  {| px_v6 := px_v6 p; px_addr := Z.shiftl (Z.shiftr (px_addr p) host) host; px_bits := px_bits p |}.
Definition Masked (p : Prefix) : Prefix := masked <$> p.

(** Two prefixes are the same network: same family and length, and the same first bits. *)
Definition same_network (p q : prefix) : Prop :=
  px_v6 p = px_v6 q ∧ px_bits p = px_bits q
  ∧ Z.shiftr (px_addr p) (addr_bits p - px_bits p) = Z.shiftr (px_addr q) (addr_bits q - px_bits q).

Lemma masked_same p q : px_bits p ≤ addr_bits p → masked p = masked q ↔ same_network p q.
Proof.
  intros Hp. unfold masked, same_network. destruct p as [v a b], q as [v' a' b']. unfold addr_bits in *. cbn in *.
  split.
  - intros [= <- Ha <-]. split_and!; [done..|].
    apply (f_equal (λ x, Z.shiftr x ((if v then 128 else 32) - b))) in Ha.
    rewrite !Z.shiftr_shiftl_l, !Z.sub_diag, !Z.shiftl_0_r in Ha by (destruct v; lia). done.
  - intros (<- & <- & ->). done.
Qed.

(** ** Addresses *)
Record addr := { ad_v6 : bool; ad_num : Z }.
#[export] Instance addr_eq_dec : EqDecision addr.
Proof. solve_decision. Defined.
#[export, refine] Instance addr_countable : Countable addr :=
  inj_countable' (λ a, (ad_v6 a, ad_num a)) (λ '(v, n), {| ad_v6 := v; ad_num := n |}) _.
Proof. by intros []. Defined.
Abbreviation Addr := (option addr).

Definition v4 (n : Z) : addr := {| ad_v6 := false; ad_num := n |}.
Definition v6 (n : Z) : addr := {| ad_v6 := true; ad_num := n |}.
Definition IPv4Unspecified : addr := v4 0.
Definition IPv6Unspecified : addr := v6 0.

Definition be_Z (b : bytes) : Z := foldl (λ acc x, acc * 256 + byte_Z x) 0 b.
Definition AddrFromSlice (b : bytes) : Addr :=
  if bool_decide (length b = 4%nat) then Some (v4 (be_Z b))
  else if bool_decide (length b = 16%nat) then Some (v6 (be_Z b)) else None.
Definition Is4 (a : Addr) : bool := match a with Some a => negb (ad_v6 a) | None => false end.

(** An IPv4-mapped IPv6 address becomes the IPv4 address. *)
Definition unmap (a : addr) : addr :=
  if ad_v6 a && (Z.shiftr (ad_num a) 32 =? 0xFFFF) then v4 (ad_num a mod 2 ^ 32) else a.

(** The four bytes of an IPv4 address. *)
Definition As4 (a : addr) : bytes :=
  [Z_byte (Z.shiftr (ad_num a) 24); Z_byte (Z.shiftr (ad_num a) 16); Z_byte (Z.shiftr (ad_num a) 8); Z_byte (ad_num a)].

(** [Prefix.Contains]: the same family, and the same first bits. *)
Definition Contains (p : prefix) (a : addr) : bool :=
  bool_decide (ad_v6 a = px_v6 p)
  && (Z.shiftr (ad_num a) (addr_bits p - px_bits p) =? Z.shiftr (px_addr p) (addr_bits p - px_bits p)).
