(* ===== verification/PacketNat.v ===== *)
(** Network address translation in the user-space packet filter:
    [src/client/firewall/uspfilter/nat.go].

    A packet is a byte slice that the functions change in place: an operation maps the packet to
    its result and the packet it leaves, which a failed operation may have changed as well
    ([pk]).  The decoder is gopacket's, a parameter of [PacketFilter]; here it is the record of
    what it decoded.  The 1:1 mappings are two maps, as in the source. *)
From S2P Require Import Prelude GoText NetIP Checksum.
Open Scope Z_scope.

Inductive layer :=
| LayerTypeIPv4 | LayerTypeIPv6 | LayerTypeTCP | LayerTypeUDP | LayerTypeICMPv4 | LayerTypeICMPv6
| layerTypeAll | LayerTypeZero.
#[export] Instance layer_eq_dec : EqDecision layer.
Proof. solve_decision. Defined.
#[export, refine] Instance layer_countable : Countable layer :=
  inj_countable' (λ l, match l with
    | LayerTypeIPv4 => 0 | LayerTypeIPv6 => 1 | LayerTypeTCP => 2 | LayerTypeUDP => 3 | LayerTypeICMPv4 => 4
    | LayerTypeICMPv6 => 5 | layerTypeAll => 6 | LayerTypeZero => 7 end)%Z
   (λ n, match n with
    | 0 => LayerTypeIPv4 | 1 => LayerTypeIPv6 | 2 => LayerTypeTCP | 3 => LayerTypeUDP | 4 => LayerTypeICMPv4
    | 5 => LayerTypeICMPv6 | 6 => layerTypeAll | _ => LayerTypeZero end)%Z _.
Proof. by intros []. Defined.

(** What the last packets left in the decoder: a layer that the current packet does not have
    keeps its old value. *)
Record decoder := {
  decoded : list layer;
  ip4_IHL : nat; ip4_SrcIP : bytes; ip4_DstIP : bytes; ip4_Protocol : Z; ip4_MoreFragments : bool; ip4_FragOffset : Z;
  ip6_SrcIP : bytes; ip6_DstIP : bytes;
  tcp_SrcPort : Z; tcp_DstPort : Z; tcp_SYN : bool; tcp_ACK : bool; tcp_FIN : bool; tcp_RST : bool; tcp_PSH : bool;
  tcp_URG : bool; tcp_Options : list (Z * bytes);
  udp_SrcPort : Z; udp_DstPort : Z;
  icmp4_Id : Z; icmp4_Type : Z; icmp4_Code : Z; icmp4_Payload : bytes;
  dnatOrigPort : Z }.

Definition transport (d : decoder) : option layer := decoded d !! 1%nat.

(** ** Operations on a packet *)
Inductive nat_err := ErrIPv4Only | errInvalidIPHeaderLength | errTooShort.
Definition pk (A : Type) : Type := bytes → outcome nat_err A * bytes.
Definition pk_ret {A} (a : A) : pk A := λ p, (Ret a, p).
Definition pk_err {A} (e : nat_err) : pk A := λ p, (Err e, p).
Definition pk_bind {A B} (m : pk A) (f : A → pk B) : pk B := λ p,
  match m p with
  | (Ret a, p) => f a p
  | (Err e, p) => (Err e, p)
  | (Panic, p) => (Panic, p)
  end.
Declare Scope pk_scope.
Delimit Scope pk_scope with pk.
Notation "'let*' x := m 'in' k" := (pk_bind m (λ x, k)) (at level 10, x name, m at level 100, k at level 200) : pk_scope.
Notation "m ;;; k" := (pk_bind m (λ _, k)) (at level 100, k at level 200, right associativity) : pk_scope.
Open Scope pk_scope.

Definition get16 (i : nat) : pk Z := λ p,
  if bool_decide (i + 1 < length p)%nat then (Ret (word i p), p) else (Panic, p).
Definition put16 (i : nat) (v : Z) : pk () := λ p,
  if bool_decide (i + 1 < length p)%nat then (Ret tt, set16 i v p) else (Panic, p).
(** [copy(dst[:], p[i:i+4])] and [copy(p[i:i+4], src[:])] *)
Definition get4 (i : nat) : pk bytes := λ p,
  if bool_decide (i + 4 ≤ length p)%nat then (Ret (take 4 (drop i p)), p) else (Panic, p).
Definition put4 (i : nat) (b0 b1 b2 b3 : byte) : pk () := λ p,
  if bool_decide (i + 4 ≤ length p)%nat
  then (Ret tt, <[(i + 3)%nat := b3]> (<[(i + 2)%nat := b2]> (<[(i + 1)%nat := b1]> (<[i := b0]> p)))) else (Panic, p).
Definition packet_len : pk nat := λ p, (Ret (length p), p).

(** ** Checksums after a change *)
Definition updateTCPChecksum (ipHeaderLen : nat) (oldIP newIP : bytes) : pk () :=
  let* len := packet_len in
  if bool_decide (len < ipHeaderLen + 18)%nat then pk_ret tt
  else
    let* oldChecksum := get16 (ipHeaderLen + 16) in
    put16 (ipHeaderLen + 16) (incrementalUpdate oldChecksum oldIP newIP).

Definition updateUDPChecksum (ipHeaderLen : nat) (oldIP newIP : bytes) : pk () :=
  let* len := packet_len in
  if bool_decide (len < ipHeaderLen + 8)%nat then pk_ret tt
  else
    let* oldChecksum := get16 (ipHeaderLen + 6) in
    if oldChecksum =? 0 then pk_ret tt
    else put16 (ipHeaderLen + 6) (incrementalUpdate oldChecksum oldIP newIP).

Definition updateICMPChecksum (ipHeaderLen : nat) : pk () :=
  let* len := packet_len in
  if bool_decide (len < ipHeaderLen + 8)%nat then pk_ret tt
  else
    put16 (ipHeaderLen + 2) 0 ;;;
    λ p, put16 (ipHeaderLen + 2) (icmpChecksum (drop ipHeaderLen p)) p.

(** The address is written before the header length is checked. *)
Definition rewritePacketIP (d : decoder) (newIP : Addr) (ipOffset : nat) : pk () :=
  match newIP with
  | Some a =>
      if ad_v6 a then pk_err ErrIPv4Only
      else
        let* oldIP := get4 ipOffset in
        match As4 a with
        | [b0; b1; b2; b3] => put4 ipOffset b0 b1 b2 b3
        | _ => pk_ret tt
        end ;;;
        let ipHeaderLen := (ip4_IHL d * 4)%nat in
        let* len := packet_len in
        if bool_decide (ipHeaderLen < 20 ∨ len < ipHeaderLen)%nat then pk_err errInvalidIPHeaderLength
        else
          put16 10 0 ;;;
          (λ p, put16 10 (ipv4Checksum (take ipHeaderLen p)) p) ;;;
          match transport d with
          | Some LayerTypeTCP => updateTCPChecksum ipHeaderLen oldIP (As4 a)
          | Some LayerTypeUDP => updateUDPChecksum ipHeaderLen oldIP (As4 a)
          | Some LayerTypeICMPv4 => updateICMPChecksum ipHeaderLen
          | _ => pk_ret tt
          end
  | None => pk_err ErrIPv4Only
  end.

Definition port_bytes (port : Z) : bytes := [Z_byte (Z.shiftr port 8); Z_byte port].

Definition rewriteTCPPort (d : decoder) (newPort : Z) (portOffset : nat) : pk () :=
  let ipHeaderLen := (ip4_IHL d * 4)%nat in
  let* len := packet_len in
  if bool_decide (ipHeaderLen < 20 ∨ len < ipHeaderLen)%nat then pk_err errInvalidIPHeaderLength
  else if bool_decide (len < ipHeaderLen + 4)%nat then pk_err errTooShort
  else
    let* oldPort := get16 (ipHeaderLen + portOffset) in
    put16 (ipHeaderLen + portOffset) newPort ;;;
    if bool_decide (ipHeaderLen + 18 ≤ len)%nat then
      let* oldChecksum := get16 (ipHeaderLen + 16) in
      put16 (ipHeaderLen + 16) (incrementalUpdate oldChecksum (port_bytes oldPort) (port_bytes newPort))
    else pk_ret tt.

Definition rewriteUDPPort (d : decoder) (newPort : Z) (portOffset : nat) : pk () :=
  let ipHeaderLen := (ip4_IHL d * 4)%nat in
  let* len := packet_len in
  if bool_decide (ipHeaderLen < 20 ∨ len < ipHeaderLen)%nat then pk_err errInvalidIPHeaderLength
  else if bool_decide (len < ipHeaderLen + 8)%nat then pk_err errTooShort
  else
    let* oldPort := get16 (ipHeaderLen + portOffset) in
    put16 (ipHeaderLen + portOffset) newPort ;;;
    let* oldChecksum := get16 (ipHeaderLen + 6) in
    if oldChecksum =? 0 then pk_ret tt
    else put16 (ipHeaderLen + 6) (incrementalUpdate oldChecksum (port_bytes oldPort) (port_bytes newPort)).

(** ** Correctness of the checksums *)

(** The pseudo header TCP and UDP checksums cover: addresses, protocol and length. *)
Definition pseudo_header (hl : nat) (p : bytes) : bytes :=
  take 8 (drop 12 p) ++ [x00; default x00 (p !! 9%nat)] ++ port_bytes (Z.of_nat (length p - hl)).
(** A receiver accepts the segment. *)
Definition segment_ok (hl : nat) (p : bytes) : Prop := verifies (pseudo_header hl p ++ drop hl p).
(** A UDP checksum of 0 means that there is none. *)
Definition datagram_ok (hl : nat) (p : bytes) : Prop := word (hl + 6) p = 0 ∨ segment_ok hl p.

(** The sums the checks compute. *)
Definition header_sum (hl : nat) (p : bytes) : Z := wsum (take hl p).
Definition segment_sum (hl : nat) (p : bytes) : Z :=
  word 12 p + word 14 p + word 16 p + word 18 p + byte_at 9 p + Z.of_nat (length p - hl) + wsum (drop hl p).

Lemma port_bytes_sum v : 0 ≤ v ≤ 65535 → wsum (port_bytes v) = v.
Proof. intros Hv. cbn. unfold u16. rewrite Z.add_0_r. by apply set16_bytes. Qed.

(** The first word of what starts at [i]. *)
Lemma take_word n i p : (i + 1 < length p)%nat → ∃ x y, take (S (S n)) (drop i p) = x :: y :: take n (drop (i + 2) p)
  ∧ u16 x y = word i p.
Proof.
  intros Hi. destruct (lookup_lt_is_Some_2 p i) as [x Hx]; [lia|].
  destruct (lookup_lt_is_Some_2 p (S i)) as [y Hy]; [lia|]. exists x, y.
  rewrite (drop_S _ _ _ Hx). cbn [take]. rewrite (drop_S _ _ _ Hy). cbn [take]. split.
  - by replace (i + 2)%nat with (S (S i)) by lia.
  - unfold word, byte_at, u16. by rewrite Nat.add_1_r, Hx, Hy.
Qed.

Lemma addresses_sum p : (20 ≤ length p)%nat →
  wsum (take 8 (drop 12 p)) = word 12 p + word 14 p + word 16 p + word 18 p.
Proof.
  intros Hp. destruct (take_word 6 12 p) as (? & ? & -> & <-); [lia|]. cbn [Nat.add].
  destruct (take_word 4 14 p) as (? & ? & -> & <-); [lia|]. cbn [Nat.add].
  destruct (take_word 2 16 p) as (? & ? & -> & <-); [lia|]. cbn [Nat.add].
  destruct (take_word 0 18 p) as (? & ? & -> & <-); [lia|].
  rewrite take_0. cbn [wsum]. lia.
Qed.

Lemma segment_sum_eq hl p : (20 ≤ hl ≤ length p)%nat → Z.of_nat (length p) ≤ 65535 →
  wsum (pseudo_header hl p ++ drop hl p) = segment_sum hl p.
Proof.
  intros Hl Hp. unfold pseudo_header, segment_sum.
  assert (length (take 8 (drop 12 p)) = 8%nat) as Hlen by (rewrite length_take, length_drop; lia).
  rewrite !wsum_app by (rewrite ?length_app, ?Hlen; done). rewrite addresses_sum, port_bytes_sum by lia.
  cbn [wsum]. unfold u16, byte_at. change (byte_Z x00) with 0. lia.
Qed.

Lemma segment_ok_iff hl p : (20 ≤ hl < length p)%nat → Z.of_nat (length p) ≤ 65535 →
  segment_ok hl p ↔ segment_sum hl p ≡ₒ 0.
Proof.
  intros Hl Hp. unfold segment_ok. rewrite verifies_iff, segment_sum_eq by lia. split; [tauto|]. intros H. split; [done|].
  unfold segment_sum. pose proof (word_bound 12 p). pose proof (word_bound 14 p). pose proof (word_bound 16 p).
  pose proof (word_bound 18 p). pose proof (wsum_nonneg (drop hl p)).
  assert (0 ≤ byte_at 9 p) by apply byte_Z_bound. lia.
Qed.

(** ** The effect of changing an aligned word *)
Lemma drop_set16_lt i hl v p : (i + 1 < hl)%nat → drop hl (set16 i v p) = drop hl p.
Proof. intros. unfold set16. by rewrite !drop_insert_lt by lia. Qed.
Lemma drop_set16_ge i hl v p : (hl ≤ i)%nat → drop hl (set16 i v p) = set16 (i - hl) v (drop hl p).
Proof. intros. unfold set16. rewrite !drop_insert_ge by lia. f_equal. lia. Qed.
Lemma take_set16_lt i hl v p : (i + 1 < hl)%nat → take hl (set16 i v p) = set16 i v (take hl p).
Proof. intros. unfold set16. by rewrite !take_insert_lt by lia. Qed.
Lemma take_set16_ge i hl v p : (hl ≤ i)%nat → take hl (set16 i v p) = take hl p.
Proof. intros. unfold set16. by rewrite !take_insert_ge by lia. Qed.
Lemma word_take i hl p : (i + 1 < hl)%nat → word i (take hl p) = word i p.
Proof. intros. unfold word, byte_at. by rewrite !lookup_take_lt by lia. Qed.
Lemma word_drop i hl p : word i (drop hl p) = word (hl + i) p.
Proof. unfold word, byte_at. rewrite !lookup_drop. do 4 f_equal. lia. Qed.

Lemma header_sum_set16 i hl v p : Nat.even i = true → 0 ≤ v ≤ 65535 → (i + 1 < hl ≤ length p)%nat →
  header_sum hl (set16 i v p) = header_sum hl p - word i p + v.
Proof.
  intros. unfold header_sum. rewrite take_set16_lt by lia. rewrite wsum_set16, word_take by (rewrite ?length_take; lia || done).
  done.
Qed.

(** An aligned word of the addresses or of the segment counts once in the sum. *)
Lemma segment_sum_set16 i hl v p : Nat.even i = true → Nat.even hl = true → 0 ≤ v ≤ 65535 →
  (20 ≤ hl)%nat → (i + 1 < length p)%nat → (12 ≤ i < 20 ∨ hl ≤ i)%nat →
  segment_sum hl (set16 i v p) = segment_sum hl p - word i p + v.
Proof.
  intros He Hh Hv Hl Hi [Hpos|Hpos]; unfold segment_sum; rewrite length_set16.
  - assert (i ≠ 13 ∧ i ≠ 15 ∧ i ≠ 17 ∧ i ≠ 19)%nat by (split_and!; by intros ->).
    rewrite drop_set16_lt by lia. rewrite byte_at_set16_ne by lia.
    assert (i = 12 ∨ i = 14 ∨ i = 16 ∨ i = 18)%nat as [->|[->|[->| ->]]] by lia;
      rewrite word_set16 by lia; rewrite !word_set16_ne by lia; lia.
  - rewrite drop_set16_ge by lia. rewrite byte_at_set16_ne, !word_set16_ne by lia.
    rewrite wsum_set16; [|by rewrite Nat.even_sub, He, Hh by lia|done|rewrite length_drop; lia].
    rewrite word_drop. replace (hl + (i - hl))%nat with i by lia. lia.
Qed.
Lemma segment_sum_outside i hl v p : (20 ≤ hl)%nat → (9 < i)%nat → (i + 1 < 12)%nat →
  segment_sum hl (set16 i v p) = segment_sum hl p.
Proof.
  intros. unfold segment_sum. rewrite length_set16, drop_set16_lt by lia. rewrite byte_at_set16_ne, !word_set16_ne by lia. done.
Qed.

Lemma set16_u16 i x y p : set16 i (u16 x y) p = <[(i + 1)%nat := y]> (<[i := x]> p).
Proof.
  unfold set16, u16. pose proof (byte_Z_bound x). pose proof (byte_Z_bound y). do 2 f_equal; [|f_equal].
  - unfold Z_byte. rewrite Z.add_comm, Z.mod_add by lia. apply Z_byte_Z.
  - rewrite Z.shiftr_div_pow2 by lia. change (2 ^ 8) with 256. rewrite Z.add_comm, Z.div_add by lia.
    rewrite Z.div_small by done. apply Z_byte_Z.
Qed.

Lemma lookup_set16_ne i j v p : i ≠ j → i ≠ (j + 1)%nat → set16 j v p !! i = p !! i.
Proof. intros. unfold set16. by rewrite !list_lookup_insert_ne. Qed.

Lemma sum_finish s : 0 ≤ s < 2 ^ 32 → s + finish s ≡ₒ 0 ∧ s + finish s ≠ 0 ∧ 0 ≤ finish s ≤ 65535.
Proof.
  intros Hs. destruct (finish_spec s Hs) as (H1 & H2 & _). split_and!; [rewrite H1; apply (oc_eq_sub _ _ 0); lia| |lia..].
  destruct (decide (s = 0)) as [->|]; [by vm_compute|lia].
Qed.

(** *** The header *)
Definition fixed (hl : nat) (p : bytes) : bytes :=
  let q := set16 10 0 p in set16 10 (ipv4Checksum (take hl q)) q.

Lemma length_fixed hl p : length (fixed hl p) = length p.
Proof. unfold fixed. by rewrite !length_set16. Qed.

Lemma header_checksum hl p : (20 ≤ hl ≤ 60)%nat → (hl ≤ length p)%nat →
  let q := set16 10 0 p in
  ipv4Checksum (take hl q) = finish (header_sum hl q) ∧ 0 ≤ header_sum hl q < 2 ^ 32.
Proof.
  intros Hl Hp q. assert (Hq : length q = length p) by apply length_set16.
  assert (Htake : length (take hl q) = hl) by (rewrite length_take; lia).
  split.
  - rewrite ipv4Checksum_eq by lia. rewrite word_take by lia. unfold q at 2. rewrite word_set16 by lia.
    by rewrite Z.sub_0_r.
  - unfold header_sum. pose proof (wsum_nonneg (take hl q)). pose proof (wsum_bound (take hl q)). lia.
Qed.

Lemma fixed_verifies hl p : (20 ≤ hl ≤ 60)%nat → (hl ≤ length p)%nat → verifies (take hl (fixed hl p)).
Proof.
  intros Hl Hp. destruct (header_checksum hl p Hl Hp) as [Hc Hb]. unfold fixed. rewrite Hc.
  destruct (sum_finish _ Hb) as (H1 & H2 & H3). apply verifies_iff.
  fold (header_sum hl (set16 10 (finish (header_sum hl (set16 10 0 p))) (set16 10 0 p))).
  rewrite header_sum_set16 by (rewrite ?length_set16; lia || done).
  rewrite (word_set16 10 0) by lia. by rewrite Z.sub_0_r.
Qed.

Lemma fixed_segment hl p : (20 ≤ hl)%nat → segment_sum hl (fixed hl p) = segment_sum hl p.
Proof. intros. unfold fixed. by rewrite !segment_sum_outside by lia. Qed.
Lemma fixed_word hl i p : (12 ≤ i)%nat → word i (fixed hl p) = word i p.
Proof. intros. unfold fixed. by rewrite !word_set16_ne by lia. Qed.
Lemma fixed_lookup hl i p : i ≠ 10%nat → i ≠ 11%nat → fixed hl p !! i = p !! i.
Proof. intros. unfold fixed. by rewrite !lookup_set16_ne by lia. Qed.

(** *** The transport checksums *)
(** Evaluate bounds checks that hold. *)
Ltac bounds := repeat (cbv beta iota; match goal with
  | |- context [bool_decide ?P] =>
      first [rewrite (bool_decide_eq_true_2 P) by lia | rewrite (bool_decide_eq_false_2 P) by lia]
  end); cbv beta iota.

Lemma put_checksum_spec hl c off p old new : Nat.even hl = true → Nat.even off = true → (20 ≤ hl)%nat →
  (hl + off + 1 < length p)%nat → word (hl + off) p = c → Nat.even (length old) = true →
  (length old ≤ 1000)%nat → (length new ≤ 1000)%nat →
  segment_sum hl (set16 (hl + off) (incrementalUpdate c old new) p) ≡ₒ segment_sum hl p + wsum old - wsum new.
Proof.
  intros He Ho Hl Hp Hc Hold Hlo Hln. pose proof (word_bound (hl + off) p) as Hw. rewrite Hc in Hw.
  destruct (incrementalUpdate_spec c old new) as [Hi Hb]; [done..|].
  rewrite segment_sum_set16; [|by rewrite Nat.even_add, He, Ho|done..|lia|lia|lia].
  rewrite Hc, Hi. apply (oc_eq_sub _ _ 0). lia.
Qed.

Lemma icmp_checksum_spec hl p : Nat.even hl = true → (hl + 8 ≤ length p)%nat → Z.of_nat (length p) ≤ 65535 →
  let q := set16 (hl + 2) 0 p in
  verifies (drop hl (set16 (hl + 2) (icmpChecksum (drop hl q)) q)).
Proof.
  intros He Hp Hlen q. assert (Hq : length q = length p) by apply length_set16.
  assert (Hd : length (drop hl q) = (length p - hl)%nat) by (rewrite length_drop; lia).
  rewrite icmpChecksum_eq by lia. rewrite drop_set16_ge by lia. replace (hl + 2 - hl)%nat with 2%nat by lia.
  destruct (sum_finish (wsum (drop hl q))) as (H1 & H2 & H3).
  { pose proof (wsum_nonneg (drop hl q)). pose proof (wsum_bound (drop hl q)). lia. }
  apply verifies_iff. rewrite wsum_set16 by (done || lia). rewrite word_drop. unfold q at 2 5.
  rewrite word_set16 by lia. by rewrite Z.sub_0_r.
Qed.

(** *** Addresses *)
Definition set4 (i : nat) (b0 b1 b2 b3 : byte) (p : bytes) : bytes := set16 (i + 2) (u16 b2 b3) (set16 i (u16 b0 b1) p).

Lemma put4_eq i b0 b1 b2 b3 p : (i + 4 ≤ length p)%nat → put4 i b0 b1 b2 b3 p = (Ret tt, set4 i b0 b1 b2 b3 p).
Proof.
  intros Hi. unfold put4, set4. rewrite bool_decide_eq_true_2 by done. rewrite !set16_u16.
  by replace (i + 2 + 1)%nat with (i + 3)%nat by lia.
Qed.
Lemma set4_read i b0 b1 b2 b3 p : (i + 4 ≤ length p)%nat → take 4 (drop i (set4 i b0 b1 b2 b3 p)) = [b0; b1; b2; b3].
Proof.
  intros Hi. unfold set4. rewrite !drop_set16_ge by lia. replace (i + 2 - i)%nat with 2%nat by lia. rewrite Nat.sub_diag.
  rewrite !set16_u16. assert (4 ≤ length (drop i p))%nat as Hd by (rewrite length_drop; lia).
  destruct (drop i p) as [|? [|? [|? [|? ?]]]]; cbn in Hd; try lia. done.
Qed.
Lemma old4_sum i p : (i + 4 ≤ length p)%nat → wsum (take 4 (drop i p)) = word i p + word (i + 2) p.
Proof.
  intros Hi. destruct (take_word 2 i p) as (? & ? & -> & <-); [lia|].
  destruct (take_word 0 (i + 2) p) as (? & ? & -> & <-); [lia|]. rewrite take_0. cbn [wsum]. lia.
Qed.
Lemma set4_segment i hl b0 b1 b2 b3 p : Nat.even hl = true → (20 ≤ hl ≤ length p)%nat → i = 12%nat ∨ i = 16%nat →
  segment_sum hl (set4 i b0 b1 b2 b3 p)
  = segment_sum hl p - wsum (take 4 (drop i p)) + wsum [b0; b1; b2; b3].
Proof.
  intros He Hl Hi. pose proof (u16_bound b0 b1). pose proof (u16_bound b2 b3). unfold set4.
  assert (Nat.even i = true ∧ Nat.even (i + 2) = true) as [E1 E2] by (by destruct Hi as [->| ->]).
  rewrite !segment_sum_set16 by (rewrite ?length_set16; lia || done). rewrite word_set16_ne by lia.
  rewrite old4_sum by lia. cbn [wsum]. lia.
Qed.

(** The position of the checksum that a change of address touches. *)
Definition checksum_at (hl : nat) (l : option layer) : option nat :=
  match l with
  | Some LayerTypeTCP => Some (hl + 16)%nat
  | Some LayerTypeUDP => Some (hl + 6)%nat
  | Some LayerTypeICMPv4 => Some (hl + 2)%nat
  | _ => None
  end.
(** What the receiver of a packet checks. *)
Definition transport_ok (hl : nat) (l : option layer) (p : bytes) : Prop :=
  match l with
  | Some LayerTypeTCP => segment_ok hl p
  | Some LayerTypeUDP => datagram_ok hl p
  | Some LayerTypeICMPv4 => verifies (drop hl p)
  | _ => True
  end.
Definition min_header (l : option layer) : nat :=
  match l with Some LayerTypeTCP => 20 | Some LayerTypeUDP | Some LayerTypeICMPv4 => 8 | _ => 0 end.

(** The transport part of [rewritePacketIP], on a packet whose address has changed from [old] to
    [new]. *)
Definition fix_transport (l : option layer) (hl : nat) (old new : bytes) : pk () :=
  match l with
  | Some LayerTypeTCP => updateTCPChecksum hl old new
  | Some LayerTypeUDP => updateUDPChecksum hl old new
  | Some LayerTypeICMPv4 => updateICMPChecksum hl
  | _ => pk_ret tt
  end.

Ltac even_sum := rewrite ?Nat.even_add; repeat match goal with H : Nat.even _ = true |- _ => rewrite H end; done.

Lemma fix_transport_spec l hl old new q p : Nat.even hl = true → (20 ≤ hl)%nat →
  (hl + min_header l ≤ length q)%nat → Z.of_nat (length q) ≤ 65535 → length p = length q →
  length old = 4%nat → length new = 4%nat →
  segment_sum hl q = segment_sum hl p - wsum old + wsum new → word (hl + 6) q = word (hl + 6) p →
  transport_ok hl l p →
  ∃ q', fix_transport l hl old new q = (Ret tt, q') ∧ length q' = length q ∧ take hl q' = take hl q
    ∧ transport_ok hl l q'
    ∧ ∀ i, (∀ c, checksum_at hl l = Some c → i ≠ c ∧ i ≠ (c + 1)%nat) → q' !! i = q !! i.
Proof.
  intros He Hl Hlen Hmax Hpq Hold Hnew Hsum Hw Hok.
  assert (Hupd : ∀ off q', Nat.even off = true → (hl + off + 1 < length q)%nat →
    q' = set16 (hl + off) (incrementalUpdate (word (hl + off) q) old new) q → segment_ok hl p → segment_ok hl q').
  { intros off q' Ho Hoff -> H. rewrite segment_ok_iff in * by (rewrite ?length_set16; lia).
    rewrite put_checksum_spec by (rewrite ?Hold, ?Hnew; done || lia). rewrite Hsum, H. apply (oc_eq_sub _ _ 0). lia. }
  destruct l as [[]|]; cbn [fix_transport min_header transport_ok checksum_at] in *; try (by exists q).
  - unfold updateTCPChecksum, pk_bind, packet_len, get16, put16. bounds.
    eexists. split; [reflexivity|]. split_and!; [apply length_set16|by apply take_set16_ge; lia| |].
    + by eapply (Hupd 16%nat); [done|lia|reflexivity|].
    + intros i Hi. destruct (Hi _ eq_refl). by apply lookup_set16_ne.
  - unfold updateUDPChecksum, pk_bind, packet_len, get16, put16. bounds.
    destruct (Z.eqb_spec (word (hl + 6) q) 0) as [Hz|Hz].
    + exists q. split_and!; try done. by left.
    + bounds. eexists. split; [reflexivity|]. split_and!; [apply length_set16|by apply take_set16_ge; lia| |].
      * right. destruct Hok as [Hz'|Hok]; [by rewrite Hw in Hz|].
        by eapply (Hupd 6%nat); [done|lia|reflexivity|].
      * intros i Hi. destruct (Hi _ eq_refl). by apply lookup_set16_ne.
  - unfold updateICMPChecksum, pk_bind, packet_len, put16. bounds. rewrite length_set16. bounds.
    eexists. split; [reflexivity|]. split_and!.
    + by rewrite !length_set16.
    + by rewrite !take_set16_ge by lia.
    + apply icmp_checksum_spec; [done|lia|lia].
    + intros i Hi. destruct (Hi _ eq_refl). by rewrite !lookup_set16_ne.
Qed.

(** What translating an address does to a packet with right checksums. *)
Lemma rewrite_ip_spec d a off p (hl := (ip4_IHL d * 4)%nat)
    (Ha : ad_v6 a = false) (Hoff : off = 12%nat ∨ off = 16%nat) (Hhl : (20 ≤ hl ≤ 60)%nat)
    (Hlen : (hl + min_header (transport d) ≤ length p)%nat) (Hmax : Z.of_nat (length p) ≤ 65535)
    (Hok : transport_ok hl (transport d) p) :
  ∃ p', rewritePacketIP d (Some a) off p = (Ret tt, p') ∧ length p' = length p
    ∧ take 4 (drop off p') = As4 a ∧ verifies (take hl p') ∧ transport_ok hl (transport d) p'
    ∧ ∀ i, i ≠ 10%nat → i ≠ 11%nat → ¬ (off ≤ i < off + 4)%nat →
        (∀ c, checksum_at hl (transport d) = Some c → i ≠ c ∧ i ≠ (c + 1)%nat) → p' !! i = p !! i.
Proof.
  assert (He : Nat.even hl = true) by (unfold hl; rewrite Nat.even_mul; apply orb_true_r).
  destruct (As4 a) as [|b0 [|b1 [|b2 [|b3 []]]]] eqn:H4; try done.
  set (p1 := set4 off b0 b1 b2 b3 p). set (q := fixed hl p1).
  assert (L1 : length p1 = length p) by (unfold p1, set4; by rewrite !length_set16).
  assert (Lq : length q = length p) by (unfold q; by rewrite length_fixed).
  destruct (fix_transport_spec (transport d) hl (take 4 (drop off p)) (As4 a) q p)
    as (q' & Hrun & Lq' & Htake & Hok' & Hsame); try done; try lia.
  { rewrite length_take, length_drop. lia. }
  { unfold q. rewrite fixed_segment by lia. unfold p1. rewrite set4_segment by (done || lia). by rewrite H4. }
  { unfold q. rewrite fixed_word by lia. unfold p1, set4. by rewrite !word_set16_ne by lia. }
  exists q'. split_and!.
  - unfold rewritePacketIP. rewrite Ha. unfold pk_bind at 1, get4. bounds. rewrite H4. unfold pk_bind at 1.
    rewrite put4_eq by lia. fold p1. unfold pk_bind, packet_len. fold hl. cbv beta zeta. rewrite L1.
    rewrite (bool_decide_eq_false_2 (hl < 20 ∨ length p < hl)%nat) by lia. unfold put16. rewrite L1. bounds.
    rewrite length_set16, L1. bounds. rewrite <- H4. exact Hrun.
  - lia.
  - transitivity (take 4 (drop off (take hl q'))); [rewrite skipn_firstn_comm, take_take; f_equal; lia|].
    rewrite Htake, skipn_firstn_comm, take_take. replace (4 `min` (hl - off))%nat with 4%nat by lia.
    unfold q. rewrite <- (set4_read off b0 b1 b2 b3 p) by lia. fold p1. unfold fixed. rewrite !drop_set16_lt by lia. done.
  - rewrite Htake. apply fixed_verifies; lia.
  - done.
  - intros i H10 H11 Hi Hc. rewrite Hsame by done. unfold q. rewrite fixed_lookup by done. unfold p1, set4.
    by rewrite !lookup_set16_ne by lia.
Qed.

(** C19: translating an address leaves a packet that receivers accept: the new address is in
    place, the IPv4 header checksum verifies, a TCP, UDP or ICMP packet whose checksum was right
    (or, for UDP, absent) still has a right one, and nothing else has changed. *)
Theorem rewrite_ip_correct d a off p (hl := (ip4_IHL d * 4)%nat)
    (Ha : ad_v6 a = false) (Hoff : off = 12%nat ∨ off = 16%nat) (Hhl : (20 ≤ hl ≤ 60)%nat)
    (Hlen : (hl + min_header (transport d) ≤ length p)%nat) (Hmax : Z.of_nat (length p) ≤ 65535)
    (Hok : transport_ok hl (transport d) p) :
  ∃ p', rewritePacketIP d (Some a) off p = (Ret tt, p') ∧ length p' = length p
    ∧ take 4 (drop off p') = As4 a ∧ verifies (take hl p') ∧ transport_ok hl (transport d) p'
    ∧ ∀ i, i ≠ 10%nat → i ≠ 11%nat → ¬ (off ≤ i < off + 4)%nat →
        (∀ c, checksum_at hl (transport d) = Some c → i ≠ c ∧ i ≠ (c + 1)%nat) → p' !! i = p !! i.
Proof. by apply rewrite_ip_spec. Qed.

(** *** Ports *)
Definition rewrite_port (l : layer) : decoder → Z → nat → pk () :=
  match l with LayerTypeTCP => rewriteTCPPort | _ => rewriteUDPPort end.

Lemma word_port_bytes i p : port_bytes (word i p) = [default x00 (p !! i); default x00 (p !! (i + 1)%nat)].
Proof.
  unfold port_bytes, word, byte_at.
  pose proof (set16_u16 0 (default x00 (p !! i)) (default x00 (p !! (i + 1)%nat)) [x00; x00]) as H.
  unfold set16, u16 in H. cbn in H. injection H as H1 H2. by rewrite H1, H2.
Qed.

Lemma port_segment hl off v p : Nat.even hl = true → (20 ≤ hl)%nat → off = 0%nat ∨ off = 2%nat → 0 ≤ v ≤ 65535 →
  (hl + off + 1 < length p)%nat →
  segment_sum hl (set16 (hl + off) v p) = segment_sum hl p - wsum (port_bytes (word (hl + off) p)) + wsum (port_bytes v).
Proof.
  intros He Hl Ho Hv Hp. pose proof (word_bound (hl + off) p). rewrite !port_bytes_sum by lia.
  apply segment_sum_set16; try done; try lia. rewrite Nat.even_add, He. by destruct Ho as [->| ->].
Qed.

(** Translating a port leaves a segment that receivers accept: the new port is in place, a
    right TCP checksum stays right, a UDP checksum right or absent, and nothing else changes. *)
Theorem rewrite_port_correct l d newPort off p (hl := (ip4_IHL d * 4)%nat)
    (Hl : l = LayerTypeTCP ∨ l = LayerTypeUDP) (Hoff : off = 0%nat ∨ off = 2%nat) (Hport : 0 ≤ newPort ≤ 65535)
    (Hhl : (20 ≤ hl)%nat) (Hlen : (hl + min_header (Some l) ≤ length p)%nat) (Hmax : Z.of_nat (length p) ≤ 65535)
    (Hok : transport_ok hl (Some l) p) :
  ∃ p', rewrite_port l d newPort off p = (Ret tt, p') ∧ length p' = length p ∧ word (hl + off) p' = newPort
    ∧ transport_ok hl (Some l) p'
    ∧ ∀ i, i ≠ (hl + off)%nat → i ≠ (hl + off + 1)%nat →
        (∀ c, checksum_at hl (Some l) = Some c → i ≠ c ∧ i ≠ (c + 1)%nat) → p' !! i = p !! i.
Proof.
  assert (He : Nat.even hl = true) by (unfold hl; rewrite Nat.even_mul; apply orb_true_r).
  set (q := set16 (hl + off) newPort p). assert (Lq : length q = length p) by apply length_set16.
  assert (Hsum : segment_sum hl q = segment_sum hl p - wsum (port_bytes (word (hl + off) p)) + wsum (port_bytes newPort))
    by (apply port_segment; try done; destruct Hl as [->| ->]; cbn in Hlen; lia).
  assert (Hupd : ∀ c, Nat.even c = true → (hl + c + 1 < length p)%nat → (6 ≤ c)%nat → segment_ok hl p →
    segment_ok hl (set16 (hl + c) (incrementalUpdate (word (hl + c) q) (port_bytes (word (hl + off) p)) (port_bytes newPort)) q)).
  { intros c Hc Hcl Hc6 H. rewrite segment_ok_iff in * by (rewrite ?length_set16; lia).
    rewrite put_checksum_spec by (done || cbn; lia). rewrite Hsum, H. apply (oc_eq_sub _ _ 0). lia. }
  assert (Hw : word (hl + off) q = newPort) by (apply word_set16; [done|destruct Hl as [->| ->]; cbn in Hlen; lia]).
  destruct Hl as [->| ->]; cbn [min_header transport_ok checksum_at rewrite_port] in *.
  - eexists. split; [unfold rewriteTCPPort, pk_bind, packet_len, get16, put16; fold hl; bounds; fold q; rewrite ?Lq; bounds; reflexivity|].
    split_and!.
    + by rewrite length_set16.
    + by rewrite word_set16_ne by lia.
    + apply (Hupd 16%nat); [done|lia|lia|done].
    + intros i H1 H2 Hi. destruct (Hi _ eq_refl). unfold q. by rewrite !lookup_set16_ne by lia.
  - assert (word (hl + 6) q = word (hl + 6) p) as Hw6 by (apply word_set16_ne; lia).
    unfold rewriteUDPPort, pk_bind, packet_len, get16, put16. fold hl. bounds. fold q. rewrite Lq. bounds.
    destruct (Z.eqb_spec (word (hl + 6) q) 0) as [Hz|Hz].
    + exists q. split_and!; try done; [by left|]. intros i H1 H2 _. unfold q. by rewrite lookup_set16_ne.
    + eexists. split; [rewrite Lq; bounds; reflexivity|]. split_and!.
      * by rewrite length_set16.
      * by rewrite word_set16_ne by lia.
      * right. destruct Hok as [Hz'|Hok]; [by rewrite Hw6 in Hz|]. apply (Hupd 6%nat); [done|lia|lia|done].
      * intros i H1 H2 Hi. destruct (Hi _ eq_refl). unfold q. by rewrite !lookup_set16_ne by lia.
Qed.
