(* ===== verification/PacketDnat.v ===== *)
(** Destination translation in the user-space packet filter: the mappings, the port redirections
    and their use on packets, from [src/client/firewall/uspfilter/nat.go].

    The state is the part of [Manager] that these functions use; its mutexes make every operation
    atomic.  [IsLocalIP] is an argument (see [LocalIP]).  Methods that only pass a request on to
    the native firewall are left out. *)
From S2P Require Import Prelude GoText NetIP Checksum PacketNat.
Open Scope Z_scope.

Record biDNATMap := { forward : gmap addr addr; reverse : gmap addr addr }.
Definition newBiDNATMap : biDNATMap := {| forward := ∅; reverse := ∅ |}.
Definition set (original translated : addr) (b : biDNATMap) : biDNATMap :=
  {| forward := <[original := translated]> (forward b); reverse := <[translated := original]> (reverse b) |}.
Definition bi_delete (original : addr) (b : biDNATMap) : biDNATMap :=
  match forward b !! original with
  | Some translated => {| forward := delete original (forward b); reverse := delete translated (reverse b) |}
  | None => b
  end.
Definition getTranslated (original : addr) (b : biDNATMap) : option addr := forward b !! original.
Definition getOriginal (translated : addr) (b : biDNATMap) : option addr := reverse b !! translated.

Record portDNATRule := { pr_protocol : layer; origPort : Z; targetPort : Z; targetIP : Addr }.
#[export] Instance portDNATRule_eq_dec : EqDecision portDNATRule.
Proof. solve_decision. Defined.

(** [dnatBiMap] is nil until the first mapping. *)
Record Nat := {
  dnatEnabled : bool; dnatMappings : gmap addr addr; dnatBiMap : option biDNATMap;
  portDNATEnabled : bool; portDNATRules : list portDNATRule }.
Definition no_nat : Nat := {| dnatEnabled := false; dnatMappings := ∅; dnatBiMap := None; portDNATEnabled := false;
                              portDNATRules := [] |}.

Inductive dnat_err := errInvalidOriginal | errInvalidTranslated | errLocalIP | errMappingNotFound | errUnsupportedProtocol.

Definition AddInternalDNATMapping (isLocal : Addr → bool) (originalAddr translatedAddr : Addr) (n : Nat)
    : outcome dnat_err Nat :=
  match originalAddr, translatedAddr with
  | None, _ => Err errInvalidOriginal
  | _, None => Err errInvalidTranslated
  | Some o, Some t =>
      if isLocal (Some t) then Err errLocalIP
      else
        let '(maps, bi) := match dnatBiMap n with
                           | Some bi => (dnatMappings n, bi)
                           | None => (∅, newBiDNATMap)
                           end in
        let maps := <[o := t]> maps in
        Ret {| dnatEnabled := if bool_decide (size maps = 1%nat) then true else dnatEnabled n;
               dnatMappings := maps; dnatBiMap := Some (set o t bi);
               portDNATEnabled := portDNATEnabled n; portDNATRules := portDNATRules n |}
  end.

(** Panics when a mapping is there but no [dnatBiMap]. *)
Definition RemoveInternalDNATMapping (originalAddr : addr) (n : Nat) : outcome dnat_err Nat :=
  match dnatMappings n !! originalAddr with
  | None => Err errMappingNotFound
  | Some _ =>
      let maps := delete originalAddr (dnatMappings n) in
      match dnatBiMap n with
      | None => Panic
      | Some bi =>
          Ret {| dnatEnabled := if bool_decide (size maps = 0%nat) then false else dnatEnabled n;
                 dnatMappings := maps; dnatBiMap := Some (bi_delete originalAddr bi);
                 portDNATEnabled := portDNATEnabled n; portDNATRules := portDNATRules n |}
      end
  end.

Definition getDNATTranslation (a : addr) (n : Nat) : outcome dnat_err (option addr) :=
  if negb (dnatEnabled n) then Ret None
  else match dnatBiMap n with Some bi => Ret (getTranslated a bi) | None => Panic end.
Definition findReverseDNATMapping (a : addr) (n : Nat) : outcome dnat_err (option addr) :=
  if negb (dnatEnabled n) then Ret None
  else match dnatBiMap n with Some bi => Ret (getOriginal a bi) | None => Panic end.

(** Run an operation on the packet; [false] when it fails. *)
Definition try_pk {A} (m : pk A) : pk bool := λ p,
  match m p with (Ret _, p) => (Ret true, p) | (Err _, p) => (Ret false, p) | (Panic, p) => (Panic, p) end.

(** The address at [off] is looked up and, when there is a mapping, replaced. *)
Definition translate (lookup : addr → Nat → outcome dnat_err (option addr)) (off : nat) (n : Nat) (d : decoder)
    : pk bool :=
  if negb (dnatEnabled n) then pk_ret false
  else
    (let* b := get4 off in
     match lookup (v4 (be_Z b)) n with
     | Ret (Some a) => try_pk (rewritePacketIP d (Some a) off)
     | Ret None => pk_ret false
     | _ => λ p, (Panic, p)
     end)%pk.

Definition translateOutboundDNAT : Nat → decoder → pk bool := translate getDNATTranslation 16.
Definition translateInboundReverse : Nat → decoder → pk bool := translate findReverseDNATMapping 12.

(** ** Port redirection *)
Definition addPortRedirection (ip : Addr) (protocol : layer) (sourcePort target : Z) (n : Nat) : Nat :=
  {| dnatEnabled := dnatEnabled n; dnatMappings := dnatMappings n; dnatBiMap := dnatBiMap n; portDNATEnabled := true;
     portDNATRules := portDNATRules n ++ [{| pr_protocol := protocol; origPort := sourcePort; targetPort := target;
                                             targetIP := ip |}] |}.
Definition removePortRedirection (ip : Addr) (protocol : layer) (sourcePort target : Z) (n : Nat) : Nat :=
  let rules := filter (λ r, r ≠ {| pr_protocol := protocol; origPort := sourcePort; targetPort := target; targetIP := ip |})
                 (portDNATRules n) in
  {| dnatEnabled := dnatEnabled n; dnatMappings := dnatMappings n; dnatBiMap := dnatBiMap n;
     portDNATEnabled := if bool_decide (rules = []) then false else portDNATEnabled n; portDNATRules := rules |}.

Definition redirected (protocol : string) : option layer :=
  if bool_decide (protocol = "tcp") then Some LayerTypeTCP
  else if bool_decide (protocol = "udp") then Some LayerTypeUDP else None.
Definition AddInboundDNAT (localAddr : Addr) (protocol : string) (sourcePort target : Z) (n : Nat) : outcome dnat_err Nat :=
  match redirected protocol with
  | Some l => Ret (addPortRedirection localAddr l sourcePort target n)
  | None => Err errUnsupportedProtocol
  end.
Definition RemoveInboundDNAT (localAddr : Addr) (protocol : string) (sourcePort target : Z) (n : Nat) : outcome dnat_err Nat :=
  match redirected protocol with
  | Some l => Ret (removePortRedirection localAddr l sourcePort target n)
  | None => Err errUnsupportedProtocol
  end.

(** The original port when the packet was redirected. *)
Fixpoint applyPortRule (rules : list portDNATRule) (d : decoder) (srcIP dstIP : Addr) (port : Z) (protocol : layer)
    (rewriteFn : decoder → Z → nat → pk ()) : pk (option Z) :=
  match rules with
  | [] => pk_ret None
  | r :: rules =>
      if negb (bool_decide (pr_protocol r = protocol)) || negb (bool_decide (targetIP r = dstIP))
      then applyPortRule rules d srcIP dstIP port protocol rewriteFn
      else if (targetPort r =? port) && bool_decide (targetIP r = srcIP) then pk_ret None
      else if negb (origPort r =? port) then applyPortRule rules d srcIP dstIP port protocol rewriteFn
      else (let* ok := try_pk (rewriteFn d (targetPort r) 2%nat) in
            pk_ret (if ok : bool then Some (origPort r) else None))%pk
  end.

Definition translateInboundPortDNAT (n : Nat) (d : decoder) (srcIP dstIP : Addr) : pk (option Z) :=
  if negb (portDNATEnabled n) then pk_ret None
  else
    match transport d with
    | Some LayerTypeTCP => applyPortRule (portDNATRules n) d srcIP dstIP (tcp_DstPort d) LayerTypeTCP rewriteTCPPort
    | Some LayerTypeUDP => applyPortRule (portDNATRules n) d None dstIP (udp_DstPort d) LayerTypeUDP rewriteUDPPort
    | _ => pk_ret None
    end.

(** ** The mappings stay one to one *)
Definition bijective (b : biDNATMap) : Prop := ∀ o t, forward b !! o = Some t ↔ reverse b !! t = Some o.

Record nat_ok (n : Nat) : Prop := {
  ok_enabled : dnatEnabled n = true ↔ dnatMappings n ≠ ∅;
  ok_maps : match dnatBiMap n with
            | None => dnatMappings n = ∅
            | Some b => forward b = dnatMappings n ∧ bijective b
            end;
  ok_ports : portDNATEnabled n = true ↔ portDNATRules n ≠ [] }.

Lemma set_bijective o t b : bijective b → forward b !! o = None → reverse b !! t = None → bijective (set o t b).
Proof.
  intros Hb Ho Ht o' t'. cbn. rewrite !lookup_insert_Some. split.
  - intros [[<- <-]|[Hne Hf]]; [by left|]. right. apply Hb in Hf. split; [|done]. intros <-. congruence.
  - intros [[<- <-]|[Hne Hf]]; [by left|]. right. apply Hb in Hf. split; [|done]. intros <-. congruence.
Qed.
Lemma delete_bijective o b : bijective b → bijective (bi_delete o b) ∧ forward (bi_delete o b) = delete o (forward b).
Proof.
  intros Hb. unfold bi_delete. destruct (forward b !! o) as [t|] eqn:Ho; [|split; [done|by rewrite delete_id]].
  split; [|done]. intros o' t'. cbn. rewrite !lookup_delete_Some, (Hb o' t').
  apply Hb in Ho. split; (intros [Hne Hf]; split; [|done]); intros <-; apply Hne; [congruence|].
  apply Hb in Hf. apply Hb in Ho. congruence.
Qed.

(** The operations; a mapping is added only between addresses that are not mapped yet. *)
Inductive dnat_step (isLocal : Addr → bool) : Nat → Nat → Prop :=
| step_add o t n n' : dnatMappings n !! o = None → (∀ o', dnatMappings n !! o' ≠ Some t) →
    AddInternalDNATMapping isLocal (Some o) (Some t) n = Ret n' → dnat_step isLocal n n'
| step_remove o n n' : RemoveInternalDNATMapping o n = Ret n' → dnat_step isLocal n n'
| step_redirect a proto s t n n' : AddInboundDNAT a proto s t n = Ret n' → dnat_step isLocal n n'
| step_undirect a proto s t n n' : RemoveInboundDNAT a proto s t n = Ret n' → dnat_step isLocal n n'.

Lemma no_nat_ok : nat_ok no_nat.
Proof. by split. Qed.

Lemma add_ok isLocal o t n n' : nat_ok n → dnatMappings n !! o = None → (∀ o', dnatMappings n !! o' ≠ Some t) →
  AddInternalDNATMapping isLocal (Some o) (Some t) n = Ret n' → nat_ok n'.
Proof.
  intros [He Hm Hp] Ho Ht H. unfold AddInternalDNATMapping in H. destruct (isLocal (Some t)); [done|].
  assert (Hmaps : ∃ b, match dnatBiMap n with Some bi => (dnatMappings n, bi) | None => (∅, newBiDNATMap) end
                       = (dnatMappings n, b) ∧ forward b = dnatMappings n ∧ bijective b).
  { destruct (dnatBiMap n) as [b|]; [by exists b|]. exists newBiDNATMap. rewrite Hm. split_and!; [done..|].
    intros o' t'. cbn. by rewrite !lookup_empty. }
  destruct Hmaps as (b & Hb & Hf & Hbij). rewrite Hb in H. injection H as <-. split; cbn; [| |done].
  - split; [intros _; apply insert_non_empty|]. intros _. case_bool_decide as Hs; [done|]. apply He. intros Hemp.
    apply Hs. by rewrite Hemp, map_size_insert_None, map_size_empty.
  - rewrite Hf. split; [done|]. apply set_bijective; [done|by rewrite Hf|].
    destruct (reverse b !! t) as [o'|] eqn:Hr; [|done]. apply Hbij in Hr. rewrite Hf in Hr. by destruct (Ht o').
Qed.

Lemma remove_ok o n : nat_ok n → match RemoveInternalDNATMapping o n with Ret n' => nat_ok n' | Err _ => True | Panic => False end.
Proof.
  intros [He Hm Hp]. unfold RemoveInternalDNATMapping. destruct (dnatMappings n !! o) as [t|] eqn:Ho; [|done].
  destruct (dnatBiMap n) as [b|]; [|by rewrite Hm in Ho]. destruct Hm as [Hf Hb]. destruct (delete_bijective o b Hb) as [Hb' Hf'].
  split; cbn; [|by rewrite Hf', Hf|done].
  case_bool_decide as Hs; [apply map_size_empty_inv in Hs; rewrite Hs; split; [done|by intros []]|].
  split; [intros _ Hemp; by rewrite Hemp, map_size_empty in Hs|]. intros _. apply He. intros Hemp. by rewrite Hemp in Ho.
Qed.

Lemma ports_ok ip l s t n : nat_ok n → nat_ok (addPortRedirection ip l s t n) ∧ nat_ok (removePortRedirection ip l s t n).
Proof.
  intros [He Hm Hp]. split; split; try done; cbn.
  - split; [|done]. intros _. by destruct (portDNATRules n).
  - case_bool_decide as Hr; [by rewrite Hr|]. split; [done|]. intros _. apply Hp. intros Hn. apply Hr. by rewrite Hn.
Qed.

Lemma dnat_reach_ok isLocal n : rtc (dnat_step isLocal) no_nat n → nat_ok n.
Proof.
  remember no_nat as n0 eqn:H0. intros Hr. assert (nat_ok n0) as Hok by (rewrite H0; apply no_nat_ok). clear H0.
  induction Hr as [|n0 n1 n2 Hs _ IH]; [done|]. apply IH. clear IH.
  destruct Hs as [o t n n' Ho Ht H|o n n' H|a proto s t n n' H|a proto s t n n' H].
  - by eapply add_ok.
  - pose proof (remove_ok o n Hok) as Hr. by rewrite H in Hr.
  - unfold AddInboundDNAT in H. destruct (redirected proto) as [l|]; [|done]. injection H as <-. by apply ports_ok.
  - unfold RemoveInboundDNAT in H. destruct (redirected proto) as [l|]; [|done]. injection H as <-. by apply ports_ok.
Qed.

(** ** Translation of packets *)
Lemma be_As4 a : ad_v6 a = false → 0 ≤ ad_num a < 2 ^ 32 → v4 (be_Z (As4 a)) = a.
Proof.
  destruct a as [[] n]; [done|]. intros _ Hn. cbn [ad_num] in Hn. unfold v4. f_equal. unfold be_Z, As4. cbn [foldl ad_num].
  rewrite !Z.shiftr_div_pow2 by lia. change (2 ^ 24) with 16777216. change (2 ^ 16) with 65536. change (2 ^ 8) with 256.
  change (2 ^ 32) with 4294967296 in Hn.
  assert (Hb : ∀ z, byte_Z (Z_byte z) = z mod 256).
  { intros z. pose proof (Z.mod_pos_bound z 256). rewrite <- (byte_Z_byte (z mod 256)) by lia.
    unfold Z_byte. by rewrite Z.mod_mod by lia. }
  rewrite !Hb. rewrite (Z.mod_small (n / 16777216)) by (split; [apply Z.div_pos|apply Z.div_lt_upper_bound]; lia).
  assert (H1 : n / 16777216 = n / 65536 / 256) by (by rewrite Z.div_div by lia).
  assert (H2 : n / 65536 = n / 256 / 256) by (by rewrite Z.div_div by lia). rewrite H1.
  pose proof (Z.div_mod (n / 65536) 256). pose proof (Z.div_mod (n / 256) 256). pose proof (Z.div_mod n 256). lia.
Qed.

(** A packet whose addresses can be translated: [a] at offset [off], right checksums. *)
Record translatable (d : decoder) (off : nat) (a : addr) (p : bytes) : Prop := {
  tr_hl : (20 ≤ ip4_IHL d * 4 ≤ 60)%nat;
  tr_len : (ip4_IHL d * 4 + min_header (transport d) ≤ length p)%nat;
  tr_max : Z.of_nat (length p) ≤ 65535;
  tr_ok : transport_ok (ip4_IHL d * 4) (transport d) p;
  tr_addr : take 4 (drop off p) = As4 a }.

(** A packet that carries [a] and that receivers accept. *)
Definition delivered (d : decoder) (off : nat) (a : addr) (p : bytes) : Prop :=
  take 4 (drop off p) = As4 a ∧ verifies (take (ip4_IHL d * 4) p) ∧ transport_ok (ip4_IHL d * 4) (transport d) p.

Lemma translate_spec lookup off n d a b p : dnatEnabled n = true → off = 12%nat ∨ off = 16%nat →
  ad_v6 a = false → 0 ≤ ad_num a < 2 ^ 32 → lookup a n = Ret (Some b) → ad_v6 b = false → translatable d off a p →
  ∃ p', translate lookup off n d p = (Ret true, p') ∧ delivered d off b p'.
Proof.
  intros He Hoff Ha Hna Hl Hb [Hhl Hlen Hmax Hok Haddr].
  destruct (rewrite_ip_spec d b off p Hb Hoff Hhl Hlen Hmax Hok) as (p' & Hrun & _ & H4 & Hh & Ht & _).
  exists p'. split; [|done]. unfold translate. rewrite He. cbn [negb]. unfold pk_bind, get4.
  rewrite bool_decide_eq_true_2 by lia. rewrite Haddr, (be_As4 a Ha Hna), Hl. unfold try_pk. by rewrite Hrun.
Qed.

(** C20: while the mappings are used one to one, a mapping works in both directions: an outbound
    packet to the original address leaves for the translated one, and a reply from the translated
    address arrives as if from the original one; both keep right checksums. *)
Theorem dnat_round_trip isLocal n o t d p
    (Hr : rtc (dnat_step isLocal) no_nat n) (Hm : dnatMappings n !! o = Some t)
    (Ho : ad_v6 o = false) (Hno : 0 ≤ ad_num o < 2 ^ 32) (Ht : ad_v6 t = false) (Hnt : 0 ≤ ad_num t < 2 ^ 32)
    (Hp : translatable d 16 o p) :
  (∃ p', translateOutboundDNAT n d p = (Ret true, p') ∧ delivered d 16 t p')
  ∧ ∀ d' r, translatable d' 12 t r → ∃ r', translateInboundReverse n d' r = (Ret true, r') ∧ delivered d' 12 o r'.
Proof.
  destruct (dnat_reach_ok _ _ Hr) as [He Hmaps _]. assert (dnatEnabled n = true) as Hen.
  { apply He. intros Hemp. by rewrite Hemp in Hm. }
  destruct (dnatBiMap n) as [b|] eqn:Hbi; [|by rewrite Hmaps in Hm]. destruct Hmaps as [Hf Hb]. rewrite <- Hf in Hm.
  split; [|intros d' r Hd]; (eapply translate_spec; [done|by auto|..|eassumption]); try done;
    unfold getDNATTranslation, findReverseDNATMapping; rewrite Hen, Hbi; cbn; f_equal; [done|by apply Hb].
Qed.

(** A mapping that is replaced leaves its reverse behind: replies from the old translation are
    still rewritten, even after the mapping is removed. *)
Example replaced_mapping_stays :
  let n := (n1 ← AddInternalDNATMapping (λ _, false) (Some (v4 1)) (Some (v4 2)) no_nat;
            n2 ← AddInternalDNATMapping (λ _, false) (Some (v4 1)) (Some (v4 3)) n1;
            n3 ← AddInternalDNATMapping (λ _, false) (Some (v4 5)) (Some (v4 6)) n2;
            RemoveInternalDNATMapping (v4 1) n3) in
  (n ≫= findReverseDNATMapping (v4 2)) = Ret (Some (v4 1)) ∧ (n ≫= getDNATTranslation (v4 1)) = Ret None.
Proof. vm_compute. auto. Qed.

(** ** Sample packets *)
Definition b32 (n : Z) : bytes := As4 (v4 n).
(** A TCP segment without data or options. *)
Definition tcp4 (src dst sport dport flags : Z) : bytes :=
  let raw := [x45; x00; x00; x28; x00; x01; x00; x00; x40; x06; x00; x00] ++ b32 src ++ b32 dst
             ++ port_bytes sport ++ port_bytes dport ++ b32 1 ++ b32 0 ++ [x50; Z_byte flags; x04; x00; x00; x00; x00; x00] in
  set16 36 (finish (segment_sum 20 raw)) (fixed 20 raw).

(** What gopacket decodes of an IPv4 packet with a TCP segment; nothing else is decoded. *)
Definition decode_tcp4 (p : bytes) (d : decoder) : option decoder :=
  if bool_decide (length p < 40)%nat || negb (byte_at 9 p =? 6) then None
  else Some {|
    decoded := [LayerTypeIPv4; LayerTypeTCP];
    ip4_IHL := Z.to_nat (byte_at 0 p mod 16); ip4_SrcIP := take 4 (drop 12 p); ip4_DstIP := take 4 (drop 16 p);
    ip4_Protocol := 6; ip4_MoreFragments := Z.testbit (byte_at 6 p) 5; ip4_FragOffset := word 6 p mod 8192;
    ip6_SrcIP := ip6_SrcIP d; ip6_DstIP := ip6_DstIP d;
    tcp_SrcPort := word 20 p; tcp_DstPort := word 22 p;
    tcp_SYN := Z.testbit (byte_at 33 p) 1; tcp_ACK := Z.testbit (byte_at 33 p) 4; tcp_FIN := Z.testbit (byte_at 33 p) 0;
    tcp_RST := Z.testbit (byte_at 33 p) 2; tcp_PSH := Z.testbit (byte_at 33 p) 3; tcp_URG := Z.testbit (byte_at 33 p) 5;
    tcp_Options := []; udp_SrcPort := udp_SrcPort d; udp_DstPort := udp_DstPort d;
    icmp4_Id := icmp4_Id d; icmp4_Type := icmp4_Type d; icmp4_Code := icmp4_Code d; icmp4_Payload := icmp4_Payload d;
    dnatOrigPort := dnatOrigPort d |}.
Definition new_decoder : decoder := {|
  decoded := []; ip4_IHL := 0; ip4_SrcIP := []; ip4_DstIP := []; ip4_Protocol := 0; ip4_MoreFragments := false;
  ip4_FragOffset := 0; ip6_SrcIP := []; ip6_DstIP := []; tcp_SrcPort := 0; tcp_DstPort := 0; tcp_SYN := false;
  tcp_ACK := false; tcp_FIN := false; tcp_RST := false; tcp_PSH := false; tcp_URG := false; tcp_Options := [];
  udp_SrcPort := 0; udp_DstPort := 0; icmp4_Id := 0; icmp4_Type := 0; icmp4_Code := 0; icmp4_Payload := [];
  dnatOrigPort := 0 |}.
Definition sample_decoder (p : bytes) : decoder := default new_decoder (decode_tcp4 p new_decoder).

(** 100.64.0.1, the mapped 240.0.0.1 and its translation 93.184.216.34 *)
Definition me : Z := 1681915905.
Definition fake : addr := v4 4026531841.
Definition real : addr := v4 1572395042.
Definition syn_out : bytes := tcp4 me (ad_num fake) 1000 80 2.
Definition syn_ack : bytes := tcp4 (ad_num real) me 80 1000 0x12.

Lemma rewrite_ip_correct_witness :
  ∃ p', rewritePacketIP (sample_decoder syn_out) (Some real) 16 syn_out = (Ret tt, p')
    ∧ take 4 (drop 16 p') = As4 real ∧ verifies (take 20 p') ∧ segment_ok 20 p'.
Proof.
  destruct (rewrite_ip_correct (sample_decoder syn_out) real 16 syn_out) as (p' & H1 & _ & H2 & H3 & H4 & _).
  - reflexivity.
  - auto.
  - vm_compute. lia.
  - vm_compute. lia.
  - vm_compute. discriminate.
  - vm_compute. reflexivity.
  - exists p'. split_and!; [exact H1|exact H2|exact H3|exact H4].
Defined.

Lemma rewrite_port_correct_witness :
  ∃ p', rewriteTCPPort (sample_decoder syn_out) 8080 2 syn_out = (Ret tt, p') ∧ word 22 p' = 8080 ∧ segment_ok 20 p'.
Proof.
  destruct (rewrite_port_correct LayerTypeTCP (sample_decoder syn_out) 8080 2 syn_out) as (p' & H1 & _ & H2 & H3 & _).
  - auto.
  - auto.
  - lia.
  - vm_compute. lia.
  - vm_compute. lia.
  - vm_compute. discriminate.
  - vm_compute. reflexivity.
  - exists p'. split_and!; [exact H1|exact H2|exact H3].
Defined.

Definition mapped : Nat :=
  {| dnatEnabled := true; dnatMappings := {[ fake := real ]};
     dnatBiMap := Some {| forward := {[ fake := real ]}; reverse := {[ real := fake ]} |};
     portDNATEnabled := false; portDNATRules := [] |}.

Lemma dnat_round_trip_witness :
  (∃ p', translateOutboundDNAT mapped (sample_decoder syn_out) syn_out = (Ret true, p'))
  ∧ ∃ r', translateInboundReverse mapped (sample_decoder syn_ack) syn_ack = (Ret true, r')
      ∧ take 4 (drop 12 r') = As4 fake.
Proof.
  destruct (dnat_round_trip (λ _, false) mapped fake real (sample_decoder syn_out) syn_out) as [(p' & H1 & _) H2].
  - apply rtc_once, (step_add _ fake real); [done|intros o'; cbn; by rewrite lookup_empty|reflexivity].
  - reflexivity.
  - reflexivity.
  - by vm_compute.
  - reflexivity.
  - by vm_compute.
  - split; vm_compute; (lia || reflexivity || discriminate).
  - split; [by exists p'|]. destruct (H2 (sample_decoder syn_ack) syn_ack) as (r' & H3 & H4 & _); [|by exists r'].
    split; vm_compute; (lia || reflexivity || discriminate).
Defined.
