(* ===== verification/MssClamp.v ===== *)
(** Clamping the maximum segment size of TCP connections in the user-space packet filter:
    [clampTCPMSS], [updateMSSOption] and [recalculateTCPChecksum] of
    [src/client/firewall/uspfilter/filter.go].

    An option of the decoded segment is its kind and data; kinds 0 and 1 take one byte in the
    packet, the others two and their data. *)
From S2P Require Import Prelude GoText NetIP Checksum PacketNat PacketDnat.
Open Scope Z_scope.

Definition TCPOptionKindMSS : Z := 2.
Definition single_byte (o : Z * bytes) : bool := (o.1 =? 0) || (o.1 =? 1).

(** [for sum > 0xFFFF { sum = (sum & 0xFFFF) + (sum >> 16) }]: of a sum of 32 bits, the loop runs
    at most twice. *)
Fixpoint fold_loop (fuel : nat) (sum : Z) : Z :=
  match fuel with
  | O => sum
  | S fuel => if 0xFFFF <? sum then fold_loop fuel (add32 (Z.land sum 0xFFFF) (Z.shiftr sum 16)) else sum
  end.

(** [uint32(ip[0])<<8 | uint32(ip[1])] and the second half. *)
Definition ip_words (ip : bytes) : outcome nat_err (Z * Z) :=
  match ip with b0 :: b1 :: b2 :: b3 :: _ => Ret (u16 b0 b1, u16 b2 b3) | _ => Panic end.
Definition pseudo_sum (d : decoder) (tcpLength : nat) : outcome nat_err Z :=
  '(s0, s1) ← ip_words (ip4_SrcIP d);
  '(d0, d1) ← ip_words (ip4_DstIP d);
  Ret (add32 (add32 (add32 (add32 (add32 (add32 0 s0) s1) d0) d1) (ip4_Protocol d)) (Z.of_nat tcpLength)).

Definition pk_lift {A} (o : outcome nat_err A) : pk A := λ p, (o, p).
Definition recalculateTCPChecksum (d : decoder) (tcpHeaderStart : nat) : pk () :=
  (let* len := packet_len in
   let tcpLength := (len - tcpHeaderStart)%nat in
   put16 (tcpHeaderStart + 16) 0 ;;;
   let* pseudoSum := pk_lift (pseudo_sum d tcpLength) in
   λ p, let tcpLayer := drop tcpHeaderStart p in
        let sum := add_odd (add_words pseudoSum tcpLayer) tcpLayer in
        put16 (tcpHeaderStart + 16) (not16 (wrap_u16 (fold_loop 3 sum))) p)%pk.

Definition option_size (o : Z * bytes) : nat := if single_byte o then 1 else (2 + length o.2)%nat.
Definition options_size (os : list (Z * bytes)) : nat := sum_list (option_size <$> os).

Definition updateMSSOption (clamp : Z) (d : decoder) (mssOptionIndex ipHeaderSize : nat) : pk () :=
  (let optOffset := (ipHeaderSize + 20 + options_size (take mssOptionIndex (tcp_Options d)))%nat in
   put16 (optOffset + 2) clamp ;;;
   recalculateTCPChecksum d ipHeaderSize)%pk.

(** The first MSS option above the limit. *)
Definition above (clamp : Z) (o : Z * bytes) : bool :=
  (o.1 =? TCPOptionKindMSS) && match o.2 with [hi; lo] => clamp <? u16 hi lo | _ => false end.
Fixpoint find_mss (clamp : Z) (i : nat) (os : list (Z * bytes)) : option nat :=
  match os with
  | [] => None
  | o :: os => if above clamp o then Some i else find_mss clamp (S i) os
  end.

Definition clampTCPMSS (clamp : Z) (d : decoder) : pk bool :=
  if negb (tcp_SYN d) then pk_ret false
  else if bool_decide (tcp_Options d = []) then pk_ret false
  else
    match find_mss clamp 0 (tcp_Options d) with
    | None => pk_ret false
    | Some i =>
        let ipHeaderSize := (ip4_IHL d * 4)%nat in
        if bool_decide (ipHeaderSize < 20)%nat then pk_ret false
        else (updateMSSOption clamp d i ipHeaderSize ;;; pk_ret true)%pk
    end.

(** ** Correctness *)
(** How options are written in a packet. *)
Definition write_option (o : Z * bytes) : bytes :=
  if single_byte o then [Z_byte o.1] else Z_byte o.1 :: Z_byte (2 + Z.of_nat (length o.2)) :: o.2.
Definition write_options (os : list (Z * bytes)) : bytes := concat (write_option <$> os).

(** The decoder holds this packet's addresses, protocol and options. *)
Record decoded_tcp (d : decoder) (hl : nat) (p : bytes) : Prop := {
  dt_ihl : (ip4_IHL d * 4)%nat = hl; dt_hl : (20 ≤ hl)%nat; dt_len : Z.of_nat (length p) ≤ 65535;
  dt_src : ip4_SrcIP d = take 4 (drop 12 p); dt_dst : ip4_DstIP d = take 4 (drop 16 p);
  dt_proto : ip4_Protocol d = byte_at 9 p;
  dt_header : (hl + 20 ≤ length p)%nat;
  dt_options : take (length (write_options (tcp_Options d))) (drop (hl + 20) p) = write_options (tcp_Options d) }.

Lemma fold_loop_spec s : 0 ≤ s < 2 ^ 32 → fold_loop 3 s ≡ₒ s ∧ 0 ≤ fold_loop 3 s ≤ 65535.
Proof.
  assert (Hstep : ∀ x, 0 ≤ x < 2 ^ 32 →
    add32 (Z.land x 0xFFFF) (Z.shiftr x 16) = x mod 65536 + x / 65536 ∧ x mod 65536 + x / 65536 ≡ₒ x).
  { intros x Hx. change 0xFFFF with (Z.ones 16). rewrite Z.land_ones, Z.shiftr_div_pow2 by lia. change (2 ^ 16) with 65536.
    pose proof (Z.div_mod x 65536). pose proof (Z.mod_pos_bound x 65536).
    assert (0 ≤ x / 65536 < 65536) by (split; [apply Z.div_pos|apply Z.div_lt_upper_bound]; lia).
    split; [apply add32_small; lia|]. apply (oc_eq_sub _ _ (- (x / 65536))). lia. }
  assert (Hbound : ∀ x, 0 ≤ x < 2 ^ 32 → 0 ≤ x mod 65536 + x / 65536 ≤ 131070).
  { intros x Hx. pose proof (Z.mod_pos_bound x 65536).
    assert (0 ≤ x / 65536 < 65536) by (split; [apply Z.div_pos|apply Z.div_lt_upper_bound]; lia). lia. }
  intros Hs. cbn [fold_loop]. destruct (Z.ltb_spec 0xFFFF s) as [H1|]; [|split; [reflexivity|lia]].
  destruct (Hstep s Hs) as [-> E1]. pose proof (Hbound s Hs) as B1. set (y := s mod 65536 + s / 65536) in *.
  destruct (Z.ltb_spec 0xFFFF y) as [H2|]; [|split; [done|lia]].
  destruct (Hstep y ltac:(lia)) as [-> E2]. assert (B2 : 0 ≤ y mod 65536 + y / 65536 ≤ 65535).
  { pose proof (Z.div_mod y 65536). pose proof (Z.mod_pos_bound y 65536).
    assert (y / 65536 = 1); [|lia]. symmetry. apply (Z.div_unique y 65536 1 (y - 65536)); lia. }
  destruct (Z.ltb_spec 0xFFFF (y mod 65536 + y / 65536)); [lia|]. split; [|lia]. by rewrite E2.
Qed.

Lemma ip_words_spec i p : (i + 4 ≤ length p)%nat → ip_words (take 4 (drop i p)) = Ret (word i p, word (i + 2) p).
Proof.
  intros Hi. destruct (take_word 2 i p) as (x & y & -> & <-); [lia|]. destruct (take_word 0 (i + 2) p) as (z & t & -> & <-); [lia|].
  done.
Qed.
Lemma pseudo_sum_spec d hl p q : decoded_tcp d hl p → length q = length p → (∀ i, (i < 20)%nat → q !! i = p !! i) →
  ∃ s, pseudo_sum d (length q - hl) = Ret s ∧ 0 ≤ s ≤ 400000 ∧ s + wsum (drop hl q) = segment_sum hl q.
Proof.
  intros [_ Hhl Hlen Hsrc Hdst Hpr Hp _] Hq Hsame. unfold pseudo_sum.
  rewrite Hsrc, Hdst, !ip_words_spec, Hpr by lia. cbn [mbind outcome_bind]. eexists. split; [reflexivity|].
  assert (Hw : ∀ i, (i + 1 < 20)%nat → word i p = word i q) by (intros i Hi; unfold word, byte_at; by rewrite !Hsame by lia).
  assert (Hb : byte_at 9 p = byte_at 9 q) by (unfold byte_at; by rewrite Hsame by lia).
  cbn [Nat.add]. rewrite !Hw, Hb by lia. unfold segment_sum.
  pose proof (word_bound 12 q). pose proof (word_bound 14 q). pose proof (word_bound 16 q). pose proof (word_bound 18 q).
  assert (0 ≤ byte_at 9 q < 256) by apply byte_Z_bound.
  repeat match goal with
    | |- context [add32 ?a ?b] => lazymatch a with context [add32] => fail | _ => rewrite (add32_small a b) by lia end
    end. split; lia.
Qed.

Lemma wsum_half d : 2 * wsum d ≤ 65535 * (Z.of_nat (length d) + 1).
Proof.
  induction d as [|b|hi lo d IH] using pair_ind; cbn [wsum length]; [lia|pose proof (u16_bound b x00); lia|].
  pose proof (u16_bound hi lo). lia.
Qed.
Lemma set16_set16 i v w p : set16 i v (set16 i w p) = set16 i v p.
Proof.
  unfold set16. rewrite (list_insert_insert_ne _ i (i + 1)) by lia. by rewrite !list_insert_insert_eq.
Qed.
Lemma recalculate_spec d hl p q : decoded_tcp d hl p → length q = length p → (∀ i, (i < 20)%nat → q !! i = p !! i) →
  ∃ c, recalculateTCPChecksum d hl q = (Ret tt, set16 (hl + 16) c q) ∧ segment_ok hl (set16 (hl + 16) c q).
Proof.
  intros Hd Hq Hsame. pose proof Hd as [Hihl Hhl Hlen _ _ _ Hp _].
  assert (He : Nat.even hl = true) by (rewrite <- Hihl; by rewrite Nat.even_mul, orb_true_r).
  unfold recalculateTCPChecksum, pk_bind, packet_len, put16, pk_lift. bounds.
  set (q0 := set16 (hl + 16) 0 q). assert (Hq0 : length q0 = length p) by (unfold q0; by rewrite length_set16).
  destruct (pseudo_sum_spec d hl p q0 Hd Hq0) as (s & Hs & Hb & Hsum).
  { intros i Hi. unfold q0. rewrite lookup_set16_ne by lia. by apply Hsame. }
  replace (length q) with (length q0) by lia. rewrite Hs. bounds.
  pose proof (wsum_nonneg (drop hl q0)). pose proof (wsum_half (drop hl q0)) as Hwb. rewrite length_drop in Hwb.
  rewrite add_words_odd by lia. rewrite Hsum. set (S := segment_sum hl q0) in *.
  destruct (fold_loop_spec S) as [Hf Hfb]; [lia|]. set (f := fold_loop 3 S) in *.
  unfold wrap_u16, wrap. rewrite Z.mod_small by lia.
  rewrite not16_eq by lia.
  assert (E : set16 (hl + 16) (65535 - f) q0 = set16 (hl + 16) (65535 - f) q).
  { unfold q0. apply set16_set16. }
  exists (65535 - f). rewrite E. split; [done|]. rewrite <- E.
  apply segment_ok_iff; [rewrite length_set16; lia|rewrite length_set16; lia|].
  rewrite segment_sum_set16; [|by rewrite Nat.even_add, He|done|lia|lia|lia|lia].
  unfold q0 at 2. rewrite word_set16 by lia. fold S. rewrite <- Hf. apply (oc_eq_sub _ _ 1). lia.
Qed.

(** *** The option in the packet *)
Lemma length_write_options os : length (write_options os) = options_size os.
Proof.
  unfold write_options, options_size. induction os as [|o os IH]; [done|]. cbn. rewrite length_app, IH. f_equal.
  unfold write_option, option_size. by destruct (single_byte o).
Qed.
Lemma write_options_app os os' : write_options (os ++ os') = write_options os ++ write_options os'.
Proof. unfold write_options. by rewrite fmap_app, concat_app. Qed.

Lemma find_mss_spec clamp os k :
  match find_mss clamp k os with
  | Some i => ∃ j o, i = (k + j)%nat ∧ os !! j = Some o ∧ above clamp o = true
  | None => ∀ o, o ∈ os → above clamp o = false
  end.
Proof.
  revert k. induction os as [|o os IH]; intros k; cbn; [by intros ? ?%not_elem_of_nil|]. destruct (above clamp o) eqn:E.
  - exists 0%nat, o. split; [lia|done].
  - specialize (IH (S k)). destruct (find_mss clamp (S k) os) as [i|].
    + destruct IH as (j & o' & -> & Hj & Ho). exists (S j), o'. split; [lia|done].
    + intros o' [->|Ho]%elem_of_cons; [done|by apply IH].
Qed.

Lemma above_option clamp o : above clamp o = true → ∃ hi lo, o = (TCPOptionKindMSS, [hi; lo]) ∧ clamp < u16 hi lo.
Proof.
  unfold above. destruct o as [k [|hi [|lo [|]]]]; cbn; rewrite ?andb_false_r; try done.
  rewrite andb_true_iff, Z.eqb_eq, Z.ltb_lt. intros [-> ?]. by exists hi, lo.
Qed.
Lemma set16_app i v A l : set16 (length A + i) v (A ++ l) = A ++ set16 i v l.
Proof.
  unfold set16. rewrite insert_app_r. replace (length A + i + 1)%nat with (length A + (i + 1))%nat by lia. by rewrite insert_app_r.
Qed.

(** Writing the limit at the computed offset changes just that option. *)
Lemma write_clamped clamp os i hi lo : os !! i = Some (TCPOptionKindMSS, [hi; lo]) →
  (options_size (take i os) + 4 ≤ options_size os)%nat
  ∧ set16 (options_size (take i os) + 2) clamp (write_options os) = write_options (<[i := (TCPOptionKindMSS, port_bytes clamp)]> os).
Proof.
  intros Hi. destruct (list_elem_of_split_length os i _ Hi) as (A & B & -> & ->).
  rewrite take_app_length, insert_app_r_alt, Nat.sub_diag by lia. cbn [insert list_insert].
  rewrite <- !length_write_options, !write_options_app.
  change (write_options ((TCPOptionKindMSS, [hi; lo]) :: B)) with ([x02; x04; hi; lo] ++ write_options B).
  split; [rewrite !length_app; cbn; lia|]. rewrite set16_app. done.
Qed.

(** The MSS option is above the limit and is lowered to it. *)
Lemma update_mss_spec clamp d hl p i hi lo : decoded_tcp d hl p → 0 ≤ clamp ≤ 65535 →
  tcp_Options d !! i = Some (TCPOptionKindMSS, [hi; lo]) →
  let n := (hl + 20 + options_size (take i (tcp_Options d)) + 2)%nat in
  ∃ p', updateMSSOption clamp d i hl p = (Ret tt, p') ∧ length p' = length p
    ∧ take (options_size (tcp_Options d)) (drop (hl + 20) p') = write_options (<[i := (TCPOptionKindMSS, port_bytes clamp)]> (tcp_Options d))
    ∧ segment_ok hl p'
    ∧ ∀ j, j ∉ [n; n + 1; hl + 16; hl + 17]%nat → p' !! j = p !! j.
Proof.
  intros Hd Hc Hi n. pose proof Hd as [_ Hhl _ _ _ _ Hp Ho]. destruct (write_clamped clamp _ i hi lo Hi) as [Hn Hw].
  rewrite length_write_options in Ho. set (N := options_size (tcp_Options d)) in *.
  set (k := options_size (take i (tcp_Options d))) in *.
  assert (Hlen : (hl + 20 + N ≤ length p)%nat).
  { apply (f_equal length) in Ho. rewrite length_take, length_write_options, length_drop in Ho. unfold N in *. lia. }
  destruct (recalculate_spec d hl p (set16 n clamp p) Hd) as (c & Hr & Hok); [apply length_set16| |].
  { intros j Hj. apply lookup_set16_ne; unfold n; lia. }
  exists (set16 (hl + 16) c (set16 n clamp p)). split_and!.
  - unfold updateMSSOption, pk_bind, put16. fold k. fold n. bounds. exact Hr.
  - by rewrite !length_set16.
  - rewrite drop_set16_lt by lia. rewrite drop_set16_ge by (unfold n; lia). rewrite take_set16_lt by (unfold n; lia).
    rewrite Ho, <- Hw. f_equal. unfold n. lia.
  - exact Hok.
  - intros j. rewrite !not_elem_of_cons. intros (? & ? & ? & ? & _). by rewrite !lookup_set16_ne by lia.
Qed.

(** C21: Clamping the maximum segment size does what it is for: of a connection request whose MSS
    option is above the limit, that option is lowered to the limit in the packet, the options
    before and after it and every other byte stay, and the TCP checksum is right afterwards; of
    any other packet nothing changes.  It never writes outside the packet. *)
Theorem clamp_mss_correct clamp d hl p : decoded_tcp d hl p → 0 ≤ clamp ≤ 65535 →
  (∃ i hi lo p', tcp_SYN d = true ∧ tcp_Options d !! i = Some (TCPOptionKindMSS, [hi; lo]) ∧ clamp < u16 hi lo
     ∧ clampTCPMSS clamp d p = (Ret true, p') ∧ length p' = length p
     ∧ take (options_size (tcp_Options d)) (drop (hl + 20) p')
       = write_options (<[i := (TCPOptionKindMSS, port_bytes clamp)]> (tcp_Options d))
     ∧ segment_ok hl p'
     ∧ let n := (hl + 20 + options_size (take i (tcp_Options d)) + 2)%nat in
       ∀ j, j ∉ [n; n + 1; hl + 16; hl + 17]%nat → p' !! j = p !! j)
  ∨ (clampTCPMSS clamp d p = (Ret false, p) ∧ (tcp_SYN d = false ∨ ∀ o, o ∈ tcp_Options d → above clamp o = false)).
Proof.
  intros Hd Hc. unfold clampTCPMSS. destruct (tcp_SYN d) eqn:Hsyn; cbn [negb]; [|right; split; [done|by left]].
  case_bool_decide as Ho; [right; split; [done|right; rewrite Ho; by intros ? ?%not_elem_of_nil]|].
  pose proof (find_mss_spec clamp (tcp_Options d) 0) as Hf. destruct (find_mss _ _ _) as [i|]; [|right; split; [done|by right]].
  destruct Hf as (j & o & -> & Hj & (hi & lo & -> & Hu)%above_option).
  pose proof Hd as [Hihl Hhl _ _ _ _ _ _]. rewrite Hihl, bool_decide_eq_false_2 by lia. left.
  destruct (update_mss_spec clamp d hl p j hi lo Hd Hc Hj) as (p' & Hp' & Hrest). exists j, hi, lo, p'.
  do 3 (split; [done|]). split; [|exact Hrest]. unfold pk_bind. cbn [Nat.add]. by rewrite Hp'.
Qed.

(** A connection request that offers 1460 bytes, after a no-op. *)
Definition syn_mss : bytes :=
  let raw := [x45; x00; x00; x30; x00; x01; x00; x00; x40; x06; x00; x00] ++ b32 me ++ b32 (ad_num real)
             ++ port_bytes 1000 ++ port_bytes 80 ++ b32 1 ++ b32 0 ++ [x70; x02; x04; x00; x00; x00; x00; x00]
             ++ [x01; x02; x04; x05; xb4; x01; x01; x00] in
  set16 36 (finish (segment_sum 20 raw)) (fixed 20 raw).
Definition syn_mss_decoder : decoder := {|
  decoded := [LayerTypeIPv4; LayerTypeTCP]; ip4_IHL := 5; ip4_SrcIP := b32 me; ip4_DstIP := b32 (ad_num real); ip4_Protocol := 6;
  ip4_MoreFragments := false; ip4_FragOffset := 0; ip6_SrcIP := []; ip6_DstIP := []; tcp_SrcPort := 1000; tcp_DstPort := 80;
  tcp_SYN := true; tcp_ACK := false; tcp_FIN := false; tcp_RST := false; tcp_PSH := false; tcp_URG := false;
  tcp_Options := [(1, []); (2, [x05; xb4]); (1, []); (1, []); (0, [])];
  udp_SrcPort := 0; udp_DstPort := 0; icmp4_Id := 0; icmp4_Type := 0; icmp4_Code := 0; icmp4_Payload := []; dnatOrigPort := 0 |}.

Lemma clamp_mss_correct_witness :
  decoded_tcp syn_mss_decoder 20 syn_mss
  ∧ ∃ p', clampTCPMSS 1240 syn_mss_decoder syn_mss = (Ret true, p') ∧ segment_ok 20 p' ∧ word 43 p' = 1240.
Proof.
  assert (Hd : decoded_tcp syn_mss_decoder 20 syn_mss) by (by split; vm_compute; try lia).
  split; [exact Hd|].
  destruct (clamp_mss_correct 1240 syn_mss_decoder 20 syn_mss Hd) as [(i & hi & lo & p' & _ & _ & _ & H & _ & _ & Hok & _)|[H _]].
  - lia.
  - exists p'. split; [exact H|]. split; [exact Hok|]. vm_compute in H. injection H as <-. vm_compute. reflexivity.
  - vm_compute in H. discriminate H.
Defined.
