(* ===== verification/LocalIP.v ===== *)
(** Which addresses are the machine's own: the bitmap of
    [src/client/firewall/uspfilter/localip.go].

    The bitmap is an array of 256 pointers to arrays of 8192 words of 32 bits; an array is a
    function of its index.  What the operating system says of its interfaces is an argument. *)
From S2P Require Import Prelude GoText NetIP.
Open Scope Z_scope.

Definition ipv4LowBitmap : Type := Z → Z.
Definition localIPManager : Type := Z → option ipv4LowBitmap.
Definition no_bits : ipv4LowBitmap := λ _, 0.
Definition newLocalIPManager : localIPManager := λ _, None.

Definition upd {A} (i : Z) (x : A) (f : Z → A) : Z → A := λ j, if bool_decide (j = i) then x else f j.

(** The indices of an address: its first byte, and 16 bits of the other three. *)
Definition high (a : addr) : Z := Z.land (Z.shiftr (ad_num a) 24) 255.
Definition low (a : addr) : Z :=
  let b1 := Z.land (Z.shiftr (ad_num a) 16) 255 in
  let b2 := Z.land (Z.shiftr (ad_num a) 8) 255 in
  let b3 := Z.land (ad_num a) 255 in
  Z.lor (Z.lor (wrap_u16 (Z.shiftl b1 8)) (wrap_u16 (Z.shiftl b2 4))) b3.

Definition setBitInBitmap (ip : Addr) (m : localIPManager) : localIPManager :=
  match ip with
  | Some a =>
      if ad_v6 a then m
      else
        let b := default no_bits (m (high a)) in
        upd (high a) (Some (upd (low a / 32) (Z.lor (b (low a / 32)) (Z.shiftl 1 (low a mod 32))) b)) m
  | None => m
  end.

Definition checkBitmapBit (a : addr) (m : localIPManager) : bool :=
  match m (high a) with
  | None => false
  | Some b => negb (Z.land (b (low a / 32)) (Z.shiftl 1 (low a mod 32)) =? 0)
  end.

Definition processIP : Addr → localIPManager → localIPManager := setBitInBitmap.

(** [None]: the addresses of the interface could not be read. *)
Definition processInterface (addrs : option (list bytes)) (m : localIPManager) : localIPManager :=
  match addrs with
  | None => m
  | Some ips => foldl (λ m ip, match AddrFromSlice ip with
                               | None => m
                               | Some a => processIP (Some (unmap a)) m
                               end) m ips
  end.

Definition all_ones : ipv4LowBitmap := λ _, 0xFFFFFFFF.

(** The bitmap is built from nothing. *)
Definition UpdateLocalIPs (iface : option Addr) (interfaces : option (list (option (list bytes)))) : localIPManager :=
  let m := upd 127 (Some all_ones) newLocalIPManager in
  let m := match iface with Some a => processIP a m | None => m end in
  match interfaces with
  | None => m
  | Some l => foldl (λ m i, processInterface i m) m l
  end.

Definition IsLocalIP (ip : Addr) (m : localIPManager) : bool :=
  match ip with
  | Some a => if ad_v6 a then false else checkBitmapBit a m
  | None => false
  end.

(** ** What the bitmap answers *)
(** Two addresses share their bit. *)
Definition same_bit (a b : addr) : Prop := high a = high b ∧ low a = low b.

Lemma low_bound a : 0 ≤ low a < 65536.
Proof.
  unfold low. cbv zeta. set (x := wrap_u16 _). set (y := wrap_u16 _). set (z := Z.land (ad_num a) 255).
  assert (0 ≤ x < 2 ^ 16) by (apply wrap_bound; lia). assert (0 ≤ y < 2 ^ 16) by (apply wrap_bound; lia).
  assert (0 ≤ z < 2 ^ 16).
  { unfold z. change 255 with (Z.ones 8). rewrite Z.land_ones by lia. pose proof (Z.mod_pos_bound (ad_num a) (2 ^ 8)). lia. }
  assert (Hl : ∀ u v, 0 ≤ u < 2 ^ 16 → 0 ≤ v < 2 ^ 16 → 0 ≤ Z.lor u v < 2 ^ 16).
  { intros u v Hu Hv. split; [apply Z.lor_nonneg; lia|].
    destruct (decide (Z.lor u v = 0)) as [->|Hn]; [lia|].
    assert (0 < Z.lor u v) by (pose proof (proj2 (Z.lor_nonneg u v)); lia).
    apply Z.log2_lt_pow2; [done|]. rewrite Z.log2_lor by lia.
    destruct (decide (u = 0)) as [->|]; destruct (decide (v = 0)) as [->|]; try (cbn in *; lia);
      apply Z.max_lub_lt; try (apply Z.log2_lt_pow2; lia); cbn; lia. }
  pose proof (Hl x y). pose proof (Hl (Z.lor x y) z). change (2 ^ 16) with 65536 in *. lia.
Qed.

Lemma check_testbit w j : 0 ≤ j → negb (Z.land w (Z.shiftl 1 j) =? 0) = Z.testbit w j.
Proof.
  intros Hj. rewrite Z.shiftl_1_l. destruct (Z.testbit w j) eqn:H; [apply negb_true_iff, Z.eqb_neq|apply negb_false_iff, Z.eqb_eq].
  - intros E. apply (f_equal (λ z, Z.testbit z j)) in E. by rewrite Z.land_spec, Z.pow2_bits_true, Z.bits_0, H in E.
  - apply Z.bits_inj'. intros k Hk. rewrite Z.land_spec, Z.bits_0, Z.pow2_bits_eqb by done.
    destruct (Z.eqb_spec j k) as [<-|]; [by rewrite H|apply andb_false_r].
Qed.

Lemma check_bit a m : checkBitmapBit a m = Z.testbit (default no_bits (m (high a)) (low a / 32)) (low a mod 32).
Proof.
  pose proof (Z.mod_pos_bound (low a) 32). unfold checkBitmapBit. destruct (m (high a)); cbn [default from_option].
  - apply check_testbit. lia.
  - unfold id, no_bits. by rewrite Z.bits_0.
Qed.

Lemma check_set ip a m :
  checkBitmapBit a (setBitInBitmap ip m) = true
  ↔ checkBitmapBit a m = true ∨ ∃ l, ip = Some l ∧ ad_v6 l = false ∧ same_bit l a.
Proof.
  destruct ip as [l|]; cbn [setBitInBitmap]; [|split; [by left|by intros [?|(? & ? & _)]]].
  destruct (ad_v6 l) eqn:Hl; [split; [by left|intros [?|(? & [= <-] & ? & _)]; congruence]|].
  transitivity (checkBitmapBit a m = true ∨ same_bit l a).
  2:{ split; [intros [?|?]; [by left|right; by exists l]|intros [?|(? & [= <-] & _ & ?)]; [by left|by right]]. }
  rewrite !check_bit. unfold upd, same_bit. pose proof (Z.mod_pos_bound (low l) 32). pose proof (Z.mod_pos_bound (low a) 32).
  case_bool_decide as Hh; [|split; [by left|intros [?|[? _]]; congruence]].
  rewrite <- Hh. cbn [default from_option id]. case_bool_decide as Hw.
  - rewrite <- Hw. rewrite Z.lor_spec, Z.shiftl_1_l, Z.pow2_bits_eqb, orb_true_iff, Z.eqb_eq by lia.
    assert (Hbit : low l mod 32 = low a mod 32 ↔ low l = low a).
    { split; [|by intros ->]. intros E. pose proof (Z.div_mod (low l) 32). pose proof (Z.div_mod (low a) 32). lia. }
    rewrite Hbit. by split; [intros [?|?]; auto|intros [?|[_ ?]]; auto].
  - split; [by left|]. intros [?|[_ E]]; [done|]. by rewrite E in Hw.
Qed.

#[local] Arguments setBitInBitmap : simpl never.
#[local] Arguments processIP : simpl never.
#[local] Arguments checkBitmapBit : simpl never.

(** The addresses that are entered. *)
Definition interface_addrs (addrs : option (list bytes)) : list addr :=
  match addrs with Some ips => unmap <$> omap AddrFromSlice ips | None => [] end.
Definition entered (iface : option Addr) (interfaces : option (list (option (list bytes)))) : list addr :=
  option_list (iface ≫= id) ++ match interfaces with Some l => l ≫= interface_addrs | None => [] end.

Definition shares (ls : list addr) (a : addr) : Prop := ∃ l, l ∈ ls ∧ ad_v6 l = false ∧ same_bit l a.

Lemma shares_app ls ls' a : shares (ls ++ ls') a ↔ shares ls a ∨ shares ls' a.
Proof.
  unfold shares. setoid_rewrite elem_of_app. split.
  - intros (l & [?|?] & ?); [left|right]; by exists l.
  - intros [(l & ? & ?)|(l & ? & ?)]; exists l; auto.
Qed.

Lemma check_interface i a m : checkBitmapBit a (processInterface i m) = true
  ↔ checkBitmapBit a m = true ∨ shares (interface_addrs i) a.
Proof.
  assert (Hnil : ∀ b, checkBitmapBit a b = true ↔ checkBitmapBit a b = true ∨ shares [] a)
    by (intros b; split; [by left|intros [?|(l & []%not_elem_of_nil & _)]; done]).
  destruct i as [ips|]; [|apply Hnil]. cbn. revert m. induction ips as [|ip ips IH]; intros m; cbn; [apply Hnil|].
  rewrite IH. destruct (AddrFromSlice ip) as [x|]; [|done].
  change (unmap <$> x :: omap AddrFromSlice ips) with ([unmap x] ++ (unmap <$> omap AddrFromSlice ips)).
  unfold processIP. rewrite shares_app, check_set.
  assert ((∃ l, Some (unmap x) = Some l ∧ ad_v6 l = false ∧ same_bit l a) ↔ shares [unmap x] a) as ->; [|tauto].
  split; [intros (l & [= <-] & ?); exists (unmap x); split; [by left|done]|].
  intros (l & ->%list_elem_of_singleton & ?). eauto.
Qed.

(** The bitmap never forgets an address of the machine, and it knows all of 127.0.0.0/8.
    Besides those it takes for local exactly the addresses that share the bit of a local one. *)
Theorem local_ip_spec iface interfaces a :
  IsLocalIP (Some a) (UpdateLocalIPs iface interfaces) = true
  ↔ ad_v6 a = false ∧ (high a = 127 ∨ shares (entered iface interfaces) a).
Proof.
  cbn. destruct (ad_v6 a); [naive_solver|]. transitivity (high a = 127 ∨ shares (entered iface interfaces) a); [|tauto].
  unfold UpdateLocalIPs, entered. rewrite shares_app. set (m0 := upd 127 (Some all_ones) newLocalIPManager).
  assert (H0 : checkBitmapBit a m0 = true ↔ high a = 127).
  { rewrite check_bit. unfold m0, upd, newLocalIPManager. case_bool_decide; cbn; [|by rewrite Z.bits_0].
    split; [done|]. intros _. unfold id, all_ones. change 0xFFFFFFFF with (Z.ones 32). pose proof (Z.mod_pos_bound (low a) 32).
    rewrite Z.testbit_ones_nonneg by lia. apply Z.ltb_lt. lia. }
  set (m1 := match iface with Some x => processIP x m0 | None => m0 end).
  assert (H1 : checkBitmapBit a m1 = true ↔ high a = 127 ∨ shares (option_list (iface ≫= id)) a).
  { unfold m1. destruct iface as [ip|]; cbn.
    - unfold processIP. rewrite check_set, H0. f_equiv. unfold shares, id. destruct ip as [x|]; cbn.
      + split; [intros (l & [= <-] & ?); exists x; split; [by left|done]|].
        intros (l & ->%list_elem_of_singleton & ?). eauto.
      + split; [by intros (? & ? & _)|by intros (l & []%not_elem_of_nil & _)].
    - rewrite H0. split; [by left|intros [?|(l & []%not_elem_of_nil & _)]; done]. }
  destruct interfaces as [ifs|]; [|rewrite H1; split; [tauto|intros [?|[?|(l & []%not_elem_of_nil & _)]]; auto]].
  transitivity (checkBitmapBit a m1 = true ∨ shares (ifs ≫= interface_addrs) a); [|rewrite H1; tauto].
  generalize m1. clear. induction ifs as [|i ifs IH]; intros m; cbn.
  - split; [by left|intros [?|(l & []%not_elem_of_nil & _)]; done].
  - rewrite IH, check_interface, shares_app. tauto.
Qed.

(** An address of another network that shares the bit: with 192.168.1.5 of its own, the machine
    takes 192.168.0.21 for local, because the third byte ifs shifted by four bits only. *)
Example foreign_address_is_local :
  IsLocalIP (Some (v4 0xC0A80015)) (UpdateLocalIPs (Some (Some (v4 0xC0A80105))) None) = true.
Proof. vm_compute. reflexivity. Qed.
