(* ===== verification/FirewallRules.v ===== *)
(** What the client's firewalls share: ports, networks and the keys of route rules, from
    [src/client/firewall/manager] and [src/client/internal/acl/id].

    Prefixes are valid here ([netip.ParsePrefix] made them); [sort.Slice] with an order that only
    identifies equal prefixes has one result, so it is an insertion sort. *)
From stdpp Require Import pretty.
From S2P Require Import Prelude GoText GoHash NetIP.
Open Scope Z_scope.

Record Port := { IsRange : bool; Values : list Z }.
#[export] Instance Port_eq_dec : EqDecision Port.
Proof. solve_decision. Defined.

Definition ProtocolTCP : string := "tcp".
Definition ProtocolUDP : string := "udp".
Definition ProtocolICMP : string := "icmp".
Definition ProtocolALL : string := "all".

Inductive Action := ActionAccept | ActionDrop.
#[export] Instance Action_eq_dec : EqDecision Action.
Proof. solve_decision. Defined.
Definition Action_Itoa (a : Action) : string := match a with ActionAccept => "0" | ActionDrop => "1" end.

Definition NewPort (ports : list Z) : option Port :=
  match ports with
  | [] => None
  | _ => if forallb (λ p, (1 <=? p) && (p <=? 65535)) ports
         then Some {| IsRange := bool_decide (1 < length ports)%nat; Values := ports |} else None
  end.

Definition ports_text (ports : list Z) : string :=
  foldl (λ s p, (if bool_decide (s = "") then s else s +:+ ",") +:+ pretty p) "" ports.
Definition Port_String (p : Port) : string :=
  (if IsRange p then "range:" else "") +:+ ports_text (Values p).

(** ** Text of addresses and prefixes ([net/netip]) *)
Definition hex_digit (d : Z) : string :=
  default "" (["0"; "1"; "2"; "3"; "4"; "5"; "6"; "7"; "8"; "9"; "a"; "b"; "c"; "d"; "e"; "f"] !! Z.to_nat d).
(** A group of 16 bits without leading zeros. *)
Definition hex16 (g : Z) : string :=
  (if 4096 <=? g then hex_digit (g / 4096) else "") +:+ (if 256 <=? g then hex_digit (g / 256 mod 16) else "")
  +:+ (if 16 <=? g then hex_digit (g / 16 mod 16) else "") +:+ hex_digit (g mod 16).
Definition groups_of (n : Z) : list Z := (λ i, Z.shiftr n (16 * (7 - Z.of_nat i)) mod 65536) <$> seq 0 8.

Fixpoint zero_run (gs : list Z) : nat := match gs with g :: gs => if g =? 0 then S (zero_run gs) else 0%nat | [] => 0%nat end.
(** Start and length of the first longest run of at least two zero groups. *)
Fixpoint longest_run (i : nat) (gs : list Z) (best : nat * nat) : nat * nat :=
  match gs with
  | [] => best
  | _ :: rest => longest_run (S i) rest (if bool_decide (2 ≤ zero_run gs ∧ best.2 < zero_run gs)%nat then (i, zero_run gs) else best)
  end.
Fixpoint join (sep : string) (l : list string) : string :=
  match l with [] => "" | [s] => s | s :: l => s +:+ sep +:+ join sep l end.

Definition dotted (n : Z) : string :=
  pretty (n / 2 ^ 24 mod 256) +:+ "." +:+ pretty (n / 2 ^ 16 mod 256) +:+ "." +:+ pretty (n / 2 ^ 8 mod 256)
  +:+ "." +:+ pretty (n mod 256).
Definition Addr_String (a : addr) : string :=
  if ad_v6 a then
    if Z.shiftr (ad_num a) 32 =? 0xFFFF then "::ffff:" +:+ dotted (ad_num a mod 2 ^ 32)
    else
      let gs := groups_of (ad_num a) in
      let '(i, n) := longest_run 0 gs (0%nat, 0%nat) in
      if bool_decide (n = 0%nat) then join ":" (hex16 <$> gs)
      else join ":" (hex16 <$> take i gs) +:+ "::" +:+ join ":" (hex16 <$> drop (i + n) gs)
  else dotted (ad_num a).
Definition px_addr_of (p : prefix) : addr := {| ad_v6 := px_v6 p; ad_num := px_addr p |}.
Definition Prefix_String (p : prefix) : string := Addr_String (px_addr_of p) +:+ "/" +:+ pretty (px_bits p).

(** ** Networks *)
Record FwSet := { set_hash : bytes; set_comment : string }.
#[export] Instance FwSet_eq_dec : EqDecision FwSet.
Proof. solve_decision. Defined.
Definition no_set : FwSet := {| set_hash := [x00; x00; x00; x00]; set_comment := "" |}.

Definition EncodeToString (b : bytes) : string :=
  foldr (λ x s, hex_digit (byte_Z x / 16) +:+ hex_digit (byte_Z x mod 16) +:+ s) "" b.
Definition HashedName (h : FwSet) : string := "nb-" +:+ EncodeToString (set_hash h).

Record FwNetwork := { fn_Set : FwSet; fn_Prefix : Prefix }.
Definition IsSet (d : FwNetwork) : bool := negb (bool_decide (fn_Set d = no_set)).
Definition IsPrefix (d : FwNetwork) : bool := NetIP.IsValid (fn_Prefix d).
Definition FwNetwork_String (d : FwNetwork) : string :=
  match fn_Prefix d with
  | Some p => Prefix_String p
  | None => if IsSet d then HashedName (fn_Set d) else "<invalid network>"
  end.

(** [Addr.Compare]: IPv4 before IPv6, then by number. *)
Definition addr_ltb (a b : addr) : bool :=
  match ad_v6 a, ad_v6 b with
  | false, true => true
  | true, false => false
  | _, _ => ad_num a <? ad_num b
  end.
(** By address, then longer prefixes first. *)
Definition prefix_leb (p q : prefix) : bool :=
  if addr_ltb (px_addr_of p) (px_addr_of q) then true
  else if addr_ltb (px_addr_of q) (px_addr_of p) then false
  else px_bits q <=? px_bits p.
Fixpoint insert_by {A} (leb : A → A → bool) (x : A) (l : list A) : list A :=
  match l with [] => [x] | y :: l => if leb x y then x :: y :: l else y :: insert_by leb x l end.
Definition sort_by {A} (leb : A → A → bool) (l : list A) : list A := foldr (insert_by leb) [] l.
Definition SortPrefixes (l : list prefix) : list prefix := sort_by prefix_leb l.

(** Only the last merged prefix is compared with the next one. *)
Fixpoint merge_loop (merged : list prefix) (last : prefix) (l : list prefix) : list prefix :=
  match l with
  | [] => merged ++ [last]
  | p :: l =>
      if Contains last (px_addr_of p) then merge_loop merged last l
      else if Contains p (px_addr_of last) then merge_loop merged p l
      else merge_loop (merged ++ [last]) p l
  end.
Definition MergeIPRanges (l : list prefix) : list prefix :=
  match l with [] => [] | p :: l => merge_loop [] p l end.

(** ** Keys of route rules *)
Definition opt_port_text (p : option Port) : string := match p with Some p => Port_String p | None => "<nil>" end.
Definition GenerateRouteRuleKey (sources : list prefix) (destination : FwNetwork) (proto : string)
    (sPort dPort : option Port) (action : Action) : string :=
  let text := "sources:" +:+ foldr (λ s t, Prefix_String s +:+ "," +:+ t) "" (SortPrefixes sources)
              +:+ "destination:" +:+ FwNetwork_String destination +:+ "proto:" +:+ proto
              +:+ "sPort:" +:+ opt_port_text sPort +:+ "dPort:" +:+ opt_port_text dPort +:+ "action:" +:+ Action_Itoa action in
  FwNetwork_String destination +:+ "-" +:+ String.substring 0 16 (EncodeToString (Sum256 (str text))).

(** ** Merging *)
Definition covered (l : list prefix) (a : addr) : Prop := ∃ p, p ∈ l ∧ Contains p a = true.

Lemma merge_loop_from merged last l p : p ∈ merge_loop merged last l → p ∈ merged ++ last :: l.
Proof.
  revert merged last. induction l as [|q l IH]; intros merged last; cbn; [done|].
  destruct (Contains last (px_addr_of q)); [|destruct (Contains q (px_addr_of last))]; intros Hp%IH; revert Hp;
    rewrite !elem_of_app, !elem_of_cons; rewrite ?list_elem_of_singleton, ?elem_of_nil; naive_solver.
Qed.
(** Merging never allows more than the ranges do. *)
Lemma merge_sound l a : covered (MergeIPRanges l) a → covered l a.
Proof.
  intros (p & Hp & Hc). exists p. split; [|done]. destruct l as [|q l]; [done|]. by apply merge_loop_from in Hp.
Qed.
(** But it may allow less: in the order of [SortPrefixes] a range is skipped when its first
    address lies in a smaller range before it. *)
Definition ten8 : prefix := {| px_v6 := false; px_addr := 167772160; px_bits := 8 |}.
Definition ten24 : prefix := {| px_v6 := false; px_addr := 167772160; px_bits := 24 |}.
Example merge_loses_range :
  MergeIPRanges (SortPrefixes [ten8; ten24]) = [ten24] ∧ Contains ten8 (v4 0x0A010203) = true ∧ Contains ten24 (v4 0x0A010203) = false.
Proof. vm_compute. auto. Qed.

Example address_texts :
  Addr_String (v4 0x64400001) = "100.64.0.1" ∧ Addr_String (v6 0) = "::" ∧ Addr_String (v6 1) = "::1"
  ∧ Addr_String (v6 0x20010db8000000010000000000000001) = "2001:db8:0:1::1"
  ∧ Addr_String (v6 0xfe800000000000000000000000000abc) = "fe80::abc".
Proof. vm_compute. auto. Qed.
