(* ===== verification/NetParse.v ===== *)
(** Parsing addresses and prefixes, as Go's [net] and [net/netip] do: [ParseAddr], [ParseIP] and
    [ParsePrefix].

    Addresses with a zone are not accepted here: every caller in the repository that parses
    through [ParseIP] or [ParsePrefix] refuses them. *)
From stdpp Require Import pretty.
From S2P Require Import Prelude GoText NetIP FirewallRules.
Open Scope Z_scope.

Definition dot : byte := x2e.
Definition colon : byte := x3a.
Definition slash : byte := x2f.
Definition percent : byte := x25.

(** [parseIPv4Fields]: the fields so far, the current one and how many digits it has. *)
Fixpoint v4_loop (s : bytes) (val : Z) (digLen : nat) (fields : list Z) : option Z :=
  match s with
  | [] => match fields with [a; b; c] => Some (a * 2 ^ 24 + b * 2 ^ 16 + c * 2 ^ 8 + val) | _ => None end
  | c :: rest =>
      match digit_val c with
      | Some d =>
          if bool_decide (digLen = 1%nat) && (val =? 0) then None
          else if 255 <? val * 10 + d then None
          else v4_loop rest (val * 10 + d) (S digLen) fields
      | None =>
          if bool_decide (c = dot) then
            if bool_decide (digLen = 0%nat) || bool_decide (rest = []) || bool_decide (length fields = 3%nat) then None
            else v4_loop rest 0 0 (fields ++ [val])
          else None
      end
  end.
Definition parseIPv4 (s : bytes) : option Z := if bool_decide (s = []) then None else v4_loop s 0 0 [].

Definition hex_value (c : byte) : option Z :=
  let z := byte_Z c in
  if (48 <=? z) && (z <=? 57) then Some (z - 48)
  else if (97 <=? z) && (z <=? 102) then Some (z - 97 + 10)
  else if (65 <=? z) && (z <=? 70) then Some (z - 65 + 10) else None.
(** Up to four hexadecimal digits: their value, their number and the rest. *)
Fixpoint hex_run (s : bytes) (acc : Z) (off : nat) : option (Z * nat * bytes) :=
  match s with
  | c :: rest =>
      match hex_value c with
      | Some d => if bool_decide (3 < off)%nat then None else hex_run rest (acc * 16 + d) (S off)
      | None => Some (acc, off, s)
      end
  | [] => Some (acc, off, [])
  end.
Definition be4 (n : Z) : bytes := As4 (v4 n).

(** The groups of an IPv6 address: the bytes, where the ellipsis is, and what is left. *)
Fixpoint v6_loop (fuel : nat) (s ip : bytes) (ellipsis : option nat) : option (bytes * option nat * bytes) :=
  match fuel with
  | O => Some (ip, ellipsis, s)
  | S fuel =>
      if bool_decide (16 ≤ length ip)%nat then Some (ip, ellipsis, s)
      else
        '(acc, off, rest) ← hex_run s 0 0;
        if bool_decide (off = 0%nat) then None
        else if bool_decide (head rest = Some dot) then
          if (bool_decide (ellipsis = None) && bool_decide (length ip ≠ 12%nat)) || bool_decide (16 < length ip + 4)%nat then None
          else n ← parseIPv4 s; Some (ip ++ be4 n, ellipsis, [])
        else
          let ip := ip ++ [Z_byte (Z.shiftr acc 8); Z_byte acc] in
          match rest with
          | [] => Some (ip, ellipsis, [])
          | c :: rest =>
              if negb (bool_decide (c = colon)) then None
              else
                match rest with
                | [] => None
                | c2 :: rest2 =>
                    if bool_decide (c2 = colon) then
                      if bool_decide (is_Some ellipsis) then None
                      else if bool_decide (rest2 = []) then Some (ip, Some (length ip), [])
                      else v6_loop fuel rest2 ip (Some (length ip))
                    else v6_loop fuel rest ip ellipsis
                end
          end
  end.
Definition v6_finish (r : bytes * option nat * bytes) : option Z :=
  let '(ip, ellipsis, rest) := r in
  if negb (bool_decide (rest = [])) then None
  else if bool_decide (length ip < 16)%nat then
    e ← ellipsis; Some (be_Z (take e ip ++ replicate (16 - length ip) x00 ++ drop e ip))
  else if bool_decide (is_Some ellipsis) then None else Some (be_Z ip).
Definition parseIPv6 (s : bytes) : option Z :=
  match s with
  | c1 :: c2 :: rest =>
      if bool_decide (c1 = colon ∧ c2 = colon) then
        if bool_decide (rest = []) then Some 0 else v6_loop 8 rest [] (Some 0%nat) ≫= v6_finish
      else v6_loop 8 s [] None ≫= v6_finish
  | _ => v6_loop 8 s [] None ≫= v6_finish
  end.

(** The first of these characters tells the family. *)
Fixpoint family (s : bytes) : option bool :=
  match s with
  | [] => None
  | c :: rest => if bool_decide (c = dot) then Some false else if bool_decide (c = colon) then Some true
                 else if bool_decide (c = percent) then None else family rest
  end.
Definition ParseAddr (s : bytes) : Addr :=
  match family s with
  | Some false => v4 <$> parseIPv4 s
  | Some true => if bool_decide (percent ∈ s) then None else v6 <$> parseIPv6 s
  | None => None
  end.

(** [net.ParseIP]: sixteen bytes, an IPv4 address in its mapped form. *)
Definition be16 (n : Z) : bytes := be4 (Z.shiftr n 96) ++ be4 (Z.shiftr n 64) ++ be4 (Z.shiftr n 32) ++ be4 n.
Definition As16 (a : addr) : bytes :=
  if ad_v6 a then be16 (ad_num a) else replicate 10 x00 ++ [xff; xff] ++ be4 (ad_num a).
Definition ParseIP (s : string) : option bytes := As16 <$> ParseAddr (str s).

(** What is before and after the last slash. *)
Fixpoint last_slash (s : bytes) : option (bytes * bytes) :=
  match s with
  | [] => None
  | c :: rest =>
      match last_slash rest with
      | Some (a, b) => Some (c :: a, b)
      | None => if bool_decide (c = slash) then Some ([], rest) else None
      end
  end.
Definition ParsePrefix (s : string) : Prefix :=
  '(a, bits) ← last_slash (str s);
  a ← ParseAddr a;
  if bool_decide (1 < length bits)%nat && negb (bool_decide (default 0 (head bits ≫= digit_val) ≠ 0)) then None
  else
    n ← ParseInt bits;
    if (n <? 0) || ((if ad_v6 a then 128 else 32) <? n) then None
    else Some {| px_v6 := ad_v6 a; px_addr := ad_num a; px_bits := n |}.

Example parsed_addresses :
  ParseAddr (str "100.64.0.1") = Some (v4 0x64400001) ∧ ParseAddr (str "1.2.3") = None ∧ ParseAddr (str "1.2.3.04") = None
  ∧ ParseAddr (str "1.2.3.256") = None ∧ ParseAddr (str "::") = Some (v6 0) ∧ ParseAddr (str "::1") = Some (v6 1)
  ∧ ParseAddr (str "2001:db8::1") = Some (v6 0x20010db8000000000000000000000001) ∧ ParseAddr (str "1::2::3") = None
  ∧ ParseAddr (str "::ffff:1.2.3.4") = Some (v6 0xffff01020304) ∧ ParseAddr (str "1:2:3:4:5:6:7:8:9") = None
  ∧ ParsePrefix "10.0.0.0/8" = Some {| px_v6 := false; px_addr := 0x0A000000; px_bits := 8 |}
  ∧ ParsePrefix "10.0.0.0/08" = None ∧ ParsePrefix "::/0" = Some {| px_v6 := true; px_addr := 0; px_bits := 0 |}
  ∧ ParsePrefix "1.2.3.4/33" = None ∧ ParsePrefix "1.2.3.4" = None.
Proof. vm_compute. repeat split; reflexivity. Qed.

(** ** Printing and parsing again *)
Lemma str_app s t : str (s +:+ t) = str s ++ str t.
Proof.
  unfold str. induction s as [|c s IH]; [done|]. change (String c s +:+ t) with (String c (s +:+ t)).
  change (String.list_byte_of_string (String c ?x)) with (Ascii.byte_of_ascii c :: String.list_byte_of_string x). by rewrite IH.
Qed.

(** Reading the digits of one field. *)
Fixpoint read_digits (ds : bytes) (val : Z) (n : nat) : option (Z * nat) :=
  match ds with
  | [] => Some (val, n)
  | c :: ds =>
      match digit_val c with
      | Some d => if bool_decide (n = 1%nat) && (val =? 0) then None
                  else if 255 <? val * 10 + d then None else read_digits ds (val * 10 + d) (S n)
      | None => None
      end
  end.
Lemma v4_loop_digits ds rest val n val' n' fields : read_digits ds val n = Some (val', n') →
  v4_loop (ds ++ rest) val n fields = v4_loop rest val' n' fields.
Proof.
  revert val n. induction ds as [|c ds IH]; intros val n; cbn; [by intros [= -> ->]|]. destruct (digit_val c) as [d|]; [|done].
  destruct (_ && _); [done|]. destruct (255 <? _); [done|]. apply IH.
Qed.
Definition octets : list Z := Z.of_nat <$> seq 0 256.
Lemma octet_read : Forall (λ o, match read_digits (str (pretty o)) 0 0 with
                                | Some (v, S _) => v = o | _ => False end) octets.
Proof.
  assert (H : forallb (λ o, match read_digits (str (pretty o)) 0 0 with Some (v, S _) => v =? o | _ => false end) octets = true)
    by (vm_compute; reflexivity).
  apply Forall_forall. intros o Ho%list_elem_of_In. rewrite forallb_forall in H. specialize (H o Ho).
  destruct (read_digits _ _ _) as [[v [|n]]|]; [done| |done]. lia.
Qed.
Lemma octet_field o : 0 ≤ o < 256 → ∃ n, read_digits (str (pretty o)) 0 0 = Some (o, S n).
Proof.
  intros Ho. assert (Hin : o ∈ octets).
  { unfold octets. apply list_elem_of_fmap. exists (Z.to_nat o). split; [lia|]. apply elem_of_seq. lia. }
  pose proof octet_read as H. rewrite Forall_forall in H. specialize (H o Hin).
  destruct (read_digits (str (pretty o)) 0 0) as [[v [|n]]|]; [done| |done]. exists n. by rewrite H.
Qed.

Lemma octets_sum n : 0 ≤ n < 2 ^ 32 →
  (n / 2 ^ 24 mod 256) * 2 ^ 24 + (n / 2 ^ 16 mod 256) * 2 ^ 16 + (n / 2 ^ 8 mod 256) * 2 ^ 8 + n mod 256 = n.
Proof.
  intros Hn. change (2 ^ 24) with 16777216. change (2 ^ 16) with 65536. change (2 ^ 8) with 256.
  rewrite (Z.mod_small (n / 16777216)) by (split; [apply Z.div_pos; lia|apply Z.div_lt_upper_bound; lia]).
  pose proof (Z.div_mod n 256). pose proof (Z.div_mod (n / 256) 256) as H1. pose proof (Z.div_mod (n / 65536) 256) as H2.
  rewrite Z.div_div in H1 by lia. rewrite Z.div_div in H2 by lia. change (256 * 256) with 65536 in H1. change (65536 * 256) with 16777216 in H2.
  lia.
Qed.
Lemma field_pretty o rest fields : 0 ≤ o < 256 → rest ≠ [] → (length fields < 3)%nat →
  v4_loop (str (pretty o) ++ dot :: rest) 0 0 fields = v4_loop rest 0 0 (fields ++ [o]).
Proof.
  intros Ho Hr Hf. destruct (octet_field o Ho) as [n Hn]. rewrite (v4_loop_digits _ _ _ _ _ _ _ Hn). cbn.
  change (digit_val dot) with (@None Z). rewrite (bool_decide_eq_true_2 (dot = dot)) by done.
  rewrite (bool_decide_eq_false_2 (rest = [])), (bool_decide_eq_false_2 (length fields = 3%nat)) by (done || lia). done.
Qed.

Lemma pretty_octet_nonempty o : 0 ≤ o < 256 → str (pretty o) ≠ [].
Proof. intros Ho E. destruct (octet_field o Ho) as [n Hn]. by rewrite E in Hn. Qed.
Lemma parse_dotted n : 0 ≤ n < 2 ^ 32 → parseIPv4 (str (dotted n)) = Some n.
Proof.
  intros Hn. unfold dotted. rewrite !str_app. change (str ".") with [dot]. cbn [app].
  assert (Hb : ∀ x, 0 ≤ x mod 256 < 256) by (intros x; apply Z.mod_pos_bound; lia).
  assert (Hne : ∀ (a b : bytes) c, a ++ c :: b ≠ []) by (by intros []).
  unfold parseIPv4. rewrite bool_decide_eq_false_2 by apply Hne.
  do 3 rewrite field_pretty by (apply Hb || apply Hne || (by apply pretty_octet_nonempty) || (cbn; lia)).
  destruct (octet_field (n mod 256) (Hb n)) as [k Hk]. rewrite <- (app_nil_r (str (pretty (n mod 256)))).
  rewrite (v4_loop_digits _ _ _ _ _ _ _ Hk). cbn [v4_loop app]. f_equal. by apply octets_sum.
Qed.
