(* ===== verification/PeerAcl.v ===== *)
(** The rule tables of the user-space packet filter and what they decide:
    [src/client/firewall/uspfilter/filter.go] and [rule.go].

    The tables are maps; the source ranges over a rule set in an unspecified order, which is the
    argument [order] of [validateRule]'s callers.  [uuid.New] is an argument.  The mutex of the
    manager makes every operation atomic. *)
From S2P Require Import Prelude GoText NetIP PacketNat FirewallRules.
Open Scope Z_scope.

Record PeerRule := {
  pr_id : string; pr_mgmtId : option string; pr_ip : addr; ipLayer : layer; matchByIP : bool; protoLayer : layer;
  sPort : option Port; dPort : option Port; drop_ : bool }.
#[export] Instance PeerRule_eq_dec : EqDecision PeerRule.
Proof. solve_decision. Defined.

Record RouteRule := {
  rr_id : string; rr_mgmtId : option string; sources : list prefix; dstSet : FwSet; destinations : list prefix;
  rr_protoLayer : layer; srcPort : option Port; dstPort : option Port; action : Action }.

Abbreviation RuleSet := (gmap string PeerRule).
(** [routeRulesMap] has the pointers of [routeRules] under their ids: here, the set of its keys. *)
Record Rules := {
  incomingDenyRules : gmap addr RuleSet; incomingRules : gmap addr RuleSet;
  routeRules : list RouteRule; routeRulesMap : gset string }.
Definition no_rules : Rules := {| incomingDenyRules := ∅; incomingRules := ∅; routeRules := []; routeRulesMap := ∅ |}.

Definition protoToLayer (proto : string) (ipLayer : layer) : layer :=
  if bool_decide (proto = ProtocolTCP) then LayerTypeTCP
  else if bool_decide (proto = ProtocolUDP) then LayerTypeUDP
  else if bool_decide (proto = ProtocolICMP) then
    if bool_decide (ipLayer = LayerTypeIPv6) then LayerTypeICMPv6 else LayerTypeICMPv4
  else if bool_decide (proto = ProtocolALL) then layerTypeAll
  else LayerTypeZero.

(** ** Peer rules *)
Inductive rule_err := errInvalidIP | errNoSuchRule | errNoRouteRule | errNoRuleForSet.

Definition unspecified (a : addr) : bool := bool_decide (a = IPv4Unspecified) || bool_decide (a = IPv6Unspecified).

Definition new_peer_rule (uuid : string) (id : option string) (i : addr) (proto : string) (sp dp : option Port) (act : Action)
    : PeerRule :=
  let l := if ad_v6 i then LayerTypeIPv6 else LayerTypeIPv4 in
  {| pr_id := uuid; pr_mgmtId := id; pr_ip := i; ipLayer := l; matchByIP := negb (unspecified i);
     protoLayer := protoToLayer proto l; sPort := sp; dPort := dp; drop_ := bool_decide (act = ActionDrop) |}.

Definition add_rule (r : PeerRule) (m : gmap addr RuleSet) : gmap addr RuleSet :=
  <[pr_ip r := <[pr_id r := r]> (default ∅ (m !! pr_ip r))]> m.
Definition set_incoming (deny allow : gmap addr RuleSet) (t : Rules) : Rules :=
  {| incomingDenyRules := deny; incomingRules := allow; routeRules := routeRules t; routeRulesMap := routeRulesMap t |}.
Definition set_route (rs : list RouteRule) (ks : gset string) (t : Rules) : Rules :=
  {| incomingDenyRules := incomingDenyRules t; incomingRules := incomingRules t; routeRules := rs; routeRulesMap := ks |}.

Definition AddPeerFiltering (uuid : string) (id : option string) (ip : bytes) (proto : string) (sp dp : option Port)
    (act : Action) (t : Rules) : outcome rule_err (PeerRule * Rules) :=
  match AddrFromSlice ip with
  | None => Err errInvalidIP
  | Some i =>
      let r := new_peer_rule uuid id (unmap i) proto sp dp act in
      Ret (r, if drop_ r then set_incoming (add_rule r (incomingDenyRules t)) (incomingRules t) t
              else set_incoming (incomingDenyRules t) (add_rule r (incomingRules t)) t)
  end.

(** [None]: there is no such rule. *)
Definition delete_rule (r : PeerRule) (m : gmap addr RuleSet) : option (gmap addr RuleSet) :=
  ruleset ← m !! pr_ip r;
  _ ← ruleset !! pr_id r;
  let ruleset := delete (pr_id r) ruleset in
  Some (if bool_decide (size ruleset = 0%nat) then delete (pr_ip r) m else <[pr_ip r := ruleset]> m).

Definition DeletePeerRule (r : PeerRule) (t : Rules) : outcome rule_err Rules :=
  if drop_ r then
    match delete_rule r (incomingDenyRules t) with
    | Some deny => Ret (set_incoming deny (incomingRules t) t)
    | None => Err errNoSuchRule
    end
  else
    match delete_rule r (incomingRules t) with
    | Some allow => Ret (set_incoming (incomingDenyRules t) allow t)
    | None => Err errNoSuchRule
    end.

(** ** Matching *)
Definition portsMatch (rulePort : option Port) (packetPort : Z) : outcome Empty_set bool :=
  match rulePort with
  | None => Ret true
  | Some p =>
      if IsRange p then
        lo ← index 0 (Values p);
        if lo <=? packetPort then hi ← index 1 (Values p); Ret (packetPort <=? hi) else Ret false
      else Ret (bool_decide (packetPort ∈ Values p))
  end.

(** The ports the decoder holds for a layer. *)
Definition src_port (l : layer) (d : decoder) : Z := match l with LayerTypeTCP => tcp_SrcPort d | _ => udp_SrcPort d end.
Definition dst_port (l : layer) (d : decoder) : Z := match l with LayerTypeTCP => tcp_DstPort d | _ => udp_DstPort d end.

Definition transport_applies (payloadLayer : layer) (d : decoder) (r : PeerRule) : outcome Empty_set bool :=
  if bool_decide (protoLayer r = layerTypeAll) then Ret true
  else if negb (bool_decide (payloadLayer = protoLayer r)) then Ret false
  else
    match payloadLayer with
    | LayerTypeTCP | LayerTypeUDP =>
        s ← portsMatch (sPort r) (src_port payloadLayer d);
        if s : bool then portsMatch (dPort r) (dst_port payloadLayer d) else Ret false
    | LayerTypeICMPv4 | LayerTypeICMPv6 => Ret true
    | _ => Ret false
    end.
Definition rule_applies (ip : Addr) (payloadLayer : layer) (d : decoder) (r : PeerRule) : outcome Empty_set bool :=
  if matchByIP r && negb (bool_decide (ip = Some (pr_ip r))) then Ret false
  else transport_applies payloadLayer d r.

(** The first rule that applies: its id and verdict. *)
Fixpoint validateRule (ip : Addr) (rules : list PeerRule) (payloadLayer : layer) (d : decoder)
    : outcome Empty_set (option (option string * bool)) :=
  match rules with
  | [] => Ret None
  | r :: rules =>
      b ← rule_applies ip payloadLayer d r;
      if b : bool then Ret (Some (pr_mgmtId r, drop_ r)) else validateRule ip rules payloadLayer d
  end.

Definition isSpecialICMP (d : decoder) : bool :=
  bool_decide (transport d = Some LayerTypeICMPv4) && ((icmp4_Type d =? 3) || (icmp4_Type d =? 11)).

Definition rules_of (m : gmap addr RuleSet) (a : Addr) : RuleSet := default ∅ (a ≫= (m !!.)).

(** The rule that decided, and whether the packet is blocked. *)
Definition peerACLsBlock (order : RuleSet → list PeerRule) (srcIP : Addr) (d : decoder) (t : Rules)
    : outcome Empty_set (option string * bool) :=
  if isSpecialICMP d then Ret (None, false)
  else
    payloadLayer ← index 1 (decoded d);
    let try := λ m a k, v ← validateRule srcIP (order (rules_of m a)) payloadLayer d;
                        match v with Some r => Ret r | None => k end in
    try (incomingDenyRules t) srcIP
      (try (incomingRules t) srcIP
        (try (incomingRules t) (Some IPv4Unspecified)
          (try (incomingRules t) (Some IPv6Unspecified) (Ret (None, true))))).

(** ** What the peer rules decide *)
Definition port_wf (p : option Port) : Prop := ∀ q, p = Some q → IsRange q = true → (2 ≤ length (Values q))%nat.
Definition port_ok (p : option Port) (x : Z) : Prop :=
  match p with
  | None => True
  | Some q => if IsRange q then ∃ lo hi rest, Values q = lo :: hi :: rest ∧ lo ≤ x ≤ hi else x ∈ Values q
  end.

(** A rule is about the packet's transport: protocol and ports. *)
Definition covers (l : layer) (d : decoder) (r : PeerRule) : Prop :=
  protoLayer r = layerTypeAll
  ∨ protoLayer r = l ∧ match l with
                       | LayerTypeTCP | LayerTypeUDP => port_ok (sPort r) (src_port l d) ∧ port_ok (dPort r) (dst_port l d)
                       | LayerTypeICMPv4 | LayerTypeICMPv6 => True
                       | _ => False
                       end.

Definition has_rule (m : gmap addr RuleSet) (r : PeerRule) : Prop := rules_of m (Some (pr_ip r)) !! pr_id r = Some r.

Record table_wf (drops : bool) (m : gmap addr RuleSet) : Prop := {
  wf_key : ∀ a i r, rules_of m (Some a) !! i = Some r → pr_ip r = a ∧ pr_id r = i;
  wf_rule : ∀ r, has_rule m r → port_wf (sPort r) ∧ port_wf (dPort r) ∧ drop_ r = drops
              ∧ matchByIP r = negb (unspecified (pr_ip r)) }.
Definition rules_wf (t : Rules) : Prop := table_wf true (incomingDenyRules t) ∧ table_wf false (incomingRules t).

Lemma portsMatch_spec p x : port_wf p → ∃ b, portsMatch p x = Ret b ∧ (b = true ↔ port_ok p x).
Proof.
  intros Hp. destruct p as [q|]; cbn; [|by exists true]. specialize (Hp q eq_refl).
  destruct (IsRange q); [|eexists; split; [done|apply bool_decide_eq_true]].
  specialize (Hp eq_refl). destruct (Values q) as [|lo [|hi rest]] eqn:Hv; cbn in Hp; try lia. cbn.
  destruct (Z.leb_spec lo x).
  - eexists. split; [reflexivity|]. rewrite Z.leb_le. split; [intros ?; by exists lo, hi, rest|].
    intros (? & ? & ? & [= <- <- _] & ?). lia.
  - exists false. split; [done|]. split; [done|]. intros (? & ? & ? & [= <- _ _] & ?). lia.
Qed.

Lemma transport_applies_spec l d r : port_wf (sPort r) → port_wf (dPort r) →
  ∃ b, transport_applies l d r = Ret b ∧ (b = true ↔ covers l d r).
Proof.
  intros Hs Hd. unfold transport_applies, covers.
  destruct (decide (protoLayer r = layerTypeAll)) as [Ha|Ha]; [rewrite bool_decide_eq_true_2 by done; exists true; tauto|].
  rewrite bool_decide_eq_false_2 by done. destruct (decide (l = protoLayer r)) as [Hl|Hl].
  2:{ rewrite bool_decide_eq_false_2 by done. exists false. split; [done|]. split; [done|]. intros [?|[? _]]; congruence. }
  rewrite bool_decide_eq_true_2 by done. cbn [negb].
  destruct (portsMatch_spec (sPort r) (src_port l d) Hs) as (bs & Es & Hbs).
  destruct (portsMatch_spec (dPort r) (dst_port l d) Hd) as (bd & Ed & Hbd).
  destruct l; cbn beta iota; try (eexists; split; [reflexivity|]; by intuition congruence);
    rewrite Es; cbn [mbind outcome_bind]; (destruct bs; [rewrite Ed|]); eexists; (split; [reflexivity|]); intuition congruence.
Qed.

Lemma rule_applies_spec ip l d r : port_wf (sPort r) → port_wf (dPort r) →
  ∃ b, rule_applies ip l d r = Ret b ∧ (b = true ↔ (matchByIP r = true → ip = Some (pr_ip r)) ∧ covers l d r).
Proof.
  intros Hs Hd. destruct (transport_applies_spec l d r Hs Hd) as (b & Hb & Hiff). unfold rule_applies.
  destruct (matchByIP r); cbn [andb]; [|exists b; intuition congruence]. case_bool_decide as Hip; cbn [negb].
  - exists b. intuition congruence.
  - exists false. split; [done|]. split; [done|]. intros [H _]. by destruct Hip; apply H.
Qed.

Lemma validateRule_spec ip l d rs : (∀ r, r ∈ rs → port_wf (sPort r) ∧ port_wf (dPort r)) →
  match validateRule ip rs l d with
  | Ret (Some (i, v)) => ∃ r, r ∈ rs ∧ (matchByIP r = true → ip = Some (pr_ip r)) ∧ covers l d r ∧ i = pr_mgmtId r ∧ v = drop_ r
  | Ret None => ∀ r, r ∈ rs → (matchByIP r = true → ip = Some (pr_ip r)) → ¬ covers l d r
  | _ => False
  end.
Proof.
  induction rs as [|r rs IH]; intros Hwf; cbn; [by intros r ?%not_elem_of_nil|].
  destruct (Hwf r) as [Hs Hd]; [by left|]. destruct (rule_applies_spec ip l d r Hs Hd) as (b & -> & Hb). cbn [mbind outcome_bind].
  destruct b; [exists r; split; [by left|]; naive_solver|].
  specialize (IH ltac:(intros r' Hr; apply Hwf; by right)).
  destruct (validateRule ip rs l d) as [[[i v]|]|[]|]; [| |done].
  - destruct IH as (r' & ? & ?). exists r'. split; [by right|done].
  - intros r' [->|Hr]%elem_of_cons; [|by apply IH]. intros Hm Hc. discriminate (proj2 Hb (conj Hm Hc)).
Qed.

(** A rule of the table is for this source and covers the packet. *)
Definition matched (m : gmap addr RuleSet) (a : addr) (l : layer) (d : decoder) : Prop :=
  ∃ r, has_rule m r ∧ pr_ip r = a ∧ covers l d r.

Section decision.
Context (order : RuleSet → list PeerRule) (Horder : ∀ rs r, r ∈ order rs ↔ ∃ i, rs !! i = Some r).

Lemma try_rules drops m src a l d : table_wf drops m → a = src ∨ unspecified a = true →
  match validateRule (Some src) (order (rules_of m (Some a))) l d with
  | Ret (Some (_, v)) => v = drops ∧ matched m a l d
  | Ret None => ¬ matched m a l d
  | _ => False
  end.
Proof.
  intros [Hk Hr] Ha.
  assert (Hrs : ∀ r, r ∈ order (rules_of m (Some a)) → has_rule m r ∧ pr_ip r = a).
  { intros r (i & Hi)%Horder. destruct (Hk _ _ _ Hi) as [Ea Ei]. unfold has_rule. rewrite Ea, Ei. done. }
  assert (Hsrc : ∀ r, has_rule m r → pr_ip r = a → matchByIP r = true → Some src = Some (pr_ip r)).
  { intros r Hm Ea Hmb. destruct (Hr r Hm) as (_ & _ & _ & Hmm). rewrite Hmm, Ea in Hmb.
    destruct Ha as [->|Hu]; [by rewrite Ea|by rewrite Hu in Hmb]. }
  pose proof (validateRule_spec (Some src) l d (order (rules_of m (Some a)))) as H.
  destruct (validateRule _ _ _ _) as [[[i v]|]|[]|].
  - destruct H as (r & Hin & Hip & Hc & _ & ->); [intros r Hin; destruct (Hrs r Hin) as [Hm _]; by destruct (Hr r Hm) as (? & ? & _)|].
    destruct (Hrs r Hin) as [Hm Ea]. destruct (Hr r Hm) as (_ & _ & Hd & _). split; [done|]. by exists r.
  - intros (r & Hm & Ea & Hc). eapply H; [intros r' Hin; destruct (Hrs r' Hin) as [Hm' _]; by destruct (Hr r' Hm') as (? & ? & _)| | |exact Hc].
    + apply Horder. exists (pr_id r). unfold has_rule in Hm. by rewrite Ea in Hm.
    + by apply Hsrc.
  - apply H. intros r' Hin. destruct (Hrs r' Hin) as [Hm' _]. by destruct (Hr r' Hm') as (? & ? & _).
Qed.

(** The packet is let through: no drop rule for its source covers it, and an accept rule for its
    source or for every source does. *)
Definition admitted_by (t : Rules) (src : addr) (l : layer) (d : decoder) : Prop :=
  ¬ matched (incomingDenyRules t) src l d
  ∧ (matched (incomingRules t) src l d ∨ matched (incomingRules t) IPv4Unspecified l d
     ∨ matched (incomingRules t) IPv6Unspecified l d).

Lemma peer_acl_decides t src d l (Hwf : rules_wf t) (Hl : transport d = Some l) :
  ∃ i b, peerACLsBlock order (Some src) d t = Ret (i, b) ∧ (b = false ↔ isSpecialICMP d = true ∨ admitted_by t src l d).
Proof.
  destruct Hwf as [Hden Hall]. unfold peerACLsBlock. destruct (isSpecialICMP d); [exists None, false; tauto|].
  unfold index. unfold transport in Hl. rewrite Hl. cbn [mbind outcome_bind].
  pose proof (try_rules true _ src src l d Hden (or_introl eq_refl)) as H1.
  pose proof (try_rules false _ src src l d Hall (or_introl eq_refl)) as H2.
  pose proof (try_rules false _ src IPv4Unspecified l d Hall (or_intror eq_refl)) as H3.
  pose proof (try_rules false _ src IPv6Unspecified l d Hall (or_intror eq_refl)) as H4. unfold admitted_by.
  destruct (validateRule (Some src) (order (rules_of (incomingDenyRules t) (Some src))) l d) as [[[i v]|]|[]|]; [| |done].
  { destruct H1 as [-> H1]. exists i, true. split; [done|]. split; [done|]. intros [?|[? _]]; done. }
  cbn [mbind outcome_bind].
  destruct (validateRule (Some src) (order (rules_of (incomingRules t) (Some src))) l d) as [[[i v]|]|[]|]; [| |done].
  { destruct H2 as [-> H2]. exists i, false. tauto. }
  cbn [mbind outcome_bind].
  destruct (validateRule (Some src) (order (rules_of (incomingRules t) (Some IPv4Unspecified))) l d) as [[[i v]|]|[]|]; [| |done].
  { destruct H3 as [-> H3]. exists i, false. tauto. }
  cbn [mbind outcome_bind].
  destruct (validateRule (Some src) (order (rules_of (incomingRules t) (Some IPv6Unspecified))) l d) as [[[i v]|]|[]|]; [| |done].
  { destruct H4 as [-> H4]. exists i, false. tauto. }
  exists None, true. split; [done|]. split; [done|]. intros [?|[_ [?|[?|?]]]]; done.
Qed.
End decision.

(** ** The rule operations keep the tables well formed *)
Lemma rules_of_insert a rs (m : gmap addr RuleSet) b : rules_of (<[a := rs]> m) (Some b) = if decide (b = a) then rs else rules_of m (Some b).
Proof.
  unfold rules_of. cbn. destruct (decide (b = a)) as [->|]; [by rewrite lookup_insert_eq|by rewrite lookup_insert_ne].
Qed.
Lemma rules_of_delete a (m : gmap addr RuleSet) b : rules_of (delete a m) (Some b) = if decide (b = a) then ∅ else rules_of m (Some b).
Proof.
  unfold rules_of. cbn. destruct (decide (b = a)) as [->|]; [by rewrite lookup_delete_eq|by rewrite lookup_delete_ne].
Qed.

(** The rule sets after an addition and a removal. *)
Lemma rules_of_add r m b : rules_of (add_rule r m) (Some b) = if decide (b = pr_ip r) then <[pr_id r := r]> (rules_of m (Some b)) else rules_of m (Some b).
Proof. unfold add_rule. rewrite rules_of_insert. destruct (decide (b = pr_ip r)) as [->|]; done. Qed.
Lemma rules_of_remove r m m' b : delete_rule r m = Some m' →
  rules_of m' (Some b) = if decide (b = pr_ip r) then delete (pr_id r) (rules_of m (Some b)) else rules_of m (Some b).
Proof.
  unfold delete_rule. destruct (m !! pr_ip r) as [rs|] eqn:Hm; [|done]. cbn [mbind option_bind].
  destruct (rs !! pr_id r); [|done]. cbn [mbind option_bind].
  intros [= <-]. destruct (decide (size (delete (pr_id r) rs) = 0%nat)) as [Hs|Hs];
    [rewrite bool_decide_eq_true_2 by done|rewrite bool_decide_eq_false_2 by done].
  - rewrite rules_of_delete. destruct (decide (b = pr_ip r)) as [->|]; [|done]. unfold rules_of. cbn. rewrite Hm. cbn.
    by apply map_size_empty_inv in Hs.
  - rewrite rules_of_insert. destruct (decide (b = pr_ip r)) as [->|]; [|done]. unfold rules_of. cbn. by rewrite Hm.
Qed.
Lemma delete_rule_None r m : delete_rule r m = None ↔ rules_of m (Some (pr_ip r)) !! pr_id r = None.
Proof.
  unfold delete_rule, rules_of. cbn. destruct (m !! pr_ip r) as [rs|]; cbn; [|by rewrite lookup_empty].
  by destruct (rs !! pr_id r).
Qed.

Lemma add_wf drops r m : table_wf drops m → port_wf (sPort r) → port_wf (dPort r) → drop_ r = drops →
  matchByIP r = negb (unspecified (pr_ip r)) → table_wf drops (add_rule r m).
Proof.
  intros [Hk Hr] Hs Hd Hdr Hm. split.
  - intros a i q. rewrite rules_of_add. destruct (decide (a = pr_ip r)) as [->|]; [|apply Hk].
    intros [[<- <-]|[_ Hq]]%lookup_insert_Some; [done|by apply Hk].
  - intros q. unfold has_rule. rewrite rules_of_add. destruct (decide (pr_ip q = pr_ip r)) as [Ea|]; [|apply Hr].
    intros [[_ <-]|[_ Hq]]%lookup_insert_Some; [done|by apply Hr].
Qed.
Lemma remove_wf drops r m m' : table_wf drops m → delete_rule r m = Some m' → table_wf drops m'.
Proof.
  intros [Hk Hr] H. split.
  - intros a i q. rewrite (rules_of_remove _ _ _ _ H). destruct (decide (a = pr_ip r)) as [->|]; [|apply Hk].
    intros [_ Hq]%lookup_delete_Some. by apply Hk.
  - intros q. unfold has_rule. rewrite (rules_of_remove _ _ _ _ H). destruct (decide (pr_ip q = pr_ip r)); [|apply Hr].
    intros [_ Hq]%lookup_delete_Some. by apply Hr.
Qed.

Lemma AddPeerFiltering_wf uuid id ip proto sp dp act t r t' : rules_wf t → port_wf sp → port_wf dp →
  AddPeerFiltering uuid id ip proto sp dp act t = Ret (r, t') → rules_wf t'.
Proof.
  intros [Hd Ha] Hs Hp. unfold AddPeerFiltering. destruct (AddrFromSlice ip) as [i|]; [|done].
  assert (Hr : ∃ q, q = new_peer_rule uuid id (unmap i) proto sp dp act ∧ port_wf (sPort q) ∧ port_wf (dPort q)
                    ∧ matchByIP q = negb (unspecified (pr_ip q))) by (by eexists).
  destruct Hr as (q & <- & Hqs & Hqd & Hqm).
  destruct (drop_ q) eqn:Hq; intros [= <- <-]; split; try exact Ha; try exact Hd; by apply add_wf.
Qed.
Lemma DeletePeerRule_wf r t t' : rules_wf t → DeletePeerRule r t = Ret t' → rules_wf t'.
Proof.
  intros [Hd Ha]. unfold DeletePeerRule. destruct (drop_ r).
  - destruct (delete_rule r (incomingDenyRules t)) eqn:H; [|done]. intros [= <-]. split; cbn; [by eapply remove_wf|done].
  - destruct (delete_rule r (incomingRules t)) eqn:H; [|done]. intros [= <-]. split; cbn; [done|by eapply remove_wf].
Qed.
Lemma no_rules_wf : rules_wf no_rules.
Proof. split; (split; [intros a i r H|intros r H]; [|unfold has_rule in H]; unfold rules_of in H; cbn in H; by rewrite lookup_empty in H). Qed.
