(* ===== verification/RouteAcl.v ===== *)
(** The route rules of the user-space packet filter and what they decide:
    [src/client/firewall/uspfilter/filter.go].

    A rule of the list is a pointer that [routeRulesMap] has too; rules are changed only by
    [UpdateSet], which reaches them through the list, so the map is the set of their keys.
    [delegated] says that the native firewall routes: the request is then passed on to it and
    the tables stay as they are.  [slices.SortStableFunc] and [slices.SortFunc] (with an order
    that only identifies equal prefixes) have one result, that of the insertion sort. *)
From Stdlib Require Import Sorting.Sorted.
From S2P Require Import Prelude GoText NetIP PacketNat PacketDnat FirewallRules PeerAcl.
Open Scope Z_scope.

(** [RouteRules.Sort]: deny rules first, then by id. *)
Definition is_drop (r : RouteRule) : bool := bool_decide (action r = ActionDrop).
Definition route_leb (a b : RouteRule) : bool :=
  if is_drop a && negb (is_drop b) then true
  else if negb (is_drop a) && is_drop b then false
  else String.leb (rr_id a) (rr_id b).
Definition Sort (l : list RouteRule) : list RouteRule := sort_by route_leb l.

(** The rule that is in the tables under the key of the arguments. *)
Definition new_route_rule (id : option string) (srcs : list prefix) (destination : FwNetwork) (proto : string)
    (sp dp : option Port) (act : Action) : RouteRule :=
  {| rr_id := GenerateRouteRuleKey srcs destination proto sp dp act; rr_mgmtId := id; sources := SortPrefixes srcs;
     dstSet := fn_Set destination; destinations := match fn_Prefix destination with Some p => [p] | None => [] end;
     rr_protoLayer := protoToLayer proto LayerTypeIPv4; srcPort := sp; dstPort := dp; action := act |}.

Definition insert_route (r : RouteRule) (t : Rules) : Rules :=
  if decide (rr_id r ∈ routeRulesMap t) then t
  else set_route (Sort (routeRules t ++ [r])) ({[ rr_id r ]} ∪ routeRulesMap t) t.

(** The key of the rule that is installed, and the tables. *)
Definition addRouteFiltering (delegated : bool) (id : option string) (srcs : list prefix) (destination : FwNetwork)
    (proto : string) (sp dp : option Port) (act : Action) (t : Rules) : string * Rules :=
  let r := new_route_rule id srcs destination proto sp dp act in
  (rr_id r, if delegated then t else insert_route r t).

(** Without the first element that satisfies [f]; [None] when there is none. *)
Fixpoint delete_first {A} (f : A → bool) (l : list A) : option (list A) :=
  match l with [] => None | x :: l => if f x then Some l else (x ::.) <$> delete_first f l end.
Definition deleteRouteRule (delegated : bool) (ruleKey : string) (t : Rules) : outcome rule_err Rules :=
  if delegated then Ret t
  else if decide (ruleKey ∈ routeRulesMap t) then
    match delete_first (λ r, bool_decide (rr_id r = ruleKey)) (routeRules t) with
    | Some l => Ret (set_route l (routeRulesMap t ∖ {[ ruleKey ]}) t)
    | None => Err errNoRouteRule
    end
  else Err errNoRouteRule.

(** By address, then shorter prefixes first. *)
Definition dst_leb (p q : prefix) : bool :=
  if addr_ltb (px_addr_of p) (px_addr_of q) then true
  else if addr_ltb (px_addr_of q) (px_addr_of p) then false
  else px_bits p <=? px_bits q.
(** [slices.Compact] *)
Fixpoint compact (l : list prefix) : list prefix :=
  match l with
  | p :: ((q :: _) as l') => if bool_decide (p = q) then compact l' else p :: compact l'
  | _ => l
  end.
Definition set_destinations (ds : list prefix) (r : RouteRule) : RouteRule :=
  {| rr_id := rr_id r; rr_mgmtId := rr_mgmtId r; sources := sources r; dstSet := dstSet r; destinations := ds;
     rr_protoLayer := rr_protoLayer r; srcPort := srcPort r; dstPort := dstPort r; action := action r |}.

Definition of_set (s : FwSet) (r : RouteRule) : bool := bool_decide (dstSet r = s).
Definition UpdateSet (delegated : bool) (s : FwSet) (prefixes : list prefix) (t : Rules) : outcome rule_err Rules :=
  if delegated then Ret t
  else
    match List.filter (of_set s) (routeRules t) with
    | [] => Err errNoRuleForSet
    | first :: _ =>
        let ds := destinations first ++ List.filter (λ p, negb (px_v6 p)) prefixes in
        let ds := compact (sort_by dst_leb ds) in
        Ret (set_route ((λ r, if of_set s r then set_destinations ds r else r) <$> routeRules t) (routeRulesMap t) t)
    end.

(** ** Matching *)
Definition prefix_contains (a : Addr) (p : prefix) : bool := match a with Some a => Contains p a | None => false end.
Definition is_port_layer (l : layer) : bool := match l with LayerTypeTCP | LayerTypeUDP => true | _ => false end.

Definition ruleMatches (r : RouteRule) (srcAddr dstAddr : Addr) (l : layer) (sp dp : Z) : outcome Empty_set bool :=
  if negb (bool_decide (rr_protoLayer r = layerTypeAll)) && negb (bool_decide (rr_protoLayer r = l)) then Ret false
  else
    ports ← (if is_port_layer l then
               s ← portsMatch (srcPort r) sp;
               if s : bool then portsMatch (dstPort r) dp else Ret false
             else Ret true);
    if negb ports then Ret false
    else if negb (existsb (prefix_contains dstAddr) (destinations r)) then Ret false
    else Ret (existsb (prefix_contains srcAddr) (sources r)).

Fixpoint routeACLsPass (rules : list RouteRule) (srcIP dstIP : Addr) (l : layer) (sp dp : Z)
    : outcome Empty_set (option string * bool) :=
  match rules with
  | [] => Ret (None, false)
  | r :: rules =>
      b ← ruleMatches r srcIP dstIP l sp dp;
      if b : bool then Ret (rr_mgmtId r, bool_decide (action r = ActionAccept))
      else routeACLsPass rules srcIP dstIP l sp dp
  end.

(** ** What the route rules decide *)
Definition in_some (ps : list prefix) (a : Addr) : Prop := ∃ p, p ∈ ps ∧ prefix_contains a p = true.
Definition route_covers (r : RouteRule) (src dst : Addr) (l : layer) (sp dp : Z) : Prop :=
  (rr_protoLayer r = layerTypeAll ∨ rr_protoLayer r = l)
  ∧ (is_port_layer l = true → port_ok (srcPort r) sp ∧ port_ok (dstPort r) dp)
  ∧ in_some (destinations r) dst ∧ in_some (sources r) src.

Lemma existsb_in_some ps a : existsb (prefix_contains a) ps = true ↔ in_some ps a.
Proof.
  unfold in_some. rewrite existsb_exists. split; intros (p & Hp & Hc); exists p; (split; [|done]); by apply list_elem_of_In.
Qed.

Lemma ruleMatches_spec r src dst l sp dp : port_wf (srcPort r) → port_wf (dstPort r) →
  ∃ b, ruleMatches r src dst l sp dp = Ret b ∧ (b = true ↔ route_covers r src dst l sp dp).
Proof.
  intros Hs Hd. unfold ruleMatches, route_covers.
  destruct (portsMatch_spec (srcPort r) sp Hs) as (bs & Es & Hbs). destruct (portsMatch_spec (dstPort r) dp Hd) as (bd & Ed & Hbd).
  pose proof (existsb_in_some (destinations r) dst) as Hdst. pose proof (existsb_in_some (sources r) src) as Hsrc.
  destruct (bool_decide_reflect (rr_protoLayer r = layerTypeAll)) as [Ha|Ha];
    [|destruct (bool_decide_reflect (rr_protoLayer r = l)) as [Hl|Hl]]; cbn [andb negb].
  3:{ exists false. split; [done|]. intuition congruence. }
  all: destruct (is_port_layer l); [rewrite Es; cbn [mbind outcome_bind]; destruct bs; [rewrite Ed|]|]; cbn [mbind outcome_bind];
    try destruct bd; cbn [negb];
    destruct (existsb (prefix_contains dst) (destinations r)); cbn [negb]; eexists; (split; [reflexivity|]); intuition congruence.
Qed.

(** The tables as the operations keep them. *)
Record routes_wf (t : Rules) : Prop := {
  rw_sorted : StronglySorted (λ a b, is_drop a = false → is_drop b = false) (routeRules t);
  rw_keys : ∀ k, k ∈ routeRulesMap t ↔ k ∈ rr_id <$> routeRules t;
  rw_nodup : NoDup (rr_id <$> routeRules t);
  rw_ports : ∀ r, r ∈ routeRules t → port_wf (srcPort r) ∧ port_wf (dstPort r) }.

Lemma route_acl_decides t src dst l sp dp : routes_wf t →
  ∃ i b, routeACLsPass (routeRules t) src dst l sp dp = Ret (i, b)
  ∧ (b = true ↔ (∀ r, r ∈ routeRules t → action r = ActionDrop → ¬ route_covers r src dst l sp dp)
                ∧ ∃ r, r ∈ routeRules t ∧ action r = ActionAccept ∧ route_covers r src dst l sp dp).
Proof.
  intros [Hs _ _ Hp]. induction (routeRules t) as [|r rs IH]; cbn [routeACLsPass].
  { exists None, false. split; [done|]. split; [done|]. intros (_ & r & ?%not_elem_of_nil & _). done. }
  apply StronglySorted_inv in Hs as [Hs Hr]. destruct (Hp r ltac:(by left)) as [Hps Hpd].
  destruct (ruleMatches_spec r src dst l sp dp Hps Hpd) as (b & -> & Hb). cbn [mbind outcome_bind].
  destruct b.
  - exists (rr_mgmtId r). eexists. split; [reflexivity|]. rewrite bool_decide_eq_true. split.
    + intros Ha. split; [|exists r; split; [by left|naive_solver]].
      intros q [->|Hq]%elem_of_cons Hact; [congruence|]. rewrite Forall_forall in Hr. specialize (Hr q Hq).
      unfold is_drop in Hr. rewrite Ha, Hact in Hr. discriminate Hr. done.
    + intros [Hno _]. specialize (Hno r ltac:(by left)). destruct (action r); [done|]. destruct Hno; naive_solver.
  - destruct IH as (i & b & E & IH); [done|intros q Hq; apply Hp; by right|]. exists i, b. split; [done|]. rewrite IH.
    assert (Hn : ¬ route_covers r src dst l sp dp) by (intros ?%Hb; done). split.
    + intros [Hno (q & Hq & Hrest)]. split; [|exists q; split; [by right|done]].
      intros q' [->|Hq']%elem_of_cons; [done|by apply Hno].
    + intros [Hno (q & Hq & Hact & Hc)]. split; [intros q' Hq'; apply Hno; by right|].
      exists q. apply elem_of_cons in Hq as [->|Hq]; [done|]. done.
Qed.

(** ** The operations keep the tables *)
Section sorting.
Context {A : Type} (leb : A → A → bool).
Lemma insert_by_perm x l : insert_by leb x l ≡ₚ x :: l.
Proof.
  induction l as [|y l IH]; cbn; [done|]. destruct (leb x y); [done|]. rewrite IH. apply Permutation_swap.
Qed.
Lemma sort_by_perm l : sort_by leb l ≡ₚ l.
Proof. induction l as [|x l IH]; cbn; [done|]. by rewrite insert_by_perm, IH. Qed.

Context (R : A → A → Prop) (Hle : ∀ x y, leb x y = true → R x y) (Hnle : ∀ x y, leb x y = false → R y x)
  (HR : ∀ x y z, R x y → R y z → R x z).
Lemma insert_by_sorted x l : StronglySorted R l → StronglySorted R (insert_by leb x l).
Proof.
  induction 1 as [|y l Hl IH Hy]; cbn; [by repeat constructor|]. destruct (leb x y) eqn:E.
  - constructor; [by constructor|]. constructor; [by apply Hle|]. eapply Forall_impl; [exact Hy|]. intros z. by apply HR, Hle.
  - constructor; [done|]. apply Forall_forall. intros z. rewrite insert_by_perm, elem_of_cons.
    intros [->|Hz]; [by apply Hnle|]. rewrite Forall_forall in Hy. by apply Hy.
Qed.
Lemma sort_by_sorted l : StronglySorted R (sort_by leb l).
Proof. induction l as [|x l IH]; cbn; [constructor|by apply insert_by_sorted]. Qed.
End sorting.

Lemma sort_denies_first l : StronglySorted (λ a b, is_drop a = false → is_drop b = false) (Sort l).
Proof.
  apply sort_by_sorted; [intros x y|intros x y|naive_solver]; unfold route_leb; by destruct (is_drop x), (is_drop y).
Qed.

Lemma insert_route_wf r t : routes_wf t → port_wf (srcPort r) → port_wf (dstPort r) → routes_wf (insert_route r t).
Proof.
  intros [Hs Hk Hn Hp] Hps Hpd. unfold insert_route. destruct (decide _) as [|Hr]; [done|].
  assert (Hperm : Sort (routeRules t ++ [r]) ≡ₚ r :: routeRules t) by (unfold Sort; by rewrite sort_by_perm, (comm (++) _ [r])).
  split; cbn [set_route routeRules routeRulesMap].
  - apply sort_denies_first.
  - intros k. rewrite Hperm. cbn. rewrite elem_of_union, elem_of_singleton, elem_of_cons, Hk. done.
  - rewrite Hperm. cbn. constructor; [|done]. by rewrite <- Hk.
  - intros q. rewrite Hperm. intros [->|Hq]%elem_of_cons; [done|by apply Hp].
Qed.

Lemma delete_first_spec {A} (f : A → bool) l l' : delete_first f l = Some l' →
  ∃ x l1 l2, l = l1 ++ x :: l2 ∧ l' = l1 ++ l2 ∧ f x = true.
Proof.
  revert l'. induction l as [|y l IH]; intros l'; cbn; [done|]. destruct (f y) eqn:E.
  - intros [= <-]. by exists y, [], l.
  - destruct (delete_first f l) as [l0|]; [|done]. intros [= <-]. destruct (IH l0 eq_refl) as (x & l1 & l2 & -> & -> & Hx).
    by exists x, (y :: l1), l2.
Qed.
Lemma delete_first_None {A} (f : A → bool) l : delete_first f l = None ↔ ∀ x, x ∈ l → f x = false.
Proof.
  induction l as [|y l IH]; cbn; [split; [|done]; intros _ x ?%not_elem_of_nil; done|].
  destruct (f y) eqn:E; [split; [done|]; intros H; specialize (H y ltac:(by left)); congruence|].
  destruct (delete_first f l); cbn.
  - split; [done|]. intros H. assert (Some l0 = None) as [=]. apply IH. intros x Hx. apply H. by right.
  - split; [|done]. intros _ x [->|Hx]%elem_of_cons; [done|]. by apply IH.
Qed.

Lemma sorted_app_drop {A} (R : A → A → Prop) l1 x l2 : StronglySorted R (l1 ++ x :: l2) → StronglySorted R (l1 ++ l2).
Proof.
  induction l1 as [|y l1 IH]; cbn; intros [Hs Hy]%StronglySorted_inv; [done|]. constructor; [by apply IH|].
  rewrite Forall_app, Forall_cons in *. naive_solver.
Qed.

(** Deleting by key finds the rule when the key is known, and removes just it. *)
Lemma deleteRouteRule_spec k t : routes_wf t →
  match deleteRouteRule false k t with
  | Ret t' => routes_wf t' ∧ k ∈ routeRulesMap t ∧ (∀ r, r ∈ routeRules t' ↔ r ∈ routeRules t ∧ rr_id r ≠ k)
  | Err _ => k ∉ routeRulesMap t
  | Panic => False
  end.
Proof.
  intros [Hs Hk Hn Hp]. unfold deleteRouteRule. destruct (decide _) as [Hin|]; [|done].
  destruct (delete_first _ _) as [l'|] eqn:E.
  2:{ rewrite delete_first_None in E. apply Hk in Hin as (r & -> & Hr)%list_elem_of_fmap. specialize (E r Hr).
      by rewrite bool_decide_eq_false in E. }
  apply delete_first_spec in E as (x & l1 & l2 & El & -> & Hx%bool_decide_eq_true). rewrite El in *.
  assert (Hids : ∀ r, r ∈ l1 ++ l2 ↔ r ∈ l1 ++ x :: l2 ∧ rr_id r ≠ k).
  { rewrite fmap_app, fmap_cons in Hn. apply NoDup_app in Hn as (_ & H1 & [H2 _]%NoDup_cons).
    intros r. rewrite !elem_of_app, elem_of_cons. split.
    - intros Hr. split; [naive_solver|]. intros Er. destruct Hr as [Hr|Hr].
      + apply (H1 (rr_id r)); [by apply list_elem_of_fmap_2|]. rewrite Er, <- Hx. by left.
      + apply H2. rewrite Hx, <- Er. by apply list_elem_of_fmap_2.
    - intros [[Hr|[->|Hr]] Hne]; [by left|by destruct Hne|by right]. }
  split; [|done]. split; cbn [set_route routeRules routeRulesMap].
  - by eapply sorted_app_drop.
  - intros k'. rewrite elem_of_difference, elem_of_singleton, Hk, !list_elem_of_fmap. split.
    + intros [(r & -> & Hr) Hne]. exists r. split; [done|]. by apply Hids.
    + intros (r & -> & [Hr Hne]%Hids). split; [|done]. by exists r.
  - rewrite fmap_app, fmap_cons in *. apply NoDup_app in Hn as (? & H1 & [H2 ?]%NoDup_cons). apply NoDup_app. split; [done|].
    split; [|done]. intros y Hy. specialize (H1 y Hy). by rewrite elem_of_cons in H1; naive_solver.
  - intros r [Hr _]%Hids. by apply Hp.
Qed.

Lemma sorted_fmap {A} (R : A → A → Prop) (f : A → A) l : (∀ x y, R x y → R (f x) (f y)) → StronglySorted R l →
  StronglySorted R (f <$> l).
Proof.
  intros HR. induction 1 as [|x l _ IH Hx]; cbn; constructor; [done|]. apply Forall_fmap. eapply Forall_impl; [exact Hx|].
  intros y. apply HR.
Qed.

(** ** Destinations that resolve later *)
Lemma compact_elem p l : p ∈ compact l ↔ p ∈ l.
Proof.
  induction l as [|q [|q' l'] IH]; [done..|]. cbn [compact]. case_bool_decide as E; [|rewrite !(elem_of_cons _ p q), IH; done].
  rewrite IH, (elem_of_cons _ p q), E. split; [by right|]. intros [->|?]; [by left|done].
Qed.
Lemma bfilter_elem {A} (f : A → bool) l x : x ∈ List.filter f l ↔ x ∈ l ∧ f x = true.
Proof. by rewrite !list_elem_of_In, filter_In. Qed.
Lemma merged_elem p ds ps :
  p ∈ compact (sort_by dst_leb (ds ++ List.filter (λ p, negb (px_v6 p)) ps)) ↔ p ∈ ds ∨ p ∈ ps ∧ px_v6 p = false.
Proof.
  by rewrite compact_elem, sort_by_perm, elem_of_app, bfilter_elem, negb_true_iff.
Qed.

(** The rules of the set get the destinations of the first of them and the new IPv4 prefixes; the
    other rules stay. *)
Lemma UpdateSet_spec s ps t :
  match UpdateSet false s ps t with
  | Ret t' => ∃ first ds, first ∈ routeRules t ∧ dstSet first = s
      ∧ (∀ p, p ∈ ds ↔ p ∈ destinations first ∨ p ∈ ps ∧ px_v6 p = false)
      ∧ routeRules t' = (λ r, if of_set s r then set_destinations ds r else r) <$> routeRules t
      ∧ routeRulesMap t' = routeRulesMap t
      ∧ incomingDenyRules t' = incomingDenyRules t ∧ incomingRules t' = incomingRules t
  | Err _ => ∀ r, r ∈ routeRules t → dstSet r ≠ s
  | Panic => False
  end.
Proof.
  unfold UpdateSet. destruct (List.filter _ _) as [|first rest] eqn:E.
  - intros r Hr Hs. assert (Hf : r ∈ List.filter (of_set s) (routeRules t)).
    { apply bfilter_elem. split; [done|]. by apply bool_decide_eq_true. }
    rewrite E in Hf. by apply not_elem_of_nil in Hf.
  - assert (Hf : first ∈ List.filter (of_set s) (routeRules t)) by (rewrite E; by left).
    apply bfilter_elem in Hf as [Hf Hs%bool_decide_eq_true].
    eexists first, _. split; [done|]. split; [done|]. split; [intros p; apply merged_elem|]. done.
Qed.

Lemma UpdateSet_wf s ps t t' : routes_wf t → UpdateSet false s ps t = Ret t' → routes_wf t'.
Proof.
  intros [Hs Hk Hn Hp] H. pose proof (UpdateSet_spec s ps t) as Hu. rewrite H in Hu.
  destruct Hu as (first & ds & _ & _ & _ & Er & Em & _ & _). set (f := λ r, if of_set s r then set_destinations ds r else r) in Er.
  assert (Hf : ∀ r, rr_id (f r) = rr_id r ∧ is_drop (f r) = is_drop r ∧ srcPort (f r) = srcPort r ∧ dstPort (f r) = dstPort r)
    by (intros r; unfold f; by destruct (of_set s r)).
  assert (Hid : rr_id <$> (f <$> routeRules t) = rr_id <$> routeRules t)
    by (rewrite <- list_fmap_compose; apply list_fmap_ext; intros _ r _; apply Hf).
  split; rewrite Er, ?Em, ?Hid; try done.
  - apply sorted_fmap; [|done]. intros x y. destruct (Hf x) as (_ & -> & _). by destruct (Hf y) as (_ & -> & _).
  - intros r (q & -> & Hq)%list_elem_of_fmap. destruct (Hf q) as (_ & _ & -> & ->). by apply Hp.
Qed.

(** ** Runs of the rule operations *)
Inductive rule_step : Rules → Rules → Prop :=
| peer_added uuid id ip proto sp dp act t r t' : port_wf sp → port_wf dp →
    AddPeerFiltering uuid id ip proto sp dp act t = Ret (r, t') → rule_step t t'
| peer_deleted r t t' : DeletePeerRule r t = Ret t' → rule_step t t'
| route_added id srcs dst proto sp dp act t : port_wf sp → port_wf dp →
    rule_step t (addRouteFiltering false id srcs dst proto sp dp act t).2
| route_deleted k t t' : deleteRouteRule false k t = Ret t' → rule_step t t'
| set_updated s ps t t' : UpdateSet false s ps t = Ret t' → rule_step t t'.

Lemma routes_of_incoming deny allow t : routes_wf t → routes_wf (set_incoming deny allow t).
Proof. intros []. by split. Qed.
Lemma rules_of_route l ks t : rules_wf t → rules_wf (set_route l ks t).
Proof. intros []. by split. Qed.
Lemma no_routes_wf : routes_wf no_rules.
Proof. split; cbn; [constructor| |constructor|]; intros; set_solver. Qed.

Lemma rule_step_wf t t' : rule_step t t' → rules_wf t ∧ routes_wf t → rules_wf t' ∧ routes_wf t'.
Proof.
  intros Hs [Hp Hr]. destruct Hs as [uuid id ip proto sp dp act t r t' Hsp Hdp H|r t t' H|id srcs dst proto sp dp act t Hsp Hdp|k t t' H|s ps t t' H].
  - split; [exact (AddPeerFiltering_wf _ _ _ _ _ _ _ _ _ _ Hp Hsp Hdp H)|]. unfold AddPeerFiltering in H. destruct (AddrFromSlice ip); [|done].
    destruct (drop_ _); injection H as _ <-; by apply routes_of_incoming.
  - split; [by eapply DeletePeerRule_wf|]. unfold DeletePeerRule in H.
    destruct (drop_ r); destruct (delete_rule _ _); try done; injection H as <-; by apply routes_of_incoming.
  - cbn [addRouteFiltering snd]. split; [|by apply insert_route_wf]. unfold insert_route. destruct (decide _); [done|].
    by apply rules_of_route.
  - pose proof (deleteRouteRule_spec k t Hr) as Hd. rewrite H in Hd. split; [|by destruct Hd].
    unfold deleteRouteRule in H. destruct (decide _); [|done]. destruct (delete_first _ _); [|done]. injection H as <-.
    by apply rules_of_route.
  - split; [|by eapply UpdateSet_wf]. pose proof (UpdateSet_spec s ps t) as Hu. rewrite H in Hu.
    destruct Hu as (_ & _ & _ & _ & _ & _ & _ & E1 & E2). unfold rules_wf. by rewrite E1, E2.
Qed.
Lemma rules_reach_wf t : rtc rule_step no_rules t → rules_wf t ∧ routes_wf t.
Proof.
  assert (H0 : rules_wf no_rules ∧ routes_wf no_rules) by (split; [apply no_rules_wf|apply no_routes_wf]).
  revert H0. generalize no_rules. induction 2 as [|t0 t1 t2 Hs _ IH]; [done|]. apply IH. by eapply rule_step_wf.
Qed.

(** For whatever rules have been added, removed and updated, a packet to this machine passes
    the peer rules if and only if it is an ICMP error report, or no drop rule for its source
    covers its protocol and ports and an accept rule for its source, or for any source, does;
    whatever order the rules of a set are tried in, and without a panic. *)
Theorem peer_acl_spec order t src d l :
  (∀ rs r, r ∈ order rs ↔ ∃ i, rs !! i = Some r) →
  rtc rule_step no_rules t → transport d = Some l →
  ∃ i b, peerACLsBlock order (Some src) d t = Ret (i, b) ∧ (b = false ↔ isSpecialICMP d = true ∨ admitted_by t src l d).
Proof. intros Ho [Hr _]%rules_reach_wf Hl. by apply peer_acl_decides. Qed.

(** A packet to be routed passes the route rules if and only if no drop rule covers its
    source, destination, protocol and ports, and an accept rule does: drop rules take precedence
    over accept rules, whatever order the rules were added in. *)
Theorem route_acl_spec t src dst l sp dp : rtc rule_step no_rules t →
  ∃ i b, routeACLsPass (routeRules t) src dst l sp dp = Ret (i, b)
  ∧ (b = true ↔ (∀ r, r ∈ routeRules t → action r = ActionDrop → ¬ route_covers r src dst l sp dp)
                ∧ ∃ r, r ∈ routeRules t ∧ action r = ActionAccept ∧ route_covers r src dst l sp dp).
Proof. intros [_ Hr]%rules_reach_wf. by apply route_acl_decides. Qed.

(** ** Samples *)
Abbreviation high_ports := (NewPort [8000; 9000]).
Definition peer_a : bytes := [xc0; xa8; x01; x02].
Definition prefix4 (n bits : Z) : prefix := {| px_v6 := false; px_addr := n; px_bits := bits |}.
Definition lan : FwNetwork := {| fn_Set := no_set; fn_Prefix := Some (prefix4 0x0A000000 8) |}.

(** An accept rule for any port of a peer, and a drop rule for one of them. *)
Definition sample_rules : outcome rule_err Rules :=
  '(_, t) ← AddPeerFiltering "u1" None peer_a ProtocolTCP None high_ports ActionAccept no_rules;
  '(_, t) ← AddPeerFiltering "u2" None peer_a ProtocolTCP None (NewPort [8080]) ActionDrop t;
  Ret (addRouteFiltering false None [prefix4 0 0] lan ProtocolALL None None ActionAccept t).2.
Definition sample_table : Rules := match sample_rules with Ret t => t | _ => no_rules end.
Lemma NewPort_wf ps : port_wf (NewPort ps).
Proof.
  intros q. unfold NewPort. destruct ps as [|p ps]; [done|]. destruct (forallb _ _); [|done]. intros [= <-]. cbn.
  by rewrite bool_decide_eq_true.
Qed.
Lemma None_wf : port_wf None.
Proof. done. Qed.
Create HintDb fw.
#[export] Hint Resolve NewPort_wf None_wf : fw.

Lemma sample_rules_reach : rtc rule_step no_rules sample_table.
Proof.
  eapply rtc_l; [eapply (peer_added "u1" None peer_a ProtocolTCP None high_ports ActionAccept); [auto with fw..|vm_compute; reflexivity]|].
  eapply rtc_l; [eapply (peer_added "u2" None peer_a ProtocolTCP None (NewPort [8080]) ActionDrop); [auto with fw..|vm_compute; reflexivity]|].
  eapply rtc_l; [eapply (route_added None [prefix4 0 0] lan ProtocolALL None None ActionAccept); auto with fw|].
  vm_compute. constructor.
Qed.

Definition any_order (rs : RuleSet) : list PeerRule := (map_to_list rs).*2.
Lemma any_order_spec rs r : r ∈ any_order rs ↔ ∃ i, rs !! i = Some r.
Proof.
  unfold any_order. rewrite list_elem_of_fmap. split.
  - intros ([i q] & -> & Hq%elem_of_map_to_list). by exists i.
  - intros (i & Hi). exists (i, r). split; [done|]. by apply elem_of_map_to_list.
Qed.

Definition from_a (dport : Z) : decoder := sample_decoder (tcp4 0xC0A80102 me 1000 dport 2).
Lemma peer_acl_spec_witness :
  (admitted_by sample_table (v4 0xC0A80102) LayerTypeTCP (from_a 8081)
   ∧ peerACLsBlock any_order (Some (v4 0xC0A80102)) (from_a 8081) sample_table = Ret (None, false))
  ∧ ¬ admitted_by sample_table (v4 0xC0A80102) LayerTypeTCP (from_a 8080).
Proof.
  split.
  - destruct (peer_acl_spec any_order sample_table (v4 0xC0A80102) (from_a 8081) LayerTypeTCP any_order_spec sample_rules_reach)
      as (i & b & H & Hiff); [by vm_compute|].
    vm_compute in H. injection H as <- <-. split; [|by vm_compute].
    destruct (proj1 Hiff eq_refl) as [Hi|Ha]; [by vm_compute in Hi|exact Ha].
  - destruct (peer_acl_spec any_order sample_table (v4 0xC0A80102) (from_a 8080) LayerTypeTCP any_order_spec sample_rules_reach)
      as (i & b & H & Hiff); [by vm_compute|].
    vm_compute in H. injection H as <- <-. intros Ha. discriminate (proj2 Hiff (or_intror Ha)).
Defined.

Lemma route_acl_spec_witness :
  routeACLsPass (routeRules sample_table) (Some (v4 me)) (Some (v4 0x0A010203)) LayerTypeUDP 1 2 = Ret (None, true)
  ∧ Exists (λ r, action r = ActionAccept ∧ route_covers r (Some (v4 me)) (Some (v4 0x0A010203)) LayerTypeUDP 1 2) (routeRules sample_table).
Proof.
  destruct (route_acl_spec sample_table (Some (v4 me)) (Some (v4 0x0A010203)) LayerTypeUDP 1 2 sample_rules_reach)
    as (i & b & H & Hiff).
  assert (E : routeACLsPass (routeRules sample_table) (Some (v4 me)) (Some (v4 0x0A010203)) LayerTypeUDP 1 2 = Ret (None, true))
    by (by vm_compute).
  split; [exact E|]. rewrite E in H. injection H as <- <-. destruct (proj1 Hiff eq_refl) as [_ (r & Hr & Hc)].
  apply Exists_exists. exists r. exact (conj Hr Hc).
Defined.

(** A rule that is added to a set sorts before the rules that have its prefixes: with the next
    update the prefixes that were known are lost for all of them. *)
Definition site : FwSet := {| set_hash := [x01; x02; x03; x04]; set_comment := "example.com" |}.
Definition to_site : FwNetwork := {| fn_Set := site; fn_Prefix := None |}.
Definition site_rules : outcome rule_err Rules :=
  let t := (addRouteFiltering false None [prefix4 0 0] to_site ProtocolTCP None None ActionAccept no_rules).2 in
  t ← UpdateSet false site [prefix4 0x05050505 32] t;
  let t := (addRouteFiltering false None [prefix4 0 0] to_site ProtocolTCP None (NewPort [25]) ActionDrop t).2 in
  UpdateSet false site [prefix4 0x06060606 32] t.
Example update_set_forgets :
  match site_rules with Ret t => destinations <$> routeRules t | _ => [] end
  = [[prefix4 0x06060606 32]; [prefix4 0x06060606 32]].
Proof. vm_compute. done. Qed.
