(* ===== verification/PacketFilter.v ===== *)
(** The user-space packet filter put together: what it does with every packet that enters or
    leaves the tunnel.  [src/client/firewall/uspfilter/filter.go], with the hooks of
    [common/hooks.go] and the rule ids of [forwarder/forwarder.go].

    The filter composes the rule tables ([PeerAcl], [RouteAcl]), the translations ([PacketDnat]),
    the bitmap of local addresses ([LocalIP]) and the three connection trackers.  A packet is
    handled by one run of [filterInbound] or [filterOutbound] over the [world]: the filter, the
    decoder it took from the pool, the bytes, and what it reported and injected.  gopacket's
    [DecodeLayers] is the parameter [decode]; the clock and [uuid.New] are the arguments [now]
    and [flow].  A tracker that was not created is a nil pointer ([None]): calling it panics.
    The WireGuard device and [forwarder.New] are arguments.  Log calls are left out. *)
From S2P Require Import Prelude GoText FlowTable ConnTrack UDPTrack ICMPTrack.
From S2P Require Import NetIP Checksum PacketNat PacketDnat MssClamp LocalIP FirewallRules PeerAcl RouteAcl.
Open Scope Z_scope.

(** ** Hooks ([common/hooks.go]) *)
Record PacketHook := { hk_IP : Addr; hk_Port : Z; hk_Fn : bytes → bool * bytes }.
Definition HookMatches (h : option PacketHook) (dstIP : Addr) (dport : Z) (p : bytes) : bool * bytes :=
  match h with
  | None => (false, p)
  | Some h => if bool_decide (hk_IP h = dstIP) && (hk_Port h =? dport) then hk_Fn h p else (false, p)
  end.
Definition SetHook (ip : Addr) (dPort : Z) (hook : option (bytes → bool * bytes)) : option PacketHook :=
  (λ fn, {| hk_IP := ip; hk_Port := dPort; hk_Fn := fn |}) <$> hook.

(** ** The forwarder's rule ids ([forwarder.go]) *)
Abbreviation conn_id := (Addr * Addr * Z * Z)%type.
Abbreviation rule_ids := (gmap conn_id (option string)).
(** [LoadOrStore] keeps what is there. *)
Definition RegisterRuleID (k : conn_id) (ruleID : option string) (m : rule_ids) : rule_ids :=
  match m !! k with Some _ => m | None => <[k := ruleID]> m end.
Definition flip_id (k : conn_id) : conn_id := let '(s, d, sp, dp) := k in (d, s, dp, sp).
Definition getRuleID (k : conn_id) (m : rule_ids) : option (option string) :=
  match m !! k with Some r => Some r | None => m !! flip_id k end.
Definition DeleteRuleID (k : conn_id) (m : rule_ids) : rule_ids :=
  match m !! k with Some _ => delete k m | None => delete (flip_id k) m end.

(** ** The manager *)
Record Manager := {
  rules : Rules; nat_ : Nat; localipmanager : localIPManager;
  wg_IP : addr; wg_Network : prefix;
  nativeFirewall : bool; disableServerRoutes : bool; routingEnabled : bool; nativeRouter : bool;
  stateful : bool; netstack : bool; localForwarding : bool;
  udpTracker : option UDPTracker; icmpTracker : option ICMPTracker; tcpTracker : option TCPTracker;
  forwarder : option rule_ids; blockRule : option string;
  netstackServices : gset (layer * Z);
  mssClampValue : Z; mssClampEnabled : bool;
  udpHookOut : option PacketHook; tcpHookOut : option PacketHook }.

(** The environment variables, as [strconv.ParseBool] reads them. *)
Record env := {
  DisableConntrack : bool; DisableUserspaceRouting : bool; DisableMSSClamping : bool; ForceUserspaceRouter : bool;
  EnableLocalForwarding : bool }.

(** The manager with the fields that change replaced. *)
Definition update (t : Rules) (block : option string) (enabled native : bool) (u : option UDPTracker) (i : option ICMPTracker)
    (c : option TCPTracker) (fw : option rule_ids) (s : gset (layer * Z)) (hu ht : option PacketHook) (m : Manager) : Manager :=
  {| rules := t; nat_ := nat_ m; localipmanager := localipmanager m; wg_IP := wg_IP m; wg_Network := wg_Network m;
     nativeFirewall := nativeFirewall m; disableServerRoutes := disableServerRoutes m; routingEnabled := enabled;
     nativeRouter := native; stateful := stateful m; netstack := netstack m; localForwarding := localForwarding m;
     udpTracker := u; icmpTracker := i; tcpTracker := c; forwarder := fw; blockRule := block; netstackServices := s;
     mssClampValue := mssClampValue m; mssClampEnabled := mssClampEnabled m; udpHookOut := hu; tcpHookOut := ht |}.
Definition set_rules (t : Rules) (block : option string) (m : Manager) : Manager :=
  update t block (routingEnabled m) (nativeRouter m) (udpTracker m) (icmpTracker m) (tcpTracker m) (forwarder m)
    (netstackServices m) (udpHookOut m) (tcpHookOut m) m.
Definition set_routing (enabled native : bool) (m : Manager) : Manager :=
  update (rules m) (blockRule m) enabled native (udpTracker m) (icmpTracker m) (tcpTracker m) (forwarder m)
    (netstackServices m) (udpHookOut m) (tcpHookOut m) m.
Definition set_trackers (u : option UDPTracker) (i : option ICMPTracker) (c : option TCPTracker) (m : Manager) : Manager :=
  update (rules m) (blockRule m) (routingEnabled m) (nativeRouter m) u i c (forwarder m)
    (netstackServices m) (udpHookOut m) (tcpHookOut m) m.
Definition set_forwarder (fw : option rule_ids) (m : Manager) : Manager :=
  update (rules m) (blockRule m) (routingEnabled m) (nativeRouter m) (udpTracker m) (icmpTracker m) (tcpTracker m) fw
    (netstackServices m) (udpHookOut m) (tcpHookOut m) m.
Definition set_services (s : gset (layer * Z)) (m : Manager) : Manager :=
  update (rules m) (blockRule m) (routingEnabled m) (nativeRouter m) (udpTracker m) (icmpTracker m) (tcpTracker m)
    (forwarder m) s (udpHookOut m) (tcpHookOut m) m.
Definition set_hooks (hu ht : option PacketHook) (m : Manager) : Manager :=
  update (rules m) (blockRule m) (routingEnabled m) (nativeRouter m) (udpTracker m) (icmpTracker m) (tcpTracker m)
    (forwarder m) (netstackServices m) hu ht m.

Definition set_nat (n : Nat) (l : localIPManager) (m : Manager) : Manager :=
  {| rules := rules m; nat_ := n; localipmanager := l; wg_IP := wg_IP m; wg_Network := wg_Network m;
     nativeFirewall := nativeFirewall m; disableServerRoutes := disableServerRoutes m; routingEnabled := routingEnabled m;
     nativeRouter := nativeRouter m; stateful := stateful m; netstack := netstack m; localForwarding := localForwarding m;
     udpTracker := udpTracker m; icmpTracker := icmpTracker m; tcpTracker := tcpTracker m; forwarder := forwarder m;
     blockRule := blockRule m; netstackServices := netstackServices m; mssClampValue := mssClampValue m;
     mssClampEnabled := mssClampEnabled m; udpHookOut := udpHookOut m; tcpHookOut := tcpHookOut m |}.

(** *** Set-up *)
Inductive mgr_err := errForwardingNotSupported | errCreateForwarder | errDeleteBlockRule.

(** [device]: the interface has a WireGuard device; [created]: [forwarder.New] succeeds.  The
    manager may have changed when there is an error. *)
Definition initForwarder (device created : bool) (m : Manager) : option mgr_err * Manager :=
  match forwarder m with
  | Some _ => (None, m)
  | None =>
      if negb device then (Some errForwardingNotSupported, set_routing false (nativeRouter m) m)
      else if negb created then (Some errCreateForwarder, set_routing false (nativeRouter m) m)
      else (None, set_forwarder (Some ∅) m)
  end.

Definition determineRouting (e : env) (device created : bool) (m : Manager) : option mgr_err * Manager :=
  let m := if DisableUserspaceRouting e then set_routing false false m
           else if disableServerRoutes m then set_routing true true m
           else if ForceUserspaceRouter e then set_routing true false m
           else if negb (netstack m) && nativeFirewall m then set_routing true true m
           else set_routing true false m in
  if routingEnabled m && negb (nativeRouter m) then initForwarder device created m else (None, m).

(** [nativeRouter.Load() && nativeFirewall != nil] *)
Definition delegates (m : Manager) : bool := nativeRouter m && nativeFirewall m.

Definition zero_prefix : prefix := {| px_v6 := false; px_addr := 0; px_bits := 0 |}.
Definition blockInvalidRouted (m : Manager) : string * Rules :=
  addRouteFiltering (delegates m) None [zero_prefix] {| fn_Set := no_set; fn_Prefix := Some (wg_Network m) |}
    ProtocolALL None None ActionDrop (rules m).

Definition EnableRouting (e : env) (device created : bool) (m : Manager) : option mgr_err * Manager :=
  match determineRouting e device created m with
  | (Some err, m) => (Some err, m)
  | (None, m) =>
      match forwarder m with
      | None => (None, m)
      | Some _ => let '(k, t) := blockInvalidRouted m in (None, set_rules t (Some k) m)
      end
  end.

Definition DisableRouting (m : Manager) : option mgr_err * Manager :=
  match forwarder m with
  | None => (None, m)
  | Some _ =>
      let m := set_routing false false m in
      if netstack m && localForwarding m then (None, m)
      else
        let m := set_forwarder None m in
        match blockRule m with
        | None => (None, m)
        | Some k =>
            match deleteRouteRule (delegates m) k (rules m) with
            | Ret t => (None, set_rules t None m)
            | _ => (Some errDeleteBlockRule, m)
            end
        end
  end.

Definition create (e : env) (native noServerRoutes netstackEnabled : bool) (mtu : Z) (ip : addr) (net : prefix)
    (interfaces : option (list (option (list bytes)))) (device created : bool) : Manager :=
  let conntrack := negb (DisableConntrack e) in
  let m := {|
    rules := no_rules; nat_ := no_nat; localipmanager := UpdateLocalIPs (Some (Some ip)) interfaces;
    wg_IP := ip; wg_Network := net; nativeFirewall := native; disableServerRoutes := noServerRoutes;
    routingEnabled := false; nativeRouter := false; stateful := conntrack; netstack := netstackEnabled;
    localForwarding := EnableLocalForwarding e;
    udpTracker := if conntrack then Some (NewUDPTracker DefaultUDPTimeout) else None;
    icmpTracker := if conntrack then Some (NewICMPTracker DefaultICMPTimeout) else None;
    tcpTracker := if conntrack then Some (NewTCPTracker DefaultTCPTimeout) else None;
    forwarder := None; blockRule := None; netstackServices := ∅;
    mssClampValue := if DisableMSSClamping e then 0 else wrap_u16 (mtu - 40);
    mssClampEnabled := negb (DisableMSSClamping e);
    udpHookOut := None; tcpHookOut := None |} in
  if netstack m && localForwarding m then (initForwarder device created m).2 else m.

(** *** Services of the netstack *)
Definition protocolToLayerType (protocol : Z) : layer :=
  if protocol =? ProtoTCP then LayerTypeTCP
  else if protocol =? ProtoUDP then LayerTypeUDP
  else if protocol =? ProtoICMP then LayerTypeICMPv4 else LayerTypeZero.
Definition RegisterNetstackService (protocol port : Z) (m : Manager) : Manager :=
  set_services ({[ (protocolToLayerType protocol, port) ]} ∪ netstackServices m) m.
Definition UnregisterNetstackService (protocol port : Z) (m : Manager) : Manager :=
  set_services (netstackServices m ∖ {[ (protocolToLayerType protocol, port) ]}) m.

Definition hasMatchingNetstackService (d : decoder) (m : Manager) : bool :=
  match transport d with
  | Some LayerTypeTCP => bool_decide ((LayerTypeTCP, tcp_DstPort d) ∈ netstackServices m)
  | Some LayerTypeUDP => bool_decide ((LayerTypeUDP, udp_DstPort d) ∈ netstackServices m)
  | _ => false
  end.
Definition shouldForward (d : decoder) (dstIP : Addr) (m : Manager) : bool :=
  if negb (localForwarding m) then false
  else if netstack m then negb (hasMatchingNetstackService d m)
  else bool_decide (dstIP ≠ Some (wg_IP m)).

Definition SetUDPPacketHook (ip : Addr) (dPort : Z) (hook : option (bytes → bool * bytes)) (m : Manager) : Manager :=
  set_hooks (SetHook ip dPort hook) (tcpHookOut m) m.
Definition SetTCPPacketHook (ip : Addr) (dPort : Z) (hook : option (bytes → bool * bytes)) (m : Manager) : Manager :=
  set_hooks (udpHookOut m) (SetHook ip dPort hook) m.

(** The trackers are closed and the forwarder is stopped, but stays. *)
Definition resetState (m : Manager) : Manager :=
  set_trackers (UDPTrack.Close <$> udpTracker m) (ICMPTrack.Close <$> icmpTracker m) (ConnTrack.Close <$> tcpTracker m)
    (set_hooks None None (set_rules no_rules (blockRule m) m)).

(** ** Handling a packet *)
(** [w_reports] are the flow events, [w_injected] the packets given to the forwarder. *)
Record world := {
  w_m : Manager; w_d : decoder; w_p : bytes; w_reports : list EventFields; w_injected : list bytes }.
Definition with_m (m : Manager) (w : world) : world :=
  {| w_m := m; w_d := w_d w; w_p := w_p w; w_reports := w_reports w; w_injected := w_injected w |}.
Definition with_d (d : decoder) (w : world) : world :=
  {| w_m := w_m w; w_d := d; w_p := w_p w; w_reports := w_reports w; w_injected := w_injected w |}.
Definition with_p (p : bytes) (w : world) : world :=
  {| w_m := w_m w; w_d := w_d w; w_p := p; w_reports := w_reports w; w_injected := w_injected w |}.
Definition report (evs : list EventFields) (w : world) : world :=
  {| w_m := w_m w; w_d := w_d w; w_p := w_p w; w_reports := w_reports w ++ evs; w_injected := w_injected w |}.

Definition fl (A : Type) : Type := world → outcome Empty_set (A * world).
Definition fl_ret {A} (a : A) : fl A := λ w, Ret (a, w).
Definition fl_bind {A B} (x : fl A) (f : A → fl B) : fl B := λ w, '(a, w) ← x w; f a w.
Definition fl_lift {A} (o : outcome Empty_set A) : fl A := λ w, a ← o; Ret (a, w).
Declare Scope fl_scope.
Delimit Scope fl_scope with fl.
Notation "'do' x := m 'in' k" := (fl_bind m (λ x, k)) (at level 10, x name, m at level 100, k at level 200) : fl_scope.
Notation "'do' ' p := m 'in' k" := (fl_bind m (λ p, k)) (at level 10, p strict pattern, m at level 100, k at level 200) : fl_scope.
Open Scope fl_scope.

Definition the_decoder : fl decoder := λ w, Ret (w_d w, w).
Definition the_manager : fl Manager := λ w, Ret (w_m w, w).
(** An operation on the bytes: [None] when it returns an error. *)
Definition on_packet {A} (x : pk A) : fl (option A) := λ w,
  match x (w_p w) with
  | (Ret a, p) => Ret (Some a, with_p p w)
  | (Err _, p) => Ret (None, with_p p w)
  | (Panic, _) => Panic
  end.

Definition extractIPs (d : decoder) : outcome Empty_set (Addr * Addr) :=
  l ← index 0 (decoded d);
  Ret match l with
      | LayerTypeIPv4 => (AddrFromSlice (ip4_SrcIP d), AddrFromSlice (ip4_DstIP d))
      | LayerTypeIPv6 => (AddrFromSlice (ip6_SrcIP d), AddrFromSlice (ip6_DstIP d))
      | _ => (None, None)
      end.

Definition flag (b : bool) (mask flags : Z) : Z := if b then Z.lor flags mask else flags.
Definition getTCPFlags (d : decoder) : Z :=
  flag (tcp_URG d) TCPUrg (flag (tcp_PSH d) TCPPush (flag (tcp_RST d) TCPRst (flag (tcp_FIN d) TCPFin
    (flag (tcp_ACK d) TCPAck (flag (tcp_SYN d) TCPSyn 0))))).

Definition getPortsFromPacket (d : decoder) : outcome Empty_set (Z * Z) :=
  l ← index 1 (decoded d);
  Ret match l with
      | LayerTypeTCP => (tcp_SrcPort d, tcp_DstPort d)
      | LayerTypeUDP => (udp_SrcPort d, udp_DstPort d)
      | _ => (0, 0)
      end.
Definition getProtocolFromPacket (d : decoder) : outcome Empty_set Z :=
  l ← index 1 (decoded d);
  Ret match l with
      | LayerTypeTCP => ProtoTCP
      | LayerTypeUDP => ProtoUDP
      | LayerTypeICMPv4 | LayerTypeICMPv6 => ProtoICMP
      | _ => 0
      end.

(** The trackers take an address as a number. *)
Definition addr_key (a : Addr) : Z :=
  match a with None => -1 | Some a => if ad_v6 a then 2 ^ 32 + ad_num a else ad_num a end.
Definition tcp_of (d : decoder) (src dst : Addr) (size : Z) : ConnTrack.packet :=
  {| ConnTrack.p_src := addr_key src; ConnTrack.p_dst := addr_key dst; ConnTrack.p_sport := tcp_SrcPort d;
     ConnTrack.p_dport := tcp_DstPort d; ConnTrack.p_flags := getTCPFlags d; ConnTrack.p_size := size |}.
Definition udp_of (d : decoder) (src dst : Addr) (size : Z) : UDPTrack.datagram :=
  {| UDPTrack.p_src := addr_key src; UDPTrack.p_dst := addr_key dst; UDPTrack.p_sport := udp_SrcPort d;
     UDPTrack.p_dport := udp_DstPort d; UDPTrack.p_size := size |}.
Definition icmp_of (d : decoder) (src dst : Addr) (size : Z) : ICMPTrack.icmp_packet :=
  {| ICMPTrack.p_src := addr_key src; ICMPTrack.p_dst := addr_key dst; ICMPTrack.p_id := icmp4_Id d;
     ICMPTrack.p_type := icmp4_Type d; ICMPTrack.p_code := icmp4_Code d; ICMPTrack.p_payload := icmp4_Payload d;
     ICMPTrack.p_size := size |}.

(** Run an operation of a tracker; a nil tracker panics. *)
Definition on_udp {A} (x : UDPTracker → outcome Empty_set (A * UDPTracker * list EventFields)) : fl A := λ w,
  match udpTracker (w_m w) with
  | None => Panic
  | Some t => '(a, t, evs) ← x t;
              Ret (a, report evs (with_m (set_trackers (Some t) (icmpTracker (w_m w)) (tcpTracker (w_m w)) (w_m w)) w))
  end.
Definition on_icmp {A} (x : ICMPTracker → outcome Empty_set (A * ICMPTracker * list EventFields)) : fl A := λ w,
  match icmpTracker (w_m w) with
  | None => Panic
  | Some t => '(a, t, evs) ← x t;
              Ret (a, report evs (with_m (set_trackers (udpTracker (w_m w)) (Some t) (tcpTracker (w_m w)) (w_m w)) w))
  end.
Definition on_tcp {A} (x : TCPTracker → outcome Empty_set (A * TCPTracker * list EventFields)) : fl A := λ w,
  match tcpTracker (w_m w) with
  | None => Panic
  | Some t => '(a, t, evs) ← x t;
              Ret (a, report evs (with_m (set_trackers (udpTracker (w_m w)) (icmpTracker (w_m w)) (Some t) (w_m w)) w))
  end.

Definition reset_origPort (p : Z) (d : decoder) : decoder := {|
  decoded := decoded d; ip4_IHL := ip4_IHL d; ip4_SrcIP := ip4_SrcIP d; ip4_DstIP := ip4_DstIP d; ip4_Protocol := ip4_Protocol d;
  ip4_MoreFragments := ip4_MoreFragments d; ip4_FragOffset := ip4_FragOffset d; ip6_SrcIP := ip6_SrcIP d; ip6_DstIP := ip6_DstIP d;
  tcp_SrcPort := tcp_SrcPort d; tcp_DstPort := tcp_DstPort d; tcp_SYN := tcp_SYN d; tcp_ACK := tcp_ACK d; tcp_FIN := tcp_FIN d;
  tcp_RST := tcp_RST d; tcp_PSH := tcp_PSH d; tcp_URG := tcp_URG d; tcp_Options := tcp_Options d;
  udp_SrcPort := udp_SrcPort d; udp_DstPort := udp_DstPort d; icmp4_Id := icmp4_Id d; icmp4_Type := icmp4_Type d;
  icmp4_Code := icmp4_Code d; icmp4_Payload := icmp4_Payload d; dnatOrigPort := p |}.

(** *** Tracking *)
Definition trackOutbound (now flow size : Z) (srcIP dstIP : Addr) : fl () :=
  do d := the_decoder in
  do l := fl_lift (index 1 (decoded d)) in
  match l with
  | LayerTypeUDP =>
      do origPort := on_udp (UDPTrack.TrackOutbound now flow (udp_of d srcIP dstIP size)) in
      if origPort =? 0 then fl_ret tt
      else do _ := on_packet (rewriteUDPPort d origPort 0%nat) in fl_ret tt
  | LayerTypeTCP =>
      do origPort := on_tcp (ConnTrack.TrackOutbound now flow (tcp_of d srcIP dstIP size)) in
      if origPort =? 0 then fl_ret tt
      else do _ := on_packet (rewriteTCPPort d origPort 0%nat) in fl_ret tt
  | LayerTypeICMPv4 =>
      on_icmp (λ t, '(t, evs) ← ICMPTrack.TrackOutbound now flow (icmp_of d srcIP dstIP size) t; Ret (tt, t, evs))
  | _ => fl_ret tt
  end.

Definition trackInbound (now flow size : Z) (srcIP dstIP : Addr) (ruleID : option string) : fl () :=
  do d := the_decoder in
  do l := fl_lift (index 1 (decoded d)) in
  do _ := match l with
          | LayerTypeUDP =>
              on_udp (λ t, '(t, evs) ← UDPTrack.TrackInbound now flow (udp_of d srcIP dstIP size) ruleID (dnatOrigPort d) t;
                           Ret (tt, t, evs))
          | LayerTypeTCP =>
              on_tcp (λ t, '(t, evs) ← ConnTrack.TrackInbound now flow (tcp_of d srcIP dstIP size) ruleID (dnatOrigPort d) t;
                           Ret (tt, t, evs))
          | LayerTypeICMPv4 =>
              on_icmp (λ t, '(t, evs) ← ICMPTrack.TrackInbound now flow (icmp_of d srcIP dstIP size) ruleID t; Ret (tt, t, evs))
          | _ => fl_ret tt
          end in
  λ w, Ret (tt, with_d (reset_origPort 0 (w_d w)) w).

Definition isValidTrackedConnection (now size : Z) (srcIP dstIP : Addr) : fl bool :=
  do d := the_decoder in
  do l := fl_lift (index 1 (decoded d)) in
  match l with
  | LayerTypeTCP => on_tcp (λ t, Ret (ConnTrack.IsValidInbound now (tcp_of d srcIP dstIP size) t))
  | LayerTypeUDP => on_udp (λ t, Ret (UDPTrack.IsValidInbound now (udp_of d srcIP dstIP size) t, []))
  | LayerTypeICMPv4 => on_icmp (λ t, Ret (ICMPTrack.IsValidInbound now (icmp_of d srcIP dstIP size) t, []))
  | _ => fl_ret false
  end.

(** The event of a packet that the rules drop. *)
Definition drop_event (flow size : Z) (ruleID : option string) (proto : Z) (srcIP dstIP : Addr) (srcPort dstPort : Z) : EventFields :=
  {| e_FlowID := flow; e_Type := TypeDrop; e_RuleID := ruleID; e_Direction := Ingress; e_Protocol := proto;
     e_SourceIP := addr_key srcIP; e_DestIP := addr_key dstIP; e_SourcePort := srcPort; e_DestPort := dstPort;
     e_ICMPType := 0; e_ICMPCode := 0; e_RxPackets := 1; e_TxPackets := 0; e_RxBytes := wrap_u64 size; e_TxBytes := 0 |}.
Definition report_drop (flow size : Z) (srcIP dstIP : Addr) (ruleID : option string) : fl () :=
  do d := the_decoder in
  do proto := fl_lift (getProtocolFromPacket d) in
  do '(srcPort, dstPort) := fl_lift (getPortsFromPacket d) in
  λ w, Ret (tt, report [drop_event flow size ruleID proto srcIP dstIP srcPort dstPort] w).

(** [InjectIncomingPacket]: [false] when the packet is too short. *)
Definition InjectIncomingPacket : fl bool := λ w,
  if bool_decide (length (w_p w) < 20)%nat then Ret (false, w)
  else Ret (true, {| w_m := w_m w; w_d := w_d w; w_p := w_p w; w_reports := w_reports w; w_injected := w_injected w ++ [w_p w] |}).

Section handlers.
Context (decode : bytes → decoder → bool * decoder).
Context (order : RuleSet → list PeerRule).

(** [true] when there was no error. *)
Definition DecodeLayers : fl bool := λ w, let '(ok, d) := decode (w_p w) (w_d w) in Ret (ok, with_d d w).

Definition hook_drops (h : option PacketHook) (dstIP : Addr) (dport : Z) : fl bool := λ w,
  let '(b, p) := HookMatches h dstIP dport (w_p w) in Ret (b, with_p p w).

(** The hooks, and the segment size: [true] when a hook took the packet. *)
Definition outbound_hooks (m : Manager) (d : decoder) (dstIP : Addr) : fl bool :=
  match transport d with
  | Some LayerTypeUDP => hook_drops (udpHookOut m) dstIP (udp_DstPort d)
  | Some LayerTypeTCP =>
      do taken := hook_drops (tcpHookOut m) dstIP (tcp_DstPort d) in
      if taken then fl_ret true
      else if mssClampEnabled m then do _ := on_packet (clampTCPMSS (mssClampValue m) d) in fl_ret false
      else fl_ret false
  | _ => fl_ret false
  end.

(** [true]: the packet is not passed on. *)
Definition filterOutbound (now flow size : Z) : fl bool :=
  do ok := DecodeLayers in
  do d := the_decoder in
  if negb ok || bool_decide (length (decoded d) < 2)%nat then fl_ret false
  else
    do '(srcIP, dstIP) := fl_lift (extractIPs d) in
    if bool_decide (srcIP = None) then fl_ret false
    else
      do m := the_manager in
      do taken := outbound_hooks m d dstIP in
      if taken : bool then fl_ret true
      else
        do _ := trackOutbound now flow size srcIP dstIP in
        do _ := on_packet (translateOutboundDNAT (nat_ m) d) in
        fl_ret false.

(** Whether the packet is valid, and whether it is a fragment. *)
Definition isValidPacket : fl (bool * bool) :=
  do ok := DecodeLayers in
  do d := the_decoder in
  fl_ret (if negb ok then (false, false)
          else if bool_decide (2 ≤ length (decoded d))%nat then (true, false)
          else if bool_decide (decoded d = [LayerTypeIPv4]) && (ip4_MoreFragments d || negb (ip4_FragOffset d =? 0))
          then (true, true) else (false, false)).

Definition handleForwardedLocalTraffic : fl bool :=
  do m := the_manager in
  match forwarder m with
  | None => fl_ret true
  | Some _ => do _ := InjectIncomingPacket in fl_ret true
  end.

Definition handleLocalTraffic (now flow size : Z) (srcIP dstIP : Addr) : fl bool :=
  do d := the_decoder in
  do m := the_manager in
  do '(ruleID, blocked) := fl_lift (peerACLsBlock order srcIP d (rules m)) in
  if blocked : bool then do _ := report_drop flow size srcIP dstIP ruleID in fl_ret true
  else if shouldForward d dstIP m then handleForwardedLocalTraffic
  else do _ := trackInbound now flow size srcIP dstIP ruleID in fl_ret false.

Definition change_ids (f : rule_ids → rule_ids) : fl () := λ w,
  Ret (tt, with_m (set_forwarder (f <$> forwarder (w_m w)) (w_m w)) w).

Definition handleRoutedTraffic (now flow size : Z) (srcIP dstIP : Addr) : fl bool :=
  do m := the_manager in
  if negb (routingEnabled m) then fl_ret true
  else if nativeRouter m then do _ := trackInbound now flow size srcIP dstIP None in fl_ret false
  else
    do d := the_decoder in
    do l := fl_lift (index 1 (decoded d)) in
    do '(srcPort, dstPort) := fl_lift (getPortsFromPacket d) in
    do '(ruleID, pass) := fl_lift (routeACLsPass (routeRules (rules m)) srcIP dstIP l srcPort dstPort) in
    if negb pass then do _ := report_drop flow size srcIP dstIP ruleID in fl_ret true
    else
      match forwarder m with
      | None => fl_ret true
      | Some _ =>
          do _ := change_ids (RegisterRuleID (srcIP, dstIP, srcPort, dstPort) ruleID) in
          do ok := InjectIncomingPacket in
          do _ := (if ok then fl_ret tt else change_ids (DeleteRuleID (srcIP, dstIP, srcPort, dstPort))) in
          fl_ret true
      end.

(** The addresses after a translation, which decodes the packet again; [None]: it failed to. *)
Definition redecode (translated : bool) (ips : Addr * Addr) : fl (option (Addr * Addr)) :=
  if translated then
    do ok := DecodeLayers in
    do d := the_decoder in
    if negb ok then fl_ret None else do ips := fl_lift (extractIPs d) in fl_ret (Some ips)
  else fl_ret (Some ips).

Definition port_dnat (ips : Addr * Addr) : fl bool :=
  do d := the_decoder in
  do m := the_manager in
  do o := on_packet (translateInboundPortDNAT (nat_ m) d ips.1 ips.2) in
  match o with
  | Some (Some origPort) => λ w, Ret (true, with_d (reset_origPort origPort (w_d w)) w)
  | _ => fl_ret false
  end.
Definition reverse_dnat : fl bool :=
  do d := the_decoder in
  do m := the_manager in
  do o := on_packet (translateInboundReverse (nat_ m) d) in
  fl_ret (default false o).

(** What happens to a packet after the translations. *)
Definition judge (now flow size : Z) (ips : Addr * Addr) : fl bool :=
  do m := the_manager in
  do tracked := (if stateful m then isValidTrackedConnection now size ips.1 ips.2 else fl_ret false) in
  if tracked : bool then fl_ret false
  else if IsLocalIP ips.2 (localipmanager m) then handleLocalTraffic now flow size ips.1 ips.2
  else handleRoutedTraffic now flow size ips.1 ips.2.

(** The two translations; [None]: the packet could not be decoded afterwards. *)
Definition translations (ips : Addr * Addr) : fl (option (Addr * Addr)) :=
  do translated := port_dnat ips in
  do r := redecode translated ips in
  match r with
  | None => fl_ret None
  | Some ips => do translated := reverse_dnat in redecode translated ips
  end.

(** [true]: the packet is dropped. *)
Definition filterInbound (now flow size : Z) : fl bool :=
  do '(valid, fragment) := isValidPacket in
  if negb valid then fl_ret true
  else
    do d := the_decoder in
    do ips := fl_lift (extractIPs d) in
    if bool_decide (ips.1 = None) then fl_ret true
    else if fragment then fl_ret false
    else
      do r := translations ips in
      match r with
      | None => fl_ret true
      | Some ips => judge now flow size ips
      end.
End handlers.

(** ** What the filter decides *)
(** The trackers exist and are open. *)
Definition opened (u : UDPTracker) (i : ICMPTracker) (c : TCPTracker) : Prop :=
  is_Some (UDPTrack.connections u) ∧ is_Some (ICMPTrack.connections i) ∧ is_Some (ConnTrack.connections c).
Definition trackers_are (m : Manager) (u : UDPTracker) (i : ICMPTracker) (c : TCPTracker) : Prop :=
  udpTracker m = Some u ∧ icmpTracker m = Some i ∧ tcpTracker m = Some c.

Lemma tcp_updateIfExists_open now k fl d sz t : is_Some (ConnTrack.connections t) →
  ∃ o t' evs, ConnTrack.updateIfExists now k fl d sz t = (o, t', evs) ∧ is_Some (ConnTrack.connections t').
Proof.
  intros [m Hm]. unfold ConnTrack.updateIfExists. destruct (ConnTrack.get k t) as [c|]; [|by eauto 10].
  destruct (IsSupersededBy fl c); [by eauto 10|]. destruct (updateState now c fl d sz) as [c' evs].
  eexists _, _, _. split; [reflexivity|]. cbn. rewrite Hm. by eexists.
Qed.
Lemma tcp_track_open now flow p d r o t : is_Some (ConnTrack.connections t) →
  ∃ t' evs, ConnTrack.track now flow p d r o t = Ret (t', evs) ∧ is_Some (ConnTrack.connections t').
Proof.
  intros Ho. unfold ConnTrack.track.
  destruct (tcp_updateIfExists_open now (ConnTrack.key_of p) (p_flags p) d (ConnTrack.p_size p) t Ho) as (ex & t' & evs & -> & [m Hm]).
  destruct (_ || _); [by eauto|]. destruct (updateState _ _ _ _ _) as [c evs']. rewrite Hm. by eauto.
Qed.
Lemma tcp_outbound_open now flow p t : is_Some (ConnTrack.connections t) →
  ∃ o t' evs, ConnTrack.TrackOutbound now flow p t = Ret (o, t', evs) ∧ is_Some (ConnTrack.connections t').
Proof.
  intros Ho. unfold ConnTrack.TrackOutbound.
  destruct (tcp_updateIfExists_open now (ConnTrack.rev_key_of p) (p_flags p) Egress (ConnTrack.p_size p) t Ho) as ([o|] & t' & evs & -> & Ho');
    [by eauto|]. destruct (tcp_track_open now flow p Egress None 0 t' Ho') as (t2 & evs2 & -> & ?). cbn. by eauto.
Qed.
Lemma tcp_valid_open now p t : is_Some (ConnTrack.connections t) →
  ∃ b t' evs, ConnTrack.IsValidInbound now p t = (b, t', evs) ∧ is_Some (ConnTrack.connections t').
Proof.
  intros [m Hm]. unfold ConnTrack.IsValidInbound. destruct (ConnTrack.get _ t) as [c|]; [|by eauto 10].
  destruct (IsSupersededBy _ c); [by eauto 10|]. destruct (isValidStateForFlags _ _); cbn [negb].
  - destruct (updateState _ _ _ _ _) as [c' evs]. eexists _, _, _. split; [reflexivity|]. cbn. rewrite Hm. by eexists.
  - destruct (bool_decide _); by eauto 10.
Qed.
Lemma udp_exec_open x t : is_Some (UDPTrack.connections t) →
  ∃ t' evs, UDPTrack.exec x t = Ret (t', evs) ∧ is_Some (UDPTrack.connections t').
Proof. intros [m Hm]. destruct (udp_exec_step x t m Hm) as (m' & evs & -> & _). eexists _, _. split; [done|]. by eexists. Qed.
Lemma icmp_exec_open x t : is_Some (ICMPTrack.connections t) →
  ∃ t' evs, ICMPTrack.exec x t = Ret (t', evs) ∧ is_Some (ICMPTrack.connections t').
Proof. intros [m Hm]. destruct (icmp_exec_step x t m Hm) as (m' & evs & -> & _). eexists _, _. split; [done|]. by eexists. Qed.

(** The UDP tracker runs [x] when the packet is a datagram. *)
Definition udp_moved (l : layer) (x : UDPTrack.op) (u u' : UDPTracker) : Prop :=
  match l with LayerTypeUDP => ∃ evs, UDPTrack.exec x u = Ret (u', evs) | _ => u' = u end.

Lemma same_world w u i c : trackers_are (w_m w) u i c →
  report [] (with_m (set_trackers (Some u) (Some i) (Some c) (w_m w)) w) = w.
Proof.
  intros (Hu & Hi & Hc). destruct w as [m d p r inj]. unfold report, with_m, set_trackers, update. cbn [w_m w_d w_p w_reports w_injected] in *.
  rewrite app_nil_r, <- Hu, <- Hi, <- Hc. by destruct m.
Qed.

Lemma trackInbound_spec now flow size src dst rid w l u i c :
  transport (w_d w) = Some l → trackers_are (w_m w) u i c → opened u i c →
  ∃ u' i' c' evs,
    trackInbound now flow size src dst rid w
    = Ret (tt, with_d (reset_origPort 0 (w_d w)) (report evs (with_m (set_trackers (Some u') (Some i') (Some c') (w_m w)) w)))
    ∧ opened u' i' c'
    ∧ udp_moved l (UDPTrack.Inbound now flow (udp_of (w_d w) src dst size) rid (dnatOrigPort (w_d w))) u u'.
Proof.
  intros Hl (Hu & Hi & Hc) (Ou & Oi & Oc). unfold trackInbound, fl_bind, the_decoder, fl_lift, index. unfold transport in Hl.
  cbn [mbind outcome_bind]. rewrite Hl. cbn [mbind outcome_bind].
  destruct l; cbn beta iota; unfold on_udp, on_tcp, on_icmp, fl_ret; rewrite ?Hu, ?Hi, ?Hc; cbn [mbind outcome_bind].
  3:{ destruct (tcp_track_open now flow (tcp_of (w_d w) src dst size) Ingress rid (dnatOrigPort (w_d w)) c Oc) as (c' & evs & E & Oc').
      unfold ConnTrack.TrackInbound. rewrite E. cbn. exists u, i, c', evs. done. }
  3:{ destruct (udp_exec_open (UDPTrack.Inbound now flow (udp_of (w_d w) src dst size) rid (dnatOrigPort (w_d w))) u Ou) as (u' & evs & E & Ou').
      cbn in E. rewrite E. cbn. exists u', i, c, evs. do 2 (split; [done|]). exists evs. exact E. }
  3:{ destruct (icmp_exec_open (ICMPTrack.Inbound now flow (icmp_of (w_d w) src dst size) rid) i Oi) as (i' & evs & E & Oi').
      cbn in E. rewrite E. cbn. exists u, i', c, evs. done. }
  all: exists u, i, c, []; (split; [|done]); by rewrite same_world.
Qed.

(** A tracker knows the connection the packet belongs to and lets it through. *)
Definition tracked (now size : Z) (d : decoder) (src dst : Addr) (m : Manager) : bool :=
  match transport d with
  | Some LayerTypeTCP =>
      match tcpTracker m with Some c => (ConnTrack.IsValidInbound now (tcp_of d src dst size) c).1.1 | None => false end
  | Some LayerTypeUDP =>
      match udpTracker m with Some u => (UDPTrack.IsValidInbound now (udp_of d src dst size) u).1 | None => false end
  | Some LayerTypeICMPv4 =>
      match icmpTracker m with Some i => (ICMPTrack.IsValidInbound now (icmp_of d src dst size) i).1 | None => false end
  | _ => false
  end.

Lemma isValidTracked_spec now size src dst w l u i c :
  transport (w_d w) = Some l → trackers_are (w_m w) u i c → opened u i c →
  ∃ u' i' c' evs,
    isValidTrackedConnection now size src dst w
    = Ret (tracked now size (w_d w) src dst (w_m w), report evs (with_m (set_trackers (Some u') (Some i') (Some c') (w_m w)) w))
    ∧ opened u' i' c' ∧ udp_moved l (UDPTrack.Check now (udp_of (w_d w) src dst size)) u u'.
Proof.
  intros Hl Ht (Ou & Oi & Oc). pose proof Ht as (Hu & Hi & Hc). unfold isValidTrackedConnection, fl_bind, the_decoder, fl_lift, index.
  unfold tracked. rewrite Hl. unfold transport in Hl. cbn [mbind outcome_bind]. rewrite Hl. cbn [mbind outcome_bind].
  destruct l; cbn beta iota; unfold on_udp, on_tcp, on_icmp, fl_ret; rewrite ?Hu, ?Hi, ?Hc; cbn [mbind outcome_bind].
  3:{ destruct (tcp_valid_open now (tcp_of (w_d w) src dst size) c Oc) as (b & c' & evs & E & Oc').
      rewrite E. exists u, i, c', evs. done. }
  3:{ destruct (udp_exec_open (UDPTrack.Check now (udp_of (w_d w) src dst size)) u Ou) as (u' & evs & E & Ou').
      cbn in E. injection E as <- <-. destruct (UDPTrack.IsValidInbound now (udp_of (w_d w) src dst size) u) as [b u'] eqn:E.
      exists u', i, c, []. do 2 (split; [done|]). exists []. cbn. by rewrite E. }
  3:{ destruct (icmp_exec_open (ICMPTrack.Check now (icmp_of (w_d w) src dst size)) i Oi) as (i' & evs & E & Oi').
      cbn in E. injection E as <- <-. destruct (ICMPTrack.IsValidInbound now (icmp_of (w_d w) src dst size) i) as [b i'].
      exists u, i', c, []. done. }
  all: exists u, i, c, []; (split; [|done]); by rewrite same_world.
Qed.

(** *** The verdict on a packet *)
Section verdict.
Context (order : RuleSet → list PeerRule) (Horder : ∀ rs r, r ∈ order rs ↔ ∃ i, rs !! i = Some r).

Record filter_ok (m : Manager) : Prop := {
  fo_peer : rules_wf (rules m); fo_route : routes_wf (rules m); fo_stateful : stateful m = true;
  fo_open : ∃ u i c, trackers_are m u i c ∧ opened u i c }.

(** The rules for packets to this machine, and for packets to be routed, let it pass. *)
Definition peer_passes (d : decoder) (src : addr) (l : layer) (m : Manager) : Prop :=
  isSpecialICMP d = true ∨ admitted_by (rules m) src l d.
Definition ports_of (l : layer) (d : decoder) : Z * Z :=
  if is_port_layer l then (src_port l d, dst_port l d) else (0, 0).
Definition route_passes (d : decoder) (src dst : Addr) (l : layer) (m : Manager) : Prop :=
  let '(sp, dp) := ports_of l d in
  (∀ r, r ∈ routeRules (rules m) → action r = ActionDrop → ¬ route_covers r src dst l sp dp)
  ∧ ∃ r, r ∈ routeRules (rules m) ∧ action r = ActionAccept ∧ route_covers r src dst l sp dp.

(** The packet goes to the operating system or the netstack. *)
Definition passes (now size : Z) (d : decoder) (src : addr) (dst : Addr) (l : layer) (m : Manager) : Prop :=
  tracked now size d (Some src) dst m = true
  ∨ IsLocalIP dst (localipmanager m) = true ∧ peer_passes d src l m ∧ shouldForward d dst m = false
  ∨ IsLocalIP dst (localipmanager m) = false ∧ routingEnabled m = true ∧ nativeRouter m = true.
(** The packet goes to the forwarder. *)
Definition forwards (now size : Z) (d : decoder) (src : addr) (dst : Addr) (l : layer) (m : Manager) : Prop :=
  tracked now size d (Some src) dst m = false ∧ is_Some (forwarder m)
  ∧ (IsLocalIP dst (localipmanager m) = true ∧ peer_passes d src l m ∧ shouldForward d dst m = true
     ∨ IsLocalIP dst (localipmanager m) = false ∧ routingEnabled m = true ∧ nativeRouter m = false
       ∧ route_passes d (Some src) dst l m).

(** What a handler leaves behind: the bytes and the rules as they were, open trackers, and the
    packet with the forwarder exactly when [fwd]. *)
Definition outcome_ok (fwd : Prop) (w w' : world) : Prop :=
  w_p w' = w_p w ∧ rules (w_m w') = rules (w_m w) ∧ filter_ok (w_m w')
  ∧ (fwd ∧ w_injected w' = w_injected w ++ [w_p w] ∨ ¬ fwd ∧ w_injected w' = w_injected w).

Lemma set_trackers_ok m u i c : filter_ok m → opened u i c → filter_ok (set_trackers (Some u) (Some i) (Some c) m).
Proof. intros [] Ho. split; try done. by exists u, i, c. Qed.

Lemma trackInbound_ok now flow size src dst rid w l : filter_ok (w_m w) → transport (w_d w) = Some l →
  ∃ w', trackInbound now flow size src dst rid w = Ret (tt, w') ∧ outcome_ok False w w'.
Proof.
  intros Hok Hl. pose proof Hok as [_ _ _ (u & i & c & Ht & Ho)].
  destruct (trackInbound_spec now flow size src dst rid w l u i c Hl Ht Ho) as (u' & i' & c' & evs & -> & Ho' & _).
  eexists. split; [reflexivity|]. do 2 (split; [done|]). split; [by apply set_trackers_ok|]. right. split; [tauto|done].
Qed.

Lemma report_drop_spec flow size src dst rid w l : transport (w_d w) = Some l →
  ∃ e, report_drop flow size src dst rid w = Ret (tt, report [e] w).
Proof.
  intros Hl. unfold report_drop, fl_bind, the_decoder, fl_lift, getProtocolFromPacket, getPortsFromPacket, index.
  unfold transport in Hl. cbn [mbind outcome_bind]. rewrite Hl. cbn [mbind outcome_bind].
  destruct l; cbn; by eexists.
Qed.
Lemma report_ok evs w : filter_ok (w_m w) → outcome_ok False w (report evs w).
Proof. intros Hok. do 3 (split; [done|]). right. split; [tauto|done]. Qed.
Lemma outcome_ok_iff P Q w w' : (P ↔ Q) → outcome_ok P w w' → outcome_ok Q w w'.
Proof. intros HPQ (? & ? & ? & Hf). do 3 (split; [done|]). tauto. Qed.

Lemma InjectIncomingPacket_spec w : (20 ≤ length (w_p w))%nat →
  InjectIncomingPacket w
  = Ret (true, {| w_m := w_m w; w_d := w_d w; w_p := w_p w; w_reports := w_reports w; w_injected := w_injected w ++ [w_p w] |}).
Proof. intros Hl. unfold InjectIncomingPacket. by rewrite bool_decide_eq_false_2 by lia. Qed.

Lemma handleLocalTraffic_spec now flow size src dst w l :
  filter_ok (w_m w) → transport (w_d w) = Some l → (20 ≤ length (w_p w))%nat →
  ∃ b w', handleLocalTraffic order now flow size (Some src) dst w = Ret (b, w')
    ∧ (b = false ↔ peer_passes (w_d w) src l (w_m w) ∧ shouldForward (w_d w) dst (w_m w) = false)
    ∧ outcome_ok (is_Some (forwarder (w_m w)) ∧ peer_passes (w_d w) src l (w_m w) ∧ shouldForward (w_d w) dst (w_m w) = true) w w'.
Proof.
  intros Hok Hl Hlen. pose proof Hok as [Hp _ _ _]. unfold handleLocalTraffic, fl_bind at 1 2 3, the_decoder, the_manager, fl_lift.
  cbn [mbind outcome_bind]. fold (peer_passes (w_d w) src l (w_m w)).
  destruct (peer_acl_decides order Horder (rules (w_m w)) src (w_d w) l Hp Hl) as (rid & blocked & -> & Hb). cbn [mbind outcome_bind].
  fold (peer_passes (w_d w) src l (w_m w)) in Hb. destruct blocked.
  - destruct (report_drop_spec flow size (Some src) dst rid w l Hl) as [e He]. unfold fl_bind. rewrite He. cbn [mbind outcome_bind].
    exists true, (report [e] w). split; [done|]. split; [intuition congruence|].
    eapply outcome_ok_iff; [|by apply report_ok]. intuition congruence.
  - destruct (shouldForward (w_d w) dst (w_m w)) eqn:Hf.
    + unfold handleForwardedLocalTraffic, fl_bind, the_manager. cbn [mbind outcome_bind].
      destruct (forwarder (w_m w)) eqn:Hfw.
      * rewrite InjectIncomingPacket_spec by done. cbn [mbind outcome_bind]. eexists true, _. split; [reflexivity|].
        split; [intuition congruence|]. do 2 (split; [done|]). split; [done|]. left. split; [|done]. split; [done|]. tauto.
      * exists true, w. split; [done|]. split; [intuition congruence|]. do 3 (split; [done|]). right. split; [|done].
        intros [[? ?] _]. done.
    + destruct (trackInbound_ok now flow size (Some src) dst rid w l Hok Hl) as (w' & E & Hw). unfold fl_bind. rewrite E. cbn.
      exists false, w'. split; [done|]. split; [tauto|]. eapply outcome_ok_iff; [|exact Hw]. intuition congruence.
Qed.

Lemma handleRoutedTraffic_spec now flow size src dst w l :
  filter_ok (w_m w) → transport (w_d w) = Some l → (20 ≤ length (w_p w))%nat →
  ∃ b w', handleRoutedTraffic now flow size src dst w = Ret (b, w')
    ∧ (b = false ↔ routingEnabled (w_m w) = true ∧ nativeRouter (w_m w) = true)
    ∧ outcome_ok (is_Some (forwarder (w_m w)) ∧ routingEnabled (w_m w) = true ∧ nativeRouter (w_m w) = false
                  ∧ route_passes (w_d w) src dst l (w_m w)) w w'.
Proof.
  intros Hok Hl Hlen. pose proof Hok as [_ Hr _ _]. unfold handleRoutedTraffic, fl_bind at 1, the_manager. cbn [mbind outcome_bind].
  destruct (routingEnabled (w_m w)) eqn:Hre; cbn [negb].
  2:{ exists true, w. split; [done|]. split; [intuition congruence|]. do 3 (split; [done|]). right. split; [|done]. intuition congruence. }
  destruct (nativeRouter (w_m w)) eqn:Hnr.
  { destruct (trackInbound_ok now flow size src dst None w l Hok Hl) as (w' & E & Hw). unfold fl_bind. rewrite E. cbn.
    exists false, w'. split; [done|]. split; [tauto|]. eapply outcome_ok_iff; [|exact Hw]. intuition congruence. }
  assert (Hports : getPortsFromPacket (w_d w) = Ret (ports_of l (w_d w))).
  { unfold getPortsFromPacket, index. unfold transport in Hl. rewrite Hl. by destruct l. }
  unfold fl_bind at 1 2 3 4, the_decoder, fl_lift, index. unfold transport in Hl. cbn [mbind outcome_bind]. rewrite Hl.
  cbn [mbind outcome_bind]. rewrite Hports. cbn [mbind outcome_bind]. unfold route_passes. destruct (ports_of l (w_d w)) as [sp dp].
  destruct (route_acl_decides (rules (w_m w)) src dst l sp dp Hr) as (rid & pass & -> & Hpass). cbn [mbind outcome_bind].
  cbv beta iota. match type of Hpass with _ ↔ ?P => set (RP := P) in * end. destruct pass; cbn [negb].
  2:{ destruct (report_drop_spec flow size src dst rid w l Hl) as [e He]. unfold fl_bind. rewrite He. cbn [mbind outcome_bind].
      exists true, (report [e] w). split; [done|]. split; [intuition congruence|].
      eapply outcome_ok_iff; [|by apply report_ok]. intuition congruence. }
  destruct (forwarder (w_m w)) as [ids|] eqn:Hfw.
  2:{ exists true, w. split; [done|]. split; [intuition congruence|]. do 3 (split; [done|]). right. split; [|done].
      intros [[? ?] _]. done. }
  unfold fl_bind, change_ids. cbn [mbind outcome_bind]. rewrite InjectIncomingPacket_spec by done. cbn [mbind outcome_bind].
  eexists true, _. split; [reflexivity|]. split; [intuition congruence|]. do 2 (split; [done|]). split.
  - destruct Hok as [H1 H2 H3 H4]. by split.
  - left. split; [|done]. split; [done|]. tauto.
Qed.

Lemma judge_spec now flow size src dst w l :
  filter_ok (w_m w) → transport (w_d w) = Some l → (20 ≤ length (w_p w))%nat →
  ∃ b w', judge order now flow size (Some src, dst) w = Ret (b, w')
    ∧ (b = false ↔ passes now size (w_d w) src dst l (w_m w))
    ∧ outcome_ok (forwards now size (w_d w) src dst l (w_m w)) w w'.
Proof.
  intros Hok Hl Hlen. pose proof Hok as [_ _ Hst (u & i & c & Ht & Ho)].
  unfold judge, fl_bind at 1, the_manager. cbn [mbind outcome_bind fst snd]. rewrite Hst. unfold fl_bind.
  destruct (isValidTracked_spec now size (Some src) dst w l u i c Hl Ht Ho) as (u' & i' & c' & evs & -> & Ho' & _).
  cbn [mbind outcome_bind]. unfold passes, forwards. set (w1 := report evs _).
  assert (Hok1 : filter_ok (w_m w1)) by (by apply set_trackers_ok).
  destruct (tracked now size (w_d w) (Some src) dst (w_m w)) eqn:Htr.
  { exists false, w1. split; [done|]. split; [tauto|]. do 3 (split; [done|]). right. split; [intuition congruence|done]. }
  destruct (IsLocalIP dst (localipmanager (w_m w))) eqn:Hloc.
  - destruct (handleLocalTraffic_spec now flow size src dst w1 l Hok1 Hl Hlen) as (b & w' & -> & Hb & Hw).
    exists b, w'. split; [done|]. change (w_d w1) with (w_d w) in *.
    change (shouldForward (w_d w) dst (w_m w1)) with (shouldForward (w_d w) dst (w_m w)) in *.
    change (peer_passes (w_d w) src l (w_m w1)) with (peer_passes (w_d w) src l (w_m w)) in *.
    change (forwarder (w_m w1)) with (forwarder (w_m w)) in *. split; [rewrite Hb; intuition congruence|].
    destruct Hw as (? & ? & ? & ?). do 3 (split; [done|]). change (w_injected w1) with (w_injected w) in *. change (w_p w1) with (w_p w) in *.
    intuition congruence.
  - destruct (handleRoutedTraffic_spec now flow size (Some src) dst w1 l Hok1 Hl Hlen) as (b & w' & -> & Hb & Hw).
    exists b, w'. split; [done|]. change (w_d w1) with (w_d w) in *.
    change (routingEnabled (w_m w1)) with (routingEnabled (w_m w)) in *. change (nativeRouter (w_m w1)) with (nativeRouter (w_m w)) in *.
    change (route_passes (w_d w) (Some src) dst l (w_m w1)) with (route_passes (w_d w) (Some src) dst l (w_m w)) in *.
    change (forwarder (w_m w1)) with (forwarder (w_m w)) in *. split; [rewrite Hb; intuition congruence|].
    destruct Hw as (? & ? & ? & ?). do 3 (split; [done|]). change (w_injected w1) with (w_injected w) in *. change (w_p w1) with (w_p w) in *.
    intuition congruence.
Qed.
End verdict.

(** * The filter beside a kernel firewall ([hooks_filter.go])

    It only looks for the hooks: IPv4 packets that are not later fragments. *)
Record HooksFilter := { hf_udp : option PacketHook; hf_tcp : option PacketHook }.
Definition hooks_destination : pk (option (Z * Addr * Z)) :=
  (let* len := packet_len in
   if bool_decide (len < 20)%nat then pk_ret None
   else
     let* w0 := get16 0 in
     let b0 := Z.shiftr w0 8 in
     if negb (Z.shiftr b0 4 =? 4) then pk_ret None
     else
       let ihl := Z.to_nat (Z.land b0 0x0f * 4) in
       if bool_decide (ihl < 20 ∨ len < ihl + 4)%nat then pk_ret None
       else
         let* flagsAndOffset := get16 6 in
         if negb (Z.land flagsAndOffset 0x1fff =? 0) then pk_ret None
         else
           let* dst := get4 16 in
           match AddrFromSlice dst with
           | None => pk_ret None
           | Some a =>
               let* w8 := get16 8 in
               let* dstPort := get16 (ihl + 2) in
               pk_ret (Some (Z.land w8 0xff, Some a, dstPort))
           end)%pk.
Definition HooksFilter_FilterOutbound (f : HooksFilter) : pk bool :=
  (let* o := hooks_destination in
   match o with
   | None => pk_ret false
   | Some (proto, dstIP, dstPort) => λ p,
       if proto =? 17 then let '(b, p) := HookMatches (hf_udp f) dstIP dstPort p in (Ret b, p)
       else if proto =? 6 then let '(b, p) := HookMatches (hf_tcp f) dstIP dstPort p in (Ret b, p)
       else (Ret false, p)
   end)%pk.
Definition HooksFilter_FilterInbound (p : bytes) : bool := false.
Definition HooksFilter_SetUDPPacketHook (ip : Addr) (dPort : Z) (hook : option (bytes → bool * bytes)) (f : HooksFilter) : HooksFilter :=
  {| hf_udp := SetHook ip dPort hook; hf_tcp := hf_tcp f |}.
Definition HooksFilter_SetTCPPacketHook (ip : Addr) (dPort : Z) (hook : option (bytes → bool * bytes)) (f : HooksFilter) : HooksFilter :=
  {| hf_udp := hf_udp f; hf_tcp := SetHook ip dPort hook |}.

(** No packet makes it read outside of the packet. *)
Lemma hooks_filter_total f p : ∃ b p', HooksFilter_FilterOutbound f p = (Ret b, p').
Proof.
  assert (H : ∃ o, hooks_destination p = (Ret o, p)).
  { unfold hooks_destination, pk_bind, packet_len, pk_ret. case_bool_decide; [by eexists|]. unfold get16, get4.
    rewrite bool_decide_eq_true_2 by lia. destruct (negb _); [by eexists|].
    set (ihl := Z.to_nat _). case_bool_decide as Hi; [by eexists|]. rewrite bool_decide_eq_true_2 by lia.
    destruct (negb _); [by eexists|]. rewrite bool_decide_eq_true_2 by lia. destruct (AddrFromSlice _); [|by eexists].
    rewrite bool_decide_eq_true_2 by lia. rewrite bool_decide_eq_true_2 by lia. by eexists. }
  destruct H as [o Ho]. unfold HooksFilter_FilterOutbound, pk_bind. rewrite Ho. destruct o as [[[proto dst] port]|]; [|by eexists _, _].
  destruct (proto =? 17); [destruct (HookMatches _ _ _ _); by eexists _, _|].
  destruct (proto =? 6); [destruct (HookMatches _ _ _ _); by eexists _, _|by eexists _, _].
Qed.
