(* ===== verification/FilterRuns.v ===== *)
(** Runs of the user-space packet filter: what a whole history of packets, rule changes and
    clean-ups guarantees about the next packet.

    The history is the list of UDP operations that the packets of the past stand for: every
    datagram that was sent, every datagram that was let in, every datagram that came, and every
    clean-up.  Packets are handled one after the other, each with some decoder of the pool and
    with any clock. *)
From S2P Require Import Prelude GoText FlowTable ConnTrack UDPTrack ICMPTrack.
From S2P Require Import NetIP Checksum PacketNat PacketDnat MssClamp LocalIP FirewallRules PeerAcl RouteAcl PacketFilter.
Open Scope Z_scope.

(** *** Steps that leave the core of the manager alone *)
(** The rules, the translations and the trackers are the same. *)
Definition same_core (m m' : Manager) : Prop :=
  rules m' = rules m ∧ stateful m' = stateful m ∧ udpTracker m' = udpTracker m ∧ icmpTracker m' = icmpTracker m
  ∧ tcpTracker m' = tcpTracker m.
#[export] Instance same_core_preorder : PreOrder same_core.
Proof. split; [by intros m|]. intros m1 m2 m3 H1 H2. unfold same_core in *. intuition congruence. Qed.

(** The manager changes by [R] only. *)
Definition pres (R : Manager → Manager → Prop) {A} (x : fl A) : Prop := ∀ w a w', x w = Ret (a, w') → R (w_m w) (w_m w').
Abbreviation quiet := (pres same_core).

Section pres.
Context (R : Manager → Manager → Prop) {HR : PreOrder R}.
Lemma pres_bind {A B} (x : fl A) (f : A → fl B) : pres R x → (∀ a, pres R (f a)) → pres R (fl_bind x f).
Proof.
  intros Hx Hf w b w'. unfold fl_bind. destruct (x w) as [[a w1]|[]|] eqn:E; cbn; [|done]. intros H.
  transitivity (w_m w1); [by eapply Hx|by eapply Hf].
Qed.
Lemma pres_ret {A} (a : A) : pres R (fl_ret a).
Proof. intros w ? ? [= <- <-]. reflexivity. Qed.
Lemma quiet_lift {A} (o : outcome Empty_set A) : pres R (fl_lift o).
Proof. intros w ? ? H. unfold fl_lift in H. destruct o as [|[]|]; cbn in H; [|done]. injection H as <- <-. reflexivity. Qed.
Lemma quiet_decoder : pres R the_decoder.
Proof. intros w ? ? [= <- <-]. reflexivity. Qed.
Lemma quiet_manager : pres R the_manager.
Proof. intros w ? ? [= <- <-]. reflexivity. Qed.
Lemma quiet_on_packet {A} (x : pk A) : pres R (on_packet x).
Proof. intros w ? ? H. unfold on_packet in H. destruct (x (w_p w)) as [[]]; try done; injection H as <- <-; reflexivity. Qed.
Lemma quiet_inject : pres R InjectIncomingPacket.
Proof. intros w ? ?. unfold InjectIncomingPacket. case_bool_decide; intros [= <- <-]; reflexivity. Qed.
Lemma quiet_decode decode : pres R (DecodeLayers decode).
Proof. intros w ? ?. unfold DecodeLayers. destruct (decode _ _). intros [= <- <-]. reflexivity. Qed.
Lemma quiet_hook h dst port : pres R (hook_drops h dst port).
Proof. intros w ? ?. unfold hook_drops. destruct (HookMatches _ _ _ _). intros [= <- <-]. reflexivity. Qed.
Lemma quiet_set_decoder {A} (a : A) (f : decoder → decoder) : pres R (λ w, Ret (a, with_d (f (w_d w)) w)).
Proof. intros w ? ? [= <- <-]. reflexivity. Qed.
Lemma quiet_report {A} (a : A) evs : pres R (λ w, Ret (a, report evs w)).
Proof. intros w ? ? [= <- <-]. reflexivity. Qed.
End pres.
Lemma quiet_ids f : quiet (change_ids f).
Proof. intros w ? ? [= <- <-]. done. Qed.

Create HintDb quiet.
#[export] Hint Resolve pres_ret quiet_lift quiet_decoder quiet_manager quiet_on_packet quiet_inject quiet_ids quiet_decode
  quiet_hook quiet_set_decoder quiet_report : quiet.
#[export] Hint Extern 1 (PreOrder _) => typeclasses eauto : quiet.
Ltac quiet_tac := repeat first [progress intros | solve [auto 2 with quiet nocore] | apply pres_bind; [typeclasses eauto| |] | case_match].

Section pres_handlers.
Context (R : Manager → Manager → Prop) {HR : PreOrder R}.
Lemma quiet_report_drop flow size src dst rid : pres R (report_drop flow size src dst rid).
Proof. unfold report_drop. quiet_tac. Qed.
Lemma quiet_redecode decode b ips : pres R (redecode decode b ips).
Proof. unfold redecode. quiet_tac. Qed.
Lemma quiet_port_dnat ips : pres R (port_dnat ips).
Proof. unfold port_dnat. quiet_tac. Qed.
Lemma quiet_reverse : pres R reverse_dnat.
Proof. unfold reverse_dnat. quiet_tac. Qed.
#[local] Hint Resolve quiet_redecode quiet_port_dnat quiet_reverse : quiet.
Lemma quiet_translations decode ips : pres R (translations decode ips).
Proof. unfold translations. quiet_tac. Qed.
Lemma quiet_isValid decode : pres R (isValidPacket decode).
Proof. unfold isValidPacket. quiet_tac. Qed.
End pres_handlers.

(** *** What the history of packets says about the UDP tracker *)
Abbreviation udp_evidence := (evidenced UDPTrack.base UDPTrack.op_time UDPTrack.mentions UDPTrack.opens).
Abbreviation udp_alive := (alive UDPTrack.base).
Definition within (tau timeout : Z) (xs : list UDPTrack.op) : Prop := Forall (λ x, tau ≤ UDPTrack.op_time x ≤ tau + timeout) xs.
(** Every entry of the later tracker is evidence of operations of the history extended by [xs], and
    a flow that was seen at [tau] stays while [xs] are within the timeout. *)
Definition advances (xs : list UDPTrack.op) (u u' : UDPTracker) : Prop := ∀ mu h,
  UDPTrack.connections u = Some mu → udp_evidence h mu →
  UDPTrack.timeout u' = UDPTrack.timeout u
  ∧ ∃ mu', UDPTrack.connections u' = Some mu' ∧ udp_evidence (xs ++ h) mu'
    ∧ ∀ tau k, udp_alive tau k mu → within tau (UDPTrack.timeout u) xs → udp_alive tau k mu'.

Lemma advances_refl u : advances [] u u.
Proof. intros mu h Hm He. split; [done|]. by exists mu. Qed.
Lemma advances_trans xs ys u u' u'' : advances xs u u' → advances ys u' u'' → advances (ys ++ xs) u u''.
Proof.
  intros H1 H2 mu h Hm He. destruct (H1 mu h Hm He) as (Ht1 & mu1 & Hm1 & He1 & Ha1).
  destruct (H2 mu1 _ Hm1 He1) as (Ht2 & mu2 & Hm2 & He2 & Ha2). split; [congruence|]. exists mu2. rewrite <- app_assoc.
  do 2 (split; [done|]). intros tau k Hk [Hys Hxs]%Forall_app. rewrite Ht1 in Ha2. apply Ha2; [|done]. by apply Ha1.
Qed.
Lemma advances_more x xs u u' : advances xs u u' → advances (x :: xs) u u'.
Proof.
  intros H mu h Hm He. destruct (H mu h Hm He) as (Ht & mu' & Hm' & He' & Ha'). split; [done|]. exists mu'. split; [done|].
  split; [by apply evidenced_mono|]. intros tau k Hk [_ Hxs]%Forall_cons. by apply Ha'.
Qed.
(** One step of the table is an advance by the operation it belongs to. *)
Lemma advances_step x u mu mu' evs : UDPTrack.connections u = Some mu → udp_step (UDPTrack.timeout u) x mu mu' evs →
  advances [x] u (UDPTrack.set_connections (Some mu') u).
Proof.
  intros Hm Hs mu0 h Hm0 He. rewrite Hm in Hm0. injection Hm0 as <-. split; [done|]. exists mu'. split; [done|].
  split; [by eapply dstep_evidenced|]. intros tau k Hk [Hx _]%Forall_cons. by eapply dstep_alive.
Qed.
Lemma advances_exec x u u' evs : is_Some (UDPTrack.connections u) → UDPTrack.exec x u = Ret (u', evs) → advances [x] u u'.
Proof.
  intros [mu Hm] Hx. destruct (udp_exec_step x u mu Hm) as (mu' & evs' & E & Hs). rewrite E in Hx. injection Hx as <- <-.
  by eapply advances_step.
Qed.
(** The rule id and the port that a tracked packet carries do not matter. *)
Lemma advances_inbound now flow p rid port u u' evs : is_Some (UDPTrack.connections u) →
  UDPTrack.exec (UDPTrack.Inbound now flow p rid port) u = Ret (u', evs) → advances [UDPTrack.Inbound now flow p None 0] u u'.
Proof.
  intros [mu Hm] Hx. cbn in Hx. unfold UDPTrack.TrackInbound in Hx.
  destruct (udp_track_step now flow p Ingress rid port u mu (UDPTrack.Inbound now flow p None 0)) as (mu' & evs' & E & Hs); [done..|].
  rewrite E in Hx. injection Hx as <- <-. by eapply advances_step.
Qed.

(** The operations a packet stands for: one that was sent, one that was let in, one that came. *)
Definition sent_op (now flow size : Z) (d : decoder) (ips : Addr * Addr) : list UDPTrack.op :=
  match transport d with
  | Some LayerTypeUDP => [UDPTrack.Outbound now flow (udp_of d ips.1 ips.2 size)]
  | _ => []
  end.
Definition received_ops (now flow size : Z) (d : decoder) (ips : Addr * Addr) (dropped : bool) : list UDPTrack.op :=
  match transport d with
  | Some LayerTypeUDP =>
      (if dropped then [] else [UDPTrack.Inbound now flow (udp_of d ips.1 ips.2 size) None 0])
      ++ [UDPTrack.Check now (udp_of d ips.1 ips.2 size)]
  | _ => []
  end.

(** The rules stay, the trackers stay open, and the UDP tracker advances by [xs]. *)
Definition progress (xs : list UDPTrack.op) (m m' : Manager) : Prop := ∀ u i c,
  trackers_are m u i c → opened u i c →
  rules m' = rules m ∧ stateful m' = stateful m ∧ ∃ u' i' c', trackers_are m' u' i' c' ∧ opened u' i' c' ∧ advances xs u u'.
Lemma progress_same m m' : same_core m m' → progress [] m m'.
Proof.
  intros (Hr & Hs & Hu & Hi & Hc) u i c (Eu & Ei & Ec) Ho. do 2 (split; [done|]). exists u, i, c.
  split; [unfold trackers_are; split_and!; congruence|]. split; [done|]. apply advances_refl.
Qed.
Lemma progress_trans xs ys m m' m'' : progress xs m m' → progress ys m' m'' → progress (ys ++ xs) m m''.
Proof.
  intros H1 H2 u i c Ht Ho. destruct (H1 u i c Ht Ho) as (Hr1 & Hs1 & u1 & i1 & c1 & Ht1 & Ho1 & A1).
  destruct (H2 u1 i1 c1 Ht1 Ho1) as (Hr2 & Hs2 & u2 & i2 & c2 & Ht2 & Ho2 & A2).
  do 2 (split; [congruence|]). exists u2, i2, c2. do 2 (split; [done|]). by eapply advances_trans.
Qed.
Lemma progress_more x xs m m' : progress xs m m' → progress (x :: xs) m m'.
Proof.
  intros H u i c Ht Ho. destruct (H u i c Ht Ho) as (? & ? & u' & i' & c' & ? & ? & ?). do 2 (split; [done|]).
  exists u', i', c'. do 2 (split; [done|]). by apply advances_more.
Qed.

(** A computation that needs a transport layer has one when it returns. *)
Lemma needs_transport {A} w (f : layer → fl A) r :
  (do d := the_decoder in do l := fl_lift (index 1 (decoded d)) in f l) w = Ret r → ∃ l, transport (w_d w) = Some l.
Proof.
  unfold fl_bind, the_decoder, fl_lift, index, transport. cbn. destruct (decoded (w_d w) !! 1%nat); [by eexists|done].
Qed.

Lemma trackInbound_progress now flow size src dst rid w w' :
  trackInbound now flow size src dst rid w = Ret (tt, w') →
  progress (match transport (w_d w) with Some LayerTypeUDP => [UDPTrack.Inbound now flow (udp_of (w_d w) src dst size) None 0] | _ => [] end)
    (w_m w) (w_m w').
Proof.
  intros H u i c Ht Ho. destruct (needs_transport _ _ _ H) as [l Hl].
  destruct (trackInbound_spec now flow size src dst rid w l u i c Hl Ht Ho) as (u' & i' & c' & evs & E & Ho' & Hm).
  rewrite E in H. injection H as <-. do 2 (split; [done|]). exists u', i', c'. do 2 (split; [done|]). rewrite Hl.
  destruct l; cbn in Hm; try (subst u'; apply advances_refl). destruct Hm as [evs' Hx]. destruct Ho as (Ou & _). by eapply advances_inbound.
Qed.
Lemma isValidTracked_progress now size src dst w b w' :
  isValidTrackedConnection now size src dst w = Ret (b, w') →
  progress (match transport (w_d w) with Some LayerTypeUDP => [UDPTrack.Check now (udp_of (w_d w) src dst size)] | _ => [] end)
    (w_m w) (w_m w').
Proof.
  intros H u i c Ht Ho. destruct (needs_transport _ _ _ H) as [l Hl].
  destruct (isValidTracked_spec now size src dst w l u i c Hl Ht Ho) as (u' & i' & c' & evs & E & Ho' & Hm).
  rewrite E in H. injection H as _ <-. do 2 (split; [done|]). exists u', i', c'. do 2 (split; [done|]). rewrite Hl.
  destruct l; cbn in Hm; try (subst u'; apply advances_refl). destruct Hm as [evs' Hx]. destruct Ho as (Ou & _). by eapply advances_exec.
Qed.

Lemma isValidTracked_decoder now size src dst w b w' :
  isValidTrackedConnection now size src dst w = Ret (b, w') → w_d w' = w_d w.
Proof.
  unfold isValidTrackedConnection, fl_bind, the_decoder, fl_lift. cbn [mbind outcome_bind].
  destruct (index 1 (decoded (w_d w))) as [l|[]|]; cbn [mbind outcome_bind]; [|done].
  destruct l; unfold on_tcp, on_udp, on_icmp, fl_ret; try (intros [= _ <-]; done).
  - destruct (tcpTracker (w_m w)); [|done]. cbn. destruct (ConnTrack.IsValidInbound _ _ _) as [[? ?] ?]. intros [= _ <-]. done.
  - destruct (udpTracker (w_m w)); [|done]. cbn. destruct (UDPTrack.IsValidInbound _ _ _). intros [= _ <-]. done.
  - destruct (icmpTracker (w_m w)); [|done]. cbn. destruct (ICMPTrack.IsValidInbound _ _ _). intros [= _ <-]. done.
Qed.

Definition let_in (now flow size : Z) (d : decoder) (src dst : Addr) (dropped : bool) : list UDPTrack.op :=
  if dropped then []
  else match transport d with Some LayerTypeUDP => [UDPTrack.Inbound now flow (udp_of d src dst size) None 0] | _ => [] end.

(** A computation that only drops the packet, or that tracks it and lets it in. *)
Lemma drops_progress (x : fl ()) w b w' now flow size src dst : quiet x →
  (do _ := x in fl_ret true) w = Ret (b, w') → progress (let_in now flow size (w_d w) src dst b) (w_m w) (w_m w').
Proof.
  intros Hq H. assert (b = true) as ->.
  { unfold fl_bind in H. destruct (x w) as [[]| |]; cbn in H; try done. by injection H as <- <-. }
  apply progress_same. assert (Hx : quiet (do _ := x in fl_ret true)) by (apply (pres_bind same_core); [done|]; intros; apply (pres_ret same_core)).
  by eapply Hx.
Qed.
Lemma tracks_progress w b w' now flow size src dst rid :
  (do _ := trackInbound now flow size src dst rid in fl_ret false) w = Ret (b, w') →
  progress (let_in now flow size (w_d w) src dst b) (w_m w) (w_m w').
Proof.
  unfold fl_bind. destruct (trackInbound now flow size src dst rid w) as [[[] w1]|[]|] eqn:E; cbn; [|done]. intros [= <- <-].
  by eapply trackInbound_progress.
Qed.

Lemma handleLocal_progress order now flow size src dst w b w' :
  handleLocalTraffic order now flow size src dst w = Ret (b, w') →
  progress (let_in now flow size (w_d w) src dst b) (w_m w) (w_m w').
Proof.
  unfold handleLocalTraffic, fl_bind at 1 2 3, the_decoder, the_manager, fl_lift. cbn [mbind outcome_bind].
  destruct (peerACLsBlock _ _ _ _) as [[rid blocked]|[]|]; cbn [mbind outcome_bind]; [|done]. destruct blocked.
  - apply drops_progress, (quiet_report_drop same_core).
  - destruct (shouldForward _ _ _); [|apply tracks_progress].
    unfold handleForwardedLocalTraffic, fl_bind at 1, the_manager. cbn [mbind outcome_bind]. destruct (forwarder (w_m w)).
    + unfold fl_bind. destruct (InjectIncomingPacket w) as [[ok w1]|[]|] eqn:E; cbn; [|done]. intros [= <- <-].
      apply progress_same. by eapply (quiet_inject same_core).
    + intros [= <- <-]. by apply progress_same.
Qed.
Lemma handleRouted_progress now flow size src dst w b w' :
  handleRoutedTraffic now flow size src dst w = Ret (b, w') →
  progress (let_in now flow size (w_d w) src dst b) (w_m w) (w_m w').
Proof.
  unfold handleRoutedTraffic, fl_bind at 1, the_manager. cbn [mbind outcome_bind].
  destruct (routingEnabled (w_m w)); cbn [negb]; [|intros [= <- <-]; by apply progress_same].
  destruct (nativeRouter (w_m w)); [apply tracks_progress|].
  unfold fl_bind at 1 2 3 4, the_decoder, fl_lift. cbn [mbind outcome_bind].
  destruct (index 1 (decoded (w_d w))) as [l|[]|]; cbn [mbind outcome_bind]; [|done].
  destruct (getPortsFromPacket (w_d w)) as [[sp dp]|[]|]; cbn [mbind outcome_bind]; [|done].
  destruct (routeACLsPass _ _ _ _ _ _) as [[rid pass]|[]|]; cbn [mbind outcome_bind]; [|done].
  destruct pass; cbn [negb]; [|apply drops_progress, (quiet_report_drop same_core)].
  destruct (forwarder (w_m w)); [|intros [= <- <-]; by apply progress_same]. intros H.
  assert (b = true) as ->.
  { revert H. unfold fl_bind, change_ids. cbn. unfold InjectIncomingPacket. case_bool_decide; cbn; by intros [= <- _]. }
  apply progress_same. eapply (pres_bind same_core); [apply quiet_ids| |exact H]. intros ?. quiet_tac.
Qed.

Lemma judge_progress order now flow size ips w b w' : judge order now flow size ips w = Ret (b, w') →
  progress (received_ops now flow size (w_d w) ips b) (w_m w) (w_m w').
Proof.
  assert (Hops : received_ops now flow size (w_d w) ips b
    = let_in now flow size (w_d w) ips.1 ips.2 b
      ++ match transport (w_d w) with Some LayerTypeUDP => [UDPTrack.Check now (udp_of (w_d w) ips.1 ips.2 size)] | _ => [] end).
  { unfold received_ops, let_in. by destruct (transport (w_d w)) as [[]|], b. }
  rewrite Hops. clear Hops. unfold judge, fl_bind at 1, the_manager. cbn [mbind outcome_bind].
  assert (Htr : ∀ t w1, (if stateful (w_m w) then isValidTrackedConnection now size ips.1 ips.2 else fl_ret false) w = Ret (t, w1) →
    w_d w1 = w_d w ∧ progress (match transport (w_d w) with
      | Some LayerTypeUDP => [UDPTrack.Check now (udp_of (w_d w) ips.1 ips.2 size)] | _ => [] end) (w_m w) (w_m w1)).
  { intros t w1. destruct (stateful (w_m w)).
    - intros H. split; [by eapply isValidTracked_decoder|by eapply isValidTracked_progress].
    - intros [= _ <-]. split; [done|]. destruct (transport (w_d w)) as [[]|]; try (by apply progress_same).
      by apply progress_more, progress_same. }
  unfold fl_bind. set (check := if stateful (w_m w) then _ else _) in *.
  destruct (check w) as [[t w1]|[]|]; cbn [mbind outcome_bind]; [|done].
  destruct (Htr t w1 eq_refl) as [Hd Hp]. clear Htr. rewrite <- Hd in Hp |- *. intros H. eapply progress_trans; [exact Hp|]. clear Hp.
  revert H. destruct t.
  - intros [= <- <-]. unfold let_in. destruct (transport (w_d w1)) as [[]|]; try (by apply progress_same).
    by apply progress_more, progress_same.
  - destruct (IsLocalIP _ _); [apply handleLocal_progress|apply handleRouted_progress].
Qed.

Lemma trackOutbound_progress now flow size src dst w w' : trackOutbound now flow size src dst w = Ret (tt, w') →
  progress (sent_op now flow size (w_d w) (src, dst)) (w_m w) (w_m w').
Proof.
  intros H u i c Ht Ho. destruct (needs_transport _ _ _ H) as [l Hl]. pose proof Ht as (Hu & Hi & Hc). destruct Ho as (Ou & Oi & Oc).
  assert (Hq : ∀ w1 w2 o (x : pk ()), (if o =? 0 then fl_ret tt else do _ := on_packet x in fl_ret tt) w1 = Ret (tt, w2) →
    same_core (w_m w1) (w_m w2)).
  { intros w1 w2 o x. destruct (o =? 0); apply (pres_ret same_core) || (apply (pres_bind same_core); [apply (quiet_on_packet same_core)|intros; apply (pres_ret same_core)]). }
  unfold sent_op. rewrite Hl. revert H. unfold trackOutbound, fl_bind at 1 2, the_decoder, fl_lift, index. unfold transport in Hl.
  cbn [mbind outcome_bind]. rewrite Hl. cbn [mbind outcome_bind].
  destruct l; try (intros [= <-]; do 2 (split; [done|]); exists u, i, c; do 2 (split; [done|]); apply advances_refl).
  - unfold fl_bind at 1, on_tcp. rewrite Hc. destruct (tcp_outbound_open now flow (tcp_of (w_d w) src dst size) c Oc) as (o & c' & evs & -> & Oc').
    cbn [mbind outcome_bind]. intros (Hr & Hs & Eu & Ei & Ec)%Hq. cbn in Hr, Hs, Eu, Ei, Ec. do 2 (split; [done|]). exists u, i, c'.
    split; [unfold trackers_are; split_and!; congruence|]. split; [done|]. apply advances_refl.
  - unfold fl_bind at 1, on_udp. rewrite Hu. destruct (udp_exec_open (UDPTrack.Outbound now flow (udp_of (w_d w) src dst size)) u Ou) as (u' & evs & E & Ou').
    pose proof (advances_exec _ _ _ _ Ou E) as Ha. cbn in E.
    destruct (UDPTrack.TrackOutbound now flow (udp_of (w_d w) src dst size) u) as [[[o u1] evs1]|[]|]; cbn in E; [|done].
    injection E as <- <-. cbn [mbind outcome_bind]. intros (Hr & Hs & Eu & Ei & Ec)%Hq. cbn in Hr, Hs, Eu, Ei, Ec.
    do 2 (split; [done|]). exists u1, i, c. split; [unfold trackers_are; split_and!; congruence|]. done.
  - unfold on_icmp. rewrite Hi. destruct (icmp_exec_open (ICMPTrack.Outbound now flow (icmp_of (w_d w) src dst size)) i Oi) as (i' & evs & E & Oi').
    cbn in E. rewrite E. cbn. intros [= <-]. do 2 (split; [done|]). exists u, i', c. do 2 (split; [done|]). apply advances_refl.
Qed.

Section packets.
Context (decode : bytes → decoder → bool * decoder) (order : RuleSet → list PeerRule).

(** The UDP operations that a packet stands for, by direction. *)
Definition sent (now flow size : Z) (w : world) : list UDPTrack.op :=
  match decode (w_p w) (w_d w) with
  | (true, d) => match extractIPs d with Ret ips => sent_op now flow size d ips | _ => [] end
  | _ => []
  end.
Definition received (now flow size : Z) (w : world) (dropped : bool) : list UDPTrack.op :=
  match decode (w_p w) (w_d w) with
  | (true, d) =>
      match extractIPs d with
      | Ret ips => match translations decode ips (with_d d w) with
                   | Ret (Some ips, w1) => received_ops now flow size (w_d w1) ips dropped
                   | _ => []
                   end
      | _ => []
      end
  | _ => []
  end.

Lemma progress_extra xs m m' : progress [] m m' → progress xs m m'.
Proof. intros H. induction xs as [|x xs IH]; [done|by apply progress_more]. Qed.

Lemma filterInbound_progress now flow size w b w' : filterInbound decode order now flow size w = Ret (b, w') →
  progress (received now flow size w b) (w_m w) (w_m w').
Proof.
  unfold filterInbound, isValidPacket, fl_bind, DecodeLayers, the_decoder, received.
  destruct (decode (w_p w) (w_d w)) as [ok d]. cbn [mbind outcome_bind].
  destruct ok; cbn [negb]; [|intros [= <- <-]; by apply progress_same].
  match goal with |- (fl_ret ?v _ ≫= _) = _ → _ => destruct v as [valid fragment] end. unfold fl_ret. cbn [mbind outcome_bind].
  destruct valid; cbn [negb]; [|intros [= <- <-]; by apply progress_extra, progress_same]. cbn [w_d with_d].
  unfold fl_lift. destruct (extractIPs d) as [ips|[]|]; cbn [mbind outcome_bind]; [|done].
  case_bool_decide; [intros [= <- <-]; by apply progress_extra, progress_same|].
  destruct fragment; [intros [= <- <-]; by apply progress_extra, progress_same|].
  destruct (translations decode ips (with_d d w)) as [[r w1]|[]|] eqn:E; cbn [mbind outcome_bind]; [|done].
  pose proof (quiet_translations same_core decode ips _ _ _ E) as Hq. destruct r as [ips'|].
  - intros Hj%judge_progress. rewrite <- (app_nil_r (received_ops _ _ _ _ _ _)). eapply progress_trans; [|exact Hj].
    by apply progress_same.
  - intros [= <- <-]. by apply progress_same.
Qed.

Lemma filterOutbound_progress now flow size w b w' : filterOutbound decode now flow size w = Ret (b, w') →
  progress (sent now flow size w) (w_m w) (w_m w').
Proof.
  unfold filterOutbound, sent, fl_bind at 1 2, DecodeLayers, the_decoder. destruct (decode (w_p w) (w_d w)) as [ok d].
  cbn [mbind outcome_bind]. destruct ok; cbn [negb orb]; [|intros [= <- <-]; by apply progress_same].
  case_bool_decide; [intros [= <- <-]; by apply progress_extra, progress_same|]. cbn [w_d with_d].
  unfold fl_bind at 1, fl_lift. destruct (extractIPs d) as [[src dst]|[]|]; cbn [mbind outcome_bind]; [|done].
  case_bool_decide; [intros [= <- <-]; by apply progress_extra, progress_same|].
  unfold fl_bind at 1, the_manager. cbn [mbind outcome_bind]. unfold fl_bind at 1.
  set (hook := outbound_hooks _ _ _). assert (Hq : quiet hook) by (unfold hook, outbound_hooks; quiet_tac).
  destruct (hook (with_d d w)) as [[taken w1]|[]|] eqn:E; cbn [mbind outcome_bind]; [|done].
  assert (Hd : w_d w1 = d).
  { revert E. unfold hook, outbound_hooks. destruct (transport d) as [[]|]; unfold fl_ret; try (intros [= _ <-]; done).
    - unfold fl_bind, hook_drops, on_packet. destruct (HookMatches _ _ _ _) as [[] p]; cbn; [intros [= _ <-]; done|].
      destruct (mssClampEnabled (w_m w)); [|intros [= _ <-]; done]. cbn.
      destruct (clampTCPMSS _ _ _) as [[]]; cbn; try done; intros [= _ <-]; done.
    - unfold hook_drops. destruct (HookMatches _ _ _ _) as [b' p]. intros [= _ <-]. done. }
  specialize (Hq _ _ _ E). clear E hook. destruct taken.
  { intros [= <- <-]. apply progress_extra, progress_same. exact Hq. }
  unfold fl_bind at 1. destruct (trackOutbound now flow size src dst w1) as [[[] w2]|[]|] eqn:E; cbn [mbind outcome_bind]; [|done].
  apply trackOutbound_progress in E. rewrite Hd in E. intros Hend.
  rewrite <- (app_nil_l (sent_op _ _ _ _ _)), <- (app_nil_r (sent_op _ _ _ _ _)).
  eapply progress_trans; [eapply progress_trans; [apply progress_same, Hq|exact E]|]. apply progress_same.
  revert Hend. apply (pres_bind same_core); [apply (quiet_on_packet same_core)|intros; apply (pres_ret same_core)].
Qed.

(** ** Runs *)
Definition start (m : Manager) (d : decoder) (p : bytes) : world :=
  {| w_m := m; w_d := d; w_p := p; w_reports := []; w_injected := [] |}.

(** What may happen to the filter; the label is what the history gains. *)
Inductive filter_step : list UDPTrack.op → Manager → Manager → Prop :=
| fs_rules m t block : rule_step (rules m) t → filter_step [] m (set_rules t block m)
| fs_enable m e device created : filter_step [] m (EnableRouting e device created m).2
| fs_disable m : filter_step [] m (DisableRouting m).2
| fs_register m protocol port : filter_step [] m (RegisterNetstackService protocol port m)
| fs_unregister m protocol port : filter_step [] m (UnregisterNetstackService protocol port m)
| fs_hooks m hu ht : filter_step [] m (set_hooks hu ht m)
| fs_nat m n l : filter_step [] m (set_nat n l m)
| fs_clean m now u i c : trackers_are m u i c →
    filter_step [UDPTrack.Cleanup now] m
      (set_trackers (Some (UDPTrack.cleanup now u).1) (Some (ICMPTrack.cleanup now i).1) (Some (ConnTrack.cleanup now c).1) m)
| fs_out m now flow size d p b w' : filterOutbound decode now flow size (start m d p) = Ret (b, w') →
    filter_step (sent now flow size (start m d p)) m (w_m w')
| fs_in m now flow size d p b w' : filterInbound decode order now flow size (start m d p) = Ret (b, w') →
    filter_step (received now flow size (start m d p) b) m (w_m w').
(** Newest operations first. *)
Inductive filter_steps : list UDPTrack.op → Manager → Manager → Prop :=
| steps_refl m : filter_steps [] m m
| steps_more xs ys m m' m'' : filter_steps xs m m' → filter_step ys m' m'' → filter_steps (ys ++ xs) m m''.

(** A filter with connection tracking, from its creation on. *)
Inductive filter_run : Manager → list UDPTrack.op → Prop :=
| filter_runs e native noServerRoutes nstack mtu ip net interfaces device created m h :
    DisableConntrack e = false →
    filter_steps h (create e native noServerRoutes nstack mtu ip net interfaces device created) m → filter_run m h.

(** *** What every step keeps *)
Definition keeps (xs : list UDPTrack.op) (m m' : Manager) : Prop :=
  filter_ok m → filter_ok m' ∧ ∀ u, udpTracker m = Some u → ∃ u', udpTracker m' = Some u' ∧ advances xs u u'.

Lemma progress_keeps xs m m' : progress xs m m' → keeps xs m m'.
Proof.
  intros Hp [H1 H2 H3 (u & i & c & Ht & Ho)]. destruct (Hp u i c Ht Ho) as (Hr & Hs & u' & i' & c' & Ht' & Ho' & Ha).
  split; [split; rewrite ?Hr, ?Hs; try done; by exists u', i', c'|]. intros u0 Hu0. destruct Ht as (Hu & _). destruct Ht' as (Hu' & _).
  exists u'. split; [done|]. by replace u0 with u by congruence.
Qed.
(** A change of the rules only. *)
Lemma rules_keep m t block : (rules_wf (rules m) ∧ routes_wf (rules m) → rules_wf t ∧ routes_wf t) → keeps [] m (set_rules t block m).
Proof.
  intros Ht [H1 H2 H3 H4]. destruct (Ht (conj H1 H2)) as [T1 T2]. split; [by split|]. intros u Hu. exists u. split; [done|].
  apply advances_refl.
Qed.
Lemma keeps_trans xs ys m m' m'' : keeps xs m m' → keeps ys m' m'' → keeps (ys ++ xs) m m''.
Proof.
  intros H1 H2 Hok. destruct (H1 Hok) as [Hok1 A1]. destruct (H2 Hok1) as [Hok2 A2]. split; [done|]. intros u Hu.
  destruct (A1 u Hu) as (u1 & Hu1 & Ha1). destruct (A2 u1 Hu1) as (u2 & Hu2 & Ha2). exists u2. split; [done|].
  by eapply advances_trans.
Qed.
Lemma keeps_same m m' : same_core m m' → keeps [] m m'.
Proof. intros. by apply progress_keeps, progress_same. Qed.

Lemma determineRouting_same e device created m : same_core m (determineRouting e device created m).2.
Proof.
  unfold determineRouting, initForwarder. destruct (DisableUserspaceRouting e), (disableServerRoutes m), (ForceUserspaceRouter e);
    try destruct (negb (netstack m) && nativeFirewall m); cbn; repeat case_match; done.
Qed.
Lemma EnableRouting_keeps e device created m : keeps [] m (EnableRouting e device created m).2.
Proof.
  unfold EnableRouting. pose proof (determineRouting_same e device created m) as Hs.
  destruct (determineRouting e device created m) as [[err|] m1]; cbn in Hs; [by apply keeps_same|].
  destruct (forwarder m1); [|by apply keeps_same]. unfold blockInvalidRouted, addRouteFiltering. cbn [snd].
  apply (keeps_trans [] [] m m1); [by apply keeps_same|]. apply rules_keep. intros [Hp Hr].
  destruct (delegates m1); [done|]. split; [|by apply insert_route_wf]. unfold insert_route. destruct (decide _); [done|].
  by apply rules_of_route.
Qed.
Lemma DisableRouting_keeps m : keeps [] m (DisableRouting m).2.
Proof.
  unfold DisableRouting. destruct (forwarder m); [|by apply keeps_same]. cbn [netstack localForwarding set_routing update].
  destruct (netstack m && localForwarding m); [by apply keeps_same|].
  destruct (blockRule m) as [k|] eqn:Hb; cbn [blockRule set_forwarder set_routing update]; rewrite Hb; [|by apply keeps_same].
  set (m1 := set_forwarder None (set_routing false false m)). destruct (deleteRouteRule (delegates m1) k (rules m1)) as [t| |] eqn:E;
    [|by apply keeps_same..].
  apply (keeps_trans [] [] m m1); [by apply keeps_same|]. apply rules_keep. intros [Hp Hr]. change (delegates m1) with false in E.
  assert (Hs : rule_step (rules m1) t) by (by eapply route_deleted). by eapply rule_step_wf.
Qed.

Lemma filter_step_keeps xs m m' : filter_step xs m m' → keeps xs m m'.
Proof.
  destruct 1 as [m t block Ht|m e device created|m|m|m|m|m n l|m now u i c Ht|m now flow size d p b w' H|m now flow size d p b w' H];
    try (by apply keeps_same).
  - apply rules_keep. by apply rule_step_wf.
  - apply EnableRouting_keeps.
  - apply DisableRouting_keeps.
  - intros [H1 H2 H3 (u0 & i0 & c0 & Ht0 & (Ou & Oi & Oc))]. pose proof Ht as (Hu & Hi & Hc). destruct Ht0 as (Eu & Ei & Ec).
    replace u0 with u in * by congruence. replace i0 with i in * by congruence. replace c0 with c in * by congruence.
    split.
    + split; try done. exists (UDPTrack.cleanup now u).1, (ICMPTrack.cleanup now i).1, (ConnTrack.cleanup now c).1. split; [done|].
      destruct Ou as [? Ou], Oi as [? Oi], Oc as [? Oc]. unfold opened. cbn. rewrite Ou, Oi, Oc. cbn. split_and!; by eexists.
    + intros u1 Hu1. replace u1 with u in * by congruence. eexists. split; [reflexivity|].
      destruct (UDPTrack.cleanup now u) as [u' evs] eqn:E. apply (advances_exec (UDPTrack.Cleanup now) u u' evs); [done|]. cbn. by rewrite E.
  - apply progress_keeps. by apply (filterOutbound_progress now flow size (start m d p) b).
  - apply progress_keeps. by apply (filterInbound_progress now flow size (start m d p) b).
Qed.
Lemma filter_steps_keep xs m m' : filter_steps xs m m' → keeps xs m m'.
Proof.
  induction 1 as [m|xs ys m m' m'' _ IH Hs]; [by apply keeps_same|]. eapply keeps_trans; [exact IH|]. by apply filter_step_keeps.
Qed.

Lemma create_ok e native noServerRoutes nstack mtu ip net interfaces device created : DisableConntrack e = false →
  let m := create e native noServerRoutes nstack mtu ip net interfaces device created in
  filter_ok m ∧ udpTracker m = Some (NewUDPTracker DefaultUDPTimeout).
Proof.
  intros He m. set (m0 := create {| DisableConntrack := false; DisableUserspaceRouting := DisableUserspaceRouting e;
    DisableMSSClamping := DisableMSSClamping e; ForceUserspaceRouter := ForceUserspaceRouter e; EnableLocalForwarding := false |}
    native noServerRoutes nstack mtu ip net interfaces device created).
  assert (Hs : same_core m0 m).
  { unfold m0, m, create. rewrite He. cbn. unfold initForwarder. cbn. by destruct nstack, (EnableLocalForwarding e), device, created. }
  assert (H0 : filter_ok m0).
  { unfold m0, create. cbn. rewrite andb_false_r. split; cbn; [apply no_rules_wf|apply no_routes_wf|done|].
    eexists _, _, _. split; [done|]. unfold opened. cbn. split_and!; by eexists. }
  split; [by apply (keeps_same m0 m Hs)|]. destruct Hs as (_ & _ & -> & _). unfold m0, create. cbn. by rewrite andb_false_r.
Qed.

(** What is true of the filter after any run. *)
Lemma run_inv m h : filter_run m h →
  filter_ok m ∧ ∃ u mu, udpTracker m = Some u ∧ UDPTrack.timeout u = DefaultUDPTimeout ∧ UDPTrack.connections u = Some mu
    ∧ udp_evidence h mu.
Proof.
  intros [e native nsr nstack mtu ip net ifs dev cr m0 h0 He Hs].
  destruct (create_ok e native nsr nstack mtu ip net ifs dev cr He) as [Hok Hu].
  destruct (filter_steps_keep _ _ _ Hs Hok) as [Hok' Hadv]. split; [done|]. destruct (Hadv _ Hu) as (u' & Hu' & Ha).
  destruct (Ha ∅ []) as (Ht & mu & Hm & Hev & _); [done|by intros k c|]. rewrite app_nil_r in Hev. by exists u', mu.
Qed.

(** A packet is decoded, translated and ready to be judged: it comes from [src], has the transport
    [l], and the state is then [w1]. *)
Definition arrives (m : Manager) (d0 : decoder) (p : bytes) (src : addr) (dst : Addr) (l : layer) (w1 : world) : Prop :=
  ∃ d ips, decode p d0 = (true, d) ∧ (2 ≤ length (decoded d))%nat ∧ extractIPs d = Ret ips ∧ ips.1 ≠ None
  ∧ translations decode ips (with_d d (start m d0 p)) = Ret (Some (Some src, dst), w1)
  ∧ transport (w_d w1) = Some l ∧ (20 ≤ length (w_p w1))%nat.

Lemma arrives_judged now flow size m d0 p src dst l w1 : arrives m d0 p src dst l w1 →
  filterInbound decode order now flow size (start m d0 p) = judge order now flow size (Some src, dst) w1 ∧ w_m w1 = m.
Proof.
  intros (d & ips & Hd & Hl & Hi & Hs & Ht & _ & _). split; [|symmetry; by apply (quiet_translations eq decode ips _ _ _ Ht)].
  unfold filterInbound, isValidPacket, fl_bind, DecodeLayers, the_decoder, fl_lift, fl_ret. cbn [start w_p w_d]. rewrite Hd.
  cbn [mbind outcome_bind with_d w_d negb]. rewrite bool_decide_eq_true_2 by done. cbn [negb mbind outcome_bind with_d w_d].
  rewrite Hi. cbn [mbind outcome_bind]. rewrite bool_decide_eq_false_2 by done. rewrite Ht. done.
Qed.

Context (Horder : ∀ rs r, r ∈ order rs ↔ ∃ i, rs !! i = Some r).

(** A packet of which only the IPv4 header is decoded, because it is part of a fragmented one. *)
Definition fragment_of (d : decoder) : Prop :=
  decoded d = [LayerTypeIPv4] ∧ (ip4_MoreFragments d = true ∨ ip4_FragOffset d ≠ 0).
Lemma validity m d0 p ok d : decode p d0 = (ok, d) →
  isValidPacket decode (start m d0 p) = Ret (if ok then if decide (2 ≤ length (decoded d))%nat then (true, false)
    else if bool_decide (decoded d = [LayerTypeIPv4]) && (ip4_MoreFragments d || negb (ip4_FragOffset d =? 0)) then (true, true) else (false, false)
    else (false, false), with_d d (start m d0 p)).
Proof.
  intros Hd. unfold isValidPacket, fl_bind, DecodeLayers, the_decoder, fl_ret. cbn [start w_p w_d]. rewrite Hd. cbn [mbind outcome_bind with_d w_d].
  destruct ok; [|done]. cbn [negb]. destruct (decide (2 ≤ length (decoded d))%nat); [by rewrite bool_decide_eq_true_2|by rewrite bool_decide_eq_false_2].
Qed.
Lemma fragment_bool d : bool_decide (decoded d = [LayerTypeIPv4]) && (ip4_MoreFragments d || negb (ip4_FragOffset d =? 0)) = true ↔ fragment_of d.
Proof. unfold fragment_of. rewrite andb_true_iff, bool_decide_eq_true, orb_true_iff, negb_true_iff, Z.eqb_neq. done. Qed.
(** The packet cannot be judged: it is not decoded, has no transport layer and is no fragment, has no
    source address, or cannot be decoded again after it was translated. *)
Inductive unreadable (m : Manager) (d0 : decoder) (p : bytes) : world → Prop :=
| not_decoded d : decode p d0 = (false, d) → unreadable m d0 p (with_d d (start m d0 p))
| no_transport d : decode p d0 = (true, d) → (length (decoded d) < 2)%nat → ¬ fragment_of d → unreadable m d0 p (with_d d (start m d0 p))
| no_source d dst : decode p d0 = (true, d) → (2 ≤ length (decoded d))%nat ∨ fragment_of d → extractIPs d = Ret (None, dst) →
    unreadable m d0 p (with_d d (start m d0 p))
| not_decoded_again d ips w1 : decode p d0 = (true, d) → (2 ≤ length (decoded d))%nat → extractIPs d = Ret ips → ips.1 ≠ None →
    translations decode ips (with_d d (start m d0 p)) = Ret (None, w1) → unreadable m d0 p w1.
Lemma fragment_passes now flow size m d0 p d src dst : decode p d0 = (true, d) → fragment_of d → extractIPs d = Ret (Some src, dst) →
  filterInbound decode order now flow size (start m d0 p) = Ret (false, with_d d (start m d0 p)).
Proof.
  intros Hd Hf Hi. unfold filterInbound, fl_bind at 1. rewrite (validity m d0 p true d Hd). rewrite decide_False by (destruct Hf as [-> _]; cbn; lia).
  apply fragment_bool in Hf as ->. cbn [mbind outcome_bind negb]. unfold fl_bind, the_decoder, fl_lift, fl_ret. cbn [mbind outcome_bind with_d w_d]. rewrite Hi. done.
Qed.
Lemma unreadable_dropped now flow size m d0 p w : unreadable m d0 p w → filterInbound decode order now flow size (start m d0 p) = Ret (true, w).
Proof.
  intros Hu. unfold filterInbound, fl_bind at 1. destruct Hu as [d Hd|d Hd Hl Hf|d dst Hd Hl Hi|d ips w1 Hd Hl Hi Hs Ht]; rewrite (validity m d0 p _ d Hd); [done| | |].
  - rewrite decide_False by lia. destruct (_ && _) eqn:E; [by apply fragment_bool in E|done].
  - assert (Hv : ∃ b, (if decide (2 ≤ length (decoded d))%nat then (true, false)
      else if bool_decide (decoded d = [LayerTypeIPv4]) && (ip4_MoreFragments d || negb (ip4_FragOffset d =? 0)) then (true, true) else (false, false)) = (true, b)).
    { destruct (decide _) as [|Hn]; [by exists false|]. destruct Hl as [?|Hf%fragment_bool]; [done|]. rewrite Hf. by exists true. }
    destruct Hv as [b ->]. cbn [mbind outcome_bind negb]. unfold fl_bind, the_decoder, fl_lift, fl_ret. cbn [mbind outcome_bind with_d w_d]. by rewrite Hi.
  - rewrite decide_True by done. cbn [mbind outcome_bind negb]. unfold fl_bind, the_decoder, fl_lift, fl_ret. cbn [mbind outcome_bind with_d w_d]. rewrite Hi.
    cbn [mbind outcome_bind]. rewrite bool_decide_eq_false_2 by done. by rewrite Ht.
Qed.

(** C9: What the filter, with connection tracking, does with a packet from the tunnel, after any
    history.  A packet with a transport layer passes if and only if a tracker knows its connection,
    or it is for this machine and the peer rules admit it and it is not one to forward, or it is to
    be routed and the operating system routes; it goes to the forwarder if and only if no tracker
    knows it and it is for another local interface (or for the netstack's host) and the peer rules
    admit it, or it is to be routed here and the route rules admit it; otherwise it is dropped.  A
    fragment of an IPv4 packet without its transport header passes unfiltered, whatever the rules
    are, and changes nothing.  A packet that cannot be read is dropped.  In none of these cases is
    there a panic. *)
Theorem inbound_verdict m h d0 p now flow size :
  filter_run m h →
  (∀ src dst l w1, arrives m d0 p src dst l w1 →
     ∃ b w', filterInbound decode order now flow size (start m d0 p) = Ret (b, w')
       ∧ (b = false ↔ passes now size (w_d w1) src dst l m)
       ∧ outcome_ok (forwards now size (w_d w1) src dst l m) w1 w')
  ∧ (∀ d src dst, decode p d0 = (true, d) → fragment_of d → extractIPs d = Ret (Some src, dst) →
       filterInbound decode order now flow size (start m d0 p) = Ret (false, with_d d (start m d0 p)))
  ∧ (∀ w, unreadable m d0 p w → filterInbound decode order now flow size (start m d0 p) = Ret (true, w)).
Proof.
  intros [Hok _]%run_inv. split; [|split; [intros; by eapply fragment_passes|apply unreadable_dropped]].
  intros src dst l w1 Ha. destruct (arrives_judged now flow size m d0 p src dst l w1 Ha) as [-> Hm].
  destruct Ha as (d & ips & _ & _ & _ & _ & _ & Hl & Hlen). rewrite <- Hm in *. by apply judge_spec.
Qed.

(** C10: No unsolicited datagram gets in.  When a decoded UDP packet from [src] passes to this machine
    although the peer rules do not admit it, then the history has a datagram of the same flow in
    the other direction that opened it (this machine sent it, or the filter let it in), and a
    datagram of the flow within the last 30 seconds. *)
Theorem unsolicited_datagrams_dropped m h d0 p src dst w1 now flow size w' :
  filter_run m h → arrives m d0 p src dst LayerTypeUDP w1 →
  IsLocalIP dst (localipmanager m) = true → ¬ admitted_by (rules m) src LayerTypeUDP (w_d w1) →
  filterInbound decode order now flow size (start m d0 p) = Ret (false, w') →
  let k := UDPTrack.rev_key_of (udp_of (w_d w1) (Some src) dst size) in
  (∃ x, x ∈ h ∧ UDPTrack.opens x k)
  ∧ ∃ y, y ∈ h ∧ UDPTrack.mentions y k ∧ now - UDPTrack.op_time y ≤ DefaultUDPTimeout.
Proof.
  intros [Hok (u & mu & Hu & Hto & Hmu & Hev)]%run_inv Ha Hloc Hno H.
  destruct (arrives_judged now flow size m d0 p src dst LayerTypeUDP w1 Ha) as [E Hm]. rewrite E in H.
  destruct Ha as (d & ips & _ & _ & _ & _ & _ & Hl & Hlen). rewrite <- Hm in *.
  destruct (judge_spec order Horder now flow size src dst w1 LayerTypeUDP Hok Hl Hlen) as (b & w2 & E2 & Hb & _).
  rewrite H in E2. injection E2 as <- _. destruct (proj1 Hb eq_refl) as [Htr|[(_ & Hp & _)|(Hf & _)]]; [|exfalso|congruence].
  - unfold tracked in Htr. rewrite Hl, Hu in Htr. unfold UDPTrack.IsValidInbound in Htr. rewrite (udp_key_lookup u mu) in Htr by done.
    destruct (mu !! _) as [c|] eqn:Hk; [|done]. destruct (timeoutExceeded now (UDPTrack.timeout u) c) eqn:Hx; [done|].
    destruct (Hev _ _ Hk) as [Ho (y & ? & ? & Hy)]. split; [exact Ho|]. exists y. do 2 (split; [done|]).
    unfold timeoutExceeded in Hx. rewrite Hto in Hx. lia.
  - destruct Hp as [Hsp|Hp]; [|done]. unfold isSpecialICMP in Hsp. by rewrite Hl in Hsp.
Qed.

(** A datagram that the filter passes on has been tracked. *)
Lemma trackOutbound_udp now flow size src dst w u w' : transport (w_d w) = Some LayerTypeUDP → udpTracker (w_m w) = Some u →
  trackOutbound now flow size src dst w = Ret (tt, w') →
  ∃ o u1 evs, UDPTrack.TrackOutbound now flow (udp_of (w_d w) src dst size) u = Ret (o, u1, evs) ∧ udpTracker (w_m w') = Some u1.
Proof.
  intros Hl Hu. unfold trackOutbound, fl_bind at 1 2, the_decoder, fl_lift, index. unfold transport in Hl.
  cbn [mbind outcome_bind]. rewrite Hl. cbn [mbind outcome_bind]. unfold fl_bind at 1, on_udp. rewrite Hu.
  destruct (UDPTrack.TrackOutbound now flow _ u) as [[[o u1] evs]|[]|]; cbn [mbind outcome_bind]; [|done].
  intros H. exists o, u1, evs. split; [done|].
  assert (Hq : ∀ w1 w2 (x : pk ()), (if o =? 0 then fl_ret tt else do _ := on_packet x in fl_ret tt) w1 = Ret (tt, w2) →
    same_core (w_m w1) (w_m w2)).
  { intros w1 w2 x. destruct (o =? 0); [apply (pres_ret same_core)|].
    apply (pres_bind same_core); [apply (quiet_on_packet same_core)|intros; apply (pres_ret same_core)]. }
  apply Hq in H as (_ & _ & -> & _). done.
Qed.
Lemma outbound_tracked now flow size m d0 p d src dst u w' :
  decode p d0 = (true, d) → transport d = Some LayerTypeUDP → extractIPs d = Ret (Some src, dst) → udpTracker m = Some u →
  filterOutbound decode now flow size (start m d0 p) = Ret (false, w') →
  ∃ o u1 evs, UDPTrack.TrackOutbound now flow (udp_of d (Some src) dst size) u = Ret (o, u1, evs) ∧ udpTracker (w_m w') = Some u1.
Proof.
  intros Hd Hl Hi Hu. unfold filterOutbound, fl_bind at 1 2, DecodeLayers, the_decoder. cbn [start w_p w_d]. rewrite Hd.
  cbn [mbind outcome_bind with_d w_d negb orb].
  assert (Hlen : ¬ (length (decoded d) < 2)%nat) by (apply lookup_lt_Some in Hl; lia). rewrite bool_decide_eq_false_2 by done.
  unfold fl_bind at 1, fl_lift. rewrite Hi. cbn [mbind outcome_bind]. rewrite bool_decide_eq_false_2 by done.
  unfold fl_bind at 1, the_manager. cbn [mbind outcome_bind]. unfold fl_bind at 1, outbound_hooks. rewrite Hl.
  unfold hook_drops. destruct (HookMatches _ _ _ _) as [taken p']. cbn [mbind outcome_bind]. destruct taken; [done|].
  unfold fl_bind at 1. destruct (trackOutbound _ _ _ _ _ _) as [[[] w2]|[]|] eqn:E; cbn [mbind outcome_bind]; [|done].
  apply (trackOutbound_udp _ _ _ _ _ _ u) in E as (o & u1 & evs & Ht & Hu1); [|done..]. intros H. exists o, u1, evs. split; [exact Ht|].
  assert (Hq : same_core (w_m w2) (w_m w')).
  { revert H. apply (pres_bind same_core); [apply (quiet_on_packet same_core)|intros; apply (pres_ret same_core)]. }
  destruct Hq as (_ & _ & -> & _). exact Hu1.
Qed.

(** C11: Replies get in.  When this machine has sent a datagram (and the flow was not opened by the
    other side), a datagram of the same flow in the other direction passes for 30 seconds, whatever
    the rules say and whatever else happens to the filter in the meantime: other packets, changes
    of rules and translations, clean-ups. *)
Theorem datagram_replies_pass m h d0 p d src dst now flow size w' ys m2 d1 q w1 now2 flow2 size2 :
  filter_run m h →
  decode p d0 = (true, d) → transport d = Some LayerTypeUDP → extractIPs d = Ret (Some src, Some dst) →
  (∀ u, udpTracker m = Some u → UDPTrack.get (UDPTrack.rev_key_of (udp_of d (Some src) (Some dst) size)) u = None) →
  filterOutbound decode now flow size (start m d0 p) = Ret (false, w') →
  filter_steps ys (w_m w') m2 → within now DefaultUDPTimeout ys → now2 ≤ now + DefaultUDPTimeout →
  arrives m2 d1 q dst (Some src) LayerTypeUDP w1 →
  udp_SrcPort (w_d w1) = udp_DstPort d → udp_DstPort (w_d w1) = udp_SrcPort d →
  ∃ w2, filterInbound decode order now2 flow2 size2 (start m2 d1 q) = Ret (false, w2).
Proof.
  intros [Hok (u & mu & Hu & Hto & Hmu & Hev)]%run_inv Hd Hl Hi Hrev Hout Hys Hin Hn Ha Hsp Hdp.
  set (pkt := udp_of d (Some src) (Some dst) size) in *.
  destruct (outbound_tracked now flow size m d0 p d src (Some dst) u w' Hd Hl Hi Hu Hout) as (o & u1 & evs & Ht & Hu1).
  specialize (Hrev u Hu). rewrite (udp_key_lookup u mu) in Hrev by done.
  destruct (outbound_alive u mu now flow pkt Hmu Hrev) as (mu1 & evs' & Ht' & Hal). fold pkt in Ht. rewrite Ht in Ht'.
  injection Ht' as _ -> _.
  destruct (progress_keeps _ _ _ (filterOutbound_progress now flow size _ _ _ Hout) Hok) as [Hok1 Hadv1].
  destruct (filter_steps_keep _ _ _ Hys Hok1) as [Hok2 Hadv2]. destruct (Hadv2 _ Hu1) as (u2 & Hu2 & Hav2).
  destruct (Hadv1 _ Hu) as (u1' & Hu1' & Hav1). rewrite Hu1 in Hu1'. injection Hu1' as <-.
  destruct (Hav1 mu h Hmu Hev) as (Ht1 & mu1' & Hm1' & Hev1 & _). cbn in Hm1'. injection Hm1' as <-.
  destruct (Hav2 mu1 _ eq_refl Hev1) as (Ht2 & mu2 & Hm2 & _ & Hal2). cbn [UDPTrack.set_connections UDPTrack.timeout] in Ht2, Hal2.
  rewrite Hto in Ht2, Hal2. specialize (Hal2 _ _ Hal Hin).
  destruct (arrives_judged now2 flow2 size2 m2 d1 q dst (Some src) LayerTypeUDP w1 Ha) as [-> Hm].
  destruct Ha as (d' & ips & _ & _ & _ & _ & _ & Hl1 & Hlen). rewrite <- Hm in *.
  destruct (judge_spec order Horder now2 flow2 size2 dst (Some src) w1 LayerTypeUDP Hok2 Hl1 Hlen) as (b & w2 & E & Hb & _).
  assert (b = false) as ->; [|by exists w2]. apply Hb. left. unfold tracked. rewrite Hl1, Hu2.
  eapply alive_passes; [exact Hm2|exact Hal2| |lia].
  unfold UDPTrack.rev_key_of, UDPTrack.key_of, pkt, udp_of. cbn. by rewrite Hsp, Hdp.
Qed.
End packets.

(** ** Samples *)
(** A datagram without data. *)
Definition udp4 (src dst sport dport : Z) : bytes :=
  fixed 20 ([x45; x00; x00; x1c; x00; x01; x00; x00; x40; x11; x00; x00] ++ b32 src ++ b32 dst
            ++ port_bytes sport ++ port_bytes dport ++ [x00; x08; x00; x00]).
(** What gopacket decodes of IPv4 packets with TCP segments and UDP datagrams. *)
Definition decode4 (p : bytes) (d : decoder) : bool * decoder :=
  match decode_tcp4 p d with
  | Some d => (true, d)
  | None =>
      if bool_decide (length p < 28)%nat || negb (byte_at 9 p =? 17) then (false, d)
      else (true, {|
        decoded := [LayerTypeIPv4; LayerTypeUDP];
        ip4_IHL := Z.to_nat (byte_at 0 p mod 16); ip4_SrcIP := take 4 (drop 12 p); ip4_DstIP := take 4 (drop 16 p);
        ip4_Protocol := 17; ip4_MoreFragments := Z.testbit (byte_at 6 p) 5; ip4_FragOffset := word 6 p mod 8192;
        ip6_SrcIP := ip6_SrcIP d; ip6_DstIP := ip6_DstIP d; tcp_SrcPort := tcp_SrcPort d; tcp_DstPort := tcp_DstPort d;
        tcp_SYN := tcp_SYN d; tcp_ACK := tcp_ACK d; tcp_FIN := tcp_FIN d; tcp_RST := tcp_RST d; tcp_PSH := tcp_PSH d;
        tcp_URG := tcp_URG d; tcp_Options := tcp_Options d; udp_SrcPort := word 20 p; udp_DstPort := word 22 p;
        icmp4_Id := icmp4_Id d; icmp4_Type := icmp4_Type d; icmp4_Code := icmp4_Code d; icmp4_Payload := icmp4_Payload d;
        dnatOrigPort := dnatOrigPort d |})
  end.

Definition no_env : env := {|
  DisableConntrack := false; DisableUserspaceRouting := false; DisableMSSClamping := false; ForceUserspaceRouter := false;
  EnableLocalForwarding := false |}.
Definition new_filter : Manager := create no_env false false false 1280 (v4 me) (prefix4 1681915904 16) None true true.
Definition the_world {A} (r : outcome Empty_set (A * world)) : world := match r with Ret (_, w) => w | _ => start new_filter new_decoder [] end.
(** A query to a name server and its answer. *)
Definition query4 : bytes := udp4 me (ad_num real) 5353 53.
Definition answer4 : bytes := udp4 (ad_num real) me 53 5353.
Definition asked_filter : Manager := w_m (the_world (filterOutbound decode4 0 7 28 (start new_filter new_decoder query4))).

Lemma new_filter_run : filter_run decode4 any_order new_filter [].
Proof. unfold new_filter. eapply filter_runs; [|apply steps_refl]. done. Qed.
Lemma asked_filter_run :
  filter_run decode4 any_order asked_filter (sent decode4 0 7 28 (start new_filter new_decoder query4)).
Proof.
  rewrite <- (app_nil_r (sent _ _ _ _ _)).
  apply (filter_runs decode4 any_order no_env false false false 1280 (v4 me) (prefix4 1681915904 16) None true true); [done|].
  eapply steps_more; [apply steps_refl|].
  eapply (fs_out decode4 any_order new_filter 0 7 28 new_decoder query4 false). reflexivity.
Qed.
(** Where its judgement starts. *)
Definition answered : decoder := (decode4 answer4 new_decoder).2.
Definition judged (m : Manager) : world := with_d answered (start m new_decoder answer4).
Lemma answer_arrives m : dnatEnabled (nat_ m) = false → portDNATEnabled (nat_ m) = false →
  arrives decode4 m new_decoder answer4 real (Some (v4 me)) LayerTypeUDP (judged m).
Proof.
  intros Hd Hp. exists answered, (Some real, Some (v4 me)).
  split; [by vm_compute|]. split; [vm_compute; lia|]. split; [by vm_compute|]. split; [done|]. split; [|split; [by vm_compute|vm_compute; lia]].
  unfold translations, port_dnat, reverse_dnat, fl_bind, the_decoder, the_manager, on_packet, translateInboundPortDNAT,
    translateInboundReverse, translate, judged. cbn [w_m with_d start mbind outcome_bind]. rewrite Hp. cbn. rewrite Hd. done.
Qed.

Lemma not_admitted src l d : ¬ admitted_by no_rules src l d.
Proof.
  intros [_ [(r & Hr & _)|[(r & Hr & _)|(r & Hr & _)]]]; unfold has_rule, rules_of in Hr; cbn in Hr; by rewrite lookup_empty in Hr.
Qed.

(** Unasked for, the answer is dropped. *)
Lemma inbound_verdict_witness :
  ¬ passes 1 28 answered real (Some (v4 me)) LayerTypeUDP new_filter
  ∧ ∃ w', filterInbound decode4 any_order 1 8 28 (start new_filter new_decoder answer4) = Ret (true, w').
Proof.
  destruct (proj1 (inbound_verdict decode4 any_order any_order_spec new_filter [] new_decoder answer4 1 8 28 new_filter_run)
    real (Some (v4 me)) LayerTypeUDP (judged new_filter) (answer_arrives new_filter eq_refl eq_refl)) as (b & w' & E & Hb & _).
  assert (b = true) as -> by (apply (f_equal (λ o, match o with Ret (b, _) => b | _ => false end)) in E; vm_compute in E; by destruct b).
  split; [|by exists w']. intros H%Hb. discriminate H.
Defined.

(** Asked for, it passes, and the history says so. *)
Lemma datagram_replies_pass_witness :
  ∃ w2, filterInbound decode4 any_order Second 8 28 (start asked_filter new_decoder answer4) = Ret (false, w2).
Proof.
  eapply (datagram_replies_pass decode4 any_order any_order_spec new_filter [] new_decoder query4
    (decode4 query4 new_decoder).2 (v4 me) real 0 7 28 _ [] asked_filter new_decoder answer4 (judged asked_filter)).
  - exact new_filter_run.
  - vm_compute. reflexivity.
  - vm_compute. reflexivity.
  - vm_compute. reflexivity.
  - intros u [= <-]. vm_compute. reflexivity.
  - reflexivity.
  - apply steps_refl.
  - constructor.
  - vm_compute. discriminate.
  - apply answer_arrives; reflexivity.
  - vm_compute. reflexivity.
  - vm_compute. reflexivity.
Defined.

Lemma unsolicited_datagrams_dropped_witness :
  ¬ admitted_by (rules asked_filter) real LayerTypeUDP answered
  ∧ Exists (λ x, UDPTrack.opens x (UDPTrack.rev_key_of (udp_of answered (Some real) (Some (v4 me)) 28)))
      (sent decode4 0 7 28 (start new_filter new_decoder query4)).
Proof.
  assert (Hno : ¬ admitted_by (rules asked_filter) real LayerTypeUDP answered) by (apply not_admitted).
  split; [exact Hno|].
  destruct (unsolicited_datagrams_dropped decode4 any_order any_order_spec asked_filter
    (sent decode4 0 7 28 (start new_filter new_decoder query4)) new_decoder answer4 real (Some (v4 me)) (judged asked_filter)
    Second 8 28 (the_world (filterInbound decode4 any_order Second 8 28 (start asked_filter new_decoder answer4)))) as [(x & Hx & Ho) _].
  - exact asked_filter_run.
  - apply answer_arrives; reflexivity.
  - vm_compute. reflexivity.
  - exact Hno.
  - reflexivity.
  - apply Exists_exists. exists x. exact (conj Hx Ho).
Defined.

(** ** Where the filter goes wrong *)
(** Without connection tracking ([NB_DISABLE_CONNTRACK]) the trackers are never created, but
    tracking is still called: the first datagram this machine sends panics. *)
Theorem conntrack_disabled_panics decode e native noServerRoutes nstack mtu ip net interfaces device created d0 p d src dst now flow size :
  DisableConntrack e = true →
  decode p d0 = (true, d) → transport d = Some LayerTypeUDP → extractIPs d = Ret (Some src, dst) →
  filterOutbound decode now flow size (start (create e native noServerRoutes nstack mtu ip net interfaces device created) d0 p) = Panic.
Proof.
  intros He Hd Hl Hi. set (m := create _ _ _ _ _ _ _ _ _ _).
  assert (Hm : udpTracker m = None ∧ udpHookOut m = None).
  { unfold m, create, initForwarder. rewrite He. cbn. by destruct nstack, (EnableLocalForwarding e), device, created. }
  destruct Hm as [Hu Hh]. unfold filterOutbound, fl_bind, DecodeLayers, the_decoder, the_manager, fl_lift, outbound_hooks.
  cbn [start w_p w_d]. rewrite Hd. cbn [mbind outcome_bind with_d w_d negb orb].
  assert (Hlen : ¬ (length (decoded d) < 2)%nat) by (apply lookup_lt_Some in Hl; lia). rewrite bool_decide_eq_false_2 by done.
  rewrite Hi. cbn [mbind outcome_bind]. rewrite bool_decide_eq_false_2 by done. rewrite Hl.
  unfold hook_drops. cbn [start w_m with_d]. rewrite Hh. cbn [HookMatches mbind outcome_bind].
  unfold trackOutbound, fl_bind, the_decoder, fl_lift, index. cbn [mbind outcome_bind with_p with_d w_d]. unfold transport in Hl.
  rewrite Hl. cbn [mbind outcome_bind]. unfold on_udp. cbn [w_m with_p with_d start]. rewrite Hu. done.
Qed.
Lemma conntrack_disabled_panics_witness :
  filterOutbound decode4 0 7 28 (start (create {| DisableConntrack := true; DisableUserspaceRouting := false;
    DisableMSSClamping := false; ForceUserspaceRouter := false; EnableLocalForwarding := false |} false false false 1280 (v4 me)
    (prefix4 1681915904 16) None true true) new_decoder query4) = Panic.
Proof.
  eapply (conntrack_disabled_panics decode4 _ false false false 1280 (v4 me) (prefix4 1681915904 16) None true true new_decoder query4
    (decode4 query4 new_decoder).2 (v4 me) (Some real)); [reflexivity|vm_compute; reflexivity..].
Defined.

(** A redirected packet that the rules drop leaves its port in the decoder; the next connection
    that this decoder handles gets it.  Here a peer that is not admitted tries port 22, which is
    redirected, and an admitted peer then connects to port 8080 and is answered from port 22. *)
Definition ssh_filter : Manager :=
  let t := match AddPeerFiltering "u1" None peer_a ProtocolTCP None (NewPort [8080]) ActionAccept no_rules with
           | Ret (_, t) => t | _ => no_rules end in
  set_nat (addPortRedirection (Some (v4 me)) LayerTypeTCP 22 22022 no_nat) (localipmanager new_filter) (set_rules t None new_filter).
Definition refused : world :=
  the_world (filterInbound decode4 any_order 0 1 40 (start ssh_filter new_decoder (tcp4 0xC0A80109 me 4000 22 2))).
Definition connected : world :=
  the_world (filterInbound decode4 any_order 1 2 40 (start (w_m refused) (w_d refused) (tcp4 0xC0A80102 me 5000 8080 2))).
Definition replied : world :=
  the_world (filterOutbound decode4 2 3 40 (start (w_m connected) new_decoder (tcp4 me 0xC0A80102 8080 5000 0x12))).
Example stale_port_in_decoder : dnatOrigPort (w_d refused) = 22 ∧ word 20 (w_p replied) = 22.
Proof. vm_compute. auto. Qed.
