(* ===== verification/AccessPolicy.v ===== *)
(** Who may connect to whom: [src/management/server/types/account.go]
    ([GetPeerConnectionResources] and what it calls), [policy.go], [policyrule.go],
    [firewall_rule.go].

    The account's policies name groups or single peers as sources and destinations.  For one
    peer the management server computes the peers it may connect to, the firewall rules
    it gets, and the SSH users it admits.  Maps are [gmap]s; Go ranges over them in an
    unspecified order, and the theorems do not depend on it.  The account's maps hold no nil
    pointers.  Posture checks enter through the interface [Check]; the version comparison
    of the go-version library is a parameter. *)
From Stdlib.Strings Require Import Ascii.
From stdpp Require Import pretty.
From S2P Require Import Prelude NetIP.
Open Scope Z_scope.

(** *** Data *)
Record RulePortRange := { Start : Z; End_ : Z }.

#[export] Instance RulePortRange_eq_dec : EqDecision RulePortRange.
Proof. solve_decision. Defined.

Inductive ResourceType := ResourceTypeNone | ResourceTypePeer | ResourceTypeDomain | ResourceTypeHost | ResourceTypeSubnet.
#[export] Instance ResourceType_eq_dec : EqDecision ResourceType.
Proof. solve_decision. Defined.
Record Resource := { res_ID : string; res_Type : ResourceType }.

(** A file of a peer's system ([nbpeer.File]). *)
Record File := { f_Path : string; f_Exist : bool; ProcessIsRunning : bool }.

(** [nbpeer.Peer], the fields the connection resources and the posture checks depend on; [IP]
    is the IPv4 address. *)
Record Peer := {
  ID : string;
  IP : Z;
  WtVersion : string;          (* Meta.WtVersion *)
  SSHEnabled : bool;
  ServerSSHAllowed : bool;     (* Meta.Flags.ServerSSHAllowed *)
  Embedded : bool;             (* ProxyMeta.Embedded *)
  GoOS : string;               (* Meta.GoOS *)
  OSVersion : string;          (* Meta.OSVersion *)
  KernelVersion : string;      (* Meta.KernelVersion *)
  NetworkAddresses : list Prefix;   (* Meta.NetworkAddresses, the field NetIP of each *)
  Files : list File;           (* Meta.Files *)
  CountryCode : string;        (* Location.CountryCode *)
  CityName : string;           (* Location.CityName *)
}.

(** [types.Group]; the reference of an integration is left out. *)
Record Group := {
  g_ID : string;
  g_AccountID : string;
  g_Name : string;
  g_Issued : string;
  g_Peers : list string;
  g_Resources : list Resource;
}.

Definition with_Peers (ps : list string) (g : Group) : Group :=
  {| g_ID := g_ID g; g_AccountID := g_AccountID g; g_Name := g_Name g; g_Issued := g_Issued g;
     g_Peers := ps; g_Resources := g_Resources g |}.

Definition IsGroupAll (g : Group) : bool := bool_decide (g_Name g = "All").

Record PolicyRule := {
  r_ID : string;
  r_PolicyID : string;
  r_Name : string;
  r_Description : string;
  r_Enabled : bool;
  r_Action : string;
  r_Destinations : list string;
  r_DestinationResource : Resource;
  r_Sources : list string;
  r_SourceResource : Resource;
  r_Bidirectional : bool;
  r_Protocol : string;
  r_Ports : list string;
  r_PortRanges : list RulePortRange;
  r_AuthorizedGroups : gmap string (list string);
  r_AuthorizedUser : string;
}.

Record Policy := {
  pol_ID : string;
  pol_AccountID : string;
  pol_Name : string;
  pol_Description : string;
  pol_Enabled : bool;
  pol_Rules : list PolicyRule;
  pol_SourcePostureChecks : list string;
}.

Record User := { u_Id : string; u_Blocked : bool; u_IsServiceUser : bool }.

(** The interface [posture.Check]: an erroneous check is a failed one. *)
Record Check := { check_Name : string; check_Check : Peer → bool }.
Record Checks := { c_ID : string; GetChecks : list Check }.

Record Account := {
  Peers : gmap string Peer;
  Groups : gmap string Group;
  Policies : list Policy;
  Users : gmap string User;
  PostureChecks : list Checks;
}.

Record FirewallRule := {
  PolicyID : string;
  PeerIP : string;
  Direction : Z;
  Action : string;
  Protocol : string;
  Port : string;
  PortRange : RulePortRange;
}.

Definition FirewallRuleDirectionIN : Z := 0.
Definition FirewallRuleDirectionOUT : Z := 1.
Definition PolicyRuleProtocolALL : string := "all".
Definition PolicyRuleProtocolTCP : string := "tcp".
Definition PolicyRuleProtocolNetbirdSSH : string := "netbird-ssh".
Definition firewallRuleMinPortRangesVer : string := "0.48.0".
Definition firewallRuleMinNativeSSHVer : string := "0.60.0".
Definition nativeSSHPortString : string := "22022".
Definition nativeSSHPortNumber : Z := 22022.
Definition defaultSSHPortString : string := "22".
Definition defaultSSHPortNumber : Z := 22.
Definition Wildcard : string := "*".

(** [net.IP.String] of an IPv4 address, [strconv.Itoa] and [strings.Join]. *)
Definition IP_String (ip : Z) : string :=
  pretty (ip / 2 ^ 24 mod 256) +:+ "." +:+ pretty (ip / 2 ^ 16 mod 256) +:+ "."
  +:+ pretty (ip / 2 ^ 8 mod 256) +:+ "." +:+ pretty (ip mod 256).
Definition Itoa (z : Z) : string := pretty z.

Fixpoint Join (l : list string) (sep : string) : string :=
  match l with
  | [] => ""
  | [s] => s
  | s :: l => s +:+ sep +:+ Join l sep
  end.

(** [strings.Contains(s, sub)] for the tag ["dev"]. *)
Fixpoint Contains_dev (s : string) : bool :=
  String.prefix "dev" s || match s with EmptyString => false | String _ s => Contains_dev s end.

(** [strings.Split(version, "-")[0]]. *)
Fixpoint sanitizeVersion (s : string) : string :=
  match s with
  | EmptyString => EmptyString
  | String c s => if bool_decide (c = "-"%char) then EmptyString else String c (sanitizeVersion s)
  end.

(** Local user names and the users that may log in under them. *)
Abbreviation ssh_users := (gmap string (gset string)).

Section policies.
(** [version.NewConstraint(">= " + min)] checked against a version: an error or an answer. *)
Context (version_at_least : string → string → outcome unit bool).

Definition MeetsMinVersion (minVer peerVer : string) : outcome unit bool :=
  version_at_least (sanitizeVersion minVer) (sanitizeVersion peerVer).

Record supportedFeatures := { nativeSSH : bool; portRanges : bool }.

Definition met (r : outcome unit bool) : bool := match r with Ret b => b | _ => false end.

Definition peerSupportedFirewallFeatures (peerVer : string) : supportedFeatures :=
  if Contains_dev peerVer then {| nativeSSH := true; portRanges := true |}
  else
    let native := met (MeetsMinVersion firewallRuleMinNativeSSHVer peerVer) in
    {| nativeSSH := native;
       portRanges := if native then true else met (MeetsMinVersion firewallRuleMinPortRangesVer peerVer) |}.

(** *** Expanding a rule's ports *)
Definition set_Port (p : string) (fr : FirewallRule) : FirewallRule :=
  {| PolicyID := PolicyID fr; PeerIP := PeerIP fr; Direction := Direction fr; Action := Action fr;
     Protocol := Protocol fr; Port := p; PortRange := PortRange fr |}.
Definition set_PortRange (r : RulePortRange) (fr : FirewallRule) : FirewallRule :=
  {| PolicyID := PolicyID fr; PeerIP := PeerIP fr; Direction := Direction fr; Action := Action fr;
     Protocol := Protocol fr; Port := Port fr; PortRange := r |}.

Definition isPortInRule (portString : string) (portInt : Z) (rule : FirewallRule) : bool :=
  bool_decide (Port rule = portString)
  || (Start (PortRange rule) <=? portInt) && (portInt <=? End_ (PortRange rule)).

Definition shouldCheckRulesForNativeSSH (supportsNative : bool) (rule : PolicyRule) (peer : Peer) : bool :=
  supportsNative && SSHEnabled peer && ServerSSHAllowed peer
  && bool_decide (r_Protocol rule = PolicyRuleProtocolTCP).

(** [None]: the native port is there already. *)
Fixpoint ssh_scan (shouldAdd : bool) (expanded : list FirewallRule) : option bool :=
  match expanded with
  | [] => Some shouldAdd
  | fr :: expanded =>
      if isPortInRule nativeSSHPortString 22022 fr then None
      else ssh_scan (if isPortInRule defaultSSHPortString 22 fr then true else shouldAdd) expanded
  end.

Definition addNativeSSHRule (base : FirewallRule) (expanded : list FirewallRule) : list FirewallRule :=
  match ssh_scan false expanded with
  | Some true => expanded ++ [set_Port nativeSSHPortString base]
  | _ => expanded
  end.

Definition expandPortsAndRanges (base : FirewallRule) (rule : PolicyRule) (peer : Peer) : list FirewallRule :=
  let features := peerSupportedFirewallFeatures (WtVersion peer) in
  let by_port := (λ p, set_Port p base) <$> r_Ports rule in
  let by_range :=
    match r_Ports rule with
    | _ :: _ => []
    | [] => omap (λ pr,
        if portRanges features then Some (set_PortRange pr base)
        else if bool_decide (Start pr ≠ End_ pr) then None
        else Some (set_Port (Itoa (Start pr)) base)) (r_PortRanges rule)
    end in
  let expanded := by_port ++ by_range in
  if shouldCheckRulesForNativeSSH (nativeSSH features) rule peer
     || bool_decide (r_Protocol rule = PolicyRuleProtocolNetbirdSSH)
  then addNativeSSHRule base expanded else expanded.

(** *** Members of groups *)
Definition GetPeer (a : Account) (peerID : string) : option Peer := Peers a !! peerID.
Definition GetGroup (a : Account) (groupID : string) : option Group := Groups a !! groupID.

Definition GetPostureChecks (a : Account) (i : string) : option Checks :=
  snd <$> list_find (λ c, c_ID c = i) (PostureChecks a).

Definition validatePostureChecksOnPeer (a : Account) (checkIDs : list string) (peerID : string) : bool :=
  match Peers a !! peerID with
  | None => false
  | Some peer =>
      forallb (λ i, match GetPostureChecks a i with
                    | None => true
                    | Some cs => forallb (λ c, check_Check c peer) (GetChecks cs)
                    end) checkIDs
  end.

Fixpoint unique_loop (a : Account) (single : bool) (groups : list string) (acc : gset string) : list string :=
  match groups with
  | [] => elements acc
  | i :: groups =>
      match GetGroup a i with
      | None => unique_loop a single groups acc
      | Some g =>
          if IsGroupAll g || single then g_Peers g
          else unique_loop a single groups (acc ∪ list_to_set (g_Peers g))
      end
  end.

Definition getUniquePeerIDsFromGroupsIDs (a : Account) (groups : list string) : list string :=
  unique_loop a (bool_decide (length groups = 1%nat)) groups ∅.

Definition admitted (a : Account) (validated : gset string) (checkIDs : list string) (p : string) : option Peer :=
  peer ← Peers a !! p;
  if Embedded peer then None
  else if negb (validatePostureChecksOnPeer a checkIDs (ID peer)) then None
  else if bool_decide (ID peer ∉ validated) then None
  else Some peer.

Definition getAllPeersFromGroups (a : Account) (groups : list string) (peerID : string)
    (sourcePostureChecksIDs : list string) (validated : gset string) : list Peer * bool :=
  let members := omap (admitted a validated sourcePostureChecksIDs) (getUniquePeerIDsFromGroupsIDs a groups) in
  (filter (λ p, ID p ≠ peerID) members, existsb (λ p, bool_decide (ID p = peerID)) members).

Definition getPeerFromResource (a : Account) (resource : Resource) (peerID : string) : list Peer * bool :=
  match GetPeer a (res_ID resource) with
  | None => ([], false)
  | Some peer => if bool_decide (ID peer = peerID) then ([], true) else ([peer], false)
  end.

(** *** [connResourcesGenerator]: the state shared by the two closures *)
Record resources := {
  rulesExists : gset string;
  peersExists : gset string;
  rules : list FirewallRule;
  peers : list Peer;
}.

Definition no_resources : resources := {| rulesExists := ∅; peersExists := ∅; rules := []; peers := [] |}.

Definition fw_protocol (rule : PolicyRule) : string :=
  if bool_decide (r_Protocol rule = PolicyRuleProtocolNetbirdSSH) then PolicyRuleProtocolTCP else r_Protocol rule.

Definition base_rule (rule : PolicyRule) (peer : Peer) (direction : Z) : FirewallRule :=
  {| PolicyID := r_ID rule; PeerIP := IP_String (IP peer); Direction := direction; Action := r_Action rule;
     Protocol := fw_protocol rule; Port := ""; PortRange := {| Start := 0; End_ := 0 |} |}.

Definition ruleID (rule : PolicyRule) (fr : FirewallRule) (direction : Z) : string :=
  r_ID rule +:+ PeerIP fr +:+ Itoa direction +:+ Protocol fr +:+ Action fr +:+ Join (r_Ports rule) ",".

Definition rule_rules (targetPeer : Peer) (rule : PolicyRule) (fr : FirewallRule) : list FirewallRule :=
  match r_Ports rule, r_PortRanges rule with
  | [], [] => [fr]
  | _, _ => expandPortsAndRanges fr rule targetPeer
  end.

Definition add_peer (peer : Peer) (st : resources) : resources :=
  if bool_decide (ID peer ∈ peersExists st) then st
  else {| rulesExists := rulesExists st; peersExists := {[ ID peer ]} ∪ peersExists st;
          rules := rules st; peers := peers st ++ [peer] |}.

Definition add_rules (i : string) (frs : list FirewallRule) (st : resources) : resources :=
  if bool_decide (i ∈ rulesExists st) then st
  else {| rulesExists := {[ i ]} ∪ rulesExists st; peersExists := peersExists st;
          rules := rules st ++ frs; peers := peers st |}.

Definition generate_one (targetPeer : Peer) (rule : PolicyRule) (direction : Z) (st : resources) (peer : Peer)
    : resources :=
  let st := add_peer peer st in
  let fr := base_rule rule peer direction in
  add_rules (ruleID rule fr direction) (rule_rules targetPeer rule fr) st.

Definition generateResources (targetPeer : Peer) (rule : PolicyRule) (groupPeers : list Peer) (direction : Z)
    (st : resources) : resources :=
  foldl (generate_one targetPeer rule direction) st groupPeers.

(** *** SSH *)
Definition portRangeIncludesSSH (prs : list RulePortRange) : bool :=
  existsb (λ pr, (Start pr <=? defaultSSHPortNumber) && (defaultSSHPortNumber <=? End_ pr)
              || (Start pr <=? nativeSSHPortNumber) && (nativeSSHPortNumber <=? End_ pr)) prs.

Definition portsIncludesSSH (ports : list string) : bool :=
  existsb (λ p, bool_decide (p = defaultSSHPortString ∨ p = nativeSSHPortString)) ports.

Definition policyRuleImpliesLegacySSH (rule : PolicyRule) : bool :=
  bool_decide (r_Protocol rule = PolicyRuleProtocolALL)
  || bool_decide (r_Protocol rule = PolicyRuleProtocolTCP)
     && (portsIncludesSSH (r_Ports rule) || portRangeIncludesSSH (r_PortRanges rule)).

Definition getAllowedUserIDs (a : Account) : gset string :=
  list_to_set (u_Id <$> filter (λ u, u_Blocked u = false ∧ u_IsServiceUser u = false) (map_to_list (Users a)).*2).

Definition grant (localUser : string) (userIDs : gset string) (m : ssh_users) : ssh_users :=
  <[localUser := default ∅ (m !! localUser) ∪ userIDs]> m.

Definition grant_group (groupIDToUserIDs : gmap string (list string)) (m : ssh_users)
    (g : string * list string) : ssh_users :=
  match groupIDToUserIDs !! g.1 with
  | None => m
  | Some userIDs =>
      let localUsers := match g.2 with [] => [Wildcard] | l => l end in
      foldl (λ m l, grant l (list_to_set userIDs) m) m localUsers
  end.

Definition authorize (allowedUserIDs : gset string) (groupIDToUserIDs : gmap string (list string))
    (rule : PolicyRule) (m : ssh_users) : ssh_users :=
  if bool_decide (r_AuthorizedGroups rule ≠ ∅)
  then foldl (grant_group groupIDToUserIDs) m (map_to_list (r_AuthorizedGroups rule))
  else if bool_decide (r_AuthorizedUser rule ≠ "") then grant Wildcard {[ r_AuthorizedUser rule ]} m
  else <[Wildcard := allowedUserIDs]> m.

(** *** [GetPeerConnectionResources] *)
Record result := { res_st : resources; authorizedUsers : ssh_users; sshEnabled : bool }.

Definition is_peer_resource (r : Resource) : bool := bool_decide (res_Type r = ResourceTypePeer ∧ res_ID r ≠ "").

Definition rule_sources (a : Account) (validated : gset string) (peer : Peer) (policy : Policy)
    (rule : PolicyRule) : list Peer * bool :=
  if is_peer_resource (r_SourceResource rule) then getPeerFromResource a (r_SourceResource rule) (ID peer)
  else getAllPeersFromGroups a (r_Sources rule) (ID peer) (pol_SourcePostureChecks policy) validated.

Definition rule_destinations (a : Account) (validated : gset string) (peer : Peer) (rule : PolicyRule)
    : list Peer * bool :=
  if is_peer_resource (r_DestinationResource rule) then getPeerFromResource a (r_DestinationResource rule) (ID peer)
  else getAllPeersFromGroups a (r_Destinations rule) (ID peer) [] validated.

(** What the loop over the policies asks for: the peers on the two sides of a rule, and users. *)
Record lookups := {
  lk_sources : Policy → PolicyRule → list Peer * bool;
  lk_destinations : PolicyRule → list Peer * bool;
  lk_allowed : gset string;
  lk_users : gmap string (list string);
}.

Definition apply_rule (k : lookups) (peer : Peer) (policy : Policy) (s : result) (rule : PolicyRule) : result :=
  if negb (r_Enabled rule) then s
  else
    let '(sourcePeers, peerInSources) := lk_sources k policy rule in
    let '(destinationPeers, peerInDestinations) := lk_destinations k rule in
    let when (b : bool) ps dir st := if b then generateResources peer rule ps dir st else st in
    let st := res_st s in
    let st := when (r_Bidirectional rule && peerInSources) destinationPeers FirewallRuleDirectionIN st in
    let st := when (r_Bidirectional rule && peerInDestinations) sourcePeers FirewallRuleDirectionOUT st in
    let st := when peerInSources destinationPeers FirewallRuleDirectionOUT st in
    let st := when peerInDestinations sourcePeers FirewallRuleDirectionIN st in
    if peerInDestinations && bool_decide (r_Protocol rule = PolicyRuleProtocolNetbirdSSH) then
      {| res_st := st; authorizedUsers := authorize (lk_allowed k) (lk_users k) rule (authorizedUsers s);
         sshEnabled := true |}
    else if peerInDestinations && policyRuleImpliesLegacySSH rule && SSHEnabled peer then
      {| res_st := st; authorizedUsers := <[Wildcard := lk_allowed k]> (authorizedUsers s); sshEnabled := true |}
    else {| res_st := st; authorizedUsers := authorizedUsers s; sshEnabled := sshEnabled s |}.

Definition apply_policy (k : lookups) (peer : Peer) (s : result) (policy : Policy) : result :=
  if negb (pol_Enabled policy) then s
  else foldl (apply_rule k peer policy) s (pol_Rules policy).

Definition no_result : result := {| res_st := no_resources; authorizedUsers := ∅; sshEnabled := false |}.

Definition connection_loop (k : lookups) (peer : Peer) (policies : list Policy) : result :=
  foldl (apply_policy k peer) no_result policies.

Definition account_lookups (a : Account) (validated : gset string)
    (groupIDToUserIDs : gmap string (list string)) (peer : Peer) : lookups :=
  {| lk_sources := rule_sources a validated peer; lk_destinations := rule_destinations a validated peer;
     lk_allowed := getAllowedUserIDs a; lk_users := groupIDToUserIDs |}.

Definition GetPeerConnectionResources (a : Account) (peer : Peer) (validated : gset string)
    (groupIDToUserIDs : gmap string (list string)) : result :=
  connection_loop (account_lookups a validated groupIDToUserIDs peer) peer (Policies a).

(** ** The calls of the generator *)
Abbreviation call := (PolicyRule * Peer * Z)%type.

Definition gen (target : Peer) (st : resources) (c : call) : resources :=
  generate_one target c.1.1 c.2 st c.1.2.

Definition call_key (c : call) : string := ruleID c.1.1 (base_rule c.1.1 c.1.2 c.2) c.2.
Definition call_rules (target : Peer) (c : call) : list FirewallRule :=
  rule_rules target c.1.1 (base_rule c.1.1 c.1.2 c.2).

(** A member of groups is in one of them. *)
Lemma unique_loop_elem (A : Account) single gs seen p : p ∈ unique_loop A single gs seen →
  p ∈ seen ∨ ∃ i g, i ∈ gs ∧ Groups A !! i = Some g ∧ p ∈ g_Peers g.
Proof.
  revert seen. induction gs as [|i gs IH]; intros seen; cbn; [rewrite elem_of_elements; auto|].
  unfold GetGroup. destruct (Groups A !! i) as [g|] eqn:Hg.
  - destruct (IsGroupAll g || single).
    + intros Hp. right. exists i, g. split_and!; [by left|done..].
    + intros [[?|?%elem_of_list_to_set]%elem_of_union|(j & h & ? & ? & ?)]%IH; [by left| |].
      * right. exists i, g. split_and!; [by left|done..].
      * right. exists j, h. split_and!; [by right|done..].
  - intros [?|(j & h & ? & ? & ?)]%IH; [by left|]. right. exists j, h. split_and!; [by right|done..].
Qed.

Lemma gen_cases target st c :
  peers (gen target st c) = peers st ++ (if bool_decide (ID c.1.2 ∈ peersExists st) then [] else [c.1.2])
  ∧ peersExists (gen target st c) = {[ ID c.1.2 ]} ∪ peersExists st
  ∧ rules (gen target st c)
    = rules st ++ (if bool_decide (call_key c ∈ rulesExists st) then [] else call_rules target c)
  ∧ rulesExists (gen target st c) = {[ call_key c ]} ∪ rulesExists st.
Proof.
  destruct c as [[rule q] dir]. unfold gen, generate_one, add_rules, add_peer, call_key, call_rules. simpl.
  destruct (decide (ID q ∈ peersExists st)) as [H1|H1];
    [rewrite !(bool_decide_eq_true_2 (ID q ∈ _)) by done|rewrite !(bool_decide_eq_false_2 (ID q ∈ _)) by done];
    simpl; case_bool_decide; simpl; rewrite ?app_nil_r; split_and!; set_solver.
Qed.

Lemma gen_peers_inv target cs :
  let st := foldl (gen target) no_resources cs in
  peersExists st = list_to_set (ID <$> peers st) ∧ NoDup (ID <$> peers st)
  ∧ (∀ q, q ∈ peers st → ∃ c, c ∈ cs ∧ c.1.2 = q) ∧ (∀ c, c ∈ cs → ID c.1.2 ∈ peersExists st).
Proof.
  induction cs as [|c cs IH] using rev_ind; [split_and!; simpl; [done|constructor|set_solver|set_solver]|].
  cbv zeta in *. rewrite foldl_app. cbn [foldl]. destruct IH as (Hex & Hnd & Hin & Hcov).
  set (st := foldl (gen target) no_resources cs) in *.
  destruct (gen_cases target st c) as (-> & -> & _ & _). rewrite fmap_app, list_to_set_app_L, <-Hex.
  destruct (decide (ID c.1.2 ∈ peersExists st)) as [Hc|Hc];
    [rewrite bool_decide_eq_true_2 by done|rewrite bool_decide_eq_false_2 by done]; simpl.
  - rewrite !app_nil_r. split_and!; [set_solver|done| |].
    + intros q Hq. destruct (Hin q Hq) as (c' & ? & ?). exists c'. set_solver.
    + intros c' [?|?%list_elem_of_singleton]%elem_of_app; [set_solver|subst; set_solver].
  - split_and!; [set_solver| | |].
    + apply NoDup_app. split_and!; [done| |apply NoDup_singleton]. intros i Hi [= ->]%list_elem_of_singleton.
      apply Hc. rewrite Hex. by apply elem_of_list_to_set.
    + intros q [Hq|Hq%list_elem_of_singleton]%elem_of_app.
      * destruct (Hin q Hq) as (c' & ? & ?). exists c'. set_solver.
      * exists c. set_solver.
    + intros c' [?|?%list_elem_of_singleton]%elem_of_app; [set_solver|subst; set_solver].
Qed.

(** The peers are those of the calls, once each. *)
Lemma gen_peers target cs
    (Huniq : ∀ c c', c ∈ cs → c' ∈ cs → ID c.1.2 = ID c'.1.2 → c.1.2 = c'.1.2) q :
  q ∈ peers (foldl (gen target) no_resources cs) ↔ ∃ c, c ∈ cs ∧ c.1.2 = q.
Proof.
  destruct (gen_peers_inv target cs) as (Hex & _ & Hin & Hcov). split; [apply Hin|].
  intros (c & Hc & <-). specialize (Hcov c Hc). rewrite Hex in Hcov.
  apply elem_of_list_to_set, list_elem_of_fmap in Hcov as (q & Hid & Hq).
  destruct (Hin q Hq) as (c' & Hc' & <-). by rewrite (Huniq c c' Hc Hc' Hid).
Qed.

Lemma gen_rules_inv target cs
    (Huniq : ∀ c c', c ∈ cs → c' ∈ cs → call_key c = call_key c' → call_rules target c = call_rules target c') :
  let st := foldl (gen target) no_resources cs in
  (∀ fr, fr ∈ rules st ↔ ∃ c, c ∈ cs ∧ fr ∈ call_rules target c)
  ∧ (∀ i, i ∈ rulesExists st ↔ ∃ c, c ∈ cs ∧ call_key c = i).
Proof.
  induction cs as [|c cs IH] using rev_ind; [split; simpl; set_solver|].
  cbv zeta in *. rewrite foldl_app. cbn [foldl]. destruct IH as (Hin & Hk).
  { intros c1 c2 ? ?. apply Huniq; set_solver. }
  set (st := foldl (gen target) no_resources cs) in *.
  destruct (gen_cases target st c) as (_ & _ & -> & ->). split.
  - intros fr. rewrite elem_of_app, Hin. split.
    + intros [(c' & ? & ?)|Hfr]; [exists c'; set_solver|]. case_bool_decide; [set_solver|]. exists c. set_solver.
    + intros (c' & [Hc'|Hc'%list_elem_of_singleton]%elem_of_app & Hfr); [left; eauto|subst c'].
      case_bool_decide as Hd; [|by right]. left. apply Hk in Hd as (c' & Hc' & Heq). exists c'.
      split; [done|]. rewrite (Huniq c' c); [done|set_solver|set_solver|done].
  - intros i. rewrite elem_of_union, elem_of_singleton, Hk. split.
    + intros [->|(c' & ? & ?)]; [exists c; set_solver|exists c'; set_solver].
    + intros (c' & [Hc'|Hc'%list_elem_of_singleton]%elem_of_app & <-); [right; eauto|left; by subst].
Qed.

Section loop.
Context (k : lookups).

(** The rules that take part, in the order they are applied. *)
Definition enabled_rules (policies : list Policy) : list (Policy * PolicyRule) :=
  mjoin ((λ pol, pair pol <$> filter (λ r, r_Enabled r = true) (pol_Rules pol))
    <$> filter (λ pol, pol_Enabled pol = true) policies).

Definition rule_calls (pol : Policy) (rule : PolicyRule) : list call :=
  let src := lk_sources k pol rule in
  let dst := lk_destinations k rule in
  let mk (b : bool) ps dir := if b then (λ q, (rule, q, dir)) <$> ps else [] in
  mk (r_Bidirectional rule && src.2) dst.1 FirewallRuleDirectionIN
  ++ mk (r_Bidirectional rule && dst.2) src.1 FirewallRuleDirectionOUT
  ++ mk src.2 dst.1 FirewallRuleDirectionOUT ++ mk dst.2 src.1 FirewallRuleDirectionIN.

Definition all_calls (policies : list Policy) : list call :=
  mjoin ((λ pr, rule_calls pr.1 pr.2) <$> enabled_rules policies).

Lemma generateResources_gen target rule ps dir st :
  generateResources target rule ps dir st = foldl (gen target) st ((λ q, (rule, q, dir)) <$> ps).
Proof. unfold generateResources. by rewrite foldl_fmap. Qed.

Lemma apply_rule_st peer pol s rule : r_Enabled rule = true →
  res_st (apply_rule k peer pol s rule) = foldl (gen peer) (res_st s) (rule_calls pol rule).
Proof.
  intros He. unfold apply_rule, rule_calls. rewrite He. cbn [negb].
  destruct (lk_sources k pol rule) as [src inS], (lk_destinations k rule) as [dst inD].
  cbv zeta. cbn [fst snd]. rewrite !foldl_app, !generateResources_gen.
  destruct (r_Bidirectional rule), inS, inD; cbn [andb foldl]; repeat case_match; done.
Qed.

Lemma apply_policy_foldl peer s pol : pol_Enabled pol = true →
  apply_policy k peer s pol
  = foldl (λ s pr, apply_rule k peer pr.1 s pr.2) s
      (pair pol <$> filter (λ r, r_Enabled r = true) (pol_Rules pol)).
Proof.
  intros He. unfold apply_policy. rewrite He. cbn [negb]. rewrite foldl_fmap. cbn [fst snd].
  generalize (pol_Rules pol). intros rs. revert s. induction rs as [|r rs IH]; intros s; [done|].
  cbn [foldl]. rewrite filter_cons. destruct (r_Enabled r) eqn:E; [by rewrite decide_True by done; apply IH|].
  rewrite decide_False by done. rewrite <-IH. unfold apply_rule at 2. by rewrite E.
Qed.

Lemma loop_foldl peer policies :
  connection_loop k peer policies
  = foldl (λ s pr, apply_rule k peer pr.1 s pr.2)
      no_result (enabled_rules policies).
Proof.
  unfold connection_loop, enabled_rules. generalize no_result.
  induction policies as [|pol ps IH]; intros s; [done|]. cbn [foldl]. rewrite filter_cons.
  destruct (pol_Enabled pol) eqn:E.
  - rewrite decide_True by done. cbn [fmap list_fmap mjoin list_join]. rewrite foldl_app.
    rewrite apply_policy_foldl by done. apply IH.
  - rewrite decide_False by done. rewrite IH. unfold apply_policy. by rewrite E.
Qed.

Lemma enabled_rules_spec policies pol rule :
  (pol, rule) ∈ enabled_rules policies ↔
  pol ∈ policies ∧ pol_Enabled pol = true ∧ rule ∈ pol_Rules pol ∧ r_Enabled rule = true.
Proof.
  unfold enabled_rules. rewrite list_elem_of_join. split.
  - intros (l & Hin & Hl). apply list_elem_of_fmap in Hl as (pol' & -> & Hp).
    apply list_elem_of_filter in Hp as [? ?].
    apply list_elem_of_fmap in Hin as (r & [= <- <-] & Hr). apply list_elem_of_filter in Hr as [? ?]. done.
  - intros (? & ? & ? & ?). eexists. split; [|apply list_elem_of_fmap; exists pol; split; [done|]].
    + apply list_elem_of_fmap. exists rule. split; [done|]. by apply list_elem_of_filter.
    + by apply list_elem_of_filter.
Qed.

Lemma loop_st peer policies :
  res_st (connection_loop k peer policies) = foldl (gen peer) no_resources (all_calls policies).
Proof.
  rewrite loop_foldl. unfold all_calls.
  assert (Hen : ∀ pr, pr ∈ enabled_rules policies → r_Enabled pr.2 = true).
  { intros [pol r] H. by apply enabled_rules_spec in H as (_ & _ & _ & ?). }
  change no_resources with (res_st no_result). generalize no_result.
  induction (enabled_rules policies) as [|pr prs IH]; intros s; [done|].
  cbn [foldl fmap list_fmap mjoin list_join]. rewrite foldl_app, <-apply_rule_st by set_solver.
  apply IH. set_solver.
Qed.
End loop.

Section account.
Context (a : Account) (v : gset string) (users : gmap string (list string)).

(** ** Sides of a rule *)
Definition in_groups (checks groups : list string) (p : string) : Prop :=
  p ∈ getUniquePeerIDsFromGroupsIDs a groups ∧ is_Some (admitted a v checks p).

Definition names_peer (r : Resource) (p : string) : Prop := p = res_ID r ∧ is_Some (Peers a !! p).

Definition is_source (pol : Policy) (rule : PolicyRule) (p : string) : Prop :=
  if is_peer_resource (r_SourceResource rule) then names_peer (r_SourceResource rule) p
  else in_groups (pol_SourcePostureChecks pol) (r_Sources rule) p.

Definition is_destination (rule : PolicyRule) (p : string) : Prop :=
  if is_peer_resource (r_DestinationResource rule) then names_peer (r_DestinationResource rule) p
  else in_groups [] (r_Destinations rule) p.

(** Peer [p] gets a rule about peer [q] in the given direction. *)
Definition remote (pol : Policy) (rule : PolicyRule) (p q : string) (dir : Z) : Prop :=
  is_source pol rule p ∧ is_destination rule q
    ∧ (dir = FirewallRuleDirectionOUT ∨ r_Bidirectional rule = true ∧ dir = FirewallRuleDirectionIN)
  ∨ is_destination rule p ∧ is_source pol rule q
    ∧ (dir = FirewallRuleDirectionIN ∨ r_Bidirectional rule = true ∧ dir = FirewallRuleDirectionOUT).

(** What leaves [p] for [q] arrives at [q] from [p]. *)
Lemma remote_mirror pol rule p q d : remote pol rule p q d → remote pol rule q p (1 - d).
Proof.
  unfold remote, FirewallRuleDirectionIN, FirewallRuleDirectionOUT.
  intros [(? & ? & [->|[? ->]])|(? & ? & [->|[? ->]])]; [right|right|left|left]; auto.
Qed.

Context (Hwf : map_Forall (λ k p, ID p = k) (Peers a)).

Lemma admitted_peer checks p peer : admitted a v checks p = Some peer → Peers a !! p = Some peer ∧ ID peer = p.
Proof.
  unfold admitted. destruct (Peers a !! p) as [q|] eqn:E; [|done]. simpl. specialize (Hwf p q E).
  repeat case_match; try done. by intros [= <-].
Qed.

Lemma groups_spec groups peer checks :
  ((getAllPeersFromGroups a groups (ID peer) checks v).2 = true ↔ in_groups checks groups (ID peer))
  ∧ ∀ q, q ∈ (getAllPeersFromGroups a groups (ID peer) checks v).1
      ↔ Peers a !! ID q = Some q ∧ in_groups checks groups (ID q) ∧ ID q ≠ ID peer.
Proof.
  assert (Hm : ∀ q, q ∈ omap (admitted a v checks) (getUniquePeerIDsFromGroupsIDs a groups)
    ↔ Peers a !! ID q = Some q ∧ in_groups checks groups (ID q)).
  { intros q. rewrite list_elem_of_omap. unfold in_groups. split.
    - intros (p & Hp & Hq). destruct (admitted_peer _ _ _ Hq) as [? ->]. eauto.
    - intros (Hq & Hin & [q' Hq']). exists (ID q). split; [done|]. rewrite Hq'.
      destruct (admitted_peer _ _ _ Hq'). congruence. }
  unfold getAllPeersFromGroups. cbn [fst snd]. split.
  - rewrite existsb_exists. split.
    + intros (q & Hq%list_elem_of_In & He%bool_decide_eq_true). rewrite <-He. by apply Hm.
    + intros Hin. destruct Hin as [Hin [q Hq]]. destruct (admitted_peer _ _ _ Hq) as [Hp Hid].
      exists q. split; [|by apply bool_decide_eq_true]. apply list_elem_of_In, Hm. rewrite Hid.
      split; [done|]. split; eauto.
  - intros q. rewrite list_elem_of_filter, Hm. naive_solver.
Qed.

Lemma resource_spec r peer :
  ((getPeerFromResource a r (ID peer)).2 = true ↔ names_peer r (ID peer))
  ∧ ∀ q, q ∈ (getPeerFromResource a r (ID peer)).1
      ↔ Peers a !! ID q = Some q ∧ names_peer r (ID q) ∧ ID q ≠ ID peer.
Proof.
  unfold getPeerFromResource, names_peer, GetPeer. destruct (Peers a !! res_ID r) as [p|] eqn:E.
  - pose proof (Hwf _ _ E) as Hid. simpl in Hid. case_bool_decide as Hd; cbn [fst snd].
    + split; [rewrite <-Hd, Hid; naive_solver|]. intros q. split; [set_solver|].
      intros (_ & [Hq _] & Hne). congruence.
    + split; [split; [done|]; intros [Hp _]; congruence|]. intros q. rewrite list_elem_of_singleton. split.
      * intros ->. rewrite Hid in Hd |- *. split_and!; eauto.
      * intros (Hq & [Hq' _] & _). rewrite Hq', E in Hq. by simplify_eq.
  - cbn [fst snd]. split; [split; [done|]; intros [-> [? ?]]; congruence|].
    intros q. split; [set_solver|]. intros (_ & [Hq [? Hs]] & _). rewrite Hq in Hs. congruence.
Qed.

Lemma sources_spec peer pol rule :
  ((rule_sources a v peer pol rule).2 = true ↔ is_source pol rule (ID peer))
  ∧ ∀ q, q ∈ (rule_sources a v peer pol rule).1
      ↔ Peers a !! ID q = Some q ∧ is_source pol rule (ID q) ∧ ID q ≠ ID peer.
Proof. unfold rule_sources, is_source. case_match; [apply resource_spec|apply groups_spec]. Qed.

Lemma destinations_spec peer rule :
  ((rule_destinations a v peer rule).2 = true ↔ is_destination rule (ID peer))
  ∧ ∀ q, q ∈ (rule_destinations a v peer rule).1
      ↔ Peers a !! ID q = Some q ∧ is_destination rule (ID q) ∧ ID q ≠ ID peer.
Proof. unfold rule_destinations, is_destination. case_match; [apply resource_spec|apply groups_spec]. Qed.

Lemma mk_calls (b : bool) (rule : PolicyRule) (ps : list Peer) (d : Z) (c : call) :
  c ∈ (if b then (λ q, (rule, q, d)) <$> ps else []) ↔ b = true ∧ c.1.1 = rule ∧ c.1.2 ∈ ps ∧ c.2 = d.
Proof.
  destruct b; [|set_solver]. rewrite list_elem_of_fmap. split.
  - intros (q & -> & ?). done.
  - destruct c as [[r q] d']. simpl. intros (_ & -> & ? & ->). eauto.
Qed.

Lemma rule_calls_spec peer pol rule r q d :
  (r, q, d) ∈ rule_calls (account_lookups a v users peer) pol rule ↔
  r = rule ∧ Peers a !! ID q = Some q ∧ ID q ≠ ID peer ∧ remote pol rule (ID peer) (ID q) d.
Proof.
  unfold rule_calls, remote. cbv zeta. cbn [account_lookups lk_sources lk_destinations]. rewrite !elem_of_app, !mk_calls, !andb_true_iff. cbn [fst snd].
  destruct (sources_spec peer pol rule) as [-> Hs], (destinations_spec peer rule) as [-> Hd].
  rewrite Hs, Hd. tauto.
Qed.

(** The calls made for one peer. *)
Definition calls (peer : Peer) : list call := all_calls (account_lookups a v users peer) (Policies a).

Lemma all_calls_spec peer r q d :
  (r, q, d) ∈ calls peer ↔
  ∃ pol, (pol, r) ∈ enabled_rules (Policies a) ∧ Peers a !! ID q = Some q ∧ ID q ≠ ID peer
    ∧ remote pol r (ID peer) (ID q) d.
Proof.
  unfold calls, all_calls. rewrite list_elem_of_join. split.
  - intros (l & Hin & Hl). apply list_elem_of_fmap in Hl as ([pol rule] & -> & Hpr). simpl in Hin.
    apply rule_calls_spec in Hin as (-> & ?). eauto.
  - intros (pol & Hen & ?). exists (rule_calls (account_lookups a v users peer) pol r). split; [by apply rule_calls_spec|].
    apply list_elem_of_fmap. by exists (pol, r).
Qed.

Lemma all_calls_peers peer c c' :
  c ∈ calls peer → c' ∈ calls peer → ID c.1.2 = ID c'.1.2 → c.1.2 = c'.1.2.
Proof.
  destruct c as [[r q] d], c' as [[r' q'] d']. simpl.
  intros (? & _ & Hq & _)%all_calls_spec (? & _ & Hq' & _)%all_calls_spec Heq.
  rewrite Heq in Hq. congruence.
Qed.

Definition conn_peers (peer : Peer) : list Peer := peers (res_st (GetPeerConnectionResources a peer v users)).
Definition conn_rules (peer : Peer) : list FirewallRule := rules (res_st (GetPeerConnectionResources a peer v users)).

Lemma conn_peers_spec peer q :
  q ∈ conn_peers peer ↔
  ∃ pol rule d, (pol, rule) ∈ enabled_rules (Policies a) ∧ Peers a !! ID q = Some q ∧ ID q ≠ ID peer
    ∧ remote pol rule (ID peer) (ID q) d.
Proof.
  unfold conn_peers. unfold GetPeerConnectionResources. rewrite loop_st, gen_peers by apply all_calls_peers. split.
  - intros ([[r q'] d] & Hc & <-). apply all_calls_spec in Hc as (pol & ?). simpl. eauto.
  - intros (pol & rule & d & ?). exists (rule, q, d). split; [|done]. apply all_calls_spec. eauto.
Qed.

(** C2: visibility is symmetric: a peer is in another peer's list of connections exactly when
    the other peer is in its list, for every account, set of approved peers and posture
    checks. *)
Theorem connection_symmetric p q (Hp : Peers a !! ID p = Some p) (Hq : Peers a !! ID q = Some q) :
  q ∈ conn_peers p ↔ p ∈ conn_peers q.
Proof.
  rewrite !conn_peers_spec.
  split; intros (pol & rule & d & ? & _ & ? & ?%remote_mirror); exists pol, rule, (1 - d); auto.
Qed.

(** The connection list is exactly the policies' meaning: another peer of the account is
    listed once if and only if an enabled rule of an enabled policy has one of the two as a
    source and the other as a destination. *)
Theorem connection_peers_spec peer :
  NoDup (ID <$> conn_peers peer)
  ∧ ∀ q, q ∈ conn_peers peer ↔
      Peers a !! ID q = Some q ∧ ID q ≠ ID peer
      ∧ ∃ pol rule, pol ∈ Policies a ∧ pol_Enabled pol = true ∧ rule ∈ pol_Rules pol ∧ r_Enabled rule = true
          ∧ (is_source pol rule (ID peer) ∧ is_destination rule (ID q)
             ∨ is_destination rule (ID peer) ∧ is_source pol rule (ID q)).
Proof.
  split; [unfold conn_peers, GetPeerConnectionResources; rewrite loop_st; apply gen_peers_inv|]. intros q.
  rewrite conn_peers_spec. split.
  - intros (pol & rule & d & Hen%enabled_rules_spec & ? & ? & Hr). destruct Hen as (? & ? & ? & ?).
    split_and!; [done..|]. exists pol, rule. destruct Hr as [(? & ? & _)|(? & ? & _)]; auto 10.
  - intros (? & ? & pol & rule & ? & ? & ? & ? & Hr). destruct Hr as [[? ?]|[? ?]];
      [exists pol, rule, FirewallRuleDirectionOUT|exists pol, rule, FirewallRuleDirectionIN];
      (split; [by apply enabled_rules_spec|]); unfold remote; auto 10.
Qed.

(** ** Firewall rules *)
(** The identifiers of rules are unique, and of one length. *)
Definition rule_ids_ok : Prop :=
  ∀ pol rule pol' rule', (pol, rule) ∈ enabled_rules (Policies a) → (pol', rule') ∈ enabled_rules (Policies a) →
    String.length (r_ID rule) = String.length (r_ID rule')
    ∧ (r_ID rule = r_ID rule' → rule = rule').

Lemma call_key_inj (Hids : rule_ids_ok) peer c c' :
  c ∈ calls peer → c' ∈ calls peer → call_key c = call_key c' →
  call_rules peer c = call_rules peer c'.
Proof.
  destruct c as [[r q] d], c' as [[r' q'] d'].
  intros (pol & Hen & _ & _ & Hr)%all_calls_spec (pol' & Hen' & _ & _ & Hr')%all_calls_spec.
  unfold call_key, call_rules, ruleID. cbn [fst snd]. intros Heq.
  destruct (Hids _ _ _ _ Hen Hen') as [Hlen Huniq].
  apply append_inj_len in Heq as [Hid Heq]; [|done]. apply Huniq in Hid. subst r'. simpl in Heq.
  rewrite !append_assoc in Heq. do 3 apply append_inj_r in Heq.
  assert (Hd : ∀ p x y z, remote p r x y z → z = 0 ∨ z = 1).
  { unfold remote, FirewallRuleDirectionIN, FirewallRuleDirectionOUT. naive_solver. }
  assert (IP_String (IP q) = IP_String (IP q') ∧ d = d') as [Hip ->].
  { apply Hd in Hr as [-> | ->], Hr' as [-> | ->];
      change (Itoa 0) with "0" in Heq; change (Itoa 1) with "1" in Heq;
      apply append_char_inj in Heq as [Hc ?]; try done. }
  unfold base_rule. by rewrite Hip.
Qed.

Lemma conn_rules_elem (Hids : rule_ids_ok) peer fr :
  fr ∈ conn_rules peer ↔
  ∃ pol rule q d, (pol, rule) ∈ enabled_rules (Policies a) ∧ Peers a !! ID q = Some q ∧ ID q ≠ ID peer
    ∧ remote pol rule (ID peer) (ID q) d ∧ fr ∈ rule_rules peer rule (base_rule rule q d).
Proof.
  unfold conn_rules, GetPeerConnectionResources. rewrite loop_st.
  destruct (gen_rules_inv peer (calls peer) (call_key_inj Hids peer)) as [-> _]. split.
  - intros ([[r q] d] & Hc & Hfr). apply all_calls_spec in Hc as (pol & ? & ? & ? & ?). by exists pol, r, q, d.
  - intros (pol & rule & q & d & ? & ? & ? & ? & Hfr). exists (rule, q, d). split; [|done].
    apply all_calls_spec. eauto.
Qed.

(** C26: the firewall rules of a peer are exactly those the enabled policies give it: one set per
    rule, other peer and direction, expanded to what this peer's version supports; the other
    peer is given the same rule in the opposite direction.  The ids of rules are distinct and
    of one length ([rule_ids_ok]). *)
Theorem firewall_rules_spec (Hids : rule_ids_ok) peer fr :
  fr ∈ conn_rules peer ↔
  ∃ pol rule q d, (pol, rule) ∈ enabled_rules (Policies a) ∧ Peers a !! ID q = Some q ∧ ID q ≠ ID peer
    ∧ remote pol rule (ID peer) (ID q) d ∧ remote pol rule (ID q) (ID peer) (1 - d)
    ∧ fr ∈ rule_rules peer rule (base_rule rule q d).
Proof.
  rewrite conn_rules_elem by done.
  split; intros (pol & rule & q & d & Hrest); exists pol, rule, q, d; intuition auto using remote_mirror.
Qed.

(** ** SSH access *)
(** The rule lets user [u] log in as [l]. *)
Definition grants (rule : PolicyRule) (l u : string) : Prop :=
  if bool_decide (r_Protocol rule = PolicyRuleProtocolNetbirdSSH) then
    if bool_decide (r_AuthorizedGroups rule ≠ ∅) then
      ∃ g ls us, r_AuthorizedGroups rule !! g = Some ls ∧ users !! g = Some us ∧ u ∈ us
        ∧ l ∈ (match ls with [] => [Wildcard] | _ => ls end)
    else if bool_decide (r_AuthorizedUser rule ≠ "") then l = Wildcard ∧ u = r_AuthorizedUser rule
    else l = Wildcard ∧ u ∈ getAllowedUserIDs a
  else l = Wildcard ∧ u ∈ getAllowedUserIDs a.

Definition ssh_rule (peer : Peer) (rule : PolicyRule) : Prop :=
  is_destination rule (ID peer)
  ∧ (r_Protocol rule = PolicyRuleProtocolNetbirdSSH
     ∨ policyRuleImpliesLegacySSH rule = true ∧ SSHEnabled peer = true).

Definition may_login (m : ssh_users) (l u : string) : Prop := ∃ s, m !! l = Some s ∧ u ∈ s.

Lemma grant_spec l us m l' u : may_login (grant l us m) l' u → may_login m l' u ∨ l' = l ∧ u ∈ us.
Proof.
  unfold may_login, grant. intros (s & Hs & Hu). apply lookup_insert_Some in Hs as [[<- <-]|[_ Hs]]; [|eauto].
  apply elem_of_union in Hu as [Hu|Hu]; [|by right]. left. destruct (m !! l); [by eauto|set_solver].
Qed.

Lemma grant_all_spec us ls m l u :
  may_login (foldl (λ m l, grant l us m) m ls) l u → may_login m l u ∨ l ∈ ls ∧ u ∈ us.
Proof.
  revert m. induction ls as [|l' ls IH]; intros m; [by left|]. simpl.
  intros [H|[? ?]]%IH; [|right; set_solver]. apply grant_spec in H as [?|[-> ?]]; [by left|right; set_solver].
Qed.

Lemma grant_groups_spec gs m l u :
  may_login (foldl (grant_group users) m gs) l u →
  may_login m l u ∨ ∃ g ls us, (g, ls) ∈ gs ∧ users !! g = Some us ∧ u ∈ us
    ∧ l ∈ (match ls with [] => [Wildcard] | _ => ls end).
Proof.
  revert m. induction gs as [|[g ls] gs IH]; intros m; [by left|]. simpl.
  intros [H|(g' & ls' & us & ? & ?)]%IH; [|right; exists g', ls', us; set_solver].
  unfold grant_group in H. cbn [fst snd] in H. destruct (users !! g) as [us|] eqn:E; [|by left].
  apply grant_all_spec in H as [?|[Hl Hu]]; [by left|]. right. exists g, ls, us.
  rewrite elem_of_list_to_set in Hu. split_and!; [set_solver|done..|]. by destruct ls.
Qed.

Lemma set_wildcard_spec us m l u :
  may_login (<[Wildcard := us]> m) l u → may_login m l u ∨ l = Wildcard ∧ u ∈ us.
Proof.
  unfold may_login. intros (s & Hs & Hu). apply lookup_insert_Some in Hs as [[<- <-]|[_ Hs]]; eauto.
Qed.

Lemma authorize_spec rule m l u : r_Protocol rule = PolicyRuleProtocolNetbirdSSH →
  may_login (authorize (getAllowedUserIDs a) users rule m) l u → may_login m l u ∨ grants rule l u.
Proof.
  intros Hp. unfold authorize, grants. rewrite (bool_decide_eq_true_2 (r_Protocol rule = _)) by done.
  repeat case_match.
  - intros [?|(g & ls & us & Hg%elem_of_map_to_list & ?)]%grant_groups_spec; eauto 10.
  - intros [?|[-> ?%elem_of_singleton]]%grant_spec; auto.
  - by intros ?%set_wildcard_spec.
Qed.

Lemma apply_rule_ssh peer pol s rule : r_Enabled rule = true →
  (sshEnabled (apply_rule (account_lookups a v users peer) peer pol s rule) = true ↔ sshEnabled s = true ∨ ssh_rule peer rule)
  ∧ ∀ l u, may_login (authorizedUsers (apply_rule (account_lookups a v users peer) peer pol s rule)) l u →
      may_login (authorizedUsers s) l u ∨ ssh_rule peer rule ∧ grants rule l u.
Proof.
  intros He. unfold apply_rule, ssh_rule. rewrite He.
  cbn [negb account_lookups lk_sources lk_destinations lk_allowed lk_users].
  destruct (destinations_spec peer rule) as [Hd _].
  destruct (rule_sources a v peer pol rule) as [src inS], (rule_destinations a v peer rule) as [dst inD].
  cbv zeta. cbn [fst snd] in Hd |- *. destruct inD; cbn [andb]; [|naive_solver].
  pose proof (proj1 Hd eq_refl) as Hdest. clear Hd.
  destruct (decide (r_Protocol rule = PolicyRuleProtocolNetbirdSSH)) as [Hp|Hp].
  { rewrite bool_decide_eq_true_2 by done. cbn [authorizedUsers sshEnabled]. split; [naive_solver|].
    intros l u [?|?]%(authorize_spec _ _ _ _ Hp); auto 10. }
  rewrite bool_decide_eq_false_2 by done.
  destruct (policyRuleImpliesLegacySSH rule); cbn [andb]; [|naive_solver].
  destruct (SSHEnabled peer); cbn [authorizedUsers sshEnabled]; [|naive_solver]. split; [naive_solver|].
  intros l u [?|?]%set_wildcard_spec; [by left|]. right. split; [auto 10|]. unfold grants.
  by rewrite bool_decide_eq_false_2.
Qed.

(** SSH is switched on exactly when an enabled rule of an enabled policy with this peer among
    its destinations calls for it, and nobody may log in unless such a rule grants it. *)
Theorem ssh_access_spec peer :
  let r := GetPeerConnectionResources a peer v users in
  (sshEnabled r = true ↔ ∃ pol rule, (pol, rule) ∈ enabled_rules (Policies a) ∧ ssh_rule peer rule)
  ∧ ∀ l u, may_login (authorizedUsers r) l u →
      ∃ pol rule, (pol, rule) ∈ enabled_rules (Policies a) ∧ ssh_rule peer rule ∧ grants rule l u.
Proof.
  cbv zeta. unfold GetPeerConnectionResources. rewrite loop_foldl.
  assert (Hen : ∀ pr, pr ∈ enabled_rules (Policies a) → r_Enabled pr.2 = true).
  { intros [pol r] H. by apply enabled_rules_spec in H as (_ & _ & _ & ?). }
  induction (enabled_rules (Policies a)) as [|[pol rule] prs IH] using rev_ind.
  { simpl. split; [set_solver|]. intros l u (s & Hs & _). by rewrite lookup_empty in Hs. }
  rewrite foldl_app. cbn [foldl fst snd]. destruct IH as [IH1 IH2]; [set_solver|].
  match goal with |- context [apply_rule _ _ _ ?s rule] => set (s0 := s) in * end.
  destruct (apply_rule_ssh peer pol s0 rule) as [H1 H2]; [apply (Hen (pol, rule)); set_solver|].
  rewrite H1, IH1. split.
  - split; [intros [(p & r & ? & ?)|?]; [exists p, r|exists pol, rule]; set_solver|].
    intros (p & r & [?|[= -> ->]%list_elem_of_singleton]%elem_of_app & ?); [left; eauto|by right].
  - intros l u [(p & r & ? & ? & ?)%IH2|[? ?]]%H2; [exists p, r|exists pol, rule]; set_solver.
Qed.
End account.
End policies.

(** ** A small account *)
Definition demo_peer (i : string) (ip : Z) (ssh : bool) : Peer :=
  {| ID := i; IP := ip; WtVersion := "0.61.0"; SSHEnabled := ssh; ServerSSHAllowed := ssh; Embedded := false;
     GoOS := "linux"; OSVersion := "22.04"; KernelVersion := "5.15.0"; NetworkAddresses := []; Files := [];
     CountryCode := "DE"; CityName := "Berlin" |}.
Definition no_resource : Resource := {| res_ID := ""; res_Type := ResourceTypeNone |}.
Definition demo_rule : PolicyRule := {|
  r_ID := "r1"; r_PolicyID := "p1"; r_Name := ""; r_Description := ""; r_Enabled := true; r_Action := "accept"; r_Destinations := ["servers"];
  r_DestinationResource := no_resource; r_Sources := ["laptops"]; r_SourceResource := no_resource;
  r_Bidirectional := false; r_Protocol := "tcp"; r_Ports := ["22"]; r_PortRanges := [];
  r_AuthorizedGroups := ∅; r_AuthorizedUser := "" |}.
Definition alice := demo_peer "alice" 1684275457 false.
Definition srv := demo_peer "srv" 1684275458 true.
Definition demo_group (i : string) (members : list string) : Group :=
  {| g_ID := i; g_AccountID := "acc"; g_Name := i; g_Issued := "api"; g_Peers := members; g_Resources := [] |}.
Definition demo_policy (i : string) (rs : list PolicyRule) : Policy :=
  {| pol_ID := i; pol_AccountID := "acc"; pol_Name := i; pol_Description := ""; pol_Enabled := true;
     pol_Rules := rs; pol_SourcePostureChecks := [] |}.
Definition demo_account : Account := {|
  Peers := {[ "alice" := alice; "srv" := srv ]};
  Groups := {[ "laptops" := demo_group "laptops" ["alice"]; "servers" := demo_group "servers" ["srv"] ]};
  Policies := [demo_policy "p1" [demo_rule]];
  Users := {[ "u1" := {| u_Id := "u1"; u_Blocked := false; u_IsServiceUser := false |} ]};
  PostureChecks := [] |}.
Definition demo_validated : gset string := {[ "alice"; "srv" ]}.
(** A version library that knows no old versions. *)
Definition all_new (_ _ : string) : outcome unit bool := Ret true.

Lemma demo_wf : map_Forall (λ k p, ID p = k) (Peers demo_account).
Proof. apply map_Forall_insert_2; [done|]. by apply map_Forall_singleton. Qed.

Lemma demo_rules_ok : rule_ids_ok demo_account.
Proof.
  intros pol rule pol' rule' H H'.
  change (enabled_rules (Policies demo_account)) with
    [(demo_policy "p1" [demo_rule], demo_rule)] in *.
  apply list_elem_of_singleton in H as [= -> ->]. apply list_elem_of_singleton in H' as [= -> ->]. done.
Qed.

Lemma connection_symmetric_witness :
  srv ∈ conn_peers all_new demo_account demo_validated ∅ alice
  ∧ alice ∈ conn_peers all_new demo_account demo_validated ∅ srv.
Proof.
  assert (H : srv ∈ conn_peers all_new demo_account demo_validated ∅ alice) by (vm_compute; left).
  split; [exact H|].
  exact (proj1 (connection_symmetric all_new demo_account demo_validated ∅ demo_wf alice srv eq_refl eq_refl) H).
Defined.

Lemma connection_peers_spec_witness :
  conn_peers all_new demo_account demo_validated ∅ alice = [srv]
  ∧ NoDup (ID <$> conn_peers all_new demo_account demo_validated ∅ alice).
Proof.
  split; [vm_compute; reflexivity|].
  exact (proj1 (connection_peers_spec all_new demo_account demo_validated ∅ demo_wf alice)).
Defined.

Lemma firewall_rules_spec_witness :
  Port <$> conn_rules all_new demo_account demo_validated ∅ srv = ["22"; "22022"]
  ∧ ∃ rule q d, set_Port "22022" (base_rule demo_rule alice 0) ∈ rule_rules all_new srv rule (base_rule rule q d).
Proof.
  split; [vm_compute; reflexivity|].
  destruct (proj1 (firewall_rules_spec all_new demo_account demo_validated ∅ demo_wf demo_rules_ok srv
    (set_Port "22022" (base_rule demo_rule alice 0)))) as (pol & rule & q & d & _ & _ & _ & _ & _ & H).
  { vm_compute. right; left. }
  exists rule, q, d. exact H.
Defined.

Lemma ssh_access_spec_witness :
  let r := GetPeerConnectionResources all_new demo_account srv demo_validated ∅ in
  sshEnabled r = true ∧ ∃ pol rule, (pol, rule) ∈ enabled_rules (Policies demo_account) ∧ grants demo_account ∅ rule "*" "u1".
Proof.
  cbv zeta. split; [vm_compute; reflexivity|].
  destruct (proj2 (ssh_access_spec all_new demo_account demo_validated ∅ demo_wf srv) "*" "u1")
    as (pol & rule & H1 & _ & H2).
  { exists {[ "u1" ]}. split; [vm_compute; reflexivity|]. by apply elem_of_singleton. }
  exists pol, rule. exact (conj H1 H2).
Defined.
