(* ===== verification/Posture.v ===== *)
(** Posture checks: [src/management/server/posture].

    A posture check is a list of requirements on a peer (version of the client, version of the
    operating system, location, networks it is attached to, running processes).  Each
    implements the interface [AccessPolicy.Check]: [as_Check] is the implementation, and
    evaluating a peer goes through it.  The version library (hashicorp/go-version) is a
    parameter: [NewVersion] parses a version, [NewConstraint] a constraint. *)
From Stdlib.Strings Require Import Ascii.
From S2P Require Import Prelude NetIP AccessPolicy.

(** *** Definitions *)
Definition CheckActionAllow : string := "allow".
Definition CheckActionDeny : string := "deny".

Record Location := { loc_CountryCode : string; loc_CityName : string }.
Record GeoLocationCheck := { geo_Locations : list Location; geo_Action : string }.
Record PeerNetworkRangeCheck := { range_Action : string; Ranges : list Prefix }.
Record Process := { LinuxPath : string; MacPath : string; WindowsPath : string }.
Record ProcessCheck := { Processes : list Process }.
Record NBVersionCheck := { nb_MinVersion : string }.
Record MinVersionCheck := { MinVersion : string }.
Record MinKernelVersionCheck := { MinKernelVersion : string }.
Record OSVersionCheck := {
  Android : option MinVersionCheck; Darwin : option MinVersionCheck; Ios : option MinVersionCheck;
  Linux : option MinKernelVersionCheck; Windows : option MinKernelVersionCheck }.

Record ChecksDefinition := {
  cd_NBVersionCheck : option NBVersionCheck;
  cd_OSVersionCheck : option OSVersionCheck;
  cd_GeoLocationCheck : option GeoLocationCheck;
  cd_PeerNetworkRangeCheck : option PeerNetworkRangeCheck;
  cd_ProcessCheck : option ProcessCheck }.

Record Checks := {
  pc_ID : string; pc_Name : string; pc_Description : string; pc_AccountID : string;
  pc_Checks : ChecksDefinition }.

(** The implementations of the interface. *)
Inductive check :=
| NBVersion (c : NBVersionCheck) | OSVersionC (c : OSVersionCheck) | Geo (c : GeoLocationCheck)
| NetworkRange (c : PeerNetworkRangeCheck) | ProcessC (c : ProcessCheck).

Definition Name (c : check) : string :=
  match c with
  | NBVersion _ => "NBVersionCheck" | OSVersionC _ => "OSVersionCheck" | Geo _ => "GeoLocationCheck"
  | NetworkRange _ => "PeerNetworkRangeCheck" | ProcessC _ => "ProcessCheck"
  end.

Definition GetChecks (pc : Checks) : list check :=
  let d := pc_Checks pc in
  option_list (NBVersion <$> cd_NBVersionCheck d) ++ option_list (OSVersionC <$> cd_OSVersionCheck d)
  ++ option_list (Geo <$> cd_GeoLocationCheck d) ++ option_list (NetworkRange <$> cd_PeerNetworkRangeCheck d)
  ++ option_list (ProcessC <$> cd_ProcessCheck d).

Inductive check_err :=
| ErrPeerVersion | ErrConstraint | ErrLocationNotSet | ErrInvalidAction (action : string)
| ErrNoAddresses | ErrUnsupportedOS (os : string).

(** [strings.Split(s, "-")[0]] *)
Fixpoint before_dash (s : string) : string :=
  match s with
  | String c s' => if Ascii.eqb c "-"%char then "" else String c (before_dash s')
  | EmptyString => ""
  end.

(** ** Evaluation *)
Section evaluation.
Context {version : Type} (NewVersion : string → option version)
        (NewConstraint : string → option (version → bool)).

Definition sanitizeVersion (v : string) : string := before_dash v.

(** Shared by the three functions that compare versions. *)
Definition at_least (minVer peerVer : string) : outcome check_err bool :=
  match NewVersion peerVer with
  | None => Err ErrPeerVersion
  | Some v =>
      match NewConstraint (">= " +:+ minVer) with
      | None => Err ErrConstraint
      | Some c => Ret (c v)
      end
  end.

Definition MeetsMinVersion (minVer peerVer : string) : outcome check_err bool :=
  at_least (sanitizeVersion minVer) (sanitizeVersion peerVer).

Definition NBVersionCheck_Check (c : NBVersionCheck) (p : Peer) : outcome check_err bool :=
  MeetsMinVersion (nb_MinVersion c) (WtVersion p).

Definition checkMinVersion (peerVersion : string) (c : option MinVersionCheck) : outcome check_err bool :=
  match c with None => Ret false | Some c => at_least (MinVersion c) peerVersion end.
Definition checkMinKernelVersion (peerVersion : string) (c : option MinKernelVersionCheck)
    : outcome check_err bool :=
  match c with None => Ret false | Some c => at_least (MinKernelVersion c) peerVersion end.

Definition OSVersionCheck_Check (c : OSVersionCheck) (p : Peer) : outcome check_err bool :=
  if bool_decide (GoOS p = "android") then checkMinVersion (OSVersion p) (Android c)
  else if bool_decide (GoOS p = "darwin") then checkMinVersion (OSVersion p) (Darwin c)
  else if bool_decide (GoOS p = "ios") then checkMinVersion (OSVersion p) (Ios c)
  else if bool_decide (GoOS p = "linux") then checkMinKernelVersion (before_dash (KernelVersion p)) (Linux c)
  else if bool_decide (GoOS p = "windows") then checkMinKernelVersion (KernelVersion p) (Windows c)
  else Ret true.

(** The verdict of a matched ([true]) or unmatched list under an action. *)
Definition by_action (action : string) (matched : bool) : outcome check_err bool :=
  if bool_decide (action = CheckActionDeny) then Ret (negb matched)
  else if bool_decide (action = CheckActionAllow) then Ret matched
  else Err (ErrInvalidAction action).

Definition location_matches (p : Peer) (l : Location) : bool :=
  bool_decide (loc_CountryCode l = CountryCode p)
  && (bool_decide (loc_CityName l = "") || bool_decide (loc_CityName l = CityName p)).

(** The loop stops at the first location that matches. *)
Fixpoint geo_loop (action : string) (p : Peer) (ls : list Location) : outcome check_err bool :=
  match ls with
  | [] => by_action action false
  | l :: ls => if location_matches p l then by_action action true else geo_loop action p ls
  end.

Definition GeoLocationCheck_Check (g : GeoLocationCheck) (p : Peer) : outcome check_err bool :=
  if bool_decide (CountryCode p = "" ∧ CityName p = "") then Err ErrLocationNotSet
  else geo_loop (geo_Action g) p (geo_Locations g).

Fixpoint range_loop (action : string) (maskedPrefixes addrs : list Prefix) : outcome check_err bool :=
  match addrs with
  | [] => by_action action false
  | a :: addrs =>
      if bool_decide (Masked a ∈ maskedPrefixes) then by_action action true
      else range_loop action maskedPrefixes addrs
  end.

Definition PeerNetworkRangeCheck_Check (c : PeerNetworkRangeCheck) (p : Peer) : outcome check_err bool :=
  if bool_decide (NetworkAddresses p = []) then Err ErrNoAddresses
  else range_loop (range_Action c) (Masked <$> Ranges c) (NetworkAddresses p).

Definition extractPeerActiveProcesses (files : list File) : list string :=
  f_Path <$> filter (λ f, ProcessIsRunning f = true) files.

Definition areAllProcessesRunning (c : ProcessCheck) (active : list string)
    (pathSelector : Process → string) : bool :=
  forallb (λ pr, let path := pathSelector pr in
                 negb (bool_decide (path = "")) && bool_decide (path ∈ active)) (Processes c).

Definition pathSelector (os : string) : option (Process → string) :=
  if bool_decide (os = "linux") then Some LinuxPath
  else if bool_decide (os = "darwin") then Some MacPath
  else if bool_decide (os = "windows") then Some WindowsPath
  else None.

Definition ProcessCheck_Check (c : ProcessCheck) (p : Peer) : outcome check_err bool :=
  match pathSelector (GoOS p) with
  | Some sel => Ret (areAllProcessesRunning c (extractPeerActiveProcesses (Files p)) sel)
  | None => Err (ErrUnsupportedOS (GoOS p))
  end.

Definition Check (c : check) (p : Peer) : outcome check_err bool :=
  match c with
  | NBVersion c => NBVersionCheck_Check c p
  | OSVersionC c => OSVersionCheck_Check c p
  | Geo c => GeoLocationCheck_Check c p
  | NetworkRange c => PeerNetworkRangeCheck_Check c p
  | ProcessC c => ProcessCheck_Check c p
  end.

(** The interface: an error counts as a failure. *)
Definition as_Check (c : check) : AccessPolicy.Check :=
  {| check_Name := Name c; check_Check := λ p, match Check c p with Ret b => b | _ => false end |}.
Definition as_Checks (pc : Checks) : AccessPolicy.Checks :=
  {| c_ID := pc_ID pc; AccessPolicy.GetChecks := as_Check <$> GetChecks pc |}.

(** ** Validation *)
Definition isVersionValid (v : string) : bool := bool_decide (is_Some (NewVersion v)).

(** [^[a-zA-Z]{2}$] *)
Definition is_letter (c : Ascii.ascii) : bool :=
  let n := Ascii.nat_of_ascii c in
  bool_decide (65 ≤ n ≤ 90)%nat || bool_decide (97 ≤ n ≤ 122)%nat.
Definition countryCodeRegex (s : string) : bool :=
  match s with String a (String b EmptyString) => is_letter a && is_letter b | _ => false end.

Definition valid_action (a : string) : bool :=
  bool_decide (a = CheckActionAllow) || bool_decide (a = CheckActionDeny).

Definition NBVersionCheck_Validate (c : NBVersionCheck) : bool :=
  negb (bool_decide (nb_MinVersion c = "")) && isVersionValid (nb_MinVersion c).
Definition OSVersionCheck_Validate (c : OSVersionCheck) : bool :=
  negb (bool_decide (Android c = None ∧ Darwin c = None ∧ Ios c = None ∧ Linux c = None ∧ Windows c = None))
  && from_option (λ m, isVersionValid (MinVersion m)) true (Android c)
  && from_option (λ m, isVersionValid (MinVersion m)) true (Ios c)
  && from_option (λ m, isVersionValid (MinVersion m)) true (Darwin c)
  && from_option (λ m, isVersionValid (MinKernelVersion m)) true (Linux c)
  && from_option (λ m, isVersionValid (MinKernelVersion m)) true (Windows c).
Definition GeoLocationCheck_Validate (g : GeoLocationCheck) : bool :=
  valid_action (geo_Action g) && negb (bool_decide (geo_Locations g = []))
  && forallb (λ l, negb (bool_decide (loc_CountryCode l = "")) && countryCodeRegex (loc_CountryCode l))
             (geo_Locations g).
Definition PeerNetworkRangeCheck_Validate (c : PeerNetworkRangeCheck) : bool :=
  valid_action (range_Action c) && negb (bool_decide (Ranges c = [])).
Definition ProcessCheck_Validate (c : ProcessCheck) : bool :=
  negb (bool_decide (Processes c = []))
  && forallb (λ pr, negb (bool_decide (LinuxPath pr = "" ∧ MacPath pr = "" ∧ WindowsPath pr = "")))
             (Processes c).

Definition Validate_check (c : check) : bool :=
  match c with
  | NBVersion c => NBVersionCheck_Validate c
  | OSVersionC c => OSVersionCheck_Validate c
  | Geo g => GeoLocationCheck_Validate g
  | NetworkRange c => PeerNetworkRangeCheck_Validate c
  | ProcessC c => ProcessCheck_Validate c
  end.

Definition Validate (pc : Checks) : bool :=
  negb (bool_decide (pc_Name pc = "")) && negb (bool_decide (GetChecks pc = []))
  && forallb Validate_check (GetChecks pc).

(** ** What a peer has to satisfy *)
Definition version_ok (minVer peerVer : string) : Prop :=
  ∃ c v, NewConstraint (">= " +:+ minVer) = Some c ∧ NewVersion peerVer = Some v ∧ c v = true.

Definition os_requirement (c : OSVersionCheck) (p : Peer) : Prop :=
  (GoOS p = "android" → ∃ m, Android c = Some m ∧ version_ok (MinVersion m) (OSVersion p))
  ∧ (GoOS p = "darwin" → ∃ m, Darwin c = Some m ∧ version_ok (MinVersion m) (OSVersion p))
  ∧ (GoOS p = "ios" → ∃ m, Ios c = Some m ∧ version_ok (MinVersion m) (OSVersion p))
  ∧ (GoOS p = "linux" → ∃ m, Linux c = Some m ∧ version_ok (MinKernelVersion m) (before_dash (KernelVersion p)))
  ∧ (GoOS p = "windows" → ∃ m, Windows c = Some m ∧ version_ok (MinKernelVersion m) (KernelVersion p)).

Definition under_action (action : string) (listed : Prop) : Prop :=
  action = CheckActionDeny ∧ ¬ listed ∨ action = CheckActionAllow ∧ listed.

Definition located_in (p : Peer) (l : Location) : Prop :=
  loc_CountryCode l = CountryCode p ∧ (loc_CityName l = "" ∨ loc_CityName l = CityName p).

(** The peer has an interface in the range's network: the same network, not a part of it. *)
Definition attached_to (p : Peer) (r : Prefix) : Prop :=
  ∃ a, a ∈ NetworkAddresses p
     ∧ match a, r with Some a, Some r => same_network a r | None, None => True | _, _ => False end.

Definition runs (p : Peer) (path : string) : Prop :=
  path ≠ "" ∧ ∃ f, f ∈ Files p ∧ ProcessIsRunning f = true ∧ f_Path f = path.

Definition requirement (c : check) (p : Peer) : Prop :=
  match c with
  | NBVersion c => version_ok (sanitizeVersion (nb_MinVersion c)) (sanitizeVersion (WtVersion p))
  | OSVersionC c => os_requirement c p
  | Geo g => (CountryCode p ≠ "" ∨ CityName p ≠ "")
             ∧ under_action (geo_Action g) (∃ l, l ∈ geo_Locations g ∧ located_in p l)
  | NetworkRange c => NetworkAddresses p ≠ []
             ∧ under_action (range_Action c) (∃ r, r ∈ Ranges c ∧ attached_to p r)
  | ProcessC c => ∃ sel, pathSelector (GoOS p) = Some sel ∧ ∀ pr, pr ∈ Processes c → runs p (sel pr)
  end.

Lemma at_least_true m v : at_least m v = Ret true ↔ version_ok m v.
Proof.
  unfold at_least, version_ok. destruct (NewVersion v) as [w|]; [|split; [done|by intros (? & ? & ? & ? & ?)]].
  destruct (NewConstraint _) as [c|]; [|split; [done|by intros (? & ? & ? & ? & ?)]].
  split; [intros [= Hc]; by exists c, w|]. by intros (? & ? & [= <-] & [= <-] & ->).
Qed.

Lemma by_action_true a b : by_action a b = Ret true ↔ under_action a (b = true).
Proof.
  assert (CheckActionDeny ≠ CheckActionAllow) by done.
  unfold by_action, under_action. destruct (decide (a = CheckActionDeny)) as [->|Hd].
  - rewrite bool_decide_eq_true_2 by done. destruct b; cbn; split; intuition congruence.
  - rewrite bool_decide_eq_false_2 by done. case_bool_decide; destruct b; split; intuition congruence.
Qed.

Lemma geo_loop_eq a p ls : geo_loop a p ls = by_action a (existsb (location_matches p) ls).
Proof. induction ls as [|l ls IH]; [done|]. simpl. by destruct (location_matches p l). Qed.

Lemma range_loop_eq a ms addrs :
  range_loop a ms addrs = by_action a (existsb (λ x, bool_decide (Masked x ∈ ms)) addrs).
Proof. induction addrs as [|x l IH]; [done|]. simpl. by case_bool_decide. Qed.

#[local] Instance under_action_proper a : Proper (iff ==> iff) (under_action a).
Proof. intros P Q. unfold under_action. tauto. Qed.

Lemma location_matches_spec p l : location_matches p l = true ↔ located_in p l.
Proof.
  unfold location_matches, located_in. rewrite andb_true_iff, orb_true_iff, !bool_decide_eq_true. done.
Qed.

Lemma existsb_elem {A} (f : A → bool) l : existsb f l = true ↔ ∃ x, x ∈ l ∧ f x = true.
Proof. rewrite existsb_exists. by setoid_rewrite list_elem_of_In. Qed.
Lemma forallb_elem {A} (f : A → bool) l : forallb f l = true ↔ ∀ x, x ∈ l → f x = true.
Proof. rewrite forallb_forall. by setoid_rewrite list_elem_of_In. Qed.

Lemma masked_attached p (rs : list Prefix) : (∀ q, Some q ∈ rs → (px_bits q ≤ addr_bits q)%Z) →
  (∃ a, a ∈ NetworkAddresses p ∧ bool_decide (Masked a ∈ Masked <$> rs) = true) ↔ ∃ r, r ∈ rs ∧ attached_to p r.
Proof.
  intros Hwf. unfold attached_to. setoid_rewrite bool_decide_eq_true. setoid_rewrite list_elem_of_fmap.
  split.
  - intros (a & Ha & r & Hr & Hin). exists r. split; [done|]. exists a. split; [done|].
    destruct a as [a|], r as [r|]; try done.
    change (Some (masked a) = Some (masked r)) in Hr. apply (inj Some) in Hr. symmetry in Hr.
    apply masked_same in Hr; [|by apply Hwf]. unfold same_network in *. naive_solver.
  - intros (r & Hin & a & Ha & Hm). exists a. split; [done|]. exists r. split; [|done].
    destruct a as [a|], r as [r|]; try done. cbn. f_equal. symmetry.
    apply masked_same; [by apply Hwf|]. unfold same_network in *. naive_solver.
Qed.

Lemma min_version_true v m : checkMinVersion v m = Ret true ↔ ∃ c, m = Some c ∧ version_ok (MinVersion c) v.
Proof.
  destruct m as [m|]; cbn; [rewrite at_least_true|by split; [|intros (? & ? & ?)]].
  split; [by exists m|by intros (? & [= <-] & ?)].
Qed.
Lemma min_kernel_true v m :
  checkMinKernelVersion v m = Ret true ↔ ∃ c, m = Some c ∧ version_ok (MinKernelVersion c) v.
Proof.
  destruct m as [m|]; cbn; [rewrite at_least_true|by split; [|intros (? & ? & ?)]].
  split; [by exists m|by intros (? & [= <-] & ?)].
Qed.

Lemma os_check_true c p : OSVersionCheck_Check c p = Ret true ↔ os_requirement c p.
Proof.
  unfold OSVersionCheck_Check, os_requirement.
  repeat case_bool_decide; rewrite ?min_version_true, ?min_kernel_true; try (split; [|done]);
    destruct (GoOS p); naive_solver.
Qed.

Definition ranges_wf (c : check) : Prop :=
  match c with
  | NetworkRange c => ∀ q, Some q ∈ Ranges c → (px_bits q ≤ addr_bits q)%Z
  | _ => True
  end.

Lemma check_true c p : ranges_wf c → Check c p = Ret true ↔ requirement c p.
Proof.
  destruct c as [c|c|g|c|c]; cbn; intros Hwf.
  - apply at_least_true.
  - apply os_check_true.
  - unfold GeoLocationCheck_Check. case_bool_decide as Hl; [split; [done|tauto]|].
    rewrite geo_loop_eq, by_action_true, existsb_elem. setoid_rewrite location_matches_spec.
    destruct (decide (CountryCode p = "")); tauto.
  - unfold PeerNetworkRangeCheck_Check. case_bool_decide as Ha; [split; [done|tauto]|].
    rewrite range_loop_eq, by_action_true, existsb_elem, masked_attached by done. tauto.
  - unfold ProcessCheck_Check, areAllProcessesRunning.
    destruct (pathSelector (GoOS p)) as [sel|]; [|split; [done|by intros (? & ? & _)]].
    assert (Hrun : ∀ path, negb (bool_decide (path = ""))
        && bool_decide (path ∈ extractPeerActiveProcesses (Files p)) = true ↔ runs p path).
    { intros path. unfold runs, extractPeerActiveProcesses.
      rewrite andb_true_iff, negb_true_iff, bool_decide_eq_false, bool_decide_eq_true, list_elem_of_fmap.
      setoid_rewrite list_elem_of_filter. naive_solver. }
    split.
    + intros [= H]. exists sel. split; [done|]. intros pr Hpr. apply Hrun.
      exact (proj1 (forallb_elem _ _) H pr Hpr).
    + intros (? & [= <-] & H). f_equal. apply forallb_elem. intros pr Hpr. apply Hrun. auto.
Qed.

(** C29: through the interface that the access rules use, a peer passes a posture check exactly
    when it meets every requirement of it; whatever cannot be evaluated (an unknown location, no
    addresses, an unreadable version, an invalid action, an unsupported operating system) keeps
    the peer out. *)
Theorem posture_admits_iff (pc : Checks) (p : Peer) (Hwf : ∀ c, c ∈ GetChecks pc → ranges_wf c) :
  forallb (λ c, check_Check c p) (AccessPolicy.GetChecks (as_Checks pc)) = true
  ↔ ∀ c, c ∈ GetChecks pc → requirement c p.
Proof.
  rewrite forallb_elem. unfold as_Checks, AccessPolicy.GetChecks. setoid_rewrite list_elem_of_fmap.
  assert (Hi : ∀ c, check_Check (as_Check c) p = true ↔ Check c p = Ret true).
  { intros c. cbn. destruct (Check c p); naive_solver. }
  split.
  - intros H c Hc. apply check_true; [by apply Hwf|]. apply Hi, H. by exists c.
  - intros H ? (c & -> & Hc). apply Hi, check_true; [by apply Hwf|]. by apply H.
Qed.

(** ** Validated definitions *)
Context (constraint_of_version : ∀ v, is_Some (NewVersion v) → is_Some (NewConstraint (">= " +:+ v))).

(** Errors that are the peer's, not the definition's. *)
Definition peer_error (e : check_err) : Prop :=
  match e with ErrConstraint | ErrInvalidAction _ => False | _ => True end.

Lemma at_least_err m v e : is_Some (NewVersion m) → at_least m v = Err e → peer_error e.
Proof.
  intros [c Hc]%constraint_of_version. unfold at_least. rewrite Hc. destruct (NewVersion v); [done|]. by intros [= <-].
Qed.

Lemma by_action_ret a b e : valid_action a = true → by_action a b ≠ Err e.
Proof. unfold valid_action, by_action. repeat case_bool_decide; done. Qed.

Lemma min_version_err m v e : from_option (λ m, isVersionValid (MinVersion m)) true m = true →
  checkMinVersion v m = Err e → peer_error e.
Proof. destruct m as [m|]; [|done]. cbn. intros H%bool_decide_eq_true. by apply at_least_err. Qed.
Lemma min_kernel_err m v e : from_option (λ m, isVersionValid (MinKernelVersion m)) true m = true →
  checkMinKernelVersion v m = Err e → peer_error e.
Proof. destruct m as [m|]; [|done]. cbn. intros H%bool_decide_eq_true. by apply at_least_err. Qed.

(** C30: a definition that passed validation can be evaluated on every peer: the only errors
    are about the peer (an unreadable version, no location, no addresses, an unsupported
    system), never about the definition; the client version check is the exception when
    cutting its minimum at the first dash leaves no version. *)
Theorem validated_checks_evaluate (pc : Checks) c p e (Hv : Validate pc = true)
    (Hc : c ∈ GetChecks pc) (He : Check c p = Err e) :
  peer_error e ∨ ∃ n, c = NBVersion n ∧ NewVersion (sanitizeVersion (nb_MinVersion n)) = None.
Proof.
  unfold Validate in Hv. apply andb_true_iff in Hv as [_ Hv].
  pose proof (proj1 (forallb_elem _ _) Hv c Hc) as Hval. clear Hv Hc.
  destruct c as [c|c|g|c|c]; cbn in *.
  - destruct (NewVersion (sanitizeVersion (nb_MinVersion c))) eqn:Hn; [|right; by exists c].
    left. by eapply at_least_err.
  - left. unfold OSVersionCheck_Validate in Hval. rewrite !andb_true_iff in Hval. destruct Hval as [[[[[_ Ha] Hi] Hd] Hl] Hw].
    revert He. unfold OSVersionCheck_Check. repeat case_bool_decide; try done;
      eauto using min_version_err, min_kernel_err.
  - left. unfold GeoLocationCheck_Validate in Hval. rewrite !andb_true_iff in Hval. destruct Hval as [[Ha _] _]. revert He. unfold GeoLocationCheck_Check.
    case_bool_decide; [by intros [= <-]|]. rewrite geo_loop_eq. intros He. by apply by_action_ret in He.
  - left. apply andb_true_iff in Hval as [Ha _]. revert He. unfold PeerNetworkRangeCheck_Check.
    case_bool_decide; [by intros [= <-]|]. rewrite range_loop_eq. intros He. by apply by_action_ret in He.
  - left. revert He. unfold ProcessCheck_Check. destruct (pathSelector _); [done|]. by intros [= <-].
Qed.
End evaluation.

(** ** A check of a small account *)
(** A version library whose versions are strings compared for equality with the constraint's. *)
Definition exact_version (v : string) : option string := if bool_decide (v = "") then None else Some v.
Definition exact_constraint (c : string) : option (string → bool) := Some (λ v, bool_decide (">= " +:+ v = c)).
Definition office : prefix := {| px_v6 := false; px_addr := 3232235776; px_bits := 24 |}.   (* 192.168.1.0/24 *)
Definition demo_checks : Checks := {|
  pc_ID := "pc1"; pc_Name := "office"; pc_Description := ""; pc_AccountID := "acc";
  pc_Checks := {| cd_NBVersionCheck := Some {| nb_MinVersion := "0.61.0-dev" |}; cd_OSVersionCheck := None;
                  cd_GeoLocationCheck := Some {| geo_Action := "allow";
                    geo_Locations := [{| loc_CountryCode := "DE"; loc_CityName := "" |}] |};
                  cd_PeerNetworkRangeCheck := Some {| range_Action := "deny"; Ranges := [Some office] |};
                  cd_ProcessCheck := None |} |}.

(** A laptop at home, 10.0.0.5/8. *)
Definition home_laptop : Peer := {|
  ID := "home"; IP := 0; WtVersion := "0.61.0"; SSHEnabled := false; ServerSSHAllowed := false;
  Embedded := false; GoOS := "linux"; OSVersion := ""; KernelVersion := "5.15.0-97"; Files := [];
  NetworkAddresses := [Some {| px_v6 := false; px_addr := 167772165; px_bits := 8 |}];
  CountryCode := "DE"; CityName := "Berlin" |}.

Lemma posture_admits_iff_witness :
  Forall (λ c, requirement exact_version exact_constraint c home_laptop) (GetChecks demo_checks).
Proof.
  apply Forall_forall.
  assert (Hwf : ∀ c, c ∈ GetChecks demo_checks → ranges_wf c).
  { intros c Hc. repeat (apply elem_of_cons in Hc as [->|Hc]; [try exact I|]); [|by apply not_elem_of_nil in Hc].
    cbn. intros q [= ->]%list_elem_of_singleton. by vm_compute. }
  exact (proj1 (posture_admits_iff exact_version exact_constraint demo_checks home_laptop Hwf) eq_refl).
Defined.

(** [alice] reports no network addresses. *)
Lemma validated_checks_evaluate_witness : peer_error ErrNoAddresses.
Proof.
  destruct (validated_checks_evaluate exact_version exact_constraint
    ltac:(intros v _; by eexists) demo_checks
    (NetworkRange {| range_Action := "deny"; Ranges := [Some office] |}) alice ErrNoAddresses
    ltac:(vm_compute; reflexivity) ltac:(right; right; left) ltac:(vm_compute; reflexivity)) as [H|(n & Hn & _)].
  - exact H.
  - discriminate Hn.
Defined.
