(* ===== verification/AccountObjects.v ===== *)
(** Data of an account's configuration: routes ([src/route/route.go]), name server groups
    ([src/dns/nameserver.go]), DNS settings, network routers and network resources. *)
From S2P Require Import Prelude GoText NetIP.
Open Scope Z_scope.

(** ** Routes *)
Inductive NetworkType := InvalidNetwork | IPv4Network | IPv6Network | DomainNetwork.
#[export] Instance NetworkType_eq_dec : EqDecision NetworkType.
Proof. solve_decision. Defined.

Definition MinMetric : Z := 1.
Definition MaxMetric : Z := 9999.
Definition MaxNetIDChar : nat := 40.

Record Route := {
  rt_ID : string;
  rt_AccountID : string;
  rt_Network : Prefix;
  rt_Domains : list bytes;
  rt_KeepRoute : bool;
  rt_NetID : string;
  rt_Description : string;
  rt_Peer : string;
  rt_PeerID : string;
  rt_PeerGroups : list string;
  rt_NetworkType : NetworkType;
  rt_Masquerade : bool;
  rt_Metric : Z;
  rt_Enabled : bool;
  rt_Groups : list string;
  rt_AccessControlGroups : list string;
  rt_SkipAutoApply : bool;
}.

Definition IsDynamic (r : Route) : bool := bool_decide (rt_NetworkType r = DomainNetwork).

(** ** Name servers *)
Definition MaxGroupNameChar : nat := 40.

Record NameServer := { srv_IP : bool * Z; srv_NSType : Z; srv_Port : Z }.

Record NameServerGroup := {
  ns_ID : string;
  ns_AccountID : string;
  ns_Name : string;
  ns_Description : string;
  ns_NameServers : list NameServer;
  ns_Groups : list string;
  ns_Primary : bool;
  ns_Domains : list bytes;
  ns_Enabled : bool;
  ns_SearchDomainsEnabled : bool;
}.

Record DNSSettings := { DisabledManagementGroups : list string }.

(** ** Networks and their routers *)
Record NetworkObject := { net_ID : string; net_AccountID : string; net_Name : string }.

Record NetworkRouter := {
  ro_ID : string;
  ro_NetworkID : string;
  ro_AccountID : string;
  ro_Peer : string;
  ro_PeerGroups : list string;
  ro_Masquerade : bool;
  ro_Metric : Z;
  ro_Enabled : bool;
}.

Definition Validate (n : NetworkRouter) : bool :=
  negb (bool_decide (ro_Peer n ≠ "" ∧ ro_PeerGroups n ≠ []))
  && negb (bool_decide (ro_Peer n = "" ∧ ro_PeerGroups n = [])).

(** ** Network resources *)
Inductive NetworkResourceType := Host | Subnet | Domain.
#[export] Instance NetworkResourceType_eq_dec : EqDecision NetworkResourceType.
Proof. solve_decision. Defined.

Record NetworkResource := {
  nr_ID : string;
  nr_NetworkID : string;
  nr_AccountID : string;
  nr_Name : string;
  nr_Description : string;
  nr_Type : NetworkResourceType;
  nr_Address : string;
  nr_GroupIDs : list string;
  nr_Domain : bytes;
  nr_Prefix : Prefix;
  nr_Enabled : bool;
}.
