(* ===== verification/MapComponents.v ===== *)
(** The component-based computation of a peer's network map:
    [src/management/server/types/account_components.go] and [networkmap_components.go].

    [GetPeerNetworkMapComponents] collects the part of the account one peer's map depends on;
    [getPeerConnectionResources] then evaluates the policies on that part alone.  The theorem at
    the end shows that the result is the one [AccessPolicy] computes on the whole account.
    Pointers stored in the collected maps may be nil ([option]); dereferencing a nil
    pointer, or indexing the rules of a policy without rules, panics. *)
From S2P Require Import Prelude GoText AccessPolicy AccountObjects.
Open Scope Z_scope.

(** *** Data *)
Record NetworkMapComponents := {
  c_PeerID : string;
  c_Peers : gmap string (option Peer);
  c_Groups : gmap string Group;
  c_Policies : list Policy;
  c_GroupIDToUserIDs : gmap string (list string);
  c_AllowedUserIDs : option (gset string);
  c_PostureFailedPeers : gmap string (gset string);
  c_Routes : list Route;
  c_ResourcePoliciesMap : gmap string (list Policy);
  c_RoutersMap : gmap string (gmap string NetworkRouter);
  c_NetworkResources : list NetworkResource;
  c_RouterPeers : gmap string Peer;
}.

(** *** Evaluation on the components *)
Definition GetPeerInfo (c : NetworkMapComponents) (p : string) : option Peer := mjoin (c_Peers c !! p).
Definition GetGroupInfo (c : NetworkMapComponents) (i : string) : option Group := c_Groups c !! i.

Definition ValidatePostureChecksOnPeer (c : NetworkMapComponents) (p : string) (checkIDs : list string) : bool :=
  match c_Peers c !! p with
  | None => false
  | Some _ =>
      forallb (λ i, match c_PostureFailedPeers c !! i with
                    | Some failed => bool_decide (p ∉ failed)
                    | None => true
                    end) checkIDs
  end.

Fixpoint c_unique_loop (c : NetworkMapComponents) (single : bool) (groups : list string) (acc : gset string)
    : list string :=
  match groups with
  | [] => elements acc
  | i :: groups =>
      match GetGroupInfo c i with
      | None => c_unique_loop c single groups acc
      | Some g =>
          if IsGroupAll g || single then g_Peers g
          else c_unique_loop c single groups (acc ∪ list_to_set (g_Peers g))
      end
  end.

Definition c_getUniquePeerIDsFromGroupsIDs (c : NetworkMapComponents) (groups : list string) : list string :=
  c_unique_loop c (bool_decide (length groups = 1%nat)) groups ∅.

Definition c_getAllPeersFromGroups (c : NetworkMapComponents) (groups : list string) (peerID : string)
    (checkIDs : list string) : list Peer * bool :=
  let ids := filter (λ p, is_Some (GetPeerInfo c p) ∧ ValidatePostureChecksOnPeer c p checkIDs = true)
               (c_getUniquePeerIDsFromGroupsIDs c groups) in
  (omap (GetPeerInfo c) (filter (λ p, p ≠ peerID) ids), bool_decide (peerID ∈ ids)).

Definition c_getPeerFromResource (c : NetworkMapComponents) (r : Resource) (peerID : string) : list Peer * bool :=
  if bool_decide (res_ID r = peerID) then ([], true)
  else match GetPeerInfo c (res_ID r) with
       | None => ([], false)
       | Some peer => ([peer], false)
       end.

Definition c_lookups (c : NetworkMapComponents) : lookups := {|
  lk_sources pol rule :=
    if is_peer_resource (r_SourceResource rule) then c_getPeerFromResource c (r_SourceResource rule) (c_PeerID c)
    else c_getAllPeersFromGroups c (r_Sources rule) (c_PeerID c) (pol_SourcePostureChecks pol);
  lk_destinations rule :=
    if is_peer_resource (r_DestinationResource rule)
    then c_getPeerFromResource c (r_DestinationResource rule) (c_PeerID c)
    else c_getAllPeersFromGroups c (r_Destinations rule) (c_PeerID c) [];
  lk_allowed := default ∅ (c_AllowedUserIDs c);
  lk_users := c_GroupIDToUserIDs c;
|}.

Definition getPeerConnectionResources (version_at_least : string → string → outcome unit bool)
    (c : NetworkMapComponents) : result :=
  match GetPeerInfo c (c_PeerID c) with
  | None => no_result
  | Some targetPeer => connection_loop version_at_least (c_lookups c) targetPeer (c_Policies c)
  end.

(** *** Collecting the components *)
Record collected := {
  k_Peers : gmap string (option Peer);
  k_Groups : gmap string (option Group);
  k_failed : gmap string (gset string);        (* *postureFailedPeers *)
  k_Policies : list Policy;
  k_neededGroupIDs : gset string;
  k_needAllowedUserIDs : bool;
}.

(** Going through the peers of a group: the accepted ids, whether the target was met, and the
    failures. *)
Abbreviation visited := (list string * bool * gmap string (gset string))%type.

Section collect.
Context (a : Account) (routes : list Route) (v : gset string).

Definition add_peers (ids : list string) (st : collected) : collected :=
  {| k_Peers := foldl (λ m i, <[i := GetPeer a i]> m) (k_Peers st) ids;
     k_Groups := k_Groups st; k_failed := k_failed st; k_Policies := k_Policies st;
     k_neededGroupIDs := k_neededGroupIDs st; k_needAllowedUserIDs := k_needAllowedUserIDs st |}.

Definition add_groups (ids : list string) (st : collected) : collected :=
  {| k_Peers := k_Peers st; k_Groups := foldl (λ m i, <[i := GetGroup a i]> m) (k_Groups st) ids;
     k_failed := k_failed st; k_Policies := k_Policies st;
     k_neededGroupIDs := k_neededGroupIDs st; k_needAllowedUserIDs := k_needAllowedUserIDs st |}.

Definition set_failed (f : gmap string (gset string)) (st : collected) : collected :=
  {| k_Peers := k_Peers st; k_Groups := k_Groups st; k_failed := f; k_Policies := k_Policies st;
     k_neededGroupIDs := k_neededGroupIDs st; k_needAllowedUserIDs := k_needAllowedUserIDs st |}.

Definition need_ssh (groups : gset string) (allowed : bool) (st : collected) : collected :=
  {| k_Peers := k_Peers st; k_Groups := k_Groups st; k_failed := k_failed st; k_Policies := k_Policies st;
     k_neededGroupIDs := k_neededGroupIDs st ∪ groups;
     k_needAllowedUserIDs := k_needAllowedUserIDs st || allowed |}.

Definition add_policy (pol : Policy) (st : collected) : collected :=
  {| k_Peers := k_Peers st; k_Groups := k_Groups st; k_failed := k_failed st;
     k_Policies := k_Policies st ++ [pol];
     k_neededGroupIDs := k_neededGroupIDs st; k_needAllowedUserIDs := k_needAllowedUserIDs st |}.

(** The first posture check the peer fails. *)
Fixpoint first_failed (checkIDs : list string) (peer : Peer) : option string :=
  match checkIDs with
  | [] => None
  | i :: checkIDs =>
      match GetPostureChecks a i with
      | None => first_failed checkIDs peer
      | Some cs => if forallb (λ c, check_Check c peer) (GetChecks cs) then first_failed checkIDs peer else Some i
      end
  end.

Definition validatePostureChecksOnPeerGetFailed (checkIDs : list string) (peerID : string) : bool * string :=
  match Peers a !! peerID with
  | None => (false, "")
  | Some peer => match first_failed checkIDs peer with Some i => (false, i) | None => (true, "") end
  end.

Definition record_failed (pname peerID : string) (f : gmap string (gset string)) : gmap string (gset string) :=
  <[pname := default ∅ (f !! pname) ∪ {[ peerID ]}]> f.

Definition visit (checkIDs : list string) (peerID : string) (st : visited) (pid : string) : visited :=
  let '(ids, inG, f) := st in
  match Peers a !! pid with
  | None => st
  | Some peer =>
      if bool_decide (ID peer ∉ v) then st
      else
        let '(isValid, pname) := validatePostureChecksOnPeerGetFailed checkIDs (ID peer) in
        if negb isValid && bool_decide (pname ≠ "") then (ids, inG, record_failed pname (ID peer) f)
        else if bool_decide (ID peer = peerID) then (ids, true, f)
        else (ids ++ [ID peer], inG, f)
  end.

Definition visit_new (checkIDs : list string) (peerID : string) (st : visited * gset string) (pid : string)
    : visited * gset string :=
  if bool_decide (pid ∈ st.2) then st else (visit checkIDs peerID st.1 pid, {[ pid ]} ∪ st.2).

Fixpoint pfg_loop (checkIDs : list string) (peerID : string) (single : bool) (groups : list string)
    (st : visited) (seen : gset string) : visited :=
  match groups with
  | [] => st
  | gid :: groups =>
      match GetGroup a gid with
      | None => pfg_loop checkIDs peerID single groups st seen
      | Some g =>
          if IsGroupAll g || single then foldl (visit checkIDs peerID) ([], false, st.2) (g_Peers g)
          else
            let '(st, seen) := foldl (visit_new checkIDs peerID) (st, seen) (g_Peers g) in
            pfg_loop checkIDs peerID single groups st seen
      end
  end.

Definition getPeersFromGroups (groups : list string) (peerID : string) (checkIDs : list string)
    (f : gmap string (gset string)) : visited :=
  pfg_loop checkIDs peerID (bool_decide (length groups = 1%nat)) groups ([], false, f) ∅.

(** The two sides of a rule: ids of the other peers, and whether the target is among them. *)
Definition k_sources (peerID : string) (pol : Policy) (rule : PolicyRule) (f : gmap string (gset string)) : visited :=
  if is_peer_resource (r_SourceResource rule)
  then ([res_ID (r_SourceResource rule)], bool_decide (res_ID (r_SourceResource rule) = peerID), f)
  else getPeersFromGroups (r_Sources rule) peerID (pol_SourcePostureChecks pol) f.

Definition k_destinations (peerID : string) (rule : PolicyRule) (f : gmap string (gset string)) : visited :=
  if is_peer_resource (r_DestinationResource rule)
  then ([res_ID (r_DestinationResource rule)], bool_decide (res_ID (r_DestinationResource rule) = peerID), f)
  else getPeersFromGroups (r_Destinations rule) peerID [] f.

Definition ssh_needs (peerSSHEnabled : bool) (rule : PolicyRule) (st : collected) : collected :=
  if bool_decide (r_Protocol rule = PolicyRuleProtocolNetbirdSSH) then
    if bool_decide (r_AuthorizedGroups rule ≠ ∅) then need_ssh (dom (r_AuthorizedGroups rule)) false st
    else if bool_decide (r_AuthorizedUser rule ≠ "") then st
    else need_ssh ∅ true st
  else if policyRuleImpliesLegacySSH rule && peerSSHEnabled then need_ssh ∅ true st
  else st.

(** One rule; the boolean is [policyRelevant]. *)
Definition collect_rule (peerID : string) (peerSSHEnabled : bool) (racGroups : gset string) (pol : Policy)
    (s : collected * bool) (rule : PolicyRule) : collected * bool :=
  let '(st, relevant) := s in
  if negb (r_Enabled rule) then s
  else
    let hit := existsb (λ d, bool_decide (d ∈ racGroups)) (r_Destinations rule) in
    let st := if hit then add_groups (r_Destinations rule) (add_groups (r_Sources rule) st) else st in
    let '(sourcePeers, peerInSources, f) := k_sources peerID pol rule (k_failed st) in
    let '(destinationPeers, peerInDestinations, f) := k_destinations peerID rule f in
    let st := set_failed f st in
    let st := if peerInSources then add_groups (r_Destinations rule) (add_peers destinationPeers st) else st in
    let st := if peerInDestinations
              then ssh_needs peerSSHEnabled rule (add_groups (r_Sources rule) (add_peers sourcePeers st)) else st in
    (st, relevant || hit || peerInSources || peerInDestinations).

Definition collect_policy (peerID : string) (peerSSHEnabled : bool) (racGroups : gset string)
    (st : collected) (pol : Policy) : collected :=
  if negb (pol_Enabled pol) then st
  else
    let '(st, relevant) := foldl (collect_rule peerID peerSSHEnabled racGroups pol) (st, false) (pol_Rules pol) in
    if relevant then add_policy pol st else st.

Definition collect_route (st : collected) (r : Route) : collected :=
  let st := add_groups (rt_PeerGroups r) (add_groups (rt_Groups r) st) in
  if rt_Enabled r then add_groups (rt_AccessControlGroups r) st else st.

Definition routeAccessControlGroups : gset string :=
  list_to_set (mjoin (rt_AccessControlGroups <$> filter (λ r, rt_Enabled r = true) routes)).

Definition collect_start (peerID : string) : collected := {|
  k_Peers := {[ peerID := GetPeer a peerID ]};
  k_Groups := Some <$> filter (λ ig, peerID ∈ g_Peers ig.2) (Groups a);
  k_failed := ∅; k_Policies := []; k_neededGroupIDs := ∅; k_needAllowedUserIDs := false |}.

Definition getPeersGroupsPoliciesRoutes (peerID : string) (peerSSHEnabled : bool) : collected :=
  foldl (collect_policy peerID peerSSHEnabled routeAccessControlGroups)
    (foldl collect_route (collect_start peerID) routes) (Policies a).

(** *** Network resources *)
Definition SourceGroups (pol : Policy) : list string :=
  match pol_Rules pol with
  | [rule] => r_Sources rule
  | rs => elements (list_to_set (mjoin (r_Sources <$> rs)) : gset string)
  end.

(** [policy.Rules[0].SourceResource], when it names a peer. *)
Definition first_source (pol : Policy) : outcome unit (option string) :=
  match pol_Rules pol with
  | [] => Panic
  | rule :: _ => Ret (if is_peer_resource (r_SourceResource rule) then Some (res_ID (r_SourceResource rule)) else None)
  end.

Definition save_failed (checkIDs : list string) (st : list string * gmap string (gset string)) (p : string)
    : list string * gmap string (gset string) :=
  if bool_decide (p ∉ v) then st
  else match validatePostureChecksOnPeerGetFailed checkIDs p with
       | (true, _) => (st.1 ++ [p], st.2)
       | (false, pname) => (st.1, record_failed pname p st.2)
       end.

Definition getPostureValidPeersSaveFailed (inputPeers checkIDs : list string) (f : gmap string (gset string))
    : list string * gmap string (gset string) :=
  foldl (save_failed checkIDs) ([], f) inputPeers.

Definition add_missing_peers (ids : list string) (st : collected) : collected :=
  {| k_Peers := foldl (λ m i, match m !! i with Some _ => m | None => <[i := GetPeer a i]> m end) (k_Peers st) ids;
     k_Groups := k_Groups st; k_failed := k_failed st; k_Policies := k_Policies st;
     k_neededGroupIDs := k_neededGroupIDs st; k_needAllowedUserIDs := k_needAllowedUserIDs st |}.

(** A group that exists and is not there yet. *)
Definition add_missing_group (m : gmap string (option Group)) (i : string) : gmap string (option Group) :=
  match GetGroup a i with
  | Some g => match m !! i with Some _ => m | None => <[i := Some g]> m end
  | None => m
  end.

Definition add_missing_groups (ids : list string) (st : collected) : collected :=
  {| k_Peers := k_Peers st;
     k_Groups := foldl add_missing_group (k_Groups st) ids;
     k_failed := k_failed st; k_Policies := k_Policies st;
     k_neededGroupIDs := k_neededGroupIDs st; k_needAllowedUserIDs := k_needAllowedUserIDs st |}.

(** One policy of a resource; the booleans are [addSourcePeers] and whether
    [ResourcePoliciesMap] gets the resource. *)
Abbreviation res_state := (collected * bool * bool)%type.

Definition resource_policy (peerID : string) (s : res_state) (pol : Policy) : outcome unit res_state :=
  let '(st, addSourcePeers, listed) := s in
  src ← first_source pol;
  let groups := mjoin ((λ rule, r_Sources rule ++ r_Destinations rule) <$> pol_Rules pol) in
  if addSourcePeers : bool then
    let peers := match src with Some i => [i] | None => getUniquePeerIDsFromGroupsIDs a (SourceGroups pol) end in
    let '(valid, f) := getPostureValidPeersSaveFailed peers (pol_SourcePostureChecks pol) (k_failed st) in
    Ret (add_missing_groups groups (add_missing_peers valid (set_failed f st)), true, true)
  else
    let peerInSources :=
      match src with
      | Some i => bool_decide (i = peerID)
      | None => existsb (λ i, match GetGroup a i with Some g => bool_decide (peerID ∈ g_Peers g) | None => false end)
                  (SourceGroups pol)
      end in
    if negb peerInSources then Ret s
    else
      let '(isValid, pname) := validatePostureChecksOnPeerGetFailed (pol_SourcePostureChecks pol) peerID in
      if negb isValid && bool_decide (pname ≠ "")
      then Ret (set_failed (record_failed pname peerID (k_failed st)) st, false, listed)
      else Ret (add_missing_groups groups st, true, true).

Fixpoint resource_policies_loop (peerID : string) (s : res_state) (pols : list Policy) : outcome unit res_state :=
  match pols with
  | [] => Ret s
  | pol :: pols => s ← resource_policy peerID s pol; resource_policies_loop peerID s pols
  end.

Context (resources : list NetworkResource) (resourcePolicies : gmap string (list Policy))
  (routers : gmap string (gmap string NetworkRouter)).

(** The collected data, [ResourcePoliciesMap] and [NetworkResources] after one resource. *)
Abbreviation resources_state := (collected * gmap string (list Policy) * list NetworkResource)%type.
Definition collect_resource (peerID : string) (s : resources_state) (r : NetworkResource) : outcome unit resources_state :=
  let '(st, rpm, nrs) := s in
  if negb (nr_Enabled r) then Ret s
  else match resourcePolicies !! nr_ID r with
       | None => Ret s
       | Some policies =>
           let routing : gset string := dom (default ∅ (routers !! nr_NetworkID r)) in
           '(st, addSourcePeers, listed) ← resource_policies_loop peerID (st, bool_decide (peerID ∈ routing), false) policies;
           let routing_peers := filter (λ p, is_Some (Peers a !! p) ∧ p ∈ v) (elements routing) in
           Ret (add_missing_peers routing_peers st, if listed : bool then <[nr_ID r := policies]> rpm else rpm,
                if addSourcePeers : bool then nrs ++ [r] else nrs)
       end.

Fixpoint collect_resources (peerID : string) (s : resources_state) (rs : list NetworkResource) : outcome unit resources_state :=
  match rs with
  | [] => Ret s
  | r :: rs => s ← collect_resource peerID s r; collect_resources peerID s rs
  end.

(** [RoutersMap] and [RouterPeers]: what the loop over the resources puts there does not depend on
    the rest of the collection. *)
Definition has_policies (r : NetworkResource) : bool := nr_Enabled r && bool_decide (is_Some (resourcePolicies !! nr_ID r)).
Definition collect_routers : gmap string (gmap string NetworkRouter) :=
  foldl (λ m r, if has_policies r then <[nr_NetworkID r := default ∅ (routers !! nr_NetworkID r)]> m else m) ∅ resources.
Definition add_router_peer (m : gmap string Peer) (p : string) : gmap string Peer :=
  match Peers a !! p with Some x => match m !! p with Some _ => m | None => <[p := x]> m end | None => m end.
Definition collect_router_peers : gmap string Peer :=
  foldl (λ m r, if has_policies r then foldl add_router_peer m (elements (dom (default ∅ (routers !! nr_NetworkID r)) : gset string)) else m) ∅ resources.

(** *** Filtering *)
Definition filter_group (peers : gmap string (option Peer)) (g : Group) : option Group :=
  let filteredPeers := filter (λ p, is_Some (peers !! p)) (g_Peers g) in
  if bool_decide (filteredPeers = []) then None
  else Some (with_Peers filteredPeers g).

(** A nil group is dereferenced. *)
Definition filterGroupPeers (groups : gmap string (option Group)) (peers : gmap string (option Peer))
    : outcome unit (gmap string Group) :=
  if bool_decide (map_Forall (λ _ o, is_Some o) groups)
  then Ret (omap (λ o, o ≫= filter_group peers) groups) else Panic.

Definition filterPostureFailedPeers (f : gmap string (gset string)) (policies : list Policy)
    (rpm : gmap string (list Policy)) (peers : gmap string (option Peer)) : gmap string (gset string) :=
  let referenced : gset string :=
    list_to_set (mjoin (pol_SourcePostureChecks <$> policies ++ mjoin (map_to_list rpm).*2)) in
  let keep (failed : gset string) : gset string := filter (λ p, is_Some (peers !! p)) failed in
  omap (λ failed, if bool_decide (keep failed = ∅) then None else Some (keep failed))
    (filter (λ ip, ip.1 ∈ referenced) f).

Definition filterGroupIDToUserIDs (fullMap : gmap string (list string)) (needed : gset string)
    : gmap string (list string) :=
  filter (λ ip, ip.1 ∈ needed) fullMap.

Definition GetPeerNetworkMapComponents (peerID : string) (groupIDToUserIDs : gmap string (list string))
    : outcome unit (option NetworkMapComponents) :=
  match Peers a !! peerID with
  | None => Ret None
  | Some peer =>
      if bool_decide (peerID ∉ v) then Ret None
      else
        '(st, rpm, nrs) ← collect_resources peerID
            (getPeersGroupsPoliciesRoutes peerID (SSHEnabled peer), ∅, []) resources;
        groups ← filterGroupPeers (k_Groups st) (k_Peers st);
        Ret (Some {| c_PeerID := peerID;
                     c_Peers := k_Peers st;
                     c_Groups := groups;
                     c_Policies := k_Policies st;
                     c_GroupIDToUserIDs := filterGroupIDToUserIDs groupIDToUserIDs (k_neededGroupIDs st);
                     c_AllowedUserIDs := if k_needAllowedUserIDs st then Some (getAllowedUserIDs a) else None;
                     c_PostureFailedPeers := filterPostureFailedPeers (k_failed st) (k_Policies st) rpm (k_Peers st);
                     c_Routes := routes; c_ResourcePoliciesMap := rpm; c_RoutersMap := collect_routers;
                     c_NetworkResources := nrs; c_RouterPeers := collect_router_peers |})
  end.
End collect.

(** ** Collected maps *)
Lemma foldl_insert_lookup {A} (g : string → A) ids (m : gmap string A) k :
  foldl (λ m i, <[i := g i]> m) m ids !! k = if decide (k ∈ ids) then Some (g k) else m !! k.
Proof.
  revert m. induction ids as [|i ids IH]; intros m; simpl; [done|]. rewrite IH.
  destruct (decide (k ∈ ids)) as [|Hn]; [by rewrite decide_True by set_solver|].
  destruct (decide (k = i)) as [->|Hne].
  - rewrite decide_True by set_solver. apply lookup_insert_eq.
  - rewrite decide_False by set_solver. by apply lookup_insert_ne.
Qed.

Lemma foldl_missing_lookup {A} (g : string → A) ids (m : gmap string A) k :
  foldl (λ m i, match m !! i with Some _ => m | None => <[i := g i]> m end) m ids !! k
  = match m !! k with Some x => Some x | None => if decide (k ∈ ids) then Some (g k) else None end.
Proof.
  revert m. induction ids as [|i ids IH]; intros m; simpl; [by destruct (m !! k)|]. rewrite IH. clear IH.
  destruct (m !! i) as [y|] eqn:Ei.
  - destruct (m !! k) eqn:Ek; [done|]. assert (k ≠ i) by congruence.
    destruct (decide (k ∈ ids)); [rewrite decide_True by set_solver|rewrite decide_False by set_solver]; done.
  - destruct (decide (k = i)) as [->|Hne].
    + rewrite lookup_insert_eq, Ei, decide_True by set_solver. done.
    + rewrite lookup_insert_ne by done. destruct (m !! k); [done|].
      destruct (decide (k ∈ ids)); [rewrite decide_True by set_solver|rewrite decide_False by set_solver]; done.
Qed.

Lemma foldl_missing_groups_lookup a ids (m : gmap string (option Group)) k :
  foldl (add_missing_group a) m ids !! k
  = match m !! k with
    | Some x => Some x
    | None => if decide (k ∈ ids) then option_map Some (GetGroup a k) else None
    end.
Proof.
  revert m. induction ids as [|i ids IH]; intros m; cbn [foldl]; [by destruct (m !! k)|]. rewrite IH. clear IH.
  unfold add_missing_group. destruct (decide (k = i)) as [->|Hne].
  - rewrite (decide_True (P := i ∈ i :: ids)) by set_solver.
    destruct (GetGroup a i) as [g|] eqn:Eg; [|by destruct (m !! i), (decide (i ∈ ids))].
    destruct (m !! i) eqn:Em; [by rewrite Em|by rewrite lookup_insert_eq].
  - replace (if decide (k ∈ i :: ids) then option_map Some (GetGroup a k) else None)
      with (if decide (k ∈ ids) then option_map Some (GetGroup a k) else None).
    2:{ destruct (decide (k ∈ ids)); [rewrite decide_True by set_solver|rewrite decide_False by set_solver]; done. }
    destruct (GetGroup a i); [|done]. destruct (m !! i); [done|]. by rewrite lookup_insert_ne.
Qed.

(** ** What [getPeersFromGroups] finds *)
Definition in_failed (f : gmap string (gset string)) (i p : string) : Prop := ∃ s, f !! i = Some s ∧ p ∈ s.

Lemma record_failed_spec n p f i q :
  in_failed (record_failed n p f) i q ↔ in_failed f i q ∨ i = n ∧ q = p.
Proof.
  unfold in_failed, record_failed. destruct (decide (i = n)) as [->|Hn].
  - rewrite lookup_insert_eq. split.
    + intros (s & [= <-] & [Hs|Hs%elem_of_singleton]%elem_of_union); [left|by right].
      destruct (f !! n); [by eauto|set_solver].
    + intros H. eexists. split; [done|]. destruct H as [(s & -> & ?)|[_ ->]]; set_solver.
  - rewrite lookup_insert_ne by done. naive_solver.
Qed.

Section facts.
Context (a : Account) (v : gset string).
Context (Hwf : map_Forall (λ k p, ID p = k) (Peers a)).
Context (Hemb : map_Forall (λ _ p, Embedded p = false) (Peers a)).
Context (Hnames : ∀ c, c ∈ PostureChecks a → c_ID c ≠ "").

(** The peer fails the posture checks with identifier [i]. *)
Definition fails (q : Peer) (i : string) : Prop :=
  ∃ cs, GetPostureChecks a i = Some cs ∧ forallb (λ c, check_Check c q) (GetChecks cs) = false.

Lemma first_failed_Some checks q i : first_failed a checks q = Some i → i ∈ checks ∧ fails q i ∧ i ≠ "".
Proof.
  induction checks as [|j checks IH]; [done|]. simpl. destruct (GetPostureChecks a j) as [cs|] eqn:E.
  - destruct (forallb _ _) eqn:Ef; [intros ?%IH; set_solver|]. intros [= <-].
    split_and!; [set_solver|by exists cs|]. unfold GetPostureChecks in E.
    destruct (list_find _ _) as [[k c]|] eqn:El; [|done]. simpl in E. simplify_eq.
    apply list_find_Some in El as (Hk & <- & _). apply Hnames. by eapply list_elem_of_lookup_2.
  - intros ?%IH. set_solver.
Qed.

Lemma first_failed_None checks p q : Peers a !! p = Some q →
  first_failed a checks q = None ↔ validatePostureChecksOnPeer a checks p = true.
Proof.
  intros Hp. unfold validatePostureChecksOnPeer. rewrite Hp.
  induction checks as [|j checks IH]; [done|]. simpl. destruct (GetPostureChecks a j) as [cs|]; [|done].
  destruct (forallb (λ c, check_Check c q) (GetChecks cs)); [done|]. by split.
Qed.

Lemma fails_invalid checks p q i : Peers a !! p = Some q → i ∈ checks → fails q i →
  validatePostureChecksOnPeer a checks p = false.
Proof.
  intros Hp Hi (cs & Hcs & Hf). unfold validatePostureChecksOnPeer. rewrite Hp.
  apply not_true_is_false. rewrite forallb_forall. intros H. specialize (H i).
  rewrite Hcs, Hf in H. apply list_elem_of_In in Hi. by specialize (H Hi).
Qed.

Definition adm (checks : list string) (p : string) : Prop := is_Some (admitted a v checks p).

Lemma adm_spec checks p :
  adm checks p ↔ ∃ q, Peers a !! p = Some q ∧ p ∈ v ∧ first_failed a checks q = None.
Proof.
  unfold adm, admitted. destruct (Peers a !! p) as [q|] eqn:Hp; simpl.
  - pose proof (Hwf p q Hp) as Hid. pose proof (Hemb p q Hp) as He. simpl in Hid, He. rewrite He, Hid.
    destruct (validatePostureChecksOnPeer a checks p) eqn:Ev; simpl.
    + apply (first_failed_None _ _ _ Hp) in Ev. case_bool_decide as Hv.
      * split; [by intros [? ?]|naive_solver].
      * split; [|by eauto]. intros _. by exists q.
    + split; [by intros [? ?]|]. intros (q' & [= <-] & _ & Hf).
      apply (first_failed_None _ _ _ Hp) in Hf. congruence.
  - split; [by intros [? ?]|naive_solver].
Qed.

(** The approved peer is turned down by check [i] first. *)
Definition rejects (checks : list string) (p i : string) : Prop :=
  ∃ q, Peers a !! p = Some q ∧ p ∈ v ∧ first_failed a checks q = Some i.

Section visit.
Context (checks : list string) (pid : string).

(** The peers of [S] have been visited, starting with failures [f]. *)
Definition Vis (S : gset string) (f : gmap string (gset string)) (st : visited) : Prop :=
  (∀ q, q ∈ st.1.1 ↔ q ∈ S ∧ adm checks q ∧ q ≠ pid)
  ∧ (st.1.2 = true ↔ pid ∈ S ∧ adm checks pid)
  ∧ (∀ i p, in_failed st.2 i p ↔ in_failed f i p ∨ p ∈ S ∧ rejects checks p i).

Lemma visit_cases st p :
  visit a v checks pid st p = st ∧ ¬ adm checks p ∧ (∀ i, ¬ rejects checks p i)
  ∨ (∃ i, rejects checks p i ∧ (∀ j, rejects checks p j → j = i) ∧ ¬ adm checks p
      ∧ visit a v checks pid st p = (st.1.1, st.1.2, record_failed i p st.2))
  ∨ adm checks p ∧ (∀ i, ¬ rejects checks p i)
    ∧ visit a v checks pid st p
      = if bool_decide (p = pid) then (st.1.1, true, st.2) else (st.1.1 ++ [p], st.1.2, st.2).
Proof.
  destruct st as [[ids inG] f]. unfold visit.
  assert (Ha : ∀ q, Peers a !! p = Some q → p ∈ v → adm checks p ↔ first_failed a checks q = None).
  { intros q Hp Hv. rewrite adm_spec. split; [|by eauto]. intros (q' & ? & _ & ?). by simplify_eq. }
  assert (Hr : ∀ q i, Peers a !! p = Some q → rejects checks p i → first_failed a checks q = Some i).
  { intros q i Hp (q' & ? & _ & ?). by simplify_eq. }
  destruct (Peers a !! p) as [q|] eqn:Hp.
  2:{ left. split_and!; [done|rewrite adm_spec|unfold rejects]; rewrite ?Hp; naive_solver. }
  pose proof (Hwf p q Hp) as Hid. simpl in Hid. rewrite Hid. case_bool_decide as Hv.
  { left. split_and!; [done|rewrite adm_spec|unfold rejects]; naive_solver. }
  right. specialize (Ha q eq_refl Hv). specialize (Hr q).
  unfold validatePostureChecksOnPeerGetFailed. rewrite Hp.
  destruct (first_failed a checks q) as [i|] eqn:Ef; simpl.
  - left. exists i. rewrite bool_decide_eq_true_2 by (by eapply first_failed_Some).
    split_and!; [by exists q| |by rewrite Ha|done]. intros j Hj%Hr; [|done]. by simplify_eq.
  - right. split_and!; [by apply Ha| |done]. by intros j Hj%Hr.
Qed.

Lemma visit_Vis S f st p : Vis S f st → Vis ({[ p ]} ∪ S) f (visit a v checks pid st p).
Proof.
  intros (H1 & H2 & H3). destruct (visit_cases st p) as [(-> & Ha & Hr)|[(i & Hr & Hu & Ha & ->)|(Ha & Hr & ->)]].
  - unfold Vis. setoid_rewrite elem_of_union. setoid_rewrite elem_of_singleton.
    split_and!; [intros q; rewrite H1|rewrite H2|intros j q; rewrite H3]; naive_solver.
  - unfold Vis. cbn [fst snd]. setoid_rewrite elem_of_union. setoid_rewrite elem_of_singleton.
    split_and!; [intros q; rewrite H1|rewrite H2|intros j q; rewrite record_failed_spec, H3]; naive_solver.
  - unfold Vis. setoid_rewrite elem_of_union. setoid_rewrite elem_of_singleton.
    case_bool_decide as Hp; cbn [fst snd].
    + subst p. split_and!; [intros q; rewrite H1; naive_solver|naive_solver|intros j q; rewrite H3; naive_solver].
    + setoid_rewrite elem_of_app. setoid_rewrite list_elem_of_singleton.
      split_and!; [intros q; rewrite H1|rewrite H2|intros j q; rewrite H3]; naive_solver.
Qed.

Lemma Vis_proper S S' f st : S ≡ S' → Vis S f st → Vis S' f st.
Proof. intros HS (H1 & H2 & H3). unfold Vis. setoid_rewrite <-HS. done. Qed.

Lemma visit_all_Vis l S f st : Vis S f st → Vis (S ∪ list_to_set l) f (foldl (visit a v checks pid) st l).
Proof.
  revert S st. induction l as [|p l IH]; intros S st H; simpl; [eapply Vis_proper; [|done]; set_solver|].
  eapply Vis_proper; [|apply IH, visit_Vis, H]. set_solver.
Qed.

Lemma visit_new_all_Vis l S f st : Vis S f st →
  let r := foldl (visit_new a v checks pid) (st, S) l in
  Vis (S ∪ list_to_set l) f r.1 ∧ r.2 ≡ S ∪ list_to_set l.
Proof.
  revert S st. induction l as [|p l IH]; intros S st H; simpl; [split; [eapply Vis_proper; [|done]; set_solver|set_solver]|].
  unfold visit_new at 2 4. simpl. case_bool_decide as Hp.
  - destruct (IH S st H) as [H1 H2]. split; [eapply Vis_proper; [|exact H1]; set_solver|rewrite H2; set_solver].
  - destruct (IH ({[ p ]} ∪ S) _ (visit_Vis S f st p H)) as [H1 H2].
    split; [eapply Vis_proper; [|exact H1]; set_solver|rewrite H2; set_solver].
Qed.

(** What the peers on list [l] amount to. *)
Definition Fin (l : list string) (f : gmap string (gset string)) (st : visited) : Prop :=
  (∀ q, q ∈ st.1.1 ↔ q ∈ l ∧ adm checks q ∧ q ≠ pid)
  ∧ (st.1.2 = true ↔ pid ∈ l ∧ adm checks pid)
  ∧ (∀ i p, in_failed f i p → in_failed st.2 i p)
  ∧ (∀ i p, p ∈ l → rejects checks p i → in_failed st.2 i p)
  ∧ (∀ i p, in_failed st.2 i p → in_failed f i p ∨ rejects checks p i).

Lemma Vis_start f : Vis ∅ f ([], false, f).
Proof. unfold Vis. simpl. split_and!; set_solver. Qed.

Lemma pfg_loop_Fin single groups st seen f : Vis seen f st →
  Fin (unique_loop a single groups seen) f (pfg_loop a v checks pid single groups st seen).
Proof.
  revert st seen. induction groups as [|i groups IH]; intros st seen H; cbn [pfg_loop unique_loop].
  { destruct H as (H1 & H2 & H3). unfold Fin. setoid_rewrite elem_of_elements.
    split_and!; [done|done| | |]; intros; try apply H3; naive_solver. }
  destruct (GetGroup a i) as [g|]; [|by apply IH]. destruct (IsGroupAll g || single).
  - destruct H as (_ & _ & H3).
    destruct (visit_all_Vis (g_Peers g) ∅ st.2 _ (Vis_start st.2)) as (F1 & F2 & F3).
    unfold Fin. setoid_rewrite F1. setoid_rewrite F2. setoid_rewrite F3. setoid_rewrite H3.
    setoid_rewrite elem_of_union. setoid_rewrite elem_of_list_to_set.
    split_and!; [intros; set_solver|set_solver|naive_solver|naive_solver|naive_solver].
  - destruct (visit_new_all_Vis (g_Peers g) seen f st H) as [H1 H2].
    destruct (foldl (visit_new a v checks pid) (st, seen) (g_Peers g)) as [st' seen']. cbn [fst snd] in H1, H2.
    assert (seen' = seen ∪ list_to_set (g_Peers g)) as -> by (apply leibniz_equiv; exact H2). by apply IH.
Qed.

Lemma getPeersFromGroups_Fin groups f :
  Fin (getUniquePeerIDsFromGroupsIDs a groups) f (getPeersFromGroups a v groups pid checks f).
Proof. apply pfg_loop_Fin, Vis_start. Qed.
End visit.

(** ** What is collected *)
Section adequacy.
Context (routes : list Route) (peer : Peer).
Context (Hpeer : Peers a !! ID peer = Some peer) (Hval : ID peer ∈ v).
Local Abbreviation pid := (ID peer).
Local Abbreviation enabled := (enabled_rules (Policies a)).
Local Abbreviation source := (is_source a v).
Local Abbreviation destination := (is_destination a v).

(** Peers that a rule names one by one are approved. *)
Context (Hres : ∀ pol rule r, (pol, rule) ∈ enabled → r = r_SourceResource rule ∨ r = r_DestinationResource rule →
  is_peer_resource r = true → res_ID r ∈ v).
(** The groups that rules and routes refer to exist. *)
Context (Hexist : ∀ pol rule i, (pol, rule) ∈ enabled → i ∈ r_Sources rule ++ r_Destinations rule →
  is_Some (Groups a !! i)).
Context (Hroutes : ∀ r i, r ∈ routes → i ∈ rt_Groups r ++ rt_PeerGroups r ++ rt_AccessControlGroups r →
  is_Some (Groups a !! i)).

Record inv (st : collected) : Prop := {
  inv_target : is_Some (k_Peers st !! pid);
  inv_peers : ∀ p o, k_Peers st !! p = Some o → o = Peers a !! p ∧ (is_Some o → p ∈ v);
  inv_groups : ∀ i o, k_Groups st !! i = Some o → o = Groups a !! i ∧ is_Some o;
  inv_failed : ∀ i p q, in_failed (k_failed st) i p → Peers a !! p = Some q → fails q i;
}.

Record le (st st' : collected) : Prop := {
  le_peers : ∀ p, is_Some (k_Peers st !! p) → is_Some (k_Peers st' !! p);
  le_groups : ∀ i, is_Some (k_Groups st !! i) → is_Some (k_Groups st' !! i);
  le_failed : ∀ i p, in_failed (k_failed st) i p → in_failed (k_failed st') i p;
  le_needed : k_neededGroupIDs st ⊆ k_neededGroupIDs st';
  le_allowed : k_needAllowedUserIDs st = true → k_needAllowedUserIDs st' = true;
}.

#[local] Instance le_preorder : PreOrder le.
Proof.
  split; [by split|]. intros x y z [] []. split; [auto..|by etrans|auto].
Qed.

(** [st'] is a later state of the collection. *)
Definition grows (st st' : collected) : Prop := inv st' ∧ le st st'.

Lemma grows_refl st : inv st → grows st st.
Proof. by split. Qed.

Lemma grows_trans x y z : grows x y → (inv y → grows y z) → grows x z.
Proof. intros [Hy Hle] Hn. destruct (Hn Hy) as [? ?]. split; [done|]. by etrans. Qed.

Lemma grows_add_peers ids st : inv st → (∀ i, i ∈ ids → is_Some (Peers a !! i) → i ∈ v) →
  grows st (add_peers a ids st) ∧ ∀ i, i ∈ ids → is_Some (k_Peers (add_peers a ids st) !! i).
Proof.
  intros Hi Hv. assert (Hl := foldl_insert_lookup (GetPeer a) ids (k_Peers st)). split; [split|].
  - destruct Hi as [H1 H2 H3 H4]. split; [..|done|done]; cbn [add_peers k_Peers].
    + rewrite Hl. by case_decide.
    + intros p o. rewrite Hl. case_decide; [|apply H2]. intros [= <-]. by split; [|apply Hv].
  - split; try done. cbn [add_peers k_Peers]. intros p. rewrite Hl. by case_decide.
  - intros i Hin. cbn [add_peers k_Peers]. rewrite Hl. by rewrite decide_True.
Qed.

Lemma grows_add_missing_peers ids st : inv st → (∀ i, i ∈ ids → is_Some (Peers a !! i) → i ∈ v) →
  grows st (add_missing_peers a ids st).
Proof.
  intros Hi Hv. assert (Hl := foldl_missing_lookup (GetPeer a) ids (k_Peers st)). split.
  - destruct Hi as [H1 H2 H3 H4]. split; [..|done|done]; cbn [add_missing_peers k_Peers].
    + rewrite Hl. destruct H1 as [? ->]. by eauto.
    + intros p o. rewrite Hl. destruct (k_Peers st !! p) eqn:E; [intros [= <-]; by apply H2|].
      case_decide; [|done]. intros [= <-]. by split; [|apply Hv].
  - split; try done. cbn [add_missing_peers k_Peers]. intros p [o Ho]. rewrite Hl, Ho. by eauto.
Qed.

Lemma grows_add_groups ids st : inv st → (∀ i, i ∈ ids → is_Some (Groups a !! i)) →
  grows st (add_groups a ids st) ∧ ∀ i, i ∈ ids → is_Some (k_Groups (add_groups a ids st) !! i).
Proof.
  intros Hi Hv. assert (Hl := foldl_insert_lookup (GetGroup a) ids (k_Groups st)). split; [split|].
  - destruct Hi as [H1 H2 H3 H4]. split; [done|done| |done]; cbn [add_groups k_Groups].
    intros p o. rewrite Hl. case_decide; [|apply H3]. intros [= <-]. by split; [|apply Hv].
  - split; try done. cbn [add_groups k_Groups]. intros p. rewrite Hl. by case_decide.
  - intros i Hin. cbn [add_groups k_Groups]. rewrite Hl. by rewrite decide_True.
Qed.

Lemma grows_add_missing_groups ids st : inv st → grows st (add_missing_groups a ids st).
Proof.
  intros Hi. assert (Hl := foldl_missing_groups_lookup a ids (k_Groups st)). split.
  - destruct Hi as [H1 H2 H3 H4]. split; [done|done| |done]; cbn [add_missing_groups k_Groups].
    intros p o. rewrite Hl. destruct (k_Groups st !! p) eqn:E; [intros [= <-]; by apply H3|].
    case_decide; [|done]. unfold GetGroup. destruct (Groups a !! p); [|done]. intros [= <-]. by eauto.
  - split; try done. cbn [add_missing_groups k_Groups]. intros p [o Ho]. rewrite Hl, Ho. by eauto.
Qed.

Lemma grows_set_failed f st : inv st →
  (∀ i p, in_failed (k_failed st) i p → in_failed f i p) →
  (∀ i p q, in_failed f i p → Peers a !! p = Some q → in_failed (k_failed st) i p ∨ fails q i) →
  grows st (set_failed f st).
Proof.
  intros [H1 H2 H3 H4] Hm Hs. split; [|by split]. split; [done..|].
  intros i p q Hf Hq. destruct (Hs i p q Hf Hq); [by eapply H4|done].
Qed.

Lemma grows_need_ssh gs b st : inv st → grows st (need_ssh gs b st).
Proof.
  intros [H1 H2 H3 H4]. split; [by split|]. split; try done; cbn [need_ssh k_neededGroupIDs k_needAllowedUserIDs].
  - set_solver.
  - by intros ->.
Qed.

Lemma grows_add_policy pol st : inv st → grows st (add_policy pol st).
Proof. intros [H1 H2 H3 H4]. split; by split. Qed.

(** ** One rule *)
(** What a side of a rule yields: the target's membership, the others, and the failures. *)
Definition side (P : string → Prop) (f : gmap string (gset string)) (r : visited) : Prop :=
  (r.1.2 = true ↔ P pid) ∧ (∀ q, P q → q ≠ pid → q ∈ r.1.1)
  ∧ (∀ q, q ∈ r.1.1 → is_Some (Peers a !! q) → q ∈ v)
  ∧ (∀ i p, in_failed f i p → in_failed r.2 i p)
  ∧ (∀ i p q, in_failed r.2 i p → Peers a !! p = Some q → in_failed f i p ∨ fails q i).

Lemma side_resource r f : res_ID r ∈ v →
  side (names_peer a r) f ([res_ID r], bool_decide (res_ID r = pid), f).
Proof.
  intros Hv. unfold side, names_peer. cbn [fst snd]. rewrite bool_decide_eq_true.
  split_and!; [split; [intros ->; by eauto|naive_solver]|set_solver|set_solver|done|auto].
Qed.

Lemma side_groups checks groups f :
  side (in_groups a v checks groups) f (getPeersFromGroups a v groups pid checks f).
Proof.
  destruct (getPeersFromGroups_Fin checks pid groups f) as (F1 & F2 & F3 & _ & F5).
  unfold side, in_groups. fold (adm checks). split_and!; [done|intros q [? ?] ?; by apply F1| |done|].
  - intros q (_ & (? & _ & ? & _)%adm_spec & _)%F1 _. done.
  - intros i p q [?|(q' & ? & _ & Hf)]%F5 Hq; [by left|right]. simplify_eq.
    by apply first_failed_Some in Hf as (_ & ? & _).
Qed.

Lemma k_sources_side pol rule f : (pol, rule) ∈ enabled →
  side (source pol rule) f (k_sources a v pid pol rule f)
  ∧ (is_peer_resource (r_SourceResource rule) = false → ∀ i p,
       p ∈ getUniquePeerIDsFromGroupsIDs a (r_Sources rule) → rejects (pol_SourcePostureChecks pol) p i →
       in_failed (k_sources a v pid pol rule f).2 i p).
Proof.
  intros Hen. unfold k_sources, is_source. destruct (is_peer_resource _) eqn:E.
  - split; [|done]. apply side_resource. by eapply (Hres pol rule); [|left|].
  - split; [apply side_groups|]. intros _.
    by destruct (getPeersFromGroups_Fin (pol_SourcePostureChecks pol) pid (r_Sources rule) f) as (_ & _ & _ & ? & _).
Qed.

Lemma k_destinations_side pol rule f : (pol, rule) ∈ enabled →
  side (destination rule) f (k_destinations a v pid rule f).
Proof.
  intros Hen. unfold k_destinations, is_destination. destruct (is_peer_resource _) eqn:E.
  - apply side_resource. by eapply (Hres pol rule); [|right|].
  - apply side_groups.
Qed.

(** The rule asks for the account's allowed users. *)
Definition wants_allowed (rule : PolicyRule) : Prop :=
  if bool_decide (r_Protocol rule = PolicyRuleProtocolNetbirdSSH)
  then r_AuthorizedGroups rule = ∅ ∧ r_AuthorizedUser rule = ""
  else policyRuleImpliesLegacySSH rule = true ∧ SSHEnabled peer = true.

(** Everything the evaluation of the rule needs has been collected. *)
Record contrib (pol : Policy) (rule : PolicyRule) (st : collected) : Prop := {
  ct_dst : source pol rule pid → ∀ q, destination rule q → is_Some (k_Peers st !! q);
  ct_dst_groups : source pol rule pid → ∀ i, i ∈ r_Destinations rule → is_Some (k_Groups st !! i);
  ct_src : destination rule pid → ∀ q, source pol rule q → is_Some (k_Peers st !! q);
  ct_src_groups : destination rule pid → ∀ i, i ∈ r_Sources rule → is_Some (k_Groups st !! i);
  ct_failed : is_peer_resource (r_SourceResource rule) = false → ∀ i p,
    p ∈ getUniquePeerIDsFromGroupsIDs a (r_Sources rule) → rejects (pol_SourcePostureChecks pol) p i →
    in_failed (k_failed st) i p;
  ct_needed : destination rule pid → r_Protocol rule = PolicyRuleProtocolNetbirdSSH →
    dom (r_AuthorizedGroups rule) ⊆ k_neededGroupIDs st;
  ct_allowed : destination rule pid → wants_allowed rule → k_needAllowedUserIDs st = true;
}.

Lemma contrib_mono pol rule st st' : le st st' → contrib pol rule st → contrib pol rule st'.
Proof.
  intros [L1 L2 L3 L4 L5] [C1 C2 C3 C4 C5 C6 C7]. split; [eauto..| |].
  - intros. etrans; [by apply C6|done].
  - intros. by apply L5, C7.
Qed.

Lemma grows_ssh_needs rule st : inv st →
  let st' := ssh_needs (SSHEnabled peer) rule st in
  grows st st'
  ∧ (r_Protocol rule = PolicyRuleProtocolNetbirdSSH → dom (r_AuthorizedGroups rule) ⊆ k_neededGroupIDs st')
  ∧ (wants_allowed rule → k_needAllowedUserIDs st' = true).
Proof.
  intros Hi. cbv zeta. unfold ssh_needs, wants_allowed. case_bool_decide as Hp.
  - case_bool_decide as Hg.
    + split_and!; [by apply grows_need_ssh|intros _; simpl; set_solver|naive_solver].
    + assert (Hd : dom (r_AuthorizedGroups rule) = ∅) by (by apply dom_empty_iff_L).
      rewrite Hd. case_bool_decide as Hu.
      * split_and!; [by apply grows_refl|set_solver|naive_solver].
      * split_and!; [by apply grows_need_ssh|set_solver|]. intros _. simpl. apply orb_true_r.
  - destruct (policyRuleImpliesLegacySSH rule && SSHEnabled peer) eqn:E.
    + split_and!; [by apply grows_need_ssh|done|]. intros _. simpl. apply orb_true_r.
    + split_and!; [by apply grows_refl|done|]. intros [H1 H2]. by rewrite H1, H2 in E.
Qed.

(** The destination half of a rule, and the source half. *)
Lemma grows_sides (b : bool) ids groups st : inv st → (∀ i, i ∈ ids → is_Some (Peers a !! i) → i ∈ v) →
  (∀ i, i ∈ groups → is_Some (Groups a !! i)) →
  let st' := if b then add_groups a groups (add_peers a ids st) else st in
  grows st st' ∧ (b = true → (∀ i, i ∈ ids → is_Some (k_Peers st' !! i)) ∧ (∀ i, i ∈ groups → is_Some (k_Groups st' !! i))).
Proof.
  intros Hi Hv Hg. cbv zeta. destruct b; [|split; [by apply grows_refl|done]].
  destruct (grows_add_peers ids st Hi Hv) as [G1 P1].
  destruct (grows_add_groups groups (add_peers a ids st) (proj1 G1) Hg) as [G2 P2].
  split; [by eapply grows_trans|]. intros _. split; [|done]. intros i Hin. by apply (le_peers _ _ (proj2 G2)), P1.
Qed.

Lemma collect_rule_spec rac pol rule st rel : (pol, rule) ∈ enabled → inv st →
  let r := collect_rule a v pid (SSHEnabled peer) rac pol (st, rel) rule in
  grows st r.1 ∧ contrib pol rule r.1 ∧ (rel = true → r.2 = true)
  ∧ (r.2 = false → ¬ source pol rule pid ∧ ¬ destination rule pid) ∧ k_Policies r.1 = k_Policies st.
Proof.
  intros Hen Hi. cbv zeta. unfold collect_rule.
  rewrite (proj2 (proj2 (proj2 (proj1 (enabled_rules_spec _ _ _) Hen)))). cbn [negb].
  set (hit := existsb _ _). set (st1 := if hit then _ else st).
  assert (grows st st1 ∧ k_Policies st1 = k_Policies st) as [G1 K1].
  { subst st1. destruct hit; [|split; [by apply grows_refl|done]]. split; [|done].
    eapply grows_trans; [apply grows_add_groups; [done|]|intros Hi'; apply grows_add_groups; [done|]];
      intros i Hin; apply (Hexist pol rule i Hen); set_solver. }
  destruct (k_sources_side pol rule (k_failed st1) Hen) as [(S1 & S2 & S3 & S4 & S5) S6].
  destruct (k_sources a v pid pol rule (k_failed st1)) as [[src inS] f1]. cbn [fst snd] in *.
  destruct (k_destinations_side pol rule f1 Hen) as (D1 & D2 & D3 & D4 & D5).
  destruct (k_destinations a v pid rule f1) as [[dst inD] f2]. cbn [fst snd] in *.
  assert (G2 : grows st1 (set_failed f2 st1)).
  { apply grows_set_failed; [apply G1|auto|]. intros i p q Hf Hq. destruct (D5 i p q Hf Hq); [eauto|by right]. }
  destruct (grows_sides inS dst (r_Destinations rule) (set_failed f2 st1) (proj1 G2) D3) as [G3 P3].
  { intros i Hin. apply (Hexist pol rule i Hen). set_solver. }
  set (st3 := if inS then _ else set_failed f2 st1) in *.
  destruct (grows_sides inD src (r_Sources rule) st3 (proj1 G3) S3) as [G4 P4].
  { intros i Hin. apply (Hexist pol rule i Hen). set_solver. }
  destruct (grows_ssh_needs rule (if inD then add_groups a (r_Sources rule) (add_peers a src st3) else st3) (proj1 G4))
    as (G5 & N5 & A5).
  set (st5 := if inD then ssh_needs _ _ _ else st3).
  assert (G6 : grows st3 st5 ∧ (inD = true → le (add_groups a (r_Sources rule) (add_peers a src st3)) st5)).
  { subst st5. destruct inD; [split; [by eapply grows_trans|intros _; apply G5]|split; [apply G4|done]]. }
  destruct G6 as [G6 L6].
  assert (HK : k_Policies st5 = k_Policies st).
  { rewrite <-K1. subst st5 st3. unfold ssh_needs. by repeat case_match. }
  assert (HT : is_Some (k_Peers st5 !! pid)) by exact (inv_target _ (proj1 G6)).
  split_and!; [| |by intros ->| |done].
  - eapply grows_trans; [exact G1|intros _]. eapply grows_trans; [exact G2|intros _]. by eapply grows_trans; [exact G3|].
  - split.
    + intros Hs q Hq. apply S1 in Hs. destruct (decide (q = pid)) as [->|Hne]; [done|].
      apply (le_peers _ _ (proj2 G6)), P3; auto.
    + intros Hs i Hin. apply S1 in Hs. apply (le_groups _ _ (proj2 G6)), P3; auto.
    + intros Hd q Hq. apply D1 in Hd. destruct (decide (q = pid)) as [->|Hne]; [done|].
      apply (le_peers _ _ (L6 Hd)). subst inD. apply P4; auto.
    + intros Hd i Hin. apply D1 in Hd. apply (le_groups _ _ (L6 Hd)). subst inD. apply P4; auto.
    + intros Hr i p Hp Hrej. apply (le_failed _ _ (proj2 G6)), (le_failed _ _ (proj2 G3)). simpl. eauto.
    + intros Hd Hp. apply D1 in Hd. subst inD st5. by apply N5.
    + intros Hd Hw. apply D1 in Hd. subst inD st5. by apply A5.
  - intros [[[_ _]%orb_false_iff Hs]%orb_false_iff Hd]%orb_false_iff.
    split; [rewrite <-S1, Hs|rewrite <-D1, Hd]; done.
Qed.

(** ** All policies, routes and resources *)
(** The policy has no bearing on the target. *)
Definition idle (pol : Policy) : Prop :=
  pol_Enabled pol = false
  ∨ ∀ rule, rule ∈ pol_Rules pol → r_Enabled rule = true → ¬ source pol rule pid ∧ ¬ destination rule pid.

(** [l'] is [l] without some idle policies. *)
Inductive skips : list Policy → list Policy → Prop :=
| skips_nil : skips [] []
| skips_keep pol l l' : skips l l' → skips (pol :: l) (pol :: l')
| skips_drop pol l l' : idle pol → skips l l' → skips (pol :: l) l'.

Lemma collect_rules_spec rac pol rs st rel : pol ∈ Policies a → pol_Enabled pol = true → rs ⊆ pol_Rules pol → inv st →
  let r := foldl (collect_rule a v pid (SSHEnabled peer) rac pol) (st, rel) rs in
  grows st r.1 ∧ (∀ rule, rule ∈ rs → r_Enabled rule = true → contrib pol rule r.1) ∧ (rel = true → r.2 = true)
  ∧ (r.2 = false → ∀ rule, rule ∈ rs → r_Enabled rule = true → ¬ source pol rule pid ∧ ¬ destination rule pid)
  ∧ k_Policies r.1 = k_Policies st.
Proof.
  intros Hp He. revert st rel. induction rs as [|rule rs IH]; intros st rel Hsub Hi; cbv zeta; cbn [foldl].
  { split_and!; [by apply grows_refl|set_solver|done|set_solver|done]. }
  destruct (r_Enabled rule) eqn:Er.
  - destruct (collect_rule_spec rac pol rule st rel) as (G1 & C1 & R1 & N1 & K1);
      [by apply enabled_rules_spec; split_and!; [..|set_solver|]|done|].
    destruct (collect_rule a v pid (SSHEnabled peer) rac pol (st, rel) rule) as [st1 rel1]. cbn [fst snd] in *.
    destruct (IH st1 rel1 ltac:(set_solver) (proj1 G1)) as (G2 & C2 & R2 & N2 & K2).
    split_and!; [by eapply grows_trans| |auto| |congruence].
    + intros r [->|Hr]%elem_of_cons ?; [by eapply contrib_mono; [apply G2|]|auto].
    + intros Hf r [->|Hr]%elem_of_cons ?; [|by auto]. apply N1. destruct rel1; [|done]. by rewrite R2 in Hf.
  - assert (collect_rule a v pid (SSHEnabled peer) rac pol (st, rel) rule = (st, rel)) as ->
      by (unfold collect_rule; by rewrite Er).
    destruct (IH st rel ltac:(set_solver) Hi) as (G2 & C2 & R2 & N2 & K2).
    split_and!; [done| |done| |done].
    + intros r [->|Hr]%elem_of_cons ?; [congruence|by apply C2].
    + intros Hf r [->|Hr]%elem_of_cons ?; [congruence|by apply N2].
Qed.

Lemma collect_policies_spec rac ps st : ps ⊆ Policies a → inv st →
  let st' := foldl (collect_policy a v pid (SSHEnabled peer) rac) st ps in
  grows st st'
  ∧ (∀ pol rule, pol ∈ ps → pol_Enabled pol = true → rule ∈ pol_Rules pol → r_Enabled rule = true → contrib pol rule st')
  ∧ ∃ l, k_Policies st' = k_Policies st ++ l ∧ skips ps l.
Proof.
  revert st. induction ps as [|pol ps IH]; intros st Hsub Hi; cbv zeta; cbn [foldl].
  { split_and!; [by apply grows_refl|set_solver|]. exists []. rewrite app_nil_r. split; [done|constructor]. }
  unfold collect_policy at 2 4 6. destruct (pol_Enabled pol) eqn:Ep; cbn [negb].
  - destruct (collect_rules_spec rac pol (pol_Rules pol) st false) as (G1 & C1 & _ & N1 & K1); [set_solver|done..|].
    destruct (foldl _ (st, false) (pol_Rules pol)) as [st1 rel]. cbn [fst snd] in *.
    assert (G2 : grows st1 (if rel then add_policy pol st1 else st1)).
    { destruct rel; [apply grows_add_policy, G1|apply grows_refl, G1]. }
    destruct (IH _ ltac:(set_solver) (proj1 G2)) as (G3 & C3 & l & K3 & S3).
    split_and!; [by eapply grows_trans; [exact G1|]; intros _; eapply grows_trans| |].
    + intros p r [->|Hp]%elem_of_cons ? ? ?; [|by apply C3]. eapply contrib_mono; [|by apply C1].
      by etrans; [apply G2|apply G3].
    + destruct rel.
      * exists (pol :: l). rewrite K3. cbn [add_policy k_Policies]. rewrite K1, <-app_assoc. split; [done|by constructor].
      * exists l. rewrite K3, K1. split; [done|]. constructor; [by right; apply N1|done].
  - destruct (IH st ltac:(set_solver) Hi) as (G3 & C3 & l & K3 & S3). split_and!; [done| |].
    + intros p r [->|Hp]%elem_of_cons ? ? ?; [congruence|by apply C3].
    + exists l. split; [done|]. constructor; [by left|done].
Qed.

Lemma collect_start_inv :
  inv (collect_start a pid)
  ∧ ∀ i g, Groups a !! i = Some g → pid ∈ g_Peers g → is_Some (k_Groups (collect_start a pid) !! i).
Proof.
  assert (Hg : ∀ i, k_Groups (collect_start a pid) !! i
    = option_map Some (filter (λ ig : string * Group, pid ∈ g_Peers ig.2) (Groups a) !! i)).
  { intros i. unfold collect_start. cbn [k_Groups]. rewrite lookup_fmap. done. }
  split; [split|].
  - simpl. rewrite lookup_singleton_eq. by eauto.
  - intros p o. simpl. rewrite lookup_singleton_Some. by intros [<- <-].
  - intros i o. rewrite Hg. destruct (filter _ (Groups a) !! i) as [g|] eqn:E; [|done]. intros [= <-].
    apply map_lookup_filter_Some in E as [-> _]. by eauto.
  - intros i p q (s & Hs & _). simpl in Hs. by rewrite lookup_empty in Hs.
  - intros i g Hi Hp. rewrite Hg. rewrite (map_lookup_filter_Some_2 _ _ i g Hi Hp). simpl. by eauto.
Qed.

Lemma collect_routes_spec rs st : rs ⊆ routes → inv st →
  grows st (foldl (collect_route a) st rs) ∧ k_Policies (foldl (collect_route a) st rs) = k_Policies st
  ∧ ∀ r i, r ∈ rs → i ∈ rt_Groups r ++ rt_PeerGroups r → is_Some (k_Groups (foldl (collect_route a) st rs) !! i).
Proof.
  revert st. induction rs as [|r rs IH]; intros st Hsub Hi; cbn [foldl]; [split; [by apply grows_refl|]; split; [done|]; by intros ? ? ?%not_elem_of_nil|].
  assert (grows st (collect_route a st r) ∧ k_Policies (collect_route a st r) = k_Policies st
    ∧ ∀ i, i ∈ rt_Groups r ++ rt_PeerGroups r → is_Some (k_Groups (collect_route a st r) !! i)) as (G1 & K1 & R1).
  { assert (Hr : r ∈ routes) by (apply Hsub; left).
    assert (Hx : ∀ ids st', (∀ i, i ∈ ids → i ∈ rt_Groups r ++ rt_PeerGroups r ++ rt_AccessControlGroups r) →
      inv st' → grows st' (add_groups a ids st') ∧ ∀ i, i ∈ ids → is_Some (k_Groups (add_groups a ids st') !! i)).
    { intros ids st' Hids Hi'. apply grows_add_groups; [done|]. intros i Hin. by apply (Hroutes r), Hids. }
    destruct (Hx (rt_Groups r) st) as [Ga Ia]; [intros i Hin; rewrite !elem_of_app; auto|done|].
    destruct (Hx (rt_PeerGroups r) (add_groups a (rt_Groups r) st)) as [Gb Ib]; [intros i Hin; rewrite !elem_of_app; auto|apply Ga|].
    destruct (Hx (rt_AccessControlGroups r) (add_groups a (rt_PeerGroups r) (add_groups a (rt_Groups r) st))) as [Gc _];
      [intros i Hin; rewrite !elem_of_app; auto|apply Gb|].
    assert (Hin : ∀ i, i ∈ rt_Groups r ++ rt_PeerGroups r → is_Some (k_Groups (add_groups a (rt_PeerGroups r) (add_groups a (rt_Groups r) st)) !! i)).
    { intros i [?|?]%elem_of_app; [by apply (le_groups _ _ (proj2 Gb)), Ia|by apply Ib]. }
    unfold collect_route. destruct (rt_Enabled r); (split; [|split; [done|]]); [|..|exact Hin].
    - eapply grows_trans; [exact Ga|]. intros _. by eapply grows_trans; [exact Gb|].
    - intros i ?%Hin. by apply (le_groups _ _ (proj2 Gc)).
    - by eapply grows_trans; [exact Ga|]. }
  destruct (IH _ ltac:(set_solver) (proj1 G1)) as (G2 & K2 & R2).
  split; [by eapply grows_trans|]. split; [congruence|]. intros x i [->|?]%elem_of_cons Hin; [by apply (le_groups _ _ (proj2 G2)), R1|by eapply R2].
Qed.

(** ** Network resources *)
(** The ids a policy of a resource names as sources, and what one of them needs to be judged. *)
Definition resource_sources (pol : Policy) : list string :=
  match pol_Rules pol with
  | [] => []
  | rule :: _ => if is_peer_resource (r_SourceResource rule) then [res_ID (r_SourceResource rule)]
                 else getUniquePeerIDsFromGroupsIDs a (SourceGroups pol)
  end.
Definition seen (pol : Policy) (p : string) (st : collected) : Prop :=
  ∀ i, p ∈ resource_sources pol → rejects (pol_SourcePostureChecks pol) p i → in_failed (k_failed st) i p.
(** The sources of the policy have been gathered. *)
Record gathered (pol : Policy) (st : collected) : Prop := {
  ga_peers : ∀ p, p ∈ resource_sources pol → adm (pol_SourcePostureChecks pol) p → is_Some (k_Peers st !! p);
  ga_failed : ∀ p, seen pol p st;
  ga_groups : ∀ rule i, rule ∈ pol_Rules pol → i ∈ r_Sources rule → is_Some (Groups a !! i) → is_Some (k_Groups st !! i) }.
(** The policy gives the target access. *)
Definition admits (pol : Policy) : Prop :=
  adm (pol_SourcePostureChecks pol) pid
  ∧ ∃ rule rules, pol_Rules pol = rule :: rules
      ∧ if is_peer_resource (r_SourceResource rule) then res_ID (r_SourceResource rule) = pid
        else ∃ i g, i ∈ SourceGroups pol ∧ Groups a !! i = Some g ∧ pid ∈ g_Peers g.

Lemma seen_mono pol p st st' : le st st' → seen pol p st → seen pol p st'.
Proof. intros L H i Hi Hr. by apply (le_failed _ _ L), H. Qed.
Lemma gathered_mono pol st st' : le st st' → gathered pol st → gathered pol st'.
Proof.
  intros L [G1 G2 G3]. split; [|intros p; by eapply seen_mono|]; intros; [eapply (le_peers _ _ L)|eapply (le_groups _ _ L)]; eauto.
Qed.
Lemma SourceGroups_elem pol i : i ∈ SourceGroups pol ↔ ∃ rule, rule ∈ pol_Rules pol ∧ i ∈ r_Sources rule.
Proof using Type.
  unfold SourceGroups. destruct (pol_Rules pol) as [|rule [|rule' rs]];
    rewrite ?elem_of_elements, ?elem_of_list_to_set, ?list_elem_of_join; [clear; set_solver| |].
  - split; [intros ?; exists rule; split; [by left|done]|]. by intros (? & ->%list_elem_of_singleton & ?).
  - setoid_rewrite list_elem_of_fmap. split; [intros (l & Hi & x & -> & Hx); by exists x|]. intros (x & Hx & Hi). exists (r_Sources x). split; [done|by exists x].
Qed.

Lemma save_failed_spec checks l dest f :
  let r := foldl (save_failed a v checks) (dest, f) l in
  (∀ p, p ∈ r.1 → p ∈ dest ∨ p ∈ v) ∧ (∀ i p, in_failed f i p → in_failed r.2 i p)
  ∧ (∀ i p q, in_failed r.2 i p → Peers a !! p = Some q → in_failed f i p ∨ fails q i)
  ∧ (∀ p, p ∈ dest ∨ p ∈ l ∧ adm checks p → p ∈ r.1) ∧ (∀ i p, p ∈ l → rejects checks p i → in_failed r.2 i p).
Proof.
  revert dest f. induction l as [|p l IH]; intros dest f; cbv zeta; cbn [foldl]; [set_solver|].
  unfold save_failed at 2 4 6 8 10. case_bool_decide as Hv.
  { destruct (IH dest f) as (I1 & I2 & I3 & I4 & I5). split_and!; [done..| |].
    - intros x [?|[[->|?]%elem_of_cons Ha]]; [apply I4; by left| |apply I4; by right]. by apply adm_spec in Ha as (? & _ & ? & _).
    - intros i x [->|?]%elem_of_cons Hr; [by destruct Hr as (? & _ & ? & _)|by apply I5]. }
  unfold validatePostureChecksOnPeerGetFailed. destruct (Peers a !! p) as [q|] eqn:Hp.
  - destruct (first_failed a checks q) as [j|] eqn:Ej; cbn [fst snd].
    + destruct (IH dest (record_failed j p f)) as (I1 & I2 & I3 & I4 & I5). split_and!; [done| | | |].
      * intros i x Hx. apply I2, record_failed_spec. by left.
      * intros i x y Hx Hy. destruct (I3 i x y Hx Hy) as [[?|[-> ->]]%record_failed_spec|?]; [by left| |by right].
        right. simplify_eq. by apply first_failed_Some in Ej as (_ & ? & _).
      * intros x [?|[[->|?]%elem_of_cons Ha]]; [apply I4; by left| |apply I4; by right].
        apply adm_spec in Ha as (? & ? & _ & ?). congruence.
      * intros i x [->|?]%elem_of_cons Hr; [|by apply I5]. destruct Hr as (? & ? & _ & ?). apply I2, record_failed_spec. right. by simplify_eq.
    + destruct (IH (dest ++ [p]) f) as (I1 & I2 & I3 & I4 & I5). split_and!; [|done..| |].
      * intros x [[?|Hx%list_elem_of_singleton]%elem_of_app|?]%I1; subst; auto.
      * intros x [?|[[->|?]%elem_of_cons Ha]]; apply I4; [left; apply elem_of_app; by left|left; apply elem_of_app; right; by left|by right].
      * intros i x [->|?]%elem_of_cons Hr; [|by apply I5]. destruct Hr as (? & ? & _ & ?). congruence.
  - destruct (IH dest (record_failed "" p f)) as (I1 & I2 & I3 & I4 & I5). cbn [fst snd]. split_and!; [done| | | |].
    + intros i x Hx. apply I2, record_failed_spec. by left.
    + intros i x y Hx Hy. destruct (I3 i x y Hx Hy) as [[?|[-> ->]]%record_failed_spec|?]; [by left| |by right]. congruence.
    + intros x [?|[[->|?]%elem_of_cons Ha]]; [apply I4; by left| |apply I4; by right]. apply adm_spec in Ha as (? & ? & _). congruence.
    + intros i x [->|?]%elem_of_cons Hr; [|by apply I5]. destruct Hr as (? & ? & _). congruence.
Qed.
Lemma missing_peers_there ids st i : i ∈ ids → is_Some (k_Peers (add_missing_peers a ids st) !! i).
Proof.
  intros Hi. cbn [add_missing_peers k_Peers]. rewrite (foldl_missing_lookup (GetPeer a)). destruct (k_Peers st !! i); [by eauto|]. by rewrite decide_True.
Qed.
Lemma missing_groups_there ids st i : i ∈ ids → is_Some (Groups a !! i) → is_Some (k_Groups (add_missing_groups a ids st) !! i).
Proof.
  intros Hi [g Hg]. cbn [add_missing_groups k_Groups]. rewrite foldl_missing_groups_lookup. destruct (k_Groups st !! i); [by eauto|].
  rewrite decide_True by done. unfold GetGroup. rewrite Hg. by eauto.
Qed.

Context (resources : list NetworkResource) (resourcePolicies : gmap string (list Policy))
  (routers : gmap string (gmap string NetworkRouter)).
(** Policies of resources have rules. *)
Context (Hrules : ∀ i pols pol, resourcePolicies !! i = Some pols → pol ∈ pols → pol_Rules pol ≠ []).

(** A policy whose sources are gathered. *)
Lemma resource_policy_gathers pol st l : pol_Rules pol ≠ [] → inv st →
  ∃ st', resource_policy a v pid (st, true, l) pol = Ret (st', true, true) ∧ grows st st' ∧ k_Policies st' = k_Policies st ∧ gathered pol st'.
Proof.
  intros Hr Hi. unfold resource_policy, first_source. destruct (pol_Rules pol) as [|rule rs] eqn:Er; [done|].
  rewrite bind_ret_l. set (src := if is_peer_resource _ then _ else None). set (ps := match src with Some i => [i] | None => _ end).
  assert (Hps : resource_sources pol = ps).
  { unfold resource_sources, ps, src. rewrite Er. by destruct (is_peer_resource _). }
  destruct (save_failed_spec (pol_SourcePostureChecks pol) ps [] (k_failed st)) as (V1 & V2 & V3 & V4 & V5).
  unfold getPostureValidPeersSaveFailed. destruct (foldl _ _ ps) as [valid f]. cbn [fst snd] in *.
  eexists. split; [done|]. assert (Hgr : ∀ st', inv st' → grows st' (add_missing_peers a valid st')).
  { intros st' ?. apply grows_add_missing_peers; [done|]. by intros i [?%not_elem_of_nil|?]%V1. }
  split; [|split; [done|]].
  - eapply grows_trans; [by apply grows_set_failed|intros ?]. eapply grows_trans; [by apply Hgr|intros ?]. by apply grows_add_missing_groups.
  - split.
    + rewrite Hps. intros p Hp Ha. apply missing_peers_there, V4. by right.
    + intros p i. rewrite Hps. intros Hp Hj. by apply V5.
    + rewrite Er. intros x i Hx Hin. apply missing_groups_there. apply list_elem_of_join. exists (r_Sources x ++ r_Destinations x).
      split; [apply elem_of_app; by left|]. apply (list_elem_of_fmap_2 (λ rule, r_Sources rule ++ r_Destinations rule)). done.
Qed.
(** A policy that may give the target access. *)
Lemma resource_policy_tries pol st l : pol_Rules pol ≠ [] → inv st →
  ∃ st' b', resource_policy a v pid (st, false, l) pol = Ret (st', b', l || b') ∧ grows st st' ∧ k_Policies st' = k_Policies st
    ∧ (b' = true ↔ admits pol) ∧ seen pol pid st'.
Proof.
  intros Hr Hi. unfold resource_policy, first_source, admits. destruct (pol_Rules pol) as [|rule rs] eqn:Er; [done|]. rewrite bind_ret_l.
  set (inside := if is_peer_resource (r_SourceResource rule) then res_ID (r_SourceResource rule) = pid
                 else ∃ i g, i ∈ SourceGroups pol ∧ Groups a !! i = Some g ∧ pid ∈ g_Peers g).
  assert (Hx : (∃ rule0 rules, rule :: rs = rule0 :: rules ∧ if is_peer_resource (r_SourceResource rule0) then res_ID (r_SourceResource rule0) = pid
                 else ∃ i g, i ∈ SourceGroups pol ∧ Groups a !! i = Some g ∧ pid ∈ g_Peers g) ↔ inside).
  { split; [by intros (? & ? & [= -> ->] & ?)|]. intros ?. by exists rule, rs. }
  setoid_rewrite Hx. clear Hx. set (tin := match _ with Some i => bool_decide (i = pid) | None => _ end).
  assert (Hin : tin = true ↔ inside).
  { unfold tin, inside. destruct (is_peer_resource _); [by rewrite bool_decide_eq_true|]. rewrite existsb_exists. setoid_rewrite <- list_elem_of_In. unfold GetGroup. split.
    - intros (i & Hi' & H). destruct (Groups a !! i) as [g|] eqn:Eg; [|done]. apply bool_decide_eq_true in H. by exists i, g.
    - intros (i & g & Hi' & Eg & H). exists i. split; [done|]. rewrite Eg. by apply bool_decide_eq_true. }
  assert (Hsrc : pid ∈ resource_sources pol → inside).
  { unfold resource_sources, inside. rewrite Er. destruct (is_peer_resource _); [by intros ->%list_elem_of_singleton|].
    intros [[]%not_elem_of_empty|?]%unique_loop_elem. done. }
  destruct tin; cbn [negb].
  2:{ exists st, false. rewrite orb_false_r. split; [done|]. split; [by apply grows_refl|]. split; [done|]. split; [intuition congruence|].
      intros i H%Hsrc%Hin. done. }
  unfold validatePostureChecksOnPeerGetFailed. rewrite Hpeer.
  destruct (first_failed a (pol_SourcePostureChecks pol) peer) as [j|] eqn:Ej; cbn [negb andb].
  - destruct (first_failed_Some _ _ _ Ej) as (_ & Hf & Hj). rewrite bool_decide_eq_true_2 by done.
    eexists _, false. rewrite orb_false_r. split; [done|]. split; [|split; [done|split]].
    + apply grows_set_failed; [done| |].
      * intros i p Hp. apply record_failed_spec. by left.
      * intros i p q [?|[-> ->]]%record_failed_spec Hq; [by left|right]. by simplify_eq.
    + split; [done|]. intros [(q & ? & _ & ?)%adm_spec _]. congruence.
    + intros i _ (q & ? & _ & ?). apply record_failed_spec. right. by simplify_eq.
  - eexists _, true. rewrite orb_true_r. split; [done|]. split; [by apply grows_add_missing_groups|]. split; [done|]. split.
    + split; [|done]. intros _. split; [apply adm_spec; by exists peer|by apply Hin].
    + intros i _ (q & ? & _ & ?). congruence.
Qed.

Lemma gathering_policies pols st l : (∀ pol, pol ∈ pols → pol_Rules pol ≠ []) → inv st →
  ∃ st', resource_policies_loop a v pid (st, true, l) pols = Ret (st', true, l || negb (bool_decide (pols = [])))
    ∧ grows st st' ∧ k_Policies st' = k_Policies st ∧ ∀ pol, pol ∈ pols → gathered pol st'.
Proof.
  revert st l. induction pols as [|pol pols IH]; intros st l Hr Hi; cbn [resource_policies_loop].
  { exists st. cbn. rewrite orb_false_r. split; [done|]. split; [by apply grows_refl|]. split; [done|]. by intros ? ?%not_elem_of_nil. }
  destruct (resource_policy_gathers pol st l) as (st1 & -> & G1 & K1 & A1); [apply Hr; by left|done|]. rewrite bind_ret_l.
  destruct (IH st1 true) as (st2 & -> & G2 & K2 & A2); [intros; apply Hr; by right|apply G1|]. exists st2. cbn. rewrite orb_true_r.
  split; [done|]. split; [by eapply grows_trans|]. split; [congruence|]. intros x [->|?]%elem_of_cons; [|by apply A2]. eapply gathered_mono; [apply G2|done].
Qed.
Lemma trying_policies pols st l : (∀ pol, pol ∈ pols → pol_Rules pol ≠ []) → inv st →
  ∃ st' b', resource_policies_loop a v pid (st, false, l) pols = Ret (st', b', l || b')
    ∧ grows st st' ∧ k_Policies st' = k_Policies st ∧ (b' = true ↔ ∃ pol, pol ∈ pols ∧ admits pol) ∧ ∀ pol, pol ∈ pols → seen pol pid st'.
Proof.
  revert st l. induction pols as [|pol pols IH]; intros st l Hr Hi; cbn [resource_policies_loop].
  { exists st, false. rewrite orb_false_r. split; [done|]. split; [by apply grows_refl|]. split; [done|]. split; [|by intros ? ?%not_elem_of_nil].
    split; [done|]. by intros (? & ?%not_elem_of_nil & _). }
  assert (Hr' : ∀ pol, pol ∈ pols → pol_Rules pol ≠ []) by (intros; apply Hr; by right).
  destruct (resource_policy_tries pol st l) as (st1 & b1 & -> & G1 & K1 & A1 & S1); [apply Hr; by left|done|]. rewrite bind_ret_l. setoid_rewrite exists_in_cons. setoid_rewrite <- A1.
  destruct b1.
  - destruct (gathering_policies pols st1 (l || true) Hr' (proj1 G1)) as (st2 & -> & G2 & K2 & A2). exists st2, true. rewrite orb_true_r. cbn.
    split; [done|]. split; [by eapply grows_trans|]. split; [congruence|]. split; [intuition|].
    intros x [->|?]%elem_of_cons; [eapply seen_mono; [apply G2|done]|by apply A2].
  - rewrite orb_false_r. destruct (IH st1 l Hr' (proj1 G1)) as (st2 & b2 & -> & G2 & K2 & A2 & S2). exists st2, b2.
    split; [done|]. split; [by eapply grows_trans|]. split; [congruence|]. split; [rewrite A2; intuition congruence|].
    intros x [->|?]%elem_of_cons; [eapply seen_mono; [apply G2|done]|by apply S2].
Qed.

(** The resources the target routes or may use, and what has been collected for one of them. *)
Local Abbreviation policies_of r := (default [] (resourcePolicies !! nr_ID r)).
Local Abbreviation routers_of r := (default ∅ (routers !! nr_NetworkID r)).
Definition wanted (r : NetworkResource) : Prop := is_Some (routers_of r !! pid) ∨ ∃ pol, pol ∈ policies_of r ∧ admits pol.
Record resource_ok (r : NetworkResource) (st : collected) (rpm : gmap string (list Policy)) : Prop := {
  ro_policies : wanted r → policies_of r ≠ [] → is_Some (rpm !! nr_ID r);
  ro_gathered : is_Some (routers_of r !! pid) → ∀ pol, pol ∈ policies_of r → gathered pol st;
  ro_seen : ∀ pol, pol ∈ policies_of r → seen pol pid st;
  ro_routers : ∀ q, is_Some (routers_of r !! q) → is_Some (Peers a !! q) → q ∈ v → is_Some (k_Peers st !! q) }.
Lemma resource_ok_mono r st rpm st' rpm' : le st st' → (∀ i, is_Some (rpm !! i) → is_Some (rpm' !! i)) → resource_ok r st rpm → resource_ok r st' rpm'.
Proof.
  intros L Hm [R1 R2 R3 R4]. split; [auto|intros; by eapply gathered_mono, R2|intros; by eapply seen_mono, R3|].
  intros q H1 H2 H3. by apply (le_peers _ _ L), R4.
Qed.

Lemma collect_resource_spec r st rpm nrs : inv st →
  ∃ st' rpm' nrs', collect_resource a v resourcePolicies routers pid (st, rpm, nrs) r = Ret (st', rpm', nrs')
    ∧ grows st st' ∧ k_Policies st' = k_Policies st ∧ (∀ i, is_Some (rpm !! i) → is_Some (rpm' !! i))
    ∧ (∀ i pols, rpm' !! i = Some pols → rpm !! i = Some pols ∨ resourcePolicies !! i = Some pols)
    ∧ (∀ x, x ∈ nrs' ↔ x ∈ nrs ∨ x = r ∧ has_policies resourcePolicies r = true ∧ wanted r)
    ∧ (has_policies resourcePolicies r = true → resource_ok r st' rpm').
Proof.
  intros Hi. unfold collect_resource, has_policies.
  assert (Hno : ∀ b : bool, b = false → ∃ st' rpm' nrs', @Ret unit _ (st, rpm, nrs) = Ret (st', rpm', nrs')
    ∧ grows st st' ∧ k_Policies st' = k_Policies st ∧ (∀ i, is_Some (rpm !! i) → is_Some (rpm' !! i))
    ∧ (∀ i pols, rpm' !! i = Some pols → rpm !! i = Some pols ∨ resourcePolicies !! i = Some pols)
    ∧ (∀ x, x ∈ nrs' ↔ x ∈ nrs ∨ x = r ∧ b = true ∧ wanted r) ∧ (b = true → resource_ok r st' rpm')).
  { intros b ->. exists st, rpm, nrs. split; [done|]. split; [by apply grows_refl|]. split; [done|]. split; [done|]. split; [by left|]. split; [|done].
    intros x. split; [by left|]. by intros [?|(_ & ? & _)]. }
  destruct (nr_Enabled r) eqn:En; cbn [negb andb]; [|by apply Hno]. destruct (resourcePolicies !! nr_ID r) as [pols|] eqn:E.
  2:{ apply Hno. apply bool_decide_eq_false. by intros [? ?]. }
  rewrite (bool_decide_eq_true_2 (is_Some (Some pols))) by eauto. clear Hno.
  assert (Hpols : ∀ pol, pol ∈ pols → pol_Rules pol ≠ []) by (intros pol; by eapply Hrules).
  assert (Hrp : ∀ st', inv st' → grows st' (add_missing_peers a (filter (λ p, is_Some (Peers a !! p) ∧ p ∈ v) (elements (dom (routers_of r) : gset string))) st')).
  { intros st' ?. apply grows_add_missing_peers; [done|]. by intros i [[_ ?] _]%list_elem_of_filter _. }
  assert (Hthere : ∀ st' q, is_Some (routers_of r !! q) → is_Some (Peers a !! q) → q ∈ v →
    is_Some (k_Peers (add_missing_peers a (filter (λ p, is_Some (Peers a !! p) ∧ p ∈ v) (elements (dom (routers_of r) : gset string))) st') !! q)).
  { intros st' q H1 H2 H3. apply missing_peers_there, list_elem_of_filter. split; [done|]. by apply elem_of_elements, elem_of_dom. }
  assert (Hrpm : ∀ b : bool, (∀ i, is_Some (rpm !! i) → is_Some ((if b then <[nr_ID r := pols]> rpm else rpm) !! i))
    ∧ (∀ i pols', (if b then <[nr_ID r := pols]> rpm else rpm) !! i = Some pols' → rpm !! i = Some pols' ∨ resourcePolicies !! i = Some pols')).
  { intros []; [|by split; [|left]]. split; intros i.
    - destruct (decide (i = nr_ID r)) as [->|]; [rewrite lookup_insert_eq; by eauto|by rewrite lookup_insert_ne].
    - intros pols' [[<- <-]|[_ ?]]%lookup_insert_Some; [by right|by left]. }
  assert (Hnrs : ∀ b : bool, (b = true ↔ wanted r) → ∀ x, x ∈ (if b then nrs ++ [r] else nrs) ↔ x ∈ nrs ∨ x = r ∧ true = true ∧ wanted r).
  { intros [] Hb x; rewrite ?elem_of_app, ?list_elem_of_singleton; intuition congruence. }
  unfold wanted. destruct (decide (pid ∈ (dom (routers_of r) : gset string))) as [Hd|Hd].
  - rewrite bool_decide_eq_true_2 by done. destruct (gathering_policies pols st false Hpols Hi) as (st1 & -> & G1 & K1 & A1). rewrite bind_ret_l.
    apply elem_of_dom in Hd. eexists _, _, _. split; [done|]. split; [eapply grows_trans; [exact G1|apply Hrp]|]. split; [done|]. split; [apply (Hrpm (false || _))|]. split; [apply (Hrpm (false || _))|].
    split; [apply (Hnrs true); unfold wanted; by split; [left|]|]. intros _. split.
    + intros _. rewrite E. cbn. intros Hne. rewrite bool_decide_eq_false_2 by done. cbn. rewrite lookup_insert_eq. by eauto.
    + intros _ pol. rewrite E. cbn. intros Hp. by eapply gathered_mono; [apply Hrp, G1|apply A1].
    + intros pol. rewrite E. cbn. intros Hp. eapply seen_mono; [apply Hrp, G1|by apply A1].
    + apply Hthere.
  - rewrite bool_decide_eq_false_2 by done. destruct (trying_policies pols st false Hpols Hi) as (st1 & b1 & -> & G1 & K1 & A1 & S1). rewrite bind_ret_l.
    rewrite elem_of_dom in Hd. assert (Hw : b1 = true ↔ wanted r) by (unfold wanted; rewrite E; cbn; rewrite A1; intuition).
    eexists _, _, _. split; [done|]. split; [eapply grows_trans; [exact G1|apply Hrp]|]. split; [done|]. split; [apply (Hrpm (false || _))|]. split; [apply (Hrpm (false || _))|].
    split; [apply (Hnrs b1 Hw)|]. intros _. split.
    + intros ->%Hw _. cbn. rewrite lookup_insert_eq. by eauto.
    + done.
    + intros pol. rewrite E. cbn. intros Hp. eapply seen_mono; [apply Hrp, G1|by apply S1].
    + apply Hthere.
Qed.

Lemma collect_resources_spec rs st rpm nrs : inv st →
  ∃ st' rpm' nrs', collect_resources a v resourcePolicies routers pid (st, rpm, nrs) rs = Ret (st', rpm', nrs')
    ∧ grows st st' ∧ k_Policies st' = k_Policies st ∧ (∀ i, is_Some (rpm !! i) → is_Some (rpm' !! i))
    ∧ (∀ i pols, rpm' !! i = Some pols → rpm !! i = Some pols ∨ resourcePolicies !! i = Some pols)
    ∧ (∀ x, x ∈ nrs' ↔ x ∈ nrs ∨ x ∈ rs ∧ has_policies resourcePolicies x = true ∧ wanted x)
    ∧ (∀ r, r ∈ rs → has_policies resourcePolicies r = true → resource_ok r st' rpm').
Proof.
  revert st rpm nrs. induction rs as [|r rs IH]; intros st rpm nrs Hi; cbn [collect_resources].
  { exists st, rpm, nrs. split; [done|]. split; [by apply grows_refl|]. split; [done|]. split; [done|]. split; [by left|]. split; [|by intros ? ?%not_elem_of_nil].
    intros x. split; [by left|]. by intros [?|[?%not_elem_of_nil _]]. }
  destruct (collect_resource_spec r st rpm nrs Hi) as (st1 & rpm1 & nrs1 & -> & G1 & K1 & M1 & P1 & N1 & R1). rewrite bind_ret_l.
  destruct (IH st1 rpm1 nrs1 (proj1 G1)) as (st2 & rpm2 & nrs2 & -> & G2 & K2 & M2 & P2 & N2 & R2). exists st2, rpm2, nrs2.
  split; [done|]. split; [by eapply grows_trans|]. split; [congruence|]. split; [auto|]. split; [|split].
  - intros i pols [[?|?]%P1|?]%P2; auto.
  - intros x. rewrite N2, N1, elem_of_cons. split; [intros [[?|(-> & ? & ?)]|?]|intros [?|([->|?] & ? & ?)]]; tauto.
  - intros x [->|Hx]%elem_of_cons Hp; [|by apply R2]. eapply resource_ok_mono; [apply G2|done|by apply R1].
Qed.

(** ** Evaluation on the components *)
(** The group All has every peer that is in some group. *)
Context (Hall : ∀ i g j g' p, Groups a !! i = Some g → IsGroupAll g = true → Groups a !! j = Some g' →
  p ∈ g_Peers g' → p ∈ g_Peers g).

Section eval.
Context (users : gmap string (list string)) (st : collected) (rpm : gmap string (list Policy)) (nrs : list NetworkResource).
Context (Hinv : inv st).
Context (Hmine : ∀ i g, Groups a !! i = Some g → pid ∈ g_Peers g → is_Some (k_Groups st !! i)).

Definition comp : NetworkMapComponents := {|
  c_PeerID := pid;
  c_Peers := k_Peers st;
  c_Groups := omap (λ o, o ≫= filter_group (k_Peers st)) (k_Groups st);
  c_Policies := k_Policies st;
  c_GroupIDToUserIDs := filterGroupIDToUserIDs users (k_neededGroupIDs st);
  c_AllowedUserIDs := if k_needAllowedUserIDs st then Some (getAllowedUserIDs a) else None;
  c_PostureFailedPeers := filterPostureFailedPeers (k_failed st) (k_Policies st) rpm (k_Peers st);
  c_Routes := routes; c_ResourcePoliciesMap := rpm; c_RoutersMap := collect_routers resources resourcePolicies routers;
  c_NetworkResources := nrs; c_RouterPeers := collect_router_peers a resources resourcePolicies routers |}.

Lemma comp_peer p : GetPeerInfo comp p = if decide (is_Some (k_Peers st !! p)) then Peers a !! p else None.
Proof.
  unfold GetPeerInfo. simpl. destruct (k_Peers st !! p) as [o|] eqn:E; simpl.
  - by destruct (inv_peers st Hinv p o E) as [-> _].
  - done.
Qed.

Lemma comp_group i g : c_Groups comp !! i = Some g →
  ∃ g0, Groups a !! i = Some g0 ∧ g_Name g = g_Name g0
    ∧ ∀ p, p ∈ g_Peers g ↔ p ∈ g_Peers g0 ∧ is_Some (k_Peers st !! p).
Proof.
  simpl. rewrite lookup_omap. destruct (k_Groups st !! i) as [o|] eqn:E; [|done]. simpl.
  destruct (inv_groups st Hinv i o E) as [Ho [g0 Hg0]]. subst o. rewrite Hg0. simpl. unfold filter_group.
  case_bool_decide; [done|]. intros [= <-]. exists g0. split_and!; [done..|]. intros p. simpl.
  rewrite list_elem_of_filter. tauto.
Qed.

Lemma comp_group_present i g0 p : Groups a !! i = Some g0 → is_Some (k_Groups st !! i) → p ∈ g_Peers g0 →
  is_Some (k_Peers st !! p) → is_Some (c_Groups comp !! i).
Proof.
  intros Hg [o Ho] Hin Hp. simpl. rewrite lookup_omap, Ho. simpl.
  destruct (inv_groups st Hinv i o Ho) as [-> _]. rewrite Hg. simpl. unfold filter_group.
  rewrite bool_decide_eq_false_2; [by eauto|]. intros Hnil.
  assert (Hx : p ∈ filter (λ p, is_Some (k_Peers st !! p)) (g_Peers g0)) by (by apply list_elem_of_filter).
  rewrite Hnil in Hx. by apply not_elem_of_nil in Hx.
Qed.

(** A peer of no group is not found. *)
Lemma comp_unique_none p single groups acc : (∀ i g, Groups a !! i = Some g → p ∉ g_Peers g) → p ∉ acc →
  p ∉ c_unique_loop comp single groups acc.
Proof.
  intros Hno. revert acc. induction groups as [|i groups IH]; intros acc Hacc; cbn [c_unique_loop].
  { by rewrite elem_of_elements. }
  unfold GetGroupInfo. destruct (c_Groups comp !! i) as [g|] eqn:E; [|by apply IH].
  destruct (comp_group i g E) as (g0 & Hg0 & _ & Hp).
  assert (Hn : p ∉ g_Peers g) by (intros [? _]%Hp; by eapply Hno).
  destruct (IsGroupAll g || single); [done|]. apply IH. rewrite elem_of_union, elem_of_list_to_set. tauto.
Qed.

Lemma comp_unique_known p single groups acc : (p ∈ acc → is_Some (k_Peers st !! p)) →
  p ∈ c_unique_loop comp single groups acc → is_Some (k_Peers st !! p).
Proof.
  revert acc. induction groups as [|i groups IH]; intros acc Hacc; cbn [c_unique_loop].
  { rewrite elem_of_elements. done. }
  unfold GetGroupInfo. destruct (c_Groups comp !! i) as [g|] eqn:E; [|by apply IH].
  destruct (comp_group i g E) as (g0 & Hg0 & _ & Hp).
  destruct (IsGroupAll g || single); [intros Hin; by apply Hp|]. apply IH.
  rewrite elem_of_union, elem_of_list_to_set, Hp. tauto.
Qed.

(** All groups that hold [p] were collected. *)
Definition covered (groups : list string) (p : string) : Prop :=
  ∀ i g, i ∈ groups → Groups a !! i = Some g → p ∈ g_Peers g → is_Some (k_Groups st !! i).

Lemma comp_unique_loop p single groups acc acc' : is_Some (k_Peers st !! p) → covered groups p →
  (p ∈ acc' ↔ p ∈ acc) → (p ∈ acc → ∃ i g, Groups a !! i = Some g ∧ p ∈ g_Peers g) →
  (single = true → p ∉ acc ∧ length groups ≤ 1)%nat →
  p ∈ c_unique_loop comp single groups acc' ↔ p ∈ unique_loop a single groups acc.
Proof.
  intros Hk. revert acc acc'. induction groups as [|i groups IH]; intros acc acc' Hcov Hacc Hsome Hsing;
    cbn [c_unique_loop unique_loop]; [by rewrite !elem_of_elements|].
  assert (Hcov' : covered groups p) by (intros j g ?; apply Hcov; by right).
  unfold GetGroupInfo, GetGroup. destruct (c_Groups comp !! i) as [g|] eqn:E.
  - destruct (comp_group i g E) as (g0 & Hg0 & Hn & Hp). unfold IsGroupAll. rewrite Hg0, Hn.
    destruct (bool_decide (g_Name g0 = "All") || single) eqn:Ea; [rewrite Hp; tauto|].
    apply orb_false_iff in Ea as [_ ->]. apply IH; [done| | |done].
    + rewrite !elem_of_union, !elem_of_list_to_set, Hp. tauto.
    + rewrite elem_of_union, elem_of_list_to_set. intros [?|?]; eauto.
  - destruct (Groups a !! i) as [g0|] eqn:Eg.
    2:{ apply IH; [done..|]. intros Hs. destruct (Hsing Hs) as [? Hl]. simpl in Hl. split; [done|lia]. }
    assert (Hn : p ∉ g_Peers g0).
    { intros Hin. assert (is_Some (k_Groups st !! i)) by (apply (Hcov i g0); [left|done..]).
      destruct (comp_group_present i g0 p) as [? Hx]; [done..|]. congruence. }
    destruct (IsGroupAll g0) eqn:Eall; simpl.
    + split; [|done]. intros Hin. exfalso. revert Hin. apply comp_unique_none.
      * intros j g' Hj Hin. by apply Hn, (Hall i g0 j g').
      * rewrite Hacc. intros (j & g' & Hj & Hin)%Hsome. by apply Hn, (Hall i g0 j g').
    + destruct single.
      * destruct (Hsing eq_refl) as [Hna Hl]. destruct groups; [|simpl in Hl; lia]. simpl.
        rewrite elem_of_elements, Hacc. tauto.
      * apply IH; [done| | |done]; rewrite ?elem_of_union, ?elem_of_list_to_set; [tauto|]. intros [?|?]; [auto|done].
Qed.

Lemma comp_unique p groups : is_Some (k_Peers st !! p) → covered groups p →
  p ∈ c_getUniquePeerIDsFromGroupsIDs comp groups ↔ p ∈ getUniquePeerIDsFromGroupsIDs a groups.
Proof using Hinv Hall.
  intros Hk Hcov. apply comp_unique_loop; [done..|by intros ?%not_elem_of_empty|].
  intros Hl%bool_decide_eq_true. split; [apply not_elem_of_empty|by rewrite Hl].
Qed.

Lemma comp_failed_sound i p : in_failed (c_PostureFailedPeers comp) i p → in_failed (k_failed st) i p.
Proof.
  unfold in_failed. simpl. unfold filterPostureFailedPeers. intros (s & Hs & Hp).
  rewrite lookup_omap in Hs. destruct (filter _ (k_failed st) !! i) as [s0|] eqn:E; [|done]. simpl in Hs.
  case_bool_decide; [done|]. simplify_eq. apply map_lookup_filter_Some in E as [E _].
  exists s0. split; [done|]. by apply elem_of_filter in Hp as [_ ?].
Qed.

Lemma comp_failed_complete pol i p : pol ∈ k_Policies st ∨ (∃ k pols, rpm !! k = Some pols ∧ pol ∈ pols) → i ∈ pol_SourcePostureChecks pol →
  is_Some (k_Peers st !! p) → in_failed (k_failed st) i p → in_failed (c_PostureFailedPeers comp) i p.
Proof using Type.
  intros Hpol Hi Hp (s & Hs & Hin). unfold in_failed. simpl. unfold filterPostureFailedPeers.
  assert (Hk : p ∈ filter (λ p, is_Some (k_Peers st !! p)) s) by (by apply elem_of_filter).
  eexists. split; [|exact Hk]. rewrite lookup_omap, (map_lookup_filter_Some_2 _ _ i s).
  - simpl. rewrite bool_decide_eq_false_2; [done|]. intros He. rewrite He in Hk. by apply not_elem_of_empty in Hk.
  - done.
  - simpl. apply elem_of_list_to_set, list_elem_of_join. exists (pol_SourcePostureChecks pol). split; [done|].
    apply list_elem_of_fmap. exists pol. split; [done|]. apply elem_of_app. destruct Hpol as [?|(k & pols & Hk' & ?)]; [by left|right].
    apply list_elem_of_join. exists pols. split; [done|]. apply list_elem_of_fmap. exists (k, pols). split; [done|]. by apply elem_of_map_to_list.
Qed.

(** The failures of the peer among [groups] were recorded. *)
Definition recorded (checks groups : list string) (p : string) : Prop :=
  ∀ i, p ∈ getUniquePeerIDsFromGroupsIDs a groups → rejects checks p i → in_failed (c_PostureFailedPeers comp) i p.

Lemma comp_validate_failed checks p q : Peers a !! p = Some q → p ∈ v → is_Some (k_Peers st !! p) →
  (∀ i, rejects checks p i → in_failed (c_PostureFailedPeers comp) i p) →
  ValidatePostureChecksOnPeer comp p checks = true ↔ first_failed a checks q = None.
Proof.
  intros Hq Hv [o Ho] Hrec. unfold ValidatePostureChecksOnPeer. cbn [comp c_Peers]. rewrite Ho.
  rewrite forallb_forall. split.
  - intros Hok. destruct (first_failed a checks q) as [i|] eqn:E; [|done]. exfalso.
    destruct (first_failed_Some _ _ _ E) as (Hi & _ & _).
    destruct (Hrec i) as (s & Hs & Hp); [by exists q|].
    specialize (Hok i). rewrite Hs in Hok. apply list_elem_of_In in Hi. by apply Hok, bool_decide_eq_true in Hi.
  - intros Hnone i Hi. destruct (c_PostureFailedPeers comp !! i) as [s|] eqn:Es; [|done].
    apply bool_decide_eq_true. intros Hp.
    assert (Hf : fails q i) by (eapply (inv_failed st Hinv); [apply comp_failed_sound; by exists s|done]).
    apply (first_failed_None _ _ _ Hq) in Hnone.
    by rewrite (fails_invalid checks p q i) in Hnone by (done || by apply list_elem_of_In).
Qed.
Lemma comp_validate checks groups p q : Peers a !! p = Some q → p ∈ v → is_Some (k_Peers st !! p) →
  p ∈ getUniquePeerIDsFromGroupsIDs a groups → recorded checks groups p →
  ValidatePostureChecksOnPeer comp p checks = true ↔ first_failed a checks q = None.
Proof. intros Hq Hv Hk Hin Hrec. apply comp_validate_failed; [done..|]. intros i. by apply Hrec. Qed.

(** The ids [c_getAllPeersFromGroups] works on. *)
Definition comp_ids (checks groups : list string) : list string :=
  filter (λ p, is_Some (GetPeerInfo comp p) ∧ ValidatePostureChecksOnPeer comp p checks = true)
    (c_getUniquePeerIDsFromGroupsIDs comp groups).

Lemma comp_ids_known checks groups p : p ∈ comp_ids checks groups → is_Some (k_Peers st !! p).
Proof. intros [_ Hin]%list_elem_of_filter. revert Hin. apply comp_unique_known. set_solver. Qed.

Lemma comp_ids_spec checks groups p : is_Some (k_Peers st !! p) → covered groups p → recorded checks groups p →
  p ∈ comp_ids checks groups ↔ in_groups a v checks groups p.
Proof.
  intros Hk Hcov Hrec. unfold comp_ids, in_groups.
  change (is_Some (admitted a v checks p)) with (adm checks p).
  rewrite list_elem_of_filter, (comp_unique p groups Hk Hcov), comp_peer, decide_True, adm_spec by done.
  split.
  - intros [[[q Hq] Hok] Hin]. split; [done|]. exists q. destruct Hk as [o Ho].
    destruct (inv_peers st Hinv p o Ho) as [-> Hv]. specialize (Hv (mk_is_Some _ _ Hq)).
    split_and!; [done..|]. by apply (comp_validate checks groups p q).
  - intros (Hin & q & Hq & Hv & Hf). split_and!; [by rewrite Hq| |done]. by apply (comp_validate checks groups p q).
Qed.

Lemma comp_groups_spec checks groups :
  covered groups pid → recorded checks groups pid →
  ((c_getAllPeersFromGroups comp groups pid checks).2 = true ↔ in_groups a v checks groups pid)
  ∧ ((∀ p, covered groups p) → (∀ p, is_Some (k_Peers st !! p) → recorded checks groups p) →
     (∀ q, in_groups a v checks groups q → is_Some (k_Peers st !! q)) →
     ∀ q, q ∈ (c_getAllPeersFromGroups comp groups pid checks).1
       ↔ Peers a !! ID q = Some q ∧ in_groups a v checks groups (ID q) ∧ ID q ≠ pid).
Proof.
  intros Hc Hr. unfold c_getAllPeersFromGroups. fold (comp_ids checks groups). cbn [fst snd]. split.
  - rewrite bool_decide_eq_true. apply comp_ids_spec; [apply Hinv|done..].
  - intros Hcov Hrec Hknown q. rewrite list_elem_of_omap. split.
    + intros (p & [Hne Hp]%list_elem_of_filter & Hq). pose proof (comp_ids_known _ _ _ Hp) as Hk.
      rewrite comp_peer, decide_True in Hq by done. pose proof (Hwf p q Hq) as Hid. simpl in Hid. rewrite Hid.
      split_and!; [done| |done]. apply comp_ids_spec; auto.
    + intros (Hq & Hin & Hne). exists (ID q). pose proof (Hknown _ Hin) as Hk.
      rewrite comp_peer, decide_True by done. split; [|done]. apply list_elem_of_filter. split; [done|].
      apply comp_ids_spec; auto.
Qed.

Lemma comp_resource_spec r :
  ((c_getPeerFromResource comp r pid).2 = true ↔ names_peer a r pid)
  ∧ ((∀ q, names_peer a r q → is_Some (k_Peers st !! q)) →
     ∀ q, q ∈ (c_getPeerFromResource comp r pid).1
       ↔ Peers a !! ID q = Some q ∧ names_peer a r (ID q) ∧ ID q ≠ pid).
Proof.
  unfold c_getPeerFromResource, names_peer. case_bool_decide as Hr.
  - cbn [fst snd]. split; [split; [intros _; by eauto|done]|]. intros _ q. split; [set_solver|].
    intros (_ & [? _] & ?). congruence.
  - rewrite comp_peer. split.
    + assert (Hf : (match (if decide (is_Some (k_Peers st !! res_ID r)) then Peers a !! res_ID r else None)
        with Some p => ([p], false) | None => ([], false) end).2 = false) by (by repeat case_match).
      rewrite Hf. split; [done|]. intros [? _]. congruence.
    + intros Hk q. split.
      * intros Hin. destruct (decide _) as [Hs|]; [|set_solver].
        destruct (Peers a !! res_ID r) as [p|] eqn:E; [|set_solver]. apply list_elem_of_singleton in Hin. subst q.
        pose proof (Hwf _ _ E) as Hid. simpl in Hid. rewrite Hid. split_and!; [done|done|by eauto|done].
      * intros (Hq & [Hid Hsome] & Hne). rewrite <-Hid, decide_True, Hq by (apply Hk; by split). set_solver.
Qed.

Lemma covered_target groups : covered groups pid.
Proof. intros i g _. apply Hmine. Qed.

Lemma recorded_none groups p : recorded [] groups p.
Proof. intros i _ (q & _ & _ & [=]). Qed.

Section rule.
Context (pol : Policy) (rule : PolicyRule) (Hpol : pol ∈ k_Policies st) (Hct : contrib pol rule st).

Lemma recorded_sources p : is_peer_resource (r_SourceResource rule) = false → is_Some (k_Peers st !! p) →
  recorded (pol_SourcePostureChecks pol) (r_Sources rule) p.
Proof.
  intros Hr Hk i Hin Hrej. apply (comp_failed_complete pol); [by left| |done|by apply (ct_failed _ _ _ Hct)].
  destruct Hrej as (q & _ & _ & Hf). by apply first_failed_Some in Hf as (? & _).
Qed.

Lemma comp_sources :
  ((lk_sources (c_lookups comp) pol rule).2 = true ↔ source pol rule pid)
  ∧ (destination rule pid → ∀ q, q ∈ (lk_sources (c_lookups comp) pol rule).1
      ↔ Peers a !! ID q = Some q ∧ source pol rule (ID q) ∧ ID q ≠ pid).
Proof.
  pose proof (ct_src _ _ _ Hct) as Hsrc. unfold is_source in *. cbn [c_lookups lk_sources comp c_PeerID].
  destruct (is_peer_resource (r_SourceResource rule)) eqn:E.
  - destruct (comp_resource_spec (r_SourceResource rule)) as [H1 H2]. split; [exact H1|]. intros Hd. by apply H2, Hsrc.
  - destruct (comp_groups_spec (pol_SourcePostureChecks pol) (r_Sources rule)) as [H1 H2];
      [apply covered_target|apply recorded_sources; [done|apply Hinv]|].
    split; [exact H1|]. intros Hd. apply H2; [|intros p; by apply recorded_sources|by apply Hsrc].
    intros p i g Hi _ _. by apply (ct_src_groups _ _ _ Hct).
Qed.

Lemma comp_destinations :
  ((lk_destinations (c_lookups comp) rule).2 = true ↔ destination rule pid)
  ∧ (source pol rule pid → ∀ q, q ∈ (lk_destinations (c_lookups comp) rule).1
      ↔ Peers a !! ID q = Some q ∧ destination rule (ID q) ∧ ID q ≠ pid).
Proof.
  pose proof (ct_dst _ _ _ Hct) as Hdst. unfold is_destination in *. cbn [c_lookups lk_destinations comp c_PeerID].
  destruct (is_peer_resource (r_DestinationResource rule)) eqn:E.
  - destruct (comp_resource_spec (r_DestinationResource rule)) as [H1 H2]. split; [exact H1|]. intros Hd. by apply H2, Hdst.
  - destruct (comp_groups_spec [] (r_Destinations rule)) as [H1 H2]; [apply covered_target|apply recorded_none|].
    split; [exact H1|]. intros Hd. apply H2; [|intros; apply recorded_none|by apply Hdst].
    intros p i g Hi _ _. by apply (ct_dst_groups _ _ _ Hct).
Qed.
End rule.

(** ** The two computations agree *)
Context (Hcon : ∀ pol rule, (pol, rule) ∈ enabled → contrib pol rule st).
Context (Hskip : skips (Policies a) (k_Policies st)).

Lemma comp_rule_calls pol rule r q d : pol ∈ k_Policies st → contrib pol rule st →
  (r, q, d) ∈ rule_calls (c_lookups comp) pol rule
  ↔ r = rule ∧ Peers a !! ID q = Some q ∧ ID q ≠ pid ∧ remote a v pol rule pid (ID q) d.
Proof.
  intros Hpol Hct. destruct (comp_sources pol rule Hpol Hct) as [S1 S2].
  destruct (comp_destinations pol rule Hct) as [D1 D2].
  unfold rule_calls, remote. cbv zeta. rewrite !elem_of_app, !(mk_calls a Hwf), !andb_true_iff. cbn [fst snd].
  rewrite S1, D1. clear S1 D1. specialize (λ H, S2 H q). specialize (λ H, D2 H q).
  tauto.
Qed.

Lemma skips_in l l' : skips l l' →
  (∀ pol, pol ∈ l' → pol ∈ l) ∧ (∀ pol, pol ∈ l → pol ∈ l' ∨ idle pol).
Proof. induction 1 as [|pol l l' _ [IH1 IH2]|pol l l' Hidle _ [IH1 IH2]]; set_solver. Qed.

Lemma comp_all_calls c : c ∈ all_calls (c_lookups comp) (k_Policies st) ↔ c ∈ calls a v users peer.
Proof.
  destruct c as [[r q] d]. destruct (skips_in _ _ Hskip) as [Hsub Hidle].
  rewrite (all_calls_spec a v users Hwf). unfold all_calls. rewrite list_elem_of_join. split.
  - intros (l & Hin & Hl). apply list_elem_of_fmap in Hl as ([pol rule] & -> & Hen). simpl in Hin.
    apply enabled_rules_spec in Hen as (Hp & He & Hr & Hre).
    assert (Hen : (pol, rule) ∈ enabled) by (apply enabled_rules_spec; auto).
    apply comp_rule_calls in Hin as (-> & ? & ? & ?); [|done|by apply Hcon]. by exists pol.
  - intros (pol & Hen & Hq & Hne & Hrem).
    pose proof Hen as (Hp & He & Hr & Hre)%enabled_rules_spec.
    assert (Hk : pol ∈ k_Policies st).
    { destruct (Hidle pol Hp) as [?|[?|Hno]]; [done|congruence|]. destruct (Hno r Hr Hre) as [Hns Hnd].
      destruct Hrem as [(? & _)|(? & _)]; contradiction. }
    exists (rule_calls (c_lookups comp) pol r). split; [apply comp_rule_calls; auto|].
    apply list_elem_of_fmap. exists (pol, r). split; [done|]. by apply enabled_rules_spec.
Qed.

(** *** SSH *)
Definition ssh_of (s : result) : ssh_users * bool := (authorizedUsers s, sshEnabled s).

Definition ssh_step (k : lookups) (rule : PolicyRule) (x : ssh_users * bool) : ssh_users * bool :=
  if (lk_destinations k rule).2 then
    if bool_decide (r_Protocol rule = PolicyRuleProtocolNetbirdSSH)
    then (authorize (lk_allowed k) (lk_users k) rule x.1, true)
    else if policyRuleImpliesLegacySSH rule && SSHEnabled peer then (<[Wildcard := lk_allowed k]> x.1, true) else x
  else x.

Lemma apply_rule_ssh_of ver k pol s rule : r_Enabled rule = true →
  ssh_of (apply_rule ver k peer pol s rule) = ssh_step k rule (ssh_of s).
Proof.
  intros He. unfold apply_rule, ssh_step. rewrite He. cbn [negb].
  destruct (lk_sources k pol rule) as [src inS], (lk_destinations k rule) as [dst inD]. cbn [snd].
  destruct inD; cbn [andb]; [|done]. by repeat case_match.
Qed.

Lemma apply_policy_ssh_of ver k s pol :
  ssh_of (apply_policy ver k peer s pol)
  = if pol_Enabled pol
    then foldl (λ x rule, if r_Enabled rule then ssh_step k rule x else x) (ssh_of s) (pol_Rules pol) else ssh_of s.
Proof.
  unfold apply_policy. destruct (pol_Enabled pol); [|done]. cbn [negb].
  revert s. induction (pol_Rules pol) as [|rule rs IH]; intros s; [done|]. cbn [foldl]. rewrite IH.
  destruct (r_Enabled rule) eqn:E; [by rewrite apply_rule_ssh_of|]. unfold apply_rule. by rewrite E.
Qed.

Lemma grant_groups_ext (u u' : gmap string (list string)) gs m : (∀ g, g ∈ gs → u !! g.1 = u' !! g.1) →
  foldl (grant_group u) m gs = foldl (grant_group u') m gs.
Proof.
  revert m. induction gs as [|g gs IH]; intros m Hg; [done|]. cbn [foldl].
  assert (grant_group u m g = grant_group u' m g) as -> by (unfold grant_group; by rewrite Hg by left).
  apply IH. intros; apply Hg. by right.
Qed.

Lemma comp_ssh_step pol rule x : (pol, rule) ∈ enabled →
  ssh_step (c_lookups comp) rule x = ssh_step (account_lookups a v users peer) rule x.
Proof.
  intros Hen. pose proof (Hcon pol rule Hen) as Hct. unfold ssh_step. cbn [account_lookups lk_destinations lk_allowed lk_users].
  destruct (comp_destinations pol rule Hct) as [D1 _]. destruct (destinations_spec a v Hwf peer rule) as [D2 _].
  assert ((lk_destinations (c_lookups comp) rule).2 = (rule_destinations a v peer rule).2) as ->
    by (apply eq_true_iff_eq; by rewrite D1, D2).
  destruct (rule_destinations a v peer rule).2; [|done].
  assert (Hd : destination rule pid) by (by apply D2).
  assert (Hal : wants_allowed rule → lk_allowed (c_lookups comp) = getAllowedUserIDs a).
  { intros Hw. simpl. by rewrite (ct_allowed _ _ _ Hct Hd Hw). }
  unfold wants_allowed in Hal. case_bool_decide as Hp.
  - f_equal. unfold authorize. case_bool_decide as Hg.
    + apply grant_groups_ext. intros [g ls] Hin%elem_of_map_to_list. simpl. unfold filterGroupIDToUserIDs.
      assert (Hneed : g ∈ k_neededGroupIDs st).
      { apply (ct_needed _ _ _ Hct Hd Hp). apply elem_of_dom. by eauto. }
      destruct (users !! g) as [us|] eqn:E; [by apply map_lookup_filter_Some_2|].
      apply map_lookup_filter_None_2. by left.
    + case_bool_decide as Hu; [done|]. by rewrite Hal.
  - destruct (policyRuleImpliesLegacySSH rule), (SSHEnabled peer); cbn [andb]; try done. by rewrite Hal.
Qed.

Lemma idle_ssh ver pol s : pol ∈ Policies a → idle pol →
  ssh_of (apply_policy ver (account_lookups a v users peer) peer s pol) = ssh_of s.
Proof.
  intros Hp Hidle. rewrite apply_policy_ssh_of. destruct (pol_Enabled pol) eqn:E; [|done].
  destruct Hidle as [?|Hidle]; [congruence|]. revert Hidle. generalize (ssh_of s).
  induction (pol_Rules pol) as [|rule rs IH]; intros x Hidle; [done|]. cbn [foldl].
  rewrite IH by (intros; apply Hidle; [by right|done]).
  destruct (r_Enabled rule) eqn:Er; [|done]. unfold ssh_step. cbn [account_lookups lk_destinations].
  destruct (Hidle rule (list_elem_of_here _ _) Er) as [_ Hnd].
  destruct (rule_destinations a v peer rule).2 eqn:Ed; [|done].
  by apply (proj1 (destinations_spec a v Hwf peer rule)) in Ed.
Qed.

Lemma skips_ssh ver l l' s s' : skips l l' → (∀ pol, pol ∈ l → pol ∈ Policies a) → ssh_of s = ssh_of s' →
  ssh_of (foldl (apply_policy ver (account_lookups a v users peer) peer) s l)
  = ssh_of (foldl (apply_policy ver (c_lookups comp) peer) s' l').
Proof.
  intros Hs. revert s s'. induction Hs as [|pol l l' _ IH|pol l l' Hidle _ IH]; intros s s' Hin Heq; cbn [foldl]; [done| |].
  - apply IH; [intros; apply Hin; by right|]. rewrite !apply_policy_ssh_of, Heq.
    destruct (pol_Enabled pol) eqn:Ep; [|done].
    assert (Hen : ∀ rule, rule ∈ pol_Rules pol → r_Enabled rule = true → (pol, rule) ∈ enabled).
    { intros rule ? ?. apply enabled_rules_spec. split_and!; [apply Hin; left|done..]. }
    revert Hen. generalize (ssh_of s'). induction (pol_Rules pol) as [|rule rs IHr]; intros x Hen; [done|]. cbn [foldl].
    rewrite IHr by (intros; apply Hen; [by right|done]). f_equal.
    destruct (r_Enabled rule) eqn:E; [|done]. symmetry. by apply (comp_ssh_step pol), Hen; [left|].
  - apply IH; [intros; apply Hin; by right|]. rewrite <-Heq. apply idle_ssh; [apply Hin; left|done].
Qed.
End eval.

Lemma components_collected users :
  ∃ st rpm nrs, GetPeerNetworkMapComponents a routes v resources resourcePolicies routers pid users
            = Ret (Some (comp users st rpm nrs))
    ∧ inv st ∧ (∀ i g, Groups a !! i = Some g → pid ∈ g_Peers g → is_Some (k_Groups st !! i))
    ∧ (∀ pol rule, (pol, rule) ∈ enabled → contrib pol rule st) ∧ skips (Policies a) (k_Policies st)
    ∧ (∀ r i, r ∈ routes → i ∈ rt_Groups r ++ rt_PeerGroups r → is_Some (k_Groups st !! i))
    ∧ (∀ i pols, rpm !! i = Some pols → resourcePolicies !! i = Some pols)
    ∧ (∀ r, r ∈ nrs ↔ r ∈ resources ∧ has_policies resourcePolicies r = true ∧ wanted r)
    ∧ (∀ r, r ∈ resources → has_policies resourcePolicies r = true → resource_ok r st rpm).
Proof.
  destruct collect_start_inv as [I0 M0].
  destruct (collect_routes_spec routes _ (λ _ H, H) I0) as (G1 & K1 & R1).
  destruct (collect_policies_spec (routeAccessControlGroups routes) (Policies a) _ (λ _ H, H) (proj1 G1))
    as (G2 & C2 & l & K2 & S2).
  destruct (collect_resources_spec resources _ ∅ [] (proj1 G2)) as (st & rpm & nrs & Hcol & G3 & K3 & _ & P3 & N3 & O3).
  exists st, rpm, nrs. split; [|split; [|split; [|split; [|split; [|split; [|split; [|split]]]]]]].
  - unfold GetPeerNetworkMapComponents. rewrite Hpeer, bool_decide_eq_false_2 by (intros H; by apply H).
    unfold getPeersGroupsPoliciesRoutes. rewrite Hcol, bind_ret_l. unfold filterGroupPeers.
    rewrite bool_decide_eq_true_2; [done|]. intros i o Ho. by apply (inv_groups st (proj1 G3) i o).
  - apply G3.
  - intros i g Hg Hp. apply (le_groups _ _ (proj2 G3)), (le_groups _ _ (proj2 G2)), (le_groups _ _ (proj2 G1)).
    by eapply M0.
  - intros pol rule (Hp & He & Hr & Hre)%enabled_rules_spec.
    eapply contrib_mono; [apply G3|]. by apply C2.
  - by rewrite K3, K2, K1.
  - intros r i Hr Hi. apply (le_groups _ _ (proj2 G3)), (le_groups _ _ (proj2 G2)). by eapply R1.
  - intros i pols [He|?]%P3; [by rewrite lookup_empty in He|done].
  - intros r. rewrite N3. split; [by intros [?%not_elem_of_nil|?]|by right].
  - exact O3.
Qed.

(** The component-based computation is equivalent to the one on the whole account: collecting
    succeeds, and it yields the same connected peers (once each), the same firewall rules and
    the same SSH users, for every peer, account, routes and network resources that satisfy
    the stated conditions. *)
Theorem components_equivalent ver users (Hids : rule_ids_ok a) :
  ∃ c, GetPeerNetworkMapComponents a routes v resources resourcePolicies routers pid users = Ret (Some c)
    ∧ let r := getPeerConnectionResources ver c in
      let r0 := GetPeerConnectionResources ver a peer v users in
      (∀ q, q ∈ peers (res_st r) ↔ q ∈ peers (res_st r0)) ∧ NoDup (ID <$> peers (res_st r))
      ∧ (∀ fr, fr ∈ rules (res_st r) ↔ fr ∈ rules (res_st r0))
      ∧ authorizedUsers r = authorizedUsers r0 ∧ sshEnabled r = sshEnabled r0.
Proof.
  destruct (components_collected users) as (st & rpm & nrs & Hret & Hi & Hm & Hc & Hs & _).
  exists (comp users st rpm nrs). split; [exact Hret|]. cbv zeta.
  assert (Hp : GetPeerInfo (comp users st rpm nrs) pid = Some peer).
  { rewrite comp_peer by done. by rewrite decide_True by apply Hi. }
  unfold getPeerConnectionResources. cbn [comp c_PeerID c_Policies]. cbn [comp] in Hp. rewrite Hp.
  fold (comp users st rpm nrs). unfold GetPeerConnectionResources. rewrite !loop_st. fold (calls a v users peer).
  pose proof (comp_all_calls users st rpm nrs Hi Hm Hc Hs) as Hcalls.
  split_and!.
  - intros q. rewrite !gen_peers; [|apply (all_calls_peers a v users Hwf)|].
    + by setoid_rewrite Hcalls.
    + intros c c' Hx%Hcalls Hy%Hcalls. by apply (all_calls_peers a v users Hwf peer).
  - apply gen_peers_inv.
  - intros fr.
    destruct (gen_rules_inv ver peer (calls a v users peer) (call_key_inj ver a v users Hwf Hids peer)) as [-> _].
    destruct (gen_rules_inv ver peer (all_calls (c_lookups (comp users st rpm nrs)) (k_Policies st))) as [-> _].
    + intros c c' Hx%Hcalls Hy%Hcalls. by apply (call_key_inj ver a v users Hwf Hids peer).
    + by setoid_rewrite Hcalls.
  - pose proof (skips_ssh users st rpm nrs Hi Hm Hc ver _ _ no_result no_result Hs (λ _ H, H) eq_refl) as H.
    unfold ssh_of in H. injection H as H1 _. unfold connection_loop. by rewrite H1.
  - pose proof (skips_ssh users st rpm nrs Hi Hm Hc ver _ _ no_result no_result Hs (λ _ H, H) eq_refl) as H.
    unfold ssh_of in H. injection H as _ H2. unfold connection_loop. by rewrite H2.
Qed.
End adequacy.
End facts.

(** ** Dangling groups *)
Section dangling.
Context (a : Account) (routes : list Route) (v : gset string).
Context (resources : list NetworkResource) (resourcePolicies : gmap string (list Policy))
  (routers : gmap string (gmap string NetworkRouter)).

(** A nil group was collected under [i]. *)
Definition nil_group (i : string) (st : collected) : Prop := k_Groups st !! i = Some None.

Context (i : string) (Hno : Groups a !! i = None).

Lemma nil_add_groups ids st : nil_group i st ∨ i ∈ ids → nil_group i (add_groups a ids st).
Proof.
  unfold nil_group. cbn [add_groups k_Groups]. rewrite (foldl_insert_lookup (GetGroup a)). unfold GetGroup.
  rewrite Hno. case_decide; [done|]. by intros [?|?].
Qed.

Lemma nil_add_missing_groups ids st : nil_group i st → nil_group i (add_missing_groups a ids st).
Proof.
  unfold nil_group. cbn [add_missing_groups k_Groups]. intros Hi.
  by rewrite (foldl_missing_groups_lookup a ids), Hi.
Qed.

Lemma nil_collect_policy pid ssh rac st pol : nil_group i st → nil_group i (collect_policy a v pid ssh rac st pol).
Proof.
  intros Hi. unfold collect_policy. destruct (negb (pol_Enabled pol)); [done|].
  assert (Hr : ∀ rs rel, nil_group i (foldl (collect_rule a v pid ssh rac pol) (st, rel) rs).1).
  { intros rs. revert st Hi. induction rs as [|rule rs IH]; intros st Hi rel; [done|]. cbn [foldl].
    destruct (collect_rule a v pid ssh rac pol (st, rel) rule) as [st' rel'] eqn:E. apply IH.
    assert (st' = (collect_rule a v pid ssh rac pol (st, rel) rule).1) as -> by (by rewrite E). clear E.
    unfold collect_rule. destruct (negb (r_Enabled rule)); [done|].
    set (st1 := if existsb _ _ then _ else st).
    assert (H1 : nil_group i st1) by (subst st1; case_match; [by do 2 (apply nil_add_groups; left)|done]).
    destruct (k_sources a v pid pol rule (k_failed st1)) as [[src inS] f1].
    destruct (k_destinations a v pid rule f1) as [[dst inD] f2]. cbn [fst].
    assert (Hs : ∀ b ids gs st, nil_group i st → nil_group i (if b : bool then add_groups a gs (add_peers a ids st) else st)).
    { intros [] ids gs st2 H2; [|done]. apply nil_add_groups. by left. }
    assert (Hn : ∀ st, nil_group i st → nil_group i (ssh_needs ssh rule st)).
    { intros st2 H2. unfold ssh_needs. by repeat case_match. }
    pose proof (Hs inS dst (r_Destinations rule) (set_failed f2 st1) H1) as H2.
    destruct inD; [|exact H2]. apply Hn, (Hs true), H2. }
  specialize (Hr (pol_Rules pol) false). destruct (foldl _ _ _) as [st' rel]. by destruct rel.
Qed.

Lemma nil_resource_policy pid st b l pol s : nil_group i st →
  resource_policy a v pid (st, b, l) pol = Ret s → nil_group i s.1.1.
Proof.
  intros Hi. unfold resource_policy. destruct (first_source pol) as [src| |]; simpl; [|done|done].
  destruct b.
  - destruct (getPostureValidPeersSaveFailed _ _ _ _ _) as [valid f]. intros [= <-]. simpl.
    by apply nil_add_missing_groups.
  - destruct (negb _); [by intros [= <-]|]. destruct (validatePostureChecksOnPeerGetFailed _ _ _) as [ok n].
    destruct (negb ok && _); intros [= <-]; [done|]. by apply nil_add_missing_groups.
Qed.

Lemma nil_resource_policies pid pols st b l s : nil_group i st →
  resource_policies_loop a v pid (st, b, l) pols = Ret s → nil_group i s.1.1.
Proof.
  revert st b l. induction pols as [|pol pols IH]; intros st b l Hi; cbn [resource_policies_loop]; [by intros [= <-]|].
  destruct (resource_policy a v pid (st, b, l) pol) as [[[st1 b1] l1]| |] eqn:E; [|done|done].
  rewrite bind_ret_l. apply IH. by apply (nil_resource_policy _ _ _ _ _ _ Hi E).
Qed.

Lemma nil_collect_resources pid rs st rpm nrs s : nil_group i st →
  collect_resources a v resourcePolicies routers pid (st, rpm, nrs) rs = Ret s → nil_group i s.1.1.
Proof.
  revert st rpm nrs. induction rs as [|r rs IH]; intros st rpm nrs Hi; cbn [collect_resources]; [by intros [= <-]|].
  destruct (collect_resource a v resourcePolicies routers pid (st, rpm, nrs) r) as [[[st1 rpm1] nrs1]| |] eqn:E; [|done|done].
  rewrite bind_ret_l. apply IH. unfold collect_resource in E. destruct (negb _); [by simplify_eq|].
  destruct (resourcePolicies !! nr_ID r); [|by simplify_eq].
  destruct (resource_policies_loop _ _ _ _ _) as [[[st2 b2] l2]| |] eqn:E2; [|done|done].
  rewrite bind_ret_l in E. simplify_eq. exact (nil_resource_policies _ _ _ _ _ _ Hi E2).
Qed.

(** A route that refers to a group the account no longer has makes the component-based
    computation dereference a nil group: no approved peer of the account gets a network map.
    The computation on the whole account logs such groups and goes on without them. *)
Theorem dangling_route_group_panics r peer users (Hr : r ∈ routes) (Hi : i ∈ rt_Groups r ++ rt_PeerGroups r)
    (Hpeer : Peers a !! ID peer = Some peer) (Hval : ID peer ∈ v) :
  ∀ c, GetPeerNetworkMapComponents a routes v resources resourcePolicies routers (ID peer) users ≠ Ret c.
Proof.
  assert (H1 : ∀ rs st, nil_group i st ∨ r ∈ rs → nil_group i (foldl (collect_route a) st rs)).
  { intros rs. induction rs as [|r' rs IH]; intros st; [by intros [?|?%not_elem_of_nil]|]. cbn [foldl].
    rewrite elem_of_cons. intros Hor. apply IH.
    assert (Hd : nil_group i st ∨ r = r' ∨ r ∈ rs) by tauto. clear Hor.
    assert (Hroute : nil_group i st ∨ r = r' → nil_group i (collect_route a st r')).
    { intros Hx. assert (Hg : nil_group i (add_groups a (rt_PeerGroups r') (add_groups a (rt_Groups r') st))).
      { destruct Hx as [Hx|<-]; [by do 2 (apply nil_add_groups; left)|].
        apply elem_of_app in Hi as [Hi|Hi]; [apply nil_add_groups; left; apply nil_add_groups; by right|].
        apply nil_add_groups. by right. }
      unfold collect_route. destruct (rt_Enabled r'); [apply nil_add_groups; by left|done]. }
    tauto. }
  assert (H2 : ∀ ps st rac, nil_group i st →
    nil_group i (foldl (collect_policy a v (ID peer) (SSHEnabled peer) rac) st ps)).
  { intros ps. induction ps as [|pol ps IH]; intros st rac Hx; [done|]. cbn [foldl]. by apply IH, nil_collect_policy. }
  intros c. unfold GetPeerNetworkMapComponents. rewrite Hpeer, bool_decide_eq_false_2 by (intros H; by apply H).
  destruct (collect_resources _ _ _ _ _ _ _) as [[[st rpm] nrs]| |] eqn:E; [|done|done]. rewrite bind_ret_l.
  assert (Hnil : nil_group i st).
  { apply (nil_collect_resources _ _ _ _ _ _ (H2 _ _ _ (H1 _ _ (or_intror Hr))) E). }
  unfold filterGroupPeers. rewrite bool_decide_eq_false_2; [done|]. intros Hf. by destruct (Hf i None Hnil).
Qed.
End dangling.

(** ** Witnesses *)
Lemma demo_groups i g : Groups demo_account !! i = Some g →
  (i = "laptops" ∧ g_Peers g = ["alice"] ∨ i = "servers" ∧ g_Peers g = ["srv"]) ∧ IsGroupAll g = false.
Proof.
  simpl. intros [[<- <-]|[_ [<- <-]%lookup_singleton_Some]]%lookup_insert_Some; simpl; auto.
Qed.

Lemma components_equivalent_witness :
  ∃ c, GetPeerNetworkMapComponents demo_account [] demo_validated [] ∅ ∅ "srv" ∅ = Ret (Some c)
    ∧ alice ∈ peers (res_st (getPeerConnectionResources all_new c)).
Proof.
  destruct (components_equivalent demo_account demo_validated demo_wf
    ltac:(apply map_Forall_insert_2; [done|]; by apply map_Forall_singleton)
    ltac:(intros c Hc; by apply not_elem_of_nil in Hc) [] srv eq_refl ltac:(by apply elem_of_union_r, elem_of_singleton)
    ltac:(intros pol rule r H; change (enabled_rules (Policies demo_account)) with
      [(demo_policy "p1" [demo_rule], demo_rule)] in H;
      apply list_elem_of_singleton in H as [= -> ->]; by intros [-> | ->])
    ltac:(intros pol rule i H; change (enabled_rules (Policies demo_account)) with
      [(demo_policy "p1" [demo_rule], demo_rule)] in H;
      apply list_elem_of_singleton in H as [= -> ->]; simpl;
      intros [-> | ->%list_elem_of_singleton]%elem_of_cons; by eexists)
    ltac:(intros r i Hr; by apply not_elem_of_nil in Hr) [] ∅ ∅
    ltac:(intros i pols pol Hp; by rewrite lookup_empty in Hp)
    ltac:(intros i g j g' p Hg Ha; destruct (demo_groups i g Hg) as [_ Hn]; by rewrite Hn in Ha)
    all_new ∅ demo_rules_ok) as (c & Hc & Hpeers & _).
  exists c. split; [exact Hc|]. apply Hpeers. vm_compute. left.
Defined.

Definition stale_route : Route :=
  {| rt_ID := "rt"; rt_AccountID := "acc"; rt_Network := None; rt_Domains := [str "example.com"];
     rt_KeepRoute := false; rt_NetID := "web"; rt_Description := ""; rt_Peer := ""; rt_PeerID := ""; rt_PeerGroups := [];
     rt_NetworkType := DomainNetwork; rt_Masquerade := true; rt_Metric := 9999; rt_Enabled := true;
     rt_Groups := ["deleted"]; rt_AccessControlGroups := []; rt_SkipAutoApply := false |}.

Lemma dangling_route_group_panics_witness :
  GetPeerNetworkMapComponents demo_account [stale_route] demo_validated [] ∅ ∅ "srv" ∅ = Panic
  ∧ ∀ c, GetPeerNetworkMapComponents demo_account [stale_route] demo_validated [] ∅ ∅ "srv" ∅ ≠ Ret c.
Proof.
  split; [vm_compute; reflexivity|].
  exact (dangling_route_group_panics demo_account [stale_route] demo_validated [] ∅ ∅ "deleted" eq_refl stale_route srv ∅
    (list_elem_of_here _ _) (list_elem_of_here _ _) eq_refl ltac:(by apply elem_of_union_r, elem_of_singleton)).
Defined.

(** ** Unapproved peers *)
Definition one_way (i : string) (source : Resource) (sources : list string) : PolicyRule := {|
  r_ID := i; r_PolicyID := "p1"; r_Name := ""; r_Description := ""; r_Enabled := true; r_Action := "accept"; r_Destinations := ["servers"];
  r_DestinationResource := no_resource; r_Sources := sources; r_SourceResource := source;
  r_Bidirectional := false; r_Protocol := "udp"; r_Ports := []; r_PortRanges := [];
  r_AuthorizedGroups := ∅; r_AuthorizedUser := "" |}.

(** The first rule names the peer [alice], the second the group she is in. *)
Definition mixed_account : Account := {|
  Peers := Peers demo_account; Groups := Groups demo_account; Users := ∅; PostureChecks := [];
  Policies := [demo_policy "p1" [one_way "r1" {| res_ID := "alice"; res_Type := ResourceTypePeer |} [];
                                 one_way "r2" no_resource ["laptops"]]] |}.

(** The condition on named peers is needed: while [alice] waits for approval, the account-based
    computation gives the server only the rule that names her, the component-based one also
    the rule for her group. *)
Example unapproved_peer_gains_group_rules :
  PolicyID <$> conn_rules all_new mixed_account {[ "srv" ]} ∅ srv = ["r1"]
  ∧ (c ← GetPeerNetworkMapComponents mixed_account [] {[ "srv" ]} [] ∅ ∅ "srv" ∅;
     Ret (E:=unit) (match c with
                    | Some c => PolicyID <$> rules (res_st (getPeerConnectionResources all_new c))
                    | None => []
                    end)) = Ret ["r1"; "r2"].
Proof. split; vm_compute; reflexivity. Qed.
