(* ===== verification/TokenV2.v ===== *)
(** The binary relay token: [src/shared/relay/auth/hmac/v2] (token format, generator, validator).

    Byte slices are byte lists; instants are nanoseconds since the Unix epoch; the hash is
    the SHA-256 of [GoHash]. *)
From S2P Require Import Prelude RelayMessages GoText GoHash.
Open Scope Z_scope.

(** [time.Time.Unix] *)
Definition Unix (t : Z) : Z := t / Second.

(** Why a credential is refused. *)
Inductive verr :=
| InvalidType | InvalidTokenData | InsufficientLength | ShortPayload | UnsupportedAlgo
| InvalidSignature | InvalidPayload | ExpiredToken | UnmarshalFailed | NotConfigured.
#[export] Instance verr_eq_dec : EqDecision verr.
Proof. solve_decision. Defined.
Abbreviation vres := (outcome verr).

Definition AuthAlgo := byte.
Definition AuthAlgoUnknown : AuthAlgo := x00.
Definition AuthAlgoHMACSHA256 : AuthAlgo := x01.

Definition AuthAlgo_String (a : AuthAlgo) : string :=
  if decide (a = AuthAlgoHMACSHA256) then "HMAC-SHA256" else "Unknown".
Definition AuthAlgo_New (a : AuthAlgo) : option Hash :=
  if decide (a = AuthAlgoHMACSHA256) then Some sha256_New else None.
Definition AuthAlgo_Size (a : AuthAlgo) : nat :=
  if decide (a = AuthAlgoHMACSHA256) then sha256_Size else 0.

Record Token := { algo : AuthAlgo; Signature : bytes; Payload : bytes }.

Definition Marshal (t : Token) : vres bytes :=
  let size := (1 + length (Signature t) + length (Payload t))%nat in
  let buf := make size in
  buf ← put 0 (algo t) buf;
  buf ← copy_at 1 (Signature t) buf;
  copy_at (1 + length (Signature t)) (Payload t) buf.

Definition UnmarshalToken (data : bytes) : vres Token :=
  if bool_decide (length data = 0%nat) then Err InvalidTokenData
  else
    a ← index 0 data;
    let sigSize := AuthAlgo_Size a in
    if bool_decide (length data < 1 + sigSize)%nat then Err InsufficientLength
    else
      sig ← slice 1 (1 + sigSize) data;
      payload ← slice_from (1 + sigSize) data;
      Ret {| algo := a; Signature := sig; Payload := payload |}.

Record Generator := { gen_algo : Hash; algoType : AuthAlgo; secret : bytes; timeToLive : Z }.

Definition NewGenerator (a : AuthAlgo) (secret : bytes) (timeToLive : Z) : vres Generator :=
  match AuthAlgo_New a with
  | None => Err UnsupportedAlgo
  | Some f => Ret {| gen_algo := f; algoType := a; secret := secret; timeToLive := timeToLive |}
  end.

Definition GenerateToken (g : Generator) (now : Z) : Token :=
  let expirationTime := Unix (now + timeToLive g) in
  let payload := FormatInt expirationTime in
  {| algo := algoType g; Signature := hmac (gen_algo g) (secret g) payload; Payload := payload |}.

Definition minLengthUnixTimestamp : nat := 10.

(** [data] is the byte slice the interface value holds, if it holds one. *)
Definition Validate (secret : bytes) (now : Z) (data : option bytes) : vres () :=
  match data with
  | None => Err InvalidType
  | Some d =>
      token ← UnmarshalToken d;
      if bool_decide (length (Payload token) < minLengthUnixTimestamp)%nat then Err ShortPayload
      else
        match AuthAlgo_New (algo token) with
        | None => Err UnsupportedAlgo
        | Some hashFunc =>
            let expectedMAC := hmac hashFunc secret (Payload token) in
            if bool_decide (Signature token ≠ expectedMAC) then Err InvalidSignature
            else
              match ParseInt (Payload token) with
              | None => Err InvalidPayload
              | Some timestamp =>
                  if bool_decide (timestamp < Unix now) then Err ExpiredToken else Ret tt
              end
        end
  end.

(** * The token format *)
Lemma Marshal_eq t : Marshal t = Ret (algo t :: Signature t ++ Payload t).
Proof.
  destruct t as [a sig p]. unfold Marshal. cbn -[make put copy_at].
  unfold make, put. rewrite bool_decide_eq_true_2 by (rewrite length_replicate; lia).
  rewrite bind_ret_l. cbn [replicate list_insert].
  rewrite copy_at_in by (simpl; lia). rewrite bind_ret_l. simpl take. simpl drop.
  rewrite copy_at_in; simpl; rewrite ?length_app, ?length_take, ?length_drop, ?length_replicate; [|lia].
  f_equal. f_equal. rewrite !Nat.sub_0_r.
  rewrite (take_ge sig) by lia. rewrite take_app_length. f_equal.
  rewrite (drop_ge _ (length sig + length p)) by
    (rewrite length_app, length_drop, length_replicate; lia).
  rewrite app_nil_r. apply take_ge. lia.
Qed.

Lemma UnmarshalToken_app a sig p :
  length sig = AuthAlgo_Size a →
  UnmarshalToken (a :: sig ++ p) = Ret {| algo := a; Signature := sig; Payload := p |}.
Proof.
  intros Hs. unfold UnmarshalToken. cbn [length index lookup list_lookup].
  rewrite bool_decide_eq_false_2 by lia. change (index 0 (a :: sig ++ p)) with (Ret (E:=verr) a).
  rewrite bind_ret_l, <- Hs. rewrite bool_decide_eq_false_2 by (rewrite length_app; lia).
  rewrite slice_in by (simpl; rewrite ?length_app; lia). rewrite bind_ret_l.
  rewrite slice_from_in by (simpl; rewrite ?length_app; lia). rewrite bind_ret_l.
  replace (1 + length sig - 1)%nat with (length sig) by lia. cbn -[take drop].
  rewrite !skipn_cons, drop_0. by rewrite take_app_length, drop_app_length.
Qed.

Lemma UnmarshalToken_inv d t :
  UnmarshalToken d = Ret t →
  d = algo t :: Signature t ++ Payload t
  ∧ length (Signature t) = AuthAlgo_Size (algo t).
Proof.
  unfold UnmarshalToken. case_bool_decide; [done|]. destruct d as [|a d]; [done|].
  change (index 0 (a :: d)) with (Ret (E:=verr) a). rewrite bind_ret_l. case_bool_decide as Hl; [done|].
  simpl in Hl. rewrite slice_in by (simpl; lia). rewrite bind_ret_l, slice_from_in by (simpl; lia).
  rewrite bind_ret_l. replace (1 + AuthAlgo_Size a - 1)%nat with (AuthAlgo_Size a) by lia.
  rewrite !skipn_cons, drop_0. intros [= <-]. cbn -[take drop].
  rewrite take_drop, length_take. split; [done|lia].
Qed.

Lemma UnmarshalToken_total d : UnmarshalToken d ≠ Panic.
Proof.
  unfold UnmarshalToken. case_bool_decide; [done|]. destruct d as [|a d]; [done|].
  change (index 0 (a :: d)) with (Ret (E:=verr) a). rewrite bind_ret_l. case_bool_decide as Hl; [done|].
  simpl in Hl. rewrite slice_in by (simpl; lia). rewrite bind_ret_l, slice_from_in by (simpl; lia). done.
Qed.

(** * The validator *)
Lemma AuthAlgo_New_Some a h : AuthAlgo_New a = Some h → a = AuthAlgoHMACSHA256 ∧ h = sha256_New.
Proof. unfold AuthAlgo_New. case_decide; naive_solver. Qed.

(** A payload signed with the validator's own secret is only checked for its date. *)
Lemma Validate_signed key now p :
  (minLengthUnixTimestamp ≤ length p)%nat →
  Validate key now (Some (AuthAlgoHMACSHA256 :: hmac sha256_New key p ++ p))
  = match ParseInt p with
    | Some ts => if bool_decide (ts < Unix now) then Err ExpiredToken else Ret tt
    | None => Err InvalidPayload
    end.
Proof.
  intros Hl. unfold Validate.
  rewrite UnmarshalToken_app by (by rewrite hmac_length by apply sha256_wf).
  rewrite bind_ret_l. cbn [Payload algo Signature].
  rewrite bool_decide_eq_false_2 by lia.
  change (AuthAlgo_New AuthAlgoHMACSHA256) with (Some sha256_New). cbv beta iota zeta.
  by rewrite bool_decide_eq_false_2 by (by intros []).
Qed.

(** C34: The relay accepts exactly the byte strings that consist of the algorithm byte, the
    HMAC-SHA256 of a payload under its own secret, and that payload, when the payload is a
    decimal Unix time of at least ten characters that is not in the past.  No input makes the
    validator panic. *)
Theorem validator_spec key now d :
  Validate key now (Some d) ≠ Panic
  ∧ (Validate key now (Some d) = Ret tt ↔
     ∃ payload ts,
       d = AuthAlgoHMACSHA256 :: hmac sha256_New key payload ++ payload
       ∧ (minLengthUnixTimestamp ≤ length payload)%nat
       ∧ ParseInt payload = Some ts ∧ Unix now ≤ ts).
Proof.
  split.
  - unfold Validate. pose proof (UnmarshalToken_total d). destruct (UnmarshalToken d); [|done..].
    rewrite bind_ret_l. go_cases.
  - split.
    + unfold Validate. destruct (UnmarshalToken d) as [t| |] eqn:Hu; [|done..].
      rewrite bind_ret_l. apply UnmarshalToken_inv in Hu as [-> _]. case_bool_decide; [done|].
      destruct (AuthAlgo_New _) as [h|] eqn:Ha; [|done]. apply AuthAlgo_New_Some in Ha as [-> ->].
      case_bool_decide as Hs; [done|].
      destruct (ParseInt _) as [ts|] eqn:Hp; [|done]. case_bool_decide; [done|]. intros _.
      exists (Payload t), ts. rewrite <- Hs. split_and!; [done|lia|done|lia].
    + intros (p & ts & -> & Hl & Hp & Ht). rewrite Validate_signed by done.
      by rewrite Hp, bool_decide_eq_false_2 by lia.
Qed.
