(* ===== verification/RelayAuth.v ===== *)
(** Relay and TURN credentials: [src/shared/relay/auth] (the textual tokens, the store and
    the validators; the binary token is in [TokenV2]), [src/management/internals/shared/grpc/token_mgr.go] and the relay part of
    [conversion.go] (issuing), [src/client/internal/engine.go] and
    [src/shared/relay/client/client.go] (keeping and presenting them), checked by the
    handshake of [RelayServer].

    Go strings and byte slices are byte lists; instants are nanoseconds since the Unix
    epoch.  The hash functions are those of [GoHash].  The [gob] decoder of the old hello
    message, the parser of STUN and TURN addresses (pion/stun) and the extension hook of the
    closed-source integrations are parameters. *)
From S2P Require Import Prelude RelayMessages RelayServer GoText GoHash TokenV2.
Open Scope Z_scope.

(** ** shared/relay/auth/hmac *)
Record Token := { Payload : bytes; Signature : bytes }.
Record TimedHMAC := { secret : bytes; timeToLive : Z }.

Definition NewTimedHMAC (secret : bytes) (timeToLive : Z) : TimedHMAC :=
  {| secret := secret; timeToLive := timeToLive |}.

(** Writing to a hash never fails. *)
Definition generate (m : TimedHMAC) (algo : Hash) (payload : bytes) : bytes :=
  hmac algo (secret m) payload.

Definition GenerateToken (m : TimedHMAC) (algo : Hash) (now : Z) : Token :=
  let timeStamp := FormatInt (Unix (now + timeToLive m)) in
  {| Payload := timeStamp; Signature := b64_EncodeToString (generate m algo timeStamp) |}.

Definition Validate (m : TimedHMAC) (algo : Hash) (now : Z) (token : Token) : vres () :=
  let expectedSignature := b64_EncodeToString (generate m algo (Payload token)) in
  if bool_decide (expectedSignature ≠ Signature token) then Err InvalidSignature
  else
    match ParseInt (Payload token) with
    | None => Err InvalidPayload
    | Some timeAuthInt => if bool_decide (timeAuthInt < Unix now) then Err ExpiredToken else Ret tt
    end.

(** The token the client presents, in binary form; the error leaves it as it was. *)
Record TokenStore := { token : bytes }.

Definition UpdateToken (t : option Token) (a : TokenStore) : vres () * TokenStore :=
  match t with
  | None => (Ret tt, a)
  | Some t =>
      match b64_DecodeString (Signature t) with
      | None => (Err InvalidSignature, a)
      | Some sig =>
          match TokenV2.Marshal {| TokenV2.algo := TokenV2.AuthAlgoHMACSHA256; TokenV2.Signature := sig;
                              TokenV2.Payload := Payload t |} with
          | Ret b => (Ret tt, {| token := b |})
          | Err e => (Err e, a)
          | Panic => (Panic, a)
          end
      end
  end.

Definition TokenBinary (a : TokenStore) : bytes := token a.

(** ** shared/relay/auth/validator.go and shared/relay/auth/hmac/validator.go *)
Section validator.
Context (gob_decode : bytes → option Token).   (* encoding/gob on the hello message's token *)

Definition unmarshalToken (payload : bytes) : vres Token :=
  match gob_decode payload with Some c => Ret c | None => Err UnmarshalFailed end.

Definition hmac_Validate (m : TimedHMAC) (now : Z) (credentials : option bytes) : vres () :=
  match credentials with
  | None => Err InvalidType
  | Some b => c ← unmarshalToken b; Validate m sha256_New now c
  end.

Record TimedHMACValidator := { authenticatorV2 : bytes; authenticator : TimedHMAC }.

Definition NewTimedHMACValidator (secret : bytes) (duration : Z) : TimedHMACValidator :=
  {| authenticatorV2 := secret; authenticator := NewTimedHMAC secret duration |}.

Definition auth_Validate (a : TimedHMACValidator) (now : Z) (credentials : option bytes) : vres () :=
  TokenV2.Validate (authenticatorV2 a) now credentials.
Definition auth_ValidateHelloMsgType (a : TimedHMACValidator) (now : Z)
    (credentials : option bytes) : vres () :=
  hmac_Validate (authenticator a) now credentials.

(** The validator as the handshake sees it: [err == nil]. *)
Definition accepted_by (r : vres ()) : bool := match r with Ret _ => true | _ => false end.

(** relay/cmd/root.go: the relay is configured with the shared secret [AuthSecret]. *)
Definition relay_authenticator (AuthSecret : bytes) : TimedHMACValidator :=
  NewTimedHMACValidator (Sum256 AuthSecret) (24 * Hour).

Definition relay_handshake (AuthSecret : bytes) (auth_UnmarshalMsg : bytes → option bytes)
    (now : Z) (read : option bytes) : outcome hs_err (PeerID * bool) :=
  handshakeReceive (λ b, accepted_by (auth_Validate (relay_authenticator AuthSecret) now (Some b)))
    (λ b, accepted_by (auth_ValidateHelloMsgType (relay_authenticator AuthSecret) now (Some b)))
    auth_UnmarshalMsg read.
End validator.

(** ** management: token_mgr.go *)
Record Host := { Proto : string; URI : bytes; Username : bytes; Password : bytes }.
Record TURNConfig := {
  TimeBasedCredentials : bool; TurnTTL : Z; TurnSecret : bytes; Turns : list Host }.
Record RelayCfg := { Addresses : list bytes; CredentialsTTL : Z; RelaySecret : bytes }.
Record Config := {
  Stuns : list Host; cfg_TURN : option TURNConfig; cfg_Relay : option RelayCfg;
  cfg_Signal : option Host }.

Definition defaultDuration : Z := 12 * Hour.
Definition ttl_or_default (d : Z) : Z := if bool_decide (d ≤ 0) then defaultDuration else d.

Record SecretsManager := {
  turnHmacToken : option TimedHMAC; relayHmacToken : option TokenV2.Generator }.

Definition NewTimeBasedAuthSecretsManager (turnCfg : option TURNConfig)
    (relayCfg : option RelayCfg) : SecretsManager :=
  {| turnHmacToken := (λ c, NewTimedHMAC (TurnSecret c) (ttl_or_default (TurnTTL c))) <$> turnCfg;
     relayHmacToken :=
       c ← relayCfg;
       match TokenV2.NewGenerator TokenV2.AuthAlgoHMACSHA256 (Sum256 (RelaySecret c))
               (ttl_or_default (CredentialsTTL c)) with
       | Ret g => Some g
       | _ => None
       end |}.

Definition GenerateTurnToken (m : SecretsManager) (now : Z) : vres Token :=
  match turnHmacToken m with
  | None => Err NotConfigured
  | Some h => Ret (GenerateToken h sha1_New now)
  end.

Definition GenerateRelayToken (m : SecretsManager) (now : Z) : vres Token :=
  match relayHmacToken m with
  | None => Err NotConfigured
  | Some g =>
      let relayToken := TokenV2.GenerateToken g now in
      Ret {| Payload := TokenV2.Payload relayToken;
             Signature := b64_EncodeToString (TokenV2.Signature relayToken) |}
  end.

Definition SetupRefresh (m : SecretsManager) : SecretsManager := m.
Definition CancelRefresh (m : SecretsManager) : SecretsManager := m.

(** ** management: conversion.go *)
Inductive HostProtocol := ProtoUDP | ProtoTCP | ProtoHTTP | ProtoHTTPS | ProtoDTLS.
Record HostConfig := { hc_Uri : bytes; hc_Protocol : HostProtocol }.
Record ProtectedHostConfig := { HostCfg : HostConfig; User : bytes; Pass : bytes }.
Record RelayConfig := { Urls : list bytes; TokenPayload : bytes; TokenSignature : bytes }.
Record NetbirdConfig := {
  nc_Stuns : list HostConfig; nc_Turns : list ProtectedHostConfig;
  nc_Signal : option HostConfig; nc_Relay : option RelayConfig }.

(** An unknown protocol in the configuration file panics. *)
Definition ToResponseProto (p : string) : vres HostProtocol :=
  if bool_decide (p = "udp") then Ret ProtoUDP
  else if bool_decide (p = "dtls") then Ret ProtoDTLS
  else if bool_decide (p = "http") then Ret ProtoHTTP
  else if bool_decide (p = "https") then Ret ProtoHTTPS
  else if bool_decide (p = "tcp") then Ret ProtoTCP
  else Panic.

Definition host_config (h : Host) : vres HostConfig :=
  p ← ToResponseProto (Proto h); Ret {| hc_Uri := URI h; hc_Protocol := p |}.

Fixpoint mapM {A B} (f : A → vres B) (l : list A) : vres (list B) :=
  match l with [] => Ret [] | x :: l => y ← f x; ys ← mapM f l; Ret (y :: ys) end.

Definition turn_config (turnCredentials : option Token) (turn : Host) : vres ProtectedHostConfig :=
  let '(username, password) :=
    match turnCredentials with
    | Some t => (Payload t, Signature t)
    | None => (Username turn, Password turn)
    end in
  hc ← host_config turn;
  Ret {| HostCfg := hc; User := username; Pass := password |}.

Definition relay_config (cfg_Relay : option RelayCfg) (relayToken : option Token)
    : option RelayConfig :=
  match cfg_Relay with
  | Some r =>
      if bool_decide (0 < length (Addresses r))%nat then
        Some {| Urls := Addresses r;
                TokenPayload := from_option Payload [] relayToken;
                TokenSignature := from_option Signature [] relayToken |}
      else None
  | None => None
  end.

Definition toNetbirdConfig (config : option Config) (turnCredentials relayToken : option Token)
    : vres (option NetbirdConfig) :=
  match config with
  | None => Ret None
  | Some c =>
      stuns ← mapM host_config (Stuns c);
      turns ← match cfg_TURN c with
              | Some t => mapM (turn_config turnCredentials) (Turns t)
              | None => Ret []
              end;
      let relayCfg := relay_config (cfg_Relay c) relayToken in
      signalCfg ← match cfg_Signal c with
                  | Some s => hc ← host_config s; Ret (Some hc)
                  | None => Ret None
                  end;
      Ret (Some {| nc_Stuns := stuns; nc_Turns := turns; nc_Signal := signalCfg;
                   nc_Relay := relayCfg |})
  end.

(** The credentials part of [sendInitialSync]: a failed generation is logged and no
    token is sent. *)
Definition or_nil (r : vres Token) : option Token := match r with Ret t => Some t | _ => None end.

Definition initial_tokens (c : Config) (m : SecretsManager) (now : Z) : option Token * option Token :=
  (match cfg_TURN c with
   | Some t => if TimeBasedCredentials t then or_nil (GenerateTurnToken m now) else None
   | None => None
   end,
   match cfg_Relay c with
   | Some r => if bool_decide (0 < length (Addresses r))%nat
               then or_nil (GenerateRelayToken m now) else None
   | None => None
   end).

Section sync_response.
(** [ExtendNetBirdConfig] of the integrations, for one peer: its id, groups and settings fixed. *)
Context (ExtendNetBirdConfig : option NetbirdConfig → option NetbirdConfig).

(** The configuration part of [ToSyncResponse]. *)
Definition ToSyncResponse_config (config : option Config) (turnCredentials relayCredentials : option Token)
    : vres (option NetbirdConfig) :=
  nbConfig ← toNetbirdConfig config turnCredentials relayCredentials;
  Ret (ExtendNetBirdConfig nbConfig).

Definition sendInitialSync_config (c : Config) (m : SecretsManager) (now : Z)
    : vres (option NetbirdConfig) :=
  let '(turnToken, relayToken) := initial_tokens c m now in
  ToSyncResponse_config (Some c) turnToken relayToken.

(** What the network map controller sends on every later change ([UpdateAccountPeers],
    [UpdateAccountPeer]): no configuration and no tokens. *)
Definition map_update_config : vres (option NetbirdConfig) := ToSyncResponse_config None None None.
End sync_response.

(** ** client *)
Record RelayManager := { tokenStore : TokenStore; serverURLs : list bytes; running : bool }.

(** [Serve] starts the manager once; connecting goes on in the background. *)
Definition Serve (m : RelayManager) : RelayManager :=
  {| tokenStore := tokenStore m; serverURLs := serverURLs m; running := true |}.
Definition UpdateServerURLs (urls : list bytes) (m : RelayManager) : RelayManager :=
  {| tokenStore := tokenStore m; serverURLs := urls; running := running m |}.

Definition handleRelayUpdate (update : option RelayConfig) (m : RelayManager)
    : vres () * RelayManager :=
  match update with
  | Some u =>
      let c := {| Payload := TokenPayload u; Signature := TokenSignature u |} in
      let '(r, st) := UpdateToken (Some c) (tokenStore m) in
      match r with
      | Ret _ =>
          (Ret tt, Serve (UpdateServerURLs (Urls u)
                     {| tokenStore := st; serverURLs := serverURLs m; running := running m |}))
      | Err e => (Err e, m)
      | Panic => (Panic, m)
      end
  | None => (Ret tt, UpdateServerURLs [] m)
  end.

(** [stun.URI]: what was parsed, and the credentials the engine sets. *)
Section engine.
Context {uri : Type} (ParseURI : bytes → option uri).
Record server := { s_uri : uri; s_Username : bytes; s_Password : bytes }.

(** The fields of the engine that a configuration changes. *)
Record Engine := { STUNs : list server; TURNs : list server; stunTurn : list server; relayManager : RelayManager }.

Inductive sync_err := UpdateTURNs | UpdateSTUNs | UpdateRelay (e : verr).

(** Stops at the first address that cannot be parsed. *)
Fixpoint parse_servers (hosts : list (bytes * bytes * bytes)) : option (list server) :=
  match hosts with
  | [] => Some []
  | (u, name, pw) :: hosts =>
      url ← ParseURI u; rest ← parse_servers hosts; Some ({| s_uri := url; s_Username := name; s_Password := pw |} :: rest)
  end.
Definition turn_hosts (turns : list ProtectedHostConfig) : list (bytes * bytes * bytes) :=
  (λ t, (hc_Uri (HostCfg t), User t, Pass t)) <$> turns.
Definition stun_hosts (stuns : list HostConfig) : list (bytes * bytes * bytes) := (λ s, (hc_Uri s, [], [])) <$> stuns.

(** An empty list leaves the servers as they are. *)
Definition updateTURNs (turns : list ProtectedHostConfig) (e : Engine) : outcome sync_err Engine :=
  match turns with
  | [] => Ret e
  | _ => match parse_servers (turn_hosts turns) with
         | None => Err UpdateTURNs
         | Some newTURNs => Ret {| STUNs := STUNs e; TURNs := newTURNs; stunTurn := stunTurn e; relayManager := relayManager e |}
         end
  end.
Definition updateSTUNs (stuns : list HostConfig) (e : Engine) : outcome sync_err Engine :=
  match stuns with
  | [] => Ret e
  | _ => match parse_servers (stun_hosts stuns) with
         | None => Err UpdateSTUNs
         | Some newSTUNs => Ret {| STUNs := newSTUNs; TURNs := TURNs e; stunTurn := stunTurn e; relayManager := relayManager e |}
         end
  end.

(** [Engine.handleSync] on the configuration of an update, up to the relay: an error of the
    servers before it returns, and what was updated before stays. *)
Definition handleSync_relay (update : option NetbirdConfig) (e : Engine) : outcome sync_err () * Engine :=
  match update with
  | None => (Ret tt, e)
  | Some wCfg =>
      match updateTURNs (nc_Turns wCfg) e with
      | Err err => (Err err, e)
      | Panic => (Panic, e)
      | Ret e =>
          match updateSTUNs (nc_Stuns wCfg) e with
          | Err err => (Err err, e)
          | Panic => (Panic, e)
          | Ret e =>
              let '(r, m) := handleRelayUpdate (nc_Relay wCfg) (relayManager e) in
              let e := {| STUNs := STUNs e; TURNs := TURNs e; stunTurn := STUNs e ++ TURNs e; relayManager := m |} in
              (match r with Ret _ => Ret tt | Err err => Err (UpdateRelay err) | Panic => Panic end, e)
          end
      end
  end.

(** All the addresses can be parsed. *)
Definition readable (wCfg : NetbirdConfig) : bool :=
  forallb (λ h, bool_decide (is_Some (ParseURI h.1.1))) (turn_hosts (nc_Turns wCfg) ++ stun_hosts (nc_Stuns wCfg)).

Lemma parse_servers_iff hosts : is_Some (parse_servers hosts) ↔ forallb (λ h, bool_decide (is_Some (ParseURI h.1.1))) hosts = true.
Proof.
  induction hosts as [|[[u n] p] hosts IH]; cbn [parse_servers forallb fst]; [split; [done|by eexists]|].
  rewrite andb_true_iff, bool_decide_eq_true, <- IH. destruct (ParseURI u); [|split; [by intros []|by intros [[]]]].
  cbn. destruct (parse_servers hosts); cbn; (split; [intros []; done || by split; eexists|intros [_ []]; by eexists || done]).
Qed.

(** With addresses that can be parsed the relay gets its part; otherwise it is left alone. *)
Lemma handleSync_relay_spec wCfg e :
  if readable wCfg then
    ∃ st tu, handleSync_relay (Some wCfg) e
      = (let '(r, m) := handleRelayUpdate (nc_Relay wCfg) (relayManager e) in
         (match r with Ret _ => Ret tt | Err err => Err (UpdateRelay err) | Panic => Panic end,
          {| STUNs := st; TURNs := tu; stunTurn := st ++ tu; relayManager := m |}))
  else ∃ err e', handleSync_relay (Some wCfg) e = (Err err, e') ∧ relayManager e' = relayManager e.
Proof.
  unfold readable. rewrite forallb_app. unfold handleSync_relay, updateTURNs, updateSTUNs.
  destruct (nc_Turns wCfg) as [|tu tus]; [|destruct (parse_servers (turn_hosts (tu :: tus))) as [newT|] eqn:HT];
  (destruct (nc_Stuns wCfg) as [|s ss]; [|destruct (parse_servers (stun_hosts (s :: ss))) as [newS|] eqn:HS]);
  try rewrite (proj1 (parse_servers_iff (turn_hosts (tu :: tus)))) by (by rewrite HT);
  try rewrite (proj1 (parse_servers_iff (stun_hosts (s :: ss)))) by (by rewrite HS);
  try (assert (HTf : forallb (λ h, bool_decide (is_Some (ParseURI h.1.1))) (turn_hosts (tu :: tus)) = false)
         by (apply not_true_iff_false; rewrite <- parse_servers_iff, HT; by intros []); rewrite HTf);
  try (assert (HSf : forallb (λ h, bool_decide (is_Some (ParseURI h.1.1))) (stun_hosts (s :: ss)) = false)
         by (apply not_true_iff_false; rewrite <- parse_servers_iff, HS; by intros []); rewrite HSf);
  cbn [andb fmap list_fmap turn_hosts stun_hosts forallb]; rewrite ?andb_false_r; try (by eexists _, _);
  eexists _, _; destruct (handleRelayUpdate _ _); reflexivity.
Qed.
End engine.
Arguments Engine : clear implicits.

(** [Client.handShake]: the message written, and what is made of the reply. *)
Definition handShake_msg (hashedID : PeerID) (a : TokenStore) : res bytes :=
  MarshalAuthMsg hashedID (TokenBinary a).

Inductive client_err := CWrite | CRead | CMessage (e : msg_err) | CUnexpectedType.
Definition lift_client {A} (m : res A) : outcome client_err A :=
  match m with Ret a => Ret a | Err e => Err (CMessage e) | Panic => Panic end.

Definition handShake (hashedID : PeerID) (a : TokenStore) (write_ok : bool) (read : option bytes)
    : outcome client_err bytes :=
  _ ← lift_client (handShake_msg hashedID a);
  if negb write_ok then Err CWrite
  else
    match read with
    | None => Err CRead
    | Some buf =>
        _ ← lift_client (ValidateVersion buf);
        msgType ← lift_client (DetermineServerMessageType buf);
        if decide (msgType = MsgTypeAuthResponse) then lift_client (UnmarshalAuthResponse buf)
        else Err CUnexpectedType
    end.

(** * The stored token *)
(** What [UpdateToken] stores, whatever was stored before. *)
Lemma UpdateToken_encoded sig p a :
  UpdateToken (Some {| Payload := p; Signature := b64_EncodeToString sig |}) a
  = (Ret tt, {| token := TokenV2.AuthAlgoHMACSHA256 :: sig ++ p |}).
Proof. unfold UpdateToken. cbn [Signature Payload]. by rewrite b64_roundtrip, Marshal_eq. Qed.

(** A payload the generator writes for an instant from 2001 on. *)
Definition datable (expiry : Z) : Prop := 10 ^ 9 ≤ expiry < 2 ^ 63.

Lemma datable_payload e :
  datable e → ParseInt (FormatInt e) = Some e
              ∧ (TokenV2.minLengthUnixTimestamp ≤ length (FormatInt e) ≤ 20)%nat.
Proof.
  intros [Hlo Hhi]. split.
  - apply ParseInt_FormatInt. unfold in_i64. lia.
  - pose proof (FormatInt_length e 9). unfold TokenV2.minLengthUnixTimestamp. lia.
Qed.

(** The validator on a token issued with the same secret. *)
Lemma Validate_issued key e now :
  datable e →
  TokenV2.Validate key now
    (Some (TokenV2.AuthAlgoHMACSHA256 :: hmac sha256_New key (FormatInt e) ++ FormatInt e))
  = if bool_decide (Unix now ≤ e) then Ret tt else Err ExpiredToken.
Proof.
  intros (Hp & Hl)%datable_payload. rewrite Validate_signed, Hp by lia.
  repeat case_bool_decide; done || lia.
Qed.

(** The auth message of the client, decoded by the relay. *)
Lemma relay_handshake_auth gob key um now i tok :
  wf_id i → (headerTotalSizeAuth + length tok ≤ MaxHandshakeSize)%nat →
  ∃ msg, handShake_msg i {| token := tok |} = Ret msg
  ∧ relay_handshake gob key um now (Some msg)
    = if accepted_by (TokenV2.Validate (Sum256 key) now (Some tok)) then Ret (i, true) else Err HsAuth.
Proof.
  intros Hi Hl. unfold handShake_msg, TokenBinary. cbn [token].
  destruct (auth_message_decodes i tok Hi Hl) as (msg & Hm & Hv & Ht & Hu & _).
  exists msg. split; [done|]. unfold relay_handshake, handshakeReceive. rewrite Hv, Ht.
  cbn [lift]. rewrite !bind_ret_l. rewrite decide_False by done. rewrite decide_True by done.
  unfold handleAuthMsg. rewrite Hu. cbn [lift]. rewrite bind_ret_l. unfold auth_Validate.
  cbn [relay_authenticator NewTimedHMACValidator authenticatorV2]. by case_match.
Qed.

(** * From the management server to the relay *)
Definition manager (c : Config) : SecretsManager :=
  NewTimeBasedAuthSecretsManager (cfg_TURN c) (cfg_Relay c).
(** Last second at which the token of [rc] issued at [t0] is good. *)
Definition expiry (rc : RelayCfg) (t0 : Z) : Z := Unix (t0 + ttl_or_default (CredentialsTTL rc)).

(** The extension leaves the relay section as it is. *)
Definition keeps_relay_section (ExtendNetBirdConfig : option NetbirdConfig → option NetbirdConfig) : Prop :=
  ∀ cfg, (ExtendNetBirdConfig cfg ≫= nc_Relay) = (cfg ≫= nc_Relay).

Section issued.
Context {uri : Type} (ParseURI : bytes → option uri).
Context (ExtendNetBirdConfig : option NetbirdConfig → option NetbirdConfig) (Hk : keeps_relay_section ExtendNetBirdConfig).
Context (c : Config) (rc : RelayCfg) (Hrc : cfg_Relay c = Some rc) (Haddr : Addresses rc ≠ []).
Abbreviation first_answer := (sendInitialSync_config ExtendNetBirdConfig c (manager c)).
Abbreviation sync := (handleSync_relay ParseURI).

Lemma addresses_nonempty : bool_decide (0 < length (Addresses rc))%nat = true.
Proof using Haddr. apply bool_decide_eq_true_2. destruct (Addresses rc); [done|simpl; lia]. Qed.

Lemma initial_sync_relay t0 nc :
  first_answer t0 = Ret (Some nc) →
  nc_Relay nc = Some
    {| Urls := Addresses rc; TokenPayload := FormatInt (expiry rc t0);
       TokenSignature := b64_EncodeToString
         (hmac sha256_New (Sum256 (RelaySecret rc)) (FormatInt (expiry rc t0))) |}.
Proof using Hk Hrc Haddr.
  unfold sendInitialSync_config, ToSyncResponse_config, initial_tokens. rewrite Hrc, addresses_nonempty.
  unfold GenerateRelayToken, manager. rewrite Hrc.
  unfold toNetbirdConfig. rewrite Hrc.
  intros (cfg & H & [= Hext])%bind_Ret_inv. pose proof (Hk cfg) as Hkeep. rewrite Hext in Hkeep. cbn in Hkeep. rewrite Hkeep.
  apply bind_Ret_inv in H as (stuns & _ & H). apply bind_Ret_inv in H as (turns & _ & H).
  apply bind_Ret_inv in H as (sig & _ & H). injection H as <-. cbn [mbind option_bind nc_Relay].
  unfold relay_config. rewrite addresses_nonempty. done.
Qed.

(** The store of the client after the first sync. *)
Definition issued_token (t0 : Z) : bytes :=
  let p := FormatInt (expiry rc t0) in
  TokenV2.AuthAlgoHMACSHA256 :: hmac sha256_New (Sum256 (RelaySecret rc)) p ++ p.

Lemma first_sync t0 nc e :
  first_answer t0 = Ret (Some nc) →
  if readable ParseURI nc then
    ∃ e1, sync (Some nc) e = (Ret tt, e1)
      ∧ relayManager e1 = {| tokenStore := {| token := issued_token t0 |}; serverURLs := Addresses rc; running := true |}
  else ∃ err e1, sync (Some nc) e = (Err err, e1) ∧ relayManager e1 = relayManager e.
Proof using Hk Hrc Haddr.
  intros Hnc%initial_sync_relay. pose proof (handleSync_relay_spec ParseURI nc e) as Hs.
  destruct (readable ParseURI nc); [|done]. destruct Hs as (st & tu & Hs). rewrite Hs, Hnc.
  unfold handleRelayUpdate. cbn [TokenPayload TokenSignature Urls]. rewrite UpdateToken_encoded. by eexists.
Qed.

Lemma issued_token_fits t0 :
  datable (expiry rc t0) → (headerTotalSizeAuth + length (issued_token t0) ≤ MaxHandshakeSize)%nat.
Proof.
  intros [_ Hl]%datable_payload. unfold issued_token. cbn [length].
  rewrite length_app, hmac_length by apply sha256_wf. cbn [Size sha256_New].
  change headerTotalSizeAuth with 42%nat. change MaxHandshakeSize with 212%nat. lia.
Qed.

Lemma issued_token_verdict gob um i t0 t1 :
  wf_id i → datable (expiry rc t0) →
  ∃ msg, handShake_msg i {| token := issued_token t0 |} = Ret msg
  ∧ relay_handshake gob (RelaySecret rc) um t1 (Some msg)
    = if bool_decide (Unix t1 ≤ expiry rc t0) then Ret (i, true) else Err HsAuth.
Proof.
  intros Hi He. destruct (relay_handshake_auth gob (RelaySecret rc) um t1 i _ Hi
    (issued_token_fits t0 He)) as (msg & Hm & Hr).
  exists msg. split; [done|]. rewrite Hr. unfold issued_token. rewrite Validate_issued by done.
  by case_bool_decide.
Qed.

(** C33: Credentials work end to end.  When the client can parse the STUN and TURN addresses of the
    first sync answer, the token that the management server puts into it at [t0] is taken over by
    the client whatever it held before, and the auth message the client then writes makes the relay
    that shares the secret register the client's own id, until the last second of the configured
    lifetime (twelve hours when it is not set); after it the relay answers with an authentication
    error.  When an address cannot be parsed, the update fails and the relay manager, with its
    token, stays as it was.  The hook of the integrations may extend the answer, but keeps its relay
    section ([keeps_relay_section]). *)
Theorem relay_credentials_end_to_end gob um i t0 t1 nc e
    (Hi : wf_id i) (He : datable (expiry rc t0)) (Hnc : first_answer t0 = Ret (Some nc)) :
  if readable ParseURI nc then
    ∃ e1 msg, sync (Some nc) e = (Ret tt, e1)
      ∧ serverURLs (relayManager e1) = Addresses rc ∧ running (relayManager e1) = true
      ∧ handShake_msg i (tokenStore (relayManager e1)) = Ret msg
      ∧ relay_handshake gob (RelaySecret rc) um t1 (Some msg)
        = if bool_decide (Unix t1 ≤ expiry rc t0) then Ret (i, true) else Err HsAuth
  else ∃ err e1, sync (Some nc) e = (Err err, e1) ∧ relayManager e1 = relayManager e.
Proof using Hk Hrc Haddr.
  destruct (issued_token_verdict gob um i t0 t1 Hi He) as (msg & Hm & Hr).
  pose proof (first_sync t0 nc e Hnc) as Hs. destruct (readable ParseURI nc); [|done].
  destruct Hs as (e1 & Hs & Hrm). exists e1, msg. rewrite Hrm. done.
Qed.

(** ** Later updates of the stream *)
Definition on_map_update (e : Engine uri) : Engine uri :=
  match map_update_config ExtendNetBirdConfig with
  | Ret cfg => (sync cfg e).2
  | _ => e
  end.

Lemma on_map_update_token e : tokenStore (relayManager (on_map_update e)) = tokenStore (relayManager e).
Proof using Hk.
  unfold on_map_update, map_update_config, ToSyncResponse_config, toNetbirdConfig. rewrite bind_ret_l.
  pose proof (Hk None) as Hn. destruct (ExtendNetBirdConfig None) as [nc|]; [|done].
  cbn in Hn. pose proof (handleSync_relay_spec ParseURI nc e) as Hs. destruct (readable ParseURI nc).
  - destruct Hs as (st & tu & ->). by rewrite Hn.
  - destruct Hs as (err & e' & -> & Hs). cbn. by rewrite Hs.
Qed.

(** Credentials are not renewed while a sync stream is open.  However many network map
    updates follow the first answer, the client still presents the token of the first
    answer, so that a (re)connection to the relay fails once its lifetime has passed. *)
Theorem credentials_not_renewed gob um i t0 t1 nc e e1 n
    (Hi : wf_id i) (He : datable (expiry rc t0)) (Hnc : first_answer t0 = Ret (Some nc))
    (Hm : sync (Some nc) e = (Ret tt, e1)) (Hlate : expiry rc t0 < Unix t1) :
  ∃ msg, handShake_msg i (tokenStore (relayManager (Nat.iter n on_map_update e1))) = Ret msg
    ∧ relay_handshake gob (RelaySecret rc) um t1 (Some msg) = Err HsAuth.
Proof using Hk Hrc Haddr.
  assert (tokenStore (relayManager (Nat.iter n on_map_update e1)) = tokenStore (relayManager e1)) as ->.
  { induction n as [|n IH]; [done|]. by rewrite Nat.iter_succ, on_map_update_token. }
  pose proof (first_sync t0 nc e Hnc) as Hs. rewrite Hm in Hs. destruct (readable ParseURI nc); [|by destruct Hs as (? & ? & [=] & _)].
  destruct Hs as (? & [= <-] & ->). cbn [tokenStore].
  destruct (issued_token_verdict gob um i t0 t1 Hi He) as (msg & Hmsg & Hr).
  exists msg. split; [done|]. rewrite Hr. by rewrite bool_decide_eq_false_2 by lia.
Qed.
End issued.

(** The relay's answer gives the client the address of the instance it reached. *)
Lemma handshake_reply addrData url pm i a msg :
  newPreparedMsg addrData url = Ret pm → url ≠ [] → handShake_msg i a = Ret msg →
  handShake i a true (Some (handshakeResponse true pm)) = Ret url.
Proof.
  unfold newPreparedMsg. intros (rhm & _ & H)%bind_Ret_inv Hne Hm.
  apply bind_Ret_inv in H as (ram & Hr & [= <-]). cbn [handshakeResponse responseAuthMsg].
  revert Hr. change (MarshalAuthResponse url) with
    (let msg := CurrentProtocolVersion :: MsgTypeAuthResponse :: url in
     if bool_decide (MaxHandshakeRespSize < length msg)%nat
     then Err (ErrMessageLength (length msg)) else Ret msg). cbv zeta. case_bool_decide; [done|].
  intros [= <-]. unfold handShake. rewrite Hm. destruct url as [|u url]; [done|].
  cbn [lift_client negb]. rewrite bind_ret_l.
  change (ValidateVersion (CurrentProtocolVersion :: MsgTypeAuthResponse :: u :: url))
    with (Ret (E:=msg_err) 1%nat). cbn [lift_client]. rewrite bind_ret_l.
  change (DetermineServerMessageType (CurrentProtocolVersion :: MsgTypeAuthResponse :: u :: url))
    with (Ret (E:=msg_err) MsgTypeAuthResponse). cbn [lift_client]. rewrite bind_ret_l.
  rewrite decide_True by done. unfold UnmarshalAuthResponse. rewrite bool_decide_eq_false_2 by (simpl; lia).
  by rewrite slice_from_in by (change sizeOfProtoHeader with 2%nat; simpl; lia).
Qed.

(** The textual credentials, as a TURN server that shares the secret checks them. *)
Lemma timed_hmac_roundtrip m algo t0 t1 :
  in_i64 (Unix (t0 + timeToLive m)) →
  Validate m algo t1 (GenerateToken m algo t0)
  = if bool_decide (Unix t1 ≤ Unix (t0 + timeToLive m)) then Ret tt else Err ExpiredToken.
Proof.
  intros Hi. unfold Validate, GenerateToken. cbn [Payload Signature].
  rewrite bool_decide_eq_false_2 by (by intros []). rewrite ParseInt_FormatInt by done.
  repeat case_bool_decide; done || lia.
Qed.

(** ** Sample deployment: the clocks read 14 November 2023, 22:13:20 UTC at [noon]. *)
Definition noon : Z := 1700000000 * Second.
Definition sample_relay : RelayCfg :=
  {| Addresses := [str "rels://relay:443"]; CredentialsTTL := 0; RelaySecret := str "s3cret" |}.
Definition sample_config : Config :=
  {| Stuns := [{| Proto := "udp"; URI := str "stun:a:3478"; Username := []; Password := [] |}];
     cfg_TURN := None; cfg_Relay := Some sample_relay; cfg_Signal := None |}.
(** A stand-in for the parser: addresses start with the scheme and a colon. *)
Definition scheme_parser (b : bytes) : option bytes :=
  if bool_decide (take 5 b = str "stun:") || bool_decide (take 5 b = str "turn:") then Some (drop 5 b) else None.
Abbreviation no_extension := (λ cfg : option NetbirdConfig, cfg).
Definition idle : Engine bytes :=
  {| STUNs := []; TURNs := []; stunTurn := [];
     relayManager := {| tokenStore := {| token := [] |}; serverURLs := []; running := false |} |}.

Definition no_answer : NetbirdConfig := {| nc_Stuns := []; nc_Turns := []; nc_Signal := None; nc_Relay := None |}.
Definition answer_of (c : Config) : NetbirdConfig :=
  match sendInitialSync_config no_extension c (manager c) noon with Ret (Some nc) => nc | _ => no_answer end.
Definition sample_answer : NetbirdConfig := answer_of sample_config.
Definition sample_synced : Engine bytes := (handleSync_relay scheme_parser (Some sample_answer) idle).2.

Lemma relay_credentials_end_to_end_witness :
  ∃ e1 msg, handleSync_relay scheme_parser (Some sample_answer) idle = (Ret tt, e1)
    ∧ handShake_msg sample_id (tokenStore (relayManager e1)) = Ret msg
    ∧ relay_handshake (λ _, None) (str "s3cret") (λ _, None) (noon + Hour) (Some msg)
      = Ret (sample_id, true).
Proof.
  assert (Hr : readable scheme_parser sample_answer = true) by (vm_compute; reflexivity).
  pose proof (relay_credentials_end_to_end scheme_parser no_extension (λ _, eq_refl) sample_config sample_relay eq_refl ltac:(discriminate)
    (λ _, None) (λ _, None) sample_id noon (noon + Hour) sample_answer idle) as H.
  rewrite Hr in H.
  destruct H as (e1 & msg & ? & _ & _ & ? & Hv);
    [reflexivity|vm_compute; split; congruence|vm_compute; reflexivity|].
  exists e1, msg. split; [assumption|]. split; [assumption|].
  etransitivity; [exact Hv|]. vm_compute. reflexivity.
Defined.

(** An address without a scheme: the token of the answer is not taken over. *)
Example unreadable_address_blocks_token :
  let c := {| Stuns := [{| Proto := "udp"; URI := str "a:3478"; Username := []; Password := [] |}];
              cfg_TURN := None; cfg_Relay := Some sample_relay; cfg_Signal := None |} in
  handleSync_relay scheme_parser (Some (answer_of c)) idle = (Err UpdateSTUNs, idle)
  ∧ nc_Relay (answer_of c) = nc_Relay sample_answer.
Proof. vm_compute. auto. Qed.

Lemma credentials_not_renewed_witness :
  ∃ msg,
    handShake_msg sample_id (tokenStore (relayManager (Nat.iter 5 (on_map_update scheme_parser no_extension) sample_synced)))
    = Ret msg
    ∧ relay_handshake (λ _, None) (str "s3cret") (λ _, None) (noon + 13 * Hour) (Some msg)
      = Err HsAuth.
Proof.
  apply (credentials_not_renewed scheme_parser no_extension (λ _, eq_refl) sample_config sample_relay eq_refl ltac:(discriminate)
    (λ _, None) (λ _, None) sample_id noon (noon + 13 * Hour) sample_answer idle
    sample_synced 5); [reflexivity|vm_compute; split; congruence
                      |vm_compute; reflexivity|vm_compute; reflexivity|vm_compute; reflexivity].
Defined.
