(* ===== verification/Permissions.v ===== *)
(** Who may do what in an account: [src/management/server/permissions] (manager, modules,
    operations and roles) with the user of [src/management/server/types/user.go].

    Modules, operations and roles are typed strings in the source and strings here; a Go map
    of permissions is a [gmap].  The SQL store answers the look-up of a user: [ErrStore] when
    it fails, no user when it returns nil without an error. *)
From S2P Require Import Prelude GoText.

(** ** Modules and operations *)
Definition Networks : string := "networks".
Definition Peers : string := "peers".
Definition RemoteJobs : string := "remote_jobs".
Definition Groups : string := "groups".
Definition Settings : string := "settings".
Definition Accounts : string := "accounts".
Definition Dns : string := "dns".
Definition Nameservers : string := "nameservers".
Definition Events : string := "events".
Definition Policies : string := "policies".
Definition Routes : string := "routes".
Definition Users : string := "users".
Definition SetupKeys : string := "setup_keys".
Definition Pats : string := "pats".
Definition IdentityProviders : string := "identity_providers".
Definition Services : string := "services".
Definition All : list string :=
  [Networks; Peers; RemoteJobs; Groups; Settings; Accounts; Dns; Nameservers;
   Events; Policies; Routes; Users; SetupKeys; Pats; IdentityProviders; Services].

Definition Create : string := "create".
Definition Read : string := "read".
Definition Update : string := "update".
Definition Delete : string := "delete".

(** ** Roles *)
Definition UserRoleOwner : string := "owner".
Definition UserRoleAdmin : string := "admin".
Definition UserRoleUser : string := "user".
Definition UserRoleUnknown : string := "unknown".
Definition UserRoleBillingAdmin : string := "billing_admin".
Definition UserRoleAuditor : string := "auditor".
Definition UserRoleNetworkAdmin : string := "network_admin".

Definition StrRoleToUserRole (strRole : string) : string :=
  let r := ToLower strRole in
  if bool_decide (r = "owner") then UserRoleOwner
  else if bool_decide (r = "admin") then UserRoleAdmin
  else if bool_decide (r = "user") then UserRoleUser
  else if bool_decide (r = "billing_admin") then UserRoleBillingAdmin
  else if bool_decide (r = "auditor") then UserRoleAuditor
  else if bool_decide (r = "network_admin") then UserRoleNetworkAdmin
  else UserRoleUnknown.

Abbreviation Ops := (gmap string bool).
Abbreviation Permissions := (gmap string Ops).
Record RolePermissions := { Role : string; role_Permissions : Permissions; AutoAllowNew : Ops }.

Definition ops (read create update delete : bool) : Ops :=
  <[Read := read]> (<[Create := create]> (<[Update := update]> {[ Delete := delete ]})).
Definition all_ops : Ops := ops true true true true.
Definition read_only : Ops := ops true false false false.
Definition no_ops : Ops := ops false false false false.

Definition Owner : RolePermissions :=
  {| Role := UserRoleOwner; role_Permissions := ∅; AutoAllowNew := all_ops |}.
Definition Admin : RolePermissions :=
  {| Role := UserRoleAdmin; role_Permissions := {[ Accounts := read_only ]}; AutoAllowNew := all_ops |}.
Definition RoleUser : RolePermissions :=
  {| Role := UserRoleUser; role_Permissions := ∅; AutoAllowNew := no_ops |}.
Definition Auditor : RolePermissions :=
  {| Role := UserRoleAuditor; role_Permissions := ∅; AutoAllowNew := read_only |}.
Definition NetworkAdmin : RolePermissions :=
  {| Role := UserRoleNetworkAdmin;
     role_Permissions := list_to_map
       [(Networks, all_ops); (Groups, all_ops); (Settings, read_only); (Accounts, read_only);
        (Dns, all_ops); (Nameservers, all_ops); (Events, read_only); (Policies, all_ops);
        (Routes, all_ops); (Users, read_only); (SetupKeys, read_only); (Pats, all_ops);
        (Peers, read_only); (IdentityProviders, read_only)];
     AutoAllowNew := no_ops |}.

Definition RolesMap : gmap string RolePermissions := list_to_map
  [(UserRoleOwner, Owner); (UserRoleAdmin, Admin); (UserRoleUser, RoleUser);
   (UserRoleAuditor, Auditor); (UserRoleNetworkAdmin, NetworkAdmin)].

(** ** Users *)
Record User := {
  u_Id : string; u_AccountID : string; u_Role : string; IsServiceUser : bool;
  u_AutoGroups : list string; Blocked : bool; PendingApproval : bool }.

Definition IsBlocked (u : User) : bool := Blocked u.
Definition HasAdminPower (u : User) : bool :=
  bool_decide (u_Role u = UserRoleAdmin) || bool_decide (u_Role u = UserRoleOwner).
Definition IsAdminOrServiceUser (u : User) : bool := HasAdminPower u || IsServiceUser u.
Definition IsRegularUser (u : User) : bool := negb (HasAdminPower u) && negb (IsServiceUser u).

(** ** The manager *)
Inductive perm_err :=
| ErrStore | ErrUserNotFound | ErrUserBlocked | ErrUserPendingApproval | ErrUserNotPartOfAccount
| ErrUserRoleNotFound (role : string).

Definition SystemInitiator : string := "sys".

(** A missing key of a Go map of booleans reads as false. *)
Definition ValidateRoleModuleAccess (role : RolePermissions) (module operation : string) : bool :=
  match role_Permissions role !! module with
  | Some permissions =>
      match permissions !! operation with Some allowed => allowed | None => false end
  | None => default false (AutoAllowNew role !! operation)
  end.

Definition ValidateAccountAccess (accountID : string) (user : User) : outcome perm_err () :=
  guard_err (bool_decide (u_AccountID user ≠ accountID)) ErrUserNotPartOfAccount.

Section manager.
Context (GetUserByUserID : string → outcome perm_err (option User)).

Definition ValidateUserPermissions (accountID userID module operation : string)
    : outcome perm_err bool :=
  if bool_decide (userID = SystemInitiator) then Ret true
  else
    found ← GetUserByUserID userID;
    match found with
    | None => Err ErrUserNotFound
    | Some user =>
        if IsBlocked user && negb (PendingApproval user) then Err ErrUserBlocked
        else if IsBlocked user && PendingApproval user then Err ErrUserPendingApproval
        else
          _ ← ValidateAccountAccess accountID user;
          if bool_decide (operation = Read) && IsServiceUser user then Ret true
          else
            match RolesMap !! u_Role user with
            | None => Err (ErrUserRoleNotFound (u_Role user))
            | Some role => Ret (ValidateRoleModuleAccess role module operation)
            end
    end.
End manager.

(** The loop of [GetPermissionsByRole] over the modules [l]. *)
Definition collect (roleMap : RolePermissions) (l : list string) : Permissions :=
  foldr (λ k acc, <[k := match role_Permissions roleMap !! k with
                         | Some rolePermissions => rolePermissions
                         | None => AutoAllowNew roleMap
                         end]> acc) ∅ l.

Definition GetPermissionsByRole (role : string) : outcome perm_err Permissions :=
  match RolesMap !! role with
  | None => Err (ErrUserRoleNotFound role)
  | Some roleMap => Ret (collect roleMap All)
  end.

(** * Roles *)
Definition operations : list string := [Create; Read; Update; Delete].

Lemma role_cases role rp :
  RolesMap !! role = Some rp →
  (role = UserRoleOwner ∧ rp = Owner) ∨ (role = UserRoleAdmin ∧ rp = Admin)
  ∨ (role = UserRoleUser ∧ rp = RoleUser) ∨ (role = UserRoleAuditor ∧ rp = Auditor)
  ∨ (role = UserRoleNetworkAdmin ∧ rp = NetworkAdmin).
Proof.
  intros Hr%elem_of_list_to_map_2. repeat (apply elem_of_cons in Hr as [[= -> ->]|Hr]; [tauto|]).
  by apply elem_of_nil in Hr.
Qed.

(** What a map of operations grants; other operations than the four read as false. *)
Lemma ops_lookup r c u d o :
  default false (ops r c u d !! o)
  = (bool_decide (o = Read) && r) || (bool_decide (o = Create) && c)
    || (bool_decide (o = Update) && u) || (bool_decide (o = Delete) && d).
Proof.
  unfold ops. destruct (decide (o = Read)) as [->|Hr]; [by destruct r|].
  destruct (decide (o = Create)) as [->|Hc]; [by destruct c|].
  destruct (decide (o = Update)) as [->|Hu]; [by destruct u|].
  rewrite !lookup_insert_ne by done. destruct (decide (o = Delete)) as [->|Hd]; [by destruct d|].
  rewrite lookup_singleton_ne by done. by rewrite !bool_decide_eq_false_2.
Qed.

Lemma access_default rp m o :
  ValidateRoleModuleAccess rp m o
  = default false (default (AutoAllowNew rp) (role_Permissions rp !! m) !! o).
Proof. unfold ValidateRoleModuleAccess. destruct (role_Permissions rp !! m); [|done]. simpl. by case_match. Qed.

Lemma advertised_lookup rp l m :
  m ∈ l →
  collect rp l !! m
  = Some (default (AutoAllowNew rp) (role_Permissions rp !! m)).
Proof.
  induction l as [|k l IH]; [by intros ?%elem_of_nil|]. intros [->|Hm]%elem_of_cons; simpl.
  - rewrite lookup_insert_eq. by destruct (role_Permissions rp !! k).
  - destruct (decide (k = m)) as [->|Hne].
    + rewrite lookup_insert_eq. by destruct (role_Permissions rp !! m).
    + rewrite lookup_insert_ne by done. by apply IH.
Qed.

(** What is shown is what is enforced: for every role and every module the server knows, the
    permissions that [GetPermissionsByRole] returns to the dashboard grant an operation exactly
    when the check of a request grants it, and every known module is listed. *)
Theorem permissions_as_advertised role P :
  GetPermissionsByRole role = Ret P →
  ∃ rp, RolesMap !! role = Some rp
  ∧ ∀ module operation, module ∈ All →
      is_Some (P !! module)
      ∧ default false (P !! module ≫= (.!! operation)) = ValidateRoleModuleAccess rp module operation.
Proof.
  unfold GetPermissionsByRole. destruct (RolesMap !! role) as [rp|]; [|done]. intros HP.
  assert (P = collect rp All) as -> by congruence.
  exists rp. split; [done|]. intros m o Hm. rewrite (advertised_lookup rp All m Hm).
  split; [eauto|]. simpl. by rewrite access_default.
Qed.

(** The modules a network administrator may change. *)
Definition network_modules : list string :=
  [Networks; Groups; Dns; Nameservers; Policies; Routes; Pats].
(** Those it may only read; it has no access to the others. *)
Definition readable_modules : list string :=
  [Settings; Accounts; Events; Users; SetupKeys; Peers; IdentityProviders].

(** What each role grants. *)
Definition grants (role module operation : string) : bool :=
  let known := bool_decide (operation ∈ operations) in
  let read := bool_decide (operation = Read) in
  if bool_decide (role = UserRoleOwner) then known
  else if bool_decide (role = UserRoleAdmin) then known && (read || bool_decide (module ≠ Accounts))
  else if bool_decide (role = UserRoleAuditor) then read
  else if bool_decide (role = UserRoleNetworkAdmin) then
    known && (bool_decide (module ∈ network_modules)
              || (read && bool_decide (module ∈ readable_modules)))
  else false.

Lemma ops_all o : default false (all_ops !! o) = bool_decide (o ∈ operations).
Proof.
  unfold all_ops. rewrite ops_lookup, !andb_true_r. unfold operations.
  repeat case_bool_decide; subst; set_solver.
Qed.
Lemma ops_read o : default false (read_only !! o) = bool_decide (o = Read).
Proof. unfold read_only. rewrite ops_lookup, andb_true_r, !andb_false_r, !orb_false_r. done. Qed.
Lemma read_known o : bool_decide (o = Read) = bool_decide (o ∈ operations) && bool_decide (o = Read).
Proof. destruct (decide (o = Read)) as [->|Hr]; [done|]. by rewrite (bool_decide_eq_false_2 _ Hr), andb_false_r. Qed.
Lemma ops_none o : default false (no_ops !! o) = false.
Proof. unfold no_ops. by rewrite ops_lookup, !andb_false_r. Qed.

Lemma network_admin_modules m :
  default (AutoAllowNew NetworkAdmin) (role_Permissions NetworkAdmin !! m)
  = if bool_decide (m ∈ network_modules) then all_ops
    else if bool_decide (m ∈ readable_modules) then read_only else no_ops.
Proof.
  destruct (decide (m ∈ network_modules)) as [Hm|Hm].
  - rewrite bool_decide_eq_true_2 by done. unfold network_modules in Hm.
    repeat (apply elem_of_cons in Hm as [->|Hm]; [done|]). by apply elem_of_nil in Hm.
  - rewrite (bool_decide_eq_false_2 _ Hm). case_bool_decide as Hr; unfold readable_modules in Hr.
    + repeat (apply elem_of_cons in Hr as [->|Hr]; [done|]). by apply elem_of_nil in Hr.
    + cbn [role_Permissions NetworkAdmin AutoAllowNew].
      rewrite not_elem_of_list_to_map_1; [done|]. cbn. unfold network_modules in Hm.
      rewrite !elem_of_cons, elem_of_nil in *. tauto.
Qed.

Lemma role_grants role rp m o :
  RolesMap !! role = Some rp → ValidateRoleModuleAccess rp m o = grants role m o.
Proof.
  intros Hr. rewrite access_default.
  destruct (role_cases role rp Hr) as [[-> ->]|[[-> ->]|[[-> ->]|[[-> ->]|[-> ->]]]]].
  - change (default false (default all_ops ((∅ : Permissions) !! m) !! o) = bool_decide (o ∈ operations)).
    rewrite lookup_empty. apply ops_all.
  - change (grants UserRoleAdmin m o) with
      (bool_decide (o ∈ operations) && (bool_decide (o = Read) || bool_decide (m ≠ Accounts))).
    cbn [role_Permissions AutoAllowNew Admin]. destruct (decide (m = Accounts)) as [->|Hm].
    + rewrite lookup_singleton_eq. cbn [default from_option id].
      rewrite (bool_decide_eq_false_2 (Accounts ≠ Accounts)), orb_false_r by tauto.
      rewrite ops_read. apply read_known.
    + rewrite lookup_singleton_ne by done. rewrite (bool_decide_eq_true_2 (m ≠ Accounts)) by done.
      rewrite orb_true_r, andb_true_r. apply ops_all.
  - change (default false (default no_ops ((∅ : Permissions) !! m) !! o) = false). rewrite lookup_empty. apply ops_none.
  - change (default false (default read_only ((∅ : Permissions) !! m) !! o) = bool_decide (o = Read)).
    rewrite lookup_empty. apply ops_read.
  - rewrite network_admin_modules. change (grants UserRoleNetworkAdmin m o) with
      (bool_decide (o ∈ operations) && (bool_decide (m ∈ network_modules)
         || (bool_decide (o = Read) && bool_decide (m ∈ readable_modules)))).
    destruct (bool_decide (m ∈ network_modules)); [by rewrite ops_all, andb_true_r|].
    destruct (bool_decide (m ∈ readable_modules)).
    + rewrite ops_read, andb_true_r. apply read_known.
    + by rewrite ops_none, !andb_false_r.
Qed.

(** * Requests *)
Section requests.
Context (GetUserByUserID : string → outcome perm_err (option User)).
Abbreviation check := (ValidateUserPermissions GetUserByUserID).

(** C28: A request is allowed exactly when it comes from the server itself, or from an existing user
    of this very account who is not blocked and either reads as a service user or holds a
    role that grants the operation on the module; [grants] spells the roles out. *)
Theorem permission_granted_iff accountID userID module operation :
  check accountID userID module operation = Ret true ↔
  userID = SystemInitiator
  ∨ ∃ u, GetUserByUserID userID = Ret (Some u) ∧ Blocked u = false ∧ u_AccountID u = accountID
      ∧ ((operation = Read ∧ IsServiceUser u = true)
         ∨ (is_Some (RolesMap !! u_Role u) ∧ grants (u_Role u) module operation = true)).
Proof.
  unfold ValidateUserPermissions, ValidateAccountAccess, guard_err, IsBlocked.
  case_bool_decide as Hsys; [tauto|].
  destruct (GetUserByUserID userID) as [[u|]|e|]; cbn [mbind outcome_bind];
    [|by split; [|intros [?|(? & ? & _)]]..].
  destruct (Blocked u) eqn:Hb; cbn [andb negb].
  { destruct (PendingApproval u); (split; [done|]); intros [?|(? & [= <-] & ? & _)]; congruence. }
  destruct (decide (u_AccountID u = accountID)) as [Hacc|Hacc];
    [rewrite (bool_decide_eq_false_2 (u_AccountID u ≠ accountID)) by tauto; cbn [mbind outcome_bind]
    |rewrite (bool_decide_eq_true_2 (u_AccountID u ≠ accountID)) by done; cbn [mbind outcome_bind]].
  2:{ split; [done|]. intros [?|(? & [= <-] & _ & ? & _)]; congruence. }
  destruct (bool_decide (operation = Read) && IsServiceUser u) eqn:Hs.
  { apply andb_true_iff in Hs as [?%bool_decide_eq_true ?]. split; [|done]. intros _. right. exists u. split_and!; auto. }
  assert (Hns : ¬ (operation = Read ∧ IsServiceUser u = true)).
  { intros [-> Hu]. by rewrite Hu in Hs. }
  destruct (RolesMap !! u_Role u) as [rp|] eqn:Hr.
  - rewrite (role_grants _ rp) by done. split.
    + intros [= Hg]. right. exists u. split_and!; eauto.
    + intros [?|(u' & [= <-] & _ & _ & [?|[_ ->]])]; done.
  - split; [done|]. intros [?|(u' & [= <-] & _ & _ & [?|[[? ?] _]])]; congruence.
Qed.

(** A user with the role [billing_admin], which the server accepts when it is assigned, is
    refused with a role error for every request except reads of a service user, because the
    role has no entry in the table of roles. *)
Theorem billing_admin_always_refused accountID userID module operation u strRole :
  userID ≠ SystemInitiator → GetUserByUserID userID = Ret (Some u) → Blocked u = false →
  u_AccountID u = accountID → IsServiceUser u = false →
  ToLower strRole = UserRoleBillingAdmin → u_Role u = StrRoleToUserRole strRole →
  check accountID userID module operation = Err (ErrUserRoleNotFound UserRoleBillingAdmin).
Proof.
  intros Hsys Hu Hb Ha Hs Hl Hrole. unfold ValidateUserPermissions, ValidateAccountAccess, guard_err, IsBlocked.
  rewrite bool_decide_eq_false_2, Hu by done. cbn [mbind outcome_bind]. rewrite Hb. cbn [andb].
  rewrite (bool_decide_eq_false_2 (u_AccountID u ≠ accountID)) by tauto. cbn [mbind outcome_bind].
  rewrite Hs, andb_false_r.
  unfold StrRoleToUserRole in Hrole. rewrite Hl in Hrole. change (u_Role u = UserRoleBillingAdmin) in Hrole.
  by rewrite Hrole.
Qed.
End requests.

(** ** Samples *)
Definition sample_user (role : string) : User :=
  {| u_Id := "u1"; u_AccountID := "acc"; u_Role := role; IsServiceUser := false;
     u_AutoGroups := []; Blocked := false; PendingApproval := false |}.
Definition sample_users (role userID : string) : outcome perm_err (option User) :=
  if bool_decide (userID = "u1") then Ret (Some (sample_user role)) else Ret None.

Lemma permissions_as_advertised_witness :
  let P := collect NetworkAdmin All in
  GetPermissionsByRole UserRoleNetworkAdmin = Ret P
  ∧ ∃ rp, RolesMap !! UserRoleNetworkAdmin = Some rp
    ∧ is_Some (P !! SetupKeys)
    ∧ default false (P !! SetupKeys ≫= (.!! Create)) = ValidateRoleModuleAccess rp SetupKeys Create.
Proof.
  intros P. assert (HP : GetPermissionsByRole UserRoleNetworkAdmin = Ret P) by reflexivity.
  split; [exact HP|].
  destruct (permissions_as_advertised UserRoleNetworkAdmin P HP) as (rp & Hr & Hm).
  exists rp. split; [exact Hr|]. apply Hm. apply (bool_decide_unpack _). vm_compute. exact I.
Defined.

Lemma billing_admin_always_refused_witness :
  ValidateUserPermissions (sample_users "billing_admin") "acc" "u1" Peers Read
  = Err (ErrUserRoleNotFound UserRoleBillingAdmin).
Proof.
  apply (billing_admin_always_refused (sample_users "billing_admin") "acc" "u1" Peers Read
    (sample_user "billing_admin") "Billing_Admin"); [discriminate|reflexivity..].
Defined.

Example network_admin_reads_peers :
  ValidateUserPermissions (sample_users UserRoleNetworkAdmin) "acc" "u1" Peers Read = Ret true
  ∧ ValidateUserPermissions (sample_users UserRoleNetworkAdmin) "acc" "u1" Peers Delete = Ret false
  ∧ ValidateUserPermissions (sample_users UserRoleNetworkAdmin) "other" "u1" Peers Read
    = Err ErrUserNotPartOfAccount.
Proof. by vm_compute. Qed.
