(* ===== verification/SetupKeys.v ===== *)
(** Setup keys: [src/management/server/types/setupkey.go] and
    [src/management/server/setupkey.go], over the tables of
    [src/management/server/store/sql_store.go] they use.

    A table is a finite map by primary key.  A transaction is a function on the store whose
    changes are kept when it returns nil and dropped when it returns an error
    ([ExecuteInTransaction]); the rows it reads are locked ([LockingStrengthUpdate]), so that
    transactions on one key run one after the other.  Database outages are left out, as is the
    activity log.  A [time.Time] is a number of nanoseconds since the Unix epoch, the zero
    time is the first instant of year one; random identifiers are arguments. *)
From S2P Require Import Prelude GoText GoHash Permissions.
Open Scope Z_scope.

Definition ZeroTime : Z := -62135596800 * Second.
Definition IsZero (t : Z) : bool := t =? ZeroTime.

(** ** types/setupkey.go *)
Definition SetupKeyReusable : string := "reusable".
Definition SetupKeyOneOff : string := "one-off".
Definition DefaultSetupKeyDuration : Z := 24 * 30 * Hour.
Definition SetupKeyUnlimitedUsage : Z := 0.

Record SetupKey := {
  sk_Id : string; sk_AccountID : string; Key : bytes; KeySecret : bytes; sk_Name : string;
  sk_Type : string; CreatedAt : Z; ExpiresAt : option Z; UpdatedAt : Z; Revoked : bool;
  UsedTimes : Z; LastUsed : option Z; AutoGroups : list string; UsageLimit : Z;
  sk_Ephemeral : bool; sk_AllowExtraDNSLabels : bool }.

(** The copy; [Copy] also repairs a zero [UpdatedAt] of the key it copies. *)
Definition Copy (key : SetupKey) : SetupKey :=
  {| sk_Id := sk_Id key; sk_AccountID := sk_AccountID key; Key := Key key;
     KeySecret := KeySecret key; sk_Name := sk_Name key; sk_Type := sk_Type key;
     CreatedAt := CreatedAt key; ExpiresAt := ExpiresAt key;
     UpdatedAt := if IsZero (UpdatedAt key) then CreatedAt key else UpdatedAt key;
     Revoked := Revoked key; UsedTimes := UsedTimes key; LastUsed := LastUsed key;
     AutoGroups := AutoGroups key; UsageLimit := UsageLimit key;
     sk_Ephemeral := sk_Ephemeral key; sk_AllowExtraDNSLabels := sk_AllowExtraDNSLabels key |}.

Definition with_usage (n : Z) (last : Z) (key : SetupKey) : SetupKey :=
  {| sk_Id := sk_Id key; sk_AccountID := sk_AccountID key; Key := Key key;
     KeySecret := KeySecret key; sk_Name := sk_Name key; sk_Type := sk_Type key;
     CreatedAt := CreatedAt key; ExpiresAt := ExpiresAt key; UpdatedAt := UpdatedAt key;
     Revoked := Revoked key; UsedTimes := n; LastUsed := Some last;
     AutoGroups := AutoGroups key; UsageLimit := UsageLimit key;
     sk_Ephemeral := sk_Ephemeral key; sk_AllowExtraDNSLabels := sk_AllowExtraDNSLabels key |}.

Definition with_update (groups : list string) (revoked : bool) (now : Z) (key : SetupKey) : SetupKey :=
  {| sk_Id := sk_Id key; sk_AccountID := sk_AccountID key; Key := Key key;
     KeySecret := KeySecret key; sk_Name := sk_Name key; sk_Type := sk_Type key;
     CreatedAt := CreatedAt key; ExpiresAt := ExpiresAt key; UpdatedAt := now;
     Revoked := revoked; UsedTimes := UsedTimes key; LastUsed := LastUsed key;
     AutoGroups := groups; UsageLimit := UsageLimit key;
     sk_Ephemeral := sk_Ephemeral key; sk_AllowExtraDNSLabels := sk_AllowExtraDNSLabels key |}.

Definition with_key (account : string) (k : bytes) (key : SetupKey) : SetupKey :=
  {| sk_Id := sk_Id key; sk_AccountID := account; Key := k;
     KeySecret := KeySecret key; sk_Name := sk_Name key; sk_Type := sk_Type key;
     CreatedAt := CreatedAt key; ExpiresAt := ExpiresAt key; UpdatedAt := UpdatedAt key;
     Revoked := Revoked key; UsedTimes := UsedTimes key; LastUsed := LastUsed key;
     AutoGroups := AutoGroups key; UsageLimit := UsageLimit key;
     sk_Ephemeral := sk_Ephemeral key; sk_AllowExtraDNSLabels := sk_AllowExtraDNSLabels key |}.

Definition GetLastUsed (key : SetupKey) : Z := default ZeroTime (LastUsed key).
Definition GetExpiresAt (key : SetupKey) : Z := default ZeroTime (ExpiresAt key).

Definition IncrementUsage (now : Z) (key : SetupKey) : SetupKey :=
  let c := Copy key in with_usage (UsedTimes c + 1) now c.

Definition IsRevoked (key : SetupKey) : bool := Revoked key.
Definition IsExpired (now : Z) (key : SetupKey) : bool :=
  if IsZero (GetExpiresAt key) then false else GetExpiresAt key <? now.
(** The limit that applies: one for a one-off key. *)
Definition effective_limit (key : SetupKey) : Z :=
  if bool_decide (sk_Type key = SetupKeyOneOff) then 1 else UsageLimit key.
Definition IsOverUsed (key : SetupKey) : bool :=
  let limit := effective_limit key in (0 <? limit) && (limit <=? UsedTimes key).
Definition IsValid (now : Z) (key : SetupKey) : bool :=
  negb (IsRevoked key) && negb (IsExpired now key) && negb (IsOverUsed key).

(** [key[0:5]] panics on a shorter key; the keys are ASCII, so that runes are bytes. *)
Definition HiddenKey (key : bytes) (len : Z) : outcome Empty_set bytes :=
  prefix ← slice 0 5 key;
  let n := Z.of_nat (length key) in
  let len := if n <? len then n - Z.of_nat (length prefix) else len in
  if len <? 0 then Panic else Ret (prefix ++ replicate (Z.to_nat len) x2a).

Definition upper_byte (b : byte) : byte :=
  if bool_decide (97 ≤ byte_Z b ≤ 122) then Z_byte (byte_Z b - 32) else b.
Definition ToUpper (s : bytes) : bytes := upper_byte <$> s.

(** How a key is stored and looked up. *)
Definition encoded_hash (key : bytes) : bytes := b64_EncodeToString (Sum256 key).

Definition GenerateSetupKey (uuid : bytes) (xid : string) (now : Z) (name t : string) (validFor : Z)
    (autoGroups : list string) (usageLimit : Z) (ephemeral allowExtraDNSLabels : bool)
    : outcome Empty_set (SetupKey * bytes) :=
  let key := ToUpper uuid in
  let limit := if bool_decide (t = SetupKeyOneOff) then 1 else usageLimit in
  let expiresAt := if validFor =? 0 then None else Some (now + validFor) in
  hidden ← HiddenKey key 4;
  Ret ({| sk_Id := xid; sk_AccountID := ""; Key := encoded_hash key; KeySecret := hidden;
          sk_Name := name; sk_Type := t; CreatedAt := now; ExpiresAt := expiresAt; UpdatedAt := now;
          Revoked := false; UsedTimes := 0; LastUsed := None; AutoGroups := autoGroups;
          UsageLimit := limit; sk_Ephemeral := ephemeral;
          sk_AllowExtraDNSLabels := allowExtraDNSLabels |}, key).

Definition GenerateDefaultSetupKey (uuid : bytes) (xid : string) (now : Z) :=
  GenerateSetupKey uuid xid now "Default key" SetupKeyReusable DefaultSetupKeyDuration []
    SetupKeyUnlimitedUsage false false.
