(* ===== verification/Domains.v ===== *)
(** Domain names: [src/shared/management/domain].

    Domains are byte strings.  The Punycode encoder of golang.org/x/net/idna is a parameter. *)
From S2P Require Import Prelude GoText Network.
Open Scope Z_scope.

(** ** Byte strings *)
Definition lower_byte (b : byte) : byte :=
  if bool_decide (65 ≤ byte_Z b ≤ 90) then Z_byte (byte_Z b + 32) else b.
Definition lower (s : bytes) : bytes := lower_byte <$> s.

Definition is_alnum (b : byte) : bool :=
  let z := byte_Z b in
  bool_decide (48 ≤ z ≤ 57) || bool_decide (65 ≤ z ≤ 90) || bool_decide (97 ≤ z ≤ 122).
Definition dash : byte := x2d.
Definition underscore : byte := x5f.
Definition dot : byte := x2e.

(** [strings.Split(s, sep)] at one byte. *)
Fixpoint split_at (sep : byte) (s : bytes) : list bytes :=
  match s with
  | [] => [[]]
  | b :: s =>
      if decide (b = sep) then [] :: split_at sep s
      else match split_at sep s with
           | w :: ws => (b :: w) :: ws
           | [] => [[b]]
           end
  end.

(** ** shared/management/domain/validate.go

    The regular expression, label by label: an optional [xn--], then at most 63 characters of
    which the first is a letter, a digit or (except in the last label) an underscore, the last
    is a letter or a digit, and those between may also be dashes and underscores. *)
Definition maxDomains : nat := 32.

Definition label_body (underscore_first : bool) (s : bytes) : bool :=
  match s with
  | [] => false
  | c :: rest =>
      (is_alnum c || (underscore_first && bool_decide (c = underscore)))
      && match rev rest with
         | [] => true
         | l :: mid =>
             is_alnum l && bool_decide (length mid ≤ 61)%nat
             && forallb (λ b, is_alnum b || bool_decide (b = dash) || bool_decide (b = underscore)) mid
         end
  end.

Definition xn_prefix : bytes := str "xn--".
Definition label_ok (underscore_first : bool) (s : bytes) : bool :=
  label_body underscore_first s
  || (bool_decide (take 4 s = xn_prefix) && label_body underscore_first (drop 4 s)).

Definition strip_wildcard (s : bytes) : bytes :=
  if bool_decide (take 2 s = str "*.") then drop 2 s else s.

Definition domainRegex (s : bytes) : bool :=
  match rev (split_at dot (strip_wildcard s)) with
  | [] => false
  | last :: front => label_ok false last && forallb (label_ok true) front
  end.

Definition IsValidDomain (d : bytes) : bool :=
  if bool_decide (d = []) then false else domainRegex (lower d).

Definition IsValidDomainNoWildcard (d : bytes) : bool :=
  if bool_decide (d = []) then false
  else if bool_decide (take 2 d = str "*.") then false
  else domainRegex (lower d).

Definition ValidateDomainsList (domains : list bytes) : bool :=
  if bool_decide (domains = []) then true
  else if bool_decide (maxDomains < length domains)%nat then false
  else forallb (λ d, domainRegex (lower d)) domains.

Section idna.
Context (ToASCII : bytes → option bytes).

Definition FromString (s : bytes) : option bytes := lower <$> ToASCII s.

(** [None] for an error; the domains in Punycode otherwise. *)
Definition ValidateDomains (domains : list bytes) : option (list bytes) :=
  if bool_decide (domains = []) then None
  else if bool_decide (maxDomains < length domains)%nat then None
  else mapM (λ d, punycode ← FromString d; if domainRegex punycode then Some punycode else None) domains.
End idna.
