(* ===== verification/AclManager.v ===== *)
(** The client's ACL manager: [src/client/internal/acl/manager.go], with the sets of domains of
    [src/client/firewall/manager/set.go].

    The manager turns the rules of a network map into rules of a firewall and keeps, under an id
    made of what a rule says, the firewall rules it has installed.  The firewall is the class
    [Firewall]; [FirewallLaws] is what it promises.  Protocol buffer messages are records; their
    enumerations are open, so they are integers.

    Parameters: [order], the order in which Go ranges over a map; [selector], the text
    [getRuleGroupingSelector] prints with the formatter of the protocol buffer library; and
    [ToUnicode] of golang.org/x/net/idna.  Errors are logged, so only their kind is kept. *)
From stdpp Require Import pretty.
From S2P Require Import Prelude GoText GoHash NetIP FirewallRules NetParse Domains.
Open Scope Z_scope.

(** ** Messages ([management.proto]) *)
Definition RuleProtocol_ALL : Z := 1.
Definition RuleProtocol_TCP : Z := 2.
Definition RuleProtocol_UDP : Z := 3.
Definition RuleProtocol_ICMP : Z := 4.
Definition RuleDirection_IN : Z := 0.
Definition RuleDirection_OUT : Z := 1.
Definition RuleAction_ACCEPT : Z := 0.
Definition RuleAction_DROP : Z := 1.

Inductive PortSelection := PortInfo_Port (p : Z) | PortInfo_Range_ (r : option (Z * Z)).
(** The selection of a [PortInfo] that is there. *)
Abbreviation PortInfo := (option PortSelection).

Record FirewallRule := {
  fr_PeerIP : string; fr_Direction : Z; fr_Action : Z; fr_Protocol : Z; fr_Port : string;
  fr_PortInfo : option PortInfo; fr_PolicyID : option string }.
Record RouteFirewallRule := {
  rf_SourceRanges : list string; rf_Action : Z; rf_Destination : string; rf_Protocol : Z;
  rf_PortInfo : option PortInfo; rf_IsDynamic : bool; rf_Domains : list string; rf_PolicyID : option string }.
Record NetworkMap := {
  FirewallRules : list FirewallRule; FirewallRulesIsEmpty : bool; RoutesFirewallRules : list RouteFirewallRule }.

(** ** Conversions *)
Definition convertToFirewallProtocol (p : Z) : option string :=
  if p =? RuleProtocol_TCP then Some ProtocolTCP
  else if p =? RuleProtocol_UDP then Some ProtocolUDP
  else if p =? RuleProtocol_ICMP then Some ProtocolICMP
  else if p =? RuleProtocol_ALL then Some ProtocolALL
  else None.
Definition convertFirewallAction (a : Z) : option Action :=
  if a =? RuleAction_ACCEPT then Some ActionAccept
  else if a =? RuleAction_DROP then Some ActionDrop
  else None.

Definition portInfoEmpty (i : option PortInfo) : bool :=
  match i with
  | None => true
  | Some (Some (PortInfo_Port p)) => p =? 0
  | Some (Some (PortInfo_Range_ r)) => match r with None => true | Some (s, e) => (s =? 0) || (e =? 0) end
  | Some None => true
  end.
Definition GetPort (i : PortInfo) : Z := match i with Some (PortInfo_Port p) => p | _ => 0 end.
Definition GetRange (i : PortInfo) : option (Z * Z) := match i with Some (PortInfo_Range_ r) => r | _ => None end.
Definition convertPortInfo (i : option PortInfo) : option Port :=
  match i with
  | None => None
  | Some i =>
      if negb (GetPort i =? 0) then Some {| IsRange := false; Values := [wrap_u16 (GetPort i)] |}
      else
        match GetRange i with
        | Some (s, e) => Some {| IsRange := true; Values := [wrap_u16 s; wrap_u16 e] |}
        | None => None
        end
  end.

Definition shouldSkipInvertedRule (protocol : string) (port : option Port) : bool :=
  bool_decide (protocol = ProtocolALL) || bool_decide (protocol = ProtocolICMP) || bool_decide (port = None).

(** [net.IP.String] *)
Definition IP_text (ip : bytes) : string :=
  match ip with
  | [] => "<nil>"
  | _ => match AddrFromSlice ip with Some a => Addr_String (unmap a) | None => "?" +:+ EncodeToString ip end
  end.
(** [md5.New().Sum(b)] appends the digest of nothing to [b]. *)
Definition md5_empty : bytes :=
  [xd4; x1d; x8c; xd9; x8f; x00; xb2; x04; xe9; x80; x09; x98; xec; xf8; x42; x7e].
Definition id_text (ip : bytes) (proto : string) (direction : Z) (port : option Port) (action : Action) : string :=
  IP_text ip +:+ proto +:+ pretty direction +:+ Action_Itoa action +:+ match port with Some p => Port_String p | None => "" end.
Definition getPeerRuleID (ip : bytes) (proto : string) (direction : Z) (port : option Port) (action : Action) : string :=
  EncodeToString (str (id_text ip proto direction port action) ++ md5_empty).

(** ** Sets of domains *)
Section domains.
Context (ToUnicode : string → option string).

Definition FromPunycodeList (s : list string) : list string := (λ d, String.string_of_list_byte (lower (str d))) <$> s.
Definition SafeString (d : string) : string := default d (ToUnicode d).
Definition List_SafeString (l : list string) : string := join ", " (SafeString <$> l).
Definition NewDomainSet (domains : list string) : FwSet :=
  let domains := sort_by String.leb domains in
  {| set_hash := take 4 (Sum256 (concat (str <$> domains))); set_comment := List_SafeString domains |}.

Definition getDefault (p : prefix) : prefix := {| px_v6 := px_v6 p; px_addr := 0; px_bits := 0 |}.
(** [None]: the destination does not parse.  [sources[0]] is out of range when there are none. *)
Definition determineDestination (rule : RouteFirewallRule) (dynamicResolver : bool) (sources : list prefix)
    : outcome unit FwNetwork :=
  let default_net := s ← index 0 sources; Ret {| fn_Set := no_set; fn_Prefix := Some (getDefault s) |} in
  if rf_IsDynamic rule then
    if dynamicResolver then
      match rf_Domains rule with
      | _ :: _ => Ret {| fn_Set := NewDomainSet (FromPunycodeList (rf_Domains rule)); fn_Prefix := None |}
      | [] => default_net
      end
    else default_net
  else
    match ParsePrefix (rf_Destination rule) with
    | Some p => Ret {| fn_Set := no_set; fn_Prefix := Some p |}
    | None => Err tt
    end.
End domains.

(** ** The firewall behind the manager *)
Record peer_filter := {
  pf_ip : bytes; pf_proto : string; pf_sPort : option Port; pf_dPort : option Port; pf_action : Action }.
Record route_filter := {
  rq_sources : list prefix; rq_destination : FwNetwork; rq_proto : string; rq_dPort : option Port; rq_action : Action }.

(** [None]: an error was returned. *)
Class Firewall (F R : Type) := {
  fw_AddPeerFiltering : option string → peer_filter → string → F → option (list R) * F;
  fw_DeletePeerRule : R → F → bool * F;
  fw_IsStateful : F → bool;
  fw_AddRouteFiltering : option string → route_filter → F → option string * F;
  fw_DeleteRouteRule : string → F → bool * F;
  fw_Flush : F → bool * F }.

Inductive acl_err :=
  errParseIP | errProtocol | errAction | errPort | errDirection | errAddRule
| ErrSourceRangesEmpty | errSource | errDestination | errDeleteRoute.
#[export] Instance acl_err_eq_dec : EqDecision acl_err.
Proof. solve_decision. Defined.
Definition or_err {A} (e : acl_err) (o : option A) : outcome acl_err A := match o with Some a => Ret a | None => Err e end.

Section manager.
Context {F R : Type} `{Firewall F R}.

Record DefaultManager := { ipsetCounter : nat; peerRulesPairs : gmap string (list R); dm_routeRules : gset string }.
Definition NewDefaultManager : DefaultManager := {| ipsetCounter := 0; peerRulesPairs := ∅; dm_routeRules := ∅ |}.
Definition with_pairs (m : gmap string (list R)) (d : DefaultManager) : DefaultManager :=
  {| ipsetCounter := ipsetCounter d; peerRulesPairs := m; dm_routeRules := dm_routeRules d |}.

(** *** One peer rule *)
Definition rule_port (r : FirewallRule) : outcome acl_err (option Port) :=
  if negb (portInfoEmpty (fr_PortInfo r)) then Ret (convertPortInfo (fr_PortInfo r))
  else if negb (bool_decide (fr_Port r = "")) then
    value ← or_err errPort (ParseInt (str (fr_Port r)));
    Ret (Some {| IsRange := false; Values := [wrap_u16 value] |})
  else Ret None.
(** What the rule says: address, protocol, action and port. *)
Definition rule_args (r : FirewallRule) : outcome acl_err (bytes * string * Action * option Port) :=
  ip ← or_err errParseIP (ParseIP (fr_PeerIP r));
  protocol ← or_err errProtocol (convertToFirewallProtocol (fr_Protocol r));
  action ← or_err errAction (convertFirewallAction (fr_Action r));
  port ← rule_port r;
  Ret (ip, protocol, action, port).

Definition addInRules (id : option string) (ip : bytes) (protocol : string) (port : option Port) (action : Action)
    (ipsetName : string) (f : F) : option (list R) * F :=
  fw_AddPeerFiltering id {| pf_ip := ip; pf_proto := protocol; pf_sPort := None; pf_dPort := port; pf_action := action |} ipsetName f.
Definition addOutRules (id : option string) (ip : bytes) (protocol : string) (port : option Port) (action : Action)
    (ipsetName : string) (f : F) : option (list R) * F :=
  if shouldSkipInvertedRule protocol port then (Some [], f)
  else fw_AddPeerFiltering id {| pf_ip := ip; pf_proto := protocol; pf_sPort := port; pf_dPort := None; pf_action := action |} ipsetName f.

Definition added (ruleID : string) (res : option (list R) * F) : outcome acl_err (string * list R) * F :=
  (match res.1 with Some rules => Ret (ruleID, rules) | None => Err errAddRule end, res.2).
Definition protoRuleToFirewallRule (d : DefaultManager) (r : FirewallRule) (ipsetName : string) (f : F)
    : outcome acl_err (string * list R) * F :=
  match rule_args r with
  | Ret (ip, protocol, action, port) =>
      let ruleID := getPeerRuleID ip protocol (fr_Direction r) port action in
      match peerRulesPairs d !! ruleID with
      | Some rulesPair => (Ret (ruleID, rulesPair), f)
      | None =>
          if fr_Direction r =? RuleDirection_IN then added ruleID (addInRules (fr_PolicyID r) ip protocol port action ipsetName f)
          else if fr_Direction r =? RuleDirection_OUT then
            if fw_IsStateful f then (Ret (EmptyString, []), f)
            else added ruleID (addOutRules (fr_PolicyID r) ip protocol port action ipsetName f)
          else (Err errDirection, f)
      end
  | Err e => (Err e, f)
  | Panic => (Panic, f)
  end.

(** *** The peer rules of a network map *)
Context (order : gmap string (list R) → list (string * list R)) (selector : FirewallRule → string).
Context (ToUnicode : string → option string).

(** Errors of the deletions are logged. *)
Definition delete_all (rs : list R) (f : F) : F := foldl (λ f r, (fw_DeletePeerRule r f).2) f rs.
Definition rollBack (newRulePairs : gmap string (list R)) (f : F) : F :=
  foldl (λ f p, delete_all p.2 f) f (order newRulePairs).

(** [nb%07d] *)
Definition ipset_name (n : nat) : string :=
  let s : string := pretty n in "nb" +:+ String.string_of_list_byte (replicate (7 - String.length s) x30) +:+ s.
Definition ipset_for (sel : string) (d : DefaultManager) (sets : gmap string string) : string * DefaultManager * gmap string string :=
  match sets !! sel with
  | Some name => (name, d, sets)
  | None =>
      let d := {| ipsetCounter := S (ipsetCounter d); peerRulesPairs := peerRulesPairs d; dm_routeRules := dm_routeRules d |} in
      let name := ipset_name (ipsetCounter d) in
      (name, d, <[sel := name]> sets)
  end.

(** The loop over the rules: the manager, the new pairs and the firewall when it ends. *)
Fixpoint add_rules (rules : list FirewallRule) (sets : gmap string string) (newRulePairs : gmap string (list R))
    (d : DefaultManager) (f : F) : DefaultManager * gmap string (list R) * F :=
  match rules with
  | [] => (d, newRulePairs, f)
  | r :: rules =>
      let '(ipsetName, d, sets) := ipset_for (selector r) d sets in
      match protoRuleToFirewallRule d r ipsetName f with
      | (Ret (pairID, rulePair), f) =>
          if bool_decide (rulePair = []) then add_rules rules sets newRulePairs d f
          else add_rules rules sets (<[pairID := rulePair]> newRulePairs) (with_pairs (<[pairID := rulePair]> (peerRulesPairs d)) d) f
      | (_, f) => (d, newRulePairs, rollBack newRulePairs f)
      end
  end.

Definition any_rule (direction : Z) : FirewallRule :=
  {| fr_PeerIP := "0.0.0.0"; fr_Direction := direction; fr_Action := RuleAction_ACCEPT; fr_Protocol := RuleProtocol_ALL;
     fr_Port := ""; fr_PortInfo := None; fr_PolicyID := None |}.
Definition effective_rules (m : NetworkMap) : list FirewallRule :=
  if bool_decide (FirewallRules m = []) && negb (FirewallRulesIsEmpty m)
  then FirewallRules m ++ [any_rule RuleDirection_IN; any_rule RuleDirection_OUT]
  else FirewallRules m.

Definition delete_stale (newRulePairs : gmap string (list R)) (f : F) (p : string * list R) : F :=
  match newRulePairs !! p.1 with Some _ => f | None => delete_all p.2 f end.
Definition applyPeerACLs (m : NetworkMap) (d : DefaultManager) (f : F) : DefaultManager * F :=
  let '(d, newRulePairs, f) := add_rules (effective_rules m) ∅ ∅ d f in
  (with_pairs newRulePairs d, foldl (delete_stale newRulePairs) f (order (peerRulesPairs d))).

(** *** The route rules *)
Fixpoint parse_all (l : list string) : option (list prefix) :=
  match l with [] => Some [] | s :: l => p ← ParsePrefix s; ps ← parse_all l; Some (p :: ps) end.
Definition route_args (rule : RouteFirewallRule) (dynamicResolver : bool) : outcome acl_err route_filter :=
  if bool_decide (rf_SourceRanges rule = []) then Err ErrSourceRangesEmpty
  else
    sources ← or_err errSource (parse_all (rf_SourceRanges rule));
    match determineDestination ToUnicode rule dynamicResolver sources with
    | Ret destination =>
        protocol ← or_err errProtocol (convertToFirewallProtocol (rf_Protocol rule));
        action ← or_err errAction (convertFirewallAction (rf_Action rule));
        Ret {| rq_sources := sources; rq_destination := destination; rq_proto := protocol;
               rq_dPort := convertPortInfo (rf_PortInfo rule); rq_action := action |}
    | Err _ => Err errDestination
    | Panic => Panic
    end.
Definition applyRouteACL (rule : RouteFirewallRule) (dynamicResolver : bool) (f : F) : outcome acl_err string * F :=
  match route_args rule dynamicResolver with
  | Ret q => let '(res, f) := fw_AddRouteFiltering (rf_PolicyID rule) q f in (or_err errAddRule res, f)
  | Err e => (Err e, f)
  | Panic => (Panic, f)
  end.

(** The new ids, the errors and the firewall. *)
Definition route_rule_step (dynamicResolver : bool) (st : gset string * list acl_err * F) (rule : RouteFirewallRule)
    : gset string * list acl_err * F :=
  let '(ids, merr, f) := st in
  match applyRouteACL rule dynamicResolver f with
  | (Ret k, f) => ({[ k ]} ∪ ids, merr, f)
  | (Err e, f) => (ids, if bool_decide (e = ErrSourceRangesEmpty) then merr else merr ++ [e], f)
  | (Panic, f) => (ids, merr, f)
  end.
Definition route_delete_step (ids : gset string) (st : list acl_err * F) (k : string) : list acl_err * F :=
  let '(merr, f) := st in
  if decide (k ∈ ids) then st
  else let '(ok, f) := fw_DeleteRouteRule k f in (if ok : bool then merr else merr ++ [errDeleteRoute], f).
Definition applyRouteACLs (rules : list RouteFirewallRule) (dynamicResolver : bool) (d : DefaultManager) (f : F)
    : list acl_err * DefaultManager * F :=
  let '(ids, merr, f) := foldl (route_rule_step dynamicResolver) (∅, [], f) rules in
  let '(merr, f) := foldl (route_delete_step ids) (merr, f) (elements (dm_routeRules d)) in
  (merr, {| ipsetCounter := ipsetCounter d; peerRulesPairs := peerRulesPairs d; dm_routeRules := ids |}, f).

(** [None]: there is no firewall. *)
Definition ApplyFiltering (m : NetworkMap) (dnsRouteFeatureFlag : bool) (d : DefaultManager) (fw : option F)
    : DefaultManager * option F :=
  match fw with
  | None => (d, None)
  | Some f =>
      let '(d, f) := applyPeerACLs m d f in
      let '(_, d, f) := applyRouteACLs (RoutesFirewallRules m) dnsRouteFeatureFlag d f in
      (d, Some (fw_Flush f).2)
  end.
End manager.
Arguments DefaultManager R : clear implicits.
