(* ===== verification/AclKeys.v ===== *)
(** Two peer rules of a network map have the same id just when they say the same: the id
    [getPeerRuleID] makes of address, protocol, direction, action and port can be taken apart
    again.  Shown for IPv4 addresses, the ones of the overlay network. *)
From stdpp Require Import pretty.
From S2P Require Import Prelude GoText NetIP PacketDnat FirewallRules NetParse AclManager.
Open Scope Z_scope.

(** ** Taking text apart *)
Lemma split_inj {A} (P : A → Prop) l1 l2 c1 c2 t1 t2 : Forall P l1 → Forall P l2 → ¬ P c1 → ¬ P c2 →
  l1 ++ c1 :: t1 = l2 ++ c2 :: t2 → l1 = l2 ∧ c1 :: t1 = c2 :: t2.
Proof.
  intros H1. revert l2. induction H1 as [|x l1 Hx _ IH]; intros [|y l2] H2 Hc1 Hc2 E; cbn in E; [done|..].
  - injection E as -> _. by inversion H2.
  - injection E as -> _. done.
  - injection E as -> E. inversion H2; subst. destruct (IH l2) as [-> ->]; auto.
Qed.
Lemma str_inj s t : str s = str t → s = t.
Proof. intros H. rewrite <- (String.string_of_list_byte_of_string s), <- (String.string_of_list_byte_of_string t). unfold str in H. by rewrite H. Qed.

(** ** Hexadecimal text *)
Definition hex2 (x : byte) : string := hex_digit (byte_Z x / 16) +:+ hex_digit (byte_Z x mod 16).
Definition unhex (s : string) : byte :=
  match str s with a :: b :: _ => Z_byte (16 * default 0 (hex_value a) + default 0 (hex_value b)) | _ => x00 end.
Lemma hex2_ok x : String.length (hex2 x) = 2%nat ∧ unhex (hex2 x) = x.
Proof. destruct x; vm_compute; split; reflexivity. Qed.
Lemma EncodeToString_inj a b : EncodeToString a = EncodeToString b → a = b.
Proof.
  assert (Hc : ∀ x a, EncodeToString (x :: a) = hex2 x +:+ EncodeToString a).
  { intros x l. unfold hex2. by rewrite <- append_assoc. }
  revert b. induction a as [|x a IH]; intros [|y b]; rewrite ?Hc; [done| | |].
  1,2: intros E; apply (f_equal String.length) in E; rewrite append_length, (proj1 (hex2_ok _)) in E; cbn in E; lia.
  intros E. apply append_inj_len in E as [Ex Er]; [|by rewrite !(proj1 (hex2_ok _))].
  rewrite <- (proj2 (hex2_ok x)), <- (proj2 (hex2_ok y)), Ex. by rewrite (IH b Er).
Qed.

(** ** Decimal text *)
Definition is_digit (b : byte) : Prop := is_Some (digit_val b).
Definition dotdigit (b : byte) : Prop := is_digit b ∨ b = dot.

Lemma digits_go x s : Forall is_digit (str s) → Forall is_digit (str (pretty_N_go x s)).
Proof.
  revert s. induction (N.lt_wf_0 x) as [x _ IH]; intros s Hs.
  destruct (decide (x = 0%N)) as [->|]; [done|]. rewrite pretty_N_go_step by lia.
  apply IH; [by apply N.div_lt; lia|].
  change (str (String ?c s)) with (Ascii.byte_of_ascii c :: str s). constructor; [|done].
  unfold pretty_N_char, is_digit. repeat case_match; vm_compute; eauto.
Qed.
Lemma pretty_digits n : 0 ≤ n → Forall is_digit (str (pretty n)).
Proof.
  intros Hn. destruct n as [|p|p]; [repeat constructor; vm_compute; eauto| |lia].
  change (pretty (Z.pos p)) with (pretty (N.pos p)). unfold pretty, pretty_N. rewrite decide_False by done. by apply digits_go.
Qed.
Lemma pretty_nonempty (n : Z) : str (pretty n : string) ≠ [].
Proof.
  destruct n as [|p|p]; [done| |done]. change (pretty (Z.pos p)) with (pretty (N.pos p)).
  unfold pretty, pretty_N. rewrite decide_False by done. rewrite pretty_N_go_step by done. generalize (N.pos p `div` 10)%N. intros x.
  assert (Hl : ∀ x s, str s ≠ [] → str (pretty_N_go x s) ≠ []); [|by apply Hl].
  clear. intros x. induction (N.lt_wf_0 x) as [x _ IH]; intros s Hs. destruct (decide (x = 0%N)) as [->|]; [done|].
  rewrite pretty_N_go_step by lia. apply IH; [by apply N.div_lt; lia|done].
Qed.
Lemma dotted_chars n : Forall dotdigit (str (dotted n)).
Proof.
  assert (Hd : ∀ x, Forall dotdigit (str (pretty (x mod 256)))).
  { intros x. eapply Forall_impl; [apply pretty_digits, Z.mod_pos_bound; lia|]. by left. }
  unfold dotted. rewrite !str_app. change (str ".") with [dot].
  repeat (apply Forall_app; split); try apply Hd; repeat constructor; by right.
Qed.

(** ** Ports *)
(** The ports the conversions make: none, one, or a range. *)
Definition port_form (p : option Port) : Prop :=
  match p with
  | None => True
  | Some q => if IsRange q then ∃ a b, 0 ≤ a ∧ 0 ≤ b ∧ Values q = [a; b] else ∃ a, 0 ≤ a ∧ Values q = [a]
  end.
Definition port_text (p : option Port) : string := match p with Some p => Port_String p | None => "" end.
Definition comma : byte := x2c.

Lemma text_one a : ports_text [a] = pretty a.
Proof. unfold ports_text. cbn [foldl]. by rewrite bool_decide_eq_true_2. Qed.
Lemma text_two a b : str (ports_text [a; b]) = str (pretty a) ++ comma :: str (pretty b).
Proof.
  unfold ports_text. cbn [foldl]. rewrite (bool_decide_eq_true_2 (EmptyString = EmptyString)) by done.
  change (EmptyString +:+ pretty a) with (pretty a : string).
  rewrite bool_decide_eq_false_2; [by rewrite !str_app, <- app_assoc|]. intros E. apply (pretty_nonempty a). by rewrite E.
Qed.

Lemma not_digit b : digit_val b = None → ¬ is_digit b.
Proof. unfold is_digit. intros ->. by intros []. Qed.

Lemma str_range q a b : IsRange q = true → Values q = [a; b] →
  str (Port_String q) = str "range:" ++ str (pretty a) ++ comma :: str (pretty b).
Proof. intros E Ev. unfold Port_String. rewrite E, Ev, str_app, text_two. done. Qed.
Lemma str_single q a : IsRange q = false → Values q = [a] → str (Port_String q) = str (pretty a).
Proof. intros E Ev. unfold Port_String. by rewrite E, Ev, text_one. Qed.
Lemma digits_not_range n t : 0 ≤ n → str (pretty n) ≠ str "range:" ++ t.
Proof. intros Hn E. pose proof (pretty_digits n Hn) as H. rewrite E in H. apply Forall_inv in H. by destruct H. Qed.

Lemma port_text_inj p q : port_form p → port_form q → port_text p = port_text q → p = q.
Proof.
  intros Hp Hq E%(f_equal str). destruct p as [[rp vp]|], q as [[rq vq]|]; cbn [port_text] in E; [|..|done];
    destruct rp as [|] eqn:Erp || idtac; cbn in Hp, Hq.
  all: try destruct rq; repeat match goal with H : ∃ _, _ |- _ => destruct H as (? & H) end; destruct_and?; subst.
  all: repeat match type of E with context [Port_String ?q] => first [erewrite (str_range q) in E by reflexivity | erewrite (str_single q) in E by reflexivity] end.
  - apply app_inv_head in E. apply (split_inj is_digit) in E as [E1%str_inj [= E2%str_inj]]; auto using pretty_digits, not_digit.
    apply (inj pretty) in E1 as ->, E2 as ->. done.
  - by apply eq_sym, digits_not_range in E.
  - by apply digits_not_range in E.
  - apply str_inj, (inj pretty) in E as ->. done.
  - done.
  - by apply pretty_nonempty in E.
  - done.
  - by apply eq_sym, pretty_nonempty in E.
Qed.

(** ** Rule ids *)
Definition proto_form (p : string) : Prop :=
  p = ProtocolTCP ∨ p = ProtocolUDP ∨ p = ProtocolICMP ∨ p = ProtocolALL.
Definition direction_form (d : Z) : Prop := d = RuleDirection_IN ∨ d = RuleDirection_OUT.

Lemma proto_split p : proto_form p → ∃ c t, str p = c :: t ∧ ¬ dotdigit c.
Proof.
  intros [->|[->|[->| ->]]]; eexists _, _; (split; [reflexivity|]);
    intros [[]|]; done.
Qed.
Lemma proto_inj p q s t : proto_form p → proto_form q → str p ++ s = str q ++ t → p = q ∧ s = t.
Proof.
  intros [->|[->|[->| ->]]] [->|[->|[->| ->]]] E;
    first [by apply app_inv_head in E | discriminate E].
Qed.

(** The sixteen bytes of an IPv4 address give the address back. *)
Lemma slice_v4 n : 0 ≤ n < 2 ^ 32 → ∃ a, AddrFromSlice (As16 (v4 n)) = Some a ∧ unmap a = v4 n.
Proof.
  intros Hn. assert (Hb : be_Z (As16 (v4 n)) = 0xFFFF * 2 ^ 32 + n).
  { pose proof (be_As4 (v4 n) eq_refl Hn) as [= H4]. rewrite <- H4 at 2. unfold be_Z, As16, be4, As4.
    cbn [ad_v6 v4 replicate app foldl ad_num]. generalize (Z_byte (Z.shiftr n 24)) (Z_byte (Z.shiftr n 16)) (Z_byte (Z.shiftr n 8)) (Z_byte n).
    intros b0 b1 b2 b3. change (byte_Z x00) with 0. change (byte_Z xff) with 255. ring. }
  unfold AddrFromSlice. change (length (As16 (v4 n))) with 16%nat. rewrite bool_decide_eq_false_2, bool_decide_eq_true_2 by done. rewrite Hb.
  eexists. split; [reflexivity|]. unfold unmap. cbn [ad_v6 v6 ad_num andb].
  assert (Hs : Z.shiftr (0xFFFF * 2 ^ 32 + n) 32 = 0xFFFF).
  { rewrite Z.shiftr_div_pow2 by lia. rewrite Z.add_comm, Z.div_add, Z.div_small by lia. lia. }
  rewrite Hs. change (65535 =? 65535) with true. f_equal. rewrite Z.add_comm, Z.mod_add, Z.mod_small by lia. done.
Qed.
Lemma IP_text_v4 n : 0 ≤ n < 2 ^ 32 → IP_text (As16 (v4 n)) = dotted n.
Proof.
  intros (a & Ea & Eu)%slice_v4.
  assert (Hi : IP_text (As16 (v4 n)) = match AddrFromSlice (As16 (v4 n)) with Some a => Addr_String (unmap a) | None => "?" +:+ EncodeToString (As16 (v4 n)) end)
    by done.
  by rewrite Hi, Ea, Eu.
Qed.
Lemma dotted_inj n m : 0 ≤ n < 2 ^ 32 → 0 ≤ m < 2 ^ 32 → dotted n = dotted m → n = m.
Proof. intros Hn Hm E. apply parse_dotted in Hn, Hm. rewrite E in Hn. congruence. Qed.

Definition v4_form (ip : bytes) : Prop := ∃ n, 0 ≤ n < 2 ^ 32 ∧ ip = As16 (v4 n).

Lemma rule_id_inj ip1 ip2 p1 p2 d1 d2 t1 t2 a1 a2 :
  v4_form ip1 → v4_form ip2 → proto_form p1 → proto_form p2 → direction_form d1 → direction_form d2 →
  port_form t1 → port_form t2 →
  getPeerRuleID ip1 p1 d1 t1 a1 = getPeerRuleID ip2 p2 d2 t2 a2 →
  ip1 = ip2 ∧ p1 = p2 ∧ d1 = d2 ∧ t1 = t2 ∧ a1 = a2.
Proof.
  intros (n1 & Hn1 & ->) (n2 & Hn2 & ->) Hp1 Hp2 Hd1 Hd2 Ht1 Ht2 E%EncodeToString_inj%app_inv_tail.
  unfold id_text in E. rewrite !IP_text_v4, !str_app in E by done. fold (port_text t1) (port_text t2) in E.
  destruct (proto_split p1 Hp1) as (c1 & r1 & Es1 & Hc1), (proto_split p2 Hp2) as (c2 & r2 & Es2 & Hc2).
  rewrite Es1, Es2 in E. cbn [app] in E. apply (split_inj dotdigit) in E as [En E]; auto using dotted_chars.
  apply str_inj, dotted_inj in En as ->; [|done..]. rewrite !app_comm_cons, <- Es1, <- Es2 in E. apply proto_inj in E as [-> E]; [|done..].
  destruct Hd1 as [-> | ->], Hd2 as [-> | ->], a1, a2; try discriminate E;
    injection E as E; apply str_inj, port_text_inj in E as ->; done.
Qed.
