(* ===== verification/AclSync.v ===== *)
(** What a firewall promises to the ACL manager of [AclManager], and what the manager then
    guarantees: after a network map was applied without an error, the firewall has a rule for
    everything the map says and nothing else; and what is left after an error.

    A firewall rule is [live] when the firewall has it and [issued] when the firewall has returned
    it at some time. *)
From S2P Require Import Prelude GoText NetIP FirewallRules NetParse AclManager AclKeys.
Open Scope Z_scope.

(** ** The promises of a firewall *)
Class FirewallView (F R : Type) := {
  fw_ok : F → Prop;
  live : F → R → Prop;
  issued : F → R → Prop;
  (** The rule does what the request asks for. *)
  implements : R → peer_filter → Prop;
  (** The request is not refused. *)
  accepts : peer_filter → Prop;
  route_keys : F → gset string;
  route_key : route_filter → string }.

Section keeps.
Context {F R : Type} `{Firewall F R} `{!FirewallView F R}.
(** What every operation leaves as it is. *)
Record keeps (f f' : F) : Prop := {
  keeps_ok : fw_ok f';
  keeps_stateful : fw_IsStateful f' = fw_IsStateful f;
  keeps_issued : ∀ r : R, issued f r → issued f' r }.
Definition same_live (f f' : F) : Prop := ∀ r : R, live f' r ↔ live f r.
End keeps.

(** The ports of the requests. *)
Definition filter_form (q : peer_filter) : Prop := port_form (pf_sPort q) ∧ port_form (pf_dPort q).

Class FirewallLaws (F R : Type) `{Firewall F R} `{!FirewallView F R} := {
  law_live f (r : R) : fw_ok f → live f r → issued f r;
  law_add id q name f res f' : fw_ok f → filter_form q → fw_AddPeerFiltering id q name f = (res, f') →
    keeps f f' ∧ route_keys f' = route_keys f
    ∧ match res with
      | Some rs => rs ≠ [] ∧ (∀ r, r ∈ rs → implements r q ∧ ¬ issued f r ∧ issued f' r) ∧ (∀ r, live f' r ↔ live f r ∨ r ∈ rs)
      | None => ¬ accepts q ∧ same_live f f'
      end;
  law_delete r f b f' : fw_ok f → issued f r → fw_DeletePeerRule r f = (b, f') →
    keeps f f' ∧ route_keys f' = route_keys f ∧ ∀ r', live f' r' ↔ live f r' ∧ r' ≠ r;
  law_add_route id q f res f' : fw_ok f → port_form (rq_dPort q) → fw_AddRouteFiltering id q f = (res, f') →
    keeps f f' ∧ same_live f f'
    ∧ match res with
      | Some k => k = route_key q ∧ route_keys f' = {[ k ]} ∪ route_keys f
      | None => route_keys f' = route_keys f
      end;
  law_delete_route k f b f' : fw_ok f → fw_DeleteRouteRule k f = (b, f') →
    keeps f f' ∧ same_live f f' ∧ route_keys f' = route_keys f ∖ {[ k ]};
  law_flush f : fw_ok f → keeps f (fw_Flush f).2 ∧ same_live f (fw_Flush f).2 ∧ route_keys (fw_Flush f).2 = route_keys f }.

(** ** What the rules of a map ask for *)
Definition filter_of (direction : Z) (ip : bytes) (proto : string) (port : option Port) (action : Action) : peer_filter :=
  if direction =? RuleDirection_IN
  then {| pf_ip := ip; pf_proto := proto; pf_sPort := None; pf_dPort := port; pf_action := action |}
  else {| pf_ip := ip; pf_proto := proto; pf_sPort := port; pf_dPort := None; pf_action := action |}.
(** Outgoing rules matter to a stateless firewall only, and there when they name ports. *)
Definition relevant (stateful : bool) (direction : Z) (proto : string) (port : option Port) : Prop :=
  direction = RuleDirection_IN
  ∨ direction = RuleDirection_OUT ∧ stateful = false ∧ shouldSkipInvertedRule proto port = false.
Definition asks_for (stateful : bool) (r : FirewallRule) (q : peer_filter) : Prop :=
  ∃ ip proto act port, rule_args r = Ret (ip, proto, act, port) ∧ relevant stateful (fr_Direction r) proto port
    ∧ q = filter_of (fr_Direction r) ip proto port act.
(** The rule is well formed and about an address of the overlay network. *)
Definition rule_ok (r : FirewallRule) : Prop :=
  direction_form (fr_Direction r) ∧ ∃ ip proto act port, rule_args r = Ret (ip, proto, act, port) ∧ v4_form ip.

(** The id [k] belongs to the request [q]. *)
Definition entry (stateful : bool) (k : string) (q : peer_filter) : Prop :=
  ∃ ip proto d port act, v4_form ip ∧ proto_form proto ∧ direction_form d ∧ port_form port ∧ relevant stateful d proto port
    ∧ k = getPeerRuleID ip proto d port act ∧ q = filter_of d ip proto port act.
Lemma entry_inj s k q q' : entry s k q → entry s k q' → q = q'.
Proof.
  intros (ip & p & d & t & a & Hip & Hp & Hd & Ht & _ & -> & ->) (ip' & p' & d' & t' & a' & Hip' & Hp' & Hd' & Ht' & _ & E & ->).
  by apply rule_id_inj in E as (-> & -> & -> & -> & ->).
Qed.

Lemma convert_proto p s : convertToFirewallProtocol p = Some s → proto_form s.
Proof. unfold convertToFirewallProtocol, proto_form. repeat destruct (_ =? _); naive_solver. Qed.
Lemma convert_port i : port_form (convertPortInfo i).
Proof.
  unfold convertPortInfo. destruct i as [i|]; [|done]. assert (H : ∀ z, 0 ≤ wrap_u16 z) by (intros; apply wrap_bound; lia).
  destruct (GetPort i =? 0); cbn; [|by eauto]. destruct (GetRange i) as [[s e]|]; cbn; [|done]. by eauto 6.
Qed.
Lemma or_err_inv {A} e (o : option A) a : or_err e o = Ret a → o = Some a.
Proof. by destruct o; intros [= ->]. Qed.
Lemma rule_args_form r ip p a t : rule_args r = Ret (ip, p, a, t) → proto_form p ∧ port_form t.
Proof.
  unfold rule_args. intros (ip' & _ & H)%bind_Ret_inv. apply bind_Ret_inv in H as (p' & Hp%or_err_inv & H).
  apply bind_Ret_inv in H as (a' & _ & H). apply bind_Ret_inv in H as (t' & Ht & [= <- <- <- <-]). split; [by eapply convert_proto|].
  unfold rule_port in Ht. destruct (portInfoEmpty _); cbn [negb] in Ht; [|injection Ht as <-; apply convert_port].
  destruct (bool_decide (fr_Port r = "")); cbn [negb] in Ht; [by injection Ht as <-|].
  apply bind_Ret_inv in Ht as (v & _ & [= <-]). eexists. split; [|done]. apply wrap_bound. lia.
Qed.

(** ** The manager and its firewall *)
Section sync.
Context {F R : Type} `{FirewallLaws F R}.
Context (order : gmap string (list R) → list (string * list R)) (selector : FirewallRule → string).
Context (ToUnicode : string → option string).
Context (Horder : ∀ m, order m ≡ₚ map_to_list m).
(** The firewall rules that others than the manager have installed. *)
Context (other : R → Prop).
Implicit Types (f : F) (d : DefaultManager R) (m : gmap string (list R)).

Definition in_pairs m (r : R) : Prop := ∃ k rs, m !! k = Some rs ∧ r ∈ rs.
(** Holds always. *)
Record acl_inv m f : Prop := {
  inv_fw : fw_ok f;
  inv_issued : ∀ r, in_pairs m r → issued f r;
  inv_live : ∀ r, live f r → in_pairs m r ∨ other r;
  inv_other : ∀ r, other r → issued f r ∧ ¬ in_pairs m r;
  inv_disjoint : ∀ k k' rs rs' r, m !! k = Some rs → m !! k' = Some rs' → r ∈ rs → r ∈ rs' → k = k' }.
(** Every pair does what its id says. *)
Definition entries (stateful : bool) m : Prop :=
  ∀ k rs, m !! k = Some rs → rs ≠ [] ∧ ∃ q, entry stateful k q ∧ ∀ r, r ∈ rs → implements r q.
(** Holds until an error. *)
Definition all_live m f : Prop := ∀ r, in_pairs m r → live f r.

(** *** Deleting rules *)
Lemma fw_keeps_trans f1 f2 f3 : keeps (R := R) f1 f2 → keeps (R := R) f2 f3 → keeps (R := R) f1 f3.
Proof. intros [? H1 ?] [? H2 ?]. split; [done|by rewrite H2|auto]. Qed.
Lemma fw_keeps_refl f : fw_ok f → keeps (R := R) f f.
Proof. by split. Qed.

Lemma delete_all_spec rs f : fw_ok f → (∀ r, r ∈ rs → issued f r) →
  keeps (R := R) f (delete_all rs f) ∧ route_keys (delete_all rs f) = route_keys f
  ∧ ∀ r, live (delete_all rs f) r ↔ live f r ∧ r ∉ rs.
Proof.
  unfold delete_all. revert f. induction rs as [|x rs IH]; intros f Hf Hi; cbn [foldl].
  { split; [by apply fw_keeps_refl|]. split; [done|]. intros r. set_solver. }
  destruct (fw_DeletePeerRule x f) as [b f1] eqn:E. apply law_delete in E as (Hk & Hr & Hl); [|done|apply Hi; by left]. cbn [snd].
  destruct (IH f1) as (Hk2 & Hr2 & Hl2); [apply Hk|intros r Hin; apply Hk, Hi; by right|].
  split; [by eapply fw_keeps_trans|]. split; [congruence|]. intros r. rewrite Hl2, Hl. set_solver.
Qed.
Lemma delete_pairs_spec (b : string * list R → bool) l f : fw_ok f → (∀ p r, p ∈ l → r ∈ p.2 → issued f r) →
  let f' := foldl (λ f p, if b p then f else delete_all p.2 f) f l in
  keeps (R := R) f f' ∧ route_keys f' = route_keys f ∧ ∀ r, live f' r ↔ live f r ∧ ∀ p, p ∈ l → b p = false → r ∉ p.2.
Proof.
  cbv zeta. revert f. induction l as [|x l IH]; intros f Hf Hi; cbn [foldl].
  { split; [by apply fw_keeps_refl|]. split; [done|]. intros r. set_solver. }
  destruct (b x) eqn:Eb.
  { destruct (IH f) as (Hk & Hr & Hl); [done|intros p r Hp; apply Hi; by right|]. split; [done|]. split; [done|].
    intros r. rewrite Hl. split; intros [? Hn]; (split; [done|]); intros p; [|intros Hp; apply Hn; by right].
    intros [->|Hp]%elem_of_cons; [congruence|by apply Hn]. }
  destruct (delete_all_spec x.2 f Hf) as (Hk & Hr & Hl); [intros r; apply Hi; by left|].
  destruct (IH (delete_all x.2 f)) as (Hk2 & Hr2 & Hl2); [apply Hk|intros p r Hp Hin; eapply Hk, Hi; [by right|done]|].
  split; [by eapply fw_keeps_trans|]. split; [congruence|]. intros r. rewrite Hl2, Hl. split.
  - intros [[Hlv Hx] Hn]. split; [done|]. intros p [->|Hp]%elem_of_cons; [done|by apply Hn].
  - intros [Hlv Hn]. split; [split; [done|]; apply Hn; [by left|done]|]. intros p Hp. apply Hn. by right.
Qed.
Lemma foldl_same {A B} (g h : A → B → A) l a : (∀ a b, g a b = h a b) → foldl g a l = foldl h a l.
Proof. intros E. revert a. induction l as [|x l IH]; intros a; cbn; [done|]. by rewrite E. Qed.

(** *** One rule *)
Lemma acl_inv_same m f f' : acl_inv m f → keeps (R := R) f f' → same_live (R := R) f f' → acl_inv m f'.
Proof.
  intros [Hf Hi Hl Ho Hd] Hk Hs. split; [apply Hk|intros r Hr; by apply Hk, Hi|intros r Hr; by apply Hl, Hs| |done].
  intros r Hr. split; [apply Hk|]; by apply Ho.
Qed.
(** The firewall returned the rules [rs] for a new id. *)
Lemma acl_inv_add m f f' k rs : acl_inv m f → m !! k = None → keeps (R := R) f f' →
  (∀ r, r ∈ rs → ¬ issued f r ∧ issued f' r) → (∀ r, live f' r ↔ live f r ∨ r ∈ rs) → acl_inv (<[k := rs]> m) f'.
Proof.
  intros [Hf Hi Hl Ho Hd] Hk Hkeep Hrs Hlive.
  assert (Hnew : ∀ r k' rs', r ∈ rs → m !! k' = Some rs' → r ∉ rs').
  { intros r k' rs' Hr Hk' Hr'. apply (Hrs r Hr), Hi. by exists k', rs'. }
  split; [apply Hkeep|..].
  - intros r (k' & rs' & Hk' & Hr). apply lookup_insert_Some in Hk' as [[<- <-]|[_ Hk']]; [by apply Hrs|].
    apply Hkeep, Hi. by exists k', rs'.
  - intros r [[(k' & rs' & Hk' & Hr)|Hr]%Hl|Hr]%Hlive; [left|by right|left].
    + exists k', rs'. split; [|done]. rewrite lookup_insert_ne; [done|congruence].
    + exists k, rs. by rewrite lookup_insert_eq.
  - intros r [Hr Hn]%Ho. split; [by apply Hkeep|]. intros (k' & rs' & Hk' & Hin).
    apply lookup_insert_Some in Hk' as [[<- <-]|[_ Hk']]; [by apply (Hrs r Hin)|]. apply Hn. by exists k', rs'.
  - intros k1 k2 rs1 rs2 r [[<- <-]|[_ H1]]%lookup_insert_Some [[<- <-]|[_ H2]]%lookup_insert_Some Hr1 Hr2; [done|..|by eapply Hd].
    + by destruct (Hnew r k2 rs2 Hr1 H2).
    + by destruct (Hnew r k1 rs1 Hr2 H1).
Qed.

(** What the answer to one rule says: an id with rules that were there, or that are new, or
    nothing to install. *)
Definition answered m f (r : FirewallRule) (res : outcome acl_err (string * list R)) (f' : F) : Prop :=
  keeps (R := R) f f' ∧ route_keys f' = route_keys f
  ∧ match res with
    | Ret (k, rs) =>
        m !! k = Some rs ∧ f' = f ∧ (∃ ip p a t, rule_args r = Ret (ip, p, a, t) ∧ k = getPeerRuleID ip p (fr_Direction r) t a)
        ∨ rs = [] ∧ same_live (R := R) f f' ∧ (∀ q, ¬ asks_for (fw_IsStateful f) r q)
        ∨ m !! k = None ∧ rs ≠ [] ∧ (∀ x, x ∈ rs → ¬ issued f x ∧ issued f' x) ∧ (∀ x, live f' x ↔ live f x ∨ x ∈ rs)
          ∧ ∃ ip p a t, rule_args r = Ret (ip, p, a, t) ∧ k = getPeerRuleID ip p (fr_Direction r) t a
            ∧ relevant (fw_IsStateful f) (fr_Direction r) p t ∧ ∀ x, x ∈ rs → implements x (filter_of (fr_Direction r) ip p t a)
    | _ => same_live (R := R) f f'
           ∧ (rule_ok r → ∃ q, asks_for (fw_IsStateful f) r q ∧ ¬ accepts (R := R) q)
    end.

Lemma rule_answered d f r name res f' : fw_ok f → protoRuleToFirewallRule d r name f = (res, f') →
  answered (peerRulesPairs d) f r res f'.
Proof.
  intros Hf. unfold protoRuleToFirewallRule.
  destruct (rule_args r) as [[[[ip p] a] t]|e|] eqn:Ea.
  2,3: intros [= <- <-]; unfold answered; split; [by apply fw_keeps_refl|]; split; [done|]; split; [done|]; intros (_ & ? & ? & ? & ? & ? & _); congruence.
  destruct (peerRulesPairs d !! _) as [rs|] eqn:Ek.
  { intros [= <- <-]. split; [by apply fw_keeps_refl|]. split; [done|]. left. eauto 12. }
  assert (Hadd : ∀ q, relevant (fw_IsStateful f) (fr_Direction r) p t → q = filter_of (fr_Direction r) ip p t a →
    added (getPeerRuleID ip p (fr_Direction r) t a) (fw_AddPeerFiltering (fr_PolicyID r) q name f) = (res, f') →
    answered (peerRulesPairs d) f r res f').
  { intros q Hrel Hq. unfold added, answered. destruct (fw_AddPeerFiltering _ _ _ _) as [res' f1] eqn:E.
    apply law_add in E as (Hk & Hr & Hres); [|done|]; last first.
    { rewrite Hq. unfold filter_form, filter_of. destruct (_ =? _); cbn; destruct (rule_args_form _ _ _ _ _ Ea); done. }
    intros [= <- <-]. cbn [fst snd]. split; [done|]. split; [done|].
    destruct res' as [rs|].
    - destruct Hres as (Hne & Hrs & Hl). right; right. split; [done|]. split; [done|]. split; [intros x Hx; by apply Hrs|]. split; [done|].
      exists ip, p, a, t. split; [done|]. split; [done|]. split; [done|]. intros x Hx. rewrite <- Hq. by apply Hrs.
    - destruct Hres as [Hno Hs]. split; [done|]. intros _. exists q. split; [|done]. by exists ip, p, a, t. }
  unfold filter_of in Hadd. destruct (Z.eqb_spec (fr_Direction r) RuleDirection_IN) as [Ein|Ein].
  { intros E. by eapply Hadd; [left| |exact E]. }
  destruct (Z.eqb_spec (fr_Direction r) RuleDirection_OUT) as [Eout|Eout].
  2:{ intros [= <- <-]. unfold answered. split; [by apply fw_keeps_refl|]. split; [done|]. split; [done|]. intros [[?|?] _]; done. }
  assert (Hnot : ¬ relevant (fw_IsStateful f) (fr_Direction r) p t → ∀ q, ¬ asks_for (fw_IsStateful f) r q).
  { intros Hn q (ip' & p' & a' & t' & Ea' & Hrel & _). rewrite Ea in Ea'. by injection Ea' as <- <- <- <-. }
  destruct (fw_IsStateful f) eqn:Es.
  { intros [= <- <-]. split; [by apply fw_keeps_refl|]. split; [done|]. right; left. split; [done|]. split; [done|]. rewrite Es. apply Hnot.
    intros [?|(_ & ? & _)]; done. }
  unfold addOutRules. destruct (shouldSkipInvertedRule p t) eqn:Esk.
  { intros [= <- <-]. split; [by apply fw_keeps_refl|]. split; [done|]. right; left. split; [done|]. split; [done|]. rewrite Es. apply Hnot.
    intros [?|(_ & _ & ?)]; congruence. }
  intros E. eapply Hadd; [right|reflexivity|exact E]. done.
Qed.

(** *** The loop over the rules *)
Record in_sync (s : bool) m f : Prop := {
  sync_inv : acl_inv m f;
  sync_entries : entries s m;
  sync_live : all_live m f;
  sync_stateful : fw_IsStateful f = s }.
(** The rule is well formed and the firewall takes it. *)
Definition installable (s : bool) (r : FirewallRule) : Prop := rule_ok r ∧ ∀ q, asks_for s r q → accepts (R := R) q.

Lemma asks_for_fun s r q q' : asks_for s r q → asks_for s r q' → q = q'.
Proof. intros (? & ? & ? & ? & E & _ & ->) (? & ? & ? & ? & E' & _ & ->). congruence. Qed.
Lemma entry_asks s r ip p a t q : rule_ok r → rule_args r = Ret (ip, p, a, t) →
  entry s (getPeerRuleID ip p (fr_Direction r) t a) q → asks_for s r q.
Proof.
  intros (Hd & ip' & p' & a' & t' & Ea' & Hip) Ea (ip2 & p2 & d2 & t2 & a2 & Hip2 & Hp2 & Hd2 & Ht2 & Hrel & Ek & ->).
  rewrite Ea in Ea'. injection Ea' as <- <- <- <-. destruct (rule_args_form _ _ _ _ _ Ea) as [Hp Ht].
  apply rule_id_inj in Ek as (<- & <- & <- & <- & <-); [|done..]. by exists ip, p, a, t.
Qed.
Lemma asks_entry s r ip p a t : rule_ok r → rule_args r = Ret (ip, p, a, t) → relevant s (fr_Direction r) p t →
  entry s (getPeerRuleID ip p (fr_Direction r) t a) (filter_of (fr_Direction r) ip p t a)
  ∧ asks_for s r (filter_of (fr_Direction r) ip p t a).
Proof.
  intros (Hd & ip' & p' & a' & t' & Ea' & Hip) Ea Hrel. rewrite Ea in Ea'. injection Ea' as <- <- <- <-.
  destruct (rule_args_form _ _ _ _ _ Ea) as [Hp Ht]. split; [by exists ip, p, (fr_Direction r), t, a|by exists ip, p, a, t].
Qed.

(** The rules of others stay. *)
Definition others_stay f f' : Prop := ∀ x, other x → live f' x ↔ live f x.
Lemma answered_others m f r res f' : acl_inv m f → answered m f r res f' → others_stay f f'.
Proof.
  intros Hinv (_ & _ & Hres) x Hx. destruct (inv_other _ _ Hinv x Hx) as [Hi _]. destruct res as [[k rs]|e|]; [|by destruct Hres..].
  destruct Hres as [(_ & -> & _)|[(_ & Hs & _)|(_ & _ & Hnew & Hl & _)]]; [done|by apply Hs|]. rewrite Hl. split; [|by left].
  intros [?|Hin]; [done|]. by destruct (Hnew x Hin).
Qed.

(** One rule that can be installed leaves the firewall in sync, and its id in the pairs. *)
Lemma one_rule s m f r k rs f' : in_sync s m f → installable s r → answered m f r (Ret (k, rs)) f' →
  if bool_decide (rs = []) then in_sync s m f' ∧ ∀ q, ¬ asks_for s r q
  else in_sync s (<[k := rs]> m) f' ∧ (m !! k = None ∨ m !! k = Some rs) ∧ ∃ q, entry s k q ∧ asks_for s r q.
Proof.
  intros [Hinv Hent Hlive Hs] [Hok Hacc] (Hk & _ & Hres). assert (Hs' : fw_IsStateful f' = s) by (rewrite <- Hs; apply Hk).
  destruct Hres as [(Hm & -> & ip & p & a & t & Ea & ->)|[(-> & Hsl & Hno)|(Hm & Hne & Hnew & Hl & ip & p & a & t & Ea & -> & Hrel & Himp)]].
  - destruct (Hent _ _ Hm) as (Hne & q & Hq & _). rewrite bool_decide_eq_false_2 by done. rewrite insert_id by done.
    split; [done|]. split; [by right|]. exists q. split; [done|]. by eapply entry_asks.
  - rewrite bool_decide_eq_true_2 by done. rewrite <- Hs. split; [|done]. rewrite Hs. split; [by eapply acl_inv_same|done| |done].
    intros r' Hr'. by apply Hsl, Hlive.
  - rewrite bool_decide_eq_false_2 by done. rewrite Hs in Hrel. destruct (asks_entry s r ip p a t Hok Ea Hrel) as [He Ha].
    split; [|split; [by left|by eexists]]. split; [by eapply acl_inv_add| | |done].
    + intros k' rs' [[<- <-]|[_ Hk']]%lookup_insert_Some; [|by apply Hent]. split; [done|]. eexists. split; [exact He|]. done.
    + intros x (k' & rs' & Hk' & Hx). apply Hl. apply lookup_insert_Some in Hk' as [[_ <-]|[_ Hk']]; [by right|]. left.
      apply Hlive. by exists k', rs'.
Qed.

Lemma ipset_for_pairs sel d sets name d' sets' : ipset_for sel d sets = (name, d', sets') →
  peerRulesPairs d' = peerRulesPairs d ∧ dm_routeRules d' = dm_routeRules d.
Proof. unfold ipset_for. destruct (sets !! sel); by intros [= <- <- <-]. Qed.

Lemma add_rules_ok s rules sets new d f d' new' f' : in_sync s (peerRulesPairs d) f → new ⊆ peerRulesPairs d →
  (∀ r, r ∈ rules → installable s r) → add_rules order selector rules sets new d f = (d', new', f') →
  in_sync s (peerRulesPairs d') f' ∧ new' ⊆ peerRulesPairs d' ∧ dm_routeRules d' = dm_routeRules d
  ∧ route_keys f' = route_keys f ∧ others_stay f f' ∧ new ⊆ new'
  ∧ (∀ r q, r ∈ rules → asks_for s r q → ∃ k, is_Some (new' !! k) ∧ entry s k q)
  ∧ (∀ k, is_Some (new' !! k) → is_Some (new !! k) ∨ ∃ r q, r ∈ rules ∧ asks_for s r q ∧ entry s k q).
Proof.
  revert sets new d f. induction rules as [|r rules IH]; intros sets new d f Hsync Hsub Hall; cbn [add_rules].
  { intros [= <- <- <-]. split_and!; try done; [|by left]. intros r q Hr. by apply not_elem_of_nil in Hr. }
  destruct (ipset_for _ _ _) as [[name d1] sets1] eqn:Ei. apply ipset_for_pairs in Ei as [Ep Er]. rewrite <- Ep in Hsync, Hsub. rewrite <- Er.
  destruct (protoRuleToFirewallRule d1 r name f) as [res f1] eqn:E.
  assert (Hok : fw_ok f) by apply Hsync. apply rule_answered in E as Ha; [|done].
  assert (Hr : installable s r) by (apply Hall; by left). assert (Hrest : ∀ r, r ∈ rules → installable s r) by (intros; apply Hall; by right).
  assert (Hkeys : route_keys f1 = route_keys f) by apply Ha. assert (Hoth : others_stay f f1) by (eapply answered_others; [apply Hsync|done]).
  destruct res as [[k rs]|e|].
  2,3: destruct Ha as (_ & _ & _ & Hbad); destruct Hr as [Hr Hacc]; destruct (Hbad Hr) as (q & Hq & Hno);
    destruct Hno; apply Hacc; destruct Hsync as [_ _ _ <-]; done.
  pose proof (one_rule s _ _ _ _ _ _ Hsync Hr Ha) as Hone. destruct (bool_decide (rs = [])).
  - destruct Hone as [Hsync1 Hno]. intros Hrun. apply IH in Hrun as (? & ? & ? & Ek & Ho2 & ? & Hask & Hback); [|done..].
    rewrite Ek, Hkeys. split_and!; try done; [intros x Hx; by rewrite (Ho2 x Hx), (Hoth x Hx)|..].
    + intros r' q [->|Hin]%elem_of_cons Hq; [by destruct (Hno q)|by eapply Hask].
    + intros k' [?|(r' & q & ? & ?)]%Hback; [by left|]. right. exists r', q. split; [by right|done].
  - destruct Hone as (Hsync1 & Hm & q0 & Hent & Hask0).
    assert (Hsub1 : <[k := rs]> new ⊆ <[k := rs]> (peerRulesPairs d1)) by by apply insert_mono.
    assert (Hnew : new ⊆ <[k := rs]> new).
    { apply map_subseteq_spec. intros k' rs' Hk'. pose proof (lookup_weaken _ _ _ _ Hk' Hsub) as Hp.
      apply lookup_insert_Some. destruct (decide (k = k')) as [<-|]; [left|by right]. split; [done|].
      destruct Hm as [Hm|Hm]; congruence. }
    intros Hrun. apply IH in Hrun as (? & ? & ? & Ek & Ho2 & Hmono & Hask & Hback); [|done..].
    rewrite Ek, Hkeys. split_and!; try done; [intros x Hx; by rewrite (Ho2 x Hx), (Hoth x Hx)|by etrans|..].
    + intros r' q [->|Hin]%elem_of_cons Hq; [|by eapply Hask]. exists k. split; [|by rewrite (asks_for_fun s r q q0)].
      exists rs. eapply lookup_weaken; [|exact Hmono]. apply lookup_insert_eq.
    + intros k' [[rs' Hk']|(r' & q & ? & ?)]%Hback.
      * apply lookup_insert_Some in Hk' as [[<- _]|[_ Hk']]; [|left; by eexists]. right. exists r, q0. split; [by left|done].
      * right. exists r', q. split; [by right|done].
Qed.

(** The loop over a list whose first rules can be installed. *)
Lemma add_rules_app s pre rest sets new d f : in_sync s (peerRulesPairs d) f → (∀ r, r ∈ pre → installable s r) →
  ∃ sets', add_rules order selector (pre ++ rest) sets new d f
           = (let '(d', new', f') := add_rules order selector pre sets new d f in add_rules order selector rest sets' new' d' f').
Proof.
  revert sets new d f. induction pre as [|r pre IH]; intros sets new d f Hsync Hall; cbn [app add_rules]; [by exists sets|].
  destruct (ipset_for _ _ _) as [[name d1] sets1] eqn:Ei. apply ipset_for_pairs in Ei as [Ep Er]. rewrite <- Ep in Hsync.
  destruct (protoRuleToFirewallRule d1 r name f) as [res f1] eqn:E. apply rule_answered in E as Ha; [|apply Hsync].
  assert (Hr : installable s r) by (apply Hall; by left). assert (Hrest : ∀ r, r ∈ pre → installable s r) by (intros; apply Hall; by right).
  destruct res as [[k rs]|e|].
  2,3: destruct Ha as (_ & _ & _ & Hbad); destruct Hr as [Hr Hacc]; destruct (Hbad Hr) as (q & Hq & Hno);
    destruct Hno; apply Hacc; destruct Hsync as [_ _ _ <-]; done.
  pose proof (one_rule s _ _ _ _ _ _ Hsync Hr Ha) as Hone. destruct (bool_decide (rs = [])); apply IH; [apply Hone|done|apply Hone|done].
Qed.

(** *** Applying the peer rules of a network map *)
Lemma delete_stale_spec new m f : acl_inv m f → new ⊆ m →
  let f' := foldl (delete_stale new) f (order m) in
  keeps (R := R) f f' ∧ route_keys f' = route_keys f ∧ acl_inv new f' ∧ ∀ x, live f' x ↔ live f x ∧ (in_pairs new x ∨ other x).
Proof.
  intros [Hf Hi Hl Ho Hd] Hsub. cbv zeta. set (b := λ p : string * list R, bool_decide (is_Some (new !! p.1))).
  rewrite (foldl_same (delete_stale new) (λ f p, if b p then f else delete_all p.2 f)).
  2:{ intros g p. unfold delete_stale, b. destruct (new !! p.1); [by rewrite bool_decide_eq_true_2|].
      rewrite bool_decide_eq_false_2; [done|]. by intros []. }
  assert (Hin : ∀ p, p ∈ order m ↔ m !! p.1 = Some p.2) by (intros [k rs]; rewrite Horder, elem_of_map_to_list; done).
  destruct (delete_pairs_spec b (order m) f Hf) as (Hk & Hr & Hlive).
  { intros p r Hp Hx. apply Hi. exists p.1, p.2. by rewrite <- Hin. }
  assert (Hlive' : ∀ x, live (foldl (λ f p, if b p then f else delete_all p.2 f) f (order m)) x ↔ live f x ∧ (in_pairs new x ∨ other x)).
  { intros x. rewrite Hlive. split; intros [Hx Hn]; (split; [done|]).
    - destruct (Hl x Hx) as [(k & rs & Hm & Hr')|]; [left|by right]. destruct (new !! k) as [rs'|] eqn:Ek.
      + exists k, rs'. split; [done|]. eapply lookup_weaken in Ek; [|exact Hsub]. congruence.
      + destruct (Hn (k, rs)); [by apply Hin| |done]. unfold b. cbn [fst]. rewrite Ek. by apply bool_decide_eq_false_2; intros [].
    - intros [k rs] Hp%Hin Hb Hx'. destruct Hn as [(k' & rs' & Hk' & Hr')|Hn%Ho]; [|by destruct Hn as [_ []]; exists k, rs]. cbn in *. apply bool_decide_eq_false in Hb. cbn in Hb. apply Hb.
      assert (k = k') as -> by (eapply Hd; [done|eapply lookup_weaken; [exact Hk'|done]|done|done]). by eexists. }
  split; [done|]. split; [done|]. split; [|done]. split; [apply Hk|..].
  - intros r (k & rs & Hm & Hr'). apply Hk, Hi. exists k, rs. split; [|done]. by eapply lookup_weaken.
  - intros r Hx%Hlive'. apply Hx.
  - intros r [Hr' Hn]%Ho. split; [by apply Hk|]. intros (k & rs & Hm & Hin'). apply Hn. exists k, rs. split; [|done]. by eapply lookup_weaken.
  - intros k k' rs rs' r H1 H2. eapply Hd; eapply lookup_weaken; eauto.
Qed.

(** The firewall has what the rules ask for, and nothing else but the rules of others. *)
Definition reflects (s : bool) (rules : list FirewallRule) f : Prop :=
  (∀ x, live f x → other x ∨ ∃ r q, r ∈ rules ∧ asks_for s r q ∧ implements x q)
  ∧ (∀ r q, r ∈ rules → asks_for s r q → ∃ x, live f x ∧ implements x q).

Lemma applyPeerACLs_spec s nm d f d' f' : in_sync s (peerRulesPairs d) f → (∀ r, r ∈ effective_rules nm → installable s r) →
  applyPeerACLs order selector nm d f = (d', f') →
  in_sync s (peerRulesPairs d') f' ∧ reflects s (effective_rules nm) f' ∧ others_stay f f'
  ∧ dm_routeRules d' = dm_routeRules d ∧ route_keys f' = route_keys f.
Proof.
  intros Hsync Hall. unfold applyPeerACLs. destruct (add_rules _ _ _ _ _ _ _) as [[d1 new] f1] eqn:E.
  apply (add_rules_ok s) in E as (Hs1 & Hsub & Hrt & Hkeys & Hoth & _ & Hask & Hback); [|done|apply map_empty_subseteq|done].
  intros [= <- <-]. destruct Hs1 as [Hinv Hent Hlive Hst].
  destruct (delete_stale_spec new (peerRulesPairs d1) f1 Hinv Hsub) as (Hk & Hr & Hinv' & Hl).
  split; [|split; [|split; [intros x Hx; rewrite Hl, <- (Hoth x Hx); tauto|cbn; split; congruence]]].
  - split; [done| | |rewrite <- Hst; apply Hk].
    + intros k rs Hm. eapply Hent, lookup_weaken; [exact Hm|done].
    + intros x Hx. apply Hl. split; [|by left]. apply Hlive. destruct Hx as (k & rs & Hm & ?). exists k, rs. split; [|done].
      eapply lookup_weaken; [exact Hm|done].
  - split.
    + intros x [Hx [(k & rs & Hm & Hin)|]]%Hl; [right|by left]. destruct (Hback k) as [[? ?%lookup_empty_Some]|(r & q & Hr' & Hq & He)]; [by eexists|done|].
      exists r, q. split; [done|]. split; [done|]. destruct (Hent k rs) as (_ & q' & He' & Himp); [by eapply lookup_weaken|].
      rewrite (entry_inj _ _ _ _ He He'). by apply Himp.
    + intros r q Hin Hq. destruct (Hask r q Hin Hq) as (k & [rs Hk'] & He).
      assert (Hm : peerRulesPairs d1 !! k = Some rs) by (by eapply lookup_weaken).
      destruct (Hent k rs Hm) as (Hne & q' & He' & Himp). destruct rs as [|x rs]; [done|]. exists x. rewrite (entry_inj _ _ _ _ He He').
      split; [|apply Himp; by left]. apply Hl. split; [apply Hlive|left]; exists k, (x :: rs); (split; [done|by left]).
Qed.

(** *** After an error *)
Definition rejected (r : FirewallRule) : Prop := ∀ x, rule_args r ≠ Ret x.

Lemma rollBack_spec new m f : acl_inv m f → new ⊆ m →
  acl_inv m (rollBack order new f) ∧ keeps (R := R) f (rollBack order new f)
  ∧ ∀ x, live (rollBack order new f) x ↔ live f x ∧ ¬ in_pairs new x.
Proof.
  intros [Hf Hi Hl Ho Hd] Hsub. unfold rollBack.
  assert (Hin : ∀ p, p ∈ order new ↔ new !! p.1 = Some p.2) by (intros [k rs]; rewrite Horder, elem_of_map_to_list; done).
  destruct (delete_pairs_spec (λ _, false) (order new) f Hf) as (Hk & _ & Hlive).
  { intros p r Hp%Hin Hx. apply Hi. exists p.1, p.2. split; [by eapply lookup_weaken|done]. }
  split; [|split; [done|]].
  - split; [apply Hk|intros r Hr; by apply Hk, Hi| | |done]; [intros r [Hx _]%Hlive; by apply Hl|].
    intros r [Hr Hn]%Ho. split; [by apply Hk|done].
  - intros x. rewrite Hlive. split; intros [Hx Hn]; (split; [done|]).
    + intros (k & rs & Hm & Hr). apply (Hn (k, rs)); [by apply Hin|done..].
    + intros p Hp%Hin _ Hx'. apply Hn. by exists p.1, p.2.
Qed.

Lemma entry_key s r ip p a t k q : rule_args r = Ret (ip, p, a, t) → entry s k q → asks_for s r q →
  k = getPeerRuleID ip p (fr_Direction r) t a.
Proof.
  intros Ea (ip1 & p1 & d1 & t1 & a1 & _ & _ & _ & _ & Hrel1 & -> & ->) (ip2 & p2 & a2 & t2 & Ea2 & Hrel & Eq). rewrite Ea in Ea2.
  injection Ea2 as <- <- <- <-.
  assert (Hsk : ∀ (i : Z) p t, relevant s i p t → i ≠ RuleDirection_IN → i = RuleDirection_OUT ∧ t ≠ None).
  { intros d' p' t' [?|(-> & _ & Hs)] Hne; [done|]. split; [done|]. intros ->. unfold shouldSkipInvertedRule in Hs.
    by rewrite (bool_decide_eq_true_2 (None = None)), orb_true_r in Hs. }
  unfold filter_of in Eq. destruct (Z.eqb_spec d1 RuleDirection_IN) as [->|H1], (Z.eqb_spec (fr_Direction r) RuleDirection_IN) as [E2|H2].
  - injection Eq as -> -> -> ->. by rewrite E2.
  - destruct (Hsk _ _ _ Hrel H2) as [_ Ht]. by injection Eq as _ _ <-.
  - destruct (Hsk _ _ _ Hrel1 H1) as [_ Ht]. by injection Eq as _ _ ->.
  - destruct (Hsk _ _ _ Hrel H2) as [-> _], (Hsk _ _ _ Hrel1 H1) as [-> _]. by injection Eq as -> -> -> ->.
Qed.

(** Nothing is installed for the rule: its id is known, or the firewall needs no such rule. *)
Definition settled (s : bool) m (r : FirewallRule) : Prop :=
  ∃ ip p a t, rule_args r = Ret (ip, p, a, t) ∧ direction_form (fr_Direction r)
    ∧ (is_Some (m !! getPeerRuleID ip p (fr_Direction r) t a) ∨ ¬ relevant s (fr_Direction r) p t).
Lemma settled_rule s d f r name : fw_IsStateful f = s → settled s (peerRulesPairs d) r →
  ∃ k rs, protoRuleToFirewallRule d r name f = (Ret (k, rs), f) ∧ (rs = [] ∨ peerRulesPairs d !! k = Some rs).
Proof.
  intros Hs (ip & p & a & t & Ea & Hdir & Hset). unfold protoRuleToFirewallRule. rewrite Ea.
  destruct (peerRulesPairs d !! _) as [rs|] eqn:Ek; [eexists _, _; split; [reflexivity|by right]|].
  destruct Hset as [[? ?]|Hn]; [done|].
  destruct (Z.eqb_spec (fr_Direction r) RuleDirection_IN) as [Ed|Ed]; [by destruct Hn; left|].
  destruct Hdir as [?|Ed2]; [done|]. rewrite Ed2, Z.eqb_refl, Hs. destruct s; [eexists _, _; split; [reflexivity|by left]|].
  unfold addOutRules. destruct (shouldSkipInvertedRule p t) eqn:Esk; [eexists _, _; split; [reflexivity|by left]|].
  destruct Hn. by right.
Qed.
Lemma settled_rules s rules sets new d f d' new' f' : fw_IsStateful f = s → new ⊆ peerRulesPairs d →
  (∀ r, r ∈ rules → settled s (peerRulesPairs d) r) → add_rules order selector rules sets new d f = (d', new', f') →
  f' = f ∧ peerRulesPairs d' = peerRulesPairs d ∧ new' ⊆ peerRulesPairs d.
Proof.
  intros Hs. revert sets new d. induction rules as [|r rules IH]; intros sets new d Hsub Hall; cbn [add_rules]; [by intros [= <- <- <-]|].
  destruct (ipset_for _ _ _) as [[name d1] sets1] eqn:Ei. apply ipset_for_pairs in Ei as [Ep _]. rewrite <- Ep in *.
  destruct (settled_rule s d1 f r name Hs) as (k & rs & -> & Hrs); [apply Hall; by left|].
  case_bool_decide as En; [intros E; eapply IH; [done|intros r' Hr'; apply Hall; by right|exact E]|].
  destruct Hrs as [?|Hk]; [done|]. rewrite (insert_id (peerRulesPairs d1)) by done. intros E.
  apply IH in E; cbn [with_pairs peerRulesPairs]; [done| |intros r' Hr'; apply Hall; by right].
  apply map_subseteq_spec. intros k' rs' [[<- <-]|[_ Hk']]%lookup_insert_Some; [done|by eapply lookup_weaken].
Qed.
Lemma relevant_dec s (i : Z) p t : relevant s i p t ∨ ¬ relevant s i p t.
Proof.
  unfold relevant. destruct (decide (i = RuleDirection_IN)); [by left; left|].
  destruct (decide (i = RuleDirection_OUT ∧ s = false ∧ shouldSkipInvertedRule p t = false)); [by left; right|]. right. by intros [].
Qed.

Lemma failed_update s nm pre bad post d f d1 f1 : in_sync s (peerRulesPairs d) f → effective_rules nm = pre ++ bad :: post →
  (∀ r, r ∈ pre → installable s r) → rejected bad → applyPeerACLs order selector nm d f = (d1, f1) →
  acl_inv (peerRulesPairs d1) f1 ∧ fw_IsStateful f1 = s ∧ (∀ x, live f1 x → other x) ∧ ∀ r, r ∈ pre → settled s (peerRulesPairs d1) r.
Proof.
  intros Hsync Enm Hpre Hbad. unfold applyPeerACLs. rewrite Enm.
  destruct (add_rules_app s pre (bad :: post) ∅ ∅ d f Hsync Hpre) as [sets' ->].
  destruct (add_rules order selector pre ∅ ∅ d f) as [[d2 new] f2] eqn:E.
  apply (add_rules_ok s) in E as (Hs2 & Hsub & _ & _ & _ & _ & Hask & _); [|done|apply map_empty_subseteq|done]. cbn [add_rules].
  destruct (ipset_for _ _ _) as [[name d3] sets3] eqn:Ei. apply ipset_for_pairs in Ei as [Ep _].
  assert (Hstop : ∃ e, protoRuleToFirewallRule d3 bad name f2 = (e, f2) ∧ ∀ x, e ≠ Ret x).
  { unfold protoRuleToFirewallRule. destruct (rule_args bad) as [x|e|] eqn:Ea; [by destruct (Hbad x)|by eexists..]. }
  destruct Hstop as (e & -> & He). destruct Hs2 as [Hinv Hent Hlive Hst]. rewrite <- Ep in *.
  destruct (rollBack_spec new _ f2 Hinv Hsub) as (Hinv2 & Hk2 & Hl2). destruct e as [x|e|]; [by destruct (He x)|..]; intros [= <- <-].
  all: destruct (delete_stale_spec new _ _ Hinv2 Hsub) as (Hk3 & _ & Hinv3 & Hl3); cbn [with_pairs peerRulesPairs].
  all: split; [done|]; split; [rewrite <- Hst, <- (keeps_stateful _ _ Hk2); apply Hk3|]; split; [intros x [[_ ?]%Hl2 [?|?]]%Hl3; done|].
  all: intros r Hr; destruct (Hpre r Hr) as [(Hdir & ip & p & a & t & Ea & Hip) _]; exists ip, p, a, t; split; [done|]; split; [done|].
  all: destruct (relevant_dec s (fr_Direction r) p t) as [Hrel|]; [left|by right].
  all: assert (Hq : asks_for s r (filter_of (fr_Direction r) ip p t a)) by (by exists ip, p, a, t).
  all: destruct (Hask r _ Hr Hq) as (k & Hk & Hek); by rewrite <- (entry_key s r ip p a t k _ Ea Hek Hq).
Qed.

(** A later map whose rules were all seen before the error installs nothing. *)
Lemma settled_update s nm d f d' f' : acl_inv (peerRulesPairs d) f → fw_IsStateful f = s → (∀ x, live f x → other x) →
  (∀ r, r ∈ effective_rules nm → settled s (peerRulesPairs d) r) → applyPeerACLs order selector nm d f = (d', f') →
  ∀ x, live f' x → other x.
Proof.
  intros Hinv Hs Hno Hall. unfold applyPeerACLs. destruct (add_rules _ _ _ _ _ _ _) as [[d1 new] f1] eqn:E.
  apply (settled_rules s) in E as (-> & Ep & Hsub); [|done|apply map_empty_subseteq|done]. intros [= <- <-]. rewrite Ep.
  destruct (delete_stale_spec new _ f Hinv Hsub) as (_ & _ & _ & Hl). intros x [Hx _]%Hl. by apply Hno.
Qed.

(** *** The route rules *)
Implicit Type ids : gset string.
Definition route_asks (dyn : bool) (rules : list RouteFirewallRule) (k : string) : Prop :=
  ∃ rule q, rule ∈ rules ∧ route_args ToUnicode rule dyn = Ret q ∧ k = route_key (R := R) (F := F) q.
Lemma same_live_trans f1 f2 f3 : same_live (R := R) f1 f2 → same_live (R := R) f2 f3 → same_live (R := R) f1 f3.
Proof. intros H1 H2 r. by rewrite (H2 r). Qed.

Lemma route_args_form rule dyn q : route_args ToUnicode rule dyn = Ret q → port_form (rq_dPort q).
Proof.
  unfold route_args. destruct (bool_decide _); [done|]. intros (srcs & _ & H1)%bind_Ret_inv. destruct (determineDestination _ _ _ _); [|done..].
  apply bind_Ret_inv in H1 as (pr & _ & H1). apply bind_Ret_inv in H1 as (act & _ & [= <-]). apply convert_port.
Qed.

Lemma route_rules_spec dyn rules ids merr f ids' merr' f' : fw_ok f →
  foldl (route_rule_step ToUnicode dyn) (ids, merr, f) rules = (ids', merr', f') →
  keeps (R := R) f f' ∧ same_live (R := R) f f' ∧ (∃ new, ids' = new ∪ ids ∧ route_keys f' = new ∪ route_keys f
    ∧ (∀ k, k ∈ new → route_asks dyn rules k)
    ∧ (merr' = [] → merr = [] ∧ ∀ rule q, rule ∈ rules → route_args ToUnicode rule dyn = Ret q → route_key (R := R) (F := F) q ∈ new)).
Proof.
  revert ids merr f. induction rules as [|rule rules IH]; intros ids merr f Hf; cbn [foldl].
  { intros [= <- <- <-]. split; [by apply fw_keeps_refl|]. split; [done|]. exists ∅. split_and!; [set_solver..|]. intros ->. split; [done|].
    intros rule q Hr. by apply not_elem_of_nil in Hr. }
  assert (Hcons : ∀ k, route_asks dyn rules k → route_asks dyn (rule :: rules) k)
    by (intros k (r & q & ? & ?); exists r, q; split; [by right|done]).
  cbn [route_rule_step]. unfold applyRouteACL. destruct (route_args ToUnicode rule dyn) as [q|e|] eqn:Ea.
  - destruct (fw_AddRouteFiltering (rf_PolicyID rule) q f) as [res f1] eqn:E. apply law_add_route in E as (Hk & Hs & Hres); [|done|by eapply route_args_form].
    destruct res as [k|]; cbn [or_err]; intros Hrun; apply IH in Hrun as (Hk2 & Hs2 & new & -> & Hr & Hin & Hmerr); try apply Hk;
      (split; [by eapply fw_keeps_trans|]); (split; [by eapply same_live_trans|]).
    + destruct Hres as [-> Hr1]. exists (new ∪ {[ route_key (R := R) (F := F) q ]}). split; [set_solver|]. split; [rewrite Hr, Hr1; set_solver|].
      split; [|intros [? Hall]%Hmerr; split; [done|]].
      * intros k [?|Hone%elem_of_singleton]%elem_of_union; [by apply Hcons, Hin|]. exists rule, q. split; [by left|done].
      * intros r' q' [->|Hr']%elem_of_cons Eq; [|apply elem_of_union; left; by eapply Hall]. rewrite Ea in Eq. injection Eq as <-. set_solver.
    + exists new. split; [done|]. split; [congruence|]. split; [intros k ?; by apply Hcons, Hin|]. intros [Hbad _]%Hmerr. exfalso.
      cbn in Hbad. by destruct merr.
  - intros Hrun. apply IH in Hrun as (Hk2 & Hs2 & new & -> & Hr & Hin & Hmerr); [|done]. split; [done|]. split; [done|]. exists new.
    split; [done|]. split; [done|]. split; [intros k ?; by apply Hcons, Hin|]. intros [Hm Hall]%Hmerr.
    split; [destruct (bool_decide _); [done|by destruct merr]|]. intros r' q' [->|Hr']%elem_of_cons Eq; [congruence|by eapply Hall].
  - intros Hrun. apply IH in Hrun as (Hk2 & Hs2 & new & -> & Hr & Hin & Hmerr); [|done]. split; [done|]. split; [done|]. exists new.
    split; [done|]. split; [done|]. split; [intros k ?; by apply Hcons, Hin|]. intros [Hm Hall]%Hmerr.
    split; [done|]. intros r' q' [->|Hr']%elem_of_cons Eq; [congruence|by eapply Hall].
Qed.
Lemma route_deletes_spec ids l merr f merr' f' : fw_ok f → foldl (route_delete_step ids) (merr, f) l = (merr', f') →
  keeps (R := R) f f' ∧ same_live (R := R) f f'
  ∧ (∀ k, k ∈ route_keys f' ↔ k ∈ route_keys f ∧ (k ∈ ids ∨ k ∉ l)) ∧ (merr' = [] → merr = []).
Proof.
  revert merr f. induction l as [|k l IH]; intros merr f Hf; cbn [foldl].
  { intros [= <- <-]. split; [by apply fw_keeps_refl|]. split; [done|]. split; [|done]. intros k. set_solver. }
  unfold route_delete_step at 2. destruct (decide (k ∈ ids)) as [Hk|Hk].
  { intros Hrun. apply IH in Hrun as (? & ? & Hkeys & ?); [|done]. split_and!; [done..| |done]. intros k'. rewrite Hkeys, not_elem_of_cons.
    destruct (decide (k' = k)) as [->|]; naive_solver. }
  destruct (fw_DeleteRouteRule k f) as [b f1] eqn:E. apply law_delete_route in E as (Hk1 & Hs1 & Hr1); [|done].
  intros Hrun. apply IH in Hrun as (Hk2 & Hs2 & Hkeys & Hm); [|apply Hk1]. split; [by eapply fw_keeps_trans|].
  split; [by eapply same_live_trans|]. split; [|intros ?%Hm; destruct b; [done|by destruct merr]].
  intros k'. rewrite Hkeys, Hr1, elem_of_difference, elem_of_singleton, not_elem_of_cons.
  destruct (decide (k' = k)) as [->|]; naive_solver.
Qed.

Lemma applyRouteACLs_spec rules dyn d f merr d' f' : fw_ok f →
  applyRouteACLs ToUnicode rules dyn d f = (merr, d', f') →
  keeps (R := R) f f' ∧ same_live (R := R) f f' ∧ peerRulesPairs d' = peerRulesPairs d ∧ route_keys f' = route_keys f ∖ dm_routeRules d ∪ dm_routeRules d'
  ∧ (∀ k, k ∈ dm_routeRules d' → route_asks dyn rules k) ∧ (merr = [] → ∀ k, route_asks dyn rules k → k ∈ dm_routeRules d').
Proof.
  intros Hf. unfold applyRouteACLs. destruct (foldl (route_rule_step _ _) _ _) as [[ids merr1] f1] eqn:E1.
  apply route_rules_spec in E1 as (Hk1 & Hs1 & new & -> & Hr1 & Hin & Hall); [|done].
  destruct (foldl (route_delete_step _) _ _) as [merr2 f2] eqn:E2. apply route_deletes_spec in E2 as (Hk2 & Hs2 & Hr2 & Hm); [|apply Hk1].
  intros [= <- <- <-]. split; [by eapply fw_keeps_trans|]. split; [by eapply same_live_trans|]. split; [done|]. cbn [dm_routeRules]. split_and!.
  - apply set_eq. intros k. rewrite Hr2, Hr1, !elem_of_union, elem_of_difference, elem_of_elements.
    destruct (decide (k ∈ dm_routeRules d)); set_solver.
  - intros k Hk. apply Hin. set_solver.
  - intros Hm0%Hm k (rule & q & Hr & Eq & ->). destruct (Hall Hm0) as [_ Hall']. apply elem_of_union. left. by eapply Hall'.
Qed.

(** The index into the sources is never out of range. *)
Lemma route_args_no_panic rule dyn : route_args ToUnicode rule dyn ≠ Panic.
Proof.
  unfold route_args. destruct (rf_SourceRanges rule) as [|s l]; [by rewrite bool_decide_eq_true_2|]. rewrite bool_decide_eq_false_2 by done.
  cbn [parse_all]. destruct (ParsePrefix s) as [p|]; [|done]. cbn [mbind option_bind]. destruct (parse_all l) as [ps|]; [|done].
  cbn [mbind option_bind or_err outcome_bind]. assert (Hd : determineDestination ToUnicode rule dyn (p :: ps) ≠ Panic).
  { unfold determineDestination. destruct (rf_IsDynamic rule), dyn; try destruct (rf_Domains rule); try done; by destruct (ParsePrefix _). }
  destruct (determineDestination ToUnicode rule dyn (p :: ps)); [|done..]. destruct (convertToFirewallProtocol _); [|done].
  cbn. by destruct (convertFirewallAction _).
Qed.

(** *** Applying a network map *)
Lemma in_sync_same s m f f' : in_sync s m f → keeps (R := R) f f' → same_live (R := R) f f' → in_sync s m f'.
Proof.
  intros [Hi He Hl Hs] Hk Hsl. split; [by eapply acl_inv_same|done| |rewrite <- Hs; apply Hk]. intros r Hr. by apply Hsl, Hl.
Qed.
Lemma reflects_same s rules f f' : reflects s rules f → same_live (R := R) f f' → reflects s rules f'.
Proof.
  intros [H1 H2] Hs. split; [intros x Hx%Hs; by apply H1|]. intros r q Hr Hq. destruct (H2 r q Hr Hq) as (x & ? & ?). exists x.
  split; [by apply Hs|done].
Qed.

Lemma ApplyFiltering_split nm dns d f d' f' : ApplyFiltering order selector ToUnicode nm dns d (Some f) = (d', Some f') →
  ∃ d1 f1 merr f2, applyPeerACLs order selector nm d f = (d1, f1)
    ∧ applyRouteACLs ToUnicode (RoutesFirewallRules nm) dns d1 f1 = (merr, d', f2) ∧ f' = (fw_Flush f2).2.
Proof.
  unfold ApplyFiltering. destruct (applyPeerACLs _ _ _ _ _) as [d1 f1] eqn:E1.
  destruct (applyRouteACLs _ _ _ _ _) as [[merr d2] f2] eqn:E2. intros [= <- <-]. eauto 10.
Qed.
(** The route rules and the flush leave the peer rules as they are. *)
Lemma after_peer_rules rules dns d1 f1 merr d2 f2 : fw_ok f1 → applyRouteACLs ToUnicode rules dns d1 f1 = (merr, d2, f2) →
  keeps (R := R) f1 (fw_Flush f2).2 ∧ same_live (R := R) f1 (fw_Flush f2).2 ∧ peerRulesPairs d2 = peerRulesPairs d1
  ∧ route_keys (fw_Flush f2).2 = route_keys f1 ∖ dm_routeRules d1 ∪ dm_routeRules d2
  ∧ (∀ k, k ∈ dm_routeRules d2 → route_asks dns rules k) ∧ (merr = [] → ∀ k, route_asks dns rules k → k ∈ dm_routeRules d2).
Proof.
  intros Hf E. apply applyRouteACLs_spec in E as (Hk & Hs & Hp & Hr & Hin & Hall); [|done].
  destruct (law_flush f2) as (Hk3 & Hs3 & Hr3); [apply Hk|].
  split; [by eapply fw_keeps_trans|]. split; [by eapply same_live_trans|]. split; [done|]. by rewrite Hr3.
Qed.

Lemma ApplyFiltering_spec s nm dns d f d' f' : in_sync s (peerRulesPairs d) f → (∀ r, r ∈ effective_rules nm → installable s r) →
  ApplyFiltering order selector ToUnicode nm dns d (Some f) = (d', Some f') →
  in_sync s (peerRulesPairs d') f' ∧ reflects s (effective_rules nm) f' ∧ others_stay f f'
  ∧ route_keys f' = route_keys f ∖ dm_routeRules d ∪ dm_routeRules d'
  ∧ (∀ k, k ∈ dm_routeRules d' → route_asks dns (RoutesFirewallRules nm) k).
Proof.
  intros Hsync Hall (d1 & f1 & merr & f2 & E1 & E2 & ->)%ApplyFiltering_split.
  apply (applyPeerACLs_spec s) in E1 as (Hs1 & Hr1 & Ho1 & Hd1 & Hk1); [|done..].
  apply after_peer_rules in E2 as (Hk & Hsl & Hp & Hkeys & Hin & _); [|apply Hs1]. rewrite Hp.
  split; [by eapply in_sync_same|]. split; [by eapply reflects_same|]. split; [intros x Hx; by rewrite (Hsl x), (Ho1 x Hx)|].
  split; [congruence|done].
Qed.

(** After a map with a rule that is rejected nothing of the manager is installed, and the same
    rules without the rejected one do not come back. *)
Lemma failed_updates s nm nm2 dns pre bad post d f d1 f1 d2 f2 : in_sync s (peerRulesPairs d) f →
  effective_rules nm = pre ++ bad :: post → (∀ r, r ∈ pre → installable s r) → rejected bad →
  ApplyFiltering order selector ToUnicode nm dns d (Some f) = (d1, Some f1) → (∀ r, r ∈ effective_rules nm2 → r ∈ pre) →
  ApplyFiltering order selector ToUnicode nm2 dns d1 (Some f1) = (d2, Some f2) →
  (fw_ok f1 ∧ ∀ x, live f1 x → other x) ∧ (fw_ok f2 ∧ ∀ x, live f2 x → other x).
Proof.
  intros Hsync Enm Hpre Hbad (da & fa & merr & fb & E1 & E2 & ->)%ApplyFiltering_split Hsub (dc & fc & merr2 & fd & E3 & E4 & ->)%ApplyFiltering_split.
  destruct (failed_update s nm pre bad post d f da fa) as (Hinv & Hst & Hno & Hset); [done..|].
  apply after_peer_rules in E2 as (Hk & Hsl & Hp & _); [|apply Hinv].
  assert (Hno1 : ∀ x, live (fw_Flush fb).2 x → other x) by (intros x Hx%Hsl; by apply Hno). split; [split; [apply Hk|done]|].
  assert (Hinv1 : acl_inv (peerRulesPairs d1) (fw_Flush fb).2) by (rewrite Hp; by eapply acl_inv_same).
  assert (Hst1 : fw_IsStateful (fw_Flush fb).2 = s) by (rewrite <- Hst; apply Hk).
  pose proof (settled_update s nm2 d1 _ dc fc Hinv1 Hst1 Hno1) as Hno2.
  assert (Hset1 : ∀ r, r ∈ effective_rules nm2 → settled s (peerRulesPairs d1) r) by (intros r Hr; rewrite Hp; by apply Hset, Hsub).
  specialize (Hno2 Hset1 E3).
  assert (Hok : fw_ok fc).
  { unfold applyPeerACLs in E3. destruct (add_rules _ _ _ _ _ _ _) as [[d3 new] f3] eqn:E. injection E3 as <- <-.
    apply (settled_rules s) in E as (-> & Ep & Hsb); [|done|apply map_empty_subseteq|done]. rewrite Ep.
    by destruct (delete_stale_spec new _ _ Hinv1 Hsb) as ([] & _). }
  apply after_peer_rules in E4 as (Hk2 & Hsl2 & _); [|done]. split; [apply Hk2|]. intros x Hx%Hsl2. by apply Hno2.
Qed.
End sync.

(** ** The rules of others *)
Section others.
Context {F R : Type} `{FirewallLaws F R}.

Lemma other_added (other : R → Prop) s m (f : F) id q name rs f' : in_sync other s m f → filter_form q →
  fw_AddPeerFiltering id q name f = (Some rs, f') → in_sync (λ x, other x ∨ x ∈ rs) s m f'.
Proof.
  intros [[Hf Hi Hl Ho Hd] He Hlive Hs] Hq E. apply law_add in E as (Hk & _ & _ & Hrs & Hl'); [|done..].
  split; [|done|intros x Hx; apply Hl'; left; by apply Hlive|rewrite <- Hs; apply Hk].
  split; [apply Hk|intros x Hx; by apply Hk, Hi| | |done].
  - intros x [[?|?]%Hl|?]%Hl'; naive_solver.
  - intros x [[? ?]%Ho|Hin]; [split; [by apply Hk|done]|]. destruct (Hrs x Hin) as (_ & Hno & ?). split; [done|]. intros ?%Hi. done.
Qed.
Lemma other_deleted (other : R → Prop) s m (f : F) x b f' : in_sync other s m f → other x →
  fw_DeletePeerRule x f = (b, f') → in_sync (λ y, other y ∧ y ≠ x) s m f'.
Proof.
  intros [[Hf Hi Hl Ho Hd] He Hlive Hs] Hx E. destruct (Ho x Hx) as [Hix Hnx]. apply law_delete in E as (Hk & _ & Hl'); [|done..].
  split; [|done| |rewrite <- Hs; apply Hk].
  - split; [apply Hk|intros y Hy; by apply Hk, Hi| | |done].
    + intros y [[?|?]%Hl Hne]%Hl'; [by left|by right].
    + intros y [[? ?]%Ho _]. split; [by apply Hk|done].
  - intros y Hy. apply Hl'. split; [by apply Hlive|]. intros ->. done.
Qed.
End others.

(** ** What the peer rules leave alone *)
Section preserves.
Context {F R : Type} `{Firewall F R}.
Context (order : gmap string (list R) → list (string * list R)) (selector : FirewallRule → string).
Context (P : F → Prop).
Context (Padd : ∀ id q name f, P f → P (fw_AddPeerFiltering id q name f).2) (Pdel : ∀ r f, P f → P (fw_DeletePeerRule r f).2).

Lemma delete_all_preserves rs f : P f → P (delete_all rs f).
Proof. unfold delete_all. revert f. induction rs as [|r rs IH]; intros f Hf; cbn; [done|]. by apply IH, Pdel. Qed.
Lemma rollBack_preserves m f : P f → P (rollBack order m f).
Proof.
  unfold rollBack. generalize (order m). intros l. revert f. induction l as [|p l IH]; intros f Hf; cbn; [done|].
  by apply IH, delete_all_preserves.
Qed.
Lemma rule_preserves d r name f : P f → P (protoRuleToFirewallRule d r name f).2.
Proof.
  intros Hf. unfold protoRuleToFirewallRule. destruct (rule_args r) as [[[[ip p] act] t]|e|]; [|done..]. destruct (_ !! _); [done|].
  destruct (_ =? _); [by apply Padd|]. destruct (_ =? _); [|done]. destruct (fw_IsStateful f); [done|].
  unfold addOutRules. destruct (shouldSkipInvertedRule p t); [done|by apply Padd].
Qed.
Lemma add_rules_preserves rules sets new d f : P f → P (add_rules order selector rules sets new d f).2.
Proof.
  revert sets new d f. induction rules as [|r rules IH]; intros sets new d f Hf; cbn; [done|].
  destruct (ipset_for _ _ _) as [[name d1] sets1]. pose proof (rule_preserves d1 r name f Hf) as H1.
  destruct (protoRuleToFirewallRule d1 r name f) as [[[k rs]|e|] f1]; cbn [snd] in H1;
    [destruct (bool_decide _); by apply IH|by apply rollBack_preserves..].
Qed.
Lemma applyPeerACLs_preserves nm d f : P f → P (applyPeerACLs order selector nm d f).2.
Proof.
  intros Hf. unfold applyPeerACLs. pose proof (add_rules_preserves (effective_rules nm) ∅ ∅ d f Hf) as H1.
  destruct (add_rules _ _ _ _ _ _ _) as [[d1 new] f1]. cbn [snd] in *. generalize (order (peerRulesPairs d1)). intros l. revert f1 H1.
  induction l as [|p l IH]; intros f1 H1; cbn; [done|]. apply IH. unfold delete_stale. destruct (new !! p.1); [done|by apply delete_all_preserves].
Qed.
Lemma applyPeerACLs_keeps_routes nm d f : dm_routeRules (applyPeerACLs order selector nm d f).1 = dm_routeRules d.
Proof.
  unfold applyPeerACLs. assert (Ha : ∀ rules sets new d f, dm_routeRules (add_rules order selector rules sets new d f).1.1 = dm_routeRules d).
  { clear. induction rules as [|r rules IH]; intros sets new d f; cbn; [done|]. unfold ipset_for.
    destruct (sets !! selector r) as [name|]; cbn; destruct (protoRuleToFirewallRule _ r _ f) as [[[k rs]|e|] f1]; cbn; try done;
      destruct (bool_decide _); by rewrite IH. }
  specialize (Ha (effective_rules nm) ∅ ∅ d f). by destruct (add_rules _ _ _ _ _ _ _) as [[d1 new] f1].
Qed.
End preserves.
