(* ===== verification/FilterSync.v ===== *)
(** The user-space packet filter behind the ACL manager: the tables of [PeerAcl] and [RouteAcl]
    keep the promises of [AclSync.FirewallLaws], so a network map that was applied is what the
    filter enforces on packets.

    The identifiers of rules come from [uuid.New], which does not repeat: the [n]-th of them is
    [uuid n].  The filter routes itself; with a native firewall the route rules go there. *)
From stdpp Require Import pretty.
From S2P Require Import Prelude GoText NetIP PacketNat PacketDnat FirewallRules NetParse PeerAcl RouteAcl PacketFilter FilterRuns AclManager AclKeys AclSync.
Open Scope Z_scope.

Section usp.
Context (uuid : nat → string) `{Huuid : !Inj (=) (=) uuid}.

Abbreviation usp := (Manager * nat)%type.
Definition put_rules (t : Rules) (m : Manager) : Manager := set_rules t (blockRule m) m.

Definition usp_add (id : option string) (q : peer_filter) (name : string) (f : usp) : option (list PeerRule) * usp :=
  let '(m, n) := f in
  match AddPeerFiltering (uuid n) id (pf_ip q) (pf_proto q) (pf_sPort q) (pf_dPort q) (pf_action q) (rules m) with
  | Ret (r, t) => (Some [r], (put_rules t m, S n))
  | _ => (None, f)
  end.
Definition usp_delete (r : PeerRule) (f : usp) : bool * usp :=
  match DeletePeerRule r (rules f.1) with Ret t => (true, (put_rules t f.1, f.2)) | _ => (false, f) end.
Definition usp_add_route (id : option string) (q : route_filter) (f : usp) : option string * usp :=
  let '(k, t) := addRouteFiltering (delegates f.1) id (rq_sources q) (rq_destination q) (rq_proto q) None (rq_dPort q) (rq_action q) (rules f.1) in
  (Some k, (put_rules t f.1, f.2)).
Definition usp_delete_route (k : string) (f : usp) : bool * usp :=
  match deleteRouteRule (delegates f.1) k (rules f.1) with Ret t => (true, (put_rules t f.1, f.2)) | _ => (false, f) end.

#[local] Instance usp_firewall : Firewall usp PeerRule := {
  fw_AddPeerFiltering := usp_add;
  fw_DeletePeerRule := usp_delete;
  fw_IsStateful f := stateful f.1;
  fw_AddRouteFiltering := usp_add_route;
  fw_DeleteRouteRule := usp_delete_route;
  fw_Flush f := (true, f) }.

(** The table a rule is in. *)
Definition table_of (drops : bool) (t : Rules) : gmap addr RuleSet := if drops then incomingDenyRules t else incomingRules t.
Definition in_table (t : Rules) (r : PeerRule) : Prop := has_rule (table_of (drop_ r) t) r.
Definition used (n : nat) (i : string) : Prop := ∃ k, (k < n)%nat ∧ i = uuid k.
Record usp_ok (f : usp) : Prop := {
  uo_peer : rules_wf (rules f.1);
  uo_route : routes_wf (rules f.1);
  uo_used : ∀ r, in_table (rules f.1) r → used f.2 (pr_id r);
  uo_unique : ∀ r r', in_table (rules f.1) r → in_table (rules f.1) r' → pr_id r = pr_id r' → r = r';
  uo_own : delegates f.1 = false }.

#[local] Instance usp_view : FirewallView usp PeerRule := {
  fw_ok := usp_ok;
  live f r := in_table (rules f.1) r;
  issued f r := used f.2 (pr_id r) ∧ ∀ r', in_table (rules f.1) r' → pr_id r' = pr_id r → r' = r;
  implements r q := ∃ u i a, AddrFromSlice (pf_ip q) = Some a
    ∧ r = new_peer_rule u i (unmap a) (pf_proto q) (pf_sPort q) (pf_dPort q) (pf_action q);
  accepts q := is_Some (AddrFromSlice (pf_ip q));
  route_keys f := routeRulesMap (rules f.1);
  route_key q := GenerateRouteRuleKey (rq_sources q) (rq_destination q) (rq_proto q) None (rq_dPort q) (rq_action q) }.

(** ** The tables after the operations *)
Lemma port_form_wf p : port_form p → port_wf p.
Proof.
  intros Hp q -> Hr. cbn in Hp. rewrite Hr in Hp. destruct Hp as (a & b & _ & _ & ->). cbn. lia.
Qed.
Lemma in_table_add t r : (∀ x, in_table t x → pr_id x ≠ pr_id r) →
  ∀ x, in_table (if drop_ r then set_incoming (add_rule r (incomingDenyRules t)) (incomingRules t) t
                 else set_incoming (incomingDenyRules t) (add_rule r (incomingRules t)) t) x ↔ in_table t x ∨ x = r.
Proof.
  intros Hfresh x.
  assert (Hadd : ∀ m, (has_rule m x → pr_id x ≠ pr_id r) → has_rule (add_rule r m) x ↔ has_rule m x ∨ x = r).
  { intros m Hn. unfold has_rule. rewrite rules_of_add. destruct (decide (pr_ip x = pr_ip r)) as [Ei|Ei].
    - destruct (decide (pr_id x = pr_id r)) as [Ed|Ed].
      + rewrite Ed, lookup_insert_eq. split; [intros [= ->]; by right|]. intros [Hx| ->]; [|done]. exfalso. apply Hn; [|done].
        unfold has_rule. by rewrite Ed.
      + rewrite lookup_insert_ne by done. split; [by left|]. intros [?| ->]; done.
    - split; [by left|]. intros [?| ->]; done. }
  unfold in_table, table_of in *. specialize (Hfresh x). destruct (drop_ r) eqn:Er, (drop_ x) eqn:Ex; cbn [set_incoming incomingDenyRules incomingRules].
  1,4: by apply Hadd. all: split; [by left|]; intros [?| ->]; [done|congruence].
Qed.

Lemma in_table_delete t r t' : rules_wf t → (∀ x, in_table t x → pr_id x = pr_id r → x = r) → DeletePeerRule r t = Ret t' →
  ∀ x, in_table t' x ↔ in_table t x ∧ x ≠ r.
Proof.
  intros [Hd Ha] Hu Hdel x.
  assert (Hrm : ∀ m m', delete_rule r m = Some m' → (has_rule m x → pr_id x = pr_id r → x = r) → has_rule m' x ↔ has_rule m x ∧ x ≠ r).
  { intros m m' E Hn. unfold has_rule. rewrite (rules_of_remove _ _ _ _ E). destruct (decide (pr_ip x = pr_ip r)) as [Ei|Ei].
    - destruct (decide (pr_id x = pr_id r)) as [Ed|Ed].
      + rewrite Ed, lookup_delete_eq. split; [done|]. intros [Hx Hne]. destruct Hne. apply Hn; [|done]. unfold has_rule. by rewrite Ed.
      + rewrite lookup_delete_ne by done. split; [|by intros []]. intros Hx. split; [done|]. congruence.
    - split; [|by intros []]. intros Hx. split; [done|]. congruence. }
  unfold DeletePeerRule in Hdel. unfold in_table, table_of in *. specialize (Hu x).
  destruct (drop_ r) eqn:Er; destruct (delete_rule r _) as [m'|] eqn:E; try done; injection Hdel as <-;
    destruct (drop_ x) eqn:Ex; cbn [set_incoming incomingDenyRules incomingRules]; try by eapply Hrm.
  all: split; [|by intros []]; intros ?; split; [done|congruence].
Qed.
Lemma delete_absent t r : DeletePeerRule r t = Err errNoSuchRule → ¬ in_table t r.
Proof.
  unfold DeletePeerRule, in_table, table_of, has_rule. destruct (drop_ r); destruct (delete_rule r _) eqn:E; try done;
    apply delete_rule_None in E; by rewrite E.
Qed.

(** ** The promises are kept *)
Lemma used_mono n n' i : (n ≤ n')%nat → used n i → used n' i.
Proof. intros Hn (k & ? & ?). exists k. split; [lia|done]. Qed.
Lemma used_fresh n : ¬ used n (uuid n).
Proof. intros (k & Hk & E%(inj uuid)). lia. Qed.

Lemma usp_live f r : usp_ok f → in_table (rules f.1) r → issued f r.
Proof. intros Hok Hr. split; [by apply Hok|]. intros r' Hr' E. by apply Hok. Qed.

Lemma usp_add_law id q name f res f' : usp_ok f → filter_form q → usp_add id q name f = (res, f') →
  keeps (R := PeerRule) f f' ∧ route_keys f' = route_keys f
  ∧ match res with
    | Some rs => rs ≠ [] ∧ (∀ r, r ∈ rs → implements r q ∧ ¬ issued f r ∧ issued f' r) ∧ (∀ r, live f' r ↔ live f r ∨ r ∈ rs)
    | None => ¬ accepts q ∧ same_live (R := PeerRule) f f'
    end.
Proof.
  intros Hok [Hs Hd]. destruct f as [m n]. unfold usp_add. destruct (AddPeerFiltering _ _ _ _ _ _ _ _) as [[r t]|e|] eqn:E.
  - pose proof (AddPeerFiltering_wf _ _ _ _ _ _ _ _ _ _ (uo_peer _ Hok) (port_form_wf _ Hs) (port_form_wf _ Hd) E) as Hwf.
    unfold AddPeerFiltering in E. destruct (AddrFromSlice (pf_ip q)) as [a|] eqn:Ea; [|done]. cbn [fst snd] in *.
    set (r0 := new_peer_rule (uuid n) id (unmap a) (pf_proto q) (pf_sPort q) (pf_dPort q) (pf_action q)) in E.
    assert (Hfresh : ∀ x, in_table (rules m) x → pr_id x ≠ pr_id r0).
    { intros x Hx Eq. apply (uo_used _ Hok) in Hx. rewrite Eq in Hx. by apply used_fresh in Hx. }
    pose proof (in_table_add (rules m) r0 Hfresh) as Hin. injection E as <- <-.
    set (t := if drop_ r0 then _ else _) in *. assert (Hrt : routes_wf t) by (unfold t; destruct (drop_ r0); apply routes_of_incoming, Hok).
    assert (Hkeys : routeRulesMap t = routeRulesMap (rules m)) by (unfold t; by destruct (drop_ r0)).
    assert (Hnew : ∀ x, in_table t x → pr_id x = pr_id r0 → x = r0) by (intros x [Hx| ->]%Hin Eq; [by apply Hfresh in Eq|done]).
    intros [= <- <-]. split; [|split; [done|]].
    + split; [|done|].
      * split; cbn [fst snd put_rules set_rules update rules]; [done..| | |apply (uo_own _ Hok)].
        -- intros x [Hx%(uo_used _ Hok)| ->]%Hin; [by eapply used_mono; [|exact Hx]; cbn; lia|]. exists n. split; [lia|done].
        -- intros x y [Hx| ->]%Hin [Hy| ->]%Hin Eq; [by apply (uo_unique _ Hok)|by apply Hfresh in Eq|by apply eq_sym, Hfresh in Eq|done].
      * intros x [Hu Hx]. split; [by eapply used_mono; [|exact Hu]; cbn; lia|]. cbn [fst put_rules set_rules update rules].
        intros y [Hy| ->]%Hin Eq; [by apply Hx|]. cbn in Hu. rewrite <- Eq in Hu. by apply used_fresh in Hu.
    + split; [done|]. split; [|intros x; rewrite list_elem_of_singleton; exact (Hin x)].
      intros x ->%list_elem_of_singleton. split; [by exists (uuid n), id, a|]. split; [intros [Hu _]; by apply used_fresh in Hu|].
      split; [exists n; split; [cbn; lia|done]|]. exact Hnew.
  - intros [= <- <-]. unfold AddPeerFiltering in E. destruct (AddrFromSlice (pf_ip q)) eqn:Ea; [by destruct (drop_ _)|].
    split; [by split|]. split; [done|]. split; [|done]. cbn. rewrite Ea. by intros [].
  - unfold AddPeerFiltering in E. destruct (AddrFromSlice (pf_ip q)); [by destruct (drop_ _)|done].
Qed.

(** Fewer peer rules: what remains is as before. *)
Lemma usp_fewer m n t : usp_ok (m, n) → rules_wf t → routes_wf t → (∀ x, in_table t x → in_table (rules m) x) →
  keeps (R := PeerRule) (m, n) (put_rules t m, n).
Proof.
  intros Hok Hp Hr Hsub. split; [|done|].
  - split; cbn [fst snd put_rules set_rules update rules]; [done..| | |apply (uo_own _ Hok)].
    + intros x Hx%Hsub. by apply (uo_used _ Hok).
    + intros x y Hx%Hsub Hy%Hsub. by apply (uo_unique _ Hok).
  - intros x [Hu Hx]. split; [done|]. cbn [fst put_rules set_rules update rules]. intros y Hy%Hsub. by apply Hx.
Qed.

Lemma usp_delete_law r f b f' : usp_ok f → issued f r → usp_delete r f = (b, f') →
  keeps (R := PeerRule) f f' ∧ route_keys f' = route_keys f ∧ ∀ r', live f' r' ↔ live f r' ∧ r' ≠ r.
Proof.
  destruct f as [m n]. intros Hok [_ Hu]. cbn [fst] in Hu. unfold usp_delete. cbn [fst snd].
  destruct (DeletePeerRule r (rules m)) as [t|e|] eqn:E.
  - pose proof (in_table_delete _ _ _ (uo_peer _ Hok) Hu E) as Hin. pose proof (DeletePeerRule_wf _ _ _ (uo_peer _ Hok) E) as Hwf.
    assert (Hr : routes_wf t ∧ routeRulesMap t = routeRulesMap (rules m)).
    { unfold DeletePeerRule in E. destruct (drop_ r); destruct (delete_rule _ _); try done; injection E as <-;
        (split; [apply routes_of_incoming, Hok|done]). }
    intros [= <- <-]. split; [apply usp_fewer; [done|done|apply Hr|intros x Hx; by apply Hin]|]. split; [apply Hr|]. exact Hin.
  - intros [= <- <-]. split; [by split|]. split; [done|]. intros x. split; [|by intros []]. intros Hx. split; [done|]. intros ->.
    revert Hx. assert (e = errNoSuchRule) as -> by (unfold DeletePeerRule in E; destruct (drop_ r); destruct (delete_rule _ _); congruence).
    by apply delete_absent in E.
  - unfold DeletePeerRule in E. destruct (drop_ r); by destruct (delete_rule _ _).
Qed.

Lemma usp_add_route_law id q f res f' : usp_ok f → port_form (rq_dPort q) → usp_add_route id q f = (res, f') →
  keeps (R := PeerRule) f f' ∧ same_live (R := PeerRule) f f'
  ∧ match res with
    | Some k => k = route_key q ∧ route_keys f' = {[ k ]} ∪ route_keys f
    | None => route_keys f' = route_keys f
    end.
Proof.
  destruct f as [m n]. intros Hok Hp. unfold usp_add_route, addRouteFiltering. cbn [fst snd].
  change (delegates m) with (delegates (m, n).1). rewrite (uo_own _ Hok).
  intros [= <- <-]. set (r := new_route_rule _ _ _ _ _ _ _).
  assert (Hwf : routes_wf (insert_route r (rules m))) by (apply insert_route_wf; [apply Hok|done|by apply port_form_wf]).
  assert (Htab : ∀ x, in_table (insert_route r (rules m)) x ↔ in_table (rules m) x) by (intros x; unfold insert_route; by destruct (decide _)).
  assert (Hpw : rules_wf (insert_route r (rules m))) by (unfold insert_route; destruct (decide _); [apply Hok|apply rules_of_route, Hok]).
  split; [apply usp_fewer; [done..|intros x; by rewrite Htab]|]. split; [exact Htab|]. split; [done|]. cbn.
  unfold insert_route. destruct (decide _); [set_solver|done].
Qed.
Lemma usp_delete_route_law k f b f' : usp_ok f → usp_delete_route k f = (b, f') →
  keeps (R := PeerRule) f f' ∧ same_live (R := PeerRule) f f' ∧ route_keys f' = route_keys f ∖ {[ k ]}.
Proof.
  destruct f as [m n]. intros Hok. unfold usp_delete_route. cbn [fst snd].
  change (delegates m) with (delegates (m, n).1). rewrite (uo_own _ Hok).
  pose proof (deleteRouteRule_spec k (rules m) (uo_route _ Hok)) as Hd. destruct (deleteRouteRule false k (rules m)) as [t|e|] eqn:E; [| |done].
  - unfold deleteRouteRule in E. destruct (decide _); [|done]. destruct (delete_first _ _) as [l|]; [|done]. injection E as <-.
    intros [= <- <-]. split; [apply usp_fewer; [done|apply rules_of_route, Hok|apply Hd|done]|]. split; done.
  - intros [= <- <-]. split; [by split|]. split; [done|]. cbn. cbn in Hd. set_solver.
Qed.

#[local] Instance usp_laws : FirewallLaws usp PeerRule := {
  law_live f r := usp_live f r;
  law_add := usp_add_law;
  law_delete := usp_delete_law;
  law_add_route := usp_add_route_law;
  law_delete_route := usp_delete_route_law;
  law_flush f Hf := conj (fw_keeps_refl f Hf) (conj (λ r, iff_refl _) eq_refl) }.

(** ** What the filter does with packets *)
Section packets.
Context (order : gmap string (list PeerRule) → list (string * list PeerRule)) (Horder : ∀ m, order m ≡ₚ map_to_list m).
Context (selector : FirewallRule → string) (ToUnicode : string → option string).
Context (set_order : RuleSet → list PeerRule) (Hset : ∀ rs r, r ∈ set_order rs ↔ ∃ i, rs !! i = Some r).
Context (other : PeerRule → Prop).

(** A request is about the packet's protocol and ports. *)
Definition filter_covers (q : peer_filter) (l : layer) (d : decoder) : Prop :=
  let p := protoToLayer (pf_proto q) LayerTypeIPv4 in
  p = layerTypeAll
  ∨ p = l ∧ match l with
            | LayerTypeTCP | LayerTypeUDP => port_ok (pf_sPort q) (src_port l d) ∧ port_ok (pf_dPort q) (dst_port l d)
            | LayerTypeICMPv4 | LayerTypeICMPv6 => True
            | _ => False
            end.
(** The rules of the map have one with this action for the address that covers the packet. *)
Definition map_says (s : bool) (rs : list FirewallRule) (act : Action) (n : Z) (l : layer) (d : decoder) : Prop :=
  ∃ r q, r ∈ rs ∧ asks_for s r q ∧ pf_action q = act ∧ pf_ip q = As16 (v4 n) ∧ filter_covers q l d.
(** So do the rules that others have installed. *)
Definition others_say (f : usp) (act : Action) (a : addr) (l : layer) (d : decoder) : Prop :=
  ∃ x, other x ∧ in_table (rules f.1) x ∧ drop_ x = bool_decide (act = ActionDrop) ∧ pr_ip x = a ∧ covers l d x.

Lemma v4_installable s r : rule_ok r → installable (F := usp) (R := PeerRule) s r.
Proof.
  intros Hr. split; [done|]. destruct Hr as (_ & ip & p & a & t & Ea & n & Hn & ->). intros q (ip' & p' & a' & t' & Ea' & _ & ->).
  rewrite Ea in Ea'. injection Ea' as <- <- <- <-. destruct (slice_v4 n Hn) as (x & Ex & _). unfold accepts, usp_view.
  unfold filter_of. destruct (_ =? _); cbn [pf_ip]; rewrite Ex; by eexists.
Qed.

(** A rule that does what a request about an IPv4 address asks for. *)
Lemma implements_v4 x q n : 0 ≤ n < 2 ^ 32 → pf_ip q = As16 (v4 n) → implements (F := usp) x q →
  pr_ip x = v4 n ∧ drop_ x = bool_decide (pf_action q = ActionDrop) ∧ ∀ l d, covers l d x ↔ filter_covers q l d.
Proof.
  intros Hn Eip (u & i & a & Ea & ->). rewrite Eip in Ea. destruct (slice_v4 n Hn) as (a' & Ea' & Eu). rewrite Ea in Ea'.
  injection Ea' as <-. rewrite Eu. done.
Qed.
Lemma asks_v4 s r q : rule_ok r → asks_for s r q → ∃ n, 0 ≤ n < 2 ^ 32 ∧ pf_ip q = As16 (v4 n).
Proof.
  intros (_ & ip & p & a & t & Ea & n & Hn & ->) (ip' & p' & a' & t' & Ea' & _ & ->). rewrite Ea in Ea'. injection Ea' as <- <- <- <-.
  exists n. split; [done|]. unfold filter_of. by destruct (_ =? _).
Qed.
Lemma As16_inj n m : 0 ≤ n < 2 ^ 32 → 0 ≤ m < 2 ^ 32 → As16 (v4 n) = As16 (v4 m) → n = m.
Proof. intros (a & Ea & Eu)%slice_v4 (b & Eb & Ev)%slice_v4 E. rewrite E, Eb in Ea. injection Ea as ->. rewrite Eu in Ev. by injection Ev. Qed.

Lemma matched_says s rs f act n l d : 0 ≤ n < 2 ^ 32 → (∀ r, r ∈ rs → rule_ok r) → reflects (F := usp) other s rs f →
  rules_wf (rules f.1) →
  matched (table_of (bool_decide (act = ActionDrop)) (rules f.1)) (v4 n) l d ↔ map_says s rs act n l d ∨ others_say f act (v4 n) l d.
Proof.
  intros Hn Hok [Hsound Hcomp] [Hd Ha]. split.
  - intros (x & Hx & Eip & Hc).
    assert (Hdrop : drop_ x = bool_decide (act = ActionDrop)) by (destruct (bool_decide (act = ActionDrop)); [by destruct (wf_rule _ _ Hd x Hx) as (_ & _ & ? & _)|by destruct (wf_rule _ _ Ha x Hx) as (_ & _ & ? & _)]).
    assert (Hlive : in_table (rules f.1) x) by (unfold in_table; by rewrite Hdrop).
    destruct (Hsound x Hlive) as [Ho|(r & q & Hr & Hq & Himp)]; [right; by exists x|left].
    exists r, q. destruct (asks_v4 s r q (Hok r Hr) Hq) as (n' & Hn' & Eq). destruct (implements_v4 x q n' Hn' Eq Himp) as (Ex & Edr & Hcov).
    rewrite Eip in Ex. injection Ex as <-. split_and!; try done; [|by apply Hcov].
    rewrite Hdrop in Edr. by destruct act, (pf_action q).
  - intros [(r & q & Hr & Hq & <- & Eip & Hc)|(x & _ & Hx & Hdrop & Eip & Hc)].
    + destruct (Hcomp r q Hr Hq) as (x & Hx & Himp). destruct (implements_v4 x q n Hn Eip Himp) as (Ex & Edr & Hcov).
      exists x. split; [|split; [done|by apply Hcov]]. rewrite <- Edr. exact Hx.
    + exists x. split; [|done]. rewrite <- Hdrop. exact Hx.
Qed.
Lemma matched_v6 s rs f l d : (∀ r, r ∈ rs → rule_ok r) → reflects (F := usp) other s rs f → rules_wf (rules f.1) →
  matched (incomingRules (rules f.1)) IPv6Unspecified l d ↔ others_say f ActionAccept IPv6Unspecified l d.
Proof.
  intros Hok [Hsound _] [_ Ha]. split.
  - intros (x & Hx & Eip & Hc). destruct (wf_rule _ _ Ha x Hx) as (_ & _ & Hdrop & _).
    assert (Hlive : in_table (rules f.1) x) by (unfold in_table; by rewrite Hdrop).
    destruct (Hsound x Hlive) as [Ho|(r & q & Hr & Hq & Himp)]; [by exists x|]. exfalso.
    destruct (asks_v4 s r q (Hok r Hr) Hq) as (n & Hn & Eq). destruct (implements_v4 x q n Hn Eq Himp) as (Ex & _). by rewrite Eip in Ex.
  - intros (x & _ & Hx & Hdrop & Eip & Hc). exists x. split; [|done]. unfold in_table in Hx. by rewrite Hdrop in Hx.
Qed.
End packets.

(** ** Histories of the manager and the filter *)
Section histories.
Context (order : gmap string (list PeerRule) → list (string * list PeerRule)) (Horder : ∀ m, order m ≡ₚ map_to_list m).
Context (selector : FirewallRule → string) (ToUnicode : string → option string).
Context (set_order : RuleSet → list PeerRule) (Hset : ∀ rs r, r ∈ set_order rs ↔ ∃ i, rs !! i = Some r).

Definition apply (nm : NetworkMap) (dns : bool) (d : DefaultManager PeerRule) (f : usp) : DefaultManager PeerRule * option usp :=
  ApplyFiltering order selector ToUnicode nm dns d (Some f).

(** The manager starts with a filter that has no rules; network maps are applied, other parts of
    the client add and delete rules of their own, and the filter handles packets, which leaves its
    rules as they are. *)
Inductive history : (PeerRule → Prop) → DefaultManager PeerRule → usp → Prop :=
| h_new m n : rules m = no_rules → delegates m = false → history (λ _, False) NewDefaultManager (m, n)
| h_map other d f nm dns d' f' : history other d f → (∀ r, r ∈ effective_rules nm → rule_ok r) →
    apply nm dns d f = (d', Some f') → history other d' f'
| h_add (other : PeerRule → Prop) d f id q name rs f' : history other d f → filter_form q → usp_add id q name f = (Some rs, f') →
    history (λ x, other x ∨ x ∈ rs) d f'
| h_delete (other : PeerRule → Prop) d f x b f' : history other d f → other x → usp_delete x f = (b, f') →
    history (λ y, other y ∧ y ≠ x) d f'
| h_packets other d m n m' : history other d (m, n) → rules m' = rules m → stateful m' = stateful m → delegates m' = delegates m →
    history other d (m', n).

Lemma history_sync other d f : history other d f → in_sync other (stateful f.1) (peerRulesPairs d) f.
Proof.
  induction 1 as [m n Hr Hd|other d f nm dns d' f' _ IH Hok E|other d f id q name rs f' _ IH Hq E|other d f x b f' _ IH Hx E|other d m n m' _ IH Er Es Ed].
  - assert (Hno : ∀ x, ¬ in_table (rules m) x).
    { intros x. rewrite Hr. unfold in_table, table_of, has_rule, rules_of. destruct (drop_ x); cbn; by rewrite lookup_empty. }
    assert (Hp : ∀ x : PeerRule, ¬ in_pairs ∅ x) by (by intros x (k & rs & ?%lookup_empty_Some & _)).
    change (peerRulesPairs NewDefaultManager) with (∅ : gmap string (list PeerRule)).
    split; [|done|by intros x ?%Hp|done]. split; [|by intros x ?%Hp|by intros x ?%Hno|done|by intros k k' rs rs' r ?%lookup_empty_Some].
    split; cbn [fst]; [rewrite Hr; apply no_rules_wf|rewrite Hr; apply no_routes_wf|by intros x ?%Hno|by intros x y ?%Hno|done].
  - apply (ApplyFiltering_spec order selector ToUnicode Horder other (stateful f.1)) in E as (Hs & _); [|done|intros r Hr; by apply v4_installable, Hok].
    pose proof (sync_stateful _ _ _ _ Hs) as Est. cbn in Est. by rewrite Est.
  - pose proof (other_added _ _ _ _ _ _ _ _ _ IH Hq E) as Hs. pose proof (sync_stateful _ _ _ _ Hs) as Est. cbn in Est. by rewrite Est.
  - pose proof (other_deleted _ _ _ _ _ _ _ IH Hx E) as Hs. pose proof (sync_stateful _ _ _ _ Hs) as Est. cbn in Est. by rewrite Est.
  - cbn [fst] in *. rewrite Es. eapply in_sync_same; [exact IH| |].
    + split; [|done|].
      * pose proof (inv_fw _ _ _ (sync_inv _ _ _ _ IH)) as []. split; cbn [fst snd] in *; rewrite ?Er, ?Ed; done.
      * intros x [Hu Hx]. split; [done|]. cbn [fst] in *. by rewrite Er.
    + intros x. cbn. by rewrite Er.
Qed.

(** What a network map says is what the filter enforces.  After any history in which network
    maps were applied and other parts of the client added and deleted rules, once a map with
    well-formed rules was applied, a packet from the IPv4 address [n] passes the peer rules if and
    only if it is an ICMP error report, or the map and the rules of others have no drop rule for
    [n] that covers its protocol and ports, and do have an accept rule for [n] or for any address. *)
Lemma map_enforced other d f nm dns d' f' n dec l :
  history other d f → (∀ r, r ∈ effective_rules nm → rule_ok r) → apply nm dns d f = (d', Some f') →
  0 ≤ n < 2 ^ 32 → transport dec = Some l →
  let says act a := map_says (stateful f.1) (effective_rules nm) act a l dec ∨ others_say other f' act (v4 a) l dec in
  ∃ i b, peerACLsBlock set_order (Some (v4 n)) dec (rules f'.1) = Ret (i, b)
    ∧ (b = false ↔ isSpecialICMP dec = true
                   ∨ ¬ says ActionDrop n
                     ∧ (says ActionAccept n ∨ says ActionAccept 0 ∨ others_say other f' ActionAccept IPv6Unspecified l dec)).
Proof.
  intros Hh%history_sync Hok E Hn Hl. cbv zeta.
  apply (ApplyFiltering_spec order selector ToUnicode Horder other (stateful f.1)) in E as (Hs & Hrefl & _); [|done|intros r Hr; by apply v4_installable, Hok].
  pose proof (uo_peer _ (inv_fw _ _ _ (sync_inv _ _ _ _ Hs))) as Hwf.
  destruct (peer_acl_decides set_order Hset (rules f'.1) (v4 n) dec l Hwf Hl) as (i & b & Eb & Hb). exists i, b. split; [done|]. rewrite Hb.
  unfold admitted_by. rewrite <- (matched_says other (stateful f.1) _ f' ActionDrop n l dec), <- (matched_says other (stateful f.1) _ f' ActionAccept n l dec),
    <- (matched_says other (stateful f.1) _ f' ActionAccept 0 l dec), <- (matched_v6 other (stateful f.1) _ f' l dec) by (done || lia).
  done.
Qed.

(** C8: One rule the client does not understand takes all rules away.  When a map has a rule that
    is rejected (an unknown protocol or action, an address or port that does not parse), then
    afterwards the filter admits nothing but ICMP error reports and what the rules of other parts
    of the client admit; and it stays so when the next map has only rules that the client had
    accepted before the bad one, since they are taken for installed. *)
Theorem rejected_rule_blocks_all other d f nm nm2 dns pre bad post d1 f1 d2 f2 src dec l :
  history other d f → effective_rules nm = pre ++ bad :: post → (∀ r, r ∈ pre → rule_ok r) → rejected bad →
  apply nm dns d f = (d1, Some f1) → (∀ r, r ∈ effective_rules nm2 → r ∈ pre) → apply nm2 dns d1 f1 = (d2, Some f2) →
  transport dec = Some l → ¬ (∃ x, other x ∧ covers l dec x) →
  ∀ t, t = rules f1.1 ∨ t = rules f2.1 →
  ∃ i b, peerACLsBlock set_order (Some src) dec t = Ret (i, b) ∧ (b = false ↔ isSpecialICMP dec = true).
Proof.
  intros Hh%history_sync Enm Hpre Hbad E1 Hsub E2 Hl Hno t Ht.
  destruct (failed_updates order selector ToUnicode Horder other (stateful f.1) nm nm2 dns pre bad post d f d1 f1 d2 f2) as [[Hok1 H1] [Hok2 H2]];
    [done|done|intros r Hr; by apply v4_installable, Hpre|done..|].
  assert (Ht' : rules_wf t ∧ ∀ x, in_table t x → other x) by (destruct Ht as [-> | ->]; [split; [apply Hok1|exact H1]|split; [apply Hok2|exact H2]]).
  destruct Ht' as [Hwf Hlive]. destruct (peer_acl_decides set_order Hset t src dec l Hwf Hl) as (i & b & Eb & Hb). exists i, b.
  split; [done|]. rewrite Hb. split; [|by left]. intros [?|[_ Hm]]; [done|]. exfalso. apply Hno.
  assert (Hacc : ∀ a, matched (incomingRules t) a l dec → ∃ x, other x ∧ covers l dec x).
  { intros a (x & Hx & _ & Hc). exists x. split; [|done]. apply Hlive. destruct Hwf as [_ Hwf].
    destruct (wf_rule _ _ Hwf x Hx) as (_ & _ & Hd & _). unfold in_table. by rewrite Hd. }
  destruct Hm as [?|[?|?]]; by eapply Hacc.
Qed.
End histories.
End usp.

(** ** Samples *)
Definition decimal (n : nat) : string := pretty n.
#[local] Instance decimal_inj : Inj (=) (=) decimal.
Proof. intros n m E. by apply (inj pretty). Qed.
Abbreviation no_selector := (λ _ : FirewallRule, EmptyString).
Abbreviation no_unicode := (λ _ : string, @None string).
Abbreviation sample_apply := (apply decimal map_to_list no_selector no_unicode).
Abbreviation sample_history := (history decimal map_to_list no_selector no_unicode).
Lemma map_to_list_order (m : gmap string (list PeerRule)) : map_to_list m ≡ₚ map_to_list m.
Proof. done. Qed.

Definition ssh_in : FirewallRule := {|
  fr_PeerIP := "192.168.1.2"; fr_Direction := RuleDirection_IN; fr_Action := RuleAction_ACCEPT; fr_Protocol := RuleProtocol_TCP;
  fr_Port := "22"; fr_PortInfo := None; fr_PolicyID := Some "p" |}.
(** A protocol of a later version. *)
Definition sctp_in : FirewallRule := {|
  fr_PeerIP := "192.168.1.2"; fr_Direction := RuleDirection_IN; fr_Action := RuleAction_ACCEPT; fr_Protocol := 5;
  fr_Port := ""; fr_PortInfo := None; fr_PolicyID := Some "q" |}.
Definition map_of (rs : list FirewallRule) : NetworkMap :=
  {| FirewallRules := rs; FirewallRulesIsEmpty := bool_decide (rs = []); RoutesFirewallRules := [] |}.

Lemma ssh_in_ok : rule_ok ssh_in.
Proof.
  split; [by left|]. exists (As16 (v4 0xC0A80102)), ProtocolTCP, ActionAccept, (Some {| IsRange := false; Values := [22] |}).
  split; [vm_compute; reflexivity|]. exists 0xC0A80102. split; [lia|done].
Qed.
Lemma ssh_map_ok r : r ∈ effective_rules (map_of [ssh_in]) → rule_ok r.
Proof. intros ->%list_elem_of_singleton. apply ssh_in_ok. Qed.
Lemma sample_start : sample_history (λ _, False) NewDefaultManager (new_filter, 0%nat).
Proof. apply h_new; vm_compute; reflexivity. Qed.
Definition after (nm : NetworkMap) (st : DefaultManager PeerRule * (Manager * nat)) : DefaultManager PeerRule * (Manager * nat) :=
  match sample_apply nm false st.1 st.2 with (d, Some f) => (d, f) | (d, None) => (d, st.2) end.
Definition st0 : DefaultManager PeerRule * (Manager * nat) := (NewDefaultManager, (new_filter, 0%nat)).
Lemma after_apply nm d f : sample_apply nm false d f = ((after nm (d, f)).1, Some (after nm (d, f)).2).
Proof.
  unfold after. cbn [fst snd]. unfold apply, ApplyFiltering. destruct (applyPeerACLs _ _ _ _ _). destruct (applyRouteACLs _ _ _ _ _) as [[? ?] ?]. done.
Qed.

(** The packet to port 22 passes, the one to port 23 does not. *)
Lemma sample_map_enforced :
  peerACLsBlock any_order (Some (v4 0xC0A80102)) (from_a 22) (rules (after (map_of [ssh_in]) st0).2.1) = Ret (Some "p", false)
  ∧ ¬ map_says true [ssh_in] ActionAccept 0xC0A80102 LayerTypeTCP (from_a 23).
Proof.
  split; [vm_compute; reflexivity|].
  destruct (map_enforced decimal map_to_list map_to_list_order no_selector no_unicode any_order any_order_spec (λ _, False) NewDefaultManager
    (new_filter, 0%nat) (map_of [ssh_in]) false _ _ 0xC0A80102 (from_a 23) LayerTypeTCP sample_start ssh_map_ok (after_apply _ _ _) ltac:(lia) eq_refl)
    as (i & b & E & Hb).
  assert (b = true) as -> by (apply (f_equal (λ o, match o with Ret (_, b) => b | _ => true end)) in E; vm_compute in E; by destruct b).
  intros Hsays. discriminate (proj2 Hb). right. split; [|left; by left].
  intros [(r & q & ->%list_elem_of_singleton & (ip & p & a & t & Ea & _ & ->) & Hact & _)|(x & [] & _)].
  vm_compute in Ea. injection Ea as <- <- <- <-. discriminate Hact.
Qed.

Definition st1 : DefaultManager PeerRule * (Manager * nat) := after (map_of [ssh_in; sctp_in]) st0.
Definition st2 : DefaultManager PeerRule * (Manager * nat) := after (map_of [ssh_in]) st1.
Lemma rejected_rule_blocks_all_witness :
  peerACLsBlock any_order (Some (v4 0xC0A80102)) (from_a 22) (rules st2.2.1) = Ret (None, true)
  ∧ size (peerRulesPairs st2.1) = 1%nat.
Proof.
  split; [|vm_compute; reflexivity].
  destruct (rejected_rule_blocks_all decimal map_to_list map_to_list_order no_selector no_unicode any_order any_order_spec (λ _, False)
    NewDefaultManager (new_filter, 0%nat) (map_of [ssh_in; sctp_in]) (map_of [ssh_in]) false [ssh_in] sctp_in [] st1.1 st1.2 st2.1 st2.2
    (v4 0xC0A80102) (from_a 22) LayerTypeTCP) with (t := rules st2.2.1) as (i & b & E & Hb).
  - exact sample_start.
  - reflexivity.
  - intros r Hr. by apply ssh_map_ok.
  - intros x. by vm_compute.
  - apply after_apply.
  - done.
  - unfold st2. destruct st1 as [d1 f1]. apply after_apply.
  - reflexivity.
  - by intros (x & [] & _).
  - by right.
  - rewrite E. destruct b; [|discriminate (proj1 Hb eq_refl)]. f_equal. f_equal. vm_compute in E. congruence.
Defined.
