(* ===== verification/AccountStore.v ===== *)
(** The tables behind accounts, their transactions, and the setup key operations of the account
    manager: the methods of [src/management/server/store/sql_store.go] that peer registration
    and setup keys use, and [src/management/server/setupkey.go].

    A table is a finite map by primary key, with the unique indexes of [store.go].  A
    transaction is a function on the store; [ExecuteInTransaction] keeps its changes when it
    returns nil and drops them when it returns an error.  Rows are read with an update lock, so
    transactions on the same rows run one after the other, as they do here.  Database outages
    and the activity log are left out. *)
From S2P Require Import Prelude GoText GoHash NetIP AccessPolicy Posture AccountObjects Network Permissions SetupKeys.
Open Scope Z_scope.

(** ** Tables *)
Record Peer := {
  p_ID : string; p_AccountID : string; p_Key : string; p_IP : IP; p_Name : bytes;
  p_DNSLabel : bytes; p_UserID : string; p_LastLogin : Z; p_CreatedAt : Z; p_Ephemeral : bool;
  p_Embedded : bool; p_LoginExpirationEnabled : bool; p_InactivityExpirationEnabled : bool;
  p_ExtraDNSLabels : list bytes; p_AllowExtraDNSLabels : bool }.

(** The tables of the account's configuration.  The rules of a policy are kept with it. *)
Record Config := {
  policies : gmap string Policy;
  postureChecks : gmap string Posture.Checks;
  routes : gmap string Route;
  nameServerGroups : gmap string NameServerGroup;
  netObjects : gmap string NetworkObject;
  routers : gmap string NetworkRouter;
  dnsSettings : gmap string DNSSettings;             (* by account *)
  validatorGroups : gmap string (list string);       (* by account: Settings.Extra.IntegratedValidatorGroups *)
}.

(** The members of a group are rows of their own; [g_Peers] of a stored group is empty. *)
Record Store := {
  peers : gmap string Peer;
  groups : gmap string Group;
  groupPeers : gset (string * string);          (* (group, peer) *)
  setupKeys : gmap string SetupKey;
  users : gmap string User;
  lastLogins : gmap string Z;
  networks : gmap string Network;               (* by account: its network and serial *)
  config : Config;
}.

Inductive aerr :=
| EPermission (e : perm_err) | EDenied | EAutoGroups | EGroupNotFound | ESetupKeyNotFound | EUnrevoke
| EUnauthenticated | EAlreadyRegistered | EUserNotFound | EPendingApproval | EKeyInvalid
| EExtraLabelsDenied | EInvalidLabels | EAccountNotFound | EHostLabel | EUnique | EAllGroup
| EAttempts | EFreeIP | ENotFound | EInvalid | EExists | EInternal | EPrecondition
| ELinked (resource : string).
#[export] Instance perm_err_eq_dec : EqDecision perm_err.
Proof. solve_decision. Defined.
#[export] Instance aerr_eq_dec : EqDecision aerr.
Proof. solve_decision. Defined.

Definition set_peers (m : gmap string Peer) (s : Store) : Store :=
  {| peers := m; groups := groups s; groupPeers := groupPeers s; setupKeys := setupKeys s;
     users := users s; lastLogins := lastLogins s; networks := networks s; config := config s |}.
Definition set_groups (m : gmap string Group) (s : Store) : Store :=
  {| peers := peers s; groups := m; groupPeers := groupPeers s; setupKeys := setupKeys s;
     users := users s; lastLogins := lastLogins s; networks := networks s; config := config s |}.
Definition set_groupPeers (m : gset (string * string)) (s : Store) : Store :=
  {| peers := peers s; groups := groups s; groupPeers := m; setupKeys := setupKeys s;
     users := users s; lastLogins := lastLogins s; networks := networks s; config := config s |}.
Definition set_setupKeys (m : gmap string SetupKey) (s : Store) : Store :=
  {| peers := peers s; groups := groups s; groupPeers := groupPeers s; setupKeys := m;
     users := users s; lastLogins := lastLogins s; networks := networks s; config := config s |}.
Definition set_users (m : gmap string User) (s : Store) : Store :=
  {| peers := peers s; groups := groups s; groupPeers := groupPeers s; setupKeys := setupKeys s;
     users := m; lastLogins := lastLogins s; networks := networks s; config := config s |}.
Definition set_lastLogins (m : gmap string Z) (s : Store) : Store :=
  {| peers := peers s; groups := groups s; groupPeers := groupPeers s; setupKeys := setupKeys s;
     users := users s; lastLogins := m; networks := networks s; config := config s |}.
Definition set_networks (m : gmap string Network) (s : Store) : Store :=
  {| peers := peers s; groups := groups s; groupPeers := groupPeers s; setupKeys := setupKeys s;
     users := users s; lastLogins := lastLogins s; networks := m; config := config s |}.
Definition set_config (m : Config) (s : Store) : Store :=
  {| peers := peers s; groups := groups s; groupPeers := groupPeers s; setupKeys := setupKeys s;
     users := users s; lastLogins := lastLogins s; networks := networks s; config := m |}.
Definition put_policies (m : gmap string Policy) (c : Config) : Config :=
  {| policies := m; postureChecks := postureChecks c; routes := routes c;
     nameServerGroups := nameServerGroups c; netObjects := netObjects c; routers := routers c;
     dnsSettings := dnsSettings c; validatorGroups := validatorGroups c |}.
Definition put_postureChecks (m : gmap string Posture.Checks) (c : Config) : Config :=
  {| policies := policies c; postureChecks := m; routes := routes c;
     nameServerGroups := nameServerGroups c; netObjects := netObjects c; routers := routers c;
     dnsSettings := dnsSettings c; validatorGroups := validatorGroups c |}.
Definition put_routes (m : gmap string Route) (c : Config) : Config :=
  {| policies := policies c; postureChecks := postureChecks c; routes := m;
     nameServerGroups := nameServerGroups c; netObjects := netObjects c; routers := routers c;
     dnsSettings := dnsSettings c; validatorGroups := validatorGroups c |}.
Definition put_nameServerGroups (m : gmap string NameServerGroup) (c : Config) : Config :=
  {| policies := policies c; postureChecks := postureChecks c; routes := routes c;
     nameServerGroups := m; netObjects := netObjects c; routers := routers c;
     dnsSettings := dnsSettings c; validatorGroups := validatorGroups c |}.
Definition put_routers (m : gmap string NetworkRouter) (c : Config) : Config :=
  {| policies := policies c; postureChecks := postureChecks c; routes := routes c;
     nameServerGroups := nameServerGroups c; netObjects := netObjects c; routers := m;
     dnsSettings := dnsSettings c; validatorGroups := validatorGroups c |}.
Definition put_dnsSettings (m : gmap string DNSSettings) (c : Config) : Config :=
  {| policies := policies c; postureChecks := postureChecks c; routes := routes c;
     nameServerGroups := nameServerGroups c; netObjects := netObjects c; routers := routers c;
     dnsSettings := m; validatorGroups := validatorGroups c |}.

(** ** Transactions *)
Definition tx (A : Type) : Type := Store → outcome aerr (A * Store).
Definition tx_ret {A} (a : A) : tx A := λ s, Ret (a, s).
Definition tx_bind {A B} (m : tx A) (f : A → tx B) : tx B := λ s, '(a, s) ← m s; f a s.
Definition tx_err {A} (e : aerr) : tx A := λ _, Err e.
Definition tx_get {A} (f : Store → outcome aerr A) : tx A := λ s, a ← f s; Ret (a, s).
Definition tx_put (f : Store → Store) : tx () := λ s, Ret (tt, f s).
Definition tx_guard (b : bool) (e : aerr) : tx () := if b then tx_err e else tx_ret tt.
Declare Scope tx_scope.
Delimit Scope tx_scope with tx.
Notation "'let!' x := m 'in' k" := (tx_bind m (λ x, k)) (at level 10, x name, m at level 100,
  k at level 200) : tx_scope.
Notation "m ;; k" := (tx_bind m (λ _, k)) (at level 100, right associativity) : tx_scope.
Open Scope tx_scope.

Definition ExecuteInTransaction {A} (operation : tx A) (s : Store) : outcome aerr A * Store :=
  match operation s with
  | Ret (a, s') => (Ret a, s')
  | Err e => (Err e, s)
  | Panic => (Panic, s)
  end.

(** ** Methods of the store *)
Definition find_row {A} (P : A → bool) (m : gmap string A) : option A :=
  snd <$> list_find (λ r, P r = true) ((map_to_list m).*2).

Definition GetSetupKeyBySecret (key : bytes) (s : Store) : outcome aerr SetupKey :=
  match find_row (λ k, bool_decide (Key k = key)) (setupKeys s) with
  | Some k => Ret k
  | None => Err ESetupKeyNotFound
  end.

Definition GetSetupKeyByID (accountID keyID : string) (s : Store) : outcome aerr SetupKey :=
  match setupKeys s !! keyID with
  | Some k => if bool_decide (sk_AccountID k = accountID) then Ret k else Err ESetupKeyNotFound
  | None => Err ESetupKeyNotFound
  end.

(** [used_times = used_times + 1] *)
Definition IncrementSetupKeyUsage (keyID : string) (now : Z) : tx () := λ s,
  match setupKeys s !! keyID with
  | Some k => Ret (tt, set_setupKeys (<[keyID := with_usage (UsedTimes k + 1) now k]> (setupKeys s)) s)
  | None => Err ESetupKeyNotFound
  end.

Definition store_SaveSetupKey (k : SetupKey) : tx () :=
  tx_put (λ s, set_setupKeys (<[sk_Id k := k]> (setupKeys s)) s).

Definition store_DeleteSetupKey (accountID keyID : string) : tx () :=
  let! _ := tx_get (GetSetupKeyByID accountID keyID) in
  tx_put (λ s, set_setupKeys (delete keyID (setupKeys s)) s).

Definition GetUserByUserID (s : Store) (userID : string) : outcome perm_err (option User) :=
  match users s !! userID with Some u => Ret (Some u) | None => Err ErrUserNotFound end.

Definition GetPeerByPeerPubKey (key : string) (s : Store) : option Peer :=
  find_row (λ p, bool_decide (p_Key p = key)) (peers s).

(** The unique indexes: (account, ip), (account, dns label) and the public key; and the
    primary key. *)
Definition conflicts (p q : Peer) : bool :=
  bool_decide (p_ID p = p_ID q) || bool_decide (p_Key p = p_Key q)
  || (bool_decide (p_AccountID p = p_AccountID q)
      && (bool_decide (p_IP p = p_IP q) || bool_decide (p_DNSLabel p = p_DNSLabel q))).

Definition AddPeerToAccount (p : Peer) : tx () := λ s,
  match find_row (conflicts p) (peers s) with
  | Some _ => Err EUnique
  | None => Ret (tt, set_peers (<[p_ID p := p]> (peers s)) s)
  end.

Definition AddPeerToGroup (peerID groupID : string) : tx () :=
  tx_put (λ s, set_groupPeers ({[ (groupID, peerID) ]} ∪ groupPeers s) s).

Definition AddPeerToAllGroup (accountID peerID : string) : tx () := λ s,
  match find_row (λ g, bool_decide (g_AccountID g = accountID) && IsGroupAll g) (groups s) with
  | Some g => AddPeerToGroup peerID (g_ID g) s
  | None => Err EAllGroup
  end.

(** A failure is only logged. *)
Definition SaveUserLastLogin (accountID userID : string) (now : Z) : tx () :=
  tx_put (λ s,
    match users s !! userID with
    | Some u => if bool_decide (u_AccountID u = accountID)
                then set_lastLogins (<[userID := now]> (lastLogins s)) s else s
    | None => s
    end).

Definition IncrementNetworkSerial (accountID : string) : tx () :=
  tx_put (λ s, set_networks (alter IncSerial accountID (networks s)) s).

Definition GetGroupsByIDs (accountID : string) (ids : list string) (s : Store) : gmap string Group :=
  filter (λ p, g_AccountID p.2 = accountID ∧ p.1 ∈ ids) (groups s).

(** ** setupkey.go *)
Definition validateSetupKeyAutoGroups (accountID : string) (autoGroupIDs : list string) : tx () := λ s,
  let gs := GetGroupsByIDs accountID autoGroupIDs s in
  if forallb (λ i, match gs !! i with Some g => negb (IsGroupAll g) | None => false end) autoGroupIDs
  then Ret (tt, s) else Err EAutoGroups.

Definition checked (module accountID userID operation : string) (s : Store) : outcome aerr () :=
  match ValidateUserPermissions (GetUserByUserID s) accountID userID module operation with
  | Ret true => Ret tt
  | Ret false => Err EDenied
  | Err e => Err (EPermission e)
  | Panic => Panic
  end.

(** Every operation first checks the permissions, outside of its transaction. *)
Definition authorized {A} (module accountID userID operation : string) (op : tx A) (s : Store)
    : outcome aerr A * Store :=
  match checked module accountID userID operation s with
  | Ret _ => ExecuteInTransaction op s
  | Err e => (Err e, s)
  | Panic => (Panic, s)
  end.

(** The stored key has the hashed secret, the returned one the plain secret. *)
Definition CreateSetupKey (uuid : bytes) (xid : string) (now : Z) (accountID keyName keyType : string)
    (expiresIn : Z) (autoGroups : list string) (usageLimit : Z) (userID : string)
    (ephemeral allowExtraDNSLabels : bool) : Store → outcome aerr SetupKey * Store :=
  authorized Permissions.SetupKeys accountID userID Create
    (validateSetupKeyAutoGroups accountID autoGroups ;;
     match GenerateSetupKey uuid xid now keyName keyType expiresIn autoGroups usageLimit
             ephemeral allowExtraDNSLabels with
     | Ret (k, plainKey) =>
         let k := with_key accountID (Key k) k in
         store_SaveSetupKey k ;; tx_ret (with_key accountID plainKey k)
     | _ => λ _, Panic
     end).

Definition SaveSetupKey (now : Z) (accountID : string) (keyToSave : SetupKey) (userID : string)
    : Store → outcome aerr SetupKey * Store :=
  authorized Permissions.SetupKeys accountID userID Update
    (validateSetupKeyAutoGroups accountID (AutoGroups keyToSave) ;;
     let! oldKey := tx_get (GetSetupKeyByID accountID (sk_Id keyToSave)) in
     tx_guard (Revoked oldKey && negb (Revoked keyToSave)) EUnrevoke ;;
     let newKey := with_update (AutoGroups keyToSave) (Revoked keyToSave) now (Copy oldKey) in
     store_SaveSetupKey newKey ;; tx_ret newKey).

Definition DeleteSetupKey (accountID userID keyID : string) : Store → outcome aerr () * Store :=
  authorized Permissions.SetupKeys accountID userID Delete
    (let! _ := tx_get (GetSetupKeyByID accountID keyID) in store_DeleteSetupKey accountID keyID).

Definition GetSetupKey (accountID userID keyID : string) (s : Store) : outcome aerr SetupKey :=
  _ ← checked Permissions.SetupKeys accountID userID Read s;
  k ← GetSetupKeyByID accountID keyID s;
  Ret (Copy k).

Definition ListSetupKeys (accountID userID : string) (s : Store) : outcome aerr (list SetupKey) :=
  _ ← checked Permissions.SetupKeys accountID userID Read s;
  Ret (filter (λ k, sk_AccountID k = accountID) (map_to_list (setupKeys s)).*2).

(** * Rows and transactions *)
Lemma find_row_Some {A} (P : A → bool) (m : gmap string A) x :
  find_row P m = Some x → ∃ k, m !! k = Some x ∧ P x = true.
Proof.
  unfold find_row. destruct (list_find _ _) as [[i y]|] eqn:Hf; [|done]. intros [= <-].
  apply list_find_Some in Hf as (Hi & HP & _). apply list_elem_of_lookup_2 in Hi.
  apply list_elem_of_fmap in Hi as ([k z] & -> & Hin%elem_of_map_to_list). eauto.
Qed.

Lemma find_row_None {A} (P : A → bool) (m : gmap string A) k x :
  find_row P m = None → m !! k = Some x → P x = false.
Proof.
  unfold find_row. destruct (list_find _ _) as [[i y]|] eqn:Hf; [done|]. intros _ Hk.
  apply list_find_None in Hf. rewrite Forall_forall in Hf.
  destruct (P x) eqn:HP; [|done]. exfalso. apply (Hf x); [|done].
  apply list_elem_of_fmap. exists (k, x). by rewrite elem_of_map_to_list.
Qed.

Lemma tx_bind_inv {A B} (m : tx A) (f : A → tx B) s b s' :
  tx_bind m f s = Ret (b, s') → ∃ a s1, m s = Ret (a, s1) ∧ f a s1 = Ret (b, s').
Proof. unfold tx_bind. intros ([a s1] & ? & ?)%bind_Ret_inv. eauto. Qed.

Lemma execute_inv {A} (op : tx A) s r s' :
  ExecuteInTransaction op s = (r, s') →
  match r with Ret a => op s = Ret (a, s') | _ => s' = s end.
Proof. unfold ExecuteInTransaction. destruct (op s) as [[a s1]| |]; naive_solver. Qed.

Lemma authorized_inv {A} module acc user o (op : tx A) s res s' :
  authorized module acc user o op s = (res, s') →
  match res with Ret a => op s = Ret (a, s') | _ => s' = s end.
Proof.
  unfold authorized. destruct (checked _ _ _ _ _); [apply execute_inv| |]; intros [= <- <-]; done.
Qed.

Lemma tx_get_inv {A} (f : Store → outcome aerr A) s a s' : tx_get f s = Ret (a, s') → f s = Ret a ∧ s' = s.
Proof. unfold tx_get. intros (x & Hf & [= <- <-])%bind_Ret_inv. done. Qed.
Lemma tx_put_inv f s u s' : tx_put f s = Ret (u, s') → s' = f s.
Proof. by intros [= _ <-]. Qed.
Lemma tx_ret_inv {A} (x : A) s a s' : tx_ret x s = Ret (a, s') → a = x ∧ s' = s.
Proof. by intros [= <- <-]. Qed.
Lemma tx_guard_inv b e s u s' : tx_guard b e s = Ret (u, s') → b = false ∧ s' = s.
Proof. unfold tx_guard. destruct b; [done|]. by intros [= _ <-]. Qed.
Lemma guard_err_inv {E} b (e : E) u : guard_err b e = Ret u → b = false.
Proof. by destruct b. Qed.

(** Takes apart a transaction that returned. *)
Ltac tx_inv :=
  repeat match goal with
  | H : tx_bind _ _ _ = Ret _ |- _ => apply tx_bind_inv in H as (? & ? & ? & H); cbv beta zeta in H
  | H : tx_get _ _ = Ret _ |- _ => apply tx_get_inv in H as [? ->]
  | H : tx_put _ _ = Ret _ |- _ => apply tx_put_inv in H as ->
  | H : tx_ret _ _ = Ret _ |- _ => apply tx_ret_inv in H as [-> ->]
  | H : tx_guard _ _ _ = Ret _ |- _ => apply tx_guard_inv in H as [? ->]
  | H : IncrementNetworkSerial _ _ = Ret _ |- _ => unfold IncrementNetworkSerial in H
  | H : tx_err _ _ = Ret _ |- _ => discriminate H
  | H : guard_err _ _ = Ret _ |- _ => apply guard_err_inv in H
  | H : Ret _ = Ret _ |- _ => injection H as H
  | H : Err _ = Ret _ |- _ => discriminate H
  | H : Panic = Ret _ |- _ => discriminate H
  end.
