(* ===== verification/AccountGroups.v ===== *)
(** Groups of an account: [src/management/server/group.go] with the methods of
    [src/management/server/store/sql_store.go] it calls.

    Each operation runs in a transaction on the tables of [AccountStore]; its answer says
    whether the account's peers get new network maps ([UpdateAccountPeers]).  Identifiers drawn
    with [xid.New()] are arguments.  The memberships of a deleted group go with it, as the schema
    declares.  Activity events are left out. *)
From S2P Require Import Prelude NetIP AccessPolicy Posture AccountObjects Network Permissions SetupKeys AccountStore.
Open Scope tx_scope.

Definition GroupIssuedAPI : string := "api".
Definition GroupIssuedIntegration : string := "integration".

#[export] Instance Resource_eq_dec : EqDecision Resource.
Proof. solve_decision. Defined.

(** ** Methods of the store *)
Definition peers_of (g : string) (s : Store) : list string :=
  snd <$> elements (filter (λ gp, gp.1 = g) (groupPeers s)).
Definition LoadGroupPeers (s : Store) (g : Group) : Group := with_Peers (peers_of (g_ID g) s) g.
Definition HasPeers (g : Group) : bool := negb (bool_decide (g_Peers g = [])).
Definition HasResources (g : Group) : bool := negb (bool_decide (g_Resources g = [])).

(** Rows of one account. *)
Definition of_account {A} (acc : A → string) (accountID : string) (m : gmap string A) : list A :=
  filter (λ r, acc r = accountID) (map_to_list m).*2.
Definition by_id {A} (acc : A → string) (accountID i : string) (m : gmap string A) : outcome aerr A :=
  match m !! i with
  | Some r => if bool_decide (acc r = accountID) then Ret r else Err ENotFound
  | None => Err ENotFound
  end.

Definition GetGroupByID (accountID groupID : string) (s : Store) : outcome aerr Group :=
  g ← by_id g_AccountID accountID groupID (groups s);
  Ret (LoadGroupPeers s g).

(** The group of that name with the most members. *)
Definition GetGroupByName (accountID name : string) (s : Store) : option Group :=
  foldl (λ best g, match best with
                   | Some b => if bool_decide (length (g_Peers b) < length (g_Peers g))%nat then Some g else Some b
                   | None => Some g
                   end) None
    (LoadGroupPeers s <$> filter (λ g, g_Name g = name) (of_account g_AccountID accountID (groups s))).

Definition store_CreateGroup (g : Group) : tx () := λ s,
  match groups s !! g_ID g with
  | Some _ => Err EInternal
  | None => Ret (tt, set_groups (<[g_ID g := with_Peers [] g]> (groups s)) s)
  end.
Definition store_UpdateGroup (g : Group) : tx () :=
  tx_put (λ s, set_groups (<[g_ID g := with_Peers [] g]> (groups s)) s).
Definition store_DeleteGroups (accountID : string) (ids : list string) : tx () :=
  tx_put (λ s,
    let gone := filter (λ p, p.1 ∈ ids ∧ g_AccountID p.2 = accountID) (groups s) in
    set_groups (groups s ∖ gone) (set_groupPeers (filter (λ gp, gone !! gp.1 = None) (groupPeers s)) s)).
Definition RemovePeerFromGroup (peerID groupID : string) : tx () :=
  tx_put (λ s, set_groupPeers (groupPeers s ∖ {[ (groupID, peerID) ]}) s).

Definition GetAccountDNSSettings (accountID : string) (s : Store) : outcome aerr DNSSettings :=
  match dnsSettings (config s) !! accountID with Some d => Ret d | None => Err EAccountNotFound end.

Definition add_all (groupID : string) (ps : list string) : tx () :=
  foldr (λ p k, AddPeerToGroup p groupID ;; k) (tx_ret tt) ps.
Definition remove_all (groupID : string) (ps : list string) : tx () :=
  foldr (λ p k, RemovePeerFromGroup p groupID ;; k) (tx_ret tt) ps.

(** ** Where a group is used *)
Section links.
Context (accountID groupID : string) (s : Store).

Definition isGroupLinkedToRoute : bool :=
  existsb (λ r, bool_decide (groupID ∈ rt_Groups r) || bool_decide (groupID ∈ rt_PeerGroups r)
                || bool_decide (groupID ∈ rt_AccessControlGroups r))
          (of_account rt_AccountID accountID (routes (config s))).
Definition isGroupLinkedToPolicy : bool :=
  existsb (λ p, existsb (λ r, bool_decide (groupID ∈ r_Sources r) || bool_decide (groupID ∈ r_Destinations r))
                        (pol_Rules p))
          (of_account pol_AccountID accountID (policies (config s))).
Definition isGroupLinkedToDns : bool :=
  existsb (λ n, bool_decide (groupID ∈ ns_Groups n))
          (of_account ns_AccountID accountID (nameServerGroups (config s))).
Definition isGroupLinkedToSetupKey : bool :=
  existsb (λ k, bool_decide (groupID ∈ AutoGroups k)) (of_account sk_AccountID accountID (setupKeys s)).
Definition isGroupLinkedToUser : bool :=
  existsb (λ u, bool_decide (groupID ∈ u_AutoGroups u)) (of_account u_AccountID accountID (users s)).
Definition isGroupLinkedToNetworkRouter : bool :=
  existsb (λ r, bool_decide (groupID ∈ ro_PeerGroups r))
          (of_account ro_AccountID accountID (routers (config s))).
End links.

Definition checkGroupLinkedToSettings (g : Group) (s : Store) : outcome aerr () :=
  match GetAccountDNSSettings (g_AccountID g) s with
  | Ret d =>
      _ ← guard_err (bool_decide (g_ID g ∈ DisabledManagementGroups d)) (ELinked "disabled DNS management groups");
      guard_err (from_option (λ l, bool_decide (g_ID g ∈ l)) false (validatorGroups (config s) !! g_AccountID g))
                (ELinked "integrated validator")
  | _ => Err EInternal
  end.

(** Groups an integration has issued are deleted by administrators that are service users. *)
Definition may_delete_integration_group (userID : string) (s : Store) : outcome aerr () :=
  match users s !! userID with
  | None => Err EInternal
  | Some u => guard_err (negb (bool_decide (u_Role u = UserRoleAdmin)) || negb (IsServiceUser u)) EDenied
  end.

Definition validateDeleteGroup (g : Group) (userID : string) (flowGroups : list string) (s : Store)
    : outcome aerr () :=
  let a := g_AccountID g in let i := g_ID g in
  _ ← if bool_decide (g_Issued g = GroupIssuedIntegration) then may_delete_integration_group userID s else Ret tt;
  _ ← guard_err (IsGroupAll g) EInvalid;
  _ ← guard_err (HasResources g) (ELinked "network resource");
  _ ← guard_err (bool_decide (i ∈ flowGroups)) (ELinked "settings");
  _ ← guard_err (isGroupLinkedToRoute a i s) (ELinked "route");
  _ ← guard_err (isGroupLinkedToDns a i s) (ELinked "name server groups");
  _ ← guard_err (isGroupLinkedToPolicy a i s) (ELinked "policy");
  _ ← guard_err (isGroupLinkedToSetupKey a i s) (ELinked "setup key");
  _ ← guard_err (isGroupLinkedToUser a i s) (ELinked "user");
  _ ← guard_err (isGroupLinkedToNetworkRouter a i s) (ELinked "network router");
  checkGroupLinkedToSettings g s.

Definition areGroupChangesAffectPeers (accountID : string) (ids : list string) (s : Store) : outcome aerr bool :=
  if bool_decide (ids = []) then Ret false
  else
    d ← GetAccountDNSSettings accountID s;
    Ret (existsb (λ i, bool_decide (i ∈ DisabledManagementGroups d) || isGroupLinkedToDns accountID i s
                       || isGroupLinkedToPolicy accountID i s || isGroupLinkedToRoute accountID i s
                       || isGroupLinkedToNetworkRouter accountID i s) ids).

Definition anyGroupHasPeersOrResources (accountID : string) (ids : list string) (s : Store) : bool :=
  existsb (λ g, HasPeers (LoadGroupPeers s g) || HasResources g) ((map_to_list (GetGroupsByIDs accountID ids s)).*2).

(** ** Operations *)
Definition with_account (accountID : string) (g : Group) : Group :=
  {| g_ID := g_ID g; g_AccountID := accountID; g_Name := g_Name g; g_Issued := g_Issued g;
     g_Peers := g_Peers g; g_Resources := g_Resources g |}.
Definition with_id (i : string) (g : Group) : Group :=
  {| g_ID := i; g_AccountID := g_AccountID g; g_Name := g_Name g; g_Issued := g_Issued g;
     g_Peers := g_Peers g; g_Resources := g_Resources g |}.

Definition validateNewGroup (xid accountID : string) (g : Group) (s : Store) : outcome aerr Group :=
  if bool_decide (g_ID g = "") then
    if bool_decide (g_Issued g = GroupIssuedAPI) then
      match GetGroupByName accountID (g_Name g) s with
      | Some _ => Err EExists
      | None => Ret (with_id xid g)
      end
    else Err EInvalid
  else Ret g.

Definition CreateGroup (xid accountID userID : string) (newGroup : Group) : Store → outcome aerr bool * Store :=
  authorized Permissions.Groups accountID userID Create
    (let! g := tx_get (validateNewGroup xid accountID newGroup) in
     let g := with_account accountID g in
     let! update := tx_get (areGroupChangesAffectPeers accountID [g_ID g]) in
     store_CreateGroup g ;;
     add_all (g_ID g) (g_Peers g) ;;
     IncrementNetworkSerial accountID ;;
     tx_ret update).

Definition Difference (a b : list string) : list string := filter (λ x, x ∉ b) a.

Definition UpdateGroup (xid accountID userID : string) (newGroup : Group) : Store → outcome aerr bool * Store :=
  authorized Permissions.Groups accountID userID Update
    (let! g := tx_get (validateNewGroup xid accountID newGroup) in
     let g := with_account accountID g in
     let! old := tx_get (GetGroupByID accountID (g_ID g)) in
     add_all (g_ID g) (Difference (g_Peers g) (g_Peers old)) ;;
     remove_all (g_ID g) (Difference (g_Peers old) (g_Peers g)) ;;
     let! update := tx_get (areGroupChangesAffectPeers accountID [g_ID g]) in
     store_UpdateGroup g ;;
     IncrementNetworkSerial accountID ;;
     tx_ret update).

(** One transaction per group.  After an error the loop returns when [stop] says so of the number
    of groups done before, and goes on otherwise. *)
Fixpoint each_group (op : Group → tx ()) (accountID : string) (stop : nat → bool)
    (gs : list (string * Group)) (ids : list string) (errs : list aerr) (s : Store)
    : (aerr + (list string * list aerr)) * Store :=
  match gs with
  | [] => (inr (ids, errs), s)
  | (xid, g) :: gs =>
      match ExecuteInTransaction
              (let! g := tx_get (validateNewGroup xid accountID g) in
               let g := with_account accountID g in
               op g ;; IncrementNetworkSerial accountID ;; tx_ret (g_ID g)) s with
      | (Ret i, s) => each_group op accountID stop gs (ids ++ [i]) errs s
      | (Err e, s) => if stop (length ids) then (inl e, s)
                      else each_group op accountID stop gs ids (errs ++ [e]) s
      | (Panic, s) => (inl EInternal, s)
      end
  end.

(** After the loop: the joined errors, and whether the peers are updated. *)
Definition finish_groups (accountID : string) (r : (aerr + (list string * list aerr)) * Store)
    : (list aerr * bool) * Store :=
  match r with
  | (inl e, s) => (([e], false), s)
  | (inr (ids, errs), s) =>
      match areGroupChangesAffectPeers accountID ids s with
      | Ret update => ((errs, update), s)
      | Err e => (([e], false), s)
      | Panic => (([EInternal], false), s)
      end
  end.

(** [CreateGroups] compares the number of groups created so far with one, [UpdateGroups] the
    number of groups to update. *)
Definition CreateGroups (accountID userID : string) (gs : list (string * Group)) (s : Store)
    : (list aerr * bool) * Store :=
  match checked Permissions.Groups accountID userID Create s with
  | Ret _ => finish_groups accountID
               (each_group store_CreateGroup accountID (λ created, bool_decide (created = 1%nat)) gs [] [] s)
  | Err e => (([e], false), s)
  | Panic => (([EInternal], false), s)
  end.

Definition UpdateGroups (accountID userID : string) (gs : list (string * Group)) (s : Store)
    : (list aerr * bool) * Store :=
  match checked Permissions.Groups accountID userID Update s with
  | Ret _ => finish_groups accountID
               (each_group store_UpdateGroup accountID (λ _, bool_decide (length gs = 1%nat)) gs [] [] s)
  | Err e => (([e], false), s)
  | Panic => (([EInternal], false), s)
  end.

(** The groups that can be deleted, and the errors of the others. *)
Fixpoint deletable (accountID userID : string) (flowGroups ids : list string) (s : Store)
    : list string * list aerr :=
  match ids with
  | [] => ([], [])
  | i :: ids =>
      let '(del, errs) := deletable accountID userID flowGroups ids s in
      match (g ← GetGroupByID accountID i s; validateDeleteGroup g userID flowGroups s) with
      | Ret _ => (i :: del, errs)
      | Err e => (del, e :: errs)
      | Panic => (del, errs)
      end
  end.

(** The groups without links are deleted; the errors of the others are returned together. *)
Definition DeleteGroups (accountID userID : string) (flowGroups groupIDs : list string) (s : Store)
    : outcome aerr (list aerr) * Store :=
  authorized Permissions.Groups accountID userID Delete
    (λ s, let '(del, errs) := deletable accountID userID flowGroups groupIDs s in
          if bool_decide (del = []) then Ret (errs, s)
          else (store_DeleteGroups accountID del ;; IncrementNetworkSerial accountID ;; tx_ret errs) s) s.

Definition DeleteGroup (accountID userID : string) (flowGroups : list string) (groupID : string) :=
  DeleteGroups accountID userID flowGroups [groupID].

Definition GroupAddPeer (accountID groupID peerID : string) : Store → outcome aerr bool * Store :=
  ExecuteInTransaction
    (let! update := tx_get (areGroupChangesAffectPeers accountID [groupID]) in
     AddPeerToGroup peerID groupID ;; IncrementNetworkSerial accountID ;; tx_ret update).
Definition GroupDeletePeer (accountID groupID peerID : string) : Store → outcome aerr bool * Store :=
  ExecuteInTransaction
    (let! update := tx_get (areGroupChangesAffectPeers accountID [groupID]) in
     RemovePeerFromGroup peerID groupID ;; IncrementNetworkSerial accountID ;; tx_ret update).

Definition with_Resources (rs : list Resource) (g : Group) : Group :=
  {| g_ID := g_ID g; g_AccountID := g_AccountID g; g_Name := g_Name g; g_Issued := g_Issued g;
     g_Peers := g_Peers g; g_Resources := rs |}.
(** [None]: nothing to do. *)
Definition AddResource (r : Resource) (g : Group) : option Group :=
  if bool_decide (r ∈ g_Resources g) then None else Some (with_Resources (g_Resources g ++ [r]) g).
Fixpoint remove_first (r : Resource) (rs : list Resource) : option (list Resource) :=
  match rs with
  | [] => None
  | x :: rs => if decide (x = r) then Some rs else cons x <$> remove_first r rs
  end.
Definition RemoveResource (r : Resource) (g : Group) : option Group :=
  (λ rs, with_Resources rs g) <$> remove_first r (g_Resources g).

Definition change_resources (f : Group → option Group) (accountID groupID : string)
    : Store → outcome aerr bool * Store :=
  ExecuteInTransaction
    (let! g := tx_get (GetGroupByID accountID groupID) in
     match f g with
     | None => tx_ret false
     | Some g =>
         let! update := tx_get (areGroupChangesAffectPeers accountID [groupID]) in
         store_UpdateGroup g ;; IncrementNetworkSerial accountID ;; tx_ret update
     end).
Definition GroupAddResource (accountID groupID : string) (r : Resource) :=
  change_resources (AddResource r) accountID groupID.
Definition GroupDeleteResource (accountID groupID : string) (r : Resource) :=
  change_resources (RemoveResource r) accountID groupID.
