(* ===== verification/AccountPolicies.v ===== *)
(** Policies and posture checks of an account: [src/management/server/policy.go],
    [src/management/server/posture_checks.go], the comparison of policies of
    [src/management/server/types], and the methods of the store they call.

    The object-relational mapper that writes a policy's rules (gorm) is a parameter:
    [save_rules old new] are the rules of the policy after rules [new] are saved over the
    stored rules [old]. *)
From Stdlib Require Import Strings.String.
From S2P Require Import Prelude NetIP AccessPolicy Posture AccountObjects Network Permissions SetupKeys.
From S2P Require Import AccountStore AccountGroups.
Open Scope tx_scope.

(** ** Comparison of policies *)
Section sorting.
Context {A : Type} (leb : A → A → bool).
Fixpoint insert_sorted (x : A) (l : list A) : list A :=
  match l with
  | [] => [x]
  | y :: l' => if leb x y then x :: l else y :: insert_sorted x l'
  end.
Definition sort (l : list A) : list A := foldr insert_sorted [] l.
End sorting.

Definition stringSlicesEqualUnordered (a b : list string) : bool :=
  bool_decide (length a = length b) && bool_decide (sort String.leb a = sort String.leb b).

Definition range_leb (x y : RulePortRange) : bool :=
  if bool_decide (Start x = Start y) then bool_decide (End_ x ≤ End_ y)%Z else bool_decide (Start x < Start y)%Z.
Definition portRangeSlicesEqualUnordered (a b : list RulePortRange) : bool :=
  bool_decide (length a = length b) && bool_decide (sort range_leb a = sort range_leb b).

Definition authorizedGroupsEqual (a b : gmap string (list string)) : bool :=
  bool_decide (size a = size b)
  && forallb (λ p, match b !! p.1 with Some vb => stringSlicesEqualUnordered p.2 vb | None => false end)
             (map_to_list a).

Definition PolicyRule_Equal (x y : PolicyRule) : bool :=
  bool_decide (r_ID x = r_ID y) && bool_decide (r_PolicyID x = r_PolicyID y)
  && bool_decide (r_Name x = r_Name y) && bool_decide (r_Description x = r_Description y)
  && bool_decide (r_Enabled x = r_Enabled y) && bool_decide (r_Action x = r_Action y)
  && bool_decide (r_Bidirectional x = r_Bidirectional y) && bool_decide (r_Protocol x = r_Protocol y)
  && bool_decide (r_SourceResource x = r_SourceResource y)
  && bool_decide (r_DestinationResource x = r_DestinationResource y)
  && bool_decide (r_AuthorizedUser x = r_AuthorizedUser y)
  && stringSlicesEqualUnordered (r_Sources x) (r_Sources y)
  && stringSlicesEqualUnordered (r_Destinations x) (r_Destinations y)
  && stringSlicesEqualUnordered (r_Ports x) (r_Ports y)
  && portRangeSlicesEqualUnordered (r_PortRanges x) (r_PortRanges y)
  && authorizedGroupsEqual (r_AuthorizedGroups x) (r_AuthorizedGroups y).

(** The other policy's rules by identifier; of two with the same one the last counts. *)
Definition rules_by_id (rs : list PolicyRule) : gmap string PolicyRule :=
  foldl (λ m r, <[r_ID r := r]> m) ∅ rs.

Definition Policy_Equal (p other : Policy) : bool :=
  bool_decide (pol_ID p = pol_ID other) && bool_decide (pol_AccountID p = pol_AccountID other)
  && bool_decide (pol_Name p = pol_Name other) && bool_decide (pol_Description p = pol_Description other)
  && bool_decide (pol_Enabled p = pol_Enabled other)
  && stringSlicesEqualUnordered (pol_SourcePostureChecks p) (pol_SourcePostureChecks other)
  && bool_decide (length (pol_Rules p) = length (pol_Rules other))
  && forallb (λ r, match rules_by_id (pol_Rules other) !! r_ID r with
                   | Some o => PolicyRule_Equal r o
                   | None => false
                   end) (pol_Rules p).

Definition RuleGroups (p : Policy) : list string := mjoin ((λ r, r_Sources r ++ r_Destinations r) <$> pol_Rules p).

(** ** Methods of the store *)
Definition put_config (f : Config → Config) : tx () := tx_put (λ s, set_config (f (config s)) s).

Definition GetAccountPolicies (accountID : string) (s : Store) : list Policy :=
  of_account pol_AccountID accountID (policies (config s)).
Definition GetPolicyByID (accountID policyID : string) (s : Store) : outcome aerr Policy :=
  by_id pol_AccountID accountID policyID (policies (config s)).

Definition GetPostureChecksByID (accountID i : string) (s : Store) : outcome aerr Posture.Checks :=
  by_id pc_AccountID accountID i (postureChecks (config s)).
Definition GetPostureChecksByIDs (accountID : string) (ids : list string) (s : Store) : gmap string Posture.Checks :=
  filter (λ p, pc_AccountID p.2 = accountID ∧ p.1 ∈ ids) (postureChecks (config s)).
Definition GetAccountPostureChecks (accountID : string) (s : Store) : list Posture.Checks :=
  of_account pc_AccountID accountID (postureChecks (config s)).
Definition store_SavePostureChecks (c : Posture.Checks) : tx () :=
  put_config (λ k, put_postureChecks (<[pc_ID c := c]> (postureChecks k)) k).
Definition store_DeletePostureChecks (accountID i : string) : tx () :=
  let! _ := tx_get (GetPostureChecksByID accountID i) in
  put_config (λ k, put_postureChecks (delete i (postureChecks k)) k).
Definition store_DeletePolicy (accountID policyID : string) : tx () :=
  let! _ := tx_get (GetPolicyByID accountID policyID) in
  put_config (λ k, put_policies (delete policyID (policies k)) k).

Section policies.
Context (save_rules : list PolicyRule → list PolicyRule → list PolicyRule).

Definition with_rules (rs : list PolicyRule) (p : Policy) : Policy :=
  {| pol_ID := pol_ID p; pol_AccountID := pol_AccountID p; pol_Name := pol_Name p;
     pol_Description := pol_Description p; pol_Enabled := pol_Enabled p; pol_Rules := rs;
     pol_SourcePostureChecks := pol_SourcePostureChecks p |}.

Definition store_CreatePolicy (p : Policy) : tx () := λ s,
  match policies (config s) !! pol_ID p with
  | Some _ => Err EInternal
  | None => put_config (λ k, put_policies (<[pol_ID p := with_rules (save_rules [] (pol_Rules p)) p]> (policies k)) k) s
  end.
Definition store_SavePolicy (p : Policy) : tx () :=
  put_config (λ k,
    let old := from_option pol_Rules [] (policies k !! pol_ID p) in
    put_policies (<[pol_ID p := with_rules (save_rules old (pol_Rules p)) p]> (policies k)) k).

(** ** policy.go *)
Definition getValidGroupIDs (gs : gmap string Group) (ids : list string) : list string :=
  filter (λ i, is_Some (gs !! i)) ids.
Definition getValidPostureCheckIDs (cs : gmap string Posture.Checks) (ids : list string) : list string :=
  filter (λ i, is_Some (cs !! i)) ids.

Definition fix_rule (policyID : string) (gs : gmap string Group) (r : PolicyRule) : PolicyRule :=
  let new := bool_decide (r_ID r = "") in
  {| r_ID := if new then policyID else r_ID r; r_PolicyID := if new then policyID else r_PolicyID r;
     r_Name := r_Name r; r_Description := r_Description r; r_Enabled := r_Enabled r; r_Action := r_Action r;
     r_Destinations := getValidGroupIDs gs (r_Destinations r);
     r_DestinationResource := r_DestinationResource r;
     r_Sources := getValidGroupIDs gs (r_Sources r); r_SourceResource := r_SourceResource r;
     r_Bidirectional := r_Bidirectional r; r_Protocol := r_Protocol r; r_Ports := r_Ports r;
     r_PortRanges := r_PortRanges r; r_AuthorizedGroups := r_AuthorizedGroups r;
     r_AuthorizedUser := r_AuthorizedUser r |}.

(** The policy to save and, for an update, the stored one. *)
Definition validatePolicy (xid accountID : string) (p : Policy) (s : Store)
    : outcome aerr (Policy * option Policy) :=
  '(i, a, existing) ←
    if bool_decide (pol_ID p = "") then Ret (xid, accountID, None)
    else
      e ← GetPolicyByID accountID (pol_ID p) s;
      _ ← guard_err (negb (forallb (λ r, bool_decide (r_ID r = "")
                                         || bool_decide (r_ID r ∈ r_ID <$> pol_Rules e)) (pol_Rules p))) EInvalid;
      Ret (pol_ID p, pol_AccountID p, Some e);
  let gs := GetGroupsByIDs accountID (RuleGroups p) s in
  let cs := GetPostureChecksByIDs accountID (pol_SourcePostureChecks p) s in
  Ret ({| pol_ID := i; pol_AccountID := a; pol_Name := pol_Name p; pol_Description := pol_Description p;
          pol_Enabled := pol_Enabled p; pol_Rules := fix_rule i gs <$> pol_Rules p;
          pol_SourcePostureChecks := getValidPostureCheckIDs cs (pol_SourcePostureChecks p) |}, existing).

Definition names_resource (p : Policy) : bool :=
  existsb (λ r, negb (bool_decide (res_Type (r_SourceResource r) = ResourceTypeNone))
                || negb (bool_decide (res_Type (r_DestinationResource r) = ResourceTypeNone))) (pol_Rules p).
Definition arePolicyChangesAffectPeers (p : Policy) (s : Store) : bool :=
  if names_resource p then true else anyGroupHasPeersOrResources (pol_AccountID p) (RuleGroups p) s.
Definition arePolicyChangesAffectPeersWithExisting (p existing : Policy) (s : Store) : bool :=
  if negb (pol_Enabled p) && negb (pol_Enabled existing) then false
  else if names_resource existing then true
  else if anyGroupHasPeersOrResources (pol_AccountID p) (RuleGroups existing) s then true
  else if names_resource p then true
  else anyGroupHasPeersOrResources (pol_AccountID p) (RuleGroups p) s.

(** The saved policy, and whether the peers are updated; an unchanged policy is not saved. *)
Definition SavePolicy (xid accountID userID : string) (policy : Policy) (create : bool)
    : Store → outcome aerr (Policy * bool) * Store :=
  authorized Permissions.Policies accountID userID (if create then Create else Update)
    (let! pe := tx_get (validatePolicy xid accountID policy) in
     let p := fst pe in
     match snd pe with
     | Some existing =>
         if Policy_Equal p existing then tx_ret (p, false)
         else
           let! update := tx_get (λ s, Ret (arePolicyChangesAffectPeersWithExisting p existing s)) in
           store_SavePolicy p ;; IncrementNetworkSerial accountID ;; tx_ret (p, update)
     | None =>
         let! update := tx_get (λ s, Ret (arePolicyChangesAffectPeers p s)) in
         store_CreatePolicy p ;; IncrementNetworkSerial accountID ;; tx_ret (p, update)
     end).

Definition DeletePolicy (accountID policyID userID : string) : Store → outcome aerr bool * Store :=
  authorized Permissions.Policies accountID userID Delete
    (let! p := tx_get (GetPolicyByID accountID policyID) in
     let! update := tx_get (λ s, Ret (arePolicyChangesAffectPeers p s)) in
     store_DeletePolicy accountID policyID ;; IncrementNetworkSerial accountID ;; tx_ret update).
End policies.

(** ** posture_checks.go *)
Section posture_checks.
Context {version : Type} (NewVersion : string → option version).

Definition with_pc_id (i : string) (c : Posture.Checks) : Posture.Checks :=
  {| pc_ID := i; pc_Name := pc_Name c; pc_Description := pc_Description c; pc_AccountID := pc_AccountID c;
     pc_Checks := pc_Checks c |}.
Definition with_pc_account (a : string) (c : Posture.Checks) : Posture.Checks :=
  {| pc_ID := pc_ID c; pc_Name := pc_Name c; pc_Description := pc_Description c; pc_AccountID := a;
     pc_Checks := pc_Checks c |}.

Definition validatePostureChecks (xid accountID : string) (c : Posture.Checks) (s : Store)
    : outcome aerr Posture.Checks :=
  _ ← guard_err (negb (Posture.Validate NewVersion c)) EInvalid;
  if bool_decide (pc_ID c = "") then
    if existsb (λ k, bool_decide (pc_Name k = pc_Name c) && negb (bool_decide (pc_ID k = pc_ID c)))
               (GetAccountPostureChecks accountID s)
    then Err EInvalid else Ret (with_pc_id xid c)
  else _ ← GetPostureChecksByID accountID (pc_ID c) s; Ret c.

Definition arePostureCheckChangesAffectPeers (accountID i : string) (s : Store) : bool :=
  existsb (λ p, bool_decide (i ∈ pol_SourcePostureChecks p)
                && anyGroupHasPeersOrResources accountID (RuleGroups p) s) (GetAccountPolicies accountID s).

Definition SavePostureChecks (xid accountID userID : string) (c : Posture.Checks) (create : bool)
    : Store → outcome aerr (Posture.Checks * bool) * Store :=
  let isUpdate := negb (bool_decide (pc_ID c = "")) in
  authorized Permissions.Policies accountID userID (if create then Create else Update)
    (let! c := tx_get (validatePostureChecks xid accountID c) in
     let! update := tx_get (λ s, Ret (isUpdate && arePostureCheckChangesAffectPeers accountID (pc_ID c) s)) in
     let c := with_pc_account accountID c in
     store_SavePostureChecks c ;;
     (if isUpdate then IncrementNetworkSerial accountID else tx_ret tt) ;;
     tx_ret (c, update)).

Definition isPostureCheckLinkedToPolicy (i accountID : string) (s : Store) : bool :=
  existsb (λ p, bool_decide (i ∈ pol_SourcePostureChecks p)) (GetAccountPolicies accountID s).

Definition DeletePostureChecks (accountID i userID : string) : Store → outcome aerr () * Store :=
  authorized Permissions.Policies accountID userID Delete
    (let! _ := tx_get (GetPostureChecksByID accountID i) in
     tx_get (λ s, guard_err (isPostureCheckLinkedToPolicy i accountID s) (ELinked "policy")) ;;
     store_DeletePostureChecks accountID i ;;
     IncrementNetworkSerial accountID).

Definition GetPolicy (accountID policyID userID : string) (s : Store) : outcome aerr Policy :=
  _ ← checked Permissions.Policies accountID userID Read s; GetPolicyByID accountID policyID s.
Definition ListPolicies (accountID userID : string) (s : Store) : outcome aerr (list Policy) :=
  _ ← checked Permissions.Policies accountID userID Read s; Ret (GetAccountPolicies accountID s).
Definition GetPostureChecks (accountID i userID : string) (s : Store) : outcome aerr Posture.Checks :=
  _ ← checked Permissions.Policies accountID userID Read s; GetPostureChecksByID accountID i s.
Definition ListPostureChecks (accountID userID : string) (s : Store) : outcome aerr (list Posture.Checks) :=
  _ ← checked Permissions.Policies accountID userID Read s; Ret (GetAccountPostureChecks accountID s).
End posture_checks.
