(* ===== verification/AccountRoutes.v ===== *)
(** Routes, name server groups, DNS settings and network routers of an account:
    [src/management/server/route.go], [nameserver.go], [dns.go] and
    [src/management/server/networks/routers/manager.go], with the methods of the store they
    call.

    As in [AccountGroups], an operation is a transaction on the tables and answers whether the
    account's peers get new network maps.  The Punycode encoder is a parameter.  Prefixes are
    compared by their text in the source, which identifies them. *)
From S2P Require Import Prelude HAConfig GoText NetIP AccessPolicy Posture AccountObjects Network Permissions.
From S2P Require Import SetupKeys Domains AccountStore AccountGroups AccountPolicies.
Open Scope Z_scope.
Open Scope tx_scope.

(** [utf8.RuneCountInString]: an invalid byte counts as one. *)
Fixpoint rune_count (fuel : nat) (s : bytes) : nat :=
  match fuel, s with
  | O, _ | _, [] => O
  | S fuel, _ => S (rune_count fuel (drop (default 1%nat (HAConfig.Sanitize.rune_len s)) s))
  end.
Definition RuneCountInString (s : string) : nat := rune_count (String.length s) (str s).

(** ** Methods of the store *)
Definition GetAccountRoutes (accountID : string) (s : Store) : list Route :=
  of_account rt_AccountID accountID (routes (config s)).
Definition GetRouteByID (accountID i : string) (s : Store) : outcome aerr Route :=
  by_id rt_AccountID accountID i (routes (config s)).
Definition store_SaveRoute (r : Route) : tx () :=
  put_config (λ k, put_routes (<[rt_ID r := r]> (routes k)) k).
Definition store_DeleteRoute (accountID i : string) : tx () :=
  let! _ := tx_get (GetRouteByID accountID i) in
  put_config (λ k, put_routes (delete i (routes k)) k).

Definition GetAccountNameServerGroups (accountID : string) (s : Store) : list NameServerGroup :=
  of_account ns_AccountID accountID (nameServerGroups (config s)).
Definition GetNameServerGroupByID (accountID i : string) (s : Store) : outcome aerr NameServerGroup :=
  by_id ns_AccountID accountID i (nameServerGroups (config s)).
Definition store_SaveNameServerGroup (n : NameServerGroup) : tx () :=
  put_config (λ k, put_nameServerGroups (<[ns_ID n := n]> (nameServerGroups k)) k).
Definition store_DeleteNameServerGroup (accountID i : string) : tx () :=
  let! _ := tx_get (GetNameServerGroupByID accountID i) in
  put_config (λ k, put_nameServerGroups (delete i (nameServerGroups k)) k).

Definition store_SaveDNSSettings (accountID : string) (d : DNSSettings) : tx () :=
  let! _ := tx_get (GetAccountDNSSettings accountID) in
  put_config (λ k, put_dnsSettings (<[accountID := d]> (dnsSettings k)) k).

Definition GetNetworkByID (accountID i : string) (s : Store) : outcome aerr NetworkObject :=
  by_id net_AccountID accountID i (netObjects (config s)).
Definition GetNetworkRouterByID (accountID i : string) (s : Store) : outcome aerr NetworkRouter :=
  by_id ro_AccountID accountID i (routers (config s)).
Definition SaveNetworkRouter (r : NetworkRouter) : tx () :=
  put_config (λ k, put_routers (<[ro_ID r := r]> (routers k)) k).
Definition DeleteNetworkRouter (accountID i : string) : tx () :=
  let! _ := tx_get (GetNetworkRouterByID accountID i) in
  put_config (λ k, put_routers (delete i (routers k)) k).

Definition GetPeerByID (accountID i : string) (s : Store) : outcome aerr Peer :=
  by_id p_AccountID accountID i (peers s).

(** ** Groups that must exist *)
Definition validateGroups (ids : list string) (gs : gmap string Group) : outcome aerr () :=
  _ ← guard_err (bool_decide (ids = [])) EInvalid;
  guard_err (negb (forallb (λ i, negb (bool_decide (i = "")) && bool_decide (is_Some (gs !! i))) ids)) EInvalid.

(** ** route.go *)
Fixpoint Join (sep : bytes) (l : list bytes) : bytes :=
  match l with [] => [] | [x] => x | x :: l => x ++ sep ++ Join sep l end.
Definition PunycodeString (ds : list bytes) : bytes := Join (str ", ") ds.

Definition getRoutesByPrefixOrDomains (accountID : string) (prefix : Prefix) (domains : list bytes) (s : Store)
    : list Route :=
  filter (λ r, (if IsDynamic r then bool_decide (PunycodeString (rt_Domains r) = PunycodeString domains)
                else bool_decide (rt_Network r = prefix)) = true) (GetAccountRoutes accountID s).

(** What the other routes of the prefix use: peers and peer groups. *)
Definition seen : Type := gset string * gset string.

Fixpoint see_groups (gs : gmap string Group) (s : Store) (ids : list string) (sn : seen) : outcome aerr seen :=
  match ids with
  | [] => Ret sn
  | i :: ids =>
      match gs !! i with
      | None => Err EInvalid
      | Some g => see_groups gs s ids (sn.1 ∪ list_to_set (peers_of (g_ID g) s), {[ i ]} ∪ sn.2)
      end
  end.

Definition see_route (accountID : string) (check : Route) (s : Store) (r : Route) (sn : seen) : outcome aerr seen :=
  if bool_decide (rt_ID check = rt_ID r) then Ret sn
  else
    let sn := if bool_decide (rt_Peer r = "") then sn else ({[ rt_ID r ]} ∪ sn.1, sn.2) in
    see_groups (GetGroupsByIDs accountID (rt_PeerGroups r) s) s (rt_PeerGroups r) sn.

Fixpoint see_routes (accountID : string) (check : Route) (s : Store) (rs : list Route) (sn : seen)
    : outcome aerr seen :=
  match rs with
  | [] => Ret sn
  | r :: rs => sn ← see_route accountID check s r sn; see_routes accountID check s rs sn
  end.

Definition check_group_peers (accountID : string) (seenPeers : gset string) (s : Store) (ps : list string)
    : outcome aerr () :=
  match list_find (λ p, p ∈ seenPeers) ps with
  | None => Ret tt
  | Some (_, p) => match GetPeerByID accountID p s with Ret _ => Err EExists | _ => Err EInvalid end
  end.

Fixpoint check_groups (accountID : string) (gs : gmap string Group) (sn : seen) (s : Store) (ids : list string)
    : outcome aerr () :=
  match ids with
  | [] => Ret tt
  | i :: ids =>
      match gs !! i with
      | None => Panic                       (* group.Name of a nil group *)
      | Some g =>
          if bool_decide (i ∈ sn.2) then Err EExists
          else _ ← check_group_peers accountID sn.1 s (peers_of (g_ID g) s); check_groups accountID gs sn s ids
      end
  end.

Definition checkRoutePrefixOrDomainsExistForPeers (accountID : string) (check : Route)
    (groupsMap : gmap string Group) (s : Store) : outcome aerr () :=
  sn ← see_routes accountID check s
         (getRoutesByPrefixOrDomains accountID (rt_Network check) (rt_Domains check) s) (∅, ∅);
  _ ← if bool_decide (rt_Peer check = "") then Ret tt
      else match GetPeerByID accountID (rt_Peer check) s with
           | Ret _ => guard_err (bool_decide (rt_Peer check ∈ sn.1)) EExists
           | _ => Err EInvalid
           end;
  check_groups accountID groupsMap sn s (rt_PeerGroups check).

Definition getPlaceholderIP : Prefix := Some {| px_v6 := false; px_addr := 3221225984; px_bits := 32 |}.

Definition validateRouteGroups (accountID : string) (r : Route) (s : Store) : outcome aerr (gmap string Group) :=
  let gs := GetGroupsByIDs accountID (rt_Groups r ++ rt_PeerGroups r ++ rt_AccessControlGroups r) s in
  _ ← if bool_decide (rt_PeerGroups r = []) then Ret tt else validateGroups (rt_PeerGroups r) gs;
  _ ← if bool_decide (rt_AccessControlGroups r = []) then Ret tt else validateGroups (rt_AccessControlGroups r) gs;
  _ ← validateGroups (rt_Groups r) gs;
  Ret gs.

Definition with_route (i a : string) (network : Prefix) (r : Route) : Route :=
  {| rt_ID := i; rt_AccountID := a; rt_Network := network; rt_Domains := rt_Domains r;
     rt_KeepRoute := rt_KeepRoute r; rt_NetID := rt_NetID r; rt_Description := rt_Description r;
     rt_Peer := rt_Peer r; rt_PeerID := rt_PeerID r; rt_PeerGroups := rt_PeerGroups r; rt_NetworkType := rt_NetworkType r;
     rt_Masquerade := rt_Masquerade r; rt_Metric := rt_Metric r; rt_Enabled := rt_Enabled r;
     rt_Groups := rt_Groups r; rt_AccessControlGroups := rt_AccessControlGroups r;
     rt_SkipAutoApply := rt_SkipAutoApply r |}.

(** The route to save: one with domains gets a placeholder network. *)
Definition validateRoute (accountID : string) (r : Route) (s : Store) : outcome aerr Route :=
  _ ← guard_err (bool_decide (rt_Metric r < MinMetric) || bool_decide (MaxMetric < rt_Metric r)) EInvalid;
  _ ← guard_err (bool_decide (MaxNetIDChar < RuneCountInString (rt_NetID r))%nat || bool_decide (rt_NetID r = "")) EInvalid;
  _ ← guard_err (negb (bool_decide (rt_Domains r = [])) && NetIP.IsValid (rt_Network r)) EInvalid;
  _ ← guard_err (bool_decide (rt_Domains r = []) && negb (NetIP.IsValid (rt_Network r))) EInvalid;
  let r := if bool_decide (rt_Domains r = []) then r
           else with_route (rt_ID r) (rt_AccountID r) getPlaceholderIP r in
  _ ← guard_err (negb (bool_decide (rt_Peer r = "")) && negb (bool_decide (rt_PeerGroups r = []))) EInvalid;
  gs ← validateRouteGroups accountID r s;
  _ ← checkRoutePrefixOrDomainsExistForPeers accountID r gs s;
  Ret r.

Definition areRouteChangesAffectPeers (r : Route) (s : Store) : bool :=
  if negb (bool_decide (rt_Peer r = "")) then true
  else if anyGroupHasPeersOrResources (rt_AccountID r) (rt_Groups r) s then true
  else anyGroupHasPeersOrResources (rt_AccountID r) (rt_PeerGroups r) s.

Definition CreateRoute (xid accountID userID : string) (r : Route) (s : Store)
    : outcome aerr (Route * bool) * Store :=
  match checked Permissions.Routes accountID userID Create s with
  | Ret _ =>
      if negb (bool_decide (rt_Domains r = [])) && NetIP.IsValid (rt_Network r) then (Err EInvalid, s)
      else ExecuteInTransaction
             (let! r := tx_get (validateRoute accountID (with_route xid accountID (rt_Network r) r)) in
              let! update := tx_get (λ s, Ret (areRouteChangesAffectPeers r s)) in
              store_SaveRoute r ;; IncrementNetworkSerial accountID ;; tx_ret (r, update)) s
  | Err e => (Err e, s)
  | Panic => (Panic, s)
  end.

(** Whether the peers are updated is decided before the route's account is set. *)
Definition SaveRoute (accountID userID : string) (routeToSave : Route) : Store → outcome aerr bool * Store :=
  authorized Permissions.Routes accountID userID Update
    (let! r := tx_get (validateRoute accountID routeToSave) in
     let! old := tx_get (GetRouteByID accountID (rt_ID r)) in
     let! oldAffects := tx_get (λ s, Ret (areRouteChangesAffectPeers old s)) in
     let! newAffects := tx_get (λ s, Ret (areRouteChangesAffectPeers r s)) in
     store_SaveRoute (with_route (rt_ID r) accountID (rt_Network r) r) ;;
     IncrementNetworkSerial accountID ;; tx_ret (oldAffects || newAffects)).

Definition DeleteRoute (accountID i userID : string) : Store → outcome aerr bool * Store :=
  authorized Permissions.Routes accountID userID Delete
    (let! r := tx_get (GetRouteByID accountID i) in
     let! update := tx_get (λ s, Ret (areRouteChangesAffectPeers r s)) in
     store_DeleteRoute accountID i ;; IncrementNetworkSerial accountID ;; tx_ret update).

Definition GetRoute (accountID i userID : string) (s : Store) : outcome aerr Route :=
  _ ← checked Permissions.Routes accountID userID Read s; GetRouteByID accountID i s.
Definition ListRoutes (accountID userID : string) (s : Store) : outcome aerr (list Route) :=
  _ ← checked Permissions.Routes accountID userID Read s; Ret (GetAccountRoutes accountID s).

(** ** nameserver.go *)
Section nameservers.
Context (ToASCII : bytes → option bytes).

Definition TrimSuffixDot (d : bytes) : bytes :=
  match rev d with b :: r => if decide (b = dot) then rev r else d | [] => [] end.
Definition validateDomain (d : bytes) : bool :=
  if bool_decide (take 2 d = str "*.") then false
  else bool_decide (is_Some (ValidateDomains ToASCII [TrimSuffixDot d])).

Definition validateDomainInput (primary : bool) (domains : list bytes) (searchDomainsEnabled : bool) : bool :=
  let none := bool_decide (domains = []) in
  negb (negb primary && none) && negb (primary && negb none) && negb (primary && searchDomainsEnabled)
  && forallb validateDomain domains.

Definition validateNSGroupName (name i : string) (ns : list NameServerGroup) : bool :=
  negb (bool_decide (MaxGroupNameChar < RuneCountInString name)%nat) && negb (bool_decide (name = ""))
  && forallb (λ n, negb (bool_decide (name = ns_Name n) && negb (bool_decide (ns_ID n = i)))) ns.

Definition validateNSList (l : list NameServer) : bool :=
  bool_decide (1 ≤ length l ≤ 3)%nat.

Definition validateNameServerGroup (accountID : string) (n : NameServerGroup) (s : Store) : outcome aerr () :=
  _ ← guard_err (negb (validateDomainInput (ns_Primary n) (ns_Domains n) (ns_SearchDomainsEnabled n))) EInvalid;
  _ ← guard_err (negb (validateNSList (ns_NameServers n))) EInvalid;
  _ ← guard_err (negb (validateNSGroupName (ns_Name n) (ns_ID n) (GetAccountNameServerGroups accountID s))) EInvalid;
  validateGroups (ns_Groups n) (GetGroupsByIDs accountID (ns_Groups n) s).

Definition with_ns (i a : string) (n : NameServerGroup) : NameServerGroup :=
  {| ns_ID := i; ns_AccountID := a; ns_Name := ns_Name n; ns_Description := ns_Description n;
     ns_NameServers := ns_NameServers n; ns_Groups := ns_Groups n; ns_Primary := ns_Primary n;
     ns_Domains := ns_Domains n; ns_Enabled := ns_Enabled n;
     ns_SearchDomainsEnabled := ns_SearchDomainsEnabled n |}.

Definition CreateNameServerGroup (xid accountID userID : string) (n : NameServerGroup)
    : Store → outcome aerr (NameServerGroup * bool) * Store :=
  let n := with_ns xid accountID n in
  authorized Permissions.Nameservers accountID userID Create
    (tx_get (validateNameServerGroup accountID n) ;;
     let! update := tx_get (λ s, Ret (anyGroupHasPeersOrResources accountID (ns_Groups n) s)) in
     store_SaveNameServerGroup n ;; IncrementNetworkSerial accountID ;; tx_ret (n, update)).

Definition areNameServerGroupChangesAffectPeers (new old : NameServerGroup) (s : Store) : bool :=
  if negb (ns_Enabled new) && negb (ns_Enabled old) then false
  else if anyGroupHasPeersOrResources (ns_AccountID new) (ns_Groups new) s then true
  else anyGroupHasPeersOrResources (ns_AccountID old) (ns_Groups old) s.

Definition SaveNameServerGroup (accountID userID : string) (n : NameServerGroup)
    : Store → outcome aerr bool * Store :=
  authorized Permissions.Nameservers accountID userID Update
    (let! old := tx_get (GetNameServerGroupByID accountID (ns_ID n)) in
     let n := with_ns (ns_ID n) accountID n in
     tx_get (validateNameServerGroup accountID n) ;;
     let! update := tx_get (λ s, Ret (areNameServerGroupChangesAffectPeers n old s)) in
     store_SaveNameServerGroup n ;; IncrementNetworkSerial accountID ;; tx_ret update).

Definition DeleteNameServerGroup (accountID i userID : string) : Store → outcome aerr bool * Store :=
  authorized Permissions.Nameservers accountID userID Delete
    (let! n := tx_get (GetNameServerGroupByID accountID i) in
     let! update := tx_get (λ s, Ret (anyGroupHasPeersOrResources accountID (ns_Groups n) s)) in
     store_DeleteNameServerGroup accountID i ;; IncrementNetworkSerial accountID ;; tx_ret update).
End nameservers.

(** ** dns.go *)
Definition validateDNSSettings (accountID : string) (d : DNSSettings) (s : Store) : outcome aerr () :=
  if bool_decide (DisabledManagementGroups d = []) then Ret tt
  else validateGroups (DisabledManagementGroups d) (GetGroupsByIDs accountID (DisabledManagementGroups d) s).

Definition areDNSSettingChangesAffectPeers (accountID : string) (added removed : list string) (s : Store) : bool :=
  if anyGroupHasPeersOrResources accountID added s then true
  else anyGroupHasPeersOrResources accountID removed s.

Definition SaveDNSSettings (accountID userID : string) (d : DNSSettings) : Store → outcome aerr bool * Store :=
  authorized Permissions.Dns accountID userID Update
    (tx_get (validateDNSSettings accountID d) ;;
     let! old := tx_get (GetAccountDNSSettings accountID) in
     let added := Difference (DisabledManagementGroups d) (DisabledManagementGroups old) in
     let removed := Difference (DisabledManagementGroups old) (DisabledManagementGroups d) in
     let! update := tx_get (λ s, Ret (areDNSSettingChangesAffectPeers accountID added removed s)) in
     store_SaveDNSSettings accountID d ;; IncrementNetworkSerial accountID ;; tx_ret update).

(** ** networks/routers/manager.go: the account's peers are always updated. *)
Definition with_router_id (i : string) (r : NetworkRouter) : NetworkRouter :=
  {| ro_ID := i; ro_NetworkID := ro_NetworkID r; ro_AccountID := ro_AccountID r; ro_Peer := ro_Peer r;
     ro_PeerGroups := ro_PeerGroups r; ro_Masquerade := ro_Masquerade r; ro_Metric := ro_Metric r;
     ro_Enabled := ro_Enabled r |}.

Definition save_router (operation userID : string) (r : NetworkRouter) : Store → outcome aerr NetworkRouter * Store :=
  authorized Permissions.Networks (ro_AccountID r) userID operation
    (let! n := tx_get (GetNetworkByID (ro_AccountID r) (ro_NetworkID r)) in
     tx_guard (negb (bool_decide (net_ID n = ro_NetworkID r))) ENotFound ;;
     SaveNetworkRouter r ;; IncrementNetworkSerial (ro_AccountID r) ;; tx_ret r).
Definition CreateRouter (xid userID : string) (r : NetworkRouter) := save_router Create userID (with_router_id xid r).
Definition UpdateRouter (userID : string) (r : NetworkRouter) := save_router Update userID r.

Definition DeleteRouterInTransaction (accountID networkID routerID : string) : tx () :=
  let! _ := tx_get (GetNetworkByID accountID networkID) in
  let! r := tx_get (GetNetworkRouterByID accountID routerID) in
  tx_guard (negb (bool_decide (ro_NetworkID r = networkID))) ENotFound ;;
  DeleteNetworkRouter accountID routerID.
Definition DeleteRouter (accountID userID networkID routerID : string) : Store → outcome aerr () * Store :=
  authorized Permissions.Networks accountID userID Delete
    (DeleteRouterInTransaction accountID networkID routerID ;; IncrementNetworkSerial accountID).

(** ** A check that is missing *)
(** Updating a router checks the network, not the router: with the identifier of another
    account's router, a user who may edit a network of his own account takes the router over, and
    the other account no longer has it. *)
Theorem update_router_takes_over user r old n s
    (Hold : routers (config s) !! ro_ID r = Some old) (Hne : ro_AccountID old ≠ ro_AccountID r)
    (Hperm : checked Permissions.Networks (ro_AccountID r) user Update s = Ret tt)
    (Hnet : GetNetworkByID (ro_AccountID r) (ro_NetworkID r) s = Ret n) (Hid : net_ID n = ro_NetworkID r) :
  GetNetworkRouterByID (ro_AccountID old) (ro_ID r) s = Ret old
  ∧ ∃ s', UpdateRouter user r s = (Ret r, s')
    ∧ GetNetworkRouterByID (ro_AccountID r) (ro_ID r) s' = Ret r
    ∧ GetNetworkRouterByID (ro_AccountID old) (ro_ID r) s' = Err ENotFound.
Proof.
  split; [unfold GetNetworkRouterByID, by_id; rewrite Hold; by rewrite bool_decide_eq_true_2|].
  unfold UpdateRouter, save_router, authorized. rewrite Hperm. unfold ExecuteInTransaction, tx_bind, tx_get.
  rewrite Hnet. cbn. unfold tx_guard. rewrite bool_decide_eq_true_2 by done. cbn.
  eexists. split; [reflexivity|]. unfold GetNetworkRouterByID, by_id. cbn. rewrite lookup_insert_eq.
  split; [by rewrite bool_decide_eq_true_2|by rewrite bool_decide_eq_false_2].
Qed.
