(* ===== verification/AccountUsers.v ===== *)
(** Creating users: [createServiceUser], [CreateUser], [inviteNewUser] and [validateUserInvite] of
    [src/management/server/user.go], with [NewUser] and [ToUserInfo] of
    [src/management/server/types/user.go] and [SaveUser] of
    [src/management/server/store/sql_store.go].

    The row of a user has the columns the permission checks, registration and group deletion
    read; the other columns (name, e-mail, issuer, non-deletable, creation time) are not kept.  The identity
    provider and the cache of its users are parameters ([IdpManager]), and so is the creator of
    an account, which the tables of [AccountStore] do not hold. *)
From S2P Require Import Prelude GoText AccountObjects Permissions AccountStore AccountGroups.

(** ** Data *)
Definition UserStatusActive : string := "active".
Definition UserStatusInvited : string := "invited".
Definition UserIssuedAPI : string := "api".

(** What a client sends and gets back. *)
Record UserInfo := {
  ui_ID : string; ui_Email : string; ui_Name : string; ui_Role : string; ui_AutoGroups : list string;
  ui_Status : string; ui_IsServiceUser : bool; ui_IsBlocked : bool; ui_NonDeletable : bool;
  ui_Issued : string; ui_PendingApproval : bool; ui_Password : string }.

(** A user of the identity provider; [ud_PendingInvite] is [AppMetadata.WTPendingInvite], which may be nil. *)
Record UserData := {
  ud_ID : string; ud_Email : string; ud_Name : string; ud_PendingInvite : option bool; ud_Password : string }.

(** [idp_create accountID inviterID invite] is [createEmbeddedIdpUser] or [createNewIdpUser], which
    create the user at the provider; [idp_refresh] is the error of [refreshCache]. *)
Record IdpManager := {
  idp_embedded : bool;
  idp_create : string → string → UserInfo → outcome aerr UserData;
  idp_refresh : string → option aerr }.

Definition NewUser (id role : string) (isServiceUser : bool) (autoGroups : list string) : User :=
  {| u_Id := id; u_AccountID := ""; u_Role := role; IsServiceUser := isServiceUser; u_AutoGroups := autoGroups;
     Blocked := false; PendingApproval := false |}.
Definition with_user_account (accountID : string) (u : User) : User :=
  {| u_Id := u_Id u; u_AccountID := accountID; u_Role := u_Role u; IsServiceUser := IsServiceUser u;
     u_AutoGroups := u_AutoGroups u; Blocked := Blocked u; PendingApproval := PendingApproval u |}.

(** Inserts or overwrites by the primary key. *)
Definition SaveUser (u : User) : tx () := tx_put (λ s, set_users (<[u_Id u := u]> (users s)) s).

(** [ToUserInfo] for the data of the identity provider. *)
Definition ToUserInfo (u : User) (issued : string) (d : UserData) : outcome aerr UserInfo :=
  if negb (bool_decide (ud_ID d = u_Id u)) then Err EInternal
  else Ret {| ui_ID := u_Id u; ui_Email := ud_Email d; ui_Name := ud_Name d; ui_Role := u_Role u;
              ui_AutoGroups := u_AutoGroups u;
              ui_Status := if bool_decide (ud_PendingInvite d = Some true) then UserStatusInvited else UserStatusActive;
              ui_IsServiceUser := IsServiceUser u; ui_IsBlocked := Blocked u; ui_NonDeletable := false;
              ui_Issued := issued; ui_PendingApproval := PendingApproval u; ui_Password := ud_Password d |}.

(** ** Operations *)
Definition createServiceUser (uuid accountID initiatorUserID role serviceUserName : string) (autoGroups : list string)
    : Store → outcome aerr UserInfo * Store :=
  authorized Permissions.Users accountID initiatorUserID Create
    (tx_guard (bool_decide (role = UserRoleOwner)) EInvalid ;;
     let newUser := with_user_account accountID (NewUser uuid role true autoGroups) in
     SaveUser newUser ;;
     tx_ret {| ui_ID := u_Id newUser; ui_Email := ""; ui_Name := serviceUserName; ui_Role := u_Role newUser;
               ui_AutoGroups := u_AutoGroups newUser; ui_Status := UserStatusActive; ui_IsServiceUser := true;
               ui_IsBlocked := false; ui_NonDeletable := false; ui_Issued := UserIssuedAPI;
               ui_PendingApproval := false; ui_Password := "" |}).

Definition validateUserInvite (invite : option UserInfo) : outcome aerr () :=
  match invite with
  | None => Err EInternal
  | Some i =>
      if bool_decide (ui_Name i = "") then Err EInvalid
      else if bool_decide (ui_Email i = "") then Err EInvalid
      else if bool_decide (StrRoleToUserRole (ui_Role i) = UserRoleOwner) then Err EInvalid
      else Ret tt
  end.

Section invite.
Context (idpManager : option IdpManager) (GetAccountCreatedBy : string → outcome aerr string).

(** Up to the creation at the identity provider nothing is stored. *)
Definition invite_idp_user (accountID userID : string) (invite : UserInfo) (s : Store)
    : outcome aerr (IdpManager * UserData) :=
  match idpManager with
  | None => Err EPrecondition
  | Some m =>
      _ ← validateUserInvite (Some invite);
      _ ← checked Permissions.Users accountID userID Create s;
      initiatorUser ← match users s !! userID with Some u => Ret u | None => Err EUserNotFound end;
      inviterID ← if IsServiceUser initiatorUser then GetAccountCreatedBy accountID else Ret userID;
      idpUser ← idp_create m accountID inviterID invite;
      Ret (m, idpUser)
  end.

(** The error of the cache is returned after the user is stored. *)
Definition inviteNewUser (accountID userID : string) (invite : UserInfo) (s : Store) : outcome aerr UserInfo * Store :=
  match invite_idp_user accountID userID invite s with
  | Err e => (Err e, s)
  | Panic => (Panic, s)
  | Ret (m, idpUser) =>
      let newUser := with_user_account accountID
        (NewUser (ud_ID idpUser) (StrRoleToUserRole (ui_Role invite)) false (ui_AutoGroups invite)) in
      match ExecuteInTransaction (SaveUser newUser) s with
      | (Ret _, s') =>
          match if idp_embedded m then None else idp_refresh m accountID with
          | Some e => (Err e, s')
          | None => (ToUserInfo newUser (ui_Issued invite) idpUser, s')
          end
      | (Err e, s') => (Err e, s')
      | (Panic, s') => (Panic, s')
      end
  end.

Definition CreateUser (uuid accountID userID : string) (user : UserInfo) : Store → outcome aerr UserInfo * Store :=
  if ui_IsServiceUser user
  then createServiceUser uuid accountID userID (StrRoleToUserRole (ui_Role user)) (ui_Name user) (ui_AutoGroups user)
  else inviteNewUser accountID userID user.

(** ** What creation does to the store *)
(** Either nothing, or one user of the account is stored, under the identifier that was drawn or
    that the provider gave, with the requested groups as they are. *)
Lemma CreateUser_stores uuid accountID userID user s res s' :
  CreateUser uuid accountID userID user s = (res, s') →
  s' = s ∨ ∃ u, s' = set_users (<[u_Id u := u]> (users s)) s ∧ u_AccountID u = accountID
    ∧ u_AutoGroups u = ui_AutoGroups user
    ∧ (u_Id u = uuid ∨ ∃ m i d, idpManager = Some m ∧ idp_create m accountID i user = Ret d ∧ u_Id u = ud_ID d).
Proof.
  unfold CreateUser. destruct (ui_IsServiceUser user).
  - intros H%authorized_inv. destruct res as [r| |]; [|by left..]. unfold SaveUser in H. tx_inv. right.
    eexists. split; [reflexivity|]. cbn. by split_and!; [..|left].
  - unfold inviteNewUser. destruct (invite_idp_user accountID userID user s) as [[m d]| |] eqn:Hi;
      [|intros [= _ <-]; by left..].
    cbn. intros H. right. eexists (with_user_account accountID
      (NewUser (ud_ID d) (StrRoleToUserRole (ui_Role user)) false (ui_AutoGroups user))).
    split; [destruct (if idp_embedded m then _ else _); by injection H as _ <-|]. split_and!; [done..|]. right.
    unfold invite_idp_user in Hi. destruct idpManager as [m'|] eqn:Hm; [|done].
    do 3 (apply bind_Ret_inv in Hi as (? & _ & Hi)). apply bind_Ret_inv in Hi as (i & _ & Hi).
    apply bind_Ret_inv in Hi as (d' & Hd & [= -> ->]). by exists m, i, d.
Qed.
End invite.
