(* ===== verification/AccountIntegrity.v ===== *)
(** What the operations on an account's configuration may change.

    [change a s s'] is an abstract specification of one operation by a user of account [a]: it
    stores or removes rows of [a] only, a stored row refers to groups and posture checks that
    exist, and what is removed is not referred to.  Every operation of [AccountStore],
    [AccountGroups], [AccountPolicies] and [AccountRoutes] that the HTTP API offers implements
    it, with two exceptions that the specification names: users are stored with whatever groups
    the request has, and a router update may take over another account's router.  The theorems
    are proved on the specification.  Transactions run one after the other.  The integrated
    validator's settings do not change here. *)
From S2P Require Import Prelude GoText NetIP AccessPolicy Posture AccountObjects MapComponents Network.
From S2P Require Import Permissions SetupKeys Domains AccountStore AccountGroups AccountPolicies AccountRoutes AccountUsers.

(** ** References *)
Definition has_group (s : Store) (a g : string) : Prop :=
  ∃ row, groups s !! g = Some row ∧ g_AccountID row = a.

Definition route_groups (r : Route) : list string := rt_Groups r ++ rt_PeerGroups r ++ rt_AccessControlGroups r.

(** An object of account [a] refers to the group; the groups of users are apart, see [user_refers]. *)
Inductive refers (s : Store) : string → string → Prop :=
| ref_key i k g : setupKeys s !! i = Some k → g ∈ AutoGroups k → refers s (sk_AccountID k) g
| ref_policy i p g : policies (config s) !! i = Some p → g ∈ RuleGroups p → refers s (pol_AccountID p) g
| ref_route i r g : routes (config s) !! i = Some r → g ∈ route_groups r → refers s (rt_AccountID r) g
| ref_ns i n g : nameServerGroups (config s) !! i = Some n → g ∈ ns_Groups n → refers s (ns_AccountID n) g
| ref_dns a d g : dnsSettings (config s) !! a = Some d → g ∈ DisabledManagementGroups d → refers s a g.

Definition user_refers (s : Store) (a g : string) : Prop :=
  ∃ i u, users s !! i = Some u ∧ u_AccountID u = a ∧ g ∈ u_AutoGroups u.

Definition has_checks (s : Store) (a c : string) : Prop :=
  ∃ row, postureChecks (config s) !! c = Some row ∧ pc_AccountID row = a.
Definition refers_checks (s : Store) (a c : string) : Prop :=
  ∃ i p, policies (config s) !! i = Some p ∧ pol_AccountID p = a ∧ c ∈ pol_SourcePostureChecks p.

Record integrity (s : Store) : Prop := {
  int_groups : ∀ a g, refers s a g → has_group s a g;
  int_checks : ∀ a c, refers_checks s a c → has_checks s a c }.

(** Rows are stored under their identifiers. *)
Record ids_ok (s : Store) : Prop := {
  ids_groups : ∀ i g, groups s !! i = Some g → g_ID g = i;
  ids_keys : ∀ i k, setupKeys s !! i = Some k → sk_Id k = i }.

(** ** The abstract change *)
Definition puts {A} (acc key : A → string) (a : string) (x : A) (m m' : gmap string A) : Prop :=
  acc x = a ∧ m' = <[key x := x]> m ∧ ∀ y, m !! key x = Some y → acc y = a.
Definition drops {A} (acc : A → string) (a i : string) (m m' : gmap string A) : Prop :=
  m' = delete i m ∧ ∀ y, m !! i = Some y → acc y = a.

Definition group_set (a : string) (s : Store) (gs : list string) : Prop := ∀ g, g ∈ gs → has_group s a g.

Inductive change (a : string) (s s' : Store) : Prop :=
| ch_none : groups s' = groups s → setupKeys s' = setupKeys s → config s' = config s → change a s s'
| ch_group g : puts g_AccountID g_ID a g (groups s) (groups s') →
    setupKeys s' = setupKeys s → config s' = config s → change a s s'
| ch_groups_deleted (ids : list string) : groups s' = groups s ∖ filter (λ p, p.1 ∈ ids ∧ g_AccountID p.2 = a) (groups s) →
    (∀ i, i ∈ ids → ¬ refers s a i ∧ ¬ user_refers s a i) →
    setupKeys s' = setupKeys s → config s' = config s → change a s s'
| ch_key k : puts sk_AccountID sk_Id a k (setupKeys s) (setupKeys s') → group_set a s (AutoGroups k) →
    groups s' = groups s → config s' = config s → change a s s'
| ch_key_deleted i : drops sk_AccountID a i (setupKeys s) (setupKeys s') →
    groups s' = groups s → config s' = config s → change a s s'
| ch_policy p m : puts pol_AccountID pol_ID a p (policies (config s)) m → group_set a s (RuleGroups p) →
    (∀ c, c ∈ pol_SourcePostureChecks p → has_checks s a c) →
    groups s' = groups s → setupKeys s' = setupKeys s → config s' = put_policies m (config s) → change a s s'
| ch_policy_deleted i m : drops pol_AccountID a i (policies (config s)) m →
    groups s' = groups s → setupKeys s' = setupKeys s → config s' = put_policies m (config s) → change a s s'
| ch_checks c m : puts pc_AccountID pc_ID a c (postureChecks (config s)) m →
    groups s' = groups s → setupKeys s' = setupKeys s → config s' = put_postureChecks m (config s) → change a s s'
| ch_checks_deleted i m : drops pc_AccountID a i (postureChecks (config s)) m → ¬ refers_checks s a i →
    groups s' = groups s → setupKeys s' = setupKeys s → config s' = put_postureChecks m (config s) → change a s s'
| ch_route r m : puts rt_AccountID rt_ID a r (routes (config s)) m → group_set a s (route_groups r) →
    groups s' = groups s → setupKeys s' = setupKeys s → config s' = put_routes m (config s) → change a s s'
| ch_route_deleted i m : drops rt_AccountID a i (routes (config s)) m →
    groups s' = groups s → setupKeys s' = setupKeys s → config s' = put_routes m (config s) → change a s s'
| ch_ns n m : puts ns_AccountID ns_ID a n (nameServerGroups (config s)) m → group_set a s (ns_Groups n) →
    groups s' = groups s → setupKeys s' = setupKeys s → config s' = put_nameServerGroups m (config s) → change a s s'
| ch_ns_deleted i m : drops ns_AccountID a i (nameServerGroups (config s)) m →
    groups s' = groups s → setupKeys s' = setupKeys s → config s' = put_nameServerGroups m (config s) → change a s s'
| ch_dns d : group_set a s (DisabledManagementGroups d) →
    groups s' = groups s → setupKeys s' = setupKeys s →
    config s' = put_dnsSettings (<[a := d]> (dnsSettings (config s))) (config s) → change a s s'
| ch_router r m : puts ro_AccountID ro_ID a r (routers (config s)) m →
    groups s' = groups s → setupKeys s' = setupKeys s → config s' = put_routers m (config s) → change a s s'
| ch_router_deleted i m : drops ro_AccountID a i (routers (config s)) m →
    groups s' = groups s → setupKeys s' = setupKeys s → config s' = put_routers m (config s) → change a s s'
| ch_router_taken r old : routers (config s) !! ro_ID r = Some old → ro_AccountID old ≠ a → ro_AccountID r = a →
    groups s' = groups s → setupKeys s' = setupKeys s →
    config s' = put_routers (<[ro_ID r := r]> (routers (config s))) (config s) → change a s s'.

(** Rows of other accounts are the same. *)
Definition foreign_same {A} (acc : A → string) (a : string) (m m' : gmap string A) : Prop :=
  ∀ i y, acc y ≠ a → m !! i = Some y ↔ m' !! i = Some y.

(** A change and what it leaves alone. *)
Record frame (a : string) (s s' : Store) : Prop := {
  fr_users : foreign_same u_AccountID a (users s) (users s');
  fr_peers : peers s' = peers s;
  fr_members : ∀ g p row, groups s !! g = Some row → g_AccountID row ≠ a →
    (g, p) ∈ groupPeers s' ↔ (g, p) ∈ groupPeers s;
  fr_networks : ∀ b, b ≠ a → networks s' !! b = networks s !! b }.

(** ** The specification keeps the references *)
Lemma puts_lookup {A} (acc key : A → string) a x (m m' : gmap string A) i y :
  puts acc key a x m m' → m' !! i = Some y → y = x ∧ acc y = a ∨ m !! i = Some y.
Proof.
  intros (Ha & -> & _) [[<- <-]|[_ Hy]]%lookup_insert_Some; [by left|by right].
Qed.
Lemma drops_lookup {A} (acc : A → string) a i (m m' : gmap string A) j y :
  drops acc a i m m' → m' !! j = Some y → m !! j = Some y ∧ j ≠ i.
Proof. intros (-> & _) [Hne Hy]%lookup_delete_Some. done. Qed.

(** The references of the new row exist, and the others existed. *)
Lemma change_refers a s s' b g : change a s s' → refers s' b g →
  refers s b g ∨ b = a ∧ has_group s a g.
Proof.
  intros Hc Hr.
  destruct Hr as [i k g Hk Hg|i p g Hk Hg|i r g Hk Hg|i n g Hk Hg|b d g Hk Hg];
    destruct Hc as [E1 E2 E3|x Hp E2 E3|ids Hd Hun E2 E3|x Hp Hgs E1 E3|j Hp E1 E3|x m Hp Hgs Hcs E1 E2 E3|j m Hp E1 E2 E3
      |x m Hp E1 E2 E3|j m Hp Hun E1 E2 E3|x m Hp Hgs E1 E2 E3|j m Hp E1 E2 E3|x m Hp Hgs E1 E2 E3|j m Hp E1 E2 E3
      |x Hgs E1 E2 E3|x m Hp E1 E2 E3|j m Hp E1 E2 E3|x old Hold Hne Ha E1 E2 E3];
    rewrite ?E2, ?E3 in Hk; cbn in Hk;
    try (left; by econstructor);
    try (destruct (puts_lookup _ _ _ _ _ _ _ _ Hp Hk) as [[-> Ha]|Hk']; [right; split; [done|by apply Hgs]|left; by econstructor]);
    try (destruct (drops_lookup _ _ _ _ _ _ _ Hp Hk) as [Hk' _]; left; by econstructor).
  apply lookup_insert_Some in Hk as [[<- <-]|[_ Hk]]; [right; split; [done|by apply Hgs]|left; by econstructor].
Qed.

(** Destructs a change into its seventeen kinds, with the equations of the tables. *)
Ltac change_cases H :=
  destruct H as [E1 E2 E3|x Hp E2 E3|ids Hd Hun E2 E3|x Hp Hgs E1 E3|j Hp E1 E3|x m Hp Hgs Hcs E1 E2 E3
    |j m Hp E1 E2 E3|x m Hp E1 E2 E3|j m Hp Hun E1 E2 E3|x m Hp Hgs E1 E2 E3|j m Hp E1 E2 E3|x m Hp Hgs E1 E2 E3
    |j m Hp E1 E2 E3|x Hgs E1 E2 E3|x m Hp E1 E2 E3|j m Hp E1 E2 E3|x old Hold Hne Ha E1 E2 E3].

Lemma puts_keeps {A} (acc key : A → string) a x (m m' : gmap string A) b i :
  puts acc key a x m m' → (∃ y, m !! i = Some y ∧ acc y = b) → ∃ y, m' !! i = Some y ∧ acc y = b.
Proof.
  intros (Ha & -> & Hold) (y & Hy & Hb). destruct (decide (key x = i)) as [<-|Hne].
  - exists x. rewrite lookup_insert_eq. split; [done|]. by rewrite Ha, <- Hb, (Hold y Hy).
  - exists y. by rewrite lookup_insert_ne.
Qed.

(** A change keeps the groups, except that it may delete groups nobody refers to. *)
Lemma change_has_group a s s' b g : change a s s' → has_group s b g →
  has_group s' b g ∨ (¬ refers s b g ∧ ¬ user_refers s b g) ∧ setupKeys s' = setupKeys s ∧ config s' = config s.
Proof.
  intros Hc Hg. change_cases Hc; try (left; unfold has_group; by rewrite E1).
  - left. by eapply puts_keeps.
  - destruct Hg as (row & Hrow & <-).
    destruct (decide (g ∈ ids ∧ g_AccountID row = a)) as [[Hin Ha]|Hno].
    + right. split; [|done]. rewrite Ha. by apply Hun.
    + left. exists row. split; [|done]. rewrite Hd, lookup_difference_Some. split; [done|].
      apply map_lookup_filter_None. right. intros r Hr. simplify_eq. done.
Qed.

Lemma same_refers s s' b g : setupKeys s' = setupKeys s → config s' = config s →
  refers s' b g → refers s b g.
Proof.
  intros E1 E2 Hr. destruct Hr as [i k g Hk|i p g Hk|i r g Hk|i n g Hk|b d g Hk];
    rewrite ?E1, ?E2 in Hk; by econstructor.
Qed.

Lemma change_checks a s s' b c : change a s s' → refers_checks s' b c →
  (refers_checks s b c ∨ b = a ∧ has_checks s a c) ∧ (has_checks s b c → has_checks s' b c).
Proof.
  intros Hc (i & p & Hi & <- & Hin). unfold has_checks, refers_checks.
  change_cases Hc; rewrite E3 in Hi |- *; cbn in *; try (split; [left|done]; by eauto).
  - split; [|done]. destruct (puts_lookup _ _ _ _ _ _ _ _ Hp Hi) as [[-> <-]|Hi']; [right|left; by eauto].
    split; [done|]. by apply Hcs.
  - split; [|done]. left. apply (drops_lookup _ _ _ _ _ _ _ Hp) in Hi as [Hi _]. eauto.
  - split; [left; by eauto|]. by eapply puts_keeps.
  - split; [left; by eauto|]. intros (row & Hrow & Ha). exists row. split; [|done].
    destruct Hp as [-> Hp]. apply lookup_delete_Some. split; [|done]. intros ->.
    apply Hun. exists i, p. by rewrite <- Ha, (Hp row Hrow).
Qed.

Lemma change_integrity a s s' : change a s s' → integrity s → integrity s'.
Proof.
  intros Hc [Hg Hk]. split.
  - intros b g Hr. pose proof (change_refers _ _ _ _ _ Hc Hr) as Hold.
    assert (has_group s b g) as Hin by (destruct Hold as [Hold|[-> Hold]]; auto).
    destruct (change_has_group _ _ _ _ _ Hc Hin) as [?|([Hno _] & E2 & E3)]; [done|].
    destruct Hno. by eapply same_refers.
  - intros b c Hr. destruct (change_checks _ _ _ _ _ Hc Hr) as [[Hold|[-> Hold]] Hkeep]; auto.
Qed.

Lemma change_ids a s s' : change a s s' → ids_ok s → ids_ok s'.
Proof.
  intros Hc [Hg Hk]. split; intros i y Hy; change_cases Hc; rewrite ?E1, ?E2 in Hy; eauto.
  - destruct Hp as (_ & Hp & _). rewrite Hp in Hy.
    apply lookup_insert_Some in Hy as [[<- <-]|[_ Hy]]; eauto.
  - rewrite Hd in Hy. apply lookup_difference_Some in Hy as [Hy _]. eauto.
  - destruct Hp as (_ & Hp & _). rewrite Hp in Hy.
    apply lookup_insert_Some in Hy as [[<- <-]|[_ Hy]]; eauto.
  - apply (drops_lookup _ _ _ _ _ _ _ Hp) in Hy as [Hy _]. eauto.
Qed.

(** ** Other accounts *)
Record isolated (a : string) (s s' : Store) : Prop := {
  iso_groups : foreign_same g_AccountID a (groups s) (groups s');
  iso_keys : foreign_same sk_AccountID a (setupKeys s) (setupKeys s');
  iso_policies : foreign_same pol_AccountID a (policies (config s)) (policies (config s'));
  iso_checks : foreign_same pc_AccountID a (postureChecks (config s)) (postureChecks (config s'));
  iso_routes : foreign_same rt_AccountID a (routes (config s)) (routes (config s'));
  iso_ns : foreign_same ns_AccountID a (nameServerGroups (config s)) (nameServerGroups (config s'));
  iso_dns : ∀ b, b ≠ a → dnsSettings (config s') !! b = dnsSettings (config s) !! b;
  iso_rest : frame a s s' }.

(** A call for account [a] has stored a router of [a] under the identifier of another account's
    router; the other routers are the same. *)
Definition router_taken (a : string) (s s' : Store) : Prop :=
  ∃ r old, routers (config s) !! ro_ID r = Some old ∧ ro_AccountID old ≠ a ∧ ro_AccountID r = a
    ∧ routers (config s') = <[ro_ID r := r]> (routers (config s)).

Lemma foreign_refl {A} (acc : A → string) a m : foreign_same acc a m m.
Proof. done. Qed.
Lemma foreign_puts {A} (acc key : A → string) a x (m m' : gmap string A) :
  puts acc key a x m m' → foreign_same acc a m m'.
Proof.
  intros (Ha & -> & Hold) i y Hy. destruct (decide (key x = i)) as [<-|Hne]; [|by rewrite lookup_insert_ne].
  rewrite lookup_insert_eq. split; [by intros ?%Hold|]. by intros [= <-].
Qed.
Lemma foreign_drops {A} (acc : A → string) a i (m m' : gmap string A) : drops acc a i m m' → foreign_same acc a m m'.
Proof.
  intros (-> & Hold) j y Hy. rewrite lookup_delete_Some. split; [|tauto]. intros Hj. split; [|done].
  intros ->. by apply Hy, Hold.
Qed.
#[local] Hint Resolve foreign_refl foreign_puts foreign_drops : core.

Lemma change_isolated a s s' : change a s s' → frame a s s' → isolated a s s'.
Proof.
  intros Hc Hf. change_cases Hc; (split; [..|done]); rewrite ?E1, ?E2, ?E3; cbn; eauto.
  - intros i y Hy. rewrite Hd, lookup_difference_Some, map_lookup_filter_None. naive_solver.
  - intros b Hb. by rewrite lookup_insert_ne.
Qed.
Lemma change_routers a s s' : change a s s' →
  foreign_same ro_AccountID a (routers (config s)) (routers (config s')) ∨ router_taken a s s'.
Proof.
  intros Hc. change_cases Hc; rewrite ?E3; try (left; cbn; eauto; done). right. exists x, old. by rewrite E3.
Qed.
(** A group that a user names is kept. *)
Lemma change_user_group a s s' b g : change a s s' → has_group s b g → user_refers s b g → has_group s' b g.
Proof. intros Hc Hg Hu. by destruct (change_has_group _ _ _ _ _ Hc Hg) as [?|[[_ []] _]]. Qed.

(** ** The operations implement the specification *)
Definition does (a : string) (s s' : Store) : Prop := change a s s' ∧ frame a s s'.

Lemma does_refl a s : does a s s.
Proof. split; [by apply ch_none|by split]. Qed.

Lemma authorized_does {A} module a user o (op : tx A) s res s' :
  authorized module a user o op s = (res, s') → (∀ r, op s = Ret (r, s') → does a s s') → does a s s'.
Proof.
  intros H%authorized_inv Hop. destruct res as [r| |]; [by apply (Hop r)|subst; apply does_refl..].
Qed.

(** The serial of the account is all that changes besides the table. *)
Ltac frame_tac :=
  split; [done|reflexivity|intros; reflexivity|intros ? ?; cbn; by rewrite ?lookup_alter_ne].

Lemma groups_by_ids a ids s i : is_Some (GetGroupsByIDs a ids s !! i) → has_group s a i.
Proof. intros [g (Hg & Ha & _)%map_lookup_filter_Some]. by exists g. Qed.

Lemma validateGroups_inv a ids ids' s u : validateGroups ids (GetGroupsByIDs a ids' s) = Ret u → group_set a s ids.
Proof.
  unfold validateGroups. intros (? & _ & Hv%guard_err_inv)%bind_Ret_inv g Hg.
  apply negb_false_iff in Hv. pose proof (proj1 (forallb_elem _ _) Hv g Hg) as Hi.
  apply andb_true_iff in Hi as [_ Hi%bool_decide_eq_true]. by eapply groups_by_ids.
Qed.

Lemma by_id_inv {A} (acc : A → string) a i (m : gmap string A) x : by_id acc a i m = Ret x → m !! i = Some x ∧ acc x = a.
Proof.
  unfold by_id. destruct (m !! i) as [y|]; [|done]. case_bool_decide; [|done]. by intros [= <-].
Qed.

Lemma puts_fresh {A} (acc key : A → string) a x (m : gmap string A) :
  acc x = a → m !! key x = None → puts acc key a x m (<[key x := x]> m).
Proof. intros Ha Hn. split_and!; [done..|]. intros y Hy. congruence. Qed.
Lemma puts_known {A} (acc key : A → string) a x y (m : gmap string A) :
  acc x = a → m !! key x = Some y → acc y = a → puts acc key a x m (<[key x := x]> m).
Proof. intros Ha Hn Hy. split_and!; [done..|]. intros z Hz. congruence. Qed.
Lemma drops_known {A} (acc : A → string) a i y (m : gmap string A) :
  m !! i = Some y → acc y = a → drops acc a i m (delete i m).
Proof. intros Hy Ha. split; [done|]. intros z Hz. congruence. Qed.

(** A change that stores the row that the new state shows. *)
Ltac stored kind :=
  match goal with
  | |- change ?a ?s (set_networks _ (set_config (_ (<[_ := ?x]> _) _) _)) => eapply (kind a s _ x)
  end.

(** *** Setup keys *)
Lemma auto_groups_inv a ids s u s' : validateSetupKeyAutoGroups a ids s = Ret (u, s') → s' = s ∧ group_set a s ids.
Proof.
  unfold validateSetupKeyAutoGroups. destruct (forallb _ _) eqn:Hf; [|done]. intros [= _ <-]. split; [done|].
  intros g Hg. pose proof (proj1 (forallb_elem _ _) Hf g Hg) as Hi. cbv beta in Hi.
  destruct (_ !! g) eqn:Hl; [|done]. eapply groups_by_ids. by rewrite Hl.
Qed.

Lemma key_by_id_inv a i s k : GetSetupKeyByID a i s = Ret k → setupKeys s !! i = Some k ∧ sk_AccountID k = a.
Proof.
  unfold GetSetupKeyByID. destruct (setupKeys s !! i); [|done]. case_bool_decide; [|done]. by intros [= <-].
Qed.

Lemma CreateSetupKey_does uuid xid now a name type exp gs limit user eph extra s res s' :
  setupKeys s !! xid = None →
  CreateSetupKey uuid xid now a name type exp gs limit user eph extra s = (res, s') → does a s s'.
Proof.
  intros Hf H. eapply authorized_does; [exact H|]. clear H. intros r H.
  apply tx_bind_inv in H as (? & s1 & [-> Hgs]%auto_groups_inv & H).
  destruct (GenerateSetupKey _ _ _ _ _ _ _ _ _ _) as [[k plain]| |] eqn:Hk; [|done|done].
  unfold GenerateSetupKey in Hk. apply bind_Ret_inv in Hk as (hidden & _ & [= <- <-]).
  unfold store_SaveSetupKey in H. tx_inv. split; [|frame_tac].
  eapply ch_key; [by apply puts_fresh|exact Hgs|done|done].
Qed.

Lemma SaveSetupKey_does now a key user s res s' : ids_ok s →
  SaveSetupKey now a key user s = (res, s') → does a s s'.
Proof.
  intros Hids H. eapply authorized_does; [exact H|]. clear H. intros r H.
  apply tx_bind_inv in H as (? & s1 & [-> Hgs]%auto_groups_inv & H).
  unfold store_SaveSetupKey in H. tx_inv.
  match goal with Hk : GetSetupKeyByID _ _ _ = Ret ?k |- _ => apply key_by_id_inv in Hk as [Hk <-];
    pose proof (ids_keys _ Hids _ _ Hk) as Hi; rewrite <- Hi in Hk end.
  split; [|frame_tac]. eapply ch_key; [by eapply puts_known|exact Hgs|done|done].
Qed.

Lemma DeleteSetupKey_does a user i s res s' : DeleteSetupKey a user i s = (res, s') → does a s s'.
Proof.
  intros H. eapply authorized_does; [exact H|]. clear H. intros r H. unfold store_DeleteSetupKey in H. tx_inv.
  match goal with Hk : GetSetupKeyByID _ _ _ = Ret _ |- _ => apply key_by_id_inv in Hk as [Hk Ha] end.
  split; [|frame_tac]. eapply ch_key_deleted; [|done|done]. by eapply drops_known.
Qed.

(** *** Policies and posture checks *)
Section policies.
Context (save_rules : list PolicyRule → list PolicyRule → list PolicyRule).
(** Saving rules stores none but the saved ones and those that were there. *)
Context (save_rules_from : ∀ old new r, r ∈ save_rules old new → r ∈ old ∨ r ∈ new).

Lemma RuleGroups_elem p g : g ∈ RuleGroups p ↔ ∃ r, r ∈ pol_Rules p ∧ g ∈ r_Sources r ++ r_Destinations r.
Proof.
  unfold RuleGroups. rewrite list_elem_of_join. setoid_rewrite list_elem_of_fmap. naive_solver.
Qed.

Lemma valid_ids_elem {A} (m : gmap string A) (ids : list string) i : i ∈ filter (λ i, is_Some (m !! i)) ids → is_Some (m !! i).
Proof. by intros [? _]%list_elem_of_filter. Qed.

Lemma fix_rule_groups a i ids s r g :
  g ∈ r_Sources (fix_rule i (GetGroupsByIDs a ids s) r) ++ r_Destinations (fix_rule i (GetGroupsByIDs a ids s) r) →
  has_group s a g.
Proof.
  cbn. rewrite elem_of_app. intros [Hg|Hg]; eapply groups_by_ids, valid_ids_elem; exact Hg.
Qed.

(** Saved over rules [old] of the account, a policy refers to groups of the account only. *)
Lemma saved_rules_groups a i ids s old rs p :
  (∀ r g, r ∈ old → g ∈ r_Sources r ++ r_Destinations r → has_group s a g) →
  group_set a s (RuleGroups (with_rules (save_rules old (fix_rule i (GetGroupsByIDs a ids s) <$> rs)) p)).
Proof.
  intros Hold g (r & Hr & Hg)%RuleGroups_elem. cbn in Hr.
  apply save_rules_from in Hr as [Hr|Hr]; [by eapply Hold|].
  apply list_elem_of_fmap in Hr as (r' & -> & _). by eapply fix_rule_groups.
Qed.

Lemma valid_checks a ids s c : c ∈ getValidPostureCheckIDs (GetPostureChecksByIDs a ids s) ids → has_checks s a c.
Proof.
  intros Hc. apply valid_ids_elem in Hc as [k (Hk & Ha & _)%map_lookup_filter_Some]. by exists k.
Qed.

Lemma stored_policy_groups s i p r g : integrity s → policies (config s) !! i = Some p → r ∈ pol_Rules p →
  g ∈ r_Sources r ++ r_Destinations r → has_group s (pol_AccountID p) g.
Proof. intros Hint Hp Hr Hg. apply Hint. eapply ref_policy; [exact Hp|]. apply RuleGroups_elem. eauto. Qed.

Lemma create_policy_inv p s u s' : policies (config s) !! pol_ID p = None →
  store_CreatePolicy save_rules p s = Ret (u, s') →
  s' = set_config (put_policies (<[pol_ID p := with_rules (save_rules [] (pol_Rules p)) p]> (policies (config s)))
                     (config s)) s.
Proof. unfold store_CreatePolicy. intros ->. by intros [= _ <-]. Qed.

(** The handler sets the policy's account to the user's. *)
Lemma SavePolicy_does xid a user p create s res s' : integrity s → policies (config s) !! xid = None →
  pol_AccountID p = a → SavePolicy save_rules xid a user p create s = (res, s') → does a s s'.
Proof.
  intros Hint Hf Ha H. eapply authorized_does; [exact H|]. clear H. intros r H.
  apply tx_bind_inv in H as ([p' e] & s1 & [Hv ->]%tx_get_inv & H). cbv beta zeta in H. cbn [fst snd] in H.
  unfold validatePolicy in Hv. apply bind_Ret_inv in Hv as ([[i acc] ex] & Hw & Hv). injection Hv as <- <-.
  destruct ex as [old|].
  - destruct (bool_decide (pol_ID p = "")); [done|].
    apply bind_Ret_inv in Hw as (e & [Hold Hacc]%by_id_inv & Hw).
    apply bind_Ret_inv in Hw as (? & _ & [= <- <- <-]).
    destruct (Policy_Equal _ _); [tx_inv; apply does_refl|]. unfold store_SavePolicy, put_config in H. tx_inv.
    split; [|frame_tac]. cbn. rewrite Hold. cbn.
    match goal with |- context [<[_ := ?x]> (policies _)] => eapply (ch_policy _ _ _ x) end;
      [by eapply puts_known; [exact Ha|exact Hold|]|..|done|done|done].
    + apply saved_rules_groups. intros r0 g Hr Hg. rewrite <- Hacc. by eapply stored_policy_groups.
    + intros c. apply valid_checks.
  - assert (i = xid ∧ acc = a) as [-> ->].
    { destruct (bool_decide (pol_ID p = "")); [by injection Hw as <- <-|].
      apply bind_Ret_inv in Hw as (? & _ & Hw). by apply bind_Ret_inv in Hw as (? & _ & ?). }
    tx_inv. match goal with Hs : store_CreatePolicy _ _ _ = Ret _ |- _ => apply create_policy_inv in Hs as ->; [|exact Hf] end.
    split; [|frame_tac].
    match goal with |- context [<[_ := ?x]> (policies _)] => eapply (ch_policy _ _ _ x) end;
      [by apply puts_fresh|..|done|done|done].
    + apply saved_rules_groups. intros ? ? []%not_elem_of_nil.
    + intros c. apply valid_checks.
Qed.

Lemma DeletePolicy_does a i user s res s' : DeletePolicy a i user s = (res, s') → does a s s'.
Proof.
  intros H. eapply authorized_does; [exact H|]. clear H. intros r H. unfold store_DeletePolicy, put_config in H. tx_inv.
  match goal with Hk : GetPolicyByID _ _ _ = Ret _ |- _ => apply by_id_inv in Hk as [Hk Ha] end.
  split; [|frame_tac]. eapply ch_policy_deleted; [|done|done|done]. by eapply drops_known.
Qed.
End policies.

Lemma SavePostureChecks_does {version} (NewVersion : string → option version) xid a user c create s res s' :
  postureChecks (config s) !! xid = None →
  SavePostureChecks NewVersion xid a user c create s = (res, s') → does a s s'.
Proof.
  intros Hf H. eapply authorized_does; [exact H|]. clear H. intros r H.
  apply tx_bind_inv in H as (c' & s1 & [Hv ->]%tx_get_inv & H). cbv beta zeta in H.
  assert (Hput : puts pc_AccountID pc_ID a (with_pc_account a c') (postureChecks (config s))
                   (<[pc_ID (with_pc_account a c') := with_pc_account a c']> (postureChecks (config s)))).
  { unfold validatePostureChecks in Hv. apply bind_Ret_inv in Hv as (? & _ & Hv).
    destruct (bool_decide (pc_ID c = "")).
    - destruct (existsb _ _); [done|]. injection Hv as <-. by apply puts_fresh.
    - apply bind_Ret_inv in Hv as (old & [Hold Ha]%by_id_inv & [= <-]). by eapply puts_known. }
  unfold store_SavePostureChecks, put_config in H. destruct (negb _) in H; tx_inv;
    (split; [eapply ch_checks; [exact Hput|done|done|done]|frame_tac]).
Qed.

Lemma linked_checks a i s : isPostureCheckLinkedToPolicy i a s = false → ¬ refers_checks s a i.
Proof.
  intros Hl (j & p & Hp & Ha & Hin). apply not_true_iff_false in Hl. apply Hl, existsb_elem.
  exists p. rewrite bool_decide_eq_true. split; [|done]. apply list_elem_of_filter. split; [done|].
  apply list_elem_of_fmap. exists (j, p). by rewrite elem_of_map_to_list.
Qed.

Lemma DeletePostureChecks_does a i user s res s' : DeletePostureChecks a i user s = (res, s') → does a s s'.
Proof.
  intros H. eapply authorized_does; [exact H|]. clear H. intros r H.
  unfold store_DeletePostureChecks, put_config in H. tx_inv.
  match goal with Hk : GetPostureChecksByID _ _ _ = Ret _ |- _ => apply by_id_inv in Hk as [Hk Ha] end.
  split; [|frame_tac]. eapply ch_checks_deleted; [by eapply drops_known|by apply linked_checks|done..].
Qed.

(** *** Routes *)
Lemma optional_groups_inv a ids ids' s u :
  (if bool_decide (ids = []) then Ret tt else validateGroups ids (GetGroupsByIDs a ids' s)) = Ret u → group_set a s ids.
Proof.
  case_bool_decide as He; [|apply validateGroups_inv]. intros _ g Hg. rewrite He in Hg. by apply not_elem_of_nil in Hg.
Qed.

Lemma validateRouteGroups_inv a r s gs : validateRouteGroups a r s = Ret gs → group_set a s (route_groups r).
Proof.
  unfold validateRouteGroups. intros (? & Hp & H)%bind_Ret_inv. apply bind_Ret_inv in H as (? & Hc & H).
  apply bind_Ret_inv in H as (? & Hg & _). apply validateGroups_inv in Hg.
  apply optional_groups_inv in Hp. apply optional_groups_inv in Hc.
  intros g. unfold route_groups. rewrite !elem_of_app. intros [H|[H|H]]; auto.
Qed.

Lemma validateRoute_inv a r s r' : validateRoute a r s = Ret r' →
  group_set a s (route_groups r') ∧ rt_ID r' = rt_ID r ∧ rt_AccountID r' = rt_AccountID r
  ∧ rt_Groups r' = rt_Groups r ∧ rt_PeerGroups r' = rt_PeerGroups r ∧ rt_Peer r' = rt_Peer r.
Proof.
  unfold validateRoute. do 4 (intros H; apply bind_Ret_inv in H as (? & _ & H); revert H). cbv zeta.
  intros (? & _ & H)%bind_Ret_inv. apply bind_Ret_inv in H as (gs & Hg%validateRouteGroups_inv & H).
  apply bind_Ret_inv in H as (? & _ & [= <-]). split; [exact Hg|]. by case_bool_decide.
Qed.

Lemma CreateRoute_does xid a user r s res s' : routes (config s) !! xid = None →
  CreateRoute xid a user r s = (res, s') → does a s s'.
Proof.
  intros Hf. unfold CreateRoute. destruct (checked _ _ _ _ _); [|intros [= _ <-]; apply does_refl..].
  destruct (_ && _); [intros [= _ <-]; apply does_refl|].
  intros H%execute_inv. destruct res; [|subst; apply does_refl..].
  unfold store_SaveRoute, put_config in H. tx_inv.
  match goal with Hv : validateRoute _ _ _ = Ret _ |- _ => apply validateRoute_inv in Hv as (Hg & Hi & Ha & _) end.
  split; [|frame_tac]. stored ch_route; [|exact Hg|done..].
  apply puts_fresh; [done|]. by rewrite Hi.
Qed.

Lemma SaveRoute_does a user r s res s' : SaveRoute a user r s = (res, s') → does a s s'.
Proof.
  intros H. eapply authorized_does; [exact H|]. clear H. intros x H. unfold store_SaveRoute, put_config in H. tx_inv.
  match goal with Hv : validateRoute _ _ _ = Ret _, Hk : GetRouteByID _ _ _ = Ret _ |- _ =>
    apply validateRoute_inv in Hv as (Hg & _); apply by_id_inv in Hk as [Hk Ha] end.
  split; [|frame_tac]. stored ch_route; [by eapply puts_known|exact Hg|done..].
Qed.

Lemma DeleteRoute_does a i user s res s' : DeleteRoute a i user s = (res, s') → does a s s'.
Proof.
  intros H. eapply authorized_does; [exact H|]. clear H. intros x H. unfold store_DeleteRoute, put_config in H. tx_inv.
  match goal with Hk : GetRouteByID _ _ _ = Ret _ |- _ => apply by_id_inv in Hk as [Hk Ha] end.
  split; [|frame_tac]. eapply ch_route_deleted; [by eapply drops_known|done..].
Qed.

(** *** Name servers and DNS settings *)
Lemma validateNS_inv ToASCII a n s u : validateNameServerGroup ToASCII a n s = Ret u → group_set a s (ns_Groups n).
Proof.
  unfold validateNameServerGroup. do 3 (intros H; apply bind_Ret_inv in H as (? & _ & H); revert H).
  apply validateGroups_inv.
Qed.

Lemma CreateNameServerGroup_does ToASCII xid a user n s res s' : nameServerGroups (config s) !! xid = None →
  CreateNameServerGroup ToASCII xid a user n s = (res, s') → does a s s'.
Proof.
  intros Hf H. eapply authorized_does; [exact H|]. clear H. intros x H.
  unfold store_SaveNameServerGroup, put_config in H. tx_inv.
  match goal with Hv : validateNameServerGroup _ _ _ _ = Ret _ |- _ => apply validateNS_inv in Hv as Hg end.
  split; [|frame_tac]. stored ch_ns; [by apply puts_fresh|exact Hg|done..].
Qed.

Lemma SaveNameServerGroup_does ToASCII a user n s res s' :
  SaveNameServerGroup ToASCII a user n s = (res, s') → does a s s'.
Proof.
  intros H. eapply authorized_does; [exact H|]. clear H. intros x H.
  unfold store_SaveNameServerGroup, put_config in H. tx_inv.
  match goal with Hv : validateNameServerGroup _ _ _ _ = Ret _, Hk : GetNameServerGroupByID _ _ _ = Ret _ |- _ =>
    apply validateNS_inv in Hv as Hg; apply by_id_inv in Hk as [Hk Ha] end.
  split; [|frame_tac]. stored ch_ns; [by eapply puts_known|exact Hg|done..].
Qed.

Lemma DeleteNameServerGroup_does a i user s res s' : DeleteNameServerGroup a i user s = (res, s') → does a s s'.
Proof.
  intros H. eapply authorized_does; [exact H|]. clear H. intros x H.
  unfold store_DeleteNameServerGroup, put_config in H. tx_inv.
  match goal with Hk : GetNameServerGroupByID _ _ _ = Ret _ |- _ => apply by_id_inv in Hk as [Hk Ha] end.
  split; [|frame_tac]. eapply ch_ns_deleted; [by eapply drops_known|done..].
Qed.

Lemma SaveDNSSettings_does a user d s res s' : SaveDNSSettings a user d s = (res, s') → does a s s'.
Proof.
  intros H. eapply authorized_does; [exact H|]. clear H. intros x H.
  unfold store_SaveDNSSettings, put_config in H. tx_inv.
  split; [|frame_tac]. eapply ch_dns; [|done..].
  match goal with Hv : validateDNSSettings _ _ _ = Ret _ |- _ => by eapply optional_groups_inv end.
Qed.

(** *** Routers *)
Lemma save_router_does o user r s res s' :
  save_router o user r s = (res, s') → does (ro_AccountID r) s s'.
Proof.
  intros H. eapply authorized_does; [exact H|]. clear H. intros x H. unfold SaveNetworkRouter, put_config in H. tx_inv.
  split; [|frame_tac]. destruct (routers (config s) !! ro_ID r) as [old|] eqn:Hold.
  - destruct (decide (ro_AccountID old = ro_AccountID r)); [|by eapply ch_router_taken].
    eapply (ch_router _ _ _ r); [by eapply puts_known|done..].
  - eapply (ch_router _ _ _ r); [by apply puts_fresh|done..].
Qed.

Lemma DeleteRouter_does a user n i s res s' : DeleteRouter a user n i s = (res, s') → does a s s'.
Proof.
  intros H. eapply authorized_does; [exact H|]. clear H. intros x H.
  unfold DeleteRouterInTransaction, DeleteNetworkRouter, put_config in H. tx_inv.
  match goal with Hk : GetNetworkRouterByID _ _ _ = Ret _ |- _ => apply by_id_inv in Hk as [Hk Ha] end.
  split; [|frame_tac]. eapply ch_router_deleted; [by eapply drops_known|done..].
Qed.

(** *** Groups *)
Definition members_only (i : string) (op : tx ()) : Prop := ∀ s u s', op s = Ret (u, s') →
  ∃ G, s' = set_groupPeers G s ∧ ∀ g p, g ≠ i → (g, p) ∈ G ↔ (g, p) ∈ groupPeers s.

Lemma members_ret i : members_only i (tx_ret tt).
Proof. intros s u s' [= _ <-]. exists (groupPeers s). split; [by destruct s|done]. Qed.
Lemma members_bind i op k : members_only i op → members_only i k → members_only i (tx_bind op (λ _, k)).
Proof.
  intros H1 H2 s u s' (? & s1 & (G1 & -> & HG1)%H1 & (G2 & -> & HG2)%H2)%tx_bind_inv.
  exists G2. split; [done|]. intros g p Hg. rewrite HG2 by done. by apply HG1.
Qed.
Lemma members_add i ps : members_only i (add_all i ps).
Proof.
  induction ps as [|p ps IH]; [apply members_ret|]. apply members_bind; [|exact IH].
  intros s u s' [= _ <-]. eexists. split; [done|]. set_solver.
Qed.
Lemma members_remove i ps : members_only i (remove_all i ps).
Proof.
  induction ps as [|p ps IH]; [apply members_ret|]. apply members_bind; [|exact IH].
  intros s u s' [= _ <-]. eexists. split; [done|]. set_solver.
Qed.

Lemma GetGroupByID_inv a i s g : GetGroupByID a i s = Ret g →
  ∃ row, groups s !! i = Some row ∧ g_AccountID row = a ∧ g = LoadGroupPeers s row.
Proof. intros (row & [Hr Ha]%by_id_inv & [= <-])%bind_Ret_inv. by exists row. Qed.

Lemma CreateGroup_does xid a user g s res s' : CreateGroup xid a user g s = (res, s') → does a s s'.
Proof.
  intros H. eapply authorized_does; [exact H|]. clear H. intros x H. tx_inv.
  match goal with Hc : store_CreateGroup ?g0 _ = Ret _, Hm : add_all _ _ _ = Ret _ |- _ =>
    rename Hc into Hcreate; apply members_add in Hm as (G & -> & HG); set (new := g0) in * end.
  unfold store_CreateGroup in Hcreate. destruct (groups s !! g_ID new) eqn:Hnone; [done|]. injection Hcreate as _ <-.
  split.
  - apply (ch_group _ _ _ (with_Peers [] new)); [|done|done].
    exact (puts_fresh g_AccountID g_ID a (with_Peers [] new) (groups s) eq_refl Hnone).
  - split; [done|done| |intros ? ?; cbn; by rewrite ?lookup_alter_ne].
    intros i p row Hrow _. cbn. apply HG. intros ->. congruence.
Qed.

Lemma UpdateGroup_does xid a user g s res s' : UpdateGroup xid a user g s = (res, s') → does a s s'.
Proof.
  intros H. eapply authorized_does; [exact H|]. clear H. intros x H. unfold store_UpdateGroup in H. tx_inv.
  match goal with Ho : GetGroupByID _ _ _ = Ret _, Hm : add_all _ _ _ = Ret _, Hr : remove_all _ _ _ = Ret _ |- _ =>
    apply GetGroupByID_inv in Ho as (row & Hrow & Hacc & ->);
    apply members_add in Hm as (G & -> & HG); apply members_remove in Hr as (G' & -> & HG') end.
  match type of Hrow with groups s !! g_ID ?g0 = _ => set (new := g0) in * end.
  split.
  - apply (ch_group _ _ _ (with_Peers [] new)); [|done|done].
    exact (puts_known g_AccountID g_ID a (with_Peers [] new) row (groups s) eq_refl Hrow Hacc).
  - split; [done|done| |intros ? ?; cbn; by rewrite ?lookup_alter_ne].
    intros i p r Hr Hne. cbn. rewrite HG' by (intros ->; congruence). cbn. apply HG. intros ->. congruence.
Qed.

Lemma of_account_elem {A} (acc : A → string) (m : gmap string A) i x : m !! i = Some x → x ∈ of_account acc (acc x) m.
Proof.
  intros Hx. apply list_elem_of_filter. split; [done|]. apply list_elem_of_fmap. exists (i, x).
  by rewrite elem_of_map_to_list.
Qed.

(** The link checks cover every kind of reference. *)
Lemma validateDeleteGroup_unused g user flow s u : validateDeleteGroup g user flow s = Ret u →
  ¬ refers s (g_AccountID g) (g_ID g) ∧ ¬ user_refers s (g_AccountID g) (g_ID g).
Proof.
  unfold validateDeleteGroup. cbv zeta. do 4 (intros H; apply bind_Ret_inv in H as (? & _ & H); revert H).
  intros (? & Hroute%guard_err_inv & H)%bind_Ret_inv. apply bind_Ret_inv in H as (? & Hns%guard_err_inv & H).
  apply bind_Ret_inv in H as (? & Hpol%guard_err_inv & H). apply bind_Ret_inv in H as (? & Hkey%guard_err_inv & H).
  apply bind_Ret_inv in H as (? & Huser%guard_err_inv & H). apply bind_Ret_inv in H as (? & _ & H).
  unfold checkGroupLinkedToSettings, GetAccountDNSSettings in H.
  remember (g_AccountID g) as a eqn:Ha. remember (g_ID g) as i eqn:Hi.
  split; [intros Hr; destruct Hr as [j k i Hk Hin|j k i Hk Hin|j k i Hk Hin|j k i Hk Hin|a d i Hk Hin]|intros (j & k & Hk & <- & Hin)].
  - apply not_true_iff_false in Hkey. apply Hkey, existsb_elem. exists k.
    split; [by eapply of_account_elem|by apply bool_decide_eq_true].
  - apply not_true_iff_false in Hpol. apply Hpol, existsb_elem. exists k. split; [by eapply of_account_elem|].
    apply RuleGroups_elem in Hin as (r & Hr & Hin). apply existsb_elem. exists r. split; [done|].
    apply orb_true_iff. rewrite !bool_decide_eq_true. by apply elem_of_app.
  - apply not_true_iff_false in Hroute. apply Hroute, existsb_elem. exists k. split; [by eapply of_account_elem|].
    rewrite !orb_true_iff, !bool_decide_eq_true. unfold route_groups in Hin. rewrite !elem_of_app in Hin. tauto.
  - apply not_true_iff_false in Hns. apply Hns, existsb_elem. exists k.
    split; [by eapply of_account_elem|by apply bool_decide_eq_true].
  - rewrite Hk in H. apply bind_Ret_inv in H as (? & Hd%guard_err_inv & _). by apply bool_decide_eq_false in Hd.
  - apply not_true_iff_false in Huser. apply Huser, existsb_elem. exists k.
    split; [by eapply of_account_elem|by apply bool_decide_eq_true].
Qed.

Lemma deletable_unused a user flow ids s i : ids_ok s →
  i ∈ (deletable a user flow ids s).1 → ¬ refers s a i ∧ ¬ user_refers s a i.
Proof.
  intros Hids. induction ids as [|j ids IH]; cbn; [by intros ?%not_elem_of_nil|].
  destruct (deletable a user flow ids s) as [del errs]. cbn in IH.
  destruct (GetGroupByID a j s) as [g| |] eqn:Hg; cbn; [|done|done].
  destruct (validateDeleteGroup g user flow s) as [u| |] eqn:Hv; cbn; [|done|done].
  intros [->|Hin]%elem_of_cons; [|by apply IH].
  apply GetGroupByID_inv in Hg as (row & Hrow & Ha & ->). apply validateDeleteGroup_unused in Hv.
  cbn in Hv. by rewrite Ha, (ids_groups _ Hids _ _ Hrow) in Hv.
Qed.

Lemma DeleteGroups_does a user flow ids s res s' : ids_ok s →
  DeleteGroups a user flow ids s = (res, s') → does a s s'.
Proof.
  intros Hids H. eapply authorized_does; [exact H|]. clear H. intros x H.
  pose proof (λ i, deletable_unused a user flow ids s i Hids) as Hun.
  cbv beta in H. destruct (deletable a user flow ids s) as [del errs]. cbn in Hun.
  case_bool_decide; [injection H as _ <-; apply does_refl|]. unfold store_DeleteGroups in H. tx_inv. split.
  - eapply ch_groups_deleted; [done|exact Hun|done|done].
  - split; [done|done| |intros ? ?; cbn; by rewrite ?lookup_alter_ne].
    intros g p row Hrow Hne. cbn. rewrite elem_of_filter. split; [tauto|]. intros Hin. split; [|done].
    apply map_lookup_filter_None. right. intros r Hr [_ Ha]. cbn in Ha, Hr. congruence.
Qed.

(** *** Users *)
(** The identifiers of the provider are new to the store. *)
Lemma CreateUser_does idp createdBy uuid a user info s res s' :
  users s !! uuid = None →
  (∀ m i d, idp = Some m → idp_create m a i info = Ret d → users s !! ud_ID d = None) →
  CreateUser idp createdBy uuid a user info s = (res, s') → does a s s'.
Proof.
  intros Hu Hi H%CreateUser_stores. destruct H as [->|(u & -> & Ha & _ & Hid)]; [apply does_refl|].
  assert (users s !! u_Id u = None) as Hnone by (destruct Hid as [->|(m & i & d & Hm & Hd & ->)]; eauto).
  split; [by apply ch_none|]. split; [|done..]. cbn. eapply foreign_puts, puts_fresh; done.
Qed.
