(* ===== verification/PeerRegistration.v ===== *)
(** Registration of a new peer: [AddPeer] of [src/management/server/peer.go] with the label
    functions of [src/dns/dns.go] and the check of extra labels of
    [src/shared/management/domain/validate.go], over the tables of [AccountStore].

    The random generator, the clock and the identifiers are arguments.  Parameters stand for
    code outside of the repository: the DNS library's [SplitDomainName], the Punycode encoder,
    the e-mail address the identity provider has for a user, and [PreparePeer] of the
    integrations.  Geolocation and the network map computed for the answer are left out. *)
From S2P Require Import Prelude GoText GoHash AccessPolicy Network Permissions SetupKeys Domains AccountStore.
Open Scope Z_scope.
Open Scope tx_scope.

(** ** dns/dns.go

    [ReplaceAllString] turns every maximal run of other characters into one dash. *)
Definition host_char (b : byte) : bool := is_alnum b || bool_decide (b = dash).
Fixpoint replace_invalid (in_run : bool) (s : bytes) : bytes :=
  match s with
  | [] => []
  | b :: s =>
      if host_char b then b :: replace_invalid false s
      else if in_run then replace_invalid true s else dash :: replace_invalid true s
  end.

Section registration.
Context (SplitDomainName : bytes → list bytes) (ToASCII : bytes → option bytes).

Definition GetParsedDomainLabel (name : bytes) : outcome aerr bytes :=
  match SplitDomainName name with
  | [] => Err EHostLabel
  | rawLabel :: _ =>
      match ToASCII rawLabel with
      | None => Err EHostLabel
      | Some ascii =>
          let validHost := lower (replace_invalid false ascii) in
          if bool_decide (58 < length validHost)%nat then slice 0 59 validHost else Ret validHost
      end
  end.

Definition getPeerIPDNSLabel (ip : IP) (peerHostName : bytes) : outcome aerr bytes :=
  let ip := To4 ip in
  dnsName ← GetParsedDomainLabel peerHostName;
  b2 ← index 2 ip;
  b3 ← index 3 ip;
  Ret (dnsName ++ [dash] ++ FormatInt (byte_Z b2) ++ [dash] ++ FormatInt (byte_Z b3)).

(** ** peer.go *)
Context (idp_email : string → option bytes).     (* GetUserDataByID, when an IdP is configured *)
Context (PreparePeer : Peer → list string → Peer).

(** What the client asks for. *)
Record request := {
  r_AccountID : string; r_SetupKey : bytes; r_UserID : string; r_Temporary : bool;
  r_Key : string; r_Hostname : bytes; r_Ephemeral : bool; r_Embedded : bool;
  r_ExtraDNSLabels : list bytes }.

Record peerAddAuthConfig := {
  c_AccountID : string; SetupKeyID : string; SetupKeyName : string; GroupsToAdd : list string;
  c_AllowExtraDNSLabels : bool; c_Ephemeral : bool }.

Definition addedByUser (r : request) : bool := negb (bool_decide (r_UserID r = "")).
Definition addedBySetupKey (r : request) : bool := negb (bool_decide (r_SetupKey r = [])).
Definition encodedHashedKey (r : request) : bytes := encoded_hash (ToUpper (r_SetupKey r)).

Definition handleUserAddedPeer (r : request) (s : Store) : outcome aerr peerAddAuthConfig :=
  match users s !! r_UserID r with
  | None => Err EUserNotFound
  | Some user =>
      if PendingApproval user then Err EPendingApproval
      else if r_Temporary r then
        match ValidateUserPermissions (GetUserByUserID s) (r_AccountID r) (r_UserID r) Peers Create with
        | Ret true =>
            Ret {| c_AccountID := r_AccountID r; SetupKeyID := ""; SetupKeyName := ""; GroupsToAdd := [];
                   c_AllowExtraDNSLabels := false; c_Ephemeral := r_Ephemeral r |}
        | Ret false => Err EDenied
        | Err e => Err (EPermission e)
        | Panic => Panic
        end
      else
        Ret {| c_AccountID := u_AccountID user; SetupKeyID := ""; SetupKeyName := "";
               GroupsToAdd := u_AutoGroups user; c_AllowExtraDNSLabels := false;
               c_Ephemeral := r_Ephemeral r |}
  end.

Definition handleSetupKeyAddedPeer (now : Z) (r : request) (s : Store)
    : outcome aerr peerAddAuthConfig :=
  match GetSetupKeyBySecret (encodedHashedKey r) s with
  | Ret sk =>
      if negb (IsValid now sk) then Err EKeyInvalid
      else if negb (sk_AllowExtraDNSLabels sk) && negb (bool_decide (r_ExtraDNSLabels r = []))
      then Err EExtraLabelsDenied
      else
        Ret {| c_AccountID := sk_AccountID sk; SetupKeyID := sk_Id sk; SetupKeyName := sk_Name sk;
               GroupsToAdd := AutoGroups sk; c_AllowExtraDNSLabels := sk_AllowExtraDNSLabels sk;
               c_Ephemeral := sk_Ephemeral sk |}
  | _ => Err EKeyInvalid
  end.

Definition processPeerAddAuth (now : Z) (r : request) (s : Store) : outcome aerr peerAddAuthConfig :=
  config ←
    if addedByUser r then handleUserAddedPeer r s
    else if addedBySetupKey r then handleSetupKeyAddedPeer now r s
    else Ret {| c_AccountID := r_AccountID r; SetupKeyID := ""; SetupKeyName := ""; GroupsToAdd := [];
                c_AllowExtraDNSLabels := false; c_Ephemeral := r_Ephemeral r |};
  Ret (if r_Temporary r
       then {| c_AccountID := c_AccountID config; SetupKeyID := SetupKeyID config;
               SetupKeyName := SetupKeyName config; GroupsToAdd := GroupsToAdd config;
               c_AllowExtraDNSLabels := c_AllowExtraDNSLabels config; c_Ephemeral := true |}
       else config).

(** [iphone] and [ipad] get the local part of the user's e-mail address appended. *)
Definition hostname (r : request) : bytes :=
  let h := lower (r_Hostname r) in
  if (bool_decide (h = str "iphone") || bool_decide (h = str "ipad")) && addedByUser r then
    match idp_email (r_UserID r) with
    | Some email => r_Hostname r ++ [dash] ++ default [] (head (split_at x40 email))
    | None => r_Hostname r
    end
  else r_Hostname r.

(** The peer before it has an address and a label. *)
Definition draft (xid : string) (now : Z) (r : request) (cfg : peerAddAuthConfig) : Peer :=
  {| p_ID := xid; p_AccountID := c_AccountID cfg; p_Key := r_Key r; p_IP := []; p_Name := hostname r;
     p_DNSLabel := []; p_UserID := r_UserID r; p_LastLogin := now; p_CreatedAt := now;
     p_Ephemeral := c_Ephemeral cfg; p_Embedded := r_Embedded r;
     p_LoginExpirationEnabled := addedByUser r && negb (r_Temporary r);
     p_InactivityExpirationEnabled := addedByUser r && negb (r_Temporary r);
     p_ExtraDNSLabels := r_ExtraDNSLabels r;
     p_AllowExtraDNSLabels := c_AllowExtraDNSLabels cfg |}.

Definition placed (ip : IP) (label : bytes) (p : Peer) : Peer :=
  {| p_ID := p_ID p; p_AccountID := p_AccountID p; p_Key := p_Key p; p_IP := ip; p_Name := p_Name p;
     p_DNSLabel := label; p_UserID := p_UserID p; p_LastLogin := p_LastLogin p;
     p_CreatedAt := p_CreatedAt p; p_Ephemeral := p_Ephemeral p; p_Embedded := p_Embedded p;
     p_LoginExpirationEnabled := p_LoginExpirationEnabled p;
     p_InactivityExpirationEnabled := p_InactivityExpirationEnabled p;
     p_ExtraDNSLabels := p_ExtraDNSLabels p; p_AllowExtraDNSLabels := p_AllowExtraDNSLabels p |}.

Definition add_groups (peerID : string) (gs : list string) : tx () :=
  foldr (λ g k, AddPeerToGroup peerID g ;; k) (tx_ret tt) gs.

(** The body of the transaction; [now] is the clock when the key is validated again. *)
Definition registration_tx (now : Z) (r : request) (cfg : peerAddAuthConfig) (p : Peer) : tx () :=
  AddPeerToAccount p ;;
  add_groups (p_ID p) (GroupsToAdd cfg) ;;
  (if r_Embedded r then tx_ret tt else AddPeerToAllGroup (c_AccountID cfg) (p_ID p)) ;;
  (if addedByUser r then SaveUserLastLogin (c_AccountID cfg) (r_UserID r) (p_LastLogin p)
   else if addedBySetupKey r then
     let! sk := tx_get (GetSetupKeyBySecret (encodedHashedKey r)) in
     tx_guard (negb (IsValid now sk)) EKeyInvalid ;;
     IncrementSetupKeyUsage (SetupKeyID cfg) now
   else tx_ret tt) ;;
  IncrementNetworkSerial (c_AccountID cfg).

Definition choose_label (n : nat) (r : request) (cfg : peerAddAuthConfig) (ip : IP) : outcome aerr bytes :=
  if c_Ephemeral cfg || bool_decide (1 < n)%nat then getPeerIPDNSLabel ip (hostname r)
  else GetParsedDomainLabel (hostname r).

Context (rnd : nat → Z → Z).   (* [rng.Intn] in the n-th attempt *)
Context (clock : nat → Z).     (* the time at the start (0) and in the n-th attempt *)

Definition place (n : nat) (r : request) (cfg : peerAddAuthConfig) (nw : Network) (p : Peer)
    : outcome aerr Peer :=
  freeIP ← match AllocateRandomPeerIP (λ _, rnd n) (Net nw) with
           | Ret ip => Ret ip
           | Err _ => Err EFreeIP
           | Panic => Panic
           end;
  freeLabel ← choose_label n r cfg freeIP;
  Ret (placed freeIP freeLabel p).

(** [k] attempts, the first of them the [n]-th: only a violated unique index is retried. *)
Fixpoint attempts (k n : nat) (r : request) (cfg : peerAddAuthConfig) (nw : Network) (p : Peer)
    (s : Store) : outcome aerr Peer * Store :=
  match k with
  | O => (Err EAttempts, s)
  | S k =>
      match place n r cfg nw p with
      | Ret p' =>
          match ExecuteInTransaction (registration_tx (clock n) r cfg p') s with
          | (Ret _, s') => (Ret p', s')
          | (Err e, s') => if decide (e = EUnique) then attempts k (S n) r cfg nw p s' else (Err e, s')
          | (Panic, s') => (Panic, s')
          end
      | Err e => (Err e, s)
      | Panic => (Panic, s)
      end
  end.

Definition maxAttempts : nat := 10.

(** Everything before the first attempt only reads. *)
Definition prepare (xid : string) (r : request) (s : Store)
    : outcome aerr (peerAddAuthConfig * Network * Peer) :=
  _ ← guard_err (negb (addedBySetupKey r) && negb (addedByUser r) && negb (r_Embedded r)) EUnauthenticated;
  _ ← guard_err (bool_decide (is_Some (GetPeerByPeerPubKey (r_Key r) s))) EAlreadyRegistered;
  cfg ← processPeerAddAuth (clock 0) r s;
  _ ← guard_err (negb (ValidateDomainsList (r_ExtraDNSLabels r))) EInvalidLabels;
  match networks s !! c_AccountID cfg with
  | None => Err EAccountNotFound
  | Some nw => Ret (cfg, nw, PreparePeer (draft xid (clock 0) r cfg) (GroupsToAdd cfg))
  end.

(** [GetValidatedPeerWithMap] of the network map controller: whether the map of the new peer is
    computed from the stored account, fails or panics.  It reads the store. *)
Context (GetValidatedPeerWithMap : Peer → Store → outcome aerr ()).

(** The map is computed after the transaction: its error is returned although the peer is stored. *)
Definition AddPeer (xid : string) (r : request) (s : Store) : outcome aerr Peer * Store :=
  match prepare xid r s with
  | Ret (cfg, nw, p) =>
      match attempts maxAttempts 1 r cfg nw p s with
      | (Ret newPeer, s') => (_ ← GetValidatedPeerWithMap newPeer s'; Ret newPeer, s')
      | (Err e, s') => (Err e, s')
      | (Panic, s') => (Panic, s')
      end
  | Err e => (Err e, s)
  | Panic => (Panic, s)
  end.
End registration.

(** A transaction that only changes group memberships, last logins and serials. *)
Definition quiet (op : tx ()) : Prop := ∀ s a s',
  op s = Ret (a, s') → peers s' = peers s ∧ setupKeys s' = setupKeys s.

Lemma quiet_put f : (∀ s, peers (f s) = peers s ∧ setupKeys (f s) = setupKeys s) → quiet (tx_put f).
Proof. intros Hf s a s' [= <- <-]. apply Hf. Qed.
Lemma quiet_bind m k : quiet m → quiet k → quiet (tx_bind m (λ _, k)).
Proof.
  intros Hm Hk s a s' (b & s1 & H1 & H2)%tx_bind_inv. destruct (Hm _ _ _ H1) as [<- <-].
  by apply (Hk _ _ _ H2).
Qed.
Lemma quiet_ret : quiet (tx_ret tt).
Proof. by intros s a s' [= <- <-]. Qed.
Lemma quiet_group p g : quiet (AddPeerToGroup p g).
Proof. by apply quiet_put. Qed.
Lemma quiet_groups p gs : quiet (add_groups p gs).
Proof. induction gs; [apply quiet_ret|]. apply quiet_bind; [apply quiet_group|done]. Qed.
Lemma quiet_all a p : quiet (AddPeerToAllGroup a p).
Proof. intros s x s'. unfold AddPeerToAllGroup. destruct (find_row _ _); [|done]. apply quiet_group. Qed.
Lemma quiet_login a u z : quiet (SaveUserLastLogin a u z).
Proof. apply quiet_put. intros s. destruct (users s !! u); [|done]. by case_bool_decide. Qed.
Lemma quiet_serial a : quiet (IncrementNetworkSerial a).
Proof. by apply quiet_put. Qed.
#[export] Hint Resolve quiet_ret quiet_group quiet_groups quiet_all quiet_login quiet_serial : go.

(** What the step on the setup key does. *)
Definition key_step (now : Z) (r : request) (cfg : peerAddAuthConfig) (s s' : Store) : Prop :=
  peers s' = peers s ∧
  if addedBySetupKey r && negb (addedByUser r) then
    ∃ sk k, GetSetupKeyBySecret (encodedHashedKey r) s = Ret sk ∧ IsValid now sk = true
      ∧ setupKeys s !! SetupKeyID cfg = Some k
      ∧ setupKeys s' = <[SetupKeyID cfg := with_usage (UsedTimes k + 1) now k]> (setupKeys s)
  else setupKeys s' = setupKeys s.

(** The effect of a committed registration on peers and keys. *)
Lemma registration_tx_inv now r cfg p s s' :
  registration_tx now r cfg p s = Ret (tt, s') →
  find_row (conflicts p) (peers s) = None
  ∧ peers s' = <[p_ID p := p]> (peers s)
  ∧ key_step now r cfg (set_peers (peers s') s) s'.
Proof.
  unfold registration_tx. intros (a & s1 & H1 & H)%tx_bind_inv. unfold AddPeerToAccount in H1.
  destruct (find_row (conflicts p) (peers s)); [done|]. injection H1 as <- <-.
  apply tx_bind_inv in H as (b & s2 & H2 & H). apply quiet_groups in H2 as [Hp2 Hk2].
  apply tx_bind_inv in H as (d & s3 & H3 & H).
  assert (peers s3 = peers s2 ∧ setupKeys s3 = setupKeys s2) as [Hp3 Hk3].
  { destruct (r_Embedded r); [by apply quiet_ret in H3|by apply quiet_all in H3]. }
  apply tx_bind_inv in H as (e & s4 & H4 & H5). apply quiet_serial in H5 as [Hp5 Hk5].
  cbn [peers set_peers setupKeys] in Hp2, Hk2.
  assert (Hkey : GetSetupKeyBySecret (encodedHashedKey r) s3
                 = GetSetupKeyBySecret (encodedHashedKey r) s).
  { unfold GetSetupKeyBySecret. by rewrite Hk3, Hk2. }
  split; [done|]. unfold key_step. cbn [peers set_peers setupKeys].
  destruct (addedByUser r); cbn [negb].
  { apply quiet_login in H4 as [Hp4 Hk4]. rewrite andb_false_r.
    split; [|split; [done|]]; congruence. }
  destruct (addedBySetupKey r); cbn [negb andb].
  - apply tx_bind_inv in H4 as (sk & s5 & Hg & H4). unfold tx_get in Hg.
    apply bind_Ret_inv in Hg as (sk' & Hsk & [= -> <-]). apply tx_bind_inv in H4 as (? & s6 & Hgd & H4).
    unfold tx_guard in Hgd. destruct (IsValid now sk) eqn:Hv; cbn [negb] in Hgd; [|done].
    injection Hgd as <- <-. unfold IncrementSetupKeyUsage in H4.
    destruct (setupKeys s3 !! SetupKeyID cfg) as [k|] eqn:Hk; [|done]. injection H4 as <- <-.
    cbn [peers set_setupKeys setupKeys] in Hp5, Hk5. split; [congruence|]. split; [done|].
    exists sk, k. rewrite Hkey in Hsk. rewrite Hk3, Hk2 in Hk. split_and!; [done..|]. by rewrite Hk5, Hk3, Hk2.
  - apply quiet_ret in H4 as [Hp4 Hk4]. split; [|split; [done|]]; congruence.
Qed.

(** * Concurrent registrations

    Any number of registrations run beside each other and beside the administration of setup
    keys.  A registration reads the store once ([prepare]) and then makes attempts, each of
    them one transaction; between its steps the store may change.  [born] records the id, the
    hash and the limit of every key ever created, [log] the peers registered with a key. *)
Section concurrent.
Context (SplitDomainName : bytes → list bytes) (ToASCII : bytes → option bytes)
  (idp_email : string → option bytes) (PreparePeer : Peer → list string → Peer).

Record system := {
  store : Store;
  pending : list (request * peerAddAuthConfig * Network * Peer);
  born : gmap string (bytes * Z);
  log : list (string * string) }.

Definition registrations (i : string) (l : list (string * string)) : Z :=
  Z.of_nat (length (filter (λ e, e.1 = i) l)).

Inductive step : system → system → Prop :=
| step_prepare y xid r clock cfg nw p :
    prepare idp_email PreparePeer clock xid r (store y) = Ret (cfg, nw, p) →
    step y {| store := store y; pending := (r, cfg, nw, p) :: pending y; born := born y; log := log y |}
| step_attempt y r cfg nw p n rnd now p' res s' :
    (r, cfg, nw, p) ∈ pending y →
    place SplitDomainName ToASCII idp_email rnd n r cfg nw p = Ret p' →
    ExecuteInTransaction (registration_tx now r cfg p') (store y) = (res, s') →
    step y {| store := s'; pending := pending y; born := born y;
              log := match res with
                     | Ret _ => if addedBySetupKey r && negb (addedByUser r)
                                then (SetupKeyID cfg, p_ID p') :: log y else log y
                     | _ => log y
                     end |}
| step_create y uuid xid now acc name typ exp gs limit user eph extra k s' :
    CreateSetupKey uuid xid now acc name typ exp gs limit user eph extra (store y) = (Ret k, s') →
    born y !! xid = None → (∀ i h l, born y !! i = Some (h, l) → h ≠ encoded_hash (ToUpper uuid)) →
    step y {| store := s'; pending := pending y;
              born := <[xid := (encoded_hash (ToUpper uuid), effective_limit k)]> (born y); log := log y |}
| step_save y now acc k user res s' :
    SaveSetupKey now acc k user (store y) = (res, s') →
    step y {| store := s'; pending := pending y; born := born y; log := log y |}
| step_delete y acc user i res s' :
    DeleteSetupKey acc user i (store y) = (res, s') →
    step y {| store := s'; pending := pending y; born := born y; log := log y |}.

Definition initial (s : Store) : system := {| store := s; pending := []; born := ∅; log := [] |}.

Inductive reach : system → Prop :=
| reach_init s : setupKeys s = ∅ → reach (initial s)
| reach_next y y' : reach y → step y y' → reach y'.

(** A key in the table is the one that was created under its id. *)
Definition keys_ok (y : system) : Prop := ∀ i k, setupKeys (store y) !! i = Some k →
  sk_Id k = i ∧ born y !! i = Some (Key k, effective_limit k) ∧ UsedTimes k = registrations i (log y).
Definition born_inj (y : system) : Prop := ∀ i j h l l',
  born y !! i = Some (h, l) → born y !! j = Some (h, l') → i = j.
Definition pending_ok (y : system) : Prop := ∀ r cfg nw p, (r, cfg, nw, p) ∈ pending y →
  addedBySetupKey r && negb (addedByUser r) = true →
  ∃ l, born y !! SetupKeyID cfg = Some (encodedHashedKey r, l).
Definition log_ok (y : system) : Prop := ∀ i, match born y !! i with
  | Some (_, l) => 0 < l → registrations i (log y) ≤ l
  | None => registrations i (log y) = 0
  end.

Record Inv (y : system) : Prop := {
  inv_keys : keys_ok y; inv_born : born_inj y; inv_pending : pending_ok y; inv_log : log_ok y }.

Lemma registrations_cons i j p l :
  registrations i ((j, p) :: l) = registrations i l + (if decide (j = i) then 1 else 0).
Proof. unfold registrations. rewrite filter_cons. simpl. case_decide; simpl; lia. Qed.

Lemma found_key y sk key :
  keys_ok y → GetSetupKeyBySecret key (store y) = Ret sk →
  setupKeys (store y) !! sk_Id sk = Some sk ∧ Key sk = key.
Proof.
  intros Hk. unfold GetSetupKeyBySecret. destruct (find_row _ _) as [k|] eqn:Hf; [|done]. intros [= <-].
  apply find_row_Some in Hf as (i & Hi & Hkey%bool_decide_eq_true). by destruct (Hk i k Hi) as (<- & _).
Qed.

Lemma prepare_key clock xid r s cfg nw p :
  prepare idp_email PreparePeer clock xid r s = Ret (cfg, nw, p) →
  addedBySetupKey r && negb (addedByUser r) = true →
  ∃ sk, GetSetupKeyBySecret (encodedHashedKey r) s = Ret sk ∧ SetupKeyID cfg = sk_Id sk.
Proof.
  intros H [Hby Hnu%negb_true_iff]%andb_true_iff. unfold prepare in H.
  apply bind_Ret_inv in H as (? & _ & H). apply bind_Ret_inv in H as (? & _ & H).
  apply bind_Ret_inv in H as (c & Hc & H). apply bind_Ret_inv in H as (? & _ & H).
  destruct (networks s !! c_AccountID c); [|done]. injection H as <- _ _.
  unfold processPeerAddAuth in Hc. rewrite Hnu, Hby in Hc. apply bind_Ret_inv in Hc as (c0 & Hc0 & Hc).
  unfold handleSetupKeyAddedPeer in Hc0.
  destruct (GetSetupKeyBySecret (encodedHashedKey r) s) as [sk| |]; [|done..]. exists sk. split; [done|].
  destruct (IsValid (clock 0%nat) sk); [|done]. cbn [negb] in Hc0.
  destruct (negb (sk_AllowExtraDNSLabels sk) && _); [done|]. injection Hc0 as <-. injection Hc as <-.
  by destruct (r_Temporary r).
Qed.

(** A change of the table that keeps, or drops, the keys it has. *)
Definition keys_kept (s s' : Store) : Prop := ∀ i k', setupKeys s' !! i = Some k' →
  ∃ k, setupKeys s !! i = Some k ∧ sk_Id k' = sk_Id k ∧ Key k' = Key k
       ∧ effective_limit k' = effective_limit k ∧ UsedTimes k' = UsedTimes k.

Lemma Inv_kept y s' :
  Inv y → keys_kept (store y) s' →
  Inv {| store := s'; pending := pending y; born := born y; log := log y |}.
Proof.
  intros [Hk Hb Hp Hl] Hkept. split; try done. intros i k' Hi. cbn [store born log] in *.
  destruct (Hkept i k' Hi) as (k & Hik & -> & -> & -> & ->). by apply Hk.
Qed.


Lemma keys_kept_refl s : keys_kept s s.
Proof. intros i k Hi. exists k. done. Qed.

Lemma validate_groups_inv acc gs s a s' : validateSetupKeyAutoGroups acc gs s = Ret (a, s') → s' = s.
Proof. unfold validateSetupKeyAutoGroups. destruct (forallb _ _); by intros [= <- <-]. Qed.

Lemma key_by_id acc i s k : GetSetupKeyByID acc i s = Ret k → setupKeys s !! i = Some k.
Proof. unfold GetSetupKeyByID. destruct (setupKeys s !! i); [|done]. case_bool_decide; by intros [= <-]. Qed.

Lemma save_kept now acc k user s res s' :
  (∀ i k, setupKeys s !! i = Some k → sk_Id k = i) →
  SaveSetupKey now acc k user s = (res, s') → keys_kept s s'.
Proof.
  intros Hid H%authorized_inv. destruct res; [|subst; apply keys_kept_refl..].
  apply tx_bind_inv in H as (? & s1 & ->%validate_groups_inv & H).
  apply tx_bind_inv in H as (old & s1 & Hold & H). unfold tx_get in Hold.
  apply bind_Ret_inv in Hold as (? & Hold%key_by_id & [= -> <-]).
  apply tx_bind_inv in H as (? & s2 & Hg & H). unfold tx_guard in Hg.
  destruct (Revoked old && _); [done|]. injection Hg as <- <-. cbv zeta in H.
  apply tx_bind_inv in H as (? & s3 & [= <- <-] & [= <- <-]).
  intros i k'. cbn [setupKeys set_setupKeys]. rewrite lookup_insert_Some.
  intros [[<- <-]|[_ Hi]]; [|by exists k']. exists old.
  rewrite (Hid _ _ Hold). cbn. by rewrite (Hid _ _ Hold).
Qed.

Lemma delete_kept acc user i s res s' : DeleteSetupKey acc user i s = (res, s') → keys_kept s s'.
Proof.
  intros H%authorized_inv. destruct res; [|subst; apply keys_kept_refl..].
  apply tx_bind_inv in H as (? & s1 & H1 & H). unfold tx_get in H1.
  apply bind_Ret_inv in H1 as (? & _ & [= _ <-]). unfold store_DeleteSetupKey in H.
  apply tx_bind_inv in H as (? & s2 & H2 & H). unfold tx_get in H2.
  apply bind_Ret_inv in H2 as (? & _ & [= _ <-]). injection H as _ <-.
  intros j k. cbn [setupKeys set_setupKeys]. intros [_ Hj]%lookup_delete_Some. by exists k.
Qed.

Lemma create_inv uuid xid now acc name typ exp gs limit user eph extra s k s' :
  CreateSetupKey uuid xid now acc name typ exp gs limit user eph extra s = (Ret k, s') →
  ∃ k0, setupKeys s' = <[xid := k0]> (setupKeys s) ∧ sk_Id k0 = xid ∧ UsedTimes k0 = 0
    ∧ Key k0 = encoded_hash (ToUpper uuid) ∧ effective_limit k0 = effective_limit k.
Proof.
  intros H%authorized_inv. apply tx_bind_inv in H as (? & s1 & ->%validate_groups_inv & H).
  destruct (GenerateSetupKey _ _ _ _ _ _ _ _ _ _) as [[k1 plain]|e|] eqn:Hg; [|done..]. cbv zeta in H.
  unfold GenerateSetupKey in Hg. apply bind_Ret_inv in Hg as (hid & _ & [= <- <-]).
  apply tx_bind_inv in H as (? & s2 & [= _ <-] & [= <- <-]).
  eexists. by split_and!.
Qed.

Lemma Inv_create y uuid xid now acc name typ exp gs limit user eph extra k s' :
  Inv y → CreateSetupKey uuid xid now acc name typ exp gs limit user eph extra (store y) = (Ret k, s') →
  born y !! xid = None → (∀ i h l, born y !! i = Some (h, l) → h ≠ encoded_hash (ToUpper uuid)) →
  Inv {| store := s'; pending := pending y;
         born := <[xid := (encoded_hash (ToUpper uuid), effective_limit k)]> (born y); log := log y |}.
Proof.
  intros [Hk Hb Hp Hl] (k0 & Hs & Hid & Hu & Hkey & Hlim)%create_inv Hx Hfresh.
  pose proof (Hl xid) as Hlx. rewrite Hx in Hlx. split.
  - intros i q. cbn [store born log]. rewrite Hs, lookup_insert_Some. intros [[<- <-]|[Hne Hi]].
    + rewrite lookup_insert_eq, Hkey, Hlim, Hu. split_and!; [done..|lia].
    + rewrite lookup_insert_ne by done. by apply Hk.
  - intros i j h l l'. cbn [born]. rewrite !lookup_insert_Some.
    intros [[<- H1]|[Hi H1]] [[<- H2]|[Hj H2]]; [done| | |by eapply Hb].
    + injection H1 as <- <-. by destruct (Hfresh _ _ _ H2).
    + injection H2 as <- <-. by destruct (Hfresh _ _ _ H1).
  - intros r cfg nw p Hin Hby. destruct (Hp r cfg nw p Hin Hby) as [l Hbl]. exists l. cbn [born].
    rewrite lookup_insert_ne; [done|]. intros E. congruence.
  - intros i. cbn [born log]. destruct (decide (i = xid)) as [->|Hne].
    + rewrite lookup_insert_eq. lia.
    + rewrite lookup_insert_ne by done. apply Hl.
Qed.

(** A committed attempt with a setup key: the key was valid and under its limit. *)
Lemma attempt_key y r cfg nw p now p' s' :
  Inv y → (r, cfg, nw, p) ∈ pending y → addedBySetupKey r && negb (addedByUser r) = true →
  registration_tx now r cfg p' (store y) = Ret (tt, s') →
  ∃ k, setupKeys (store y) !! SetupKeyID cfg = Some k ∧ IsValid now k = true
    ∧ setupKeys s' = <[SetupKeyID cfg := with_usage (UsedTimes k + 1) now k]> (setupKeys (store y)).
Proof.
  intros [Hk Hb Hp Hl] Hin Hby (_ & _ & Hs)%registration_tx_inv. unfold key_step in Hs. rewrite Hby in Hs.
  destruct Hs as (_ & sk & k & Hsk & Hv & Hi & Hs'). cbn [setupKeys set_peers] in Hi, Hs'.
  exists k. split; [done|]. split; [|done].
  destruct (found_key y sk (encodedHashedKey r) Hk Hsk) as [Hik Hkey].
  destruct (Hk _ _ Hik) as (_ & Hbs & _). destruct (Hp r cfg nw p Hin Hby) as [l Hbl].
  rewrite Hkey in Hbs. pose proof (Hb _ _ _ _ _ Hbs Hbl) as Hid. rewrite Hid in Hik. congruence.
Qed.

Lemma Inv_attempt y r cfg nw p now p' res s' :
  Inv y → (r, cfg, nw, p) ∈ pending y →
  ExecuteInTransaction (registration_tx now r cfg p') (store y) = (res, s') →
  Inv {| store := s'; pending := pending y; born := born y;
         log := match res with
                | Ret _ => if addedBySetupKey r && negb (addedByUser r)
                           then (SetupKeyID cfg, p_ID p') :: log y else log y
                | _ => log y
                end |}.
Proof.
  intros HI Hin Hex%execute_inv. destruct res as [[]| |];
    [|subst; apply Inv_kept; [done|apply keys_kept_refl]..].
  destruct (addedBySetupKey r && negb (addedByUser r)) eqn:Hby.
  2:{ apply registration_tx_inv in Hex as (_ & _ & Hs). unfold key_step in Hs. rewrite Hby in Hs.
      destruct Hs as [_ Hs]. cbn in Hs. apply Inv_kept; [done|]. intros i k. rewrite Hs. by exists k. }
  destruct (attempt_key y r cfg nw p now p' s' HI Hin Hby Hex) as (k & Hi & Hv & Hs').
  destruct HI as [Hk Hb Hp Hl]. destruct (Hk _ _ Hi) as (Hid & Hbk & Hu). split; try done.
  - intros i q. cbn [store born log]. rewrite Hs', lookup_insert_Some, registrations_cons.
    intros [[<- <-]|[Hne Hq]].
    + rewrite decide_True by done. cbn. rewrite Hu. done.
    + rewrite decide_False, Z.add_0_r by done. by apply Hk.
  - intros i. cbn [born log]. rewrite registrations_cons. specialize (Hl i).
    case_decide as Hi'; [|by rewrite Z.add_0_r]. rewrite <- Hi' in Hl |- *. rewrite Hbk in *. intros Hpos.
    unfold IsValid, IsOverUsed in Hv. rewrite !andb_true_iff, !negb_true_iff in Hv.
    destruct Hv as [_ Hov]. rewrite Hu in Hov. apply andb_false_iff in Hov as [?|?]; lia.
Qed.

Lemma reach_Inv y : reach y → Inv y.
Proof.
  induction 1 as [s Hs|y y' _ HI Hst].
  - split; [|done| |done].
    + intros i k. cbn. by rewrite Hs, lookup_empty.
    + intros r cfg nw p Hin. by apply elem_of_nil in Hin.
  - destruct Hst as [y xid r clock cfg nw p Hpr|y r cfg nw p n rnd now p' res s' Hin _ Hex
      |y uuid xid now acc name typ exp gs limit user eph extra k s' Hc Hx Hf
      |y now acc k user res s' Hsv|y acc user i res s' Hd].
    + destruct HI as [Hk Hb Hp Hl]. split; try done. intros r1 cfg1 nw1 p1 Hin Hby.
      apply elem_of_cons in Hin as [[= -> -> -> ->]|Hin]; [|by eapply Hp].
      destruct (prepare_key _ _ _ _ _ _ _ Hpr Hby) as (sk & Hsk & ->).
      destruct (found_key y sk _ Hk Hsk) as [Hi <-]. destruct (Hk _ _ Hi) as (_ & ? & _). eauto.
    + by eapply Inv_attempt.
    + by eapply Inv_create.
    + apply Inv_kept; [done|]. eapply save_kept; [|done]. intros i q Hq. by destruct (inv_keys _ HI i q Hq).
    + apply Inv_kept; [done|]. by eapply delete_kept.
Qed.

(** C5: A setup key is never overused.  However many registrations race with each other and with
    the creation, update, revocation and deletion of keys, the number of peers registered with
    a key is the usage the key shows and stays within its limit (one for a one-off key; a
    limit of zero means no limit), also after the key is gone; and every single registration
    finds its key not revoked and not expired at the moment it commits. *)
Theorem setup_key_never_overused y :
  reach y →
  (∀ i h l, born y !! i = Some (h, l) → 0 < l → registrations i (log y) ≤ l)
  ∧ (∀ i k, setupKeys (store y) !! i = Some k →
       UsedTimes k = registrations i (log y)
       ∧ (sk_Type k = SetupKeyOneOff → registrations i (log y) ≤ 1))
  ∧ (∀ r cfg nw p now p' s', (r, cfg, nw, p) ∈ pending y →
       addedBySetupKey r && negb (addedByUser r) = true →
       registration_tx now r cfg p' (store y) = Ret (tt, s') →
       ∃ k, setupKeys (store y) !! SetupKeyID cfg = Some k
         ∧ Revoked k = false ∧ IsExpired now k = false ∧ IsOverUsed k = false).
Proof.
  intros HI%reach_Inv. pose proof HI as [Hk Hb Hp Hl]. split_and!.
  - intros i h l Hi. specialize (Hl i). by rewrite Hi in Hl.
  - intros i k Hi. destruct (Hk i k Hi) as (_ & Hbk & Hu). split; [done|]. intros Ht.
    specialize (Hl i). rewrite Hbk in Hl. unfold effective_limit in Hl.
    rewrite bool_decide_eq_true_2 in Hl by done. lia.
  - intros r cfg nw p now p' s' Hin Hby Hex.
    destruct (attempt_key y r cfg nw p now p' s' HI Hin Hby Hex) as (k & Hi & Hv & _).
    exists k. unfold IsValid, IsRevoked in Hv. rewrite !andb_true_iff, !negb_true_iff in Hv. tauto.
Qed.
End concurrent.

(** * One registration *)
Definition indexes_ok (s : Store) : Prop :=
  (∀ i p, peers s !! i = Some p → p_ID p = i)
  ∧ (∀ i j p q, peers s !! i = Some p → peers s !! j = Some q → i ≠ j → conflicts p q = false).

Lemma conflicts_sym p q : conflicts p q = conflicts q p.
Proof.
  unfold conflicts.
  by rewrite (bool_decide_ext (p_ID p = p_ID q) (p_ID q = p_ID p)),
    (bool_decide_ext (p_Key p = p_Key q) (p_Key q = p_Key p)),
    (bool_decide_ext (p_AccountID p = p_AccountID q) (p_AccountID q = p_AccountID p)),
    (bool_decide_ext (p_IP p = p_IP q) (p_IP q = p_IP p)),
    (bool_decide_ext (p_DNSLabel p = p_DNSLabel q) (p_DNSLabel q = p_DNSLabel p)) by done.
Qed.

Lemma indexes_insert s s' p :
  indexes_ok s → find_row (conflicts p) (peers s) = None → peers s' = <[p_ID p := p]> (peers s) →
  indexes_ok s'.
Proof.
  intros [Hid Hc] Hf Hp. unfold indexes_ok. rewrite Hp. split.
  - intros i q. rewrite lookup_insert_Some. intros [[<- <-]|[_ Hi]]; [done|by apply Hid].
  - intros i j q1 q2. rewrite !lookup_insert_Some.
    intros [[<- <-]|[Hi H1]] [[<- <-]|[Hj H2]] Hne; [done| | |by eapply Hc].
    + by eapply find_row_None.
    + rewrite conflicts_sym. by eapply find_row_None.
Qed.

Section one.
Context (SplitDomainName : bytes → list bytes) (ToASCII : bytes → option bytes)
  (idp_email : string → option bytes) (PreparePeer : Peer → list string → Peer)
  (rnd : nat → Z → Z) (clock : nat → Z).
(** [PreparePeer] decides about approval; it keeps the identity of the peer. *)
Context (prepare_keeps : ∀ p gs, p_ID (PreparePeer p gs) = p_ID p
  ∧ p_AccountID (PreparePeer p gs) = p_AccountID p ∧ p_Key (PreparePeer p gs) = p_Key p).
Context (rnd_range : ∀ n z, 0 < z → 0 ≤ rnd n z < z).

Definition host_address (n : IPNet) (ip : IP) : Prop :=
  baseIP n < ipToUint32 ip < baseIP n + totalIPs n - 1.
Definition valid_net (n : IPNet) : Prop := 0 ≤ net_ip n < 2 ^ 32 ∧ 1 ≤ ones n ≤ 30.

Lemma place_spec n r cfg nw p p' :
  valid_net (Net nw) → place SplitDomainName ToASCII idp_email rnd n r cfg nw p = Ret p' →
  host_address (Net nw) (p_IP p') ∧ p' = placed (p_IP p') (p_DNSLabel p') p.
Proof using rnd_range.
  intros [Hip Hon] H. unfold place in H. apply bind_Ret_inv in H as (ip & Ha & H).
  apply bind_Ret_inv in H as (l & _ & [= <-]). split; [|done]. cbn [p_IP placed].
  destruct (AllocateRandomPeerIP (λ _, rnd n) (Net nw)) as [ip0| |] eqn:Hal; [|done..].
  injection Ha as <-.
  pose proof (allocate_random_peer_ip_spec (λ _, rnd n) (λ _, rnd_range n) (Net nw) Hip ltac:(lia)) as Hs.
  rewrite Hal in Hs. destruct Hs as [Hs|Hs]; [exact Hs|lia].
Qed.

(** What the attempts end with: one commit, or no change at all. *)
Lemma attempts_spec k n r cfg nw p s res s' :
  attempts SplitDomainName ToASCII idp_email rnd clock k n r cfg nw p s = (res, s') →
  match res with
  | Ret p' => ∃ m, place SplitDomainName ToASCII idp_email rnd m r cfg nw p = Ret p'
                ∧ registration_tx (clock m) r cfg p' s = Ret (tt, s')
  | _ => s' = s
  end.
Proof.
  revert n. induction k as [|k IH]; intros n; cbn [attempts]; [by intros [= <- <-]|].
  destruct (place _ _ _ _ n r cfg nw p) as [p'| |] eqn:Hpl; [|by intros [= <- <-]..].
  destruct (ExecuteInTransaction _ s) as [e s1] eqn:Hex. apply execute_inv in Hex.
  destruct e as [[]|e|].
  - intros [= <- <-]. eauto.
  - subst s1. case_decide; [apply IH|by intros [= <- <-]].
  - subst s1. by intros [= <- <-].
Qed.

(** The peer is the only one added: it has the identifier drawn for it and the requested public
    key, a host address of its account's network, and an address, a label and a public key no
    other peer of the account has; the tables keep their unique indexes; and one use of the
    setup key is counted when the request came with one and without a user. *)
Definition peer_added (xid : string) (r : request) (s : Store) (p : Peer) (s' : Store) : Prop :=
  p_ID p = xid ∧ p_Key p = r_Key r
  ∧ peers s !! xid = None ∧ peers s' = <[xid := p]> (peers s) ∧ indexes_ok s'
  ∧ (∃ nw, networks s !! p_AccountID p = Some nw ∧ host_address (Net nw) (p_IP p))
  ∧ (∀ i q, peers s !! i = Some q → p_AccountID q = p_AccountID p →
       p_IP q ≠ p_IP p ∧ p_DNSLabel q ≠ p_DNSLabel p ∧ p_Key q ≠ p_Key p)
  ∧ (if addedBySetupKey r && negb (addedByUser r)
     then ∃ i k last, setupKeys s !! i = Some k
            ∧ setupKeys s' = <[i := with_usage (UsedTimes k + 1) last k]> (setupKeys s)
     else setupKeys s' = setupKeys s).

Lemma attempts_added xid r s cfg nw p p' s' : indexes_ok s → (∀ a nw, networks s !! a = Some nw → valid_net (Net nw)) →
  prepare idp_email PreparePeer clock xid r s = Ret (cfg, nw, p) →
  attempts SplitDomainName ToASCII idp_email rnd clock maxAttempts 1 r cfg nw p s = (Ret p', s') → peer_added xid r s p' s'.
Proof using prepare_keeps rnd_range.
  intros Hidx Hnet Hpr Hat.
  assert (networks s !! c_AccountID cfg = Some nw ∧ p_ID p = xid ∧ p_AccountID p = c_AccountID cfg
          ∧ p_Key p = r_Key r) as (Hnw & Hid & Hacc & Hkey).
  { unfold prepare in Hpr. apply bind_Ret_inv in Hpr as (? & _ & H). apply bind_Ret_inv in H as (? & _ & H).
    apply bind_Ret_inv in H as (c & _ & H). apply bind_Ret_inv in H as (? & _ & H).
    destruct (networks s !! c_AccountID c) as [nw1|] eqn:Hn; [|done]. injection H as <- <- <-.
    destruct (prepare_keeps (draft idp_email xid (clock 0) r c) (GroupsToAdd c)) as (-> & -> & ->). done. }
  apply attempts_spec in Hat as (m & Hpl & Htx).
  apply place_spec in Hpl as [Hh Hp']; [|by eapply Hnet].
  assert (p_ID p' = xid ∧ p_AccountID p' = c_AccountID cfg ∧ p_Key p' = r_Key r) as (Hid' & Hacc' & Hkey')
    by (rewrite Hp'; cbn; auto).
  apply registration_tx_inv in Htx as (Hf & Hps & Hks). rewrite Hid' in Hps. split_and!; try done.
  - destruct (peers s !! xid) as [q|] eqn:Hq; [|done]. exfalso.
    pose proof (find_row_None _ _ _ _ Hf Hq) as Hc. destruct Hidx as [Hi _]. apply Hi in Hq.
    unfold conflicts in Hc. rewrite bool_decide_eq_true_2 in Hc by congruence. done.
  - eapply indexes_insert; [done..|]. by rewrite Hid'.
  - exists nw. by rewrite Hacc'.
  - intros i q Hq Ha. pose proof (find_row_None _ _ _ _ Hf Hq) as Hc. unfold conflicts in Hc.
    rewrite (bool_decide_eq_true_2 (p_AccountID p' = p_AccountID q)) in Hc by done. cbn in Hc.
    apply orb_false_iff in Hc as [[_ ?%bool_decide_eq_false]%orb_false_iff
      [?%bool_decide_eq_false ?%bool_decide_eq_false]%orb_false_iff]. split_and!; congruence.
  - unfold key_step in Hks. destruct (addedBySetupKey r && negb (addedByUser r)); [|by destruct Hks].
    destruct Hks as (_ & sk & k & _ & _ & Hk & Hs'). cbn in Hk, Hs'. eauto.
Qed.

(** C27: a registration either adds exactly one peer or changes nothing, no matter how many
    attempts it takes.  When it succeeds, the peer it returns was added: it has the id drawn for
    it, a host address of its account's network, and an address, a label and a public key no
    other peer of the account has; the tables keep their unique indexes; and when it came with a
    setup key and without a user, exactly one use of a key is counted.  When it fails, the store
    is unchanged, except when the failure is that of the network map computed after the
    transaction: then the peer was added all the same. *)
Theorem add_peer_spec GetValidatedPeerWithMap xid r s
    (Hidx : indexes_ok s) (Hnet : ∀ a nw, networks s !! a = Some nw → valid_net (Net nw)) :
  match AddPeer SplitDomainName ToASCII idp_email PreparePeer rnd clock GetValidatedPeerWithMap xid r s with
  | (Ret p, s') => peer_added xid r s p s' ∧ GetValidatedPeerWithMap p s' = Ret tt
  | (Err e, s') => s' = s ∨ ∃ p, peer_added xid r s p s' ∧ GetValidatedPeerWithMap p s' = Err e
  | (Panic, s') => s' = s ∨ ∃ p, peer_added xid r s p s' ∧ GetValidatedPeerWithMap p s' = Panic
  end.
Proof using prepare_keeps rnd_range.
  unfold AddPeer. destruct (prepare _ _ _ xid r s) as [[[cfg nw] p]| |] eqn:Hpr; [|by left..].
  destruct (attempts _ _ _ _ _ maxAttempts 1 r cfg nw p s) as [res s'] eqn:Hat.
  destruct res as [p'| |]; [|left; by apply attempts_spec in Hat..].
  apply (attempts_added xid) in Hat; [|done..].
  destruct (GetValidatedPeerWithMap p' s') as [[]| |] eqn:Hm; cbn; eauto.
Qed.
End one.

(** * Labels *)

(** The label of an ephemeral peer, or of a retried registration, can be longer than the 63
    characters DNS allows: the host part keeps up to 59, the address part takes up to 8. *)
Example label_too_long :
  (length <$> (match getPeerIPDNSLabel (λ b, [b]) Some [x0a; x00; xc8; xc8] (replicate 60 x61) with
               | Ret l => Some l | _ => None end)) = Some 67%nat.
Proof. vm_compute. reflexivity. Qed.

Lemma replace_invalid_chars b s : Forall (λ c, host_char c = true) (replace_invalid b s).
Proof.
  revert b. induction s as [|c s IH]; intros b; simpl; [done|].
  destruct (host_char c) eqn:Hc; [constructor; auto|]. destruct b; [auto|]. by constructor.
Qed.

(** ** Samples *)
Definition sample_net : Network :=
  {| Identifier := "n"; Net := {| net_ip := 1684275200; ones := 10 |}; Network.Dns := ""; Serial := 0 |}.
Definition no_config_rows : Config :=
  {| policies := ∅; postureChecks := ∅; routes := ∅; nameServerGroups := ∅; netObjects := ∅;
     routers := ∅; dnsSettings := ∅; validatorGroups := ∅ |}.
Definition sample_store : Store :=
  {| peers := ∅; groups := {[ "all" := {| g_ID := "all"; g_AccountID := "acc"; g_Name := "All";
                                          g_Issued := "api"; g_Peers := []; g_Resources := [] |} ]};
     groupPeers := ∅; setupKeys := ∅; users := ∅; lastLogins := ∅; networks := {[ "acc" := sample_net ]};
     config := no_config_rows |}.
Definition sample_uuid : bytes := str "831f6a3c-0000-4000-8000-000000000000".
Definition laptop : request :=
  {| r_AccountID := ""; r_SetupKey := sample_uuid; r_UserID := ""; r_Temporary := false; r_Key := "pk1";
     r_Hostname := str "laptop"; r_Ephemeral := false; r_Embedded := false; r_ExtraDNSLabels := [] |}.
Abbreviation split1 := (λ b : bytes, [b]).
Abbreviation keep := (λ (p : Peer) (_ : list string), p).
Abbreviation no_email := (λ _ : string, @None bytes).
Abbreviation mapped := (λ (_ : Peer) (_ : Store), @Ret aerr () tt).

Definition created : outcome aerr SetupKey * Store :=
  CreateSetupKey sample_uuid "k1" 0 "acc" "once" SetupKeyOneOff Hour [] 0 SystemInitiator false false
    sample_store.
Definition sample_key : SetupKey :=
  match created.1 with Ret k => k | _ => with_key "" [] (Copy {|
    sk_Id := ""; sk_AccountID := ""; Key := []; KeySecret := []; sk_Name := ""; sk_Type := "";
    CreatedAt := 0; ExpiresAt := None; UpdatedAt := 0; Revoked := false; UsedTimes := 0;
    LastUsed := None; AutoGroups := []; UsageLimit := 0; sk_Ephemeral := false;
    sk_AllowExtraDNSLabels := false |}) end.
Definition registered : outcome aerr Peer * Store :=
  AddPeer split1 Some no_email keep (λ _ _, 5) (λ _, Minute) mapped "p1" laptop created.2.

Example registration_runs :
  match registered with
  | (Ret p, s) => p_IP p = [x64; x40; x00; x06] ∧ p_DNSLabel p = str "laptop"
                  ∧ (UsedTimes <$> setupKeys s !! "k1") = Some 1
  | _ => False
  end
  ∧ (AddPeer split1 Some no_email keep (λ _ _, 6) (λ _, Minute) mapped "p2"
       {| r_AccountID := ""; r_SetupKey := sample_uuid; r_UserID := ""; r_Temporary := false;
          r_Key := "pk2"; r_Hostname := str "other"; r_Ephemeral := false; r_Embedded := false;
          r_ExtraDNSLabels := [] |} registered.2).1 = Err EKeyInvalid.
Proof. vm_compute. repeat split. Qed.

(** The map of the new peer fails: the call reports the error, the peer is stored and the use counted. *)
Example error_after_commit :
  match AddPeer split1 Some no_email keep (λ _ _, 5) (λ _, Minute) (λ _ _, Err EInternal) "p1" laptop created.2 with
  | (Err EInternal, s) => (p_Key <$> peers s !! "p1") = Some "pk1" ∧ (UsedTimes <$> setupKeys s !! "k1") = Some 1
  | _ => False
  end.
Proof. vm_compute. auto. Qed.

Lemma add_peer_spec_witness :
  match AddPeer split1 Some no_email keep (λ _ _, 0) (λ _, Minute) mapped "p1" laptop created.2 with
  | (Ret p, s') => p_ID p = "p1" ∧ p_Key p = "pk1" ∧ peers created.2 !! "p1" = None
  | _ => False
  end.
Proof.
  pose proof (add_peer_spec split1 Some no_email keep (λ _ _, 0) (λ _, Minute)
    ltac:(done) ltac:(intros; lia) mapped "p1" laptop created.2) as H.
  assert (Hp : peers created.2 = ∅) by (vm_compute; reflexivity).
  assert (Hn : networks created.2 = {[ "acc" := sample_net ]}) by (vm_compute; reflexivity).
  destruct (AddPeer split1 Some no_email keep (λ _ _, 0) (λ _, Minute) mapped "p1" laptop created.2)
    as [[p|e|] s'] eqn:E; [|vm_compute in E; discriminate E..].
  destruct H as [(H1 & H2 & H3 & _) _]; [| |exact (conj H1 (conj H2 H3))].
  - split; intros *; rewrite Hp, lookup_empty; discriminate.
  - intros a nw. rewrite Hn, lookup_singleton_Some. intros [_ <-]. clear. unfold valid_net. cbn. lia.
Defined.

Definition no_config : peerAddAuthConfig :=
  {| c_AccountID := ""; SetupKeyID := ""; SetupKeyName := ""; GroupsToAdd := [];
     c_AllowExtraDNSLabels := false; c_Ephemeral := false |}.
Definition no_draft : Peer := draft no_email "" 0 laptop no_config.
Definition prepared_or_default (o : outcome aerr (peerAddAuthConfig * Network * Peer))
    : peerAddAuthConfig * Network * Peer :=
  match o with Ret x => x | _ => (no_config, sample_net, no_draft) end.
Definition sample_prepared : peerAddAuthConfig * Network * Peer :=
  prepared_or_default (prepare no_email keep (λ _, Minute) "p1" laptop created.2).

Definition system1 : system :=
  {| store := created.2; pending := [];
     born := <["k1" := (encoded_hash (ToUpper sample_uuid), effective_limit sample_key)]> ∅; log := [] |}.
Definition system2 : system :=
  {| store := created.2; pending := [(laptop, sample_prepared.1.1, sample_prepared.1.2, sample_prepared.2)];
     born := born system1; log := [] |}.

Lemma sample_reach : reach split1 Some no_email keep system2.
Proof.
  eapply reach_next; [eapply reach_next; [apply (reach_init _ _ _ _ sample_store); reflexivity|]|].
  - apply (step_create _ _ _ _ (initial sample_store) sample_uuid "k1" 0 "acc" "once" SetupKeyOneOff Hour []
      0 SystemInitiator false false sample_key created.2); [vm_compute; reflexivity|reflexivity|].
    intros i h l. cbn [born initial]. rewrite lookup_empty. intros Hx. discriminate Hx.
  - apply (step_prepare _ _ _ _ system1 "p1" laptop (λ _, Minute)). vm_compute. reflexivity.
Qed.

Lemma setup_key_never_overused_witness :
  born system2 !! "k1" = Some (encoded_hash (ToUpper sample_uuid), 1) ∧ registrations "k1" (log system2) ≤ 1.
Proof.
  assert (Hb : born system2 !! "k1" = Some (encoded_hash (ToUpper sample_uuid), 1)) by (vm_compute; reflexivity).
  split; [exact Hb|].
  destruct (setup_key_never_overused split1 Some no_email keep system2 sample_reach) as (Hl & _ & _).
  exact (Hl _ _ _ Hb ltac:(lia)).
Defined.
