(* ===== verification/AccountSystem.v ===== *)
(** The management API on accounts as a transition system, and what holds of every reachable
    store: references inside an account, isolation of accounts, and the network map of an
    account read from the store.

    A step is one call by a user of an account, with any arguments, on the tables of
    [AccountStore]; identifiers the server draws ([xid.New()], [uuid.New()]) and those the identity
    provider gives to new users are fresh.  The handlers of
    [src/management/server/http/handlers] set the account of a policy and of a router to the
    user's. *)
From S2P Require Import Prelude GoText GoHash NetIP AccessPolicy Posture AccountObjects MapComponents Network.
From S2P Require Import Permissions SetupKeys Domains AccountStore AccountGroups AccountPolicies AccountRoutes.
From S2P Require Import AccountUsers AccountIntegrity PeerRegistration.
Open Scope Z_scope.

(** ** Registrations leave the configuration alone *)
Record same_config (s s' : Store) : Prop := {
  sc_groups : groups s' = groups s;
  sc_users : users s' = users s;
  sc_config : config s' = config s;
  sc_keys : ∀ i k', setupKeys s' !! i = Some k' → ∃ k, setupKeys s !! i = Some k
              ∧ sk_Id k' = sk_Id k ∧ sk_AccountID k' = sk_AccountID k ∧ AutoGroups k' = AutoGroups k }.

Lemma same_config_of s s' : groups s' = groups s → users s' = users s → config s' = config s →
  setupKeys s' = setupKeys s → same_config s s'.
Proof. intros ? ? ? Hk. split; [done..|]. rewrite Hk. eauto. Qed.
Lemma same_config_trans s1 s2 s3 : same_config s1 s2 → same_config s2 s3 → same_config s1 s3.
Proof.
  intros [A1 A2 A3 A4] [B1 B2 B3 B4]. split; [congruence..|].
  intros i k3 (k2 & (k1 & Hk & ? & ? & ?)%A4 & ? & ? & ?)%B4. exists k1. split_and!; congruence.
Qed.

Definition configless {A} (op : tx A) : Prop := ∀ s a s', op s = Ret (a, s') → same_config s s'.

Lemma configless_put f : (∀ s, groups (f s) = groups s ∧ users (f s) = users s ∧ config (f s) = config s
  ∧ setupKeys (f s) = setupKeys s) → configless (tx_put f).
Proof. intros Hf s a s' ->%tx_put_inv. destruct (Hf s) as (? & ? & ? & ?). by apply same_config_of. Qed.
Lemma configless_ret {A} (a : A) : configless (tx_ret a).
Proof. intros s x s' [_ ->]%tx_ret_inv. by apply same_config_of. Qed.
Lemma configless_get {A} (f : Store → outcome aerr A) : configless (tx_get f).
Proof. intros s x s' [_ ->]%tx_get_inv. by apply same_config_of. Qed.
Lemma configless_guard b e : configless (tx_guard b e).
Proof. intros s x s' [_ ->]%tx_guard_inv. by apply same_config_of. Qed.
Lemma configless_bind {A B} (m : tx A) (k : A → tx B) : configless m → (∀ a, configless (k a)) → configless (tx_bind m k).
Proof.
  intros Hm Hk s b s' (a & s1 & H1%Hm & H2%(Hk a))%tx_bind_inv. by eapply same_config_trans.
Qed.
Lemma configless_group p g : configless (AddPeerToGroup p g).
Proof. by apply configless_put. Qed.
Lemma configless_groups p gs : configless (add_groups p gs).
Proof. induction gs; [apply configless_ret|]. apply configless_bind; [apply configless_group|done]. Qed.
Lemma configless_account p : configless (AddPeerToAccount p).
Proof.
  intros s a s'. unfold AddPeerToAccount. destruct (find_row _ _); [done|]. intros [= _ <-]. by apply same_config_of.
Qed.
Lemma configless_all a p : configless (AddPeerToAllGroup a p).
Proof. intros s x s'. unfold AddPeerToAllGroup. destruct (find_row _ _); [|done]. apply configless_group. Qed.
Lemma configless_login a u z : configless (SaveUserLastLogin a u z).
Proof. apply configless_put. intros s. destruct (users s !! u); [|done]. by case_bool_decide. Qed.
Lemma configless_serial a : configless (IncrementNetworkSerial a).
Proof. by apply configless_put. Qed.
Lemma configless_usage i now : configless (IncrementSetupKeyUsage i now).
Proof.
  intros s a s'. unfold IncrementSetupKeyUsage. destruct (setupKeys s !! i) as [k|] eqn:Hk; [|done]. intros [= _ <-].
  split; [done..|]. cbn. intros j k' [[<- <-]|[_ Hj]]%lookup_insert_Some; [by exists k|by exists k'].
Qed.
#[local] Hint Resolve configless_ret configless_get configless_guard configless_groups configless_account configless_all
  configless_login configless_serial configless_usage : go.

Lemma configless_registration now r cfg p : configless (registration_tx now r cfg p).
Proof.
  unfold registration_tx. repeat (apply configless_bind; [|intros _]); auto with go.
  - destruct (r_Embedded r); auto with go.
  - destruct (addedByUser r); [auto with go|]. destruct (addedBySetupKey r); [|auto with go].
    apply configless_bind; [auto with go|intros sk]. apply configless_bind; auto with go.
Qed.

Lemma attempts_config split ascii email rnd clock k n r cfg nw p s res s' :
  attempts split ascii email rnd clock k n r cfg nw p s = (res, s') → same_config s s'.
Proof.
  revert s n. induction k as [|k IH]; intros s n; cbn [attempts];
    [intros [= _ <-]; by apply same_config_of|].
  destruct (place _ _ _ _ _ _ _ _) as [p'| |]; [|intros [= _ <-]; by apply same_config_of..].
  destruct (ExecuteInTransaction _ s) as [o s1] eqn:Hx. apply execute_inv in Hx. destruct o as [u|e|].
  - intros [= _ <-]. by eapply configless_registration.
  - subst s1. destruct (decide (e = EUnique)); [apply IH|]. intros [= _ <-]. by apply same_config_of.
  - subst s1. intros [= _ <-]. by apply same_config_of.
Qed.

Lemma AddPeer_config split ascii email prep rnd clock map xid r s res s' :
  AddPeer split ascii email prep rnd clock map xid r s = (res, s') → same_config s s'.
Proof.
  unfold AddPeer. destruct (prepare _ _ _ _ _ _) as [[[cfg nw] p]| |];
    [|intros [= _ <-]; by apply same_config_of..].
  destruct (attempts _ _ _ _ _ _ _ _ _ _ _ _) as [o s1] eqn:Ha. apply attempts_config in Ha.
  by destruct o; intros [= _ <-].
Qed.

Lemma same_config_refers s s' b g : same_config s s' → refers s' b g → refers s b g.
Proof.
  intros [E1 E2 E3 E4] Hr. destruct Hr as [i k g Hk Hg|i p g Hk Hg|i r g Hk Hg|i n g Hk Hg|b d g Hk Hg];
    rewrite ?E3 in Hk; try by econstructor.
  apply E4 in Hk as (k0 & Hk & _ & -> & Hag). rewrite Hag in Hg. by econstructor.
Qed.

Lemma same_config_ok s s' : same_config s s' → integrity s → ids_ok s → integrity s' ∧ ids_ok s'.
Proof.
  intros Hs [Hg Hc] [Hig Hik]. split; split.
  - intros a g Hr%(same_config_refers s). unfold has_group. rewrite (sc_groups _ _ Hs). by apply Hg. done.
  - intros a c (i & p & Hp & Ha & Hin). unfold has_checks. rewrite (sc_config _ _ Hs) in *. apply Hc. by exists i, p.
  - intros i g. rewrite (sc_groups _ _ Hs). apply Hig.
  - intros i k (k0 & Hk & -> & _)%(sc_keys _ _ Hs). by apply Hik.
Qed.

(** ** The transition system *)
Section system.
Context (save_rules : list PolicyRule → list PolicyRule → list PolicyRule).
Context (save_rules_from : ∀ old new r, r ∈ save_rules old new → r ∈ old ∨ r ∈ new).
Context {version : Type} (NewVersion : string → option version).
Context (SplitDomainName : bytes → list bytes) (ToASCII : bytes → option bytes).
Context (idp_email : string → option bytes) (PreparePeer : Peer → list string → Peer).

(** A call for account [a]. *)
Inductive call (a : string) (s s' : Store) : Prop :=
| call_CreateSetupKey uuid xid now name type exp gs limit user eph extra res :
    setupKeys s !! xid = None →
    CreateSetupKey uuid xid now a name type exp gs limit user eph extra s = (res, s') → call a s s'
| call_SaveSetupKey now key user res : SaveSetupKey now a key user s = (res, s') → call a s s'
| call_DeleteSetupKey user i res : DeleteSetupKey a user i s = (res, s') → call a s s'
| call_CreateGroup xid user g res : CreateGroup xid a user g s = (res, s') → call a s s'
| call_UpdateGroup xid user g res : UpdateGroup xid a user g s = (res, s') → call a s s'
| call_DeleteGroups user flow ids res : DeleteGroups a user flow ids s = (res, s') → call a s s'
| call_SavePolicy xid user p create res :
    policies (config s) !! xid = None → pol_AccountID p = a →
    SavePolicy save_rules xid a user p create s = (res, s') → call a s s'
| call_DeletePolicy i user res : DeletePolicy a i user s = (res, s') → call a s s'
| call_SavePostureChecks xid user c create res :
    postureChecks (config s) !! xid = None →
    SavePostureChecks NewVersion xid a user c create s = (res, s') → call a s s'
| call_DeletePostureChecks i user res : DeletePostureChecks a i user s = (res, s') → call a s s'
| call_CreateRoute xid user r res :
    routes (config s) !! xid = None → CreateRoute xid a user r s = (res, s') → call a s s'
| call_SaveRoute user r res : SaveRoute a user r s = (res, s') → call a s s'
| call_DeleteRoute i user res : DeleteRoute a i user s = (res, s') → call a s s'
| call_CreateNameServerGroup xid user n res :
    nameServerGroups (config s) !! xid = None →
    CreateNameServerGroup ToASCII xid a user n s = (res, s') → call a s s'
| call_SaveNameServerGroup user n res : SaveNameServerGroup ToASCII a user n s = (res, s') → call a s s'
| call_DeleteNameServerGroup i user res : DeleteNameServerGroup a i user s = (res, s') → call a s s'
| call_SaveDNSSettings user d res : SaveDNSSettings a user d s = (res, s') → call a s s'
| call_CreateRouter xid user r res :
    routers (config s) !! xid = None → ro_AccountID r = a → CreateRouter xid user r s = (res, s') → call a s s'
| call_UpdateRouter user r res : ro_AccountID r = a → UpdateRouter user r s = (res, s') → call a s s'
| call_DeleteRouter user n i res : DeleteRouter a user n i s = (res, s') → call a s s'
| call_CreateUser idp createdBy uuid user info res :
    users s !! uuid = None →
    (∀ m i d, idp = Some m → idp_create m a i info = Ret d → users s !! ud_ID d = None) →
    CreateUser idp createdBy uuid a user info s = (res, s') → call a s s'.

Lemma call_does a s s' : integrity s → ids_ok s → call a s s' → does a s s'.
Proof.
  intros Hi Hids Hc. destruct Hc;
    eauto using CreateSetupKey_does, SaveSetupKey_does, DeleteSetupKey_does, CreateGroup_does, UpdateGroup_does,
      DeleteGroups_does, SavePolicy_does, DeletePolicy_does, SavePostureChecks_does, DeletePostureChecks_does,
      CreateRoute_does, SaveRoute_does, DeleteRoute_does, CreateNameServerGroup_does, SaveNameServerGroup_does,
      DeleteNameServerGroup_does, SaveDNSSettings_does, DeleteRouter_does, CreateUser_does.
  - subst a. by eapply (save_router_does _ _ (with_router_id xid r)).
  - subst a. by eapply save_router_does.
Qed.

(** Calls for any account and registrations of peers, one after the other. *)
Inductive reach (s0 : Store) : Store → Prop :=
| reach_start : reach s0 s0
| reach_call a s s' : reach s0 s → call a s s' → reach s0 s'
| reach_register rnd clock map xid r res s s' : reach s0 s →
    AddPeer SplitDomainName ToASCII idp_email PreparePeer rnd clock map xid r s = (res, s') → reach s0 s'.

Lemma reach_ok s0 s : integrity s0 → ids_ok s0 → reach s0 s → integrity s ∧ ids_ok s.
Proof.
  intros Hi Hids. induction 1 as [|a s s' _ [IH1 IH2] Hc|rnd clock map xid r res s s' _ [IH1 IH2] Hr]; [done| |].
  - apply call_does in Hc as [Hch Hf]; [|done..].
    split; [by eapply change_integrity|by eapply change_ids].
  - apply AddPeer_config in Hr. by eapply same_config_ok.
Qed.


(** C13: accounts are isolated: a call for account [a] neither changes nor adds nor removes a
    user, group, membership, setup key, policy, posture check, route, name server group or DNS
    setting of another account, nor its peers and its network serial.  The routers of other
    accounts stay the same too, except that a call may store a router of [a] over another
    account's router with the same identifier. *)
Theorem tenant_isolation s0 s a s' (Hint : integrity s0) (Hids : ids_ok s0) (Hr : reach s0 s) (Hc : call a s s') :
  isolated a s s'
  ∧ (foreign_same ro_AccountID a (routers (config s)) (routers (config s')) ∨ router_taken a s s').
Proof.
  destruct (reach_ok s0 s Hint Hids Hr) as [Hi Hk]. destruct (call_does a s s' Hi Hk Hc).
  split; [by apply change_isolated|by apply change_routers].
Qed.

(** ** The account read from the store *)
Context (NewConstraint : string → option (version → bool)).
(** [GetAccount], the part the network map needs; [ps] and [us] are the account's peers and users. *)
Definition account_of (a : string) (ps : gmap string AccessPolicy.Peer) (us : gmap string AccessPolicy.User) (s : Store)
    : Account := {|
  AccessPolicy.Peers := ps;
  AccessPolicy.Groups := LoadGroupPeers s <$> filter (λ p, g_AccountID p.2 = a) (groups s);
  AccessPolicy.Policies := GetAccountPolicies a s;
  AccessPolicy.Users := us;
  AccessPolicy.PostureChecks := as_Checks NewVersion NewConstraint <$> GetAccountPostureChecks a s |}.

Lemma account_group a ps us s g : has_group s a g → is_Some (AccessPolicy.Groups (account_of a ps us s) !! g).
Proof.
  intros (row & Hrow & Ha). exists (LoadGroupPeers s row). cbn. rewrite lookup_fmap_Some. exists row.
  split; [done|]. by rewrite map_lookup_filter_Some.
Qed.

Lemma of_account_inv {A} (acc : A → string) a (m : gmap string A) x : x ∈ of_account acc a m →
  acc x = a ∧ ∃ i, m !! i = Some x.
Proof.
  intros [Ha Hx]%list_elem_of_filter. split; [done|]. apply list_elem_of_fmap in Hx as ([i y] & -> & Hi).
  exists i. by apply elem_of_map_to_list in Hi.
Qed.

(** C15: whatever modelled calls and registrations made the store what it is, collecting the
    components of the network map of an approved peer ([GetPeerNetworkMapComponents]) from an
    account read from it succeeds: no group that a policy or a route names is missing, so that the
    nil dereference on dangling groups cannot happen.  The account's peers are stored under their
    ids, none is embedded (a proxy), every peer that an enabled rule names directly is approved, the
    posture checks have ids and the policies of the network resources have rules.  The computation
    of the map from the components is in [MapEquivalence]. *)
Theorem stored_account_gets_map s0 s a ps us v peer resources resourcePolicies routers' groupUsers
    (Hint : integrity s0) (Hids : ids_ok s0) (Hr : reach s0 s)
    (Hps : map_Forall (λ k p, AccessPolicy.ID p = k) ps) (Hemb : map_Forall (λ _ p, Embedded p = false) ps)
    (Hnames : ∀ c, c ∈ GetAccountPostureChecks a s → pc_ID c ≠ "")
    (Hpeer : ps !! AccessPolicy.ID peer = Some peer) (Hval : AccessPolicy.ID peer ∈ v)
    (Hres : ∀ pol rule r, (pol, rule) ∈ enabled_rules (GetAccountPolicies a s) →
       r = r_SourceResource rule ∨ r = r_DestinationResource rule → is_peer_resource r = true → res_ID r ∈ v)
    (Hpol : ∀ i pols pol, resourcePolicies !! i = Some pols → pol ∈ pols → pol_Rules pol ≠ []) :
  ∃ c, GetPeerNetworkMapComponents (account_of a ps us s) (GetAccountRoutes a s) v resources resourcePolicies
         routers' (AccessPolicy.ID peer) groupUsers = Ret (Some c).
Proof.
  destruct (reach_ok s0 s Hint Hids Hr) as [[Hg _] _].
  destruct (components_collected (account_of a ps us s) v Hps Hemb) with (routes := GetAccountRoutes a s) (peer := peer)
    (resources := resources) (resourcePolicies := resourcePolicies) (routers := routers') (users := groupUsers)
    as (st & rpm & nrs & Hret & _); try done.
  - intros c (k & -> & Hk)%list_elem_of_fmap. by apply Hnames.
  - intros pol rule i (Hp & _ & Hrule & _)%enabled_rules_spec Hi. apply account_group.
    apply of_account_inv in Hp as (<- & j & Hj). apply Hg. eapply ref_policy; [exact Hj|].
    apply RuleGroups_elem. eauto.
  - intros r i Hin Hi. apply account_group. apply of_account_inv in Hin as (<- & j & Hj). apply Hg.
    by eapply ref_route.
  - by eexists.
Qed.
(** ** Changes that are not announced *)
Section announcements.
Context (a : string) (ps : gmap string AccessPolicy.Peer) (us : gmap string AccessPolicy.User).
Context (ver : string → string → outcome () bool) (v : gset string) (groupUsers : gmap string (list string)).
Context (Hps : map_Forall (λ k p, AccessPolicy.ID p = k) ps).
Local Abbreviation acc := (account_of a ps us).
(** The peers a peer connects to when the account is read from a store. *)
Definition connected (s : Store) : AccessPolicy.Peer → list AccessPolicy.Peer := conn_peers ver (acc s) v groupUsers.

Lemma unique_loop_ext (A B : Account) single gs seen : AccessPolicy.Groups A = AccessPolicy.Groups B →
  unique_loop A single gs seen = unique_loop B single gs seen.
Proof.
  intros He. revert seen. induction gs as [|i gs IH]; intros seen; cbn; [done|]. unfold GetGroup. rewrite He.
  destruct (AccessPolicy.Groups B !! i); [|done]. by destruct (_ || _).
Qed.

(** Who a rule connects is decided by the peers, the groups and the posture checks. *)
Lemma remote_ext (A B : Account) pol rule p q d : AccessPolicy.Groups A = AccessPolicy.Groups B →
  AccessPolicy.Peers A = AccessPolicy.Peers B → AccessPolicy.PostureChecks A = AccessPolicy.PostureChecks B →
  remote A v pol rule p q d ↔ remote B v pol rule p q d.
Proof.
  intros Hg Hp Hc.
  assert (∀ checks x, validatePostureChecksOnPeer A checks x = validatePostureChecksOnPeer B checks x) as Hv.
  { destruct A, B; cbn in *; by subst. }
  unfold remote, is_source, is_destination, in_groups, names_peer, getUniquePeerIDsFromGroupsIDs.
  assert (∀ checks x, admitted A v checks x = admitted B v checks x) as Ha.
  { intros. unfold admitted. rewrite Hp. destruct (_ !! x); cbn; [by rewrite Hv|done]. }
  by rewrite Hp, !Ha, !(unique_loop_ext A B) by done.
Qed.

Lemma no_members s ids gs checks p : anyGroupHasPeersOrResources a ids s = false → gs ⊆ ids →
  ¬ in_groups (acc s) v checks gs p.
Proof.
  intros Hno Hsub [Hin _]. apply unique_loop_elem in Hin as [[]%not_elem_of_empty|(i & g & Hi & Hg & Hp)].
  cbn in Hg. apply lookup_fmap_Some in Hg as (row & <- & [Hrow Ha]%map_lookup_filter_Some).
  apply not_true_iff_false in Hno. apply Hno, existsb_elem. exists row. split.
  - apply list_elem_of_fmap. exists (i, row). split; [done|]. apply elem_of_map_to_list, map_lookup_filter_Some.
    split; [done|]. split; [done|]. by apply Hsub.
  - apply orb_true_iff. left. unfold HasPeers. rewrite bool_decide_eq_false_2; [done|].
    intros He. rewrite He in Hp. by apply not_elem_of_nil in Hp.
Qed.

(** A rule whose groups have no members and which names no peers connects nobody. *)
Lemma memberless_rule s ids pol rule p q d : anyGroupHasPeersOrResources a ids s = false →
  r_Sources rule ⊆ ids → r_Destinations rule ⊆ ids →
  res_Type (r_SourceResource rule) = ResourceTypeNone → res_Type (r_DestinationResource rule) = ResourceTypeNone →
  ¬ remote (acc s) v pol rule p q d.
Proof.
  intros Hno Hs Hd Hr1 Hr2.
  assert (is_peer_resource (r_SourceResource rule) = false) as E1
    by (apply bool_decide_eq_false_2; rewrite Hr1; by intros [? _]).
  assert (is_peer_resource (r_DestinationResource rule) = false) as E2
    by (apply bool_decide_eq_false_2; rewrite Hr2; by intros [? _]).
  unfold remote, is_source, is_destination. rewrite E1, E2.
  intros [(H & _)|(H & _)]; by eapply no_members in H.
Qed.

Definition silent (s : Store) (pol : Policy) : Prop :=
  pol_Enabled pol = false ∨ ∀ rule, rule ∈ pol_Rules pol → ∀ p q d, ¬ remote (acc s) v pol rule p q d.

Lemma unaffected s pol : names_resource pol = false → anyGroupHasPeersOrResources a (RuleGroups pol) s = false →
  ∀ rule, rule ∈ pol_Rules pol → ∀ pol' p q d, ¬ remote (acc s) v pol' rule p q d.
Proof.
  intros Hn Hg rule Hr pol' p q d.
  assert (res_Type (r_SourceResource rule) = ResourceTypeNone ∧ res_Type (r_DestinationResource rule) = ResourceTypeNone)
    as [H1 H2].
  { apply not_true_iff_false in Hn. unfold names_resource in Hn. rewrite existsb_elem in Hn.
    destruct (decide (res_Type (r_SourceResource rule) = ResourceTypeNone)), (decide (res_Type (r_DestinationResource rule) = ResourceTypeNone));
      [done|..]; exfalso; apply Hn; exists rule; (split; [done|]); apply orb_true_iff;
      rewrite ?negb_true_iff, ?bool_decide_eq_false; auto. }
  eapply memberless_rule; [exact Hg|..|done|done]; intros g ?; apply RuleGroups_elem; exists rule;
    (split; [done|]); apply elem_of_app; auto.
Qed.

(** Two stores that differ in one silent policy connect the same peers. *)
Lemma silent_policy s s' i peer q :
  (∀ j, j ≠ i → policies (config s') !! j = policies (config s) !! j) →
  (∀ pol rule p q d, remote (acc s') v pol rule p q d ↔ remote (acc s) v pol rule p q d) →
  (∀ pol, policies (config s) !! i = Some pol → silent s pol) →
  (∀ pol, policies (config s') !! i = Some pol → silent s pol) →
  q ∈ connected s' peer ↔ q ∈ connected s peer.
Proof.
  intros Hother Hrem Hold Hnew. unfold connected. rewrite !conn_peers_spec by done.
  split; intros (pol & rule & d & Hen & Hq & Hne & Hr); exists pol, rule, d; (split; [|split_and!; [done..|by apply Hrem]]).
  - apply Hrem in Hr. apply enabled_rules_spec in Hen as (Hp & He & Hrule & Hre). apply enabled_rules_spec.
    split_and!; [|done..]. apply of_account_inv in Hp as (Ha & j & Hj). destruct (decide (j = i)) as [->|Hji].
    + apply Hnew in Hj as [Hj|Hj]; [congruence|]. by destruct (Hj rule Hrule _ _ _ Hr).
    + rewrite Hother in Hj by done. rewrite <- Ha. by eapply of_account_elem.
  - apply enabled_rules_spec in Hen as (Hp & He & Hrule & Hre). apply enabled_rules_spec.
    split_and!; [|done..]. apply of_account_inv in Hp as (Ha & j & Hj). destruct (decide (j = i)) as [->|Hji].
    + apply Hold in Hj as [Hj|Hj]; [congruence|]. by destruct (Hj rule Hrule _ _ _ Hr).
    + rewrite <- Hother in Hj by done. rewrite <- Ha. by eapply of_account_elem.
Qed.

(** Saved over the stored rules, a policy that affects nobody stays silent. *)
Lemma silent_saved s p old :
  names_resource p = false → anyGroupHasPeersOrResources a (RuleGroups p) s = false →
  (∀ rule, rule ∈ old → ∀ pol p q d, ¬ remote (acc s) v pol rule p q d) →
  silent s (with_rules (save_rules old (pol_Rules p)) p).
Proof.
  intros Hn Hg Hold. right. cbn. intros rule Hr x y d.
  apply save_rules_from in Hr as [Hr|Hr]; [by eapply Hold|by eapply unaffected].
Qed.

Lemma SavePolicy_unannounced xid user p create s s' p' peer q :
  policies (config s) !! xid = None → pol_AccountID p = a →
  SavePolicy save_rules xid a user p create s = (Ret (p', false), s') →
  q ∈ connected s' peer ↔ q ∈ connected s peer.
Proof.
  intros Hf Ha H%authorized_inv. cbn in H.
  apply tx_bind_inv in H as ([p1 e] & s1 & [Hv ->]%tx_get_inv & H). cbv beta zeta in H. cbn [fst snd] in H.
  unfold validatePolicy in Hv. apply bind_Ret_inv in Hv as ([[i ac] ex] & Hw & Hv). injection Hv as Hp1 <-.
  destruct ex as [old|].
  - destruct (bool_decide (pol_ID p = "")); [done|].
    apply bind_Ret_inv in Hw as (e & [Hold Hacc]%by_id_inv & Hw).
    apply bind_Ret_inv in Hw as (? & _ & [= <- <- <-]).
    assert (pol_ID p1 = pol_ID p ∧ pol_AccountID p1 = a) as [Hi1 Ha1] by (by rewrite <- Hp1). clear Hp1.
    destruct (Policy_Equal p1 e); [by apply tx_ret_inv in H as [_ ->]|]. unfold store_SavePolicy, put_config in H. tx_inv.
    injection H as <- Hx <-. subst x0. unfold arePolicyChangesAffectPeersWithExisting in Hx.
    assert (Hsil : silent s e ∧ silent s (with_rules (save_rules (pol_Rules e) (pol_Rules p1)) p1)).
    { rewrite Ha1 in Hx. destruct (pol_Enabled p1) eqn:E1, (pol_Enabled e) eqn:E2; cbn in Hx;
        try (split; left; done); (* both disabled *)
        (destruct (names_resource e) eqn:Hne; [done|]; destruct (anyGroupHasPeersOrResources a (RuleGroups e) s) eqn:Hge; [done|];
         destruct (names_resource p1) eqn:Hnp; [done|]);
        (split; [right; intros rule Hr ? ? ?; by eapply (unaffected s e)|]; apply silent_saved; [done..|];
         intros rule Hr ? ? ? ?; by eapply (unaffected s e)). }
    destruct Hsil as [Hs1 Hs2]. apply (silent_policy s _ (pol_ID p)).
    + intros j Hj. cbn. by rewrite Hi1, lookup_insert_ne.
    + intros. by apply remote_ext.
    + intros pol Hpol. by simplify_eq.
    + intros pol. cbn. rewrite Hi1, lookup_insert_eq, Hold. cbn. by intros [= <-].
  - assert (i = xid ∧ ac = a) as [-> ->].
    { destruct (bool_decide (pol_ID p = "")); [by injection Hw as <- <-|].
      apply bind_Ret_inv in Hw as (? & _ & Hw). by apply bind_Ret_inv in Hw as (? & _ & ?). }
    assert (pol_ID p1 = xid ∧ pol_AccountID p1 = a) as [Hi1 Ha1] by (by rewrite <- Hp1). clear Hp1.
    tx_inv. match goal with Hs : store_CreatePolicy _ _ _ = Ret _ |- _ => apply create_policy_inv in Hs as ->; [|by rewrite Hi1] end.
    injection H as <- -> <-. match goal with Hu : arePolicyChangesAffectPeers _ _ = _ |- _ => unfold arePolicyChangesAffectPeers in Hu; rewrite Ha1 in Hu end.
    destruct (names_resource p1) eqn:Hn; [done|]. apply (silent_policy s _ xid).
    + intros j Hj. cbn. by rewrite Hi1, lookup_insert_ne.
    + intros. by apply remote_ext.
    + intros pol Hpol. congruence.
    + intros pol. cbn. rewrite Hi1, lookup_insert_eq. intros [= <-]. apply silent_saved; [done..|].
      by intros ? ?%not_elem_of_nil.
Qed.

Lemma DeletePolicy_unannounced policyID user s s' peer q :
  DeletePolicy a policyID user s = (Ret false, s') → q ∈ connected s' peer ↔ q ∈ connected s peer.
Proof.
  intros H%authorized_inv. unfold store_DeletePolicy, put_config in H.
  apply tx_bind_inv in H as (p & s1 & [[Hp Ha]%by_id_inv ->]%tx_get_inv & H).
  apply tx_bind_inv in H as (u & s1 & [[= Hu] ->]%tx_get_inv & H). tx_inv. injection H as -> <-.
  unfold arePolicyChangesAffectPeers in Hu. rewrite Ha in Hu. destruct (names_resource p) eqn:Hn; [done|].
  apply (silent_policy s _ policyID).
  - intros j Hj. cbn. by rewrite lookup_delete_ne.
  - intros. by apply remote_ext.
  - intros pol Hpol. assert (pol = p) as -> by congruence. right. intros rule Hr ? ? ?. by eapply (unaffected s p).
  - intros pol. cbn. by rewrite lookup_delete_eq.
Qed.

(** C14: an API call on policies that does not make the peers fetch a new network map has not
    changed which peers any peer of the account connects to. *)
Theorem policy_changes_announced s s' user :
  (∀ xid p create p', policies (config s) !! xid = None → pol_AccountID p = a →
     SavePolicy save_rules xid a user p create s = (Ret (p', false), s') →
     ∀ peer q, q ∈ connected s' peer ↔ q ∈ connected s peer)
  ∧ (∀ policyID, DeletePolicy a policyID user s = (Ret false, s') →
     ∀ peer q, q ∈ connected s' peer ↔ q ∈ connected s peer).
Proof. split; eauto using SavePolicy_unannounced, DeletePolicy_unannounced. Qed.
End announcements.
End system.

(** ** Samples *)
Definition replace_by_id (old new : list PolicyRule) : list PolicyRule :=
  new ++ filter (λ r, r_ID r ∉ r_ID <$> new) old.
Lemma replace_by_id_from old new r : r ∈ replace_by_id old new → r ∈ old ∨ r ∈ new.
Proof. intros [?|[_ ?]%list_elem_of_filter]%elem_of_app; auto. Qed.

Definition admin_of (a : string) : User :=
  {| Permissions.u_Id := "admin-" +:+ a; u_AccountID := a; u_Role := UserRoleAdmin; IsServiceUser := false;
     u_AutoGroups := []; Blocked := false; PendingApproval := false |}.
Definition a_group (i a : string) : Group :=
  {| g_ID := i; g_AccountID := a; g_Name := i; g_Issued := "api"; g_Peers := []; g_Resources := [] |}.
Definition a_peer (i : string) : Peer :=
  {| p_ID := i; p_AccountID := "acc"; p_Key := i; p_IP := []; p_Name := str i; p_DNSLabel := str i; p_UserID := "";
     p_LastLogin := 0; p_CreatedAt := 0; p_Ephemeral := false; p_Embedded := false;
     p_LoginExpirationEnabled := false; p_InactivityExpirationEnabled := false; p_ExtraDNSLabels := [];
     p_AllowExtraDNSLabels := false |}.
Definition a_router (i a n : string) (gs : list string) : NetworkRouter :=
  {| ro_ID := i; ro_NetworkID := n; ro_AccountID := a; ro_Peer := ""; ro_PeerGroups := gs; ro_Masquerade := true;
     ro_Metric := 9999; ro_Enabled := true |}.

(** Two accounts; [devs] has a member, [empty] has none. *)
Definition two_accounts : Store := {|
  peers := {[ "gw" := a_peer "gw" ]};
  groups := {[ "devs" := a_group "devs" "acc"; "empty" := a_group "empty" "acc"; "theirs" := a_group "theirs" "other" ]};
  groupPeers := {[ ("devs", "gw") ]}; setupKeys := ∅;
  users := {[ "admin-acc" := admin_of "acc"; "admin-other" := admin_of "other" ]};
  lastLogins := ∅; networks := {[ "acc" := sample_net; "other" := sample_net ]};
  config := {| policies := ∅; postureChecks := ∅; routes := ∅; nameServerGroups := ∅;
               netObjects := {[ "net" := {| net_ID := "net"; net_AccountID := "acc"; net_Name := "office" |};
                                "net2" := {| net_ID := "net2"; net_AccountID := "other"; net_Name := "lab" |} ]};
               routers := {[ "gate" := a_router "gate" "acc" "net" ["devs"] ]};
               dnsSettings := {[ "acc" := {| DisabledManagementGroups := [] |};
                                 "other" := {| DisabledManagementGroups := [] |} ]};
               validatorGroups := ∅ |} |}.

Lemma two_accounts_ok : integrity two_accounts ∧ ids_ok two_accounts.
Proof.
  split; split.
  - intros a g Hr. exfalso.
    destruct Hr as [i k g Hk Hg|i p g Hk Hg|i r g Hk Hg|i n g Hk Hg|b d g Hk Hg]; cbn in Hk;
      try by rewrite lookup_empty in Hk.
    apply lookup_insert_Some in Hk as [[_ <-]|[_ [_ <-]%lookup_singleton_Some]]; by apply not_elem_of_nil in Hg.
  - intros a c (i & p & Hp & _). cbn in Hp. by rewrite lookup_empty in Hp.
  - intros i g Hg. cbn in Hg. rewrite !lookup_insert_Some, lookup_singleton_Some in Hg. naive_solver.
  - intros i k Hk. cbn in Hk. by rewrite lookup_empty in Hk.
Qed.

Definition lan : prefix := {| px_v6 := false; px_addr := 167772160; px_bits := 8 |}.   (* 10.0.0.0/8 *)
(** A route for 10.0.0.0/8 as the handlers build it: without an account. *)
Definition lan_route (i peer : string) (gs : list string) : Route :=
  {| rt_ID := i; rt_AccountID := ""; rt_Network := Some lan; rt_Domains := []; rt_KeepRoute := false;
     rt_NetID := "lan"; rt_Description := ""; rt_Peer := peer; rt_PeerID := ""; rt_PeerGroups := []; rt_NetworkType := IPv4Network;
     rt_Masquerade := true; rt_Metric := 9999; rt_Enabled := true; rt_Groups := gs; rt_AccessControlGroups := [];
     rt_SkipAutoApply := false |}.

Definition with_lan : Store := (CreateRoute "rt1" "acc" "admin-acc" (lan_route "" "gw" ["devs"]) two_accounts).2.

Abbreviation sample_reach := (reach replace_by_id exact_version split1 Some no_email keep).
Abbreviation sample_call := (call replace_by_id exact_version Some).

Lemma create_lan :
  sample_call "acc" two_accounts with_lan.
Proof.
  apply (call_CreateRoute _ _ _ _ _ _ "rt1" "admin-acc" (lan_route "" "gw" ["devs"])
    (CreateRoute "rt1" "acc" "admin-acc" (lan_route "" "gw" ["devs"]) two_accounts).1); [done|].
  apply surjective_pairing.
Qed.



Lemma tenant_isolation_witness : groups with_lan !! "theirs" = Some (a_group "theirs" "other").
Proof.
  apply (iso_groups _ _ _ (proj1 (tenant_isolation replace_by_id replace_by_id_from exact_version split1 Some no_email keep
    two_accounts two_accounts "acc" with_lan (proj1 two_accounts_ok) (proj2 two_accounts_ok)
    (reach_start _ _ _ _ _ _ _) create_lan))); [discriminate|reflexivity].
Defined.

Lemma stored_account_gets_map_witness : ∃ c,
  GetPeerNetworkMapComponents
    (account_of exact_version exact_constraint "acc" (AccessPolicy.Peers demo_account) ∅ with_lan)
    (GetAccountRoutes "acc" with_lan) demo_validated [] ∅ ∅ "srv" ∅ = Ret (Some c).
Proof.
  apply (stored_account_gets_map replace_by_id replace_by_id_from exact_version split1 Some no_email keep
    exact_constraint two_accounts with_lan "acc" (AccessPolicy.Peers demo_account) ∅ demo_validated srv [] ∅ ∅ ∅
    (proj1 two_accounts_ok) (proj2 two_accounts_ok)
    (reach_call _ _ _ _ _ _ _ "acc" _ _ (reach_start _ _ _ _ _ _ _) create_lan) demo_wf).
  - apply map_Forall_insert_2; [done|]. by apply map_Forall_singleton.
  - intros c Hc. vm_compute in Hc. by apply not_elem_of_nil in Hc.
  - done.
  - by apply elem_of_union_r, elem_of_singleton.
  - intros pol rule r Hin. vm_compute in Hin. by apply not_elem_of_nil in Hin.
  - intros i pols pol Hp. by rewrite lookup_empty in Hp.
Defined.

Lemma update_router_takes_over_witness :
  ∃ s', UpdateRouter "admin-other" (a_router "gate" "other" "net2" ["theirs"]) two_accounts
        = (Ret (a_router "gate" "other" "net2" ["theirs"]), s')
    ∧ GetNetworkRouterByID "acc" "gate" s' = Err ENotFound.
Proof.
  destruct (update_router_takes_over "admin-other" (a_router "gate" "other" "net2" ["theirs"])
    (a_router "gate" "acc" "net" ["devs"]) {| net_ID := "net2"; net_AccountID := "other"; net_Name := "lab" |} two_accounts
    eq_refl ltac:(discriminate) ltac:(vm_compute; reflexivity) ltac:(vm_compute; reflexivity) eq_refl)
    as (_ & s' & H1 & _ & H2).
  exists s'. split; [exact H1|exact H2].
Defined.

(** A policy about a group without members: created without telling the peers. *)
Definition to_nobody : Policy := demo_policy ""
  [{| r_ID := ""; r_PolicyID := ""; r_Name := ""; r_Description := ""; r_Enabled := true; r_Action := "accept";
      r_Destinations := ["empty"]; r_DestinationResource := no_resource; r_Sources := ["empty"];
      r_SourceResource := no_resource; r_Bidirectional := true; r_Protocol := "all"; r_Ports := [];
      r_PortRanges := []; r_AuthorizedGroups := ∅; r_AuthorizedUser := "" |}].
Definition save_to_nobody := SavePolicy replace_by_id "pol1" "acc" "admin-acc" to_nobody true two_accounts.

Lemma policy_changes_announced_witness :
  policies (config save_to_nobody.2) ≠ ∅ ∧
  ∀ peer q,
    q ∈ connected exact_version exact_constraint "acc" (AccessPolicy.Peers demo_account) ∅ all_new demo_validated ∅
          save_to_nobody.2 peer
    ↔ q ∈ connected exact_version exact_constraint "acc" (AccessPolicy.Peers demo_account) ∅ all_new demo_validated ∅
          two_accounts peer.
Proof.
  assert (∃ p', save_to_nobody.1 = Ret (p', false)) as [p' Hp'] by (vm_compute; eauto).
  split; [vm_compute; discriminate|].
  refine (proj1 (policy_changes_announced replace_by_id replace_by_id_from exact_version exact_constraint "acc"
    (AccessPolicy.Peers demo_account) ∅ all_new demo_validated ∅ demo_wf two_accounts save_to_nobody.2 "admin-acc")
    "pol1" to_nobody true p' eq_refl eq_refl _).
  rewrite <- Hp'. apply surjective_pairing.
Defined.

(** A second route of the same network through the same peer is accepted: the check remembers
    the identifiers of the other routes instead of their peers. *)
Example duplicate_peer_route_accepted :
  match CreateRoute "rt2" "acc" "admin-acc" (lan_route "" "gw" ["devs"]) with_lan with
  | (Ret (r, _), s') => rt_ID r = "rt2" ∧ rt_Peer r = "gw"
      ∧ (rt_Peer <$> routes (config s') !! "rt1") = Some "gw" ∧ (rt_Network <$> routes (config s') !! "rt1") = Some (Some lan)
  | _ => False
  end.
Proof. vm_compute. auto. Qed.

(** A route handed to the group [devs], which has members, instead of to the empty group: the
    members are not told, because the route's account is not set yet when its groups are read. *)
Definition empty_route : Store :=
  (CreateRoute "rt1" "acc" "admin-acc"
     (with_route "" "" (Some lan)
        {| rt_ID := ""; rt_AccountID := ""; rt_Network := Some lan; rt_Domains := []; rt_KeepRoute := false;
           rt_NetID := "lan"; rt_Description := ""; rt_Peer := ""; rt_PeerID := ""; rt_PeerGroups := ["empty"];
           rt_NetworkType := IPv4Network; rt_Masquerade := true; rt_Metric := 9999; rt_Enabled := true;
           rt_Groups := ["empty"]; rt_AccessControlGroups := []; rt_SkipAutoApply := false |}) two_accounts).2.
Definition populated_route : Route :=
  {| rt_ID := "rt1"; rt_AccountID := ""; rt_Network := Some lan; rt_Domains := []; rt_KeepRoute := false;
     rt_NetID := "lan"; rt_Description := ""; rt_Peer := ""; rt_PeerID := ""; rt_PeerGroups := ["devs"];
     rt_NetworkType := IPv4Network; rt_Masquerade := true; rt_Metric := 9999; rt_Enabled := true;
     rt_Groups := ["devs"]; rt_AccessControlGroups := []; rt_SkipAutoApply := false |}.

Example route_update_not_announced :
  (SaveRoute "acc" "admin-acc" populated_route empty_route).1 = Ret false
  ∧ areRouteChangesAffectPeers (with_route "rt1" "acc" (Some lan) populated_route) empty_route = true.
Proof. vm_compute. auto. Qed.

(** A router may be given a group that does not exist. *)
Example router_of_unknown_group :
  (CreateRouter "ro2" "admin-acc" (a_router "" "acc" "net" ["nobody"]) two_accounts).1
  = Ret (a_router "ro2" "acc" "net" ["nobody"]) ∧ groups two_accounts !! "nobody" = None.
Proof. vm_compute. auto. Qed.

(** [CreateGroups] stops at an error when one group was created before it: the third group is not
    created, although the errors of other groups do not stop it. *)
Example create_groups_stops_early :
  (CreateGroups "acc" "admin-acc"
     [("g1", with_id "" (a_group "one" "")); ("g2", with_id "" (a_group "devs" "")); ("g3", with_id "" (a_group "three" ""))]
     two_accounts).1 = ([EExists], false)
  ∧ groups (CreateGroups "acc" "admin-acc"
     [("g1", with_id "" (a_group "one" "")); ("g2", with_id "" (a_group "devs" "")); ("g3", with_id "" (a_group "three" ""))]
     two_accounts).2 !! "g3" = None
  ∧ groups (CreateGroups "acc" "admin-acc"
     [("g2", with_id "" (a_group "devs" "")); ("g3", with_id "" (a_group "three" ""))] two_accounts).2 !! "g3"
    = Some {| g_ID := "g3"; g_AccountID := "acc"; g_Name := "three"; g_Issued := "api"; g_Peers := []; g_Resources := [] |}.
Proof. vm_compute. auto. Qed.

(** A service user is created with a group that does not exist. *)
Definition ci_bot : UserInfo :=
  {| ui_ID := ""; ui_Email := ""; ui_Name := "ci"; ui_Role := "user"; ui_AutoGroups := ["nobody"]; ui_Status := "";
     ui_IsServiceUser := true; ui_IsBlocked := false; ui_NonDeletable := false; ui_Issued := "";
     ui_PendingApproval := false; ui_Password := "" |}.
Example user_of_unknown_group :
  (u_AutoGroups <$> users (CreateUser None (λ _, Err ENotFound) "u1" "acc" "admin-acc" ci_bot two_accounts).2 !! "u1")
    = Some ["nobody"]
  ∧ groups two_accounts !! "nobody" = None.
Proof. vm_compute. auto. Qed.

(** An invited user of an identity provider whose cache is not refreshed: the call fails, the user is stored. *)
Example invite_stored_on_error :
  let idp := {| idp_embedded := false;
    idp_create _ _ i := Ret {| ud_ID := "u2"; ud_Email := ui_Email i; ud_Name := ui_Name i; ud_PendingInvite := Some true;
                               ud_Password := "" |};
    idp_refresh _ := Some EInternal |} in
  let invite := {| ui_ID := ""; ui_Email := "a@b"; ui_Name := "ann"; ui_Role := "user"; ui_AutoGroups := []; ui_Status := "";
     ui_IsServiceUser := false; ui_IsBlocked := false; ui_NonDeletable := false; ui_Issued := "api";
     ui_PendingApproval := false; ui_Password := "" |} in
  let out := CreateUser (Some idp) (λ _, Err ENotFound) "" "acc" "admin-acc" invite two_accounts in
  out.1 = Err EInternal ∧ (u_Role <$> users out.2 !! "u2") = Some "user".
Proof. vm_compute. auto. Qed.
