(* ===== verification/RouteMap.v ===== *)
(** Routes in a network map: which routes a peer serves and receives, and the firewall rules a
    routing peer gets for them, from [src/management/server/types/account.go] and
    [firewall_rule.go].

    [Routes] is the map of the account's routes in the order Go ranges over it, which is
    unspecified.  The WireGuard key of a peer is the function [Key]; [ToUnicode] of
    golang.org/x/net/idna is a parameter.  A nil list of domains is the empty one. *)
From stdpp Require Import pretty.
From S2P Require Import Prelude GoText NetIP FirewallRules NetParse AclManager AclKeys AccessPolicy AccountObjects.
Open Scope Z_scope.

Definition haSeparator : string := "|".
Definition PolicyTrafficActionAccept : string := "accept".

(** [Prefix.String] *)
Definition prefix_text (p : Prefix) : string := match p with Some p => Prefix_String p | None => "invalid Prefix" end.
Definition domain_text (d : bytes) : string := String.string_of_list_byte d.

(** ** firewall_rule.go *)
Record RouteFirewallRule := {
  srf_PolicyID : string; srf_RouteID : string; srf_SourceRanges : list string; srf_Action : string; srf_Destination : string;
  srf_Protocol : string; srf_Port : Z; srf_PortRange : RulePortRange; srf_Domains : list bytes; srf_IsDynamic : bool }.
Definition no_range : RulePortRange := {| Start := 0; End_ := 0 |}.

Definition with_port (p : Z) (r : RouteFirewallRule) : RouteFirewallRule :=
  {| srf_PolicyID := srf_PolicyID r; srf_RouteID := srf_RouteID r; srf_SourceRanges := srf_SourceRanges r; srf_Action := srf_Action r;
     srf_Destination := srf_Destination r; srf_Protocol := srf_Protocol r; srf_Port := p; srf_PortRange := srf_PortRange r;
     srf_Domains := srf_Domains r; srf_IsDynamic := srf_IsDynamic r |}.
Definition with_range (pr : RulePortRange) (r : RouteFirewallRule) : RouteFirewallRule :=
  {| srf_PolicyID := srf_PolicyID r; srf_RouteID := srf_RouteID r; srf_SourceRanges := srf_SourceRanges r; srf_Action := srf_Action r;
     srf_Destination := srf_Destination r; srf_Protocol := srf_Protocol r; srf_Port := srf_Port r; srf_PortRange := pr;
     srf_Domains := srf_Domains r; srf_IsDynamic := srf_IsDynamic r |}.

(** [strconv.ParseUint(s, 10, 16)] *)
Definition ParseUint16 (s : string) : option Z :=
  v ← parse_digits (str s); if v <? 65536 then Some v else None.

Definition generateRuleIDBase (rule : PolicyRule) (base : RouteFirewallRule) : string :=
  r_ID rule +:+ join "," (srf_SourceRanges base) +:+ Itoa FirewallRuleDirectionIN +:+ srf_Protocol base +:+ srf_Action base.

(** One turn of the loops: a rule whose id was seen is skipped. *)
Definition once {A} (key : A → string) (out : A → list RouteFirewallRule) (st : gset string * list RouteFirewallRule) (x : A)
    : gset string * list RouteFirewallRule :=
  if decide (key x ∈ st.1) then st else ({[ key x ]} ∪ st.1, st.2 ++ out x).
Definition range_id (idBase : string) (pr : RulePortRange) : string := idBase +:+ Itoa (Start pr) +:+ "-" +:+ Itoa (End_ pr).
Definition generateRulesWithPortRanges (base : RouteFirewallRule) (rule : PolicyRule) (rulesExists : gset string)
    : gset string * list RouteFirewallRule :=
  let idBase := generateRuleIDBase rule base in
  match r_Ports rule with
  | _ :: _ => (rulesExists, [])
  | [] =>
      match r_PortRanges rule with
      | [] => once (λ _, idBase) (λ _, [base]) (rulesExists, []) tt
      | prs => foldl (once (range_id idBase) (λ pr, [with_range pr base])) (rulesExists, []) prs
      end
  end.
Definition port_rules (base : RouteFirewallRule) (port : string) : list RouteFirewallRule :=
  match ParseUint16 port with Some p => [with_port p base] | None => [] end.
Definition generateRulesWithPorts (base : RouteFirewallRule) (rule : PolicyRule) (rulesExists : gset string)
    : gset string * list RouteFirewallRule :=
  foldl (once (λ port, generateRuleIDBase rule base +:+ port) (port_rules base)) (rulesExists, []) (r_Ports rule).

Definition base_route_rule (route : Route) (rule : PolicyRule) (sourceRanges : list string) : RouteFirewallRule :=
  {| srf_PolicyID := r_PolicyID rule; srf_RouteID := rt_ID route; srf_SourceRanges := sourceRanges; srf_Action := r_Action rule;
     srf_Destination := prefix_text (rt_Network route); srf_Protocol := r_Protocol rule; srf_Port := 0; srf_PortRange := no_range;
     srf_Domains := rt_Domains route; srf_IsDynamic := IsDynamic route |}.
Definition generateRouteFirewallRules (route : Route) (rule : PolicyRule) (groupPeers : list Peer) : list RouteFirewallRule :=
  let base := base_route_rule route rule ((λ p, IP_String (IP p) +:+ "/32") <$> groupPeers) in
  match r_Ports rule with
  | [] => (generateRulesWithPortRanges base rule ∅).2
  | _ => (generateRulesWithPorts base rule ∅).2
  end.

(** *** The ports of a rule *)
Lemma once_elem {A} (key : A → string) (out : A → list RouteFirewallRule) l b :
  (∀ x y, x ∈ l → y ∈ l → key x = key y → out x = out y) →
  b ∈ (foldl (once key out) (∅, []) l).2 ↔ ∃ x, x ∈ l ∧ b ∈ out x.
Proof.
  intros Hkey.
  assert (H : ∀ rest done_ st, done_ ++ rest = l → (∀ k, k ∈ st.1 ↔ ∃ x, x ∈ done_ ∧ key x = k) →
    (b ∈ st.2 ↔ ∃ x, x ∈ done_ ∧ b ∈ out x) → b ∈ (foldl (once key out) st rest).2 ↔ ∃ x, x ∈ l ∧ b ∈ out x).
  2:{ apply (H l [] (∅, [])); [done|intros k|]; cbn; set_solver. }
  induction rest as [|x rest IH]; intros done_ st El Hs Hb; cbn [foldl]; [rewrite app_nil_r in El; by subst|].
  apply (IH (done_ ++ [x])); [by rewrite <- app_assoc| |]; unfold once; destruct (decide (key x ∈ st.1)) as [Hin|Hn]; cbn [fst snd].
  - intros k. rewrite Hs. apply Hs in Hin as (y & Hy & Ey). set_solver.
  - intros k. rewrite elem_of_union, elem_of_singleton, Hs. set_solver.
  - rewrite Hb. split; [intros (y & ? & ?); exists y; set_solver|].
    intros (y & [?|Hone%list_elem_of_singleton]%elem_of_app & Hy); [by exists y|]. apply Hs in Hin as (z & Hz & Ez).
    exists z. split; [done|]. rewrite (Hkey z x); [by rewrite <- Hone| | |done]; rewrite <- El; set_solver.
  - rewrite elem_of_app, Hb. set_solver.
Qed.

(** What the rules made of one policy rule carry: a port (0 for none) and a range. *)
Definition port_choices (rule : PolicyRule) : list (Z * RulePortRange) :=
  match r_Ports rule, r_PortRanges rule with
  | [], [] => [(0, no_range)]
  | [], prs => (λ pr, (0, pr)) <$> prs
  | ports, _ => (λ p, (p, no_range)) <$> omap ParseUint16 ports
  end.
Definition ranges_ok (rule : PolicyRule) : Prop := ∀ pr, pr ∈ r_PortRanges rule → 0 ≤ Start pr < 65536 ∧ 0 ≤ End_ pr < 65536.

Lemma range_id_inj i pr pr' : 0 ≤ Start pr → 0 ≤ End_ pr → 0 ≤ Start pr' → 0 ≤ End_ pr' → range_id i pr = range_id i pr' → pr = pr'.
Proof.
  unfold range_id. intros H1 H2 H3 H4 E%(f_equal str). rewrite !str_app in E. apply app_inv_head in E.
  apply (split_inj is_digit) in E as [E1%str_inj [= E2%str_inj]]; auto using pretty_digits, not_digit.
  apply (inj pretty) in E1, E2. destruct pr, pr'. cbn in *. congruence.
Qed.
Lemma generated_rules route rule peers fr : ranges_ok rule →
  fr ∈ generateRouteFirewallRules route rule peers ↔
  ∃ c, c ∈ port_choices rule
    ∧ fr = with_port c.1 (with_range c.2 (base_route_rule route rule ((λ p, IP_String (IP p) +:+ "/32") <$> peers))).
Proof.
  intros Hr. unfold generateRouteFirewallRules, port_choices. set (base := base_route_rule _ _ _).
  destruct (r_Ports rule) as [|p ps] eqn:Ep.
  - unfold generateRulesWithPortRanges. rewrite Ep. unfold ranges_ok in Hr. destruct (r_PortRanges rule) as [|pr prs] eqn:Er.
    + unfold once. cbn [fst snd]. rewrite decide_False by set_solver. cbn. split; [intros ->%list_elem_of_singleton; eexists; split; [by left|done]|].
      intros (c & ->%list_elem_of_singleton & ->). by left.
    + rewrite once_elem.
      * split; [intros (x & Hx & ->%list_elem_of_singleton); exists (0, x); split; [by apply (list_elem_of_fmap_2 (λ pr, (0, pr)))|done]|].
        intros (c & (x & -> & Hx)%list_elem_of_fmap & ->). exists x. split; [done|by left].
      * intros x y Hx Hy E. apply range_id_inj in E as ->; [done|by apply Hr..].
  - unfold generateRulesWithPorts. rewrite Ep. rewrite once_elem.
    + unfold port_rules. split.
      * intros (x & Hx & Hfr). destruct (ParseUint16 x) as [n|] eqn:En; [|by apply not_elem_of_nil in Hfr]. apply list_elem_of_singleton in Hfr as ->.
        exists (n, no_range). split; [|done]. apply (list_elem_of_fmap_2 (λ p, (p, no_range))). apply list_elem_of_omap. by exists x.
      * intros (c & (n & -> & (x & Hx & En)%list_elem_of_omap)%list_elem_of_fmap & ->). exists x. split; [done|]. rewrite En. by left.
    + intros x y _ _ E%(f_equal str). rewrite !str_app in E. by apply app_inv_head, str_inj in E as ->.
Qed.

(** ** account.go *)
(** A policy is listed once per rule that has the group as a destination. *)
Definition GetAllRoutePoliciesFromGroups (a : Account) (accessControlGroups : list string) : list Policy :=
  concat ((λ i, match Groups a !! i with
                | None => []
                | Some group => concat ((λ pol, (λ _, pol) <$> List.filter (λ rule, bool_decide (g_ID group ∈ r_Destinations rule)) (pol_Rules pol))
                                        <$> Policies a)
                end) <$> accessControlGroups).

(** What the computation asks of the account it is made from: the whole account here, the components
    of [MapCalculate] there. *)
Record MapView := {
  vw_peer : string → option Peer;
  vw_router : string → option Peer;                    (* a peer that serves routes *)
  vw_group : string → option Group;
  vw_approved : string → bool;
  vw_posture : list string → string → bool;            (* do the posture checks admit the peer *)
  vw_unique : list string → list string;               (* the members of groups *)
  vw_route_policies : string → list Policy;            (* the policies of an access control group *)
  vw_keyed : bool }.                                   (* disabled routes get the key of their peer, too *)
Definition account_view (a : Account) (v : gset string) : MapView := {|
  vw_peer := GetPeer a; vw_router := GetPeer a; vw_group := GetGroup a; vw_approved p := bool_decide (p ∈ v);
  vw_posture := validatePostureChecksOnPeer a; vw_unique := getUniquePeerIDsFromGroupsIDs a;
  vw_route_policies g := GetAllRoutePoliciesFromGroups a [g]; vw_keyed := false |}.

Section account_routes.
Context (w : MapView) (Routes : list Route) (Key : Peer → string).

(** *** The routes a peer serves *)
Definition set_Peer (p : string) (r : Route) : Route :=
  {| rt_ID := rt_ID r; rt_AccountID := rt_AccountID r; rt_Network := rt_Network r; rt_Domains := rt_Domains r; rt_KeepRoute := rt_KeepRoute r;
     rt_NetID := rt_NetID r; rt_Description := rt_Description r; rt_Peer := p; rt_PeerID := rt_PeerID r; rt_PeerGroups := rt_PeerGroups r;
     rt_NetworkType := rt_NetworkType r; rt_Masquerade := rt_Masquerade r; rt_Metric := rt_Metric r; rt_Enabled := rt_Enabled r;
     rt_Groups := rt_Groups r; rt_AccessControlGroups := rt_AccessControlGroups r; rt_SkipAutoApply := rt_SkipAutoApply r |}.
(** The copy of a route that a member of its peer groups serves. *)
Definition member_route (id : string) (r : Route) : Route :=
  {| rt_ID := rt_ID r +:+ ":" +:+ id; rt_AccountID := rt_AccountID r; rt_Network := rt_Network r; rt_Domains := rt_Domains r;
     rt_KeepRoute := rt_KeepRoute r; rt_NetID := rt_NetID r; rt_Description := rt_Description r; rt_Peer := id; rt_PeerID := rt_PeerID r; rt_PeerGroups := [];
     rt_NetworkType := rt_NetworkType r; rt_Masquerade := rt_Masquerade r; rt_Metric := rt_Metric r; rt_Enabled := rt_Enabled r;
     rt_Groups := rt_Groups r; rt_AccessControlGroups := rt_AccessControlGroups r; rt_SkipAutoApply := rt_SkipAutoApply r |}.

(** Ids seen, enabled routes, disabled routes. *)
Abbreviation taken := (gset string * list Route * list Route)%type.
Definition disabled_copy (peer : Peer) (r : Route) : Route := if vw_keyed w then set_Peer (Key peer) r else r.
Definition takeRoute (peer : Peer) (st : taken) (r : Route) : taken :=
  let '(seenRoute, enabled, disabled) := st in
  if decide (rt_ID r ∈ seenRoute) then st
  else
    let seenRoute := {[ rt_ID r ]} ∪ seenRoute in
    if rt_Enabled r then (seenRoute, enabled ++ [set_Peer (Key peer) r], disabled) else (seenRoute, enabled, disabled ++ [disabled_copy peer r]).
Definition route_group_step (peer : Peer) (peerID : string) (r : Route) (st : taken) (groupID : string) : taken :=
  match vw_group w groupID with
  | None => st
  | Some group => if bool_decide (peerID ∈ g_Peers group) then takeRoute peer st (member_route peerID r) else st
  end.
Definition route_step (peer : Peer) (peerID : string) (st : taken) (r : Route) : taken :=
  let st := foldl (route_group_step peer peerID r) st (rt_PeerGroups r) in
  if bool_decide (rt_Peer r = peerID) then takeRoute peer st r else st.
Definition getRoutingPeerRoutes (peerID : string) : list Route * list Route :=
  match vw_router w peerID with
  | None => ([], [])
  | Some peer => let '(_, enabled, disabled) := foldl (route_step peer peerID) (∅, [], []) Routes in (enabled, disabled)
  end.

(** *** The routes a peer receives *)
Section to_sync.
Context (ToUnicode : string → option string).
Definition NetString (r : Route) : string :=
  if IsDynamic r && negb (bool_decide (rt_Domains r = [])) then List_SafeString ToUnicode (domain_text <$> rt_Domains r)
  else prefix_text (rt_Network r).
Definition GetHAUniqueID (r : Route) : string := rt_NetID r +:+ haSeparator +:+ NetString r.

Definition filterRoutesFromPeersOfSameHAGroup (routes : list Route) (peerMemberships : gset string) : list Route :=
  filter (λ r, GetHAUniqueID r ∉ peerMemberships) routes.
Definition filterRoutesByGroups (routes : list Route) (groupListMap : gset string) : list Route :=
  List.filter (λ r, existsb (λ g, bool_decide (g ∈ groupListMap)) (rt_Groups r)) routes.
Definition GetRoutesToSync (peerID : string) (aclPeers : list Peer) (peerGroups : gset string) : list Route :=
  let '(routes, peerDisabledRoutes) := getRoutingPeerRoutes peerID in
  let peerRoutesMembership : gset string := list_to_set (GetHAUniqueID <$> routes ++ peerDisabledRoutes) in
  routes ++ concat ((λ peer, filterRoutesFromPeersOfSameHAGroup
                               (filterRoutesByGroups (getRoutingPeerRoutes (ID peer)).1 peerGroups) peerRoutesMembership) <$> aclPeers).
End to_sync.

(** *** The firewall rules of a routing peer *)
Definition group_members (ids : list string) : gset string :=
  foldl (λ s i, match vw_group w i with None => s | Some g => s ∪ list_to_set (g_Peers g) end) ∅ ids.
Definition getDistributionGroupsPeers (route : Route) : gset string := group_members (rt_Groups route).

Definition admits_source (postureChecks : list string) (distributionPeers : gset string) (p : string) : bool :=
  bool_decide (p ∈ distributionPeers) && vw_approved w p && vw_posture w postureChecks p.
Definition source_step (postureChecks : list string) (peerID : string) (distributionPeers : gset string) (s : gset string) (pID : string)
    : gset string :=
  if bool_decide (pID = peerID) then s else if admits_source postureChecks distributionPeers pID then {[ pID ]} ∪ s else s.
Definition getRulePeers (rule : PolicyRule) (postureChecks : list string) (peerID : string) (distributionPeers : gset string) : list Peer :=
  let s := foldl (λ s i, match vw_group w i with
                         | None => s
                         | Some g => foldl (source_step postureChecks peerID distributionPeers) s (g_Peers g)
                         end) ∅ (r_Sources rule) in
  let src := r_SourceResource rule in
  let s := if bool_decide (res_Type src = ResourceTypePeer) && negb (bool_decide (res_ID src = ""))
              && admits_source postureChecks distributionPeers (res_ID src)
           then {[ res_ID src ]} ∪ s else s in
  omap (vw_peer w) (elements s).

Definition getRouteFirewallRules (peerID : string) (policies : list Policy) (route : Route) (distributionPeers : gset string)
    : list RouteFirewallRule :=
  concat ((λ pol, if pol_Enabled pol then
                    concat ((λ rule, if r_Enabled rule then
                                       generateRouteFirewallRules route rule (getRulePeers rule (pol_SourcePostureChecks pol) peerID distributionPeers)
                                     else []) <$> pol_Rules pol)
                  else []) <$> policies).

Definition Is6 (p : Prefix) : bool := match p with Some p => px_v6 p | None => false end.
Definition permit (route : Route) (source : string) : RouteFirewallRule :=
  {| srf_PolicyID := ""; srf_RouteID := rt_ID route; srf_SourceRanges := [source]; srf_Action := PolicyTrafficActionAccept;
     srf_Destination := prefix_text (rt_Network route); srf_Protocol := PolicyRuleProtocolALL; srf_Port := 0; srf_PortRange := no_range;
     srf_Domains := rt_Domains route; srf_IsDynamic := IsDynamic route |}.
Definition getDefaultPermit (route : Route) : list RouteFirewallRule :=
  permit route (if Is6 (rt_Network route) then "::/0" else "0.0.0.0/0") :: if IsDynamic route then [permit route "::/0"] else [].

Definition route_rules (peerID : string) (route : Route) : list RouteFirewallRule :=
  match rt_AccessControlGroups route with
  | [] => getDefaultPermit route
  | acgs => concat ((λ g, getRouteFirewallRules peerID (vw_route_policies w g) route (getDistributionGroupsPeers route)) <$> acgs)
  end.
Definition GetPeerRoutesFirewallRules (peerID : string) : list RouteFirewallRule :=
  concat (route_rules peerID <$> (getRoutingPeerRoutes peerID).1).

(** *** Network resources *)
(** The part of a route's id before the first colon. *)
Fixpoint before_colon (s : string) : string :=
  match s with
  | EmptyString => EmptyString
  | String c s => if bool_decide (Ascii.byte_of_ascii c = colon) then EmptyString else String c (before_colon s)
  end.
Definition GetResourceID (r : Route) : string := before_colon (rt_ID r).
Definition getPoliciesSourcePeers (policies : list Policy) : gset string :=
  foldl (λ s pol, foldl (λ s rule,
           let s := s ∪ group_members (r_Sources rule) in
           let src := r_SourceResource rule in
           if bool_decide (res_Type src = ResourceTypePeer) && negb (bool_decide (res_ID src = "")) then {[ res_ID src ]} ∪ s else s)
         s (pol_Rules pol)) ∅ policies.
Definition GetPeerNetworkResourceFirewallRules (peerID key : string) (routes : list Route) (resourcePolicies : gmap string (list Policy))
    : list RouteFirewallRule :=
  concat ((λ route,
    if bool_decide (rt_Peer route = key) then
      let policies := default [] (resourcePolicies !! GetResourceID route) in
      List.filter (λ rule, negb (bool_decide (srf_SourceRanges rule = [])))
        (getRouteFirewallRules peerID policies route (getPoliciesSourcePeers policies))
    else []) <$> routes).

(** ** What these functions compute *)
Lemma group_members_elem p ids : p ∈ group_members ids ↔ ∃ i g, i ∈ ids ∧ vw_group w i = Some g ∧ p ∈ g_Peers g.
Proof using Type.
  assert (H : ∀ s : gset string, p ∈ foldl (λ s i, match vw_group w i with None => s | Some g => s ∪ list_to_set (g_Peers g) end) s ids
    ↔ p ∈ s ∨ ∃ i g, i ∈ ids ∧ vw_group w i = Some g ∧ p ∈ g_Peers g); [|unfold group_members; rewrite H; set_solver].
  induction ids as [|i ids IH]; intros s; cbn [foldl]; [set_solver|]. rewrite IH. destruct (vw_group w i) as [g|] eqn:E.
  - rewrite elem_of_union, elem_of_list_to_set. split.
    + intros [[?|?]|(j & g' & ? & ? & ?)]; [by left|right; exists i, g; set_solver|right; exists j, g'; set_solver].
    + intros [?|(j & g' & [->|?]%elem_of_cons & Eg & ?)]; [by left; left| |right; by exists j, g'].
      rewrite E in Eg. injection Eg as <-. by left; right.
  - split; [intros [?|(j & g' & ? & ? & ?)]; [by left|right; exists j, g'; set_solver]|].
    intros [?|(j & g' & [->|?]%elem_of_cons & Eg & ?)]; [by left|congruence|right; by exists j, g'].
Qed.

(** The peers a rule of a policy lets into a route that [peerID] serves. *)
Definition rule_source (checks : list string) (rule : PolicyRule) (peerID : string) (dist : gset string) (p : string) : Prop :=
  p ∈ dist ∧ vw_approved w p = true ∧ vw_posture w checks p = true
  ∧ (p ≠ peerID ∧ (∃ i g, i ∈ r_Sources rule ∧ vw_group w i = Some g ∧ p ∈ g_Peers g)
     ∨ res_Type (r_SourceResource rule) = ResourceTypePeer ∧ res_ID (r_SourceResource rule) ≠ "" ∧ p = res_ID (r_SourceResource rule)).

Lemma admits_source_spec checks dist p : admits_source checks dist p = true ↔ p ∈ dist ∧ vw_approved w p = true ∧ vw_posture w checks p = true.
Proof using Type. unfold admits_source. rewrite !andb_true_iff, !bool_decide_eq_true. tauto. Qed.
Lemma source_steps checks peerID dist p ps s :
  p ∈ foldl (source_step checks peerID dist) s ps ↔ p ∈ s ∨ p ∈ ps ∧ p ≠ peerID ∧ admits_source checks dist p = true.
Proof using Type.
  revert s. induction ps as [|x ps IH]; intros s; cbn [foldl]; [set_solver|]. rewrite IH. unfold source_step.
  destruct (bool_decide_reflect (x = peerID)) as [->|Hne]; [set_solver|]. destruct (admits_source checks dist x) eqn:E; [set_solver|].
  rewrite elem_of_cons. split; [tauto|]. intros [?|([->|?] & ? & ?)]; [by left|congruence|by right].
Qed.
Lemma getRulePeers_elem rule checks peerID dist q :
  q ∈ getRulePeers rule checks peerID dist ↔ ∃ p, vw_peer w p = Some q ∧ rule_source checks rule peerID dist p.
Proof using Type.
  clear Key. unfold getRulePeers. rewrite list_elem_of_omap. setoid_rewrite elem_of_elements.
  set (s0 := foldl _ ∅ (r_Sources rule)).
  assert (Hs : ∀ p, p ∈ s0 ↔ admits_source checks dist p = true ∧ p ≠ peerID ∧ ∃ i g, i ∈ r_Sources rule ∧ vw_group w i = Some g ∧ p ∈ g_Peers g).
  { intros p. subst s0. assert (H : ∀ ids (s : gset string), p ∈ foldl (λ s i, match vw_group w i with None => s
      | Some g => foldl (source_step checks peerID dist) s (g_Peers g) end) s ids
      ↔ p ∈ s ∨ (admits_source checks dist p = true ∧ p ≠ peerID ∧ ∃ i g, i ∈ ids ∧ vw_group w i = Some g ∧ p ∈ g_Peers g)).
    { induction ids as [|i ids IH]; intros s; cbn [foldl]; [set_solver|]. rewrite IH. destruct (vw_group w i) as [g|] eqn:E.
      - rewrite source_steps. split.
        + intros [[?|(? & ? & ?)]|(? & ? & j & g' & ? & ? & ?)]; [by left|right; split_and!; [done..|]; exists i, g; set_solver|].
          right. split_and!; [done..|]. exists j, g'. set_solver.
        + intros [?|(? & ? & j & g' & [->|?]%elem_of_cons & Eg & ?)]; [by left; left| |right; split_and!; [done..|]; by exists j, g'].
          rewrite E in Eg. injection Eg as <-. by left; right.
      - split; [intros [?|(? & ? & j & g' & ? & ? & ?)]; [by left|right; split_and!; [done..|]; exists j, g'; set_solver]|].
        intros [?|(? & ? & j & g' & [->|?]%elem_of_cons & Eg & ?)]; [by left|congruence|right; split_and!; [done..|]; by exists j, g']. }
    rewrite H. set_solver. }
  assert (Hp : ∀ p, p ∈ (if bool_decide (res_Type (r_SourceResource rule) = ResourceTypePeer) && negb (bool_decide (res_ID (r_SourceResource rule) = ""))
              && admits_source checks dist (res_ID (r_SourceResource rule)) then {[ res_ID (r_SourceResource rule) ]} ∪ s0 else s0)
              ↔ rule_source checks rule peerID dist p).
  { intros p. unfold rule_source. rewrite !(assoc (∧)), <- (assoc (∧) (p ∈ dist)), <- admits_source_spec. destruct (bool_decide_reflect (res_Type (r_SourceResource rule) = ResourceTypePeer)) as [H1|H1];
      destruct (bool_decide_reflect (res_ID (r_SourceResource rule) = "")) as [H2|H2];
      destruct (admits_source checks dist (res_ID (r_SourceResource rule))) eqn:E; cbn [andb negb];
      rewrite ?elem_of_union, ?elem_of_singleton, Hs; intuition (subst; congruence). }
  setoid_rewrite Hp. naive_solver.
Qed.

(** *** The routes a peer serves *)
(** The copies [peerID] may serve of a route. *)
Definition serves (peerID : string) (r r' : Route) : Prop :=
  r' = member_route peerID r ∧ (∃ i g, i ∈ rt_PeerGroups r ∧ vw_group w i = Some g ∧ peerID ∈ g_Peers g) ∨ r' = r ∧ rt_Peer r = peerID.
Definition copies (peerID : string) (r : Route) : list Route :=
  omap (λ i, g ← vw_group w i; if bool_decide (peerID ∈ g_Peers g) then Some (member_route peerID r) else None) (rt_PeerGroups r)
  ++ (if bool_decide (rt_Peer r = peerID) then [r] else []).
Lemma copies_elem peerID r r' : r' ∈ copies peerID r ↔ serves peerID r r'.
Proof using Type.
  unfold copies, serves. rewrite elem_of_app, list_elem_of_omap.
  assert (H1 : (∃ i, i ∈ rt_PeerGroups r ∧ (g ← vw_group w i; if bool_decide (peerID ∈ g_Peers g) then Some (member_route peerID r) else None) = Some r')
    ↔ r' = member_route peerID r ∧ ∃ i g, i ∈ rt_PeerGroups r ∧ vw_group w i = Some g ∧ peerID ∈ g_Peers g).
  { split.
    - intros (i & Hi & E). destruct (vw_group w i) as [g|] eqn:Eg; [|done]. cbn in E. case_bool_decide as Hin; [|done]. injection E as <-.
      split; [done|]. by exists i, g.
    - intros (-> & i & g & Hi & Eg & Hin). exists i. split; [done|]. rewrite Eg. cbn. by rewrite bool_decide_eq_true_2. }
  rewrite H1. destruct (bool_decide_reflect (rt_Peer r = peerID)); set_solver.
Qed.
Lemma route_step_copies peer peerID st r : route_step peer peerID st r = foldl (takeRoute peer) st (copies peerID r).
Proof using Type.
  unfold route_step, copies. rewrite foldl_app.
  assert (H : ∀ ids st, foldl (route_group_step peer peerID r) st ids = foldl (takeRoute peer) st
    (omap (λ i, g ← vw_group w i; if bool_decide (peerID ∈ g_Peers g) then Some (member_route peerID r) else None) ids)).
  { induction ids as [|i ids IH]; intros st'; cbn [foldl omap list_omap]; [done|]. rewrite IH. unfold route_group_step.
    destruct (vw_group w i) as [g|]; [|done]. cbn. by destruct (bool_decide _). }
  rewrite H. by destruct (bool_decide (rt_Peer r = peerID)).
Qed.
Lemma take_elem peer l : (∀ x y, x ∈ l → y ∈ l → rt_ID x = rt_ID y → x = y) →
  let st := foldl (takeRoute peer) (∅, [], []) l in
  (∀ x, x ∈ st.1.2 ↔ ∃ r, r ∈ l ∧ rt_Enabled r = true ∧ x = set_Peer (Key peer) r)
  ∧ (∀ x, x ∈ st.2 ↔ ∃ r, r ∈ l ∧ rt_Enabled r = false ∧ x = disabled_copy peer r).
Proof using Type.
  intros Hid. cbv zeta.
  assert (H : ∀ rest done_ st, done_ ++ rest = l → (∀ k, k ∈ st.1.1 ↔ ∃ x, x ∈ done_ ∧ rt_ID x = k) →
    (∀ x, x ∈ st.1.2 ↔ ∃ r, r ∈ done_ ∧ rt_Enabled r = true ∧ x = set_Peer (Key peer) r) →
    (∀ x, x ∈ st.2 ↔ ∃ r, r ∈ done_ ∧ rt_Enabled r = false ∧ x = disabled_copy peer r) →
    let st' := foldl (takeRoute peer) st rest in
    (∀ x, x ∈ st'.1.2 ↔ ∃ r, r ∈ l ∧ rt_Enabled r = true ∧ x = set_Peer (Key peer) r) ∧ (∀ x, x ∈ st'.2 ↔ ∃ r, r ∈ l ∧ rt_Enabled r = false ∧ x = disabled_copy peer r)).
  2:{ apply (H l [] (∅, [], [])); [done|..]; cbn; clear; set_solver. }
  cbv zeta. induction rest as [|x rest IH]; intros done_ [[seen en] dis] El Hs He Hd; cbn [foldl]; [rewrite app_nil_r in El; by subst|].
  cbn [fst snd] in *. unfold takeRoute at 2 4. cbv beta iota. destruct (decide (rt_ID x ∈ seen)) as [Hin|Hn].
  - apply Hs in Hin as (y & Hy & Ey). assert (y = x) as -> by (apply Hid; [| |done]; rewrite <- El, elem_of_app; [by left|right; by left]).
    apply (IH (done_ ++ [x])); cbn [fst snd]; [by rewrite <- app_assoc|..]; [intros k; rewrite Hs|intros z; rewrite He|intros z; rewrite Hd]; clear -Hy; set_solver.
  - destruct (rt_Enabled x) eqn:Ex; apply (IH (done_ ++ [x])); cbn [fst snd]; try (by rewrite <- app_assoc).
    + intros k. rewrite elem_of_union, elem_of_singleton, Hs. clear; set_solver.
    + intros z. rewrite elem_of_app, He, list_elem_of_singleton. clear -Ex; set_solver.
    + intros z. rewrite Hd. split; [clear; set_solver|]. intros (r & [?|Hone%list_elem_of_singleton]%elem_of_app & ? & ?); [by exists r|congruence].
    + intros k. rewrite elem_of_union, elem_of_singleton, Hs. clear; set_solver.
    + intros z. rewrite He. split; [clear; set_solver|]. intros (r & [?|Hone%list_elem_of_singleton]%elem_of_app & ? & ?); [by exists r|congruence].
    + intros z. rewrite elem_of_app, Hd, list_elem_of_singleton. clear -Ex; set_solver.
Qed.

(** The ids of routes are unique and have no colon. *)
Definition route_ids_ok : Prop :=
  (∀ r r', r ∈ Routes → r' ∈ Routes → rt_ID r = rt_ID r' → r = r')
  ∧ ∀ r r' p, r ∈ Routes → r' ∈ Routes → rt_ID r ≠ rt_ID r' +:+ ":" +:+ p.

Lemma routing_peer_routes (Hids : route_ids_ok) peerID :
  (∀ x, x ∈ (getRoutingPeerRoutes peerID).1 ↔ ∃ peer r r', vw_router w peerID = Some peer ∧ r ∈ Routes ∧ serves peerID r r' ∧ rt_Enabled r = true
          ∧ x = set_Peer (Key peer) r')
  ∧ (∀ x, x ∈ (getRoutingPeerRoutes peerID).2 ↔ ∃ peer r r', vw_router w peerID = Some peer ∧ r ∈ Routes ∧ serves peerID r r'
          ∧ rt_Enabled r = false ∧ x = disabled_copy peer r').
Proof using Type.
  destruct Hids as [Hid Hcolon]. unfold getRoutingPeerRoutes. destruct (vw_router w peerID) as [peer|]; [|split; intros x; cbn; set_solver].
  assert (Hf : foldl (route_step peer peerID) (∅, [], []) Routes = foldl (takeRoute peer) (∅, [], []) (concat (copies peerID <$> Routes))).
  { generalize (∅ : gset string, @nil Route, @nil Route). clear. induction Routes as [|r rs IH]; intros st; cbn; [done|].
    by rewrite foldl_app, IH, route_step_copies. }
  rewrite Hf. assert (Hin : ∀ x, x ∈ concat (copies peerID <$> Routes) ↔ ∃ r, r ∈ Routes ∧ serves peerID r x).
  { intros x. rewrite concat_fmap_elem. by setoid_rewrite copies_elem. }
  assert (Hen : ∀ r r', serves peerID r r' → rt_Enabled r' = rt_Enabled r) by (by intros r r' [[-> _]|[-> _]]).
  pose proof (take_elem peer (concat (copies peerID <$> Routes))) as Ht. destruct (foldl (takeRoute peer) _ _) as [[seen en] dis]. cbn [fst snd] in *.
  destruct Ht as [He Hd].
  { intros x y (r & Hr & Hx)%Hin (r' & Hr' & Hy)%Hin E. destruct Hx as [[-> _]|[-> _]], Hy as [[-> _]|[-> _]]; cbn in E.
    - apply append_inj_r in E. by rewrite (Hid r r').
    - by destruct (Hcolon r' r peerID).
    - by destruct (Hcolon r r' peerID).
    - by apply Hid. }
  split; intros x; [rewrite He|rewrite Hd].
  - split.
    + intros (r' & (r & Hr & Hs)%Hin & Ee & ->). exists peer, r, r'. rewrite <- (Hen r r'); done.
    + intros (peer' & r & r' & [= <-] & Hr & Hs & Ee & ->). exists r'. split; [apply Hin; by exists r|]. by rewrite (Hen r r').
  - split.
    + intros (r' & (r & Hr & Hs)%Hin & Ee & ->). exists peer, r, r'. rewrite <- (Hen r r'); done.
    + intros (peer' & r & r' & [= <-] & Hr & Hs & Ee & ->). exists r'. split; [apply Hin; by exists r|]. by rewrite (Hen r r').
Qed.
(** The routes a peer receives: its own, and those of the connected peers that are given to one of
    its groups, unless it serves their network itself. *)
Lemma routes_to_sync_elem ToUnicode peerID aclPeers peerGroups x :
  x ∈ GetRoutesToSync ToUnicode peerID aclPeers peerGroups ↔
  x ∈ (getRoutingPeerRoutes peerID).1
  ∨ ∃ p, p ∈ aclPeers ∧ x ∈ (getRoutingPeerRoutes (ID p)).1 ∧ (∃ g, g ∈ rt_Groups x ∧ g ∈ peerGroups)
      ∧ ¬ ∃ y, y ∈ (getRoutingPeerRoutes peerID).1 ++ (getRoutingPeerRoutes peerID).2 ∧ GetHAUniqueID ToUnicode x = GetHAUniqueID ToUnicode y.
Proof using Type.
  unfold GetRoutesToSync. destruct (getRoutingPeerRoutes peerID) as [own disabled]. cbn [fst snd]. rewrite elem_of_app, concat_fmap_elem.
  apply or_iff_compat_l. unfold filterRoutesFromPeersOfSameHAGroup. setoid_rewrite list_elem_of_filter.
  assert (Hg : ∀ l, x ∈ filterRoutesByGroups l peerGroups ↔ x ∈ l ∧ ∃ g, g ∈ rt_Groups x ∧ g ∈ peerGroups).
  { intros l. unfold filterRoutesByGroups. rewrite list_elem_of_In, filter_In, existsb_exists, <- list_elem_of_In.
    setoid_rewrite <- list_elem_of_In. by setoid_rewrite bool_decide_eq_true. }
  setoid_rewrite Hg. setoid_rewrite elem_of_list_to_set. setoid_rewrite list_elem_of_fmap.
  assert (Hy : (∃ y, GetHAUniqueID ToUnicode x = GetHAUniqueID ToUnicode y ∧ y ∈ own ++ disabled)
    ↔ ∃ y, y ∈ own ++ disabled ∧ GetHAUniqueID ToUnicode x = GetHAUniqueID ToUnicode y) by (clear; naive_solver).
  setoid_rewrite Hy. clear. naive_solver.
Qed.
End account_routes.
