(* ===== verification/ResourceMap.v ===== *)
(** Network resources in a network map: which peers route a resource, which peers get its routes,
    and who is added to whose list of peers, from [src/management/server/types/account.go] and
    [src/management/server/networks/resources/types/resource.go].

    [MapView] is what the computation reads of the account.  [Resources] and [Routers] are [Account.NetworkResources] and [Account.NetworkRouters]; maps are
    ranged over in the order of [map_to_list], and the theorems are about membership only.  A nil
    route, which [ToRoute] returns when it cannot convert the domain, is [None]. *)
From S2P Require Import Prelude GoText NetIP Domains AccessPolicy AccountObjects MapComponents RouteMap.
Open Scope Z_scope.

Definition placeholder : prefix := {| px_v6 := false; px_addr := 0xC0000200; px_bits := 32 |}.   (* 192.0.2.0/32 *)

Abbreviation routers_map := (gmap string (gmap string NetworkRouter)).

Section to_route.
Context (Key : Peer → string) (ToASCII : bytes → option bytes).
(** ** resource.go *)
Definition ToRoute (n : NetworkResource) (peer : Peer) (router : NetworkRouter) : option Route :=
  let r net domains ty :=
    {| rt_ID := nr_ID n +:+ ":" +:+ ID peer; rt_AccountID := nr_AccountID n; rt_Network := net; rt_Domains := domains; rt_KeepRoute := true;
       rt_NetID := nr_Name n; rt_Description := nr_Description n; rt_Peer := Key peer; rt_PeerID := ID peer; rt_PeerGroups := [];
       rt_NetworkType := ty; rt_Masquerade := ro_Masquerade router; rt_Metric := ro_Metric router; rt_Enabled := nr_Enabled n;
       rt_Groups := []; rt_AccessControlGroups := []; rt_SkipAutoApply := false |} in
  match nr_Type n with
  | Host | Subnet => Some (r (nr_Prefix n) [] (if Is6 (nr_Prefix n) then IPv6Network else IPv4Network))
  | Domain => d ← FromString ToASCII (nr_Domain n); Some (r (Some placeholder) [d] DomainNetwork)
  end.
End to_route.

Section account_resources.
Context (a : Account) (Resources : list NetworkResource) (Routers : list NetworkRouter).

(** ** The policies of a resource *)
Definition getNetworkResourceGroups (resourceID : string) : list Group :=
  concat ((λ x, (λ _, x.2) <$> List.filter (λ r, bool_decide (res_ID r = resourceID)) (g_Resources x.2)) <$> map_to_list (Groups a)).
(** The rules of one policy: a destination resource ends the loop, a destination group does not. *)
Fixpoint rule_hits (resourceId : string) (groups : list Group) (pol : Policy) (rules : list PolicyRule) : list Policy :=
  match rules with
  | [] => []
  | rule :: rules =>
      if negb (r_Enabled rule) then rule_hits resourceId groups pol rules
      else if bool_decide (res_ID (r_DestinationResource rule) = resourceId) then [pol]
      else (if existsb (λ g, bool_decide (g_ID g ∈ r_Destinations rule)) groups then [pol] else []) ++ rule_hits resourceId groups pol rules
  end.
Definition GetPoliciesForNetworkResource (resourceId : string) : list Policy :=
  let groups := getNetworkResourceGroups resourceId in
  concat ((λ pol, if negb (pol_Enabled pol) then [] else rule_hits resourceId groups pol (pol_Rules pol)) <$> Policies a).
Definition GetResourcePoliciesMap : gmap string (list Policy) :=
  foldl (λ m r, if negb (nr_Enabled r) then m else <[nr_ID r := GetPoliciesForNetworkResource (nr_ID r)]> m) ∅ Resources.

Definition getNetworkResources (networkID : string) : list NetworkResource :=
  List.filter (λ r, bool_decide (nr_NetworkID r = networkID)) Resources.
Definition GetPoliciesAppliedInNetwork (networkID : string) : gset string :=
  list_to_set (concat ((λ r, pol_ID <$> GetPoliciesForNetworkResource (nr_ID r)) <$> getNetworkResources networkID)).

(** ** The routers of a network *)
Definition add_router (router : NetworkRouter) (m : routers_map) (p : string) : routers_map :=
  <[ro_NetworkID router := <[p := router]> (default ∅ (m !! ro_NetworkID router))]> m.
Definition router_step (m : routers_map) (router : NetworkRouter) : routers_map :=
  if negb (ro_Enabled router) then m
  else
    let m := match m !! ro_NetworkID router with None => <[ro_NetworkID router := ∅]> m | Some _ => m end in
    if negb (bool_decide (ro_Peer router = "")) then add_router router m (ro_Peer router)
    else foldl (λ m i, match Groups a !! i with None => m | Some g => foldl (add_router router) m (g_Peers g) end) m (ro_PeerGroups router).
Definition GetResourceRoutersMap : routers_map := foldl router_step ∅ Routers.

(** *** Policies *)
(** The policy is about the resource. *)
Definition applies (pol : Policy) (resourceId : string) : Prop :=
  pol ∈ Policies a ∧ pol_Enabled pol = true ∧ ∃ rule, rule ∈ pol_Rules pol ∧ r_Enabled rule = true
    ∧ (res_ID (r_DestinationResource rule) = resourceId
       ∨ ∃ i g r, Groups a !! i = Some g ∧ r ∈ g_Resources g ∧ res_ID r = resourceId ∧ g_ID g ∈ r_Destinations rule).
Lemma resource_groups_elem resourceId g :
  g ∈ getNetworkResourceGroups resourceId ↔ ∃ i r, Groups a !! i = Some g ∧ r ∈ g_Resources g ∧ res_ID r = resourceId.
Proof using Type.
  unfold getNetworkResourceGroups. rewrite concat_fmap_elem. split.
  - intros ([i g'] & Hi%elem_of_map_to_list & (r & -> & Hr)%list_elem_of_fmap). cbn in *.
    rewrite list_elem_of_In, filter_In, <- list_elem_of_In, bool_decide_eq_true in Hr. exists i, r. naive_solver.
  - intros (i & r & Hi & Hr & E). exists (i, g). split; [by apply elem_of_map_to_list|]. apply list_elem_of_fmap. exists r. split; [done|].
    by rewrite list_elem_of_In, filter_In, <- list_elem_of_In, bool_decide_eq_true.
Qed.
Lemma rule_hits_elem resourceId groups pol rules pol' : pol' ∈ rule_hits resourceId groups pol rules ↔
  pol' = pol ∧ ∃ rule, rule ∈ rules ∧ r_Enabled rule = true
    ∧ (res_ID (r_DestinationResource rule) = resourceId ∨ ∃ g, g ∈ groups ∧ g_ID g ∈ r_Destinations rule).
Proof using Type.
  induction rules as [|rule rules IH]; cbn [rule_hits]; [split; [by intros ?%not_elem_of_nil|by intros (_ & ? & ?%not_elem_of_nil & _)]|].
  rewrite exists_in_cons. destruct (r_Enabled rule) eqn:Ee; cbn [negb]; [|rewrite IH; intuition congruence].
  destruct (bool_decide_reflect (res_ID (r_DestinationResource rule) = resourceId)) as [Hd|Hd].
  - rewrite list_elem_of_singleton. intuition.
  - assert (Hg : existsb (λ g, bool_decide (g_ID g ∈ r_Destinations rule)) groups = true ↔ ∃ g, g ∈ groups ∧ g_ID g ∈ r_Destinations rule).
    { rewrite existsb_exists. setoid_rewrite bool_decide_eq_true. by setoid_rewrite list_elem_of_In. }
    rewrite elem_of_app, IH. destruct (existsb _ groups).
    + rewrite list_elem_of_singleton. intuition.
    + assert (Hn : ¬ ∃ g, g ∈ groups ∧ g_ID g ∈ r_Destinations rule) by (intros ?%Hg; done). split.
      * intros [?%not_elem_of_nil|[-> ?]]; [done|]. split; [done|by right].
      * intros [-> [(_ & [?|?])|?]]; [done..|]. by right.
Qed.
Lemma resource_policies_elem resourceId pol : pol ∈ GetPoliciesForNetworkResource resourceId ↔ applies pol resourceId.
Proof using Type.
  unfold GetPoliciesForNetworkResource, applies. rewrite concat_fmap_elem.
  split.
  - intros (pol' & Hp & H). destruct (pol_Enabled pol') eqn:Ee; cbn [negb] in H; [|by apply not_elem_of_nil in H].
    apply rule_hits_elem in H as (-> & rule & Hr & Er & Hd). split; [done|]. split; [done|]. exists rule. split; [done|]. split; [done|].
    destruct Hd as [?|(g & (i & r & ? & ? & ?)%resource_groups_elem & ?)]; [by left|]. right. by exists i, g, r.
  - intros (Hp & Ee & rule & Hr & Er & Hd). exists pol. split; [done|]. rewrite Ee. cbn [negb]. apply rule_hits_elem. split; [done|].
    exists rule. split; [done|]. split; [done|]. destruct Hd as [?|(i & g & r & ? & ? & ? & ?)]; [by left|]. right. exists g. split; [|done].
    apply resource_groups_elem. by exists i, r.
Qed.
Lemma resource_policies_lookup r : r ∈ Resources → nr_Enabled r = true →
  GetResourcePoliciesMap !! nr_ID r = Some (GetPoliciesForNetworkResource (nr_ID r)).
Proof using Type.
  unfold GetResourcePoliciesMap.
  assert (H : ∀ rs (m : gmap string (list Policy)), (m !! nr_ID r = Some (GetPoliciesForNetworkResource (nr_ID r)) ∨ r ∈ rs) → nr_Enabled r = true →
    foldl (λ (m : gmap string (list Policy)) r, if negb (nr_Enabled r) then m else <[nr_ID r := GetPoliciesForNetworkResource (nr_ID r)]> m) m rs !! nr_ID r
    = Some (GetPoliciesForNetworkResource (nr_ID r))).
  { induction rs as [|x rs IH]; intros m Hm He; cbn [foldl]; [destruct Hm as [?|?%not_elem_of_nil]; done|]. apply IH; [|done].
    destruct (decide (nr_ID x = nr_ID r)) as [E|Hne].
    - destruct (nr_Enabled x) eqn:Ex; cbn [negb]; [left; rewrite E; by rewrite lookup_insert_eq|].
      destruct Hm as [?|[->|?]%elem_of_cons]; [by left|congruence|by right].
    - destruct Hm as [Hm|[->|?]%elem_of_cons]; [left|done|by right]. destruct (nr_Enabled x); cbn [negb]; [|done]. by rewrite lookup_insert_ne. }
  intros Hin He. apply H; [by right|done].
Qed.
Lemma resource_policies_have_rules r pol : r ∈ Resources → nr_Enabled r = true →
  pol ∈ default [] (GetResourcePoliciesMap !! nr_ID r) → pol_Rules pol ≠ [].
Proof using Type.
  intros Hr He. rewrite (resource_policies_lookup r Hr He). cbn. intros (_ & _ & rule & H & _)%resource_policies_elem E. rewrite E in H. by apply not_elem_of_nil in H.
Qed.

(** *** Routers *)
(** The peer is a router of the network: by itself or as a member of a group. *)
Definition router_peer (router : NetworkRouter) (p : string) : Prop :=
  if bool_decide (ro_Peer router = "") then ∃ i g, i ∈ ro_PeerGroups router ∧ Groups a !! i = Some g ∧ p ∈ g_Peers g else p = ro_Peer router.
Definition router_here (m : routers_map) (n p : string) : Prop := is_Some (default ∅ (m !! n) !! p).
Lemma add_router_here router m p n q : router_here (add_router router m p) n q ↔ router_here m n q ∨ n = ro_NetworkID router ∧ q = p.
Proof using Type.
  unfold router_here, add_router. destruct (decide (n = ro_NetworkID router)) as [->|Hn].
  - rewrite lookup_insert_eq. cbn [from_option id]. destruct (decide (q = p)) as [->|Hq].
    + rewrite lookup_insert_eq. split; [intros _; by right|by eexists].
    + rewrite lookup_insert_ne by done. split; [by left|]. by intros [?|[_ ?]].
  - rewrite lookup_insert_ne by done. split; [by left|]. by intros [?|[? _]].
Qed.
Lemma router_step_here m router n q :
  router_here (router_step m router) n q ↔ router_here m n q ∨ ro_Enabled router = true ∧ n = ro_NetworkID router ∧ router_peer router q.
Proof using Type.
  unfold router_step, router_peer. destruct (ro_Enabled router); cbn [negb]; [|intuition congruence].
  set (m0 := match m !! ro_NetworkID router with None => _ | Some _ => m end).
  assert (H0 : router_here m0 n q ↔ router_here m n q).
  { unfold m0, router_here. destruct (m !! ro_NetworkID router) eqn:E; [done|].
    destruct (decide (n = ro_NetworkID router)) as [->|]; [by rewrite lookup_insert_eq, E|by rewrite lookup_insert_ne]. }
  destruct (bool_decide (ro_Peer router = "")); cbn [negb]; [|rewrite add_router_here, H0; intuition].
  assert (Hp : ∀ ps m, router_here (foldl (add_router router) m ps) n q ↔ router_here m n q ∨ n = ro_NetworkID router ∧ q ∈ ps).
  { induction ps as [|x ps IH]; intros m'; cbn [foldl]; [rewrite elem_of_nil; tauto|]. rewrite IH, add_router_here, elem_of_cons. tauto. }
  assert (Hg : ∀ ids m, router_here (foldl (λ m i, match Groups a !! i with None => m | Some g => foldl (add_router router) m (g_Peers g) end) m ids) n q
    ↔ router_here m n q ∨ n = ro_NetworkID router ∧ ∃ i, i ∈ ids ∧ ∃ g, Groups a !! i = Some g ∧ q ∈ g_Peers g).
  { induction ids as [|i ids IH]; intros m'; cbn [foldl].
    - split; [by left|]. by intros [?|(_ & i & ?%not_elem_of_nil & _)].
    - rewrite IH, exists_in_cons. destruct (Groups a !! i) as [g|]; [rewrite Hp|].
      + assert (Hs : (∃ g0, Some g = Some g0 ∧ q ∈ g_Peers g0) ↔ q ∈ g_Peers g) by naive_solver. rewrite Hs. tauto.
      + assert (Hs : ¬ ∃ g0, None = Some g0 ∧ q ∈ g_Peers g0) by naive_solver. tauto. }
  rewrite Hg, H0. assert (Hx : (∃ i g, i ∈ ro_PeerGroups router ∧ Groups a !! i = Some g ∧ q ∈ g_Peers g)
    ↔ ∃ i, i ∈ ro_PeerGroups router ∧ ∃ g, Groups a !! i = Some g ∧ q ∈ g_Peers g) by (clear; naive_solver). rewrite Hx. tauto.
Qed.
Lemma routers_map_spec n q :
  router_here GetResourceRoutersMap n q ↔ ∃ router, router ∈ Routers ∧ ro_Enabled router = true ∧ n = ro_NetworkID router ∧ router_peer router q.
Proof using Type.
  unfold GetResourceRoutersMap. assert (H : ∀ rs m, router_here (foldl router_step m rs) n q
    ↔ router_here m n q ∨ ∃ router, router ∈ rs ∧ ro_Enabled router = true ∧ n = ro_NetworkID router ∧ router_peer router q).
  { induction rs as [|r rs IH]; intros m; cbn [foldl]; [split; [by left|by intros [?|(? & ?%not_elem_of_nil & _)]]|].
    rewrite IH, router_step_here, exists_in_cons. tauto. }
  rewrite H. split; [|by right]. intros [[x Hx]|?]; [|done]. by rewrite lookup_empty in Hx.
Qed.
End account_resources.

Section resources.
Context (w : MapView) (to_route : NetworkResource → Peer → NetworkRouter → option Route) (Resources : list NetworkResource).

(** ** The routes of a peer *)
Definition getPostureValidPeers (inputPeers postureChecksIDs : list string) : list string :=
  List.filter (vw_posture w postureChecksIDs) inputPeers.
Section sync.
Context (resourcePolicies : gmap string (list Policy)) (routers : routers_map).

Definition getNetworkResourcesRoutes (resource : NetworkResource) (peerId : string) (router : NetworkRouter) : list (option Route) :=
  match default [] (resourcePolicies !! nr_ID resource) with
  | [] => []
  | _ => match vw_peer w peerId with Some peer => [to_route resource peer router] | None => [] end
  end.
(** The source peers of a policy, as its first rule decides. *)
Definition policy_sources (pol : Policy) : outcome unit (list string) :=
  src ← first_source pol;
  Ret (match src with Some p => [p] | None => vw_unique w (SourceGroups pol) end).
Fixpoint policy_loop (peerID : string) (addSourcePeers : bool) (all : list (option Route)) (pols : list Policy)
    (routes : list (option Route)) (srcs : gset string) : outcome unit (list (option Route) * gset string) :=
  match pols with
  | [] => Ret (routes, srcs)
  | pol :: pols =>
      peers ← policy_sources pol;
      if addSourcePeers then
        policy_loop peerID addSourcePeers all pols routes (list_to_set (getPostureValidPeers peers (pol_SourcePostureChecks pol)) ∪ srcs)
      else if bool_decide (peerID ∈ peers) && vw_posture w (pol_SourcePostureChecks pol) peerID then Ret (routes ++ all, srcs)
      else policy_loop peerID addSourcePeers all pols routes srcs
  end.
Abbreviation synced := (bool * list (option Route) * gset string)%type.
Definition resource_step (peerID : string) (st : synced) (resource : NetworkResource) : outcome unit synced :=
  let '(isRoutingPeer, routes, srcs) := st in
  if negb (nr_Enabled resource) then Ret st
  else
    let networkRoutingPeers := default ∅ (routers !! nr_NetworkID resource) in
    let '(isRoutingPeer, addSourcePeers, routes) :=
      match networkRoutingPeers !! peerID with
      | Some router => (true, true, routes ++ getNetworkResourcesRoutes resource peerID router)
      | None => (isRoutingPeer, false, routes)
      end in
    let all := concat ((λ x, getNetworkResourcesRoutes resource x.1 x.2) <$> map_to_list networkRoutingPeers) in
    x ← policy_loop peerID addSourcePeers all (default [] (resourcePolicies !! nr_ID resource)) routes srcs;
    Ret (isRoutingPeer, x.1, x.2).
Fixpoint resource_steps (peerID : string) (st : synced) (rs : list NetworkResource) : outcome unit synced :=
  match rs with [] => Ret st | r :: rs => st ← resource_step peerID st r; resource_steps peerID st rs end.
Definition GetNetworkResourcesRoutesToSync (peerID : string) : outcome unit synced := resource_steps peerID (false, [], ∅) Resources.
End sync.

(** ** The peers a peer connects to *)
Definition addNetworksRoutingPeers (networkResourcesRoutes : list (option Route)) (peerID : string) (peersToConnect expiredPeers : list Peer)
    (isRouter : bool) (sourcePeers : gset string) : outcome unit (list Peer) :=
  match mapM id networkResourcesRoutes with
  | None => Panic
  | Some routes =>
      let known : gset string := {[ peerID ]} ∪ list_to_set (ID <$> peersToConnect) ∪ list_to_set (ID <$> expiredPeers) in
      let networkRoutesPeers : gset string := list_to_set (rt_PeerID <$> routes) ∖ known in
      let missingPeers := (if isRouter then sourcePeers ∖ known else ∅) ∪ networkRoutesPeers in
      Ret (peersToConnect ++ omap (vw_router w) (elements missingPeers))
  end.

(** ** What these functions compute *)
Lemma mapM_id_fmap {A} (l : list A) : mapM id (Some <$> l) = Some l.
Proof using Type. induction l as [|x l IH]; [done|]. change (mapM id (Some <$> (x :: l))) with (y ← id (Some x); k ← mapM id (Some <$> l); mret (M:=option) (y :: k)). by rewrite IH. Qed.
Lemma all_some_fmap {A} (l : list (option A)) : (∀ x, x ∈ l → is_Some x) → ∃ xs, l = Some <$> xs.
Proof using Type.
  induction l as [|[x|] l IH]; intros H; [by exists []| |by destruct (H None) as [? ?]; [left|]].
  destruct IH as [xs ->]; [intros y Hy; apply H; by right|]. by exists (x :: xs).
Qed.
(** Besides the peers of the policies, a peer connects to those that route for it, and to the
    sources of what it routes itself. *)
Lemma routing_peers_spec routes peerID connect expired isR srcs :
  ∃ l, addNetworksRoutingPeers (Some <$> routes) peerID connect expired isR srcs = Ret l
    ∧ ∀ q, q ∈ l ↔ q ∈ connect
        ∨ ∃ i, vw_router w i = Some q ∧ i ≠ peerID ∧ i ∉ (ID <$> connect) ∧ i ∉ (ID <$> expired)
             ∧ (isR = true ∧ i ∈ srcs ∨ ∃ x, x ∈ routes ∧ rt_PeerID x = i).
Proof using Type.
  unfold addNetworksRoutingPeers. rewrite mapM_id_fmap. eexists. split; [reflexivity|]. intros q.
  rewrite elem_of_app, list_elem_of_omap. apply or_iff_compat_l. setoid_rewrite elem_of_elements. set (known := {[ peerID ]} ∪ _ ∪ _).
  assert (Hk : ∀ i, i ∉ known ↔ i ≠ peerID ∧ i ∉ (ID <$> connect) ∧ i ∉ (ID <$> expired)).
  { intros i. unfold known. rewrite !not_elem_of_union, not_elem_of_singleton, !not_elem_of_list_to_set. tauto. }
  assert (Hb : ∀ i, i ∈ (if isR then srcs ∖ known else ∅) ↔ isR = true ∧ i ∈ srcs ∧ i ∉ known) by (clear; destruct isR; set_solver).
  assert (Hm : ∀ i, i ∈ (if isR then srcs ∖ known else ∅) ∪ (list_to_set (rt_PeerID <$> routes) ∖ known)
    ↔ i ∉ known ∧ (isR = true ∧ i ∈ srcs ∨ ∃ x, x ∈ routes ∧ rt_PeerID x = i)).
  { intros i. rewrite elem_of_union, Hb, elem_of_difference, elem_of_list_to_set, list_elem_of_fmap. clear. naive_solver. }
  setoid_rewrite Hm. setoid_rewrite Hk. clear. naive_solver.
Qed.

(** A peer the policy gives access to a resource. *)
Definition source_of (pol : Policy) (p : string) : Prop :=
  ∃ ps, policy_sources pol = Ret ps ∧ p ∈ ps ∧ vw_posture w (pol_SourcePostureChecks pol) p = true.

Lemma policy_sources_ret pol : pol_Rules pol ≠ [] → ∃ ps, policy_sources pol = Ret ps.
Proof using Type. unfold policy_sources, first_source. destruct (pol_Rules pol); [done|]. intros _. eexists. reflexivity. Qed.
Lemma policy_loop_spec peerID add all pols routes srcs : (∀ pol, pol ∈ pols → pol_Rules pol ≠ []) →
  ∃ routes' srcs', policy_loop peerID add all pols routes srcs = Ret (routes', srcs')
    ∧ (∀ x, x ∈ routes' ↔ x ∈ routes ∨ add = false ∧ x ∈ all ∧ ∃ pol, pol ∈ pols ∧ source_of pol peerID)
    ∧ ∀ p, p ∈ srcs' ↔ p ∈ srcs ∨ add = true ∧ ∃ pol, pol ∈ pols ∧ source_of pol p.
Proof using Type.
  revert srcs. induction pols as [|pol pols IH]; intros srcs Hp; cbn [policy_loop].
  { exists routes, srcs. split; [done|]. split; intros x; set_solver. }
  destruct (policy_sources_ret pol) as [ps Eps]; [apply Hp; by left|]. rewrite Eps. cbn [mbind outcome_bind].
  assert (Hsrc : ∀ p, source_of pol p ↔ p ∈ ps ∧ vw_posture w (pol_SourcePostureChecks pol) p = true).
  { intros p. unfold source_of. rewrite Eps. split; [by intros (? & [= <-] & ?)|]. intros ?. by exists ps. }
  assert (Hp' : ∀ pol, pol ∈ pols → pol_Rules pol ≠ []) by (intros ? ?; apply Hp; by right).
  destruct add.
  - destruct (IH (list_to_set (getPostureValidPeers ps (pol_SourcePostureChecks pol)) ∪ srcs) Hp') as (routes' & srcs' & E & Hr & Hs).
    exists routes', srcs'. split; [done|]. split; intros x; [rewrite Hr; split; intros [?|(? & _)]; (by left) || done|].
    rewrite Hs, elem_of_union, elem_of_list_to_set. unfold getPostureValidPeers. rewrite list_elem_of_In, filter_In, <- list_elem_of_In, <- Hsrc.
    rewrite exists_in_cons. tauto.
  - destruct (bool_decide_reflect (peerID ∈ ps)) as [Hin|Hn]; cbn [andb]; [destruct (vw_posture w _ _) eqn:Ev|].
    + exists (routes ++ all), srcs. split; [done|]. split; intros x; [|split; [by left|by intros [?|[? _]]]].
      rewrite elem_of_app. split; [intros [?|?]; [by left|]|intros [?|(_ & ? & _)]; [by left|by right]].
      right. split; [done|]. split; [done|]. exists pol. split; [by left|by apply Hsrc].
    + destruct (IH srcs Hp') as (routes' & srcs' & E & Hr & Hs). exists routes', srcs'. split; [done|]. split; intros x; [|rewrite Hs; split; intros [?|[? _]]; (by left) || done].
      rewrite Hr, exists_in_cons, Hsrc. intuition congruence.
    + destruct (IH srcs Hp') as (routes' & srcs' & E & Hr & Hs). exists routes', srcs'. split; [done|]. split; intros x; [|rewrite Hs; split; intros [?|[? _]]; (by left) || done].
      rewrite Hr, exists_in_cons, Hsrc. tauto.
Qed.

Section spec.
Context (resourcePolicies : gmap string (list Policy)) (routers : routers_map).
Abbreviation policies_of r := (default [] (resourcePolicies !! nr_ID r)).
Abbreviation routers_of r := (default ∅ (routers !! nr_NetworkID r)).
(** No policy without rules. *)
Context (Hrules : ∀ r pol, r ∈ Resources → nr_Enabled r = true → pol ∈ policies_of r → pol_Rules pol ≠ []).

(** [peerID] gets the route of the resource through the router [p]. *)
Definition gets_route (peerID : string) (r : NetworkResource) (p : string) (router : NetworkRouter) : Prop :=
  nr_Enabled r = true ∧ policies_of r ≠ [] ∧ routers_of r !! p = Some router
  ∧ (p = peerID ∨ routers_of r !! peerID = None ∧ ∃ pol, pol ∈ policies_of r ∧ source_of pol peerID).
Definition routes_resource (peerID : string) (r : NetworkResource) : Prop := nr_Enabled r = true ∧ is_Some (routers_of r !! peerID).

Lemma resource_routes_elem r p router x : x ∈ getNetworkResourcesRoutes resourcePolicies r p router ↔
  policies_of r ≠ [] ∧ ∃ peer, vw_peer w p = Some peer ∧ x = to_route r peer router.
Proof using Type.
  clear Hrules. unfold getNetworkResourcesRoutes. destruct (policies_of r) as [|pol pols]; [set_solver|].
  destruct (vw_peer w p) as [peer|]; [|set_solver]. rewrite list_elem_of_singleton. split; [intros ->; split; [done|by exists peer]|].
  by intros (_ & ? & [= <-] & ->).
Qed.
Lemma resource_step_spec peerID isR routes srcs r : r ∈ Resources →
  ∃ isR' routes' srcs', resource_step resourcePolicies routers peerID (isR, routes, srcs) r = Ret (isR', routes', srcs')
    ∧ (isR' = true ↔ isR = true ∨ routes_resource peerID r)
    ∧ (∀ x, x ∈ routes' ↔ x ∈ routes ∨ ∃ p router peer, gets_route peerID r p router ∧ vw_peer w p = Some peer ∧ x = to_route r peer router)
    ∧ ∀ s, s ∈ srcs' ↔ s ∈ srcs ∨ routes_resource peerID r ∧ ∃ pol, pol ∈ policies_of r ∧ source_of pol s.
Proof using Hrules.
  intros Hr. unfold resource_step, routes_resource, gets_route. destruct (nr_Enabled r) eqn:En; cbn [negb].
  2:{ exists isR, routes, srcs. split; [done|]. split; [naive_solver|]. split; naive_solver. }
  assert (Hpols : ∀ pol, pol ∈ policies_of r → pol_Rules pol ≠ []) by (intros pol; by apply Hrules).
  set (all := concat _). assert (Hall : ∀ x, x ∈ all ↔ ∃ p router, routers_of r !! p = Some router ∧ x ∈ getNetworkResourcesRoutes resourcePolicies r p router).
  { intros x. unfold all. rewrite concat_fmap_elem. split.
    - intros ([p router] & H%elem_of_map_to_list & Hx). by exists p, router.
    - intros (p & router & H & Hx). exists (p, router). split; [by apply elem_of_map_to_list|done]. }
  setoid_rewrite resource_routes_elem in Hall.
  destruct (routers_of r !! peerID) as [router|] eqn:Er.
  - destruct (policy_loop_spec peerID true all (policies_of r) (routes ++ getNetworkResourcesRoutes resourcePolicies r peerID router) srcs Hpols)
      as (routes' & srcs' & E & Hx & Hs). rewrite E. cbn. exists true, routes', srcs'.
    split; [done|]. split; [split; [right; by split|done]|]. split; [|intros s; rewrite Hs; intuition eauto].
    intros x. rewrite Hx, elem_of_app, resource_routes_elem. split.
    + intros [[?|(? & peer & ? & ?)]|(? & _)]; [by left| |done]. right. exists peerID, router, peer. naive_solver.
    + intros [?|(p & router' & peer & (_ & ? & Hp & [->|[? _]]) & ? & ?)]; [by left; left| |done]. rewrite Er in Hp. injection Hp as <-. left; right. naive_solver.
  - destruct (policy_loop_spec peerID false all (policies_of r) routes srcs Hpols) as (routes' & srcs' & E & Hx & Hs).
    rewrite E. cbn. exists isR, routes', srcs'. split; [done|]. split; [|split].
    + split; [by left|]. intros [?|[_ [? ?]]]; done.
    + intros x. rewrite Hx, Hall. split.
      * intros [?|(_ & (p & router & ? & ? & peer & ? & ?) & Hsrc)]; [by left|]. right. exists p, router, peer. naive_solver.
      * intros [?|(p & router & peer & (_ & ? & Hp & [->|[_ ?]]) & ? & ?)]; [by left|congruence|]. right. split; [done|]. split; [|done]. by eauto 10.
    + intros s. rewrite Hs. split; [intros [?|[? _]]; (by left) || done|]. intros [?|[[_ [? ?]] _]]; [by left|done].
Qed.

(** The routes of network resources: no run panics, a peer routes if it is a router of the network
    of an enabled resource; it gets the routes it serves, and those of resources whose policies give
    it access, unless it is a router of their network; the source peers of a router are those with
    access to what it routes. *)
Lemma network_resources_spec peerID :
  ∃ isR routes srcs, GetNetworkResourcesRoutesToSync resourcePolicies routers peerID = Ret (isR, routes, srcs)
    ∧ (isR = true ↔ ∃ r, r ∈ Resources ∧ routes_resource peerID r)
    ∧ (∀ x, x ∈ routes ↔ ∃ r, r ∈ Resources ∧ ∃ p router peer, gets_route peerID r p router ∧ vw_peer w p = Some peer ∧ x = to_route r peer router)
    ∧ ∀ s, s ∈ srcs ↔ ∃ r, r ∈ Resources ∧ routes_resource peerID r ∧ ∃ pol, pol ∈ policies_of r ∧ source_of pol s.
Proof using Hrules.
  assert (H : ∀ rs isR routes srcs, (∀ r, r ∈ rs → r ∈ Resources) →
    ∃ isR' routes' srcs', resource_steps resourcePolicies routers peerID (isR, routes, srcs) rs = Ret (isR', routes', srcs')
    ∧ (isR' = true ↔ isR = true ∨ ∃ r, r ∈ rs ∧ routes_resource peerID r)
    ∧ (∀ x, x ∈ routes' ↔ x ∈ routes ∨ ∃ r, r ∈ rs ∧ ∃ p router peer, gets_route peerID r p router ∧ vw_peer w p = Some peer ∧ x = to_route r peer router)
    ∧ ∀ s, s ∈ srcs' ↔ s ∈ srcs ∨ ∃ r, r ∈ rs ∧ routes_resource peerID r ∧ ∃ pol, pol ∈ policies_of r ∧ source_of pol s).
  { induction rs as [|r rs IH]; intros isR routes srcs Hin; cbn [resource_steps].
    { exists isR, routes, srcs. split; [done|]. clear; set_solver. }
    destruct (resource_step_spec peerID isR routes srcs r) as (isR1 & routes1 & srcs1 & E1 & Hi1 & Hr1 & Hs1); [apply Hin; by left|].
    rewrite E1. cbn [mbind outcome_bind]. destruct (IH isR1 routes1 srcs1) as (isR' & routes' & srcs' & E & Hi & Hr & Hs); [intros; apply Hin; by right|].
    exists isR', routes', srcs'. split; [done|]. rewrite Hi, Hi1. setoid_rewrite Hr. setoid_rewrite Hr1. setoid_rewrite Hs. setoid_rewrite Hs1.
    split; [|split; intros ?]; rewrite exists_in_cons; tauto. }
  destruct (H Resources false [] ∅) as (isR & routes & srcs & E & Hi & Hr & Hs); [done|]. exists isR, routes, srcs.
  split; [done|]. rewrite Hi. setoid_rewrite Hr. setoid_rewrite Hs. clear; set_solver.
Qed.
End spec.
End resources.
