(* ===== verification/NetworkMap.v ===== *)
(** The network map of a peer: [GetPeerNetworkMap] of [src/management/server/types/account.go], with
    the peers, routes, firewall rules and DNS configuration it is made of.

    The fields of a peer that only this computation reads are the function [more].  Times are
    nanoseconds since the zero [time.Time].  [Fqdn] of github.com/miekg/dns is a parameter. *)
From stdpp Require Import pretty.
From S2P Require Import Prelude GoText NetIP Domains FirewallRules NetParse AclManager AclKeys AccessPolicy AccountObjects MapComponents RouteMap ResourceMap.
Open Scope Z_scope.

(** [types.NetworkMap], and the part of [dns.Config] a map sets. *)
Record SimpleRecord := { rec_Name : string; rec_Type : Z; rec_Class : string; rec_TTL : Z; rec_RData : string }.
Record CustomZone := { cz_Domain : string; cz_Records : list SimpleRecord; cz_SearchDomainDisabled : bool; cz_NonAuthoritative : bool }.
Record DNSConfig := { ServiceEnable : bool; CustomZones : list CustomZone; cfg_NameServerGroups : list NameServerGroup }.
Record NetworkMap (Net : Type) := {
  nm_Peers : list Peer; nm_Network : Net; nm_Routes : list Route; nm_DNSConfig : DNSConfig; nm_OfflinePeers : list Peer;
  nm_FirewallRules : list FirewallRule; nm_RoutesFirewallRules : list RouteFirewallRule;
  nm_AuthorizedUsers : ssh_users; nm_EnableSSH : bool }.
Arguments nm_Peers {_}. Arguments nm_Network {_}. Arguments nm_Routes {_}. Arguments nm_DNSConfig {_}. Arguments nm_OfflinePeers {_}.
Arguments nm_FirewallRules {_}. Arguments nm_RoutesFirewallRules {_}. Arguments nm_AuthorizedUsers {_}. Arguments nm_EnableSSH {_}.
Definition no_dns : DNSConfig := {| ServiceEnable := false; CustomZones := []; cfg_NameServerGroups := [] |}.

(** [zones.Zone] and [records.Record] *)
Record ZoneRecord := { zr_Name : string; zr_Type : string; zr_Content : string; zr_TTL : Z }.
Record Zone := { z_Domain : string; z_Enabled : bool; z_EnableSearchDomain : bool; z_DistributionGroups : list string; z_Records : list ZoneRecord }.

Definition defaultTTL : Z := 300.
Definition DefaultClass : string := "IN".
Definition TypeA : Z := 1.
Definition TypeCNAME : Z := 5.
Definition TypeAAAA : Z := 28.

Record peer_more := {
  pm_Key : string; pm_DNSLabel : string; pm_ExtraDNSLabels : list string; pm_UserID : string; pm_LoginExpirationEnabled : bool;
  pm_LastLogin : option Z }.
Record Settings := { PeerLoginExpirationEnabled : bool; PeerLoginExpiration : Z }.

Section network_map.
Context (version_at_least : string → string → outcome unit bool) (ToASCII : bytes → option bytes) (ToUnicode : string → option string).
Context (Fqdn : string → string) (more : Peer → peer_more) (now : Z).
Context {Net : Type} (network : Net) (settings : Settings) (dns_settings : DNSSettings).
Context (a : Account) (v : gset string) (users : gmap string (list string)).
Context (Routes : list Route) (Resources : list NetworkResource) (NameServerGroups : list NameServerGroup).
Abbreviation Key := (λ p, pm_Key (more p)).

(** ** Expired peers *)
Definition LoginExpired (p : Peer) (expiresIn : Z) : bool :=
  if bool_decide (pm_UserID (more p) = "") || negb (pm_LoginExpirationEnabled (more p)) then false
  else default 0 (pm_LastLogin (more p)) + expiresIn - now <=? 0.
Definition expired_peer (p : Peer) : bool := PeerLoginExpirationEnabled settings && LoginExpired p (PeerLoginExpiration settings).

(** ** DNS *)
Definition GetPeerGroups (peerID : string) : gset string := dom (filter (λ x, peerID ∈ g_Peers x.2) (Groups a)).
Definition getPeerDNSManagementStatus (peerID : string) : bool :=
  negb (existsb (λ i, bool_decide (i ∈ GetPeerGroups peerID)) (DisabledManagementGroups dns_settings)).
(** [net.IP.Equal] of an IPv4 address: a mapped IPv6 address is the same one. *)
Definition ip_equal (n : Z) (x : bool * Z) : bool := if x.1 then x.2 =? 0xFFFF00000000 + n else x.2 =? n.
Definition peerIsNameserver (peer : Peer) (ns : NameServerGroup) : bool := existsb (λ s, ip_equal (IP peer) (srv_IP s)) (ns_NameServers ns).
Definition getPeerNSGroups (peer : Peer) (peerID : string) : list NameServerGroup :=
  List.filter (λ ns, ns_Enabled ns && existsb (λ i, bool_decide (i ∈ GetPeerGroups peerID) && negb (peerIsNameserver peer ns)) (ns_Groups ns))
    NameServerGroups.
Definition peer_record (domain : string) (ip : Z) (label : string) : SimpleRecord :=
  {| rec_Name := label +:+ "." +:+ domain; rec_Type := TypeA; rec_Class := DefaultClass; rec_TTL := defaultTTL; rec_RData := IP_String ip |}.
Definition peer_records (domain : string) (p : Peer) : list SimpleRecord :=
  if bool_decide (pm_DNSLabel (more p) = "") then []
  else peer_record domain (IP p) <$> (pm_DNSLabel (more p) :: pm_ExtraDNSLabels (more p)).
Definition no_zone : CustomZone := {| cz_Domain := ""; cz_Records := []; cz_SearchDomainDisabled := false; cz_NonAuthoritative := false |}.
Definition GetPeersCustomZone (domain : string) : CustomZone :=
  if bool_decide (domain = "") then no_zone
  else {| cz_Domain := Fqdn domain; cz_Records := concat ((λ x, peer_records domain x.2) <$> map_to_list (Peers a));
          cz_SearchDomainDisabled := false; cz_NonAuthoritative := false |}.
Definition filterZoneRecordsForPeers (peer : Peer) (zone : CustomZone) (peersToConnect expiredPeers : list Peer) : list SimpleRecord :=
  let peerIPs : gset string := list_to_set ((λ p, IP_String (IP p)) <$> (peer :: peersToConnect ++ expiredPeers)) in
  filter (λ r, rec_RData r ∈ peerIPs) (cz_Records zone).
Definition zone_record (r : ZoneRecord) : option SimpleRecord :=
  let mk ty rdata := Some {| rec_Name := Fqdn (zr_Name r); rec_Type := ty; rec_Class := DefaultClass; rec_TTL := zr_TTL r; rec_RData := rdata |} in
  if bool_decide (zr_Type r = "A") then mk TypeA (zr_Content r)
  else if bool_decide (zr_Type r = "AAAA") then mk TypeAAAA (zr_Content r)
  else if bool_decide (zr_Type r = "CNAME") then mk TypeCNAME (Fqdn (zr_Content r)) else None.
Definition filterPeerAppliedZones (accountZones : list Zone) (peerGroups : gset string) : list CustomZone :=
  if decide (peerGroups = ∅) then []
  else
    (λ z, {| cz_Domain := Fqdn (z_Domain z); cz_Records := omap zone_record (z_Records z);
             cz_SearchDomainDisabled := negb (z_EnableSearchDomain z); cz_NonAuthoritative := true |})
    <$> List.filter (λ z, z_Enabled z && negb (bool_decide (z_Records z = []))
                          && existsb (λ i, bool_decide (i ∈ peerGroups)) (z_DistributionGroups z)) accountZones.
Definition dns_update (peer : Peer) (peerID : string) (zone : CustomZone) (accountZones : list Zone) (connect expired : list Peer) : DNSConfig :=
  let status := getPeerDNSManagementStatus peerID in
  if status then
    {| ServiceEnable := true;
       CustomZones :=
         (if negb (bool_decide (cz_Domain zone = "")) then
            [{| cz_Domain := cz_Domain zone; cz_Records := filterZoneRecordsForPeers peer zone connect expired;
                cz_SearchDomainDisabled := false; cz_NonAuthoritative := false |}]
          else []) ++ filterPeerAppliedZones accountZones (GetPeerGroups peerID);
       cfg_NameServerGroups := getPeerNSGroups peer peerID |}
  else no_dns.

(** ** The network map *)
Definition only_network : NetworkMap Net :=
  {| nm_Peers := []; nm_Network := network; nm_Routes := []; nm_DNSConfig := no_dns; nm_OfflinePeers := []; nm_FirewallRules := [];
     nm_RoutesFirewallRules := []; nm_AuthorizedUsers := ∅; nm_EnableSSH := false |}.
(** The routes after a nil one was dereferenced or not. *)
Definition no_nil (routes : list (option Route)) : outcome unit (list Route) := match mapM id routes with Some rs => Ret rs | None => Panic end.
Definition GetPeerNetworkMap (peerID : string) (peersCustomZone : CustomZone) (accountZones : list Zone)
    (resourcePolicies : gmap string (list Policy)) (routers : gmap string (gmap string NetworkRouter)) : outcome unit (NetworkMap Net) :=
  match Peers a !! peerID with
  | None => Ret only_network
  | Some peer =>
      if bool_decide (peerID ∉ v) then Ret only_network
      else
        let conn := GetPeerConnectionResources version_at_least a peer v users in
        let aclPeers := peers (res_st conn) in
        let expiredPeers := List.filter expired_peer aclPeers in
        let peersToConnect := List.filter (λ p, negb (expired_peer p)) aclPeers in
        let routesUpdate := GetRoutesToSync (account_view a v) Routes Key ToUnicode peerID peersToConnect (GetPeerGroups peerID) in
        let routesFirewallRules := GetPeerRoutesFirewallRules (account_view a v) Routes Key peerID in
        x ← GetNetworkResourcesRoutesToSync (account_view a v) (ToRoute Key ToASCII) Resources resourcePolicies routers peerID;
        let '(isRouter, resourceRoutes, sourcePeers) := x in
        routes ← no_nil resourceRoutes;
        let resourceRules := if isRouter : bool then GetPeerNetworkResourceFirewallRules (account_view a v) (ID peer) (Key peer) routes resourcePolicies else [] in
        connect ← addNetworksRoutingPeers (account_view a v) resourceRoutes (ID peer) peersToConnect expiredPeers isRouter sourcePeers;
        Ret {| nm_Peers := connect; nm_Network := network; nm_Routes := routes ++ routesUpdate;
               nm_DNSConfig := dns_update peer peerID peersCustomZone accountZones connect expiredPeers; nm_OfflinePeers := expiredPeers;
               nm_FirewallRules := rules (res_st conn); nm_RoutesFirewallRules := resourceRules ++ routesFirewallRules;
               nm_AuthorizedUsers := authorizedUsers conn; nm_EnableSSH := sshEnabled conn |}
  end.

(** ** What a map contains *)
Section spec.
Context (Routers : list NetworkRouter) (zone : CustomZone) (zones : list Zone).
Context (HPeers : map_Forall (λ k p, ID p = k) (Peers a)).
Context (Hdomains : ∀ r, r ∈ Resources → nr_Type r = Domain → is_Some (ToASCII (nr_Domain r))).
Abbreviation policies := (GetResourcePoliciesMap a Resources).
Abbreviation routers := (GetResourceRoutersMap a Routers).
Abbreviation map_of_peer := (λ p, GetPeerNetworkMap p zone zones policies routers).

(** The resources make [p] connect to [q]: one of them routes a resource for the other. *)
Definition resource_peer (p q : string) : Prop :=
  (∃ r router, r ∈ Resources ∧ gets_route (account_view a v) policies routers p r q router)
  ∨ ∃ r pol, r ∈ Resources ∧ routes_resource routers p r ∧ pol ∈ default [] (policies !! nr_ID r) ∧ source_of (account_view a v) pol q.
Abbreviation acl := (conn_peers version_at_least a v users).

Lemma resource_routes_of p : ∃ isR routes srcs, GetNetworkResourcesRoutesToSync (account_view a v) (ToRoute Key ToASCII) Resources policies routers p = Ret (isR, Some <$> routes, srcs)
  ∧ (isR = true ↔ ∃ r, r ∈ Resources ∧ routes_resource routers p r)
  ∧ (∀ x, x ∈ routes ↔ ∃ r, r ∈ Resources ∧ ∃ q router peer, gets_route (account_view a v) policies routers p r q router ∧ Peers a !! q = Some peer
        ∧ Some x = ToRoute Key ToASCII r peer router)
  ∧ ∀ s, s ∈ srcs ↔ ∃ r, r ∈ Resources ∧ routes_resource routers p r ∧ ∃ pol, pol ∈ default [] (policies !! nr_ID r) ∧ source_of (account_view a v) pol s.
Proof using Hdomains.
  destruct (network_resources_spec (account_view a v) (ToRoute Key ToASCII) Resources policies routers (resource_policies_have_rules a Resources) p)
    as (isR & routes & srcs & E & Hi & Hr & Hs).
  assert (Hsome : ∀ x, x ∈ routes → is_Some x).
  { intros x (r & Hin & q & router & peer & _ & _ & ->)%Hr. unfold ToRoute. destruct (nr_Type r) eqn:Et; [done..|].
    destruct (Hdomains r Hin Et) as [d Ed]. unfold FromString. rewrite Ed. done. }
  destruct (all_some_fmap routes Hsome) as [rs ->]. exists isR, rs, srcs. split; [done|]. split; [done|]. split; [|done]. intros x. rewrite <- Hr.
  rewrite list_elem_of_fmap. split; [intros ?; by exists x|]. by intros (? & [= ->] & ?).
Qed.
Lemma ToRoute_id r peer router x : Some x = ToRoute Key ToASCII r peer router → rt_PeerID x = ID peer ∧ rt_Peer x = Key peer.
Proof using Type. unfold ToRoute. destruct (nr_Type r); [by intros [= ->]..|]. destruct (FromString _ _); [|done]. by intros [= ->]. Qed.

(** The connected peers are split by the expiry of their login. *)
Lemma filtered_ids (l : list Peer) i R :
  i ∉ (ID <$> List.filter (λ p, negb (expired_peer p)) l) ∧ i ∉ (ID <$> List.filter expired_peer l) ∧ R ↔ i ∉ (ID <$> l) ∧ R.
Proof using Type.
  rewrite !list_elem_of_fmap. setoid_rewrite list_elem_of_In. setoid_rewrite filter_In. setoid_rewrite <- list_elem_of_In. split.
  - intros (H1 & H2 & ?). split; [|done]. intros (x & -> & Hx). destruct (expired_peer x) eqn:Ex; [apply H2|apply H1]; exists x; rewrite ?Ex; done.
  - intros [H ?]. split; [|split; [|done]]; intros (x & ? & ? & _); apply H; by exists x.
Qed.

(** What is in the map of a peer that exists and is approved. *)
Lemma map_spec p peer : Peers a !! p = Some peer → p ∈ v → ∃ nm, map_of_peer p = Ret nm
  ∧ (∀ q, q ∈ nm_Peers nm ↔ q ∈ acl peer ∧ expired_peer q = false
       ∨ Peers a !! ID q = Some q ∧ ID q ≠ p ∧ ID q ∉ (ID <$> acl peer) ∧ resource_peer p (ID q))
  ∧ (∀ q, q ∈ nm_OfflinePeers nm ↔ q ∈ acl peer ∧ expired_peer q = true)
  ∧ nm_DNSConfig nm = dns_update peer p zone zones (nm_Peers nm) (nm_OfflinePeers nm).
Proof using HPeers Hdomains.
  intros Hp Hv. unfold GetPeerNetworkMap. rewrite Hp, bool_decide_eq_false_2 by tauto.
  destruct (resource_routes_of p) as (isR & routes & srcs & E & Hi & Hr & Hs). rewrite E. cbn [mbind outcome_bind].
  unfold no_nil. rewrite mapM_id_fmap. cbn [mbind outcome_bind]. edestruct (routing_peers_spec (account_view a v)) as (l & El & Hl). rewrite El. clear El.
  cbn [mbind outcome_bind]. eexists. split; [reflexivity|]. cbn [nm_Peers nm_OfflinePeers nm_DNSConfig]. fold (conn_peers version_at_least a v users peer) in *.
  pose proof (HPeers p peer Hp) as Hid. cbn in Hid. split; [|split; [|done]].
  - intros q. rewrite Hl, list_elem_of_In, filter_In, <- list_elem_of_In, negb_true_iff. setoid_rewrite filtered_ids. rewrite Hid.
    assert (Hres : ∀ i x, Peers a !! i = Some x → (isR = true ∧ i ∈ srcs ∨ ∃ y, y ∈ routes ∧ rt_PeerID y = i) ↔ resource_peer p i).
    { intros i x Hx. unfold resource_peer. rewrite Hi, Hs. split.
      - intros [[_ (r & ? & ? & pol & ? & ?)]|(y & (r & Hin & q' & router & peer' & Hg & Hq' & Ey)%Hr & <-)].
        + right. by exists r, pol.
        + left. exists r, router. split; [done|]. apply ToRoute_id in Ey as [-> _]. by rewrite (HPeers _ _ Hq').
      - intros [(r & router & Hin & Hg)|(r & pol & Hin & Hrt & Hpol & Hsrc)].
        + right. destruct (nr_Type r) eqn:Et; (destruct (ToRoute Key ToASCII r x router) as [y|] eqn:Ey;
            [exists y; split; [apply Hr; exists r; split; [done|]; by exists i, router, x|]; symmetry in Ey; apply ToRoute_id in Ey as [-> _]; by apply HPeers|]);
            exfalso; unfold ToRoute in Ey; rewrite Et in Ey; [done..|]. destruct (Hdomains r Hin Et) as [d Ed]. unfold FromString in Ey. by rewrite Ed in Ey.
        + left. split; [by exists r|]. exists r. split; [done|]. split; [done|]. by exists pol. }
    split.
    + intros [[? ?]|(i & Hq & H1 & H2 & H3)]; [by left|right]. pose proof (HPeers i q Hq) as Eq. cbn in Eq. subst i.
      split; [done|]. split; [done|]. split; [done|]. by eapply Hres.
    + intros [[? ?]|(Hq & H1 & H2 & H3)]; [by left|right]. exists (ID q). split; [done|]. split; [done|]. split; [done|]. by eapply Hres.
  - intros q. by rewrite list_elem_of_In, filter_In, <- list_elem_of_In.
Qed.

Lemma acl_symmetric p q : Peers a !! ID p = Some p → Peers a !! ID q = Some q → q ∈ acl p → p ∈ acl q.
Proof using HPeers more.
  intros Hp Hq. rewrite (proj2 (connection_peers_spec version_at_least a v users HPeers p)), (proj2 (connection_peers_spec version_at_least a v users HPeers q)).
  intros (_ & ? & pol & rule & ? & ? & ? & ? & Hr). split; [done|]. split; [done|]. exists pol, rule. tauto.
Qed.
(** [q] is a router of a network that [p] routes too, and a source of one of its resources. *)
Definition both_route (p q : string) : Prop :=
  ∃ r pol, r ∈ Resources ∧ routes_resource routers p r ∧ routes_resource routers q r ∧ pol ∈ default [] (policies !! nr_ID r) ∧ source_of (account_view a v) pol q.
Lemma resource_peer_mutual p q : resource_peer p q → p ≠ q → resource_peer q p ∨ both_route p q.
Proof using Type.
  intros [(r & router & Hr & (He & Hne & Hrt & [->|[Hn (pol & Hpol & Hsrc)]]))|(r & pol & Hr & Hrt & Hpol & Hsrc)] Hpq; [done| |].
  - left. right. exists r, pol. split; [done|]. split; [split; [done|]; by eexists|done].
  - destruct Hrt as [He [router Hrt]]. destruct (default ∅ (routers !! nr_NetworkID r) !! q) as [router'|] eqn:Eq.
    + right. exists r, pol. split; [done|]. split; [split; [done|]; by eexists|]. split; [split; [done|]; by eexists|done].
    + left. left. exists r, router. split; [done|]. split; [done|]. split; [intros E; rewrite E in Hpol; by apply not_elem_of_nil in Hpol|].
      split; [done|]. right. split; [done|]. by exists pol.
Qed.

(** C3: The network maps of approved peers agree on who connects to whom: when the map of [p] lists
    [q], as a peer or as one whose login has expired, the map of [q] lists [p], by the policies or
    because one of them routes a network resource for the other.  The exception are two routers of
    one network of which the second is also a source of a resource in it: the first is told to
    connect to the second, the second is not told about the first. *)
Theorem maps_are_mutual p q nm (Hp : Peers a !! ID p = Some p) (Hq : Peers a !! ID q = Some q) (Hvp : ID p ∈ v) (Hvq : ID q ∈ v) :
  map_of_peer (ID p) = Ret nm → q ∈ nm_Peers nm ++ nm_OfflinePeers nm →
  ∃ nm', map_of_peer (ID q) = Ret nm' ∧ (p ∈ nm_Peers nm' ++ nm_OfflinePeers nm' ∨ both_route (ID p) (ID q)).
Proof using HPeers Hdomains.
  destruct (map_spec (ID p) p Hp Hvp) as (nm0 & E & Hpeers & Hoff & _). destruct (map_spec (ID q) q Hq Hvq) as (nm' & E' & Hpeers' & Hoff' & _).
  intros E0 Hin. rewrite E in E0. injection E0 as ->. exists nm'. split; [done|].
  assert (Hacl : p ∈ acl q → p ∈ nm_Peers nm' ++ nm_OfflinePeers nm').
  { intros H. apply elem_of_app. rewrite Hpeers', Hoff'. destruct (expired_peer p); [by right|left; by left]. }
  apply elem_of_app in Hin as [[[Ha _]|(_ & Hne & _ & Hres)]%Hpeers|[Ha _]%Hoff]; [left; by apply Hacl, acl_symmetric| |left; by apply Hacl, acl_symmetric].
  apply resource_peer_mutual in Hres as [Hres|?]; [left|by right|done].
  destruct (decide (ID p ∈ ID <$> acl q)) as [(x & Ex & Hx)%list_elem_of_fmap|Hn].
  - apply Hacl. assert (Peers a !! ID x = Some x) by (by apply (proj2 (connection_peers_spec version_at_least a v users HPeers q)) in Hx as [? _]). congruence.
  - apply elem_of_app. left. apply Hpeers'. right. split; [done|]. split; [done|]. by split.
Qed.

(** *** Route rules *)
Section route_rules.
Context (Hkeys : ∀ p q x y, Peers a !! p = Some x → Peers a !! q = Some y → Key x = Key y → p = q).
Context (Hcolon : ∀ r, r ∈ Resources → NetParse.colon ∉ str (nr_ID r)).
Lemma before_colon_app s t : NetParse.colon ∉ str s → before_colon (s +:+ ":" +:+ t) = s.
Proof using Type.
  induction s as [|c s IH]; [done|]. intros H. change (str (String c s)) with (Ascii.byte_of_ascii c :: str s) in H. apply not_elem_of_cons in H as [Hc Hs].
  change (String c s +:+ ":" +:+ t) with (String c (s +:+ ":" +:+ t)). cbn [before_colon]. rewrite bool_decide_eq_false_2 by done. by rewrite IH.
Qed.
Lemma ToRoute_resource r peer router x : r ∈ Resources → Some x = ToRoute Key ToASCII r peer router → GetResourceID x = nr_ID r.
Proof using Hcolon.
  intros Hr E. unfold GetResourceID. rewrite <- (before_colon_app (nr_ID r) (ID peer)) by auto. f_equal. revert E. clear.
  unfold ToRoute. destruct (nr_Type r); [by intros [= ->]..|]. destruct (FromString _ _); [|done]. by intros [= ->].
Qed.
Lemma map_route_rules p peer nm fr : Peers a !! p = Some peer → p ∈ v → map_of_peer p = Ret nm →
  nm_FirewallRules nm = conn_rules version_at_least a v users peer
  ∧ (fr ∈ nm_RoutesFirewallRules nm ↔ fr ∈ GetPeerRoutesFirewallRules (account_view a v) Routes Key p
       ∨ ∃ r router route, r ∈ Resources ∧ nr_Enabled r = true ∧ default ∅ (routers !! nr_NetworkID r) !! p = Some router
           ∧ Some route = ToRoute Key ToASCII r peer router ∧ srf_SourceRanges fr ≠ []
           ∧ fr ∈ getRouteFirewallRules (account_view a v) p (GetPoliciesForNetworkResource a (nr_ID r)) route
                    (getPoliciesSourcePeers (account_view a v) (GetPoliciesForNetworkResource a (nr_ID r)))).
Proof using HPeers Hdomains Hkeys Hcolon.
  intros Hp Hv. unfold GetPeerNetworkMap. rewrite Hp, bool_decide_eq_false_2 by tauto.
  destruct (resource_routes_of p) as (isR & routes & srcs & E & Hi & Hr & Hs). rewrite E. cbn [mbind outcome_bind].
  unfold no_nil, addNetworksRoutingPeers. rewrite mapM_id_fmap. cbn [mbind outcome_bind]. intros [= <-]. cbn [nm_FirewallRules nm_RoutesFirewallRules].
  split; [done|]. rewrite elem_of_app, (Logic.or_comm (fr ∈ _) (fr ∈ _)). pose proof (HPeers p peer Hp) as Hid. cbn in Hid.
  apply or_iff_compat_l. unfold GetPeerNetworkResourceFirewallRules. rewrite Hid. split.
  - destruct isR; [|by intros ?%not_elem_of_nil]. intros (x & Hx & H)%concat_fmap_elem. destruct (bool_decide_reflect (rt_Peer x = Key peer)) as [Ek|]; [|by apply not_elem_of_nil in H].
    apply Hr in Hx as (r & Hin & q & router & peer' & Hg & Hq & Ex). pose proof (ToRoute_id _ _ _ _ Ex) as [_ Ek']. rewrite Ek' in Ek.
    assert (q = p) as -> by (by eapply Hkeys). assert (peer' = peer) as -> by congruence. destruct Hg as (He & _ & Hrt & _).
    rewrite (ToRoute_resource _ _ _ _ Hin Ex), (resource_policies_lookup a Resources r Hin He) in H. cbn [from_option id] in H.
    rewrite list_elem_of_In, filter_In, <- list_elem_of_In, negb_true_iff, bool_decide_eq_false in H. destruct H as [H Hne]. by exists r, router, x.
  - intros (r & router & x & Hin & He & Hrt & Ex & Hne & H). assert (isR = true) as -> by (apply Hi; exists r; split; [done|]; split; [done|]; by eexists).
    apply concat_fmap_elem. exists x. pose proof (ToRoute_id _ _ _ _ Ex) as [_ Ek]. split.
    + apply Hr. exists r. split; [done|]. exists p, router, peer. split; [|done]. split; [done|]. split; [|by split; [|left]].
      rewrite (resource_policies_lookup a Resources r Hin He). cbn [from_option id]. intros E0. rewrite E0 in H. by apply not_elem_of_nil in H.
    + rewrite bool_decide_eq_true_2 by done. rewrite (ToRoute_resource _ _ _ _ Hin Ex), (resource_policies_lookup a Resources r Hin He). cbn [from_option id].
      by rewrite list_elem_of_In, filter_In, <- list_elem_of_In, negb_true_iff, bool_decide_eq_false.
Qed.
End route_rules.

(** *** DNS *)
Context (HIP : ∀ p x, Peers a !! p = Some x → 0 ≤ IP x < 2 ^ 32).
Context (Hdistinct : ∀ p x p' x', Peers a !! p = Some x → Peers a !! p' = Some x' → IP x = IP x' → x = x').
Lemma peer_record_data domain x r : r ∈ peer_records domain x → rec_RData r = IP_String (IP x).
Proof using Type. unfold peer_records. destruct (bool_decide _); [by intros ?%not_elem_of_nil|]. by intros (l & -> & _)%list_elem_of_fmap. Qed.
Lemma acl_in_account p q : q ∈ acl p → Peers a !! ID q = Some q.
Proof using HPeers. by intros (H & _)%(proj2 (connection_peers_spec version_at_least a v users HPeers p)). Qed.

(** C22: A peer resolves exactly the names of the peers it may connect to.  Where DNS is managed, the
    zone of the account's peers in a peer's map has the records of the peer itself, of the peers in
    the map and of those whose login has expired, and of no other peer. *)
Theorem names_of_mapped_peers p peer domain nm r : Peers a !! p = Some peer → p ∈ v → domain ≠ "" → Fqdn domain ≠ "" →
  getPeerDNSManagementStatus p = true → zone = GetPeersCustomZone domain → map_of_peer p = Ret nm →
  ∃ own rest, CustomZones (nm_DNSConfig nm) = own :: rest ∧ cz_Domain own = Fqdn domain
    ∧ (r ∈ cz_Records own ↔ ∃ q, q ∈ peer :: nm_Peers nm ++ nm_OfflinePeers nm ∧ r ∈ peer_records domain q).
Proof using HPeers Hdomains HIP Hdistinct.
  intros Hp Hv Hdom Hfq Hst Ez Enm. destruct (map_spec p peer Hp Hv) as (nm0 & E & Hpeers & Hoff & Hdns).
  assert (nm0 = nm) as -> by congruence.
  assert (Ez' : cz_Domain zone = Fqdn domain ∧ cz_Records zone = concat ((λ x, peer_records domain x.2) <$> map_to_list (Peers a))).
  { rewrite Ez. unfold GetPeersCustomZone. by rewrite bool_decide_eq_false_2. }
  destruct Ez' as [Edom Erec]. rewrite Hdns. unfold dns_update. rewrite Hst. cbn [CustomZones]. rewrite Edom, bool_decide_eq_false_2 by done.
  cbn [negb app]. eexists _, _. split; [reflexivity|]. split; [done|]. cbn [cz_Records]. unfold filterZoneRecordsForPeers.
  rewrite Erec, list_elem_of_filter, elem_of_list_to_set, list_elem_of_fmap, concat_fmap_elem.
  assert (Hacc : ∀ q, q ∈ peer :: nm_Peers nm ++ nm_OfflinePeers nm → Peers a !! ID q = Some q).
  { intros q [->|[[[?%acl_in_account _]|[? _]]%Hpeers|[?%acl_in_account _]%Hoff]%elem_of_app]%elem_of_cons; try done. by rewrite (HPeers p peer Hp). }
  split.
  - intros [(q & Ed & Hq) ([i x] & Hx%elem_of_map_to_list & Hr)]. exists q. split; [done|]. cbn [snd] in Hr.
    rewrite (peer_record_data _ _ _ Hr) in Ed. apply dotted_inj in Ed; [|by eapply HIP|eapply HIP; by apply Hacc].
    by rewrite <- (Hdistinct _ _ _ _ Hx (Hacc q Hq) Ed).
  - intros (q & Hq & Hr). split; [exists q; split; [by eapply peer_record_data|done]|]. exists (ID q, q). split; [apply elem_of_map_to_list; by apply Hacc|done].
Qed.
End spec.
End network_map.

(** ** A small office *)
Definition office_policy : Policy := demo_policy "p1"
  [{| r_ID := "r1"; r_PolicyID := "p1"; r_Name := ""; r_Description := ""; r_Enabled := true; r_Action := "accept"; r_Destinations := [];
      r_DestinationResource := {| res_ID := "db"; res_Type := ResourceTypeHost |}; r_Sources := ["laptops"]; r_SourceResource := no_resource;
      r_Bidirectional := false; r_Protocol := "tcp"; r_Ports := ["5432"]; r_PortRanges := []; r_AuthorizedGroups := ∅; r_AuthorizedUser := "" |}].
Definition office : Account := {|
  Peers := {[ "alice" := alice; "srv" := srv ]};
  Groups := {[ "laptops" := demo_group "laptops" ["alice"]; "servers" := demo_group "servers" ["srv"] ]};
  Policies := [office_policy]; Users := ∅; PostureChecks := [] |}.
Definition database : NetworkResource := {|
  nr_ID := "db"; nr_NetworkID := "lan"; nr_AccountID := "acc"; nr_Name := "db"; nr_Description := ""; nr_Type := Host; nr_Address := "10.0.0.7";
  nr_GroupIDs := []; nr_Domain := []; nr_Prefix := Some {| px_v6 := false; px_addr := 0x0A000007; px_bits := 32 |}; nr_Enabled := true |}.
Definition lan_router (p : string) : NetworkRouter :=
  {| ro_ID := "r-" +:+ p; ro_NetworkID := "lan"; ro_AccountID := "acc"; ro_Peer := p; ro_PeerGroups := []; ro_Masquerade := true; ro_Metric := 9999;
     ro_Enabled := true |}.
Definition office_more (p : Peer) : peer_more :=
  {| pm_Key := "key-" +:+ ID p; pm_DNSLabel := ID p; pm_ExtraDNSLabels := []; pm_UserID := ""; pm_LoginExpirationEnabled := false; pm_LastLogin := None |}.
Definition no_expiration : Settings := {| PeerLoginExpirationEnabled := false; PeerLoginExpiration := 0 |}.
Definition dotted_name (s : string) : string := s +:+ ".".
Definition all_managed : DNSSettings := {| DisabledManagementGroups := [] |}.
Abbreviation office_zone := (GetPeersCustomZone dotted_name office_more office "nb").
Abbreviation office_map_of v routers p :=
  (GetPeerNetworkMap all_new Some (λ _, None) dotted_name office_more 0 tt no_expiration all_managed office v ∅ [] [database] [] p office_zone []
     (GetResourcePoliciesMap office [database]) (GetResourceRoutersMap office routers)).
Definition office_map (v : gset string) (routers : list NetworkRouter) (p : string) : NetworkMap unit :=
  match office_map_of v routers p with Ret nm => nm | _ => only_network tt end.

Lemma office_wf : map_Forall (λ k p, ID p = k) (Peers office).
Proof. exact demo_wf. Qed.
Lemma office_domains r : r ∈ [database] → nr_Type r = Domain → is_Some (Some (nr_Domain r)).
Proof. done. Qed.
Lemma office_maps p : p = "alice" ∨ p = "srv" → office_map_of demo_validated [lan_router "srv"] p = Ret (office_map demo_validated [lan_router "srv"] p).
Proof. intros [-> | ->]; vm_compute; reflexivity. Qed.
Lemma office_peer p x : Peers office !! p = Some x → x = alice ∨ x = srv.
Proof.
  change (Peers office) with (<["alice" := alice]> {["srv" := srv]} : gmap string Peer).
  intros [[_ <-]|[_ [_ <-]%lookup_singleton_Some]]%lookup_insert_Some; auto.
Qed.

(** The laptop may use the database behind the server: the server's map lists the laptop. *)
Lemma maps_are_mutual_witness : nm_Peers (office_map demo_validated [lan_router "srv"] "alice") = [srv]
  ∧ alice ∈ nm_Peers (office_map demo_validated [lan_router "srv"] "srv").
Proof.
  assert (H : nm_Peers (office_map demo_validated [lan_router "srv"] "alice") = [srv]) by (vm_compute; reflexivity). split; [exact H|].
  destruct (maps_are_mutual all_new Some (λ _, None) dotted_name office_more 0 tt no_expiration all_managed office demo_validated ∅ [] [database] []
    [lan_router "srv"] office_zone [] office_wf office_domains alice srv _ eq_refl eq_refl
    ltac:(apply elem_of_union_l, elem_of_singleton; reflexivity) ltac:(apply elem_of_union_r, elem_of_singleton; reflexivity)
    (office_maps "alice" (or_introl eq_refl))) as (nm' & E & Hin).
  { rewrite H. left. }
  change (ID srv) with "srv" in E. rewrite (office_maps "srv" (or_intror eq_refl)) in E. injection E as <-.
  assert (Ho : nm_OfflinePeers (office_map demo_validated [lan_router "srv"] "srv") = []) by (vm_compute; reflexivity).
  rewrite Ho, app_nil_r in Hin. destruct Hin as [?|(r & pol & Hr%list_elem_of_singleton & _ & _ & Hpol & (ps & Eps & Hps & _))]; [done|exfalso].
  subst r. assert (Hp : default [] (GetResourcePoliciesMap office [database] !! nr_ID database) = [office_policy]) by (vm_compute; reflexivity).
  rewrite Hp in Hpol. apply list_elem_of_singleton in Hpol as ->. vm_compute in Eps. injection Eps as <-. by apply list_elem_of_singleton in Hps.
Defined.
(** The laptop resolves the server's name. *)
Lemma names_of_mapped_peers_witness : ∃ own rest, CustomZones (nm_DNSConfig (office_map demo_validated [lan_router "srv"] "alice")) = own :: rest
  ∧ peer_record "nb" (IP srv) "srv" ∈ cz_Records own.
Proof.
  destruct (names_of_mapped_peers all_new Some (λ _, None) dotted_name office_more 0 tt no_expiration all_managed office demo_validated ∅ [] [database] []
    [lan_router "srv"] office_zone [] office_wf office_domains) with (p := "alice") (peer := alice) (domain := "nb")
    (nm := office_map demo_validated [lan_router "srv"] "alice") (r := peer_record "nb" (IP srv) "srv") as (own & rest & E & _ & H).
  - intros p x [-> | ->]%office_peer; cbn; lia.
  - intros p x p' x' [-> | ->]%office_peer [-> | ->]%office_peer; done.
  - reflexivity.
  - apply elem_of_union_l, elem_of_singleton; reflexivity.
  - done.
  - done.
  - vm_compute. reflexivity.
  - reflexivity.
  - exact (office_maps "alice" (or_introl eq_refl)).
  - exists own, rest. split; [exact E|]. apply H. exists srv. split; [|left].
    assert (Hp : nm_Peers (office_map demo_validated [lan_router "srv"] "alice") = [srv]) by (vm_compute; reflexivity). rewrite Hp. right. left.
Defined.

(** A laptop that was not approved gets an empty map, and yet the server is told to connect to it. *)
Example unapproved_source_listed :
  nm_Peers (office_map {[ "srv" ]} [lan_router "srv"] "alice") = [] ∧ nm_Peers (office_map {[ "srv" ]} [lan_router "srv"] "srv") = [alice].
Proof. vm_compute. done. Qed.
(** The laptop routes the network too: the server is told about it, it is not told about the server. *)
Example routers_disagree :
  nm_Peers (office_map demo_validated [lan_router "srv"; lan_router "alice"] "srv") = [alice]
  ∧ nm_Peers (office_map demo_validated [lan_router "srv"; lan_router "alice"] "alice") = [].
Proof. vm_compute. done. Qed.
