(* ===== verification/MapCalculate.v ===== *)
(** The network map computed from components: [Calculate] of
    [src/management/server/types/networkmap_components.go] on what
    [MapComponents.GetPeerNetworkMapComponents] has collected, and its agreement with the map
    [NetworkMap] computes from the whole account.

    The functions for routes and network resources are those of [RouteMap] and [ResourceMap] on the
    view of the components: the two source files have them twice, with the lookups exchanged. *)
From stdpp Require Import pretty.
From S2P Require Import Prelude GoText NetIP Domains FirewallRules NetParse AclManager AclKeys AccessPolicy AccountObjects MapComponents RouteMap ResourceMap NetworkMap.
Open Scope Z_scope.

(** ** networkmap_components.go *)
Definition GetRouterPeerInfo (c : NetworkMapComponents) (p : string) : option Peer := c_RouterPeers c !! p.
Definition c_GetPeerGroups (c : NetworkMapComponents) (p : string) : gset string := dom (filter (λ x, p ∈ g_Peers x.2) (c_Groups c)).
Definition getAllRoutePoliciesFromGroups (c : NetworkMapComponents) (accessControlGroups : list string) : list Policy :=
  concat ((λ i, concat ((λ pol, (λ _, pol) <$> List.filter (λ rule, bool_decide (i ∈ r_Destinations rule)) (pol_Rules pol)) <$> c_Policies c))
          <$> accessControlGroups).
Definition components_view (c : NetworkMapComponents) : MapView := {|
  vw_peer := GetPeerInfo c;
  vw_router p := match GetPeerInfo c p with Some x => Some x | None => GetRouterPeerInfo c p end;
  vw_group := GetGroupInfo c;
  vw_approved p := bool_decide (is_Some (c_Peers c !! p));
  vw_posture checks p := ValidatePostureChecksOnPeer c p checks;
  vw_unique := c_getUniquePeerIDsFromGroupsIDs c;
  vw_route_policies g := getAllRoutePoliciesFromGroups c [g];
  vw_keyed := true |}.

Section calculate.
Context (version_at_least : string → string → outcome unit bool) (ToASCII : bytes → option bytes) (ToUnicode : string → option string).
Context (Fqdn : string → string) (more : Peer → peer_more) (now : Z).
Context {Net : Type} (network : Net) (settings : Settings) (dns_settings : DNSSettings).
Abbreviation Key := (λ p, pm_Key (more p)).

(** A domain that cannot be converted leaves a route without network. *)
Definition networkResourceToRoute (resource : NetworkResource) (peer : Peer) (router : NetworkRouter) : option Route :=
  let r net domains ty :=
    {| rt_ID := nr_ID resource +:+ ":" +:+ ID peer; rt_AccountID := nr_AccountID resource; rt_Network := net; rt_Domains := domains;
       rt_KeepRoute := true; rt_NetID := nr_Name resource; rt_Description := nr_Description resource; rt_Peer := Key peer; rt_PeerID := ID peer;
       rt_PeerGroups := []; rt_NetworkType := ty; rt_Masquerade := ro_Masquerade router; rt_Metric := ro_Metric router;
       rt_Enabled := nr_Enabled resource; rt_Groups := []; rt_AccessControlGroups := []; rt_SkipAutoApply := false |} in
  Some (match nr_Type resource with
        | Host | Subnet => r (nr_Prefix resource) [] (if Is6 (nr_Prefix resource) then IPv6Network else IPv4Network)
        | Domain => match FromString ToASCII (nr_Domain resource) with
                    | Some d => r (Some placeholder) [d] DomainNetwork
                    | None => r None [] InvalidNetwork
                    end
        end).

Section components.
Context (c : NetworkMapComponents).
Definition filterPeersByLoginExpiration (aclPeers : list Peer) : list Peer * list Peer :=
  (List.filter (λ p, negb (expired_peer more now settings p)) aclPeers, List.filter (expired_peer more now settings) aclPeers).
Definition c_getRoutingPeerRoutes (peerID : string) : list Route * list Route := getRoutingPeerRoutes (components_view c) (c_Routes c) Key peerID.
Definition c_getRoutesToSync (peerID : string) (aclPeers : list Peer) (peerGroups : gset string) : list Route :=
  GetRoutesToSync (components_view c) (c_Routes c) Key ToUnicode peerID aclPeers peerGroups.
Definition c_getDistributionGroupsPeers (r : Route) : gset string := getDistributionGroupsPeers (components_view c) r.
Definition c_getRulePeers := getRulePeers (components_view c).
Definition c_getRouteFirewallRules := getRouteFirewallRules (components_view c).
Definition c_getPeerRoutesFirewallRules (peerID : string) : list RouteFirewallRule :=
  GetPeerRoutesFirewallRules (components_view c) (c_Routes c) Key peerID.
Definition c_getNetworkResourcesRoutes := getNetworkResourcesRoutes (components_view c) networkResourceToRoute (c_ResourcePoliciesMap c).
Definition c_getPostureValidPeers := getPostureValidPeers (components_view c).
Definition c_getNetworkResourcesRoutesToSync (peerID : string) : outcome unit (bool * list (option Route) * gset string) :=
  GetNetworkResourcesRoutesToSync (components_view c) networkResourceToRoute (c_NetworkResources c) (c_ResourcePoliciesMap c) (c_RoutersMap c) peerID.
Definition c_getPoliciesSourcePeers (policies : list Policy) : gset string := getPoliciesSourcePeers (components_view c) policies.
Definition c_getPeerNetworkResourceFirewallRules (peerID : string) (routes : list Route) : list RouteFirewallRule :=
  match GetPeerInfo c peerID with
  | None => []
  | Some peerInfo => GetPeerNetworkResourceFirewallRules (components_view c) peerID (Key peerInfo) routes (c_ResourcePoliciesMap c)
  end.
Definition c_addNetworksRoutingPeers := addNetworksRoutingPeers (components_view c).

Definition getPeerDNSManagementStatusFromGroups (peerGroups : gset string) : bool :=
  negb (existsb (λ i, bool_decide (i ∈ peerGroups)) (DisabledManagementGroups dns_settings)).
(** The texts of the addresses are compared: an IPv6 address is never the text of an IPv4 one. *)
Definition c_peerIsNameserver (peer : Peer) (ns : NameServerGroup) : bool :=
  existsb (λ s, negb (srv_IP s).1 && ((srv_IP s).2 =? IP peer)) (ns_NameServers ns).
Definition getPeerNSGroupsFromGroups (nsGroups : list NameServerGroup) (peerID : string) (groupList : gset string) : list NameServerGroup :=
  match GetPeerInfo c peerID with
  | None => []
  | Some peer => List.filter (λ ns, ns_Enabled ns && existsb (λ i, bool_decide (i ∈ groupList)) (ns_Groups ns) && negb (c_peerIsNameserver peer ns)) nsGroups
  end.

(** The fields of the components for DNS. *)
Record DNSComponents := {
  d_CustomZoneDomain : string; d_NameServerGroups : list NameServerGroup; d_AllDNSRecords : list SimpleRecord; d_AccountZones : list CustomZone }.
Definition Calculate (d : DNSComponents) : outcome unit (NetworkMap Net) :=
  let p := c_PeerID c in
  let peerGroups := c_GetPeerGroups c p in
  let conn := getPeerConnectionResources version_at_least c in
  let '(peersToConnect, expiredPeers) := filterPeersByLoginExpiration (peers (res_st conn)) in
  let routesUpdate := c_getRoutesToSync p peersToConnect peerGroups in
  let routesFirewallRules := c_getPeerRoutesFirewallRules p in
  x ← c_getNetworkResourcesRoutesToSync p;
  let '(isRouter, resourceRoutes, sourcePeers) := x in
  routes ← no_nil resourceRoutes;
  let resourceRules := if isRouter : bool then c_getPeerNetworkResourceFirewallRules p routes else [] in
  connect ← c_addNetworksRoutingPeers resourceRoutes p peersToConnect expiredPeers isRouter sourcePeers;
  let dns :=
    if getPeerDNSManagementStatusFromGroups peerGroups then
      {| ServiceEnable := true;
         CustomZones :=
           (if negb (bool_decide (d_CustomZoneDomain d = "")) && negb (bool_decide (d_AllDNSRecords d = [])) then
              [{| cz_Domain := d_CustomZoneDomain d; cz_Records := d_AllDNSRecords d; cz_SearchDomainDisabled := false; cz_NonAuthoritative := false |}]
            else []) ++ d_AccountZones d;
         cfg_NameServerGroups := getPeerNSGroupsFromGroups (d_NameServerGroups d) p peerGroups |}
    else no_dns in
  Ret {| nm_Peers := connect; nm_Network := network; nm_Routes := routes ++ routesUpdate; nm_DNSConfig := dns; nm_OfflinePeers := expiredPeers;
         nm_FirewallRules := rules (res_st conn); nm_RoutesFirewallRules := resourceRules ++ routesFirewallRules;
         nm_AuthorizedUsers := authorizedUsers conn; nm_EnableSSH := sshEnabled conn |}.
End components.

(** ** account_components.go: the rest of the components, and the map *)
Context (a : Account) (v : gset string) (users : gmap string (list string)).
Context (Routes : list Route) (Resources : list NetworkResource) (NameServerGroups : list NameServerGroup).
Definition filterDNSRecordsByPeers (records : list SimpleRecord) (relevantPeers : gmap string (option Peer)) : list SimpleRecord :=
  let peerIPs : gset string := list_to_set (omap (λ x, (λ p, IP_String (IP p)) <$> x.2) (map_to_list relevantPeers)) in
  filter (λ r, rec_RData r ∈ peerIPs) records.
(** Records and name servers are selected by what the policies and routes have made relevant, before
    the resources are looked at. *)
Definition dns_components (peerID : string) (peer : Peer) (peersCustomZone : CustomZone) (accountZones : list Zone) : DNSComponents :=
  let relevant := getPeersGroupsPoliciesRoutes a Routes v peerID (SSHEnabled peer) in
  {| d_CustomZoneDomain := cz_Domain peersCustomZone;
     d_NameServerGroups :=
       List.filter (λ ns, ns_Enabled ns && existsb (λ i, bool_decide (is_Some (k_Groups relevant !! i))) (ns_Groups ns)) NameServerGroups;
     d_AllDNSRecords := filterDNSRecordsByPeers (cz_Records peersCustomZone) (k_Peers relevant);
     d_AccountZones := filterPeerAppliedZones Fqdn accountZones (GetPeerGroups a peerID) |}.
Definition GetPeerNetworkMapFromComponents (peerID : string) (peersCustomZone : CustomZone) (accountZones : list Zone)
    (resourcePolicies : gmap string (list Policy)) (routers : gmap string (gmap string NetworkRouter)) : outcome unit (NetworkMap Net) :=
  oc ← GetPeerNetworkMapComponents a Routes v Resources resourcePolicies routers peerID users;
  match oc, Peers a !! peerID with
  | Some c, Some peer => Calculate c (dns_components peerID peer peersCustomZone accountZones)
  | _, _ => Ret (only_network network)
  end.
End calculate.
