(* ===== verification/MapEquivalence.v ===== *)
(** The network map computed from components is the one computed from the whole account, restricted
    to approved peers: [GetPeerNetworkMapFromComponents] of
    [src/management/server/types/account_components.go], which the controller calls by default,
    against [GetPeerNetworkMap] of [account.go].

    [cv] below is the view the component computation has of the account, [av] the account itself.
    The first section compares the two once the components have been collected. *)
From stdpp Require Import pretty.
From S2P Require Import Prelude GoText NetIP Domains FirewallRules NetParse AclManager AclKeys AccessPolicy AccountObjects MapComponents RouteMap ResourceMap NetworkMap MapCalculate.
Open Scope Z_scope.

(** *** Shared facts *)
Lemma collect_routers_lookup resources pm (rm : routers_map) r : r ∈ resources → has_policies pm r = true →
  collect_routers resources pm rm !! nr_NetworkID r = Some (default ∅ (rm !! nr_NetworkID r)).
Proof.
  intros Hr Hp. unfold collect_routers.
  assert (H : ∀ rs (m : routers_map), m !! nr_NetworkID r = Some (default ∅ (rm !! nr_NetworkID r)) ∨ r ∈ rs →
    foldl (λ (m : routers_map) x, if has_policies pm x then <[nr_NetworkID x := default ∅ (rm !! nr_NetworkID x)]> m else m) m rs !! nr_NetworkID r
    = Some (default ∅ (rm !! nr_NetworkID r))); [|apply H; by right].
  clear Hr. induction rs as [|x rs IH]; intros m Hm; cbn [foldl]; [by destruct Hm as [?|?%not_elem_of_nil]|]. apply IH.
  destruct Hm as [Hm|[->|?]%elem_of_cons]; [left|left|by right].
  - destruct (has_policies pm x); [|done]. destruct (decide (nr_NetworkID x = nr_NetworkID r)) as [->|]; [by rewrite lookup_insert_eq|by rewrite lookup_insert_ne].
  - rewrite Hp. by rewrite lookup_insert_eq.
Qed.
Lemma router_peers_lookup a resources pm rm p x : collect_router_peers a resources pm rm !! p = Some x → Peers a !! p = Some x.
Proof.
  unfold collect_router_peers.
  assert (H1 : ∀ ps (m : gmap string Peer), (∀ y, m !! p = Some y → Peers a !! p = Some y) → ∀ y, foldl (add_router_peer a) m ps !! p = Some y → Peers a !! p = Some y).
  { induction ps as [|q ps IH]; intros m Hm y; cbn [foldl]; [apply Hm|]. apply IH. intros z. unfold add_router_peer.
    destruct (Peers a !! q) as [w|] eqn:Eq; [|apply Hm]. destruct (m !! q); [apply Hm|]. by intros [[<- <-]|[_ ?]]%lookup_insert_Some; [|apply Hm]. }
  assert (H2 : ∀ rs (m : gmap string Peer), (∀ y, m !! p = Some y → Peers a !! p = Some y) → ∀ y,
    foldl (λ m r, if has_policies pm r then foldl (add_router_peer a) m (elements (dom (default ∅ (rm !! nr_NetworkID r)) : gset string)) else m) m rs !! p
    = Some y → Peers a !! p = Some y).
  { induction rs as [|r rs IH]; intros m Hm; cbn [foldl]; [exact Hm|]. apply IH. destruct (has_policies pm r); [by apply H1|exact Hm]. }
  apply H2. intros y. by rewrite lookup_empty.
Qed.
Lemma resource_policies_inv a Resources i pols pol : GetResourcePoliciesMap a Resources !! i = Some pols → pol ∈ pols → pol_Rules pol ≠ [].
Proof.
  assert (H : ∀ rs (m : gmap string (list Policy)), (∀ ps, m !! i = Some ps → ps = GetPoliciesForNetworkResource a i) →
    ∀ ps, foldl (λ (m : gmap string (list Policy)) r, if negb (nr_Enabled r) then m else <[nr_ID r := GetPoliciesForNetworkResource a (nr_ID r)]> m) m rs !! i = Some ps →
      ps = GetPoliciesForNetworkResource a i).
  { induction rs as [|r rs IH]; intros m Hm; cbn [foldl]; [exact Hm|]. apply IH. intros ps. destruct (nr_Enabled r); cbn [negb]; [|apply Hm].
    intros [[<- <-]|[_ ?]]%lookup_insert_Some; [done|by apply Hm]. }
  intros ->%(H Resources ∅); [|intros ps; by rewrite lookup_empty].
  intros (_ & _ & rule & Hr & _)%resource_policies_elem E. rewrite E in Hr. by apply not_elem_of_nil in Hr.
Qed.
(** With a group All that has everybody, the members of groups are the members of one of them. *)
Lemma member_unique a gs p i g :
  (∀ i g j g' p, Groups a !! i = Some g → IsGroupAll g = true → Groups a !! j = Some g' → p ∈ g_Peers g' → p ∈ g_Peers g) →
  i ∈ gs → Groups a !! i = Some g → p ∈ g_Peers g → p ∈ getUniquePeerIDsFromGroupsIDs a gs.
Proof.
  intros Hall Hi Hg Hp. unfold getUniquePeerIDsFromGroupsIDs.
  assert (H : ∀ (single : bool) gs (acc : gset string), (single = true → length gs ≤ 1 ∧ p ∉ acc)%nat → p ∈ acc ∨ i ∈ gs → p ∈ unique_loop a single gs acc);
    [|apply H; [|by right]; intros Hl%bool_decide_eq_true; rewrite Hl; split; [done|apply not_elem_of_empty]].
  clear gs Hi. intros single gs. induction gs as [|j gs IH]; intros acc Hs Hin; cbn [unique_loop].
  { apply elem_of_elements. by destruct Hin as [?|?%not_elem_of_nil]. }
  unfold GetGroup. destruct (Groups a !! j) as [g'|] eqn:Ej.
  - destruct (IsGroupAll g') eqn:Ea; cbn [orb]; [by eapply (Hall j g' i g)|]. destruct single.
    + destruct (Hs eq_refl) as [Hl Hna]. destruct gs as [|? ?]; [|cbn in Hl; lia]. destruct Hin as [?|Hj%list_elem_of_singleton]; [done|].
      subst j. rewrite Hg in Ej. by injection Ej as <-.
    + apply IH; [done|]. rewrite elem_of_union, elem_of_list_to_set. destruct Hin as [?|[->|?]%elem_of_cons]; [tauto| |tauto].
      rewrite Hg in Ej. injection Ej as <-. tauto.
  - apply IH; [intros H; destruct (Hs H) as [Hl ?]; split; [cbn in Hl; lia|done]|]. destruct Hin as [?|[->|?]%elem_of_cons]; [by left|congruence|by right].
Qed.

Section equivalence.
Context (ver : string → string → outcome unit bool) (ToASCII : bytes → option bytes) (ToUnicode : string → option string).
Context (Fqdn : string → string) (more : Peer → peer_more) (now : Z).
Context {Net : Type} (network : Net) (settings : Settings) (dns_settings : DNSSettings).
Context (a : Account) (v : gset string) (users : gmap string (list string)).
Context (Routes : list Route) (Resources : list NetworkResource) (NameServerGroups : list NameServerGroup) (Routers : list NetworkRouter).
Abbreviation Key := (λ p, pm_Key (more p)).
Abbreviation policies := (GetResourcePoliciesMap a Resources).
Abbreviation routers := (GetResourceRoutersMap a Routers).
(** The account: indexed by ids, without embedded peers, with named posture checks, domains that can
    be converted, a group All that has everybody, and no dangling references. *)
Context (Hwf : map_Forall (λ k p, ID p = k) (Peers a)) (Hemb : map_Forall (λ _ p, Embedded p = false) (Peers a)).
Context (Hnames : ∀ c, c ∈ PostureChecks a → c_ID c ≠ "").
Context (Hdomains : ∀ r, r ∈ Resources → nr_Type r = Domain → is_Some (ToASCII (nr_Domain r))).
Context (Hall : ∀ i g j g' p, Groups a !! i = Some g → IsGroupAll g = true → Groups a !! j = Some g' → p ∈ g_Peers g' → p ∈ g_Peers g).
Context (Hres : ∀ pol rule r, (pol, rule) ∈ enabled_rules (Policies a) → r = r_SourceResource rule ∨ r = r_DestinationResource rule →
  is_peer_resource r = true → res_ID r ∈ v).
Context (Hexist : ∀ pol rule i, (pol, rule) ∈ enabled_rules (Policies a) → i ∈ r_Sources rule ++ r_Destinations rule → is_Some (Groups a !! i)).
Context (Hroutes : ∀ r i, r ∈ Routes → i ∈ rt_Groups r ++ rt_PeerGroups r ++ rt_AccessControlGroups r → is_Some (Groups a !! i)).
Context (Hrids : route_ids_ok Routes).
Context (peer : Peer) (Hpeer : Peers a !! ID peer = Some peer) (Hval : ID peer ∈ v).
Abbreviation pid := (ID peer).
Abbreviation av := (account_view a v).

(** Peers a computation adds for the sake of resources, from its routes and sources. *)
Definition resource_added (isR : bool) (routes : list Route) (srcs : gset string) (i : string) : Prop :=
  isR = true ∧ i ∈ srcs ∨ ∃ x, x ∈ routes ∧ rt_PeerID x = i.
(** The route goes through an approved peer. *)
Definition by_approved (x : Route) : Prop := ∃ q y, Peers a !! q = Some y ∧ q ∈ v ∧ rt_Peer x = Key y.

(** *** Views *)
Section collected.
Context (st : collected) (rpm : gmap string (list Policy)) (nrs : list NetworkResource).
Abbreviation c := (comp a Routes peer Resources policies routers users st rpm nrs).
Abbreviation cv := (components_view c).
Context (Hinv : inv a v peer st).
Context (Hmine : ∀ i g, Groups a !! i = Some g → pid ∈ g_Peers g → is_Some (k_Groups st !! i)).
Context (Hrg : ∀ r i, r ∈ Routes → i ∈ rt_Groups r ++ rt_PeerGroups r → is_Some (k_Groups st !! i)).
Context (Hrpm : ∀ i pols, rpm !! i = Some pols → policies !! i = Some pols).
Context (Hnrs : ∀ r, r ∈ nrs ↔ r ∈ Resources ∧ has_policies policies r = true ∧ wanted a v peer policies routers r).
Context (Hok : ∀ r, r ∈ Resources → has_policies policies r = true → resource_ok a v peer policies routers r st rpm).
Abbreviation known q := (is_Some (k_Peers st !! q)).

Lemma view_peer q : known q → vw_peer cv q = Peers a !! q.
Proof using Hinv. intros Hk. cbn [components_view vw_peer]. rewrite (comp_peer a v) by exact Hinv. by rewrite decide_True. Qed.
Lemma view_peer_inv q x : vw_peer cv q = Some x → Peers a !! q = Some x ∧ q ∈ v ∧ known q.
Proof using Hinv.
  cbn [components_view vw_peer]. rewrite (comp_peer a v) by exact Hinv. destruct (decide (known q)) as [Hk|]; [|done]. intros Hq.
  split; [done|]. split; [|done]. destruct Hk as [o Ho]. destruct (inv_peers _ _ _ _ Hinv q o Ho) as [-> Hv]. apply Hv. by rewrite Hq.
Qed.
Lemma view_router_inv q x : vw_router cv q = Some x → Peers a !! q = Some x.
Proof using Hinv.
  cbn [components_view vw_router]. destruct (GetPeerInfo c q) as [y|] eqn:E; [|by intros ?%router_peers_lookup].
  intros [= <-]. by apply (view_peer_inv q y) in E as [? _].
Qed.
Lemma view_router q : known q → vw_router cv q = Peers a !! q.
Proof using Hinv.
  intros Hk. destruct (Peers a !! q) as [x|] eqn:E.
  - cbn [components_view vw_router]. change (GetPeerInfo c q) with (vw_peer cv q). by rewrite (view_peer q Hk), E.
  - destruct (vw_router cv q) eqn:Er; [|done]. apply view_router_inv in Er. congruence.
Qed.
Lemma view_group i q : is_Some (k_Groups st !! i) → known q →
  (∃ g, vw_group cv i = Some g ∧ q ∈ g_Peers g) ↔ ∃ g, Groups a !! i = Some g ∧ q ∈ g_Peers g.
Proof using Hinv.
  intros Hi Hk. cbn [components_view vw_group]. unfold GetGroupInfo. split.
  - intros (g & (g0 & ? & _ & Hp)%(comp_group a v) & [? _]%Hp); [|exact Hinv]. by exists g0.
  - intros (g0 & Hg & Hq). destruct (comp_group_present a v Routes peer Resources policies routers users st rpm nrs Hinv i g0 q Hg Hi Hq Hk) as [g Eg]. exists g. split; [exact Eg|].
    apply (comp_group a v) in Eg as (g1 & Eg1 & _ & Hp); [|exact Hinv]. apply Hp. rewrite Hg in Eg1. by injection Eg1 as <-.
Qed.
Lemma view_peer_groups : c_GetPeerGroups c pid = GetPeerGroups a pid.
Proof using Hinv Hmine.
  unfold c_GetPeerGroups, GetPeerGroups. apply set_eq. intros i. rewrite !elem_of_dom.
  assert (Hf : ∀ m : gmap string Group, is_Some (filter (λ x, pid ∈ g_Peers x.2) m !! i) ↔ ∃ g, m !! i = Some g ∧ pid ∈ g_Peers g).
  { intros m. unfold is_Some. by setoid_rewrite map_lookup_filter_Some. }
  rewrite !Hf. pose proof (inv_target _ _ _ _ Hinv) as Hk. split.
  - intros (g & (g0 & ? & _ & Hp)%(comp_group a v) & [? _]%Hp); [|exact Hinv]. by exists g0.
  - intros (g & Hg & Hp). apply view_group; [by eapply Hmine|done|by exists g].
Qed.

(** *** Routes *)
Lemma view_serves q r r' : r ∈ Routes → known q → serves cv q r r' ↔ serves av q r r'.
Proof using Hinv Hrg.
  intros Hr Hk. unfold serves. apply or_iff_compat_r, and_iff_compat_l.
  assert (H : ∀ i, i ∈ rt_PeerGroups r → (∃ g, vw_group cv i = Some g ∧ q ∈ g_Peers g) ↔ ∃ g, vw_group av i = Some g ∧ q ∈ g_Peers g).
  { intros i Hi. apply view_group; [|done]. apply (Hrg r); [done|]. apply elem_of_app. by right. }
  clear -H. naive_solver.
Qed.
Lemma view_routing q : known q →
  (∀ x, x ∈ (getRoutingPeerRoutes cv Routes Key q).1 ↔ x ∈ (getRoutingPeerRoutes av Routes Key q).1)
  ∧ ∀ h, (∃ y, y ∈ (getRoutingPeerRoutes cv Routes Key q).2 ∧ h = GetHAUniqueID ToUnicode y)
       ↔ ∃ y, y ∈ (getRoutingPeerRoutes av Routes Key q).2 ∧ h = GetHAUniqueID ToUnicode y.
Proof using Hinv Hrg Hrids.
  intros Hk. destruct (routing_peer_routes cv Routes Key Hrids q) as [C1 C2]. destruct (routing_peer_routes av Routes Key Hrids q) as [A1 A2].
  split.
  - intros x. rewrite C1, A1. rewrite (view_router q Hk). split; intros (p & r & r' & ? & ? & Hs & ? & ->); exists p, r, r'; (split; [done|]); (split; [done|]);
      (split; [by apply view_serves in Hs|done]) || (split; [by apply view_serves|done]).
  - intros h. split.
    + intros (y & (p & r & r' & Hp & ? & Hs & ? & ->)%C2 & ->). rewrite (view_router q Hk) in Hp. apply view_serves in Hs; [|done..].
      exists (disabled_copy av Key p r'). split; [|reflexivity]. apply A2. by exists p, r, r'.
    + intros (y & (p & r & r' & Hp & ? & Hs & ? & ->)%A2 & ->). apply view_serves in Hs; [|done..].
      exists (disabled_copy cv Key p r'). split; [|reflexivity]. apply C2. exists p, r, r'. by rewrite (view_router q Hk).
Qed.
Lemma view_sync acl acl' x : (∀ q, q ∈ acl ↔ q ∈ acl') → (∀ q, q ∈ acl → known (ID q)) →
  x ∈ c_getRoutesToSync ToUnicode more c pid acl (c_GetPeerGroups c pid) ↔ x ∈ GetRoutesToSync av Routes Key ToUnicode pid acl' (GetPeerGroups a pid).
Proof using Hinv Hmine Hrg Hrids.
  intros Hacl Hk. unfold c_getRoutesToSync. rewrite view_peer_groups. cbn [comp c_Routes]. rewrite !routes_to_sync_elem.
  destruct (view_routing pid (inv_target _ _ _ _ Hinv)) as [H1 H2]. rewrite H1. apply or_iff_compat_l.
  assert (Hown : ∀ h, (∃ y, y ∈ (getRoutingPeerRoutes cv Routes Key pid).1 ++ (getRoutingPeerRoutes cv Routes Key pid).2 ∧ h = GetHAUniqueID ToUnicode y)
    ↔ ∃ y, y ∈ (getRoutingPeerRoutes av Routes Key pid).1 ++ (getRoutingPeerRoutes av Routes Key pid).2 ∧ h = GetHAUniqueID ToUnicode y).
  { intros h. setoid_rewrite elem_of_app. specialize (H2 h). clear -H1 H2. naive_solver. }
  setoid_rewrite Hown. split; intros (p & Hp & Hx & ? & ?); exists p; (split; [by apply Hacl|]); (split; [|done]).
  - by apply (view_routing (ID p)); [apply Hk|].
  - apply (view_routing (ID p)); [|done]. by apply Hk, Hacl.
Qed.

(** *** Sources of resources *)
Lemma sources_av pol p : pol_Rules pol ≠ [] → (∃ ps, policy_sources av pol = Ret ps ∧ p ∈ ps) ↔ p ∈ resource_sources a pol.
Proof using Type.
  intros Hr. unfold policy_sources, resource_sources, first_source. destruct (pol_Rules pol) as [|rule rs]; [done|]. cbn [mbind outcome_bind].
  split; [intros (ps & [= <-] & H)|intros H; eexists; split; [reflexivity|]]; by destruct (is_peer_resource _).
Qed.
Lemma sources_cv pol p : pol_Rules pol ≠ [] → known p → covered a st (SourceGroups pol) p →
  (∃ ps, policy_sources cv pol = Ret ps ∧ p ∈ ps) ↔ p ∈ resource_sources a pol.
Proof using Hinv Hall.
  intros Hr Hk Hc. unfold policy_sources, resource_sources, first_source. destruct (pol_Rules pol) as [|rule rs]; [done|]. cbn [mbind outcome_bind].
  assert (Hu : p ∈ vw_unique cv (SourceGroups pol) ↔ p ∈ getUniquePeerIDsFromGroupsIDs a (SourceGroups pol)).
  { cbn [components_view vw_unique]. by apply (comp_unique a v). }
  destruct (is_peer_resource _); (split; [intros (ps & [= <-] & H)|intros H; eexists; split; [reflexivity|]]); [exact H..| |]; by apply Hu.
Qed.
(** The judgement of the components on a source that exists is the account's, with approval. *)
Lemma view_source_of pol p k pols : rpm !! k = Some pols → pol ∈ pols → seen a v pol p st → covered a st (SourceGroups pol) p →
  is_Some (Peers a !! p) → (source_of av pol p → p ∈ v → known p) → source_of cv pol p ↔ source_of av pol p ∧ p ∈ v.
Proof using Hinv Hall Hwf Hemb Hnames Hrpm Hpeer Hval.
  intros Hk Hpol Hseen Hcov [q Hq] Hadm. assert (Hr : pol_Rules pol ≠ []) by (eapply resource_policies_inv; [by apply Hrpm|done]).
  assert (Hav : source_of av pol p ↔ p ∈ resource_sources a pol ∧ first_failed a (pol_SourcePostureChecks pol) q = None).
  { rewrite (first_failed_None a _ _ _ Hq), <- (sources_av pol p Hr). unfold source_of. cbn [account_view vw_posture]. clear. naive_solver. }
  assert (Hcv : known p → p ∈ v → source_of cv pol p ↔ p ∈ resource_sources a pol ∧ first_failed a (pol_SourcePostureChecks pol) q = None).
  { intros Hkn Hv. rewrite <- (sources_cv pol p Hr Hkn Hcov). unfold source_of. cbn [components_view vw_posture].
    assert (Hx : p ∈ resource_sources a pol → ValidatePostureChecksOnPeer c p (pol_SourcePostureChecks pol) = true ↔ first_failed a (pol_SourcePostureChecks pol) q = None).
    { intros Hs. apply (comp_validate_failed a v); [done..|]. intros i Hrej.
      eapply (comp_failed_complete a); [right; by exists k, pols| |done|by apply Hseen].
      destruct Hrej as (q' & _ & _ & Hf). by apply (first_failed_Some a Hwf Hemb Hnames) in Hf as (? & _). }
    split; [intros (ps & E & Hin & Hok')|intros [(ps & E & Hin) Hok']].
    - split; [by exists ps|]. apply Hx; [|done]. apply (sources_cv pol p Hr Hkn Hcov). by exists ps.
    - exists ps. split; [done|]. split; [done|]. apply Hx; [|done]. apply (sources_cv pol p Hr Hkn Hcov). by exists ps. }
  split.
  - intros Hs. assert (Hkn : known p).
    { destruct Hs as (ps & _ & _ & Hpo). cbn [components_view vw_posture] in Hpo. unfold ValidatePostureChecksOnPeer in Hpo. cbn [comp c_Peers] in Hpo.
      destruct (k_Peers st !! p); [by eauto|done]. }
    assert (Hv : p ∈ v) by (destruct Hkn as [o Ho]; destruct (inv_peers _ _ _ _ Hinv p o Ho) as [-> Hv]; apply Hv; by rewrite Hq).
    split; [|done]. by apply Hav, Hcv.
  - intros [Hs Hv]. apply Hcv; [by apply Hadm|done|by apply Hav].
Qed.
Lemma view_admits pol : pol_Rules pol ≠ [] → admits a v peer pol ↔ source_of av pol pid.
Proof using Hall Hwf Hemb Hpeer Hval.
  clear Hok Hnrs Hrpm Hrg Hmine Hinv. intros Hr. unfold admits. rewrite (adm_spec a v Hwf Hemb).
  assert (Hs : (∃ rule rules, pol_Rules pol = rule :: rules ∧ if is_peer_resource (r_SourceResource rule) then res_ID (r_SourceResource rule) = pid
      else ∃ i g, i ∈ SourceGroups pol ∧ Groups a !! i = Some g ∧ pid ∈ g_Peers g) ↔ pid ∈ resource_sources a pol).
  { unfold resource_sources. destruct (pol_Rules pol) as [|rule rs]; [done|]. split.
    - intros (? & ? & [= <- <-] & H). destruct (is_peer_resource _); [rewrite H; by apply list_elem_of_singleton|].
      destruct H as (i & g & Hi & Hg & Hp). exact (member_unique a _ _ i g Hall Hi Hg Hp).
    - intros H. exists rule, rs. split; [done|]. destruct (is_peer_resource _); [by apply list_elem_of_singleton in H|].
      by apply unique_loop_elem in H as [[]%not_elem_of_empty|?]. }
  rewrite Hs, <- (sources_av pol pid Hr). unfold source_of. cbn [account_view vw_posture].
  setoid_rewrite <- (first_failed_None a _ _ _ Hpeer). split.
  - intros [(q & Hq & _ & Hf) (ps & E & Hin)]. exists ps. split; [done|]. split; [done|]. rewrite Hpeer in Hq. by injection Hq as ->.
  - intros (ps & E & Hin & Hf). split; [by exists peer|by exists ps].
Qed.
Lemma covered_gathered pol p : gathered a v pol st → covered a st (SourceGroups pol) p.
Proof using Type.
  intros Hg i g (rule & Hr & Hi)%SourceGroups_elem Eg _. eapply (ga_groups _ _ _ _ Hg); [done..|]. by eauto.
Qed.

(** *** Resources *)
Abbreviation pols_of r := (default [] (policies !! nr_ID r)).
Abbreviation cpols_of r := (default [] (rpm !! nr_ID r)).
Abbreviation crouters := (c_RoutersMap c).
Lemma has_policies_enabled r : r ∈ Resources → has_policies policies r = nr_Enabled r.
Proof using Type.
  intros Hr. unfold has_policies. destruct (nr_Enabled r) eqn:E; [|done]. apply bool_decide_eq_true_2. rewrite resource_policies_lookup by done. by eauto.
Qed.
Lemma view_policies r : r ∈ nrs → cpols_of r = pols_of r.
Proof using Hnrs Hok Hrpm.
  intros (Hr & Hp & Hw)%Hnrs. pose proof (ro_policies _ _ _ _ _ _ _ _ (Hok r Hr Hp) Hw) as H. destruct (rpm !! nr_ID r) as [pols|] eqn:E; [by rewrite (Hrpm _ _ E)|].
  destruct (pols_of r) as [|pol pols]; [done|]. destruct (H ltac:(done)) as [? ?]. done.
Qed.
Lemma view_routers r : r ∈ Resources → nr_Enabled r = true → default ∅ (crouters !! nr_NetworkID r) = default ∅ (routers !! nr_NetworkID r).
Proof using Type.
  intros Hr He. cbn [comp c_RoutersMap]. rewrite collect_routers_lookup; [done..|]. by rewrite has_policies_enabled.
Qed.
Lemma listed_policy r pol : r ∈ nrs → pol ∈ pols_of r → ∃ pols, rpm !! nr_ID r = Some pols ∧ pol ∈ pols.
Proof using Hnrs Hok Hrpm.
  intros Hr. rewrite <- (view_policies r Hr). destruct (rpm !! nr_ID r) as [pols|]; [|by intros ?%not_elem_of_nil]. intros ?. by exists pols.
Qed.
Lemma resource_wanted r : r ∈ Resources → nr_Enabled r = true →
  r ∈ nrs ↔ is_Some (default ∅ (routers !! nr_NetworkID r) !! pid) ∨ ∃ pol, pol ∈ pols_of r ∧ source_of av pol pid.
Proof using Hnrs Hall Hwf Hemb Hpeer Hval.
  intros Hr He. rewrite Hnrs, has_policies_enabled by done. unfold wanted.
  assert (H : (∃ pol, pol ∈ pols_of r ∧ admits a v peer pol) ↔ ∃ pol, pol ∈ pols_of r ∧ source_of av pol pid).
  { split; intros (pol & Hp & H); exists pol; (split; [done|]); apply view_admits; try exact H; by eapply resource_policies_have_rules. }
  rewrite H, He. split; [by intros (_ & _ & ?)|]. intros HH. split; [exact Hr|]. split; [done|exact HH].
Qed.
(** A source the target routes for, and the target itself as a source. *)
Lemma view_source_router r pol s : r ∈ nrs → is_Some (default ∅ (routers !! nr_NetworkID r) !! pid) → pol ∈ pols_of r → is_Some (Peers a !! s) →
  source_of cv pol s ↔ source_of av pol s ∧ s ∈ v.
Proof using Hinv Hall Hwf Hemb Hnames Hrpm Hpeer Hval Hnrs Hok.
  intros Hr Hrt Hpol [x Hs]. pose proof (listed_policy r pol Hr Hpol) as (pols & Epols & Hin). pose proof Hr as (HR & Hp & _)%Hnrs.
  pose proof (ro_gathered _ _ _ _ _ _ _ _ (Hok r HR Hp) Hrt pol Hpol) as Hg. eapply view_source_of; [done..|by apply (ga_failed _ _ _ _ Hg)|by apply covered_gathered|by eauto|].
  intros (ps & Eps & Hps & Hpo) Hv. apply (ga_peers _ _ _ _ Hg).
  - apply sources_av; [eapply resource_policies_inv; [by apply Hrpm|done]|by exists ps].
  - apply (adm_spec a v Hwf Hemb). exists x. split; [done|]. split; [done|]. by apply (first_failed_None a _ _ _ Hs).
Qed.
Lemma view_source_target r pol : r ∈ nrs → pol ∈ pols_of r → source_of cv pol pid ↔ source_of av pol pid.
Proof using Hinv Hall Hwf Hemb Hnames Hrpm Hpeer Hval Hnrs Hok Hmine.
  intros Hr Hpol. pose proof (listed_policy r pol Hr Hpol) as (pols & Epols & Hin). pose proof Hr as (HR & Hp & _)%Hnrs.
  rewrite (view_source_of pol pid (nr_ID r) pols); [by split; [intros [? _]|]|done..|by eapply (ro_seen _ _ _ _ _ _ _ _ (Hok r HR Hp))| |by eauto|].
  - intros i g _. apply Hmine.
  - intros _ _. apply (inv_target _ _ _ _ Hinv).
Qed.
Lemma view_gets_route r q router : r ∈ Resources →
  r ∈ nrs ∧ gets_route cv rpm crouters pid r q router ↔ gets_route av policies routers pid r q router.
Proof using Hinv Hall Hwf Hemb Hnames Hrpm Hpeer Hval Hnrs Hok Hmine.
  intros HR. unfold gets_route. split.
  - intros (Hr & He & Hne & Hrt & Hs). rewrite (view_routers r HR He) in *. rewrite (view_policies r Hr) in *. split; [done|]. split; [done|]. split; [done|].
    destruct Hs as [?|[? (pol & Hp & Hs)]]; [by left|right]. split; [done|]. exists pol. split; [done|]. by apply (view_source_target r).
  - intros (He & Hne & Hrt & Hs). assert (Hr : r ∈ nrs).
    { apply resource_wanted; [done..|]. destruct Hs as [->|[_ ?]]; [left; by eauto|by right]. }
    rewrite (view_routers r HR He), (view_policies r Hr). split; [done|]. split; [done|]. split; [done|]. split; [done|].
    destruct Hs as [?|[? (pol & Hp & Hs)]]; [by left|right]. split; [done|]. exists pol. split; [done|]. by apply (view_source_target r).
Qed.
Lemma view_routes_resource r : r ∈ Resources → r ∈ nrs ∧ routes_resource crouters pid r ↔ routes_resource routers pid r.
Proof using Hnrs Hall Hwf Hemb Hpeer Hval.
  intros HR. unfold routes_resource. split.
  - intros (_ & He & H). by rewrite (view_routers r HR He) in H.
  - intros [He H]. rewrite (view_routers r HR He). split; [|done]. apply resource_wanted; [done..|]. by left.
Qed.
Lemma view_to_route r p router : r ∈ Resources → networkResourceToRoute ToASCII more r p router = ToRoute Key ToASCII r p router.
Proof using Hdomains.
  intros Hr. unfold networkResourceToRoute, ToRoute. destruct (nr_Type r) eqn:Et; [done..|]. destruct (Hdomains r Hr Et) as [d Ed].
  unfold FromString. by rewrite Ed.
Qed.
(** Routes through approved routers, and approved sources. *)
Lemma component_routes : ∃ isR routes srcs, c_getNetworkResourcesRoutesToSync ToASCII more c pid = Ret (isR, Some <$> routes, srcs)
  ∧ (isR = true ↔ ∃ r, r ∈ Resources ∧ routes_resource routers pid r)
  ∧ (∀ x, x ∈ routes ↔ ∃ r, r ∈ Resources ∧ ∃ q router p, gets_route av policies routers pid r q router ∧ Peers a !! q = Some p
        ∧ q ∈ v ∧ known q ∧ Some x = ToRoute Key ToASCII r p router)
  ∧ (∀ s, s ∈ srcs → known s)
  ∧ ∀ s, is_Some (Peers a !! s) → s ∈ srcs ↔
      s ∈ v ∧ ∃ r, r ∈ Resources ∧ routes_resource routers pid r ∧ ∃ pol, pol ∈ pols_of r ∧ source_of av pol s.
Proof using Hinv Hall Hwf Hemb Hnames Hrpm Hpeer Hval Hnrs Hok Hmine Hdomains.
  assert (Hrules : ∀ r pol, r ∈ nrs → nr_Enabled r = true → pol ∈ cpols_of r → pol_Rules pol ≠ []).
  { intros r pol _ _ Hp. destruct (rpm !! nr_ID r) as [pols|] eqn:E; [|by apply not_elem_of_nil in Hp]. by eapply resource_policies_inv; [apply Hrpm|]. }
  destruct (network_resources_spec cv (networkResourceToRoute ToASCII more) nrs rpm crouters Hrules pid) as (isR & routes & srcs & E & Hi & Hr & Hs).
  assert (HR : ∀ r, r ∈ nrs → r ∈ Resources) by (by intros r [? _]%Hnrs).
  destruct (all_some_fmap routes) as [rs ->].
  { intros x (r & _ & q & router & p & _ & _ & ->)%Hr. unfold networkResourceToRoute. by eauto. }
  assert (Hrs : ∀ x, x ∈ rs ↔ Some x ∈ Some <$> rs).
  { intros x. rewrite list_elem_of_fmap. split; [intros ?; by exists x|]. by intros (? & [= ->] & ?). }
  exists isR, rs, srcs. split; [exact E|]. split; [|split; [|split]].
  - rewrite Hi. split; intros (r & Hin & H); exists r; [split; [by apply HR|]|]; apply view_routes_resource; auto.
  - intros x. rewrite Hrs, Hr. split.
    + intros (r & Hin & q & router & p & Hg & Hp & Ex). exists r. split; [by apply HR|]. exists q, router, p.
      apply view_peer_inv in Hp as (? & ? & ?). split; [apply view_gets_route; [by apply HR|done]|]. rewrite view_to_route in Ex by (by apply HR). done.
    + intros (r & Hin & q & router & p & Hg%view_gets_route & Hp & Hv & Hk & Ex); [|done]. exists r. split; [apply Hg|]. exists q, router, p.
      split; [apply Hg|]. split; [by rewrite (view_peer q Hk)|]. by rewrite view_to_route.
  - intros s (r & _ & _ & pol & _ & (ps & _ & _ & Hpo))%Hs. cbn [components_view vw_posture] in Hpo. unfold ValidatePostureChecksOnPeer in Hpo.
    cbn [comp c_Peers] in Hpo. destruct (k_Peers st !! s); [by eauto|done].
  - intros s Hsome. rewrite Hs. split.
    + intros (r & Hin & Hrt & pol & Hpol & Hsrc). rewrite (view_policies r Hin) in Hpol. assert (Hrt' : routes_resource routers pid r) by (apply view_routes_resource; auto).
      apply (view_source_router r) in Hsrc as [Hsrc Hv]; [|done|apply Hrt'|done..]. split; [done|]. exists r. split; [by apply HR|]. split; [done|]. by exists pol.
    + intros (Hv & r & Hin & Hrt & pol & Hpol & Hsrc). pose proof Hrt as [Hin' Hrt']%view_routes_resource; [|done]. exists r. split; [done|]. split; [done|].
      exists pol. split; [by rewrite (view_policies r Hin')|]. apply (view_source_router r); [done|apply Hrt|done..].
Qed.
Lemma router_known r q router : r ∈ Resources → gets_route av policies routers pid r q router → is_Some (Peers a !! q) → q ∈ v → known q.
Proof using Hok.
  intros Hr (He & _ & Hrt & _) Hs Hv. eapply (ro_routers _ _ _ _ _ _ _ _ (Hok r Hr ltac:(by rewrite has_policies_enabled))); [by eauto|done..].
Qed.
(** Resources on both sides: the components leave out what unapproved peers route or ask for. *)
Lemma resources_restricted (Hkeys : ∀ p q x y, Peers a !! p = Some x → Peers a !! q = Some y → Key x = Key y → p = q) isR routes srcs isR' routes' srcs' :
  GetNetworkResourcesRoutesToSync av (ToRoute Key ToASCII) Resources policies routers pid = Ret (isR, Some <$> routes, srcs) →
  c_getNetworkResourcesRoutesToSync ToASCII more c pid = Ret (isR', Some <$> routes', srcs') →
  (∀ x, x ∈ routes' ↔ x ∈ routes ∧ by_approved x)
  ∧ ∀ i q, Peers a !! i = Some q → vw_router cv i = Some q ∧ resource_added isR' routes' srcs' i ↔ i ∈ v ∧ resource_added isR routes srcs i.
Proof using Hinv Hall Hwf Hemb Hnames Hrpm Hpeer Hval Hnrs Hok Hmine Hdomains.
  intros E E'. destruct (resource_routes_of ToASCII more a v Resources Routers Hdomains pid) as (b & rs & ss & E0 & Hi & Hr & Hs).
  rewrite E in E0. injection E0 as <- <-%(inj (fmap Some)) <-. destruct component_routes as (b' & rs' & ss' & E0 & Hi' & Hr' & Hk' & Hs').
  rewrite E' in E0. injection E0 as <- <-%(inj (fmap Some)) <-. split.
  - intros x. rewrite Hr, Hr'. split.
    + intros (r & Hin & q & router & p & Hg & Hp & Hv & _ & Ex). split; [exists r; split; [done|]; by exists q, router, p|].
      exists q, p. split; [done|]. split; [done|]. by apply ToRoute_id in Ex as [_ ?].
    + intros [(r & Hin & q & router & p & Hg & Hp & Ex) (q' & y & Hq' & Hv & Ek)]. pose proof (ToRoute_id _ _ _ _ _ _ Ex) as [_ Ek'].
      assert (q = q') as <- by (eapply (Hkeys q q'); [done..|congruence]). exists r. split; [done|]. exists q, router, p.
      split; [done|]. split; [done|]. split; [done|]. split; [by eapply router_known; [done..|eauto|]|done].
  - intros i q Hq. unfold resource_added. rewrite Hi, Hi'. specialize (Hs' i ltac:(by eauto)). split.
    + intros [_ [[Hrt Hsrc]|(x & (r & Hin & q' & router & p & Hg & Hp & Hv & _ & Ex)%Hr' & <-)]].
      * apply Hs' in Hsrc as [Hv Hsrc]. split; [done|]. left. split; [done|]. by apply Hs.
      * pose proof (ToRoute_id _ _ _ _ _ _ Ex) as [Eid _]. rewrite Eid in *. rewrite (Hwf _ _ Hp). split; [done|]. right. exists x. split; [|by rewrite Eid, (Hwf _ _ Hp)].
        apply Hr. exists r. split; [done|]. by exists q', router, p.
    + intros [Hv [[Hrt Hsrc%Hs]|(x & (r & Hin & q' & router & p & Hg & Hp & Ex)%Hr & <-)]].
      * assert (Hin : i ∈ srcs') by (by apply Hs'). split; [by rewrite (view_router i (Hk' i Hin))|]. by left.
      * pose proof (ToRoute_id _ _ _ _ _ _ Ex) as [Eid _]. rewrite Eid in *. rewrite (Hwf _ _ Hp) in *. assert (Hkn : known q') by (by eapply router_known; [done..|eauto|]).
        split; [by rewrite (view_router q' Hkn)|]. right. exists x. split; [|exact Eid].
        apply Hr'. exists r. split; [done|]. by exists q', router, p.
Qed.
(** *** Connected peers *)
Context (Hcon : ∀ pol rule, (pol, rule) ∈ enabled_rules (Policies a) → contrib a v peer pol rule st).
Lemma acl_known q : q ∈ conn_peers ver a v users peer → Peers a !! ID q = Some q ∧ known (ID q) ∧ ID q ∈ v.
Proof using Hwf Hinv Hcon.
  intros (Hq & _ & pol & rule & Hp & He & Hr & Hre & Hsd)%(proj2 (connection_peers_spec ver a v users Hwf peer)). split; [done|].
  assert (Hct : contrib a v peer pol rule st) by (apply Hcon, enabled_rules_spec; auto).
  assert (Hk : known (ID q)) by (destruct Hsd as [[Hs Hd]|[Hd Hs]]; [by apply (ct_dst _ _ _ _ _ _ Hct)|by apply (ct_src _ _ _ _ _ _ Hct)]).
  split; [done|]. destruct Hk as [o Ho]. destruct (inv_peers _ _ _ _ Hinv (ID q) o Ho) as [-> Hv]. apply Hv. by rewrite Hq.
Qed.
End collected.

(** *** The two maps *)
Context (zone : CustomZone) (zones : list Zone).
Abbreviation acl := (conn_peers ver a v users peer).
Abbreviation expired := (expired_peer more now settings).
Abbreviation account_map := (GetPeerNetworkMap ver ToASCII ToUnicode Fqdn more now network settings dns_settings a v users Routes Resources
  NameServerGroups pid zone zones policies routers).
Abbreviation component_map := (GetPeerNetworkMapFromComponents ver ToASCII ToUnicode Fqdn more now network settings dns_settings a v users Routes Resources
  NameServerGroups pid zone zones policies routers).
Lemma account_map_fields : ∃ nm isR routes srcs, account_map = Ret nm
  ∧ GetNetworkResourcesRoutesToSync av (ToRoute Key ToASCII) Resources policies routers pid = Ret (isR, Some <$> routes, srcs)
  ∧ (∀ q, q ∈ nm_Peers nm ↔ q ∈ acl ∧ expired q = false ∨ ∃ i, Peers a !! i = Some q ∧ i ≠ pid ∧ i ∉ (ID <$> acl) ∧ resource_added isR routes srcs i)
  ∧ (∀ q, q ∈ nm_OfflinePeers nm ↔ q ∈ acl ∧ expired q = true)
  ∧ (∀ x, x ∈ nm_Routes nm ↔ x ∈ routes ∨ x ∈ GetRoutesToSync av Routes Key ToUnicode pid (List.filter (λ p, negb (expired p)) acl) (GetPeerGroups a pid))
  ∧ nm_FirewallRules nm = conn_rules ver a v users peer
  ∧ nm_AuthorizedUsers nm = authorizedUsers (GetPeerConnectionResources ver a peer v users)
  ∧ nm_EnableSSH nm = sshEnabled (GetPeerConnectionResources ver a peer v users).
Proof using Hwf Hdomains Hpeer Hval.
  destruct (resource_routes_of ToASCII more a v Resources Routers Hdomains pid) as (isR & routes & srcs & E & _). unfold GetPeerNetworkMap.
  rewrite Hpeer, bool_decide_eq_false_2 by (intros H; by apply H). rewrite E. cbn [mbind outcome_bind]. unfold no_nil. rewrite mapM_id_fmap. cbn [mbind outcome_bind].
  edestruct (routing_peers_spec av) as (l & El & Hl). rewrite El. clear El. cbn [mbind outcome_bind]. eexists _, isR, routes, srcs. split; [reflexivity|]. split; [done|].
  cbn [nm_Peers nm_OfflinePeers nm_Routes nm_FirewallRules nm_AuthorizedUsers nm_EnableSSH]. fold (conn_peers ver a v users peer) in *.
  split; [|split; [|split; [|done]]].
  - intros q. rewrite Hl, list_elem_of_In, filter_In, <- list_elem_of_In, negb_true_iff. by setoid_rewrite (filtered_ids more now settings).
  - intros q. by rewrite list_elem_of_In, filter_In, <- list_elem_of_In.
  - intros x. apply elem_of_app.
Qed.
Lemma component_map_fields st rpm nrs (cacl := peers (res_st (getPeerConnectionResources ver (comp a Routes peer Resources policies routers users st rpm nrs)))) isR routes srcs :
  GetPeerNetworkMapComponents a Routes v Resources policies routers pid users = Ret (Some (comp a Routes peer Resources policies routers users st rpm nrs)) →
  c_getNetworkResourcesRoutesToSync ToASCII more (comp a Routes peer Resources policies routers users st rpm nrs) pid = Ret (isR, Some <$> routes, srcs) →
  ∃ nm, component_map = Ret nm
  ∧ (∀ q, q ∈ nm_Peers nm ↔ q ∈ cacl ∧ expired q = false
       ∨ ∃ i, vw_router (components_view (comp a Routes peer Resources policies routers users st rpm nrs)) i = Some q
           ∧ i ≠ pid ∧ i ∉ (ID <$> cacl) ∧ resource_added isR routes srcs i)
  ∧ (∀ q, q ∈ nm_OfflinePeers nm ↔ q ∈ cacl ∧ expired q = true)
  ∧ (∀ x, x ∈ nm_Routes nm ↔ x ∈ routes ∨ x ∈ c_getRoutesToSync ToUnicode more (comp a Routes peer Resources policies routers users st rpm nrs) pid
                                               (List.filter (λ p, negb (expired p)) cacl)
                                               (c_GetPeerGroups (comp a Routes peer Resources policies routers users st rpm nrs) pid))
  ∧ nm_FirewallRules nm = rules (res_st (getPeerConnectionResources ver (comp a Routes peer Resources policies routers users st rpm nrs)))
  ∧ nm_AuthorizedUsers nm = authorizedUsers (getPeerConnectionResources ver (comp a Routes peer Resources policies routers users st rpm nrs))
  ∧ nm_EnableSSH nm = sshEnabled (getPeerConnectionResources ver (comp a Routes peer Resources policies routers users st rpm nrs)).
Proof using Hpeer.
  set (c := comp a Routes peer Resources policies routers users st rpm nrs) in *. intros Ec E. unfold GetPeerNetworkMapFromComponents. rewrite Ec. cbn [mbind outcome_bind].
  rewrite Hpeer. unfold Calculate, filterPeersByLoginExpiration. change (c_PeerID c) with pid. rewrite E. cbn [mbind outcome_bind]. unfold no_nil. rewrite mapM_id_fmap.
  cbn [mbind outcome_bind]. unfold c_addNetworksRoutingPeers. edestruct (routing_peers_spec (components_view c)) as (l & El & Hl). rewrite El. clear El.
  cbn [mbind outcome_bind]. eexists. split; [reflexivity|]. cbn [nm_Peers nm_OfflinePeers nm_Routes nm_FirewallRules nm_AuthorizedUsers nm_EnableSSH].
  split; [|split; [|split; [|done]]].
  - intros q. rewrite Hl, list_elem_of_In, filter_In, <- list_elem_of_In, negb_true_iff. by setoid_rewrite (filtered_ids more now settings).
  - intros q. by rewrite list_elem_of_In, filter_In, <- list_elem_of_In.
  - intros x. apply elem_of_app.
Qed.
Lemma synced_approved acl' x : (∀ q, q ∈ acl' → q ∈ acl ∧ Peers a !! ID q = Some q ∧ ID q ∈ v) →
  x ∈ GetRoutesToSync av Routes Key ToUnicode pid acl' (GetPeerGroups a pid) → by_approved x.
Proof using Hrids Hval.
  intros Hacl. rewrite routes_to_sync_elem.
  assert (H : ∀ q, q ∈ v → x ∈ (getRoutingPeerRoutes av Routes Key q).1 → by_approved x).
  { intros q Hv (p & r & r' & Hp & _ & _ & _ & ->)%(proj1 (routing_peer_routes av Routes Key Hrids q)). by exists q, p. }
  intros [?|(p & Hp & Hx & _)]; [by eapply H|]. eapply (H (ID p)); [by apply Hacl|done].
Qed.

(** C4: The default computation of network maps is the one on the whole account, without the peers
    that were not approved.  For an approved peer, collecting the components and computing the map
    from them succeeds; the map has the same peers, less those not approved, the same peers whose
    login has expired, the same routes, less those through routers not approved, the same firewall
    rules, and the same SSH settings.  This is for accounts in which peers are stored under their
    ids and have keys of their own, there are no embedded (proxy) peers, every peer that an enabled
    rule names directly as its source or destination is approved, the groups that enabled rules and
    routes name exist, a group All has every member of any group, posture checks have ids, the
    domains of domain resources can be converted, the ids of rules are distinct and of one length,
    and those of routes are distinct and none is another one's id with a colon and more.  For what
    differs otherwise see [unapproved_peer_gains_group_rules] of [MapComponents] and
    [named_source_skips_posture] below. *)
Theorem components_map_equivalent (Hids : rule_ids_ok a)
    (Hkeys : ∀ p q x y, Peers a !! p = Some x → Peers a !! q = Some y → Key x = Key y → p = q) :
  ∃ nm nm', account_map = Ret nm ∧ component_map = Ret nm'
    ∧ (∀ q, q ∈ nm_Peers nm' ↔ q ∈ nm_Peers nm ∧ ID q ∈ v)
    ∧ (∀ q, q ∈ nm_OfflinePeers nm' ↔ q ∈ nm_OfflinePeers nm)
    ∧ (∀ x, x ∈ nm_Routes nm' ↔ x ∈ nm_Routes nm ∧ ∃ q y, Peers a !! q = Some y ∧ q ∈ v ∧ rt_Peer x = Key y)
    ∧ (∀ fr, fr ∈ nm_FirewallRules nm' ↔ fr ∈ nm_FirewallRules nm)
    ∧ nm_AuthorizedUsers nm' = nm_AuthorizedUsers nm ∧ nm_EnableSSH nm' = nm_EnableSSH nm.
Proof using Hwf Hemb Hnames Hdomains Hall Hres Hexist Hroutes Hrids Hpeer Hval.
  destruct (components_collected a v Hwf Hemb Hnames Routes peer Hpeer Hval Hres Hexist Hroutes Resources policies routers (resource_policies_inv a Resources) users)
    as (st & rpm & nrs & Ec & Hinv & Hmine & Hcon & _ & Hrg & Hrpm & Hnrs & Hok).
  destruct (components_equivalent a v Hwf Hemb Hnames Routes peer Hpeer Hval Hres Hexist Hroutes Resources policies routers (resource_policies_inv a Resources) Hall
    ver users Hids) as (c & Ec' & Hacl & _ & Hfr & Hau & Hssh). rewrite Ec in Ec'. injection Ec' as <-.
  destruct (component_routes st rpm nrs) as (isR' & routes' & srcs' & E' & _); [done..|].
  destruct account_map_fields as (nm & isR & routes & srcs & Enm & E & Ap & Ao & Ar & Af & Aa & As).
  destruct (component_map_fields st rpm nrs isR' routes' srcs' Ec E') as (nm' & Enm' & Cp & Co & Cr & Cf & Ca & Cs).
  destruct (resources_restricted st rpm nrs Hinv Hmine Hrpm Hnrs Hok Hkeys _ _ _ _ _ _ E E') as [Hx Hadd].
  pose proof (λ q, acl_known st Hinv Hcon q) as Hk. fold (conn_peers ver a v users peer) in *.
  exists nm, nm'. split; [done|]. split; [done|]. split; [|split; [|split; [|split; [|split]]]].
  - intros q. rewrite Cp, Ap, Hacl. setoid_rewrite list_elem_of_fmap. setoid_rewrite Hacl. split.
    + intros [[Hq He]|(i & Hv & Hne & Hn & Hadded)]; [split; [by left|by apply Hk]|]. pose proof (view_router_inv st rpm nrs Hinv _ _ Hv) as Hi.
      destruct (proj1 (Hadd i q Hi)) as [Hvi Hold]; [done|]. pose proof (Hwf i q Hi) as <-. split; [right; by exists (ID q)|done].
    + intros [[?|(i & Hi & Hne & Hn & Hadded)] Hv]; [by left|right]. exists i. pose proof (Hwf i q Hi) as <-.
      destruct (proj2 (Hadd (ID q) q Hi)) as [? ?]; [done|]. done.
  - intros q. by rewrite Co, Ao, Hacl.
  - intros x. rewrite Cr, Ar, Hx. rewrite (view_sync st rpm nrs Hinv Hmine Hrg _ (List.filter (λ p, negb (expired p)) acl)).
    + split; [|tauto]. intros [[? ?]|Hs]; [tauto|]. split; [by right|]. eapply synced_approved; [|done].
      intros q [Hq _]%list_elem_of_In%filter_In. apply list_elem_of_In in Hq. split; [done|]. destruct (Hk q Hq) as (? & _ & ?). done.
    + intros q. rewrite !list_elem_of_In, !filter_In, <- !list_elem_of_In. by rewrite Hacl.
    + intros q [Hq _]%list_elem_of_In%filter_In. apply list_elem_of_In, Hacl, Hk in Hq as (_ & ? & _). done.
  - intros fr. rewrite Cf, Af. apply Hfr.
  - by rewrite Ca, Aa.
  - by rewrite Cs, As.
Qed.
End equivalence.

(** ** The office *)
Abbreviation office_components_of v routers p :=
  (GetPeerNetworkMapFromComponents all_new Some (λ _, None) dotted_name office_more 0 tt no_expiration all_managed office v ∅ [] [database] [] p office_zone []
     (GetResourcePoliciesMap office [database]) (GetResourceRoutersMap office routers)).
Definition office_components (v : gset string) (routers : list NetworkRouter) (p : string) : NetworkMap unit :=
  match office_components_of v routers p with Ret nm => nm | _ => only_network tt end.
Lemma office_rule pol rule : (pol, rule) ∈ enabled_rules (Policies office) →
  pol = office_policy ∧ is_peer_resource (r_SourceResource rule) = false ∧ is_peer_resource (r_DestinationResource rule) = false
  ∧ r_Sources rule ++ r_Destinations rule = ["laptops"] ∧ pol_Rules pol = [rule].
Proof. intros H. apply list_elem_of_singleton in H. injection H as -> ->. vm_compute. done. Qed.
Lemma office_rule_ids : rule_ids_ok office.
Proof.
  intros pol rule pol' rule' (-> & _ & _ & _ & E)%office_rule (-> & _ & _ & _ & E')%office_rule. rewrite E in E'. injection E' as ->. done.
Qed.
(** The laptop was not approved: the account's map lists it for the server that routes for it, the
    map from components does not. *)
Lemma components_map_equivalent_witness : nm_Peers (office_map {[ "srv" ]} [lan_router "srv"] "srv") = [alice]
  ∧ alice ∉ nm_Peers (office_components {[ "srv" ]} [lan_router "srv"] "srv").
Proof.
  split; [vm_compute; reflexivity|].
  destruct (components_map_equivalent all_new Some (λ _, None) dotted_name office_more 0 tt no_expiration all_managed office {[ "srv" ]} ∅ [] [database] []
    [lan_router "srv"] office_wf) with (peer := srv) (zone := office_zone) (zones := @nil Zone) as (nm & nm' & _ & E' & Hp & _).
  - apply map_Forall_insert_2; [done|]. by apply map_Forall_singleton.
  - intros c Hc. by apply not_elem_of_nil in Hc.
  - exact office_domains.
  - intros i g j g' p Hg Ha. destruct (demo_groups i g Hg) as [_ Hn]. by rewrite Hn in Ha.
  - intros pol rule r (_ & E1 & E2 & _)%office_rule [-> | ->] H; congruence.
  - intros pol rule i (_ & _ & _ & E & _)%office_rule Hi. rewrite E in Hi. apply list_elem_of_singleton in Hi as ->. by eexists.
  - intros r i Hr. by apply not_elem_of_nil in Hr.
  - split; [intros r r1 Hr|intros r r1 p Hr]; by apply not_elem_of_nil in Hr.
  - reflexivity.
  - by apply elem_of_singleton.
  - exact office_rule_ids.
  - intros p q x y Hx Hy E. pose proof (office_wf p x Hx) as <-. pose proof (office_wf q y Hy) as <-.
    apply office_peer in Hx as [-> | ->], Hy as [-> | ->]; by vm_compute in E.
  - unfold office_components. change (ID srv) with "srv" in E'. rewrite E'. intros [_ Hv]%Hp. by apply elem_of_singleton in Hv.
Defined.

(** The names of routers are missing in the map from components: the laptop is told to connect to
    the server, by whose name it does not find it. *)
Example component_names_miss_routers :
  let names nm := (λ z, rec_Name <$> cz_Records z) <$> CustomZones (nm_DNSConfig nm) in
  nm_Peers (office_components demo_validated [lan_router "srv"] "alice") = [srv]
  ∧ names (office_components demo_validated [lan_router "srv"] "alice") = [["alice.nb"]]
  ∧ names (office_map demo_validated [lan_router "srv"] "alice") = [["srv.nb"; "alice.nb"]].
Proof. vm_compute. done. Qed.

(** A policy for one laptop by name, with a posture check nobody passes. *)
Definition locked_policy : Policy := {| pol_ID := "p1"; pol_AccountID := "acc"; pol_Name := "p1"; pol_Description := ""; pol_Enabled := true;
  pol_Rules := [{| r_ID := "r1"; r_PolicyID := "p1"; r_Name := ""; r_Description := ""; r_Enabled := true; r_Action := "accept"; r_Destinations := ["servers"];
      r_DestinationResource := no_resource; r_Sources := []; r_SourceResource := {| res_ID := "alice"; res_Type := ResourceTypePeer |};
      r_Bidirectional := false; r_Protocol := "tcp"; r_Ports := ["5432"]; r_PortRanges := []; r_AuthorizedGroups := ∅; r_AuthorizedUser := "" |}];
  pol_SourcePostureChecks := ["locked"] |}.
Definition locked : Account := {|
  Peers := Peers office; Groups := Groups office; Policies := [locked_policy]; Users := ∅;
  PostureChecks := [{| c_ID := "locked"; GetChecks := [{| check_Name := "never"; check_Check := λ _, false |}] |}] |}.
Definition lan_route : Route :=
  {| rt_ID := "rt"; rt_AccountID := "acc"; rt_Network := Some {| px_v6 := false; px_addr := 0x0A000000; px_bits := 24 |}; rt_Domains := [];
     rt_KeepRoute := false; rt_NetID := "lan"; rt_Description := ""; rt_Peer := "srv"; rt_PeerID := "srv"; rt_PeerGroups := [];
     rt_NetworkType := IPv4Network; rt_Masquerade := true; rt_Metric := 9999; rt_Enabled := true;
     rt_Groups := ["laptops"]; rt_AccessControlGroups := ["servers"]; rt_SkipAutoApply := false |}.
(** Only groups are visited when failures are recorded, so the map from components lets the laptop
    into the route although it fails the check; the account's map does not. *)
Example named_source_skips_posture :
  let sources o := match o with Ret nm => srf_SourceRanges <$> nm_RoutesFirewallRules nm | _ => [] end in
  sources (GetPeerNetworkMapFromComponents all_new Some (λ _, None) dotted_name office_more 0 tt no_expiration all_managed locked demo_validated ∅ [lan_route] [] []
             "srv" no_zone [] ∅ ∅) = [["100.100.1.1/32"]]
  ∧ sources (GetPeerNetworkMap all_new Some (λ _, None) dotted_name office_more 0 tt no_expiration all_managed locked demo_validated ∅ [lan_route] [] []
               "srv" no_zone [] ∅ ∅) = [[]].
Proof. vm_compute. done. Qed.
