(* ===== verification/RouteSync.v ===== *)
(** The route rules of a network map in the user-space packet filter: after the ACL manager has
    applied them, what the map says is what [RouteAcl.routeACLsPass] decides on routed packets.

    Route rules are known by a key of 64 bits of a hash: the theorems assume that the rules in play
    have keys of their own ([distinct_keys]). *)
From S2P Require Import Prelude GoText NetIP PacketNat PacketDnat FirewallRules NetParse PeerAcl RouteAcl PacketFilter FilterRuns AclManager AclKeys AclSync FilterSync.
Open Scope Z_scope.

(** ** Requests and rules *)
(** The rule does what the request asks for; a set of domains gets its destinations later. *)
Record made_for (r : RouteRule) (q : route_filter) : Prop := {
  mf_proto : rr_protoLayer r = protoToLayer (rq_proto q) LayerTypeIPv4;
  mf_sport : srcPort r = None;
  mf_dport : dstPort r = rq_dPort q;
  mf_action : action r = rq_action q;
  mf_sources : ∀ p, p ∈ sources r ↔ p ∈ rq_sources q;
  mf_destination : ∀ p, fn_Prefix (rq_destination q) = Some p → destinations r = [p] }.
Definition usp_route (id : option string) (q : route_filter) : RouteRule :=
  new_route_rule id (rq_sources q) (rq_destination q) (rq_proto q) None (rq_dPort q) (rq_action q).
Definition key_of (q : route_filter) : string := rr_id (usp_route None q).

Lemma usp_route_made id q : made_for (usp_route id q) q ∧ rr_id (usp_route id q) = key_of q.
Proof.
  split; [|done]. split; try done.
  - intros p. cbn. unfold SortPrefixes. by rewrite sort_by_perm.
  - intros p E. cbn. by rewrite E.
Qed.

(** No two of these have one key unless they are about the same. *)
Definition distinct_keys (t : list RouteRule) (qs : route_filter → Prop) : Prop :=
  (∀ r q, r ∈ t → qs q → rr_id r = key_of q → made_for r q)
  ∧ ∀ q q' r, qs q → qs q' → key_of q = key_of q' → made_for r q → made_for r q'.

Section routes.
Context (uuid : nat → string) (ToUnicode : string → option string).
Abbreviation usp := (Manager * nat)%type.
#[local] Instance the_filter : Firewall usp PeerRule := usp_firewall uuid.

Definition asked (dyn : bool) (rules : list RouteFirewallRule) (q : route_filter) : Prop :=
  ∃ rule, rule ∈ rules ∧ route_args ToUnicode rule dyn = Ret q.
Definition own_routes (f : usp) : Prop := routes_wf (PacketFilter.rules f.1) ∧ delegates f.1 = false.

(** *** Adding *)
Lemma insert_route_elem r t x : routes_wf t → x ∈ routeRules (insert_route r t) ↔ x ∈ routeRules t ∨ x = r ∧ rr_id r ∉ routeRulesMap t.
Proof.
  intros _. unfold insert_route. destruct (decide _) as [Hin|Hn]; [tauto|]. cbn [set_route routeRules]. unfold Sort.
  rewrite sort_by_perm, elem_of_app, list_elem_of_singleton. tauto.
Qed.
Lemma insert_route_keys r t : routeRulesMap (insert_route r t) = {[ rr_id r ]} ∪ routeRulesMap t.
Proof. unfold insert_route. destruct (decide _); [set_solver|done]. Qed.


Abbreviation table f := (PacketFilter.rules (fst f)).
Lemma add_route_steps dyn (rules : list RouteFirewallRule) ids merr (f : usp) ids' merr' (f' : usp) : own_routes f →
  foldl (route_rule_step ToUnicode dyn) (ids, merr, f) rules = (ids', merr', f') →
  own_routes f' ∧ (∀ k, k ∈ ids' ↔ k ∈ ids ∨ ∃ q, asked dyn rules q ∧ k = key_of q)
  ∧ (∀ x, x ∈ routeRules (table f) → x ∈ routeRules (table f'))
  ∧ (∀ x, x ∈ routeRules (table f') → x ∈ routeRules (table f) ∨ ∃ q, asked dyn rules q ∧ made_for x q ∧ rr_id x = key_of q)
  ∧ (∀ q, asked dyn rules q → ∃ x, x ∈ routeRules (table f') ∧ rr_id x = key_of q).
Proof.
  revert ids merr f. induction rules as [|rule rules IH]; intros ids merr f Hown; cbn [foldl].
  { intros [= <- <- <-]. unfold asked. split_and!; [done| |done|by left|]; [intros k; split; [by left|]; intros [?|(q & (rule & Hr & _) & _)]; [done|]|
      intros q (rule & Hr & _)]; by apply not_elem_of_nil in Hr. }
  assert (Hcons : ∀ q, asked dyn (rule :: rules) q ↔ route_args ToUnicode rule dyn = Ret q ∨ asked dyn rules q).
  { intros q. unfold asked. split.
    - intros (r & [->|Hr]%elem_of_cons & E); [by left|right; by exists r].
    - intros [E|(r & Hr & E)]; [exists rule; split; [by left|done]|exists r; split; [by right|done]]. }
  cbn [route_rule_step]. unfold applyRouteACL. destruct (route_args ToUnicode rule dyn) as [q|e|] eqn:Ea.
  - destruct Hown as [Hwf Hdel]. cbn [fw_AddRouteFiltering the_filter usp_firewall]. unfold usp_add_route, addRouteFiltering. rewrite Hdel.
    fold (usp_route (rf_PolicyID rule) q). set (r := usp_route (rf_PolicyID rule) q). cbn [or_err].
    destruct (usp_route_made (rf_PolicyID rule) q) as [Hmade Hkey]. fold r in Hmade, Hkey.
    assert (Hport : port_wf (dstPort r)) by (apply port_form_wf; by eapply route_args_form).
    intros Hrun. apply IH in Hrun as (Hown' & Hids & Hold & Hnew & Hall);
      [|split; [by apply insert_route_wf|done]]. cbn [fst put_rules set_rules update PacketFilter.rules] in *.
    split; [done|]. split; [|split; [|split]].
    + intros k. rewrite Hids, elem_of_union, elem_of_singleton, Hkey. split.
      * intros [[->|?]|(q' & Hq' & ->)]; [right; exists q; split; [by apply Hcons; left|done]|by left|right; exists q'; split; [by apply Hcons; right|done]].
      * intros [?|(q' & [[= <-]|Hq']%Hcons & ->)]; [by left; right|by left; left|right; by exists q'].
    + intros x Hx. apply Hold. apply insert_route_elem; [done|by left].
    + intros x [Hx|(q' & Hq' & ?)]%Hnew; [|right; exists q'; split; [by apply Hcons; right|done]].
      apply insert_route_elem in Hx as [?|[-> _]]; [by left| |done]. right. exists q. split; [by apply Hcons; left|done].
    + intros q' [[= <-]|Hq']%Hcons; [|by apply Hall]. destruct (decide (rr_id r ∈ routeRulesMap (table f))) as [Hin|Hn].
      * apply (rw_keys _ Hwf) in Hin as (x & E & Hx)%list_elem_of_fmap. exists x. split; [|congruence]. apply Hold, insert_route_elem; [done|by left].
      * exists r. split; [|done]. apply Hold, insert_route_elem; [done|by right].
  - intros Hrun. apply IH in Hrun as (Hown' & Hids & Hold & Hnew & Hall); [|done].
    assert (Heq : ∀ q, asked dyn (rule :: rules) q ↔ asked dyn rules q) by (intros q; rewrite Hcons; intuition congruence).
    setoid_rewrite Heq. done.
  - intros Hrun. apply IH in Hrun as (Hown' & Hids & Hold & Hnew & Hall); [|done].
    assert (Heq : ∀ q, asked dyn (rule :: rules) q ↔ asked dyn rules q) by (intros q; rewrite Hcons; intuition congruence).
    setoid_rewrite Heq. done.
Qed.

(** *** Deleting *)
Lemma delete_route_steps ids l merr (f : usp) merr' (f' : usp) : own_routes f →
  foldl (route_delete_step ids) (merr, f) l = (merr', f') →
  own_routes f' ∧ ∀ x, x ∈ routeRules (table f') ↔ x ∈ routeRules (table f) ∧ (rr_id x ∈ ids ∨ rr_id x ∉ l).
Proof.
  revert merr f. induction l as [|k l IH]; intros merr f Hown; cbn [foldl].
  { intros [= <- <-]. split; [done|]. intros x. set_solver. }
  unfold route_delete_step at 2. destruct (decide (k ∈ ids)) as [Hk|Hk].
  { intros Hrun. apply IH in Hrun as [? Hx]; [|done]. split; [done|]. intros x. rewrite Hx, not_elem_of_cons.
    destruct (decide (rr_id x = k)) as [->|]; naive_solver. }
  destruct Hown as [Hwf Hdel]. cbn [fw_DeleteRouteRule the_filter usp_firewall]. unfold usp_delete_route. rewrite Hdel.
  pose proof (deleteRouteRule_spec k (table f) Hwf) as Hd. destruct (deleteRouteRule false k (table f)) as [t|e|]; [| |done].
  - destruct Hd as (Hwf' & _ & Hel). intros Hrun. apply IH in Hrun as [? Hx]; [|by split]. split; [done|]. intros x.
    rewrite Hx. cbn [fst put_rules set_rules update PacketFilter.rules]. rewrite Hel, not_elem_of_cons.
    destruct (decide (rr_id x = k)) as [->|]; naive_solver.
  - intros Hrun. apply IH in Hrun as [? Hx]; [|done]. split; [done|]. intros x. rewrite Hx, not_elem_of_cons.
    assert (Hne : x ∈ routeRules (table f) → rr_id x ≠ k).
    { intros Hin <-. apply Hd, (rw_keys _ Hwf). by apply list_elem_of_fmap_2. }
    naive_solver.
Qed.

(** *** The table after the map was applied *)
Lemma routes_applied (rules : list RouteFirewallRule) dyn (d : DefaultManager PeerRule) (f : usp) merr d' (f' : usp) :
  own_routes f → distinct_keys (routeRules (table f)) (asked dyn rules) →
  applyRouteACLs ToUnicode rules dyn d f = (merr, d', f') →
  own_routes f'
  ∧ (∀ x, x ∈ routeRules (table f') → x ∈ routeRules (table f) ∧ rr_id x ∉ dm_routeRules d ∨ ∃ q, asked dyn rules q ∧ made_for x q)
  ∧ (∀ q, asked dyn rules q → ∃ x, x ∈ routeRules (table f') ∧ made_for x q)
  ∧ (∀ x, x ∈ routeRules (table f) → rr_id x ∉ dm_routeRules d → x ∈ routeRules (table f')).
Proof.
  intros Hown [Hd1 Hd2]. unfold applyRouteACLs. destruct (foldl (route_rule_step _ _) _ _) as [[ids merr1] f1] eqn:E1.
  apply add_route_steps in E1 as (Hown1 & Hids & Hold & Hnew & Hall); [|done].
  destruct (foldl (route_delete_step _) _ _) as [merr2 f2] eqn:E2. apply delete_route_steps in E2 as [Hown2 Hx]; [|done].
  intros [= <- <- <-]. split; [done|]. setoid_rewrite Hx. setoid_rewrite elem_of_elements. split; [|split].
  - intros x [Hin Hcond]. destruct (Hnew x Hin) as [Ht|(q & ? & ? & _)]; [|right; by exists q].
    destruct (decide (rr_id x ∈ ids)) as [Hk|Hk]; [|left; naive_solver].
    right. apply Hids in Hk as [?%not_elem_of_empty|(q & Hq & E)]; [done|]. exists q. split; [done|]. by apply Hd1.
  - intros q Hq. destruct (Hall q Hq) as (x & Hin & E). exists x. split; [split; [done|]|].
    + left. rewrite E. apply Hids. right. by exists q.
    + destruct (Hnew x Hin) as [Ht|(q' & Hq' & Hm & E')]; [by apply Hd1|]. eapply (Hd2 q' q); congruence || done.
  - intros x Hin Hk. split; [by apply Hold|by right].
Qed.

(** ** Routed packets *)
(** A request with a prefix as destination is about the packet. *)
Definition route_filter_covers (q : route_filter) (src dst : Addr) (l : layer) (dp : Z) : Prop :=
  let p := protoToLayer (rq_proto q) LayerTypeIPv4 in
  (p = layerTypeAll ∨ p = l) ∧ (is_port_layer l = true → port_ok (rq_dPort q) dp)
  ∧ (∃ n, fn_Prefix (rq_destination q) = Some n ∧ prefix_contains dst n = true) ∧ in_some (rq_sources q) src.
Definition static (q : route_filter) : Prop := is_Some (fn_Prefix (rq_destination q)).

Lemma covers_made r q src dst l sp dp : made_for r q → static q → route_covers r src dst l sp dp ↔ route_filter_covers q src dst l dp.
Proof.
  intros [Hp Hs Hd Ha Hsrc Hdst] [n Hn]. unfold route_covers, route_filter_covers. rewrite Hp, Hs, Hd. specialize (Hdst n Hn).
  assert (H1 : in_some (destinations r) dst ↔ (∃ n0, fn_Prefix (rq_destination q) = Some n0 ∧ prefix_contains dst n0 = true)).
  { unfold in_some. rewrite Hdst, Hn. split; [intros (p & ->%list_elem_of_singleton & ?); by exists n|].
    intros (p & [= <-] & ?). exists n. split; [by left|done]. }
  assert (H2 : in_some (sources r) src ↔ in_some (rq_sources q) src) by (unfold in_some; by setoid_rewrite Hsrc).
  rewrite H1, H2. cbn. tauto.
Qed.

Section applied.
Context (order : gmap string (list PeerRule) → list (string * list PeerRule)) (selector : FirewallRule → string).

(** The rules the map asks for, and the rules in the filter that the manager has not installed. *)
Definition map_routes (dyn : bool) (rs : list RouteFirewallRule) (act : Action) (src dst : Addr) (l : layer) (dp : Z) : Prop :=
  ∃ q, asked dyn rs q ∧ rq_action q = act ∧ route_filter_covers q src dst l dp.
Definition other_routes (d : DefaultManager PeerRule) (f : usp) (act : Action) (src dst : Addr) (l : layer) (sp dp : Z) : Prop :=
  ∃ x, x ∈ routeRules (table f) ∧ rr_id x ∉ dm_routeRules d ∧ action x = act ∧ route_covers x src dst l sp dp.

Lemma peer_rules_keep_routes nm d f : routeRules (table (applyPeerACLs order selector nm d f).2) = routeRules (table f)
  ∧ routeRulesMap (table (applyPeerACLs order selector nm d f).2) = routeRulesMap (table f)
  ∧ delegates ((applyPeerACLs order selector nm d f).2).1 = delegates f.1.
Proof.
  apply (applyPeerACLs_preserves order selector (λ g : usp, routeRules (table g) = routeRules (table f)
    ∧ routeRulesMap (table g) = routeRulesMap (table f) ∧ delegates g.1 = delegates f.1)); [| |done].
  - intros id q name [m n] Hg. cbn [fw_AddPeerFiltering the_filter usp_firewall]. unfold usp_add, AddPeerFiltering.
    destruct (AddrFromSlice _); [|done]. destruct (drop_ _); done.
  - intros r [m n] Hg. cbn [fw_DeletePeerRule the_filter usp_firewall]. unfold usp_delete, DeletePeerRule.
    destruct (drop_ r); destruct (delete_rule _ _); done.
Qed.

Lemma map_routed nm dns d (f : usp) d' f' src dst l sp dp : own_routes f →
  distinct_keys (routeRules (table f)) (asked dns (RoutesFirewallRules nm)) →
  (∀ q, asked dns (RoutesFirewallRules nm) q → static q) →
  apply uuid order selector ToUnicode nm dns d f = (d', Some f') →
  let says act := map_routes dns (RoutesFirewallRules nm) act src dst l dp ∨ other_routes d f act src dst l sp dp in
  own_routes f' ∧ ∃ i b, routeACLsPass (routeRules (table f')) src dst l sp dp = Ret (i, b) ∧ (b = true ↔ ¬ says ActionDrop ∧ says ActionAccept).
Proof.
  intros Hown Hdist Hstat (d1 & f1 & merr & f2 & E1 & E2 & ->)%ApplyFiltering_split. cbv zeta. cbn [fw_Flush usp_firewall snd].
  destruct (peer_rules_keep_routes nm d f) as (Hr & Hm & Hdel). pose proof (applyPeerACLs_keeps_routes order selector nm d f) as Hdm.
  change (usp_firewall uuid) with the_filter in E1. rewrite E1 in Hr, Hm, Hdel, Hdm. cbn [fst snd] in *.
  assert (Hown1 : own_routes f1).
  { destruct Hown as [[Hs Hk Hn Hp] Ho]. split; [|by rewrite Hdel]. split; by rewrite ?Hr, ?Hm. }
  rewrite <- Hr in Hdist. apply routes_applied in E2 as (Hown2 & Hsound & Hcomp & Hkeep); [|done..].
  assert (Hsays : ∀ act, (∃ x, x ∈ routeRules (table f2) ∧ action x = act ∧ route_covers x src dst l sp dp)
    ↔ map_routes dns (RoutesFirewallRules nm) act src dst l dp ∨ other_routes d f act src dst l sp dp).
  { intros act. split.
    - intros (x & Hx & Ha & Hc). destruct (Hsound x Hx) as [[Ht Hk]|(q & Hq & Hm')].
      + right. exists x. rewrite <- Hr, <- Hdm. done.
      + left. exists q. split; [done|]. split; [rewrite <- Ha; symmetry; apply Hm'|]. by eapply covers_made; [| apply Hstat|].
    - intros [(q & Hq & <- & Hc)|(x & Hx & Hk & Ha & Hc)].
      + destruct (Hcomp q Hq) as (x & Hx & Hm'). exists x. split; [done|]. split; [apply Hm'|]. eapply covers_made; [done|by apply Hstat|done].
      + exists x. split; [|done]. apply Hkeep; [by rewrite Hr|by rewrite Hdm]. }
  destruct (route_acl_decides (table f2) src dst l sp dp (proj1 Hown2)) as (i & b & Eb & Hb). split; [done|]. exists i, b. split; [done|]. rewrite Hb, <- !Hsays.
  split; intros [H1 H2]; (split; [|done]); [intros (x & Hx & Ha & Hc); by eapply H1|]. intros x Hx Ha Hc. apply H1. by exists x.
Qed.
End applied.
End routes.
