(* ===== verification/MapDelivery.v ===== *)
(** From the policies of an account to the packets a peer lets in: the conversion of firewall
    rules to messages, [src/management/internals/shared/grpc/conversion.go], between the rules of
    [AccessPolicy] and the client of [AclManager] and [FilterSync]. *)
From stdpp Require Import pretty.
From S2P Require Import Prelude GoText NetIP PacketNat PacketDnat FirewallRules NetParse PeerAcl RouteAcl PacketFilter FilterRuns AclManager AclKeys AclSync FilterSync AccessPolicy.
Open Scope Z_scope.

Abbreviation ProtoRule := AclManager.FirewallRule.

(** ** conversion.go *)
Definition PolicyTrafficActionDrop : string := "drop".
Definition PolicyRuleProtocolUDP : string := "udp".
Definition PolicyRuleProtocolICMP : string := "icmp".
Definition RuleProtocol_UNKNOWN : Z := 0.

Definition getProtoDirection (direction : Z) : Z :=
  if direction =? FirewallRuleDirectionOUT then RuleDirection_OUT else RuleDirection_IN.
Definition getProtoAction (action : string) : Z :=
  if bool_decide (action = PolicyTrafficActionDrop) then RuleAction_DROP else RuleAction_ACCEPT.
Definition getProtoProtocol (protocol : string) : Z :=
  if bool_decide (protocol = PolicyRuleProtocolALL) then RuleProtocol_ALL
  else if bool_decide (protocol = PolicyRuleProtocolTCP) then RuleProtocol_TCP
  else if bool_decide (protocol = PolicyRuleProtocolUDP) then RuleProtocol_UDP
  else if bool_decide (protocol = PolicyRuleProtocolICMP) then RuleProtocol_ICMP
  else RuleProtocol_UNKNOWN.
(** [RulePortRange.ToProto] *)
Definition ToProto (r : RulePortRange) : PortInfo := Some (PortInfo_Range_ (Some (Start r, End_ r))).
Definition shouldUsePortRange (port : string) (protocol : Z) : bool :=
  bool_decide (port = "") && ((protocol =? RuleProtocol_UDP) || (protocol =? RuleProtocol_TCP)).
Definition toProtocolFirewallRule (r : FirewallRule) : ProtoRule :=
  {| fr_PolicyID := Some (PolicyID r); fr_PeerIP := PeerIP r; fr_Direction := getProtoDirection (Direction r);
     fr_Action := getProtoAction (Action r); fr_Protocol := getProtoProtocol (Protocol r); fr_Port := Port r;
     fr_PortInfo := if shouldUsePortRange (Port r) (getProtoProtocol (Protocol r)) then Some (ToProto (PortRange r)) else None |}.
Definition toProtocolFirewallRules (rs : list FirewallRule) : list ProtoRule := toProtocolFirewallRule <$> rs.
(** The firewall rules of the message [ToSyncResponse] builds; the route rules are an argument. *)
Definition sync_rules (rs : list FirewallRule) (routes : list RouteFirewallRule) : NetworkMap :=
  let rs := toProtocolFirewallRules rs in
  {| FirewallRules := rs; FirewallRulesIsEmpty := bool_decide (length rs = 0%nat); RoutesFirewallRules := routes |}.

(** ** What a rule of the server says about a packet *)
Definition server_port (r : FirewallRule) (x : Z) : Prop :=
  if bool_decide (Port r = "") then
    if (Start (PortRange r) =? 0) || (End_ (PortRange r) =? 0) then True
    else Start (PortRange r) ≤ x ≤ End_ (PortRange r)
  else ParseInt (str (Port r)) = Some x.
Definition server_covers (r : FirewallRule) (l : layer) (d : decoder) : Prop :=
  Protocol r = PolicyRuleProtocolALL
  ∨ Protocol r = PolicyRuleProtocolTCP ∧ l = LayerTypeTCP ∧ server_port r (tcp_DstPort d)
  ∨ Protocol r = PolicyRuleProtocolUDP ∧ l = LayerTypeUDP ∧ server_port r (udp_DstPort d)
  ∨ Protocol r = PolicyRuleProtocolICMP ∧ l = LayerTypeICMPv4.
(** What the API lets into a rule: a protocol the clients know, and ports of 16 bits. *)
Definition port_text_ok (p : string) : Prop := p = "" ∨ ∃ v, ParseInt (str p) = Some v ∧ 0 ≤ v < 65536.
Definition known_protocol (p : string) : Prop :=
  p = PolicyRuleProtocolALL ∨ p = PolicyRuleProtocolTCP ∨ p = PolicyRuleProtocolUDP ∨ p = PolicyRuleProtocolICMP.
Definition range_ok (r : RulePortRange) : Prop := 0 ≤ Start r < 65536 ∧ 0 ≤ End_ r < 65536.
Record server_rule_ok (r : FirewallRule) : Prop := {
  sr_ip : ∃ n, 0 ≤ n < 2 ^ 32 ∧ PeerIP r = IP_String n;
  sr_direction : Direction r = FirewallRuleDirectionIN ∨ Direction r = FirewallRuleDirectionOUT;
  sr_protocol : known_protocol (Protocol r);
  sr_port : port_text_ok (Port r);
  sr_range : range_ok (PortRange r) }.

(** ** The client reads what the server wrote *)
Lemma ParseIP_v4 n : 0 ≤ n < 2 ^ 32 → ParseIP (IP_String n) = Some (As16 (v4 n)).
Proof.
  intros Hn. change (IP_String n) with (dotted n). unfold ParseIP, ParseAddr.
  assert (Hf : family (str (dotted n)) = Some false).
  { assert (Hs : ∀ (ds : bytes) rest, Forall is_digit ds → family (ds ++ dot :: rest) = Some false).
    { intros ds rest. induction 1 as [|c ds Hc _ IH]; [done|]. cbn [family app].
      assert (Hn1 : c ≠ dot ∧ c ≠ colon ∧ c ≠ percent) by (split_and!; intros ->; by destruct Hc).
      destruct Hn1 as (? & ? & ?). by rewrite !bool_decide_eq_false_2. }
    unfold dotted. rewrite str_app. apply Hs, pretty_digits, Z.mod_pos_bound. lia. }
  rewrite Hf, (parse_dotted n Hn). done.
Qed.
Lemma action_back s : convertFirewallAction (getProtoAction s) = Some (if bool_decide (s = PolicyTrafficActionDrop) then ActionDrop else ActionAccept).
Proof. unfold getProtoAction. by destruct (bool_decide _). Qed.
Lemma protocol_back p : known_protocol p → convertToFirewallProtocol (getProtoProtocol p) = Some p.
Proof. intros [->|[->|[->| ->]]]; done. Qed.
Lemma direction_back d : d = FirewallRuleDirectionIN ∨ d = FirewallRuleDirectionOUT → getProtoDirection d = d.
Proof. intros [->| ->]; done. Qed.

(** The port of the firewall rule the client makes of a server rule. *)
Definition client_port (r : FirewallRule) : option FirewallRules.Port :=
  if bool_decide (Port r = "") then
    if (bool_decide (Protocol r = PolicyRuleProtocolTCP) || bool_decide (Protocol r = PolicyRuleProtocolUDP))
       && negb ((Start (PortRange r) =? 0) || (End_ (PortRange r) =? 0))
    then Some {| IsRange := true; Values := [Start (PortRange r); End_ (PortRange r)] |} else None
  else (λ v, {| IsRange := false; Values := [v] |}) <$> ParseInt (str (Port r)).
Lemma port_back r : server_rule_ok r → rule_port (toProtocolFirewallRule r) = Ret (client_port r).
Proof.
  intros [_ _ Hp Ht [Hs He]]. unfold rule_port, client_port, toProtocolFirewallRule, shouldUsePortRange. cbn [fr_PortInfo fr_Port].
  destruct (bool_decide_reflect (Port r = "")) as [->|Hne]; cbn [andb].
  - assert (Hu : ((getProtoProtocol (Protocol r) =? RuleProtocol_UDP) || (getProtoProtocol (Protocol r) =? RuleProtocol_TCP))
                 = bool_decide (Protocol r = PolicyRuleProtocolTCP) || bool_decide (Protocol r = PolicyRuleProtocolUDP))
      by (destruct Hp as [->|[->|[->| ->]]]; reflexivity).
    rewrite Hu. destruct (bool_decide _ || bool_decide _); cbn [andb portInfoEmpty negb ToProto]; [|done].
    destruct ((Start (PortRange r) =? 0) || (End_ (PortRange r) =? 0)); cbn [negb]; [done|]. cbn. by rewrite !wrap_id.
  - cbn [portInfoEmpty negb]. destruct Ht as [|(v & Ev & Hv)]; [done|].
    rewrite Ev. cbn. by rewrite wrap_id.
Qed.
Definition server_action (r : FirewallRule) : FirewallRules.Action :=
  if bool_decide (Action r = PolicyTrafficActionDrop) then ActionDrop else ActionAccept.
Lemma args_back r n : server_rule_ok r → 0 ≤ n < 2 ^ 32 → PeerIP r = IP_String n →
  rule_args (toProtocolFirewallRule r) = Ret (As16 (v4 n), Protocol r, server_action r, client_port r).
Proof.
  intros Hok Hn Eip. unfold rule_args. rewrite (port_back r Hok). cbn [toProtocolFirewallRule fr_PeerIP fr_Protocol fr_Action].
  rewrite Eip, (ParseIP_v4 n Hn), (protocol_back _ (sr_protocol _ Hok)), action_back. done.
Qed.
Lemma client_rule_ok r : server_rule_ok r → rule_ok (toProtocolFirewallRule r).
Proof.
  intros Hok. destruct (sr_ip _ Hok) as (n & Hn & Eip). split.
  - cbn. rewrite direction_back by apply Hok. apply Hok.
  - eexists _, _, _, _. split; [by apply args_back|]. by exists n.
Qed.

Lemma sync_effective rs routes : effective_rules (sync_rules rs routes) = toProtocolFirewallRules rs.
Proof.
  unfold effective_rules, sync_rules. cbn [FirewallRules FirewallRulesIsEmpty]. destruct (toProtocolFirewallRules rs); [|done].
  by rewrite !bool_decide_eq_true_2.
Qed.

Lemma port_ok_back r x : server_rule_ok r → Protocol r = PolicyRuleProtocolTCP ∨ Protocol r = PolicyRuleProtocolUDP →
  port_ok (client_port r) x ↔ server_port r x.
Proof.
  intros Hok Hp. unfold client_port, server_port. destruct (bool_decide_reflect (Port r = "")) as [|Hne].
  - assert (Hu : bool_decide (Protocol r = PolicyRuleProtocolTCP) || bool_decide (Protocol r = PolicyRuleProtocolUDP) = true)
      by (by destruct Hp as [-> | ->]).
    rewrite Hu. destruct ((Start (PortRange r) =? 0) || (End_ (PortRange r) =? 0)); cbn; [done|]. split.
    + by intros (lo & hi & rest & [= <- <- _] & ?).
    + intros ?. by eexists _, _, _.
  - destruct (sr_port _ Hok) as [|(v & -> & _)]; [done|]. cbn. rewrite list_elem_of_singleton. split; [by intros ->|by intros [= ->]].
Qed.
Lemma covers_back r ip act l d : server_rule_ok r →
  filter_covers (filter_of RuleDirection_IN ip (Protocol r) (client_port r) act) l d ↔ server_covers r l d.
Proof.
  intros Hok. pose proof (port_ok_back r) as Hport. unfold filter_covers, server_covers, filter_of. cbn [pf_proto pf_sPort pf_dPort].
  change (RuleDirection_IN =? RuleDirection_IN) with true. cbn [pf_proto pf_sPort pf_dPort].
  destruct (sr_protocol _ Hok) as [Ep|[Ep|[Ep|Ep]]]; rewrite Ep.
  - by split; left.
  - change (protoToLayer PolicyRuleProtocolTCP LayerTypeIPv4) with LayerTypeTCP.
    specialize (Hport (dst_port LayerTypeTCP d) Hok (or_introl Ep)). split.
    + intros [?|[<- [_ H]]]; [done|]. right; left. split; [done|]. split; [done|]. by apply Hport.
    + intros [?|[(_ & -> & H)|[(? & _)|(? & _)]]]; try done. right. split; [done|]. split; [done|]. by apply Hport.
  - change (protoToLayer PolicyRuleProtocolUDP LayerTypeIPv4) with LayerTypeUDP.
    specialize (Hport (dst_port LayerTypeUDP d) Hok (or_intror Ep)). split.
    + intros [?|[<- [_ H]]]; [done|]. right; right; left. split; [done|]. split; [done|]. by apply Hport.
    + intros [?|[(? & _)|[(_ & -> & H)|(? & _)]]]; try done. right. split; [done|]. split; [done|]. by apply Hport.
  - change (protoToLayer PolicyRuleProtocolICMP LayerTypeIPv4) with LayerTypeICMPv4. split.
    + intros [?|[<- _]]; [done|]. by right; right; right.
    + intros [?|[(? & _)|[(? & _)|(_ & ->)]]]; try done. by right.
Qed.

(** ** What the message says is what the rules of the server say *)
Definition server_says (rs : list FirewallRule) (act : FirewallRules.Action) (n : Z) (l : layer) (d : decoder) : Prop :=
  ∃ r, r ∈ rs ∧ Direction r = FirewallRuleDirectionIN ∧ PeerIP r = IP_String n ∧ server_action r = act ∧ server_covers r l d.
Lemma says_back rs act n l d : (∀ r, r ∈ rs → server_rule_ok r) → 0 ≤ n < 2 ^ 32 →
  map_says true (toProtocolFirewallRules rs) act n l d ↔ server_says rs act n l d.
Proof.
  intros Hok Hn. split.
  - intros (r' & q & (r & -> & Hr)%list_elem_of_fmap & (ip & p & a & t & Ea & Hrel & ->) & Hact & Eip & Hc).
    specialize (Hok r Hr). destruct (sr_ip _ Hok) as (m & Hm & Em). rewrite (args_back r m Hok Hm Em) in Ea. injection Ea as <- <- <- <-.
    cbn [toProtocolFirewallRule fr_Direction] in *. rewrite direction_back in * by apply Hok.
    destruct Hrel as [Hin|(_ & ? & _)]; [|done]. rewrite Hin in *. exists r. split; [done|]. split; [done|].
    cbn [filter_of pf_ip pf_action] in Eip, Hact. apply As16_inj in Eip as ->; [|done..]. split; [done|]. split; [done|].
    by eapply covers_back.
  - intros (r & Hr & Hd & Eip & <- & Hc). specialize (Hok r Hr). exists (toProtocolFirewallRule r). eexists.
    split; [by apply list_elem_of_fmap_2|]. split; [|split; [|split]].
    + eexists _, _, _, _. split; [by apply args_back|]. split; [|reflexivity]. left. cbn. rewrite direction_back by apply Hok. done.
    + cbn [toProtocolFirewallRule fr_Direction]. by rewrite direction_back, Hd by apply Hok.
    + cbn [toProtocolFirewallRule fr_Direction]. by rewrite direction_back, Hd by apply Hok.
    + cbn [toProtocolFirewallRule fr_Direction]. rewrite direction_back, Hd by apply Hok. by apply covers_back.
Qed.

(** ** The rules of a policy *)
Lemma parse_pretty_go x s : foldl parse_step (Some 0) (str (pretty_N_go x s)) = foldl parse_step (Some (Z.of_N x)) (str s).
Proof.
  revert s. induction (N.lt_wf_0 x) as [x _ IH]; intros s.
  destruct (decide (x = 0%N)) as [->|]; [done|]. rewrite pretty_N_go_step by lia. rewrite IH by (apply N.div_lt; lia).
  change (str (String ?c s)) with (Ascii.byte_of_ascii c :: str s). cbn [foldl]. f_equal.
  assert (Hd : digit_val (Ascii.byte_of_ascii (pretty_N_char (x mod 10))) = Some (Z.of_N (x mod 10))).
  { pose proof (N.mod_lt x 10 ltac:(done)) as Hm. revert Hm. generalize (x mod 10)%N. intros k Hk.
    assert (Hall : forallb (λ k, bool_decide (digit_val (Ascii.byte_of_ascii (pretty_N_char k)) = Some (Z.of_N k))) (N.of_nat <$> seq 0 10) = true)
      by (vm_compute; reflexivity).
    rewrite forallb_forall in Hall. specialize (Hall k). rewrite bool_decide_eq_true in Hall. apply Hall.
    apply list_elem_of_In, list_elem_of_fmap. exists (N.to_nat k). split; [lia|]. apply elem_of_seq. lia. }
  unfold parse_step. cbn [mbind option_bind]. rewrite Hd. cbn [mbind option_bind]. f_equal.
  pose proof (N.div_mod x 10 ltac:(done)). lia.
Qed.
Lemma ParseInt_pretty n : 0 ≤ n < 65536 → ParseInt (str (pretty n)) = Some n.
Proof.
  intros Hn. assert (Hp : parse_digits (str (pretty n)) = Some n).
  { destruct n as [|p|p]; [done| |lia]. change (pretty (Z.pos p)) with (pretty (N.pos p)).
    unfold parse_digits. destruct (str (pretty (N.pos p))) eqn:E; [by apply (pretty_nonempty (Z.pos p)) in E|]. rewrite <- E.
    unfold pretty, pretty_N. rewrite decide_False by done. by rewrite parse_pretty_go. }
  pose proof (pretty_digits n ltac:(lia)) as Hd. unfold ParseInt. destruct (str (pretty n)) as [|c s]; [done|].
  apply Forall_inv in Hd. assert (Hc : c ≠ x2d ∧ c ≠ x2b) by (split; intros ->; by destruct Hd). destruct Hc.
  destruct c; try done; rewrite Hp; cbn [mbind option_bind]; rewrite bool_decide_eq_true_2; unfold in_i64; (done || lia).
Qed.

Definition rule_valid (rule : PolicyRule) : Prop :=
  known_protocol (fw_protocol rule) ∧ (∀ p, p ∈ r_Ports rule → port_text_ok p) ∧ ∀ pr, pr ∈ r_PortRanges rule → range_ok pr.

Section policy_rules.
Context (version_at_least : string → string → outcome unit bool).

(** The rules a base rule is expanded to differ in the port and the range only. *)
Definition expansion (rule : PolicyRule) (base fr : FirewallRule) : Prop :=
  ∃ p pr, fr = set_Port p (set_PortRange pr base)
    ∧ (p = Port base ∨ p ∈ r_Ports rule ∨ p = nativeSSHPortString ∨ ∃ pr, pr ∈ r_PortRanges rule ∧ p = Itoa (Start pr))
    ∧ (pr = PortRange base ∨ pr ∈ r_PortRanges rule).
Lemma expanded_base peer rule base fr : fr ∈ expandPortsAndRanges version_at_least base rule peer → expansion rule base fr.
Proof.
  unfold expandPortsAndRanges. set (expanded := _ ++ _).
  assert (Hin : fr ∈ expanded → expansion rule base fr).
  { unfold expanded. intros [(p & -> & Hp)%list_elem_of_fmap|Hr]%elem_of_app; [exists p, (PortRange base); by destruct base; auto|].
    destruct (r_Ports rule) as [|p ps]; [|by apply not_elem_of_nil in Hr]. apply list_elem_of_omap in Hr as (pr & Hpr & E).
    destruct (portRanges _); [injection E as <-; exists (Port base), pr; by destruct base; auto|].
    destruct (bool_decide _); [done|]. injection E as <-. exists (Itoa (Start pr)), (PortRange base). destruct base. cbn. eauto 10. }
  destruct (_ || _); [|exact Hin]. unfold addNativeSSHRule. destruct (ssh_scan false expanded) as [[|]|]; [|exact Hin..].
  intros [?|Hone%list_elem_of_singleton]%elem_of_app; [by apply Hin|]. rewrite Hone. exists nativeSSHPortString, (PortRange base). destruct base. cbn. auto 10.
Qed.
Lemma rule_rules_base peer rule base fr : fr ∈ rule_rules version_at_least peer rule base → expansion rule base fr.
Proof.
  pose proof (expanded_base peer rule base fr) as Hexp. unfold rule_rules. destruct (r_Ports rule) eqn:Ep; [destruct (r_PortRanges rule) eqn:Er|]; [|exact Hexp..].
  intros ->%list_elem_of_singleton. exists (Port base), (PortRange base). split; [by destruct base|auto].
Qed.

Lemma policy_rule_ok peer rule q d fr : rule_valid rule → 0 ≤ IP q < 2 ^ 32 → d = FirewallRuleDirectionIN ∨ d = FirewallRuleDirectionOUT →
  fr ∈ rule_rules version_at_least peer rule (base_rule rule q d) →
  server_rule_ok fr ∧ PeerIP fr = IP_String (IP q) ∧ Direction fr = d ∧ Action fr = r_Action rule.
Proof.
  intros (Hp & Hports & Hranges) Hip Hd (p & pr & -> & Hpt & Hpr)%rule_rules_base. split; [|done].
  split; cbn [set_Port set_PortRange PeerIP Direction Protocol Port PortRange base_rule]; [by exists (IP q)|done|done| |].
  - destruct Hpt as [->|[?|[->|(pr' & Hpr' & ->)]]]; [by left|by apply Hports|right; by exists 22022|]. right. exists (Start pr').
    destruct (Hranges pr' Hpr'). split; [by apply ParseInt_pretty|done].
  - destruct Hpr as [->|?]; [|by apply Hranges]. done.
Qed.

(** ** From policies to packets *)
Context (a : Account) (v : gset string) (users : gmap string (list string)).
Context (HPeers : map_Forall (λ k p, ID p = k) (Peers a)) (Hids : rule_ids_ok a).
Context (Hvalid : ∀ pol rule, (pol, rule) ∈ enabled_rules (Policies a) → rule_valid rule).
Context (Haddr : ∀ q, Peers a !! ID q = Some q → 0 < IP q < 2 ^ 32).

(** An enabled policy has a rule with this action whose source is a peer with the address [n] (and
    whose destination is [peer], or the other way round in a bidirectional rule) and which, as
    [peer]'s version supports it, is about the packet's protocol and port. *)
Definition policy_says (peer : Peer) (act : FirewallRules.Action) (n : Z) (l : layer) (d : decoder) : Prop :=
  ∃ pol rule q fr, (pol, rule) ∈ enabled_rules (Policies a) ∧ Peers a !! ID q = Some q ∧ ID q ≠ ID peer ∧ IP q = n
    ∧ remote a v pol rule (ID peer) (ID q) FirewallRuleDirectionIN
    ∧ act = (if bool_decide (r_Action rule = PolicyTrafficActionDrop) then ActionDrop else ActionAccept)
    ∧ fr ∈ rule_rules version_at_least peer rule (base_rule rule q FirewallRuleDirectionIN) ∧ server_covers fr l d.

Lemma remote_direction pol rule p q d : remote a v pol rule p q d → d = FirewallRuleDirectionIN ∨ d = FirewallRuleDirectionOUT.
Proof. unfold remote. naive_solver. Qed.
Lemma conn_rules_ok peer fr : fr ∈ conn_rules version_at_least a v users peer → server_rule_ok fr.
Proof.
  intros (pol & rule & q & d & He & Hq & _ & Hr & Hfr)%conn_rules_elem; [|done..].
  pose proof (Haddr q Hq). eapply policy_rule_ok; [by eapply Hvalid| |by eapply remote_direction|exact Hfr]. lia.
Qed.
Lemma policy_server_says peer act n l d : 0 ≤ n < 2 ^ 32 →
  server_says (conn_rules version_at_least a v users peer) act n l d ↔ policy_says peer act n l d.
Proof.
  intros Hn. split.
  - intros (fr & Hfr & Hdir & Eip & <- & Hc). apply conn_rules_elem in Hfr as (pol & rule & q & d' & He & Hq & Hne & Hr & Hfr); [|done..].
    pose proof (Haddr q Hq). destruct (policy_rule_ok peer rule q d' fr) as (_ & Eip' & Ed & Ea); [by eapply Hvalid|lia|by eapply remote_direction|done|].
    rewrite Ed in Hdir. subst d'. exists pol, rule, q, fr. split_and!; try done; [|unfold server_action; by rewrite Ea].
    rewrite Eip' in Eip. apply (dotted_inj (IP q) n); [lia|done|exact Eip].
  - intros (pol & rule & q & fr & He & Hq & Hne & <- & Hr & -> & Hfr & Hc). pose proof (Haddr q Hq).
    destruct (policy_rule_ok peer rule q FirewallRuleDirectionIN fr) as (_ & Eip & Ed & Ea); [by eapply Hvalid|lia|by left|done|].
    exists fr. split; [|unfold server_action; by rewrite Ea]. apply conn_rules_elem; [done..|]. by exists pol, rule, q, FirewallRuleDirectionIN.
Qed.
(** No peer has the address 0.0.0.0. *)
Lemma nobody_at_zero peer act l d : ¬ policy_says peer act 0 l d.
Proof. intros (pol & rule & q & fr & _ & Hq & _ & E & _). specialize (Haddr q Hq). lia. Qed.

Section enforcement.
Context (uuid : nat → string) `{Huuid : !Inj (=) (=) uuid}.
Context (order : gmap string (list PeerRule) → list (string * list PeerRule)) (Horder : ∀ m, order m ≡ₚ map_to_list m).
Context (selector : ProtoRule → string) (ToUnicode : string → option string).
Context (set_order : RuleSet → list PeerRule) (Hset : ∀ rs r, r ∈ set_order rs ↔ ∃ i, rs !! i = Some r).

(** C6: The policies of the account are what a client's packet filter enforces.  The management
    server computes a peer's firewall rules, converts them to the message, and the peer's client
    applies it, after any earlier maps and while other parts of the client keep rules of their own.
    Then a packet from the IPv4 address [n] that no connection tracker knows passes if and only if
    it is an ICMP error report, or no enabled drop policy (nor drop rule of the client's own) covers
    it, and an enabled accept policy between a peer with that address and this one (or an accept
    rule of the client's own) does. *)
Theorem policies_enforced peer routes other d f dns d' f' n dec l :
  history uuid order selector ToUnicode other d f → stateful f.1 = true →
  apply uuid order selector ToUnicode (sync_rules (conn_rules version_at_least a v users peer) routes) dns d f = (d', Some f') →
  0 ≤ n < 2 ^ 32 → transport dec = Some l →
  let own act from := others_say other f' act from l dec in
  ∃ i b, peerACLsBlock set_order (Some (v4 n)) dec (PacketFilter.rules f'.1) = Ret (i, b)
    ∧ (b = false ↔ isSpecialICMP dec = true
        ∨ ¬ policy_says peer ActionDrop n l dec ∧ ¬ own ActionDrop (v4 n)
          ∧ (policy_says peer ActionAccept n l dec ∨ own ActionAccept (v4 n) ∨ own ActionAccept IPv4Unspecified
             ∨ own ActionAccept IPv6Unspecified)).
Proof.
  intros Hh Hst E Hn Hl. cbv zeta. set (rs := conn_rules version_at_least a v users peer) in *.
  assert (Hok : ∀ r, r ∈ rs → server_rule_ok r) by (intros r; apply conn_rules_ok).
  assert (Hrules : ∀ r, r ∈ effective_rules (sync_rules rs routes) → rule_ok r).
  { intros r. rewrite sync_effective. intros (r0 & -> & Hr)%list_elem_of_fmap. by apply client_rule_ok, Hok. }
  destruct (map_enforced uuid order Horder selector ToUnicode set_order Hset other d f _ dns d' f' n dec l Hh Hrules E Hn Hl) as (i & b & Eb & Hb).
  exists i, b. split; [done|]. rewrite Hb, sync_effective, Hst, !says_back by (done || lia). unfold rs. rewrite !policy_server_says by (done || lia).
  pose proof (nobody_at_zero peer ActionAccept l dec). unfold IPv4Unspecified. tauto.
Qed.
End enforcement.
End policy_rules.

(** ** A small account *)
Lemma demo_valid pol rule : (pol, rule) ∈ enabled_rules (Policies demo_account) → rule_valid rule.
Proof.
  change (enabled_rules (Policies demo_account)) with [(demo_policy "p1" [demo_rule], demo_rule)].
  intros [= -> ->]%list_elem_of_singleton. split; [by right; left|]. split; [|by intros pr ?%not_elem_of_nil].
  intros p ->%list_elem_of_singleton. right. exists 22. split; [vm_compute; reflexivity|lia].
Qed.
Lemma demo_addresses q : Peers demo_account !! ID q = Some q → 0 < IP q < 2 ^ 32.
Proof.
  change (Peers demo_account) with (<["alice" := alice]> {["srv" := srv]} : gmap string Peer).
  intros [[_ <-]|[_ [_ <-]%lookup_singleton_Some]]%lookup_insert_Some; cbn; lia.
Qed.
Definition demo_map (peer : Peer) : NetworkMap := sync_rules (conn_rules all_new demo_account demo_validated ∅ peer) [].
Definition from_peer (q : Peer) (dport : Z) : decoder := sample_decoder (tcp4 (IP q) me 1000 dport 2).
Definition verdict (peer q : Peer) (dport : Z) : outcome Empty_set (option string * bool) :=
  peerACLsBlock any_order (Some (v4 (IP q))) (from_peer q dport) (PacketFilter.rules (after (demo_map peer) st0).2.1).

(** The policy lets the laptop reach port 22 of the server; the server's answers apart, nothing
    comes back. *)
Lemma policies_enforced_witness :
  policy_says all_new demo_account demo_validated srv ActionAccept (IP alice) LayerTypeTCP (from_peer alice 22)
  ∧ ¬ policy_says all_new demo_account demo_validated alice ActionAccept (IP srv) LayerTypeTCP (from_peer srv 22).
Proof.
  assert (Hin : verdict srv alice 22 = Ret (Some "r1", false)) by (vm_compute; reflexivity).
  assert (Hout : verdict alice srv 22 = Ret (None, true)) by (vm_compute; reflexivity).
  assert (Hn : ∀ q, q = alice ∨ q = srv → 0 ≤ IP q < 2 ^ 32) by (intros q [-> | ->]; cbn; lia). split.
  - destruct (policies_enforced all_new demo_account demo_validated ∅ demo_wf demo_rules_ok demo_valid demo_addresses decimal map_to_list map_to_list_order
      no_selector no_unicode any_order any_order_spec srv [] (λ _, False) NewDefaultManager (new_filter, 0%nat) false _ _ (IP alice) (from_peer alice 22)
      LayerTypeTCP sample_start eq_refl (after_apply _ _ _) (Hn _ (or_introl eq_refl)) eq_refl) as (i & b & E & Hb).
    change (verdict srv alice 22 = Ret (i, b)) in E. rewrite Hin in E. injection E as <- <-.
    destruct (proj1 Hb eq_refl) as [Hs|(_ & _ & [H|[(x & [] & _)|[(x & [] & _)|(x & [] & _)]]])]; [discriminate Hs|exact H].
  - destruct (policies_enforced all_new demo_account demo_validated ∅ demo_wf demo_rules_ok demo_valid demo_addresses decimal map_to_list map_to_list_order
      no_selector no_unicode any_order any_order_spec alice [] (λ _, False) NewDefaultManager (new_filter, 0%nat) false _ _ (IP srv) (from_peer srv 22)
      LayerTypeTCP sample_start eq_refl (after_apply _ _ _) (Hn _ (or_intror eq_refl)) eq_refl) as (i & b & E & Hb).
    change (verdict alice srv 22 = Ret (i, b)) in E. rewrite Hout in E. injection E as <- <-.
    intros H. discriminate (proj2 Hb). right. split; [|split; [by intros (x & [] & _)|by left]].
    intros (pol & rule & q & fr & He & _ & _ & _ & _ & Hact & _).
    change (enabled_rules (Policies demo_account)) with [(demo_policy "p1" [demo_rule], demo_rule)] in He.
    apply list_elem_of_singleton in He as [= -> ->]. discriminate Hact.
Defined.
