(* ===== verification/RouteDelivery.v ===== *)
(** From routes and policies to the packets a routing peer forwards: the route rules of [RouteMap]
    converted to messages ([src/management/internals/shared/grpc/conversion.go]), applied by the
    ACL manager and enforced by the packet filter of the routing peer ([RouteSync]). *)
From stdpp Require Import pretty.
From S2P Require Import Prelude GoText NetIP PacketNat PacketDnat FirewallRules NetParse PeerAcl RouteAcl PacketFilter FilterRuns AclManager AclKeys AclSync FilterSync RouteSync AccessPolicy AccountObjects MapDelivery RouteMap ResourceMap NetworkMap.
Open Scope Z_scope.

Abbreviation ProtoRouteRule := AclManager.RouteFirewallRule.

(** ** conversion.go *)
Definition getProtoPortInfo (r : RouteFirewallRule) : PortInfo :=
  if negb (srf_Port r =? 0) then Some (PortInfo_Port (srf_Port r))
  else if negb (Start (srf_PortRange r) =? 0) && negb (End_ (srf_PortRange r) =? 0)
  then Some (PortInfo_Range_ (Some (Start (srf_PortRange r), End_ (srf_PortRange r)))) else None.
Definition toProtocolRouteFirewallRule (r : RouteFirewallRule) : ProtoRouteRule :=
  {| rf_SourceRanges := srf_SourceRanges r; rf_Action := getProtoAction (srf_Action r); rf_Destination := srf_Destination r;
     rf_Protocol := getProtoProtocol (srf_Protocol r); rf_PortInfo := Some (getProtoPortInfo r); rf_IsDynamic := srf_IsDynamic r;
     rf_Domains := domain_text <$> srf_Domains r; rf_PolicyID := Some (srf_PolicyID r) |}.
Definition toProtocolRoutesFirewallRules (rs : list RouteFirewallRule) : list ProtoRouteRule := toProtocolRouteFirewallRule <$> rs.

(** ** Prefixes are read as they were written *)
Lemma last_slash_app l b : slash ∉ b → last_slash (l ++ slash :: b) = Some (l, b).
Proof.
  intros Hb. induction l as [|c l IH]; cbn [app last_slash]; [|by rewrite IH].
  assert (Hn : last_slash b = None).
  { induction b as [|c b IHb]; [done|]. cbn. rewrite IHb by set_solver. rewrite bool_decide_eq_false_2; [done|]. set_solver. }
  rewrite Hn. by rewrite bool_decide_eq_true_2.
Qed.
Definition lengths : list Z := Z.of_nat <$> seq 0 33.
Lemma length_texts : Forall (λ n, bool_decide (1 < length (str (pretty n)))%nat && negb (bool_decide (default 0 (head (str (pretty n)) ≫= digit_val) ≠ 0)) = false
  ∧ ParseInt (str (pretty n)) = Some n ∧ slash ∉ str (pretty n)) lengths.
Proof.
  apply Forall_forall. assert (H : forallb (λ n : Z, negb (bool_decide (1 < length (str (pretty n)))%nat && negb (bool_decide (default 0 (head (str (pretty n)) ≫= digit_val) ≠ 0)))
    && bool_decide (ParseInt (str (pretty n)) = Some n) && bool_decide (slash ∉ str (pretty n))) lengths = true) by (vm_compute; reflexivity).
  intros n Hn. rewrite forallb_forall in H. specialize (H n). rewrite !andb_true_iff, !bool_decide_eq_true, negb_true_iff in H.
  destruct H as [[H1 H2] H3]; [by apply list_elem_of_In|]. done.
Qed.
Definition prefix_v4 (n bits : Z) : prefix := {| px_v6 := false; px_addr := n; px_bits := bits |}.
Lemma ParsePrefix_v4 n bits : 0 ≤ n < 2 ^ 32 → 0 ≤ bits ≤ 32 → ParsePrefix (dotted n +:+ "/" +:+ pretty bits) = Some (prefix_v4 n bits).
Proof.
  intros Hn Hb. pose proof length_texts as Hl. rewrite Forall_forall in Hl. destruct (Hl bits) as (H1 & H2 & H3).
  { unfold lengths. apply list_elem_of_fmap. exists (Z.to_nat bits). split; [lia|]. apply elem_of_seq. lia. }
  unfold ParsePrefix. rewrite !str_app. change (str "/") with [slash]. cbn [app]. rewrite last_slash_app by done. cbn [mbind option_bind].
  pose proof (ParseIP_v4 n Hn) as Hip. unfold ParseIP in Hip.
  assert (Ha : ParseAddr (str (dotted n)) = Some (v4 n)).
  { change (IP_String n) with (dotted n) in Hip. destruct (ParseAddr (str (dotted n))) as [x|] eqn:E; [|done]. unfold ParseAddr in E.
    destruct (family (str (dotted n))) as [[|]|] eqn:Ef; [|rewrite (parse_dotted n Hn) in E; by injection E as <-|done].
    exfalso. assert (Hc : Forall dotdigit (str (dotted n))) by apply dotted_chars. clear E Hip. revert Ef Hc.
    generalize (str (dotted n)). induction l as [|c l IH]; cbn [family]; [done|].
    destruct (bool_decide_reflect (c = NetParse.dot)) as [|Hd]; [done|]. destruct (bool_decide_reflect (c = colon)) as [Ec|].
    - intros _ [[? H]|?]%Forall_inv; [by rewrite Ec in H|congruence].
    - destruct (bool_decide_reflect (c = percent)); [done|]. intros E H%Forall_inv_tail. by apply IH. }
  rewrite Ha. cbn [mbind option_bind]. rewrite H1, H2. cbn [mbind option_bind ad_v6 v4 ad_num].
  replace (bits <? 0) with false by lia. replace (32 <? bits) with false by lia. done.
Qed.

(** ** What the client makes of a route rule *)
Definition choice_port (c : Z * RulePortRange) : option FirewallRules.Port :=
  if negb (c.1 =? 0) then Some {| IsRange := false; Values := [c.1] |}
  else if negb (Start c.2 =? 0) && negb (End_ c.2 =? 0) then Some {| IsRange := true; Values := [Start c.2; End_ c.2] |} else None.
Definition choice_ok (c : Z * RulePortRange) : Prop := 0 ≤ c.1 < 65536 ∧ 0 ≤ Start c.2 < 65536 ∧ 0 ≤ End_ c.2 < 65536.
(** The rule is about the protocol, and a port is one of the choice. *)
Definition choice_has (c : Z * RulePortRange) (x : Z) : Prop :=
  if negb (c.1 =? 0) then x = c.1 else if negb (Start c.2 =? 0) && negb (End_ c.2 =? 0) then Start c.2 ≤ x ≤ End_ c.2 else True.
Definition protocol_has (p : string) (l : layer) : Prop :=
  p = PolicyRuleProtocolALL ∨ p = PolicyRuleProtocolTCP ∧ l = LayerTypeTCP ∨ p = PolicyRuleProtocolUDP ∧ l = LayerTypeUDP
  ∨ p = PolicyRuleProtocolICMP ∧ l = LayerTypeICMPv4.

Lemma choice_port_ok c x : port_ok (choice_port c) x ↔ choice_has c x.
Proof.
  unfold choice_port, choice_has. destruct (negb (c.1 =? 0)); cbn; [by rewrite list_elem_of_singleton|].
  destruct (_ && _); cbn; [|done]. split; [by intros (? & ? & ? & [= <- <- _] & ?)|]. intros ?. by eexists _, _, _.
Qed.
Lemma protocol_layer p l : known_protocol p → (protoToLayer p LayerTypeIPv4 = layerTypeAll ∨ protoToLayer p LayerTypeIPv4 = l) ↔ protocol_has p l.
Proof.
  unfold protocol_has. intros [->|[->|[->| ->]]]; cbn; intuition (try discriminate; eauto; try congruence).
Qed.
Lemma choices_ok rule c : ranges_ok rule → c ∈ port_choices rule → choice_ok c.
Proof.
  intros Hr. unfold port_choices, choice_ok. destruct (r_Ports rule) as [|p ps] eqn:Ep.
  - unfold ranges_ok in Hr. destruct (r_PortRanges rule) as [|pr prs]; [intros ->%list_elem_of_singleton; cbn; lia|].
    intros (x & -> & Hx)%list_elem_of_fmap. destruct (Hr x Hx). cbn. lia.
  - intros (n & -> & (x & _ & En)%list_elem_of_omap)%list_elem_of_fmap. unfold ParseUint16 in En.
    destruct (parse_digits (str x)) as [m|] eqn:Em; [|done]. cbn in En. destruct (Z.ltb_spec m 65536); [|done]. injection En as <-. cbn.
    assert (0 ≤ m); [|lia]. unfold parse_digits in Em. destruct (str x) as [|b bs]; [done|]. revert Em.
    assert (Hp : ∀ s acc m, 0 ≤ acc → foldl parse_step (Some acc) s = Some m → 0 ≤ m).
    { clear. induction s as [|b s IH]; intros acc m Ha; cbn [foldl]; [by intros [= <-]|]. unfold parse_step at 2. cbn [mbind option_bind].
      destruct (digit_val b) as [d|] eqn:Ed.
      - cbn [mbind option_bind]. apply IH. unfold digit_val in Ed. case_bool_decide; [|done]. injection Ed as <-. lia.
      - cbn [mbind option_bind]. clear. induction s as [|c s IH]; cbn; [done|]. exact IH. }
    by apply Hp.
Qed.
Lemma choice_back c r : choice_ok c → convertPortInfo (Some (getProtoPortInfo (with_port c.1 (with_range c.2 r)))) = choice_port c.
Proof.
  intros (H1 & H2 & H3). unfold getProtoPortInfo, choice_port. cbn [with_port with_range srf_Port srf_PortRange].
  destruct (c.1 =? 0) eqn:E1; cbn [negb].
  - destruct (negb _ && negb _); cbn; [|done]. by rewrite !wrap_id.
  - cbn. rewrite E1. cbn. by rewrite wrap_id.
Qed.

Definition route_ok (r : Route) : Prop :=
  IsDynamic r = false ∧ ∃ n bits, rt_Network r = Some (prefix_v4 n bits) ∧ 0 ≤ n < 2 ^ 32 ∧ 0 ≤ bits ≤ 32.
Definition rule_action (rule : PolicyRule) : FirewallRules.Action :=
  if bool_decide (r_Action rule = PolicyTrafficActionDrop) then ActionDrop else ActionAccept.
Definition request (net : Prefix) (srcs : list prefix) (proto : string) (port : option FirewallRules.Port) (act : FirewallRules.Action)
    : route_filter :=
  {| rq_sources := srcs; rq_destination := {| fn_Set := no_set; fn_Prefix := net |}; rq_proto := proto; rq_dPort := port; rq_action := act |}.

Lemma parse_sources peers : (∀ q, q ∈ peers → 0 ≤ IP q < 2 ^ 32) →
  parse_all ((λ p, IP_String (IP p) +:+ "/32") <$> peers) = Some ((λ p, prefix_v4 (IP p) 32) <$> peers).
Proof.
  induction peers as [|q peers IH]; intros Hq; [done|]. rewrite !fmap_cons. cbn [parse_all].
  change (IP_String (IP q) +:+ "/32") with (dotted (IP q) +:+ "/" +:+ pretty 32). rewrite ParsePrefix_v4; [|apply Hq; by left|lia].
  cbn [mbind option_bind]. rewrite IH; [done|]. intros q' Hq'. apply Hq. by right.
Qed.
Lemma unknown_protocol p : ¬ known_protocol p → convertToFirewallProtocol (getProtoProtocol p) = None.
Proof.
  unfold known_protocol, getProtoProtocol. intros Hn.
  rewrite !bool_decide_eq_false_2 by tauto. done.
Qed.
Lemma known_or p : known_protocol p ∨ ¬ known_protocol p.
Proof.
  unfold known_protocol. destruct (decide (p = PolicyRuleProtocolALL ∨ p = PolicyRuleProtocolTCP ∨ p = PolicyRuleProtocolUDP ∨ p = PolicyRuleProtocolICMP)); tauto.
Qed.

Section args.
Context (ToUnicode : string → option string).
Lemma policy_route_args route rule peers c dyn q : route_ok route → choice_ok c → (∀ p, p ∈ peers → 0 ≤ IP p < 2 ^ 32) →
  route_args ToUnicode (toProtocolRouteFirewallRule
    (with_port c.1 (with_range c.2 (base_route_rule route rule ((λ p, IP_String (IP p) +:+ "/32") <$> peers))))) dyn = Ret q ↔
  peers ≠ [] ∧ known_protocol (r_Protocol rule)
  ∧ q = request (rt_Network route) ((λ p, prefix_v4 (IP p) 32) <$> peers) (r_Protocol rule) (choice_port c) (rule_action rule).
Proof.
  intros (Hdyn & n & bits & Hnet & Hn & Hb) Hc Hp. unfold route_args, determineDestination.
  cbn [toProtocolRouteFirewallRule rf_SourceRanges rf_IsDynamic rf_Destination rf_Protocol rf_Action rf_PortInfo
       with_port with_range base_route_rule srf_SourceRanges srf_IsDynamic srf_Destination srf_Protocol srf_Action].
  destruct peers as [|p0 peers]; [rewrite bool_decide_eq_true_2 by done; split; [done|by intros []]|].
  rewrite bool_decide_eq_false_2 by done. rewrite (parse_sources _ Hp). cbn [or_err mbind outcome_bind]. rewrite Hdyn, Hnet. cbn [prefix_text].
  assert (Epx : Prefix_String (prefix_v4 n bits) = dotted n +:+ "/" +:+ pretty bits) by done. rewrite Epx, ParsePrefix_v4 by done.
  rewrite choice_back by done. destruct (known_or (r_Protocol rule)) as [Hk|Hk].
  - rewrite (protocol_back _ Hk), action_back. cbn. split; [intros [= <-]; done|by intros (_ & _ & ->)].
  - rewrite (unknown_protocol _ Hk). cbn. split; [done|]. by intros (_ & ? & _).
Qed.
Lemma permit_args route dyn q : route_ok route →
  (∃ fr, fr ∈ getDefaultPermit route ∧ route_args ToUnicode (toProtocolRouteFirewallRule fr) dyn = Ret q) ↔
  q = request (rt_Network route) [prefix_v4 0 0] PolicyRuleProtocolALL None ActionAccept.
Proof.
  intros (Hdyn & n & bits & Hnet & Hn & Hb). unfold getDefaultPermit. rewrite Hdyn, Hnet. cbn [Is6 prefix_v4 px_v6].
  assert (Ha : route_args ToUnicode (toProtocolRouteFirewallRule (permit route "0.0.0.0/0")) dyn
               = Ret (request (rt_Network route) [prefix_v4 0 0] PolicyRuleProtocolALL None ActionAccept)).
  { unfold route_args, determineDestination, permit.
    cbn [toProtocolRouteFirewallRule rf_SourceRanges rf_IsDynamic rf_Destination rf_Protocol rf_Action rf_PortInfo
         srf_SourceRanges srf_IsDynamic srf_Destination srf_Protocol srf_Action].
    rewrite bool_decide_eq_false_2 by done.
    assert (E0 : parse_all ["0.0.0.0/0"] = Some [prefix_v4 0 0]) by (vm_compute; reflexivity). rewrite E0. cbn [or_err mbind outcome_bind].
    rewrite Hdyn, Hnet. cbn [prefix_text]. assert (Epx : Prefix_String (prefix_v4 n bits) = dotted n +:+ "/" +:+ pretty bits) by done.
    rewrite Epx, ParsePrefix_v4 by done. done. }
  rewrite <- Hnet. split.
  - intros (fr & ->%list_elem_of_singleton & E). rewrite Ha in E. by injection E as <-.
  - intros ->. exists (permit route "0.0.0.0/0"). split; [by left|done].
Qed.
End args.

(** ** The rules of a route *)
Lemma in_host n m : 0 ≤ n < 2 ^ 32 → prefix_contains (Some (v4 n)) (prefix_v4 m 32) = true ↔ m = n.
Proof.
  intros _. unfold prefix_contains, Contains. cbn [ad_v6 v4 px_v6 prefix_v4 ad_num px_addr px_bits]. rewrite bool_decide_eq_true_2 by done.
  cbn [andb]. change (addr_bits _ - 32) with 0. rewrite !Z.shiftr_0_r, Z.eqb_eq. split; by intros ->.
Qed.
Lemma in_all n : 0 ≤ n < 2 ^ 32 → prefix_contains (Some (v4 n)) (prefix_v4 0 0) = true.
Proof.
  intros Hn. unfold prefix_contains, Contains. cbn [ad_v6 v4 px_v6 prefix_v4 ad_num px_addr px_bits]. rewrite bool_decide_eq_true_2 by done.
  cbn [andb]. apply Z.eqb_eq. change (addr_bits _ - 0) with 32. rewrite !Z.shiftr_div_pow2, Z.div_small by (done || lia). done.
Qed.

Section policies.
Context (a : Account) (v : gset string) (ToUnicode : string → option string).
Context (Haddr : ∀ p q, Peers a !! p = Some q → 0 ≤ IP q < 2 ^ 32).
Context (Hranges : ∀ pol rule, pol ∈ Policies a → rule ∈ pol_Rules pol → ranges_ok rule).

(** *** What the account says, in its own terms *)
Definition member_of (p : string) (ids : list string) : Prop := ∃ i g, i ∈ ids ∧ Groups a !! i = Some g ∧ p ∈ g_Peers g.
(** The rule has the peer as a source: as a member of one of its groups, unless it is the routing
    peer itself, or by name. *)
Definition names_source (rule : PolicyRule) (peerID p : string) : Prop :=
  p ≠ peerID ∧ member_of p (r_Sources rule)
  ∨ res_Type (r_SourceResource rule) = ResourceTypePeer ∧ res_ID (r_SourceResource rule) ≠ "" ∧ p = res_ID (r_SourceResource rule).
(** An enabled rule of the enabled policy lets an approved peer with the address [n], one of [users]
    that passes the policy's posture checks, into what [peerID] routes, or keeps it out, and is about
    the protocol and the port. *)
Definition policy_routes (pol : Policy) (peerID : string) (users : string → Prop) (act : FirewallRules.Action) (n : Z) (l : layer) (dp : Z) : Prop :=
  pol_Enabled pol = true ∧ ∃ rule p q c, rule ∈ pol_Rules pol ∧ r_Enabled rule = true ∧ act = rule_action rule
    ∧ (users p ∧ p ∈ v ∧ validatePostureChecksOnPeer a (pol_SourcePostureChecks pol) p = true ∧ names_source rule peerID p)
    ∧ Peers a !! p = Some q ∧ IP q = n
    ∧ protocol_has (r_Protocol rule) l ∧ c ∈ port_choices rule ∧ (is_port_layer l = true → choice_has c dp).
(** A policy counts for the access control group [g] of a route when one of its rules has the group
    as a destination.  It then counts with all its rules, whatever their destinations are; see
    [unrelated_rule_opens_route]. *)
Definition about_group (pol : Policy) (g : string) : Prop :=
  pol ∈ Policies a ∧ ∃ group rule, Groups a !! g = Some group ∧ rule ∈ pol_Rules pol ∧ g_ID group ∈ r_Destinations rule.
Definition in_network (net : Prefix) (dst : Addr) : Prop := ∃ px, net = Some px ∧ prefix_contains dst px = true.

Lemma rule_source_iff checks rule peerID dist p : rule_source (account_view a v) checks rule peerID dist p ↔
  p ∈ dist ∧ p ∈ v ∧ validatePostureChecksOnPeer a checks p = true ∧ names_source rule peerID p.
Proof using Type. clear. unfold rule_source. cbn [account_view vw_approved vw_posture vw_group]. by rewrite bool_decide_eq_true. Qed.
Lemma policy_routes_ext pol peerID U U' act n l dp :
  (∀ p rule, rule ∈ pol_Rules pol → names_source rule peerID p → U p ↔ U' p) →
  policy_routes pol peerID U act n l dp ↔ policy_routes pol peerID U' act n l dp.
Proof using Type.
  clear. intros H. split; intros (Ep & rule & p & q & c & Hr & Er & Ha & (Hu & Hv & Hpc & Hs) & Hrest);
    (split; [done|]); exists rule, p, q, c; split_and!; try apply Hrest; try done; by apply (H p rule Hr Hs).
Qed.
(** The peers of the sources of a resource's policies include the sources of each of its rules. *)
Lemma policy_sources pols pol rule peerID p : pol ∈ pols → rule ∈ pol_Rules pol → names_source rule peerID p →
  p ∈ getPoliciesSourcePeers (account_view a v) pols.
Proof using Type.
  clear. intros Hpol Hr Hs. unfold getPoliciesSourcePeers. generalize (∅ : gset string).
  set (step := λ (s : gset string) (rule : PolicyRule), _).
  assert (Hmono : ∀ rs s, p ∈ s → p ∈ foldl step s rs).
  { induction rs as [|r rs IH]; intros s Hin; cbn [foldl]; [done|]. apply IH. unfold step. case_match; set_solver. }
  assert (Hin : ∀ s, p ∈ step s rule).
  { intros s. unfold step. destruct Hs as [[_ (i & g & Hi & Hg & Hp)]|(Ht & He & ->)].
    - assert (p ∈ group_members (account_view a v) (r_Sources rule)) by (apply group_members_elem; by exists i, g). case_match; set_solver.
    - rewrite bool_decide_eq_true_2, bool_decide_eq_false_2 by done. cbn. set_solver. }
  assert (Hrule : ∀ rs s, rule ∈ rs → p ∈ foldl step s rs).
  { induction rs as [|r rs IH]; intros s; cbn [foldl]; [by intros ?%not_elem_of_nil|]. intros [<-|?]%elem_of_cons; [by apply Hmono|by apply IH]. }
  induction pols as [|pol' pols IH]; intros s; cbn [foldl]; [by apply not_elem_of_nil in Hpol|].
  apply elem_of_cons in Hpol as [<-|Hpol]; [|by apply IH].
  assert (Hall : ∀ ps s, p ∈ s → p ∈ foldl (λ s pol, foldl step s (pol_Rules pol)) s ps).
  { clear - Hmono. induction ps as [|x ps IH]; intros s Hs; cbn [foldl]; [done|]. by apply IH, Hmono. }
  apply Hall, Hrule, Hr.
Qed.
Lemma sources_iff pols pol peerID act n l dp : pol ∈ pols →
  policy_routes pol peerID (.∈ getPoliciesSourcePeers (account_view a v) pols) act n l dp ↔ policy_routes pol peerID (λ _, True) act n l dp.
Proof using Type. clear. intros Hpol. apply policy_routes_ext. intros p rule Hr Hs. split; [done|]. intros _. by eapply policy_sources. Qed.

Lemma getRouteFirewallRules_elem peerID pols route dist fr : fr ∈ getRouteFirewallRules (account_view a v) peerID pols route dist ↔
  ∃ pol rule, pol ∈ pols ∧ pol_Enabled pol = true ∧ rule ∈ pol_Rules pol ∧ r_Enabled rule = true
    ∧ fr ∈ generateRouteFirewallRules route rule (getRulePeers (account_view a v) rule (pol_SourcePostureChecks pol) peerID dist).
Proof.
  unfold getRouteFirewallRules. rewrite concat_fmap_elem. split.
  - intros (pol & Hp & H). destruct (pol_Enabled pol) eqn:Ep; [|by apply not_elem_of_nil in H].
    apply concat_fmap_elem in H as (rule & Hr & H). destruct (r_Enabled rule) eqn:Er; [|by apply not_elem_of_nil in H]. by exists pol, rule.
  - intros (pol & rule & Hp & Ep & Hr & Er & H). exists pol. split; [done|]. rewrite Ep. apply concat_fmap_elem. exists rule. by rewrite Er.
Qed.
(** The requests the client makes of the rules of a route cover what the policies are about. *)
Lemma rules_cover peerID pols route dist dyn act n dst l dp : route_ok route → (∀ pol, pol ∈ pols → pol ∈ Policies a) → 0 ≤ n < 2 ^ 32 →
  (∃ fr q, fr ∈ getRouteFirewallRules (account_view a v) peerID pols route dist ∧ route_args ToUnicode (toProtocolRouteFirewallRule fr) dyn = Ret q
     ∧ rq_action q = act ∧ route_filter_covers q (Some (v4 n)) dst l dp) ↔
  in_network (rt_Network route) dst ∧ ∃ pol, pol ∈ pols ∧ policy_routes pol peerID (.∈ dist) act n l dp.
Proof.
  intros Hroute Hpols Hn. split.
  - intros (fr & q & (pol & rule & Hp & Ep & Hr & Er & H)%getRouteFirewallRules_elem & Ea & <- & Hc).
    apply generated_rules in H as (c & Hin & ->); [|by eapply Hranges; [apply Hpols|]].
    set (peers := getRulePeers _ _ _ _ _) in *. assert (Hpeers : ∀ x, x ∈ peers → 0 ≤ IP x < 2 ^ 32).
    { intros x (p & Hx & _)%getRulePeers_elem. exact (Haddr p x Hx). }
    apply policy_route_args in Ea as (_ & Hk & ->); [|done|eapply choices_ok; [by eapply Hranges; [apply Hpols|]|done]|done].
    destruct Hc as (Hl & Hport & Hd & (px & (x & -> & Hx)%list_elem_of_fmap & Hs)). cbn [request rq_proto rq_dPort rq_destination rq_action fn_Prefix] in *.
    split; [done|]. exists pol. split; [done|]. split; [done|]. apply (in_host n (IP x) Hn) in Hs. apply getRulePeers_elem in Hx as (p & Hpx & Hsrc%rule_source_iff).
    exists rule, p, x, c. do 3 (split; [done|]). split; [exact Hsrc|]. split_and!; try done; [by apply protocol_layer|]. intros Hl'. by apply choice_port_ok, Hport.
  - intros (Hd & pol & Hp & Ep & rule & p & x & c & Hr & Er & -> & Hsrc & Hx & Hip & Hproto & Hin & Hport).
    set (peers := getRulePeers (account_view a v) rule (pol_SourcePostureChecks pol) peerID dist). assert (Hpeers : ∀ x, x ∈ peers → 0 ≤ IP x < 2 ^ 32).
    { intros y (p' & Hy & _)%getRulePeers_elem. exact (Haddr p' y Hy). }
    assert (Hxp : x ∈ peers) by (apply getRulePeers_elem; exists p; split; [done|by apply rule_source_iff]).
    assert (Hk : known_protocol (r_Protocol rule)) by (destruct Hproto as [->|[[-> _]|[[-> _]|[-> _]]]]; unfold known_protocol; auto).
    assert (Hrange : ranges_ok rule) by (by eapply Hranges; [apply Hpols|]).
    eexists _, _. split; [|split; [|split]].
    + apply getRouteFirewallRules_elem. exists pol, rule. split_and!; [done..|]. apply generated_rules; [done|]. by exists c.
    + apply policy_route_args; [done|by eapply choices_ok|done|]. split_and!; [|done|reflexivity]. fold peers. intros E. rewrite E in Hxp. by apply not_elem_of_nil in Hxp.
    + done.
    + split; [by apply protocol_layer|]. split; [intros Hl; by apply choice_port_ok, Hport|]. split; [done|].
      exists (prefix_v4 (IP x) 32). split; [apply list_elem_of_fmap; by exists x|]. by apply in_host.
Qed.
Lemma policies_of_group g pol : pol ∈ GetAllRoutePoliciesFromGroups a [g] ↔ about_group pol g.
Proof.
  unfold about_group, GetAllRoutePoliciesFromGroups. rewrite concat_fmap_elem. split.
  - intros (i & ->%list_elem_of_singleton & H). destruct (Groups a !! g) as [group|]; [|by apply not_elem_of_nil in H].
    apply concat_fmap_elem in H as (pol' & Hp & (rule & -> & [Hin Hr]%bfilter_elem)%list_elem_of_fmap). split; [done|].
    exists group, rule. split_and!; try done. by apply bool_decide_eq_true in Hr.
  - intros (Hp & group & rule & Eg & Hr & Hd). exists g. split; [by left|]. rewrite Eg. apply concat_fmap_elem. exists pol. split; [done|].
    apply list_elem_of_fmap. exists rule. split; [done|]. apply bfilter_elem. split; [done|]. by apply bool_decide_eq_true.
Qed.

(** ** The routes and resources of an account *)
(** The peer serves the route: as its peer or as a member of one of its groups. *)
Definition in_charge (peerID : string) (r : Route) : Prop :=
  rt_Peer r = peerID ∨ ∃ i g, i ∈ rt_PeerGroups r ∧ Groups a !! i = Some g ∧ peerID ∈ g_Peers g.
(** What the account says of one route: everyone may use it when it has no access control groups;
    otherwise the policies about these groups decide, for the members of its distribution groups. *)
Definition route_says (r : Route) (peerID : string) (act : FirewallRules.Action) (n : Z) (l : layer) (dp : Z) : Prop :=
  rt_AccessControlGroups r = [] ∧ act = ActionAccept
  ∨ ∃ g pol, g ∈ rt_AccessControlGroups r ∧ about_group pol g
      ∧ policy_routes pol peerID (λ p, member_of p (rt_Groups r)) act n l dp.
Lemma distribution_iff pol r peerID act n l dp :
  policy_routes pol peerID (.∈ getDistributionGroupsPeers (account_view a v) r) act n l dp
  ↔ policy_routes pol peerID (λ p, member_of p (rt_Groups r)) act n l dp.
Proof using Type. clear. apply policy_routes_ext. intros p rule _ _. apply group_members_elem. Qed.

Lemma covers_permit net n dst l dp : 0 ≤ n < 2 ^ 32 →
  route_filter_covers (request net [prefix_v4 0 0] PolicyRuleProtocolALL None ActionAccept) (Some (v4 n)) dst l dp ↔ in_network net dst.
Proof using Type.
  intros Hn. unfold route_filter_covers. cbn [request rq_proto rq_dPort rq_destination rq_sources fn_Prefix]. split; [by intros (_ & _ & ? & _)|].
  intros Hd. split; [by left|]. split; [done|]. split; [done|]. exists (prefix_v4 0 0). split; [by left|by apply in_all].
Qed.
Lemma route_rules_cover peerID route dyn act n dst l dp : route_ok route → 0 ≤ n < 2 ^ 32 →
  (∃ fr q, fr ∈ route_rules (account_view a v) peerID route ∧ route_args ToUnicode (toProtocolRouteFirewallRule fr) dyn = Ret q
     ∧ rq_action q = act ∧ route_filter_covers q (Some (v4 n)) dst l dp) ↔
  in_network (rt_Network route) dst ∧ route_says route peerID act n l dp.
Proof using Haddr Hranges.
  intros Hroute Hn. unfold route_rules, route_says. destruct (rt_AccessControlGroups route) as [|g0 gs].
  - split.
    + intros (fr & q & Hfr & E & <- & Hc). assert (Eq : q = request (rt_Network route) [prefix_v4 0 0] PolicyRuleProtocolALL None ActionAccept)
        by (eapply permit_args; eauto). subst q. apply covers_permit in Hc; [|done]. split; [done|by left].
    + intros [Hd [[_ ->]|(g & pol & ?%not_elem_of_nil & _)]]; [|done].
      destruct (proj2 (permit_args ToUnicode route dyn _ Hroute) eq_refl) as (fr & Hfr & E). exists fr. eexists. split; [done|]. split; [done|].
      split; [done|by apply covers_permit].
  - assert (Hp : ∀ g pol, pol ∈ GetAllRoutePoliciesFromGroups a [g] → pol ∈ Policies a) by (by intros g pol [? _]%policies_of_group). split.
    + intros (fr & q & (g & Hg & Hfr)%concat_fmap_elem & Hrest).
      destruct (proj1 (rules_cover peerID _ route (getDistributionGroupsPeers (account_view a v) route) dyn act n dst l dp Hroute (Hp g) Hn)) as (Hd & pol & ? & ?);
        [by exists fr, q|]. split; [done|]. right. exists g, pol. by rewrite <- policies_of_group, <- distribution_iff.
    + intros [Hd [[? _]|(g & pol & Hg & Hpol & Hr)]]; [done|].
      destruct (proj2 (rules_cover peerID _ route (getDistributionGroupsPeers (account_view a v) route) dyn act n dst l dp Hroute (Hp g) Hn)) as (fr & q & Hfr & Hrest);
        [split; [done|]; exists pol; by rewrite policies_of_group, distribution_iff|]. exists fr, q. split; [|done]. apply concat_fmap_elem. by exists g.
Qed.
End policies.

Lemma route_args_static ToUnicode rule dyn q : rf_IsDynamic rule = false → route_args ToUnicode rule dyn = Ret q → static q.
Proof.
  intros Hd. unfold route_args, determineDestination. rewrite Hd. destruct (bool_decide _); [done|]. destruct (parse_all _); [|done]. cbn [or_err mbind outcome_bind].
  destruct (ParsePrefix (rf_Destination rule)) eqn:E; cbn; [|done]. destruct (convertToFirewallProtocol _); [|done]. cbn.
  destruct (convertFirewallAction _); [|done]. cbn. intros [= <-]. by eexists.
Qed.

Section account_map.
Context (version_at_least : string → string → outcome unit bool) (ToASCII : bytes → option bytes) (ToUnicode : string → option string).
Context (Fqdn : string → string) (more : Peer → peer_more) (now : Z).
Context {Net : Type} (network : Net) (settings : Settings) (dns_settings : DNSSettings).
Context (a : Account) (v : gset string) (users : gmap string (list string)).
Context (Routes : list Route) (Resources : list NetworkResource) (NameServerGroups : list NameServerGroup) (Routers : list NetworkRouter).
Context (zone : CustomZone) (zones : list Zone).
Abbreviation Key := (λ p, pm_Key (more p)).

(** What holds of stored accounts: peers under their ids with IPv4 addresses and keys of their own,
    ports of 16 bits, ids of routes and resources without colons. *)
Record account_ok : Prop := {
  ok_ids : map_Forall (λ k p, ID p = k) (Peers a);
  ok_addresses : ∀ p q, Peers a !! p = Some q → 0 ≤ IP q < 2 ^ 32;
  ok_keys : ∀ p q x y, Peers a !! p = Some x → Peers a !! q = Some y → Key x = Key y → p = q;
  ok_ranges : ∀ pol rule, pol ∈ Policies a → rule ∈ pol_Rules pol → ranges_ok rule;
  ok_route_ids : route_ids_ok Routes;
  ok_resource_ids : ∀ r, r ∈ Resources → NetParse.colon ∉ str (nr_ID r) }.
(** The routes and resources in use are static IPv4 networks. *)
Definition v4_only : Prop :=
  (∀ r, r ∈ Routes → rt_Enabled r = true → route_ok r)
  ∧ ∀ r, r ∈ Resources → nr_Type r ≠ Domain ∧ ∃ n bits, nr_Prefix r = Some (prefix_v4 n bits) ∧ 0 ≤ n < 2 ^ 32 ∧ 0 ≤ bits ≤ 32.

(** What the account says of packets from the address [n] through the peer. *)
Definition account_says (peerID : string) (act : FirewallRules.Action) (n : Z) (dst : Addr) (l : layer) (dp : Z) : Prop :=
  (∃ r, r ∈ Routes ∧ rt_Enabled r = true ∧ in_charge a peerID r ∧ in_network (rt_Network r) dst ∧ route_says a v r peerID act n l dp)
  ∨ ∃ r router pol, r ∈ Resources ∧ nr_Enabled r = true
      ∧ router ∈ Routers ∧ ro_Enabled router = true ∧ ro_NetworkID router = nr_NetworkID r ∧ router_peer a router peerID
      ∧ in_network (nr_Prefix r) dst ∧ applies a pol (nr_ID r)
      ∧ policy_routes a v pol peerID (λ _, True) act n l dp.

Section proofs.
Context (Hok : account_ok) (Hv4 : v4_only).
Lemma v4_domains r : r ∈ Resources → nr_Type r = Domain → is_Some (ToASCII (nr_Domain r)).
Proof using Hv4. intros Hr E. by destruct (proj2 Hv4 r Hr). Qed.
Lemma resource_route r peer router : r ∈ Resources → ∃ route, ToRoute Key ToASCII r peer router = Some route ∧ route_ok route ∧ rt_Network route = nr_Prefix r.
Proof using Hv4.
  intros Hr. destruct (proj2 Hv4 r Hr) as (Ht & n & bits & Hp & ? & ?). unfold ToRoute. rewrite Hp. cbn [Is6 prefix_v4 px_v6].
  destruct (nr_Type r); [..|done]; (eexists; split; [reflexivity|]; split; [|done]; split; [done|]; by exists n, bits).
Qed.
Lemma served_route p x : x ∈ (getRoutingPeerRoutes (account_view a v) Routes Key p).1 ↔
  ∃ peer r, Peers a !! p = Some peer ∧ r ∈ Routes ∧ rt_Enabled r = true ∧ ∃ r', serves (account_view a v) p r r' ∧ x = set_Peer (Key peer) r'.
Proof using Hok.
  rewrite (proj1 (routing_peer_routes (account_view a v) Routes Key (ok_route_ids Hok) p)). split.
  - intros (peer & r & r' & ? & ? & ? & ? & ?). exists peer, r. split_and!; try done. by exists r'.
  - intros (peer & r & ? & ? & ? & r' & ? & ?). by exists peer, r, r'.
Qed.
Lemma served_ok p x : x ∈ (getRoutingPeerRoutes (account_view a v) Routes Key p).1 → route_ok x.
Proof using Hok Hv4.
  intros (peer & r & _ & Hr & He & r' & Hs & ->)%served_route. destruct (proj1 Hv4 r Hr He) as [Hd Hn]. by destruct Hs as [[-> _]|[-> _]].
Qed.
Lemma generated_static p pols route dist fr : (∀ pol, pol ∈ pols → pol ∈ Policies a) → IsDynamic route = false →
  fr ∈ getRouteFirewallRules (account_view a v) p pols route dist → srf_IsDynamic fr = false.
Proof using Hok.
  intros Hpols Hd (pol & rule & Hp & _ & Hr & _ & H)%getRouteFirewallRules_elem. apply generated_rules in H as (c & _ & ->); [done|].
  eapply (ok_ranges Hok); [by apply Hpols|done].
Qed.
Lemma route_rules_static p route fr : IsDynamic route = false → fr ∈ route_rules (account_view a v) p route → srf_IsDynamic fr = false.
Proof using Hok.
  intros Hd. unfold route_rules. destruct (rt_AccessControlGroups route) as [|g0 gs].
  - unfold getDefaultPermit. rewrite Hd. by intros ->%list_elem_of_singleton.
  - intros (g & _ & H)%concat_fmap_elem. eapply generated_static; [|done|exact H]. by intros pol [? _]%policies_of_group.
Qed.

Abbreviation map_of_peer := (λ p, GetPeerNetworkMap version_at_least ToASCII ToUnicode Fqdn more now network settings dns_settings a v users Routes Resources
  NameServerGroups p zone zones (GetResourcePoliciesMap a Resources) (GetResourceRoutersMap a Routers)).
Abbreviation sent := (λ nm : NetworkMap Net, toProtocolRoutesFirewallRules (nm_RoutesFirewallRules nm)).
Lemma asked_rule dns rs q : asked ToUnicode dns (toProtocolRoutesFirewallRules rs) q ↔ ∃ fr, fr ∈ rs ∧ route_args ToUnicode (toProtocolRouteFirewallRule fr) dns = Ret q.
Proof using Type.
  unfold asked, toProtocolRoutesFirewallRules. split.
  - intros (x & (fr & -> & Hfr)%list_elem_of_fmap & E). by exists fr.
  - intros (fr & Hfr & E). eexists. split; [by apply list_elem_of_fmap_2|done].
Qed.
Lemma sent_rules p peer nm fr : Peers a !! p = Some peer → p ∈ v → map_of_peer p = Ret nm →
  fr ∈ nm_RoutesFirewallRules nm ↔
  (∃ x, x ∈ (getRoutingPeerRoutes (account_view a v) Routes Key p).1 ∧ fr ∈ route_rules (account_view a v) p x)
  ∨ ∃ r router route, r ∈ Resources ∧ nr_Enabled r = true ∧ default ∅ (GetResourceRoutersMap a Routers !! nr_NetworkID r) !! p = Some router
      ∧ Some route = ToRoute Key ToASCII r peer router ∧ srf_SourceRanges fr ≠ []
      ∧ fr ∈ getRouteFirewallRules (account_view a v) p (GetPoliciesForNetworkResource a (nr_ID r)) route (getPoliciesSourcePeers (account_view a v) (GetPoliciesForNetworkResource a (nr_ID r))).
Proof using Hok Hv4.
  intros Hp Hv Hnm. rewrite <- concat_fmap_elem.
  exact (proj2 (map_route_rules version_at_least ToASCII ToUnicode Fqdn more now network settings dns_settings a v users Routes Resources NameServerGroups
    Routers zone zones (ok_ids Hok) v4_domains (ok_keys Hok) (ok_resource_ids Hok) p peer nm fr Hp Hv Hnm)).
Qed.
Lemma sent_static p peer nm dns q : Peers a !! p = Some peer → p ∈ v → map_of_peer p = Ret nm → asked ToUnicode dns (sent nm) q → static q.
Proof using Hok Hv4.
  intros Hp Hv Hnm (fr & Hfr & E)%asked_rule. eapply route_args_static; [|exact E]. cbn [toProtocolRouteFirewallRule rf_IsDynamic].
  apply (sent_rules p peer nm fr Hp Hv Hnm) in Hfr as [(x & [Hd _]%served_ok & H)|(r & router & route & Hr & _ & _ & Ex & _ & H)].
  - by eapply route_rules_static.
  - destruct (resource_route r peer router Hr) as (route' & Ex' & [Hd _] & _). rewrite <- Ex in Ex'. injection Ex' as <-.
    eapply generated_static; [|exact Hd|exact H]. by intros pol [? _]%resource_policies_elem.
Qed.
Lemma says_route x p act n l dp peer r r' : serves (account_view a v) p r r' → x = set_Peer (Key peer) r' → rt_Network x = rt_Network r
  ∧ (route_says a v x p act n l dp ↔ route_says a v r p act n l dp).
Proof using Type. by intros [[-> _]|[-> _]] ->. Qed.
(** What the message says is what the account says. *)
Lemma sent_says p peer nm dns act n dst l dp : Peers a !! p = Some peer → p ∈ v → map_of_peer p = Ret nm → 0 ≤ n < 2 ^ 32 →
  map_routes ToUnicode dns (sent nm) act (Some (v4 n)) dst l dp ↔ account_says p act n dst l dp.
Proof using Hok Hv4.
  intros Hp Hv Hnm Hn. pose proof (ok_addresses Hok) as Haddr. pose proof (ok_ranges Hok) as Hranges.
  assert (Hpols : ∀ i pol, pol ∈ GetPoliciesForNetworkResource a i → pol ∈ Policies a) by (by intros i pol [? _]%resource_policies_elem). split.
  - intros (q & (fr & Hfr & E)%asked_rule & Ha & Hc). apply (sent_rules p peer nm fr Hp Hv Hnm) in Hfr as [(x & Hx & H)|(r & router & route & Hr & He & Hrt & Ex & _ & H)].
    + left. destruct (proj1 (route_rules_cover a v ToUnicode Haddr Hranges p x dns act n dst l dp (served_ok _ _ Hx) Hn)) as [Hd Hs]; [by exists fr, q|].
      apply served_route in Hx as (peer' & r & _ & Hr & He & r' & Hsv & Ex). destruct (says_route x p act n l dp peer' r r' Hsv Ex) as [En Es]. exists r.
      split; [done|]. split; [done|]. rewrite <- Es, <- En. split; [|done]. destruct Hsv as [[_ ?]|[_ ?]]; [by right|by left].
    + right. destruct (resource_route r peer router Hr) as (route' & Ex' & Hro & En). rewrite <- Ex in Ex'. injection Ex' as <-.
      destruct (proj1 (rules_cover a v ToUnicode Haddr Hranges p _ route (getPoliciesSourcePeers (account_view a v) (GetPoliciesForNetworkResource a (nr_ID r))) dns act n dst l dp Hro (Hpols (nr_ID r)) Hn)) as (Hd & pol & Hpol & Hs); [by exists fr, q|].
      rewrite En in Hd. destruct (proj1 (routers_map_spec a Routers (nr_NetworkID r) p)) as (ro & ? & ? & ? & ?); [by eexists|].
      exists r, ro, pol. split_and!; try done; [by apply resource_policies_elem|]. by eapply sources_iff.
  - intros [(r & Hr & He & Hch & Hd & Hs)|(r & ro & pol & Hr & He & Hro & Hroe & Hnet & Hrp & Hd & Hpol & Hs)].
    + assert (Hsv : ∃ r', serves (account_view a v) p r r') by (destruct Hch as [?|?]; [exists r; by right|exists (member_route p r); by left]). destruct Hsv as [r' Hsv].
      assert (Hx : set_Peer (Key peer) r' ∈ (getRoutingPeerRoutes (account_view a v) Routes Key p).1) by (apply served_route; exists peer, r; split_and!; try done; by exists r').
      destruct (says_route _ p act n l dp peer r r' Hsv eq_refl) as [En Es].
      destruct (proj2 (route_rules_cover a v ToUnicode Haddr Hranges p _ dns act n dst l dp (served_ok _ _ Hx) Hn)) as (fr & q & Hfr & E & Ha & Hc);
        [by rewrite En, Es|]. exists q. split; [|done]. apply asked_rule. exists fr. split; [|done]. apply (sent_rules p peer nm fr Hp Hv Hnm). left. by eexists.
    + destruct (proj2 (routers_map_spec a Routers (nr_NetworkID r) p)) as [router Hrt]; [by exists ro|].
      destruct (resource_route r peer router Hr) as (route & Ex & Hroute & En). apply resource_policies_elem in Hpol.
      destruct (proj2 (rules_cover a v ToUnicode Haddr Hranges p _ route (getPoliciesSourcePeers (account_view a v) (GetPoliciesForNetworkResource a (nr_ID r))) dns act n dst l dp Hroute (Hpols (nr_ID r)) Hn)) as (fr & q & Hfr & E & Ha & Hc);
        [rewrite En; split; [done|]; exists pol; split; [done|]; by apply sources_iff|]. exists q. split; [|done]. apply asked_rule. exists fr. split; [|done].
      apply (sent_rules p peer nm fr Hp Hv Hnm). right. exists r, router, route. split_and!; try done. intros E0.
      unfold route_args in E. cbn [toProtocolRouteFirewallRule rf_SourceRanges] in E. by rewrite E0 in E.
Qed.

Section routed.
Context (uuid : nat → string) (order : gmap string (list PeerRule) → list (string * list PeerRule)) (selector : ProtoRule → string).

(** C7: The routes, network resources and policies of the account are what a routing peer's packet
    filter enforces on the traffic it forwards, when every enabled route and every network resource
    is a static IPv4 network ([v4_only]: no domains, no IPv6).  The management server computes the
    network map of the approved peer and sends it, and the peer's client applies it.  Then a packet
    from an IPv4 address through the peer is forwarded if and only if no policy that is about a
    network containing its destination (nor a drop rule that was in the filter without the ACL
    manager's doing) blocks it, and such a policy, a route without access control groups, or such a
    rule lets it pass ([account_says]).  A policy is about a route when one of its rules has one of
    the route's access control groups as a destination, and about a resource when one of its enabled
    rules has the resource or a group of it as a destination; it then counts with all its enabled
    rules, for their approved sources that pass its posture checks and, for a route, are in one of the
    route's distribution groups.  The stored account is well-formed ([account_ok]), the keys of the
    rules, which are hashes, do not collide ([distinct_keys]), and the filter does not delegate to the
    system's firewall ([own_routes]).  The filter is then ready for the next map. *)
Theorem routed_traffic_follows_policies p peer nm dns d f d' f' n dst l sp dp :
  Peers a !! p = Some peer → p ∈ v → map_of_peer p = Ret nm → own_routes f →
  distinct_keys (routeRules (PacketFilter.rules f.1)) (asked ToUnicode dns (sent nm)) →
  apply uuid order selector ToUnicode (sync_rules (nm_FirewallRules nm) (sent nm)) dns d f = (d', Some f') → 0 ≤ n < 2 ^ 32 →
  let says act := account_says p act n dst l dp ∨ other_routes d f act (Some (v4 n)) dst l sp dp in
  own_routes f' ∧ ∃ i b, routeACLsPass (routeRules (PacketFilter.rules f'.1)) (Some (v4 n)) dst l sp dp = Ret (i, b)
    ∧ (b = true ↔ ¬ says ActionDrop ∧ says ActionAccept).
Proof using Hok Hv4.
  intros Hp Hv Hnm Hown Hkeys Happ Hn. cbv zeta.
  pose proof (map_routed uuid ToUnicode order selector (sync_rules (nm_FirewallRules nm) (sent nm)) dns d f d' f' (Some (v4 n)) dst l sp dp Hown Hkeys
    (λ q, sent_static p peer nm dns q Hp Hv Hnm) Happ) as [Hown' (i & b & E & Hb)].
  split; [done|]. exists i, b. split; [done|]. rewrite Hb. cbn [sync_rules RoutesFirewallRules]. by rewrite !(sent_says p peer nm dns _ n dst l dp Hp Hv Hnm Hn).
Qed.
End routed.
End proofs.
End account_map.

(** ** The office *)
Abbreviation office_nm := (office_map demo_validated [lan_router "srv"] "srv").
Definition office_sent : AclManager.NetworkMap := sync_rules (nm_FirewallRules office_nm) (toProtocolRoutesFirewallRules (nm_RoutesFirewallRules office_nm)).
Definition forwarded (src dst dport : Z) : outcome Empty_set (option string * bool) :=
  routeACLsPass (routeRules (PacketFilter.rules (after office_sent st0).2.1)) (Some (v4 src)) (Some (v4 dst)) LayerTypeTCP 1000 dport.

Lemma office_ok : account_ok office_more office [] [database].
Proof.
  split.
  - exact office_wf.
  - intros p q [-> | ->]%office_peer; cbn; lia.
  - intros p q x y Hx Hy. rewrite <- (office_wf p x Hx), <- (office_wf q y Hy). apply office_peer in Hx as [-> | ->], Hy as [-> | ->]; (done || intros E; discriminate E).
  - intros pol rule ->%list_elem_of_singleton ->%list_elem_of_singleton pr ?%not_elem_of_nil. done.
  - split; [by intros r r' ?%not_elem_of_nil|by intros r r' p ?%not_elem_of_nil].
  - intros r ->%list_elem_of_singleton. apply (bool_decide_eq_false_1 (NetParse.colon ∈ str (nr_ID database))). vm_compute. reflexivity.
Qed.
Lemma office_v4 : v4_only [] [database].
Proof.
  split; [by intros r ?%not_elem_of_nil|]. intros r ->%list_elem_of_singleton. split; [done|]. exists 0x0A000007, 32. split; [done|]. lia.
Qed.
Lemma new_filter_empty : routeRules (PacketFilter.rules new_filter) = [] ∧ routeRulesMap (PacketFilter.rules new_filter) = ∅.
Proof. split; vm_compute; reflexivity. Qed.
Lemma new_filter_routes : own_routes (new_filter, 0%nat).
Proof.
  destruct new_filter_empty as [E1 E2]. split; [|reflexivity]. split; cbn [fst]; rewrite ?E1, ?E2; try constructor; set_solver.
Qed.
Lemma no_other_routes act src dst l sp dp : ¬ other_routes NewDefaultManager (new_filter, 0%nat) act src dst l sp dp.
Proof. intros (x & Hx & _). cbn [fst] in Hx. rewrite (proj1 new_filter_empty) in Hx. by apply not_elem_of_nil in Hx. Qed.
Lemma office_keys : distinct_keys (routeRules (PacketFilter.rules new_filter)) (asked no_unicode false (toProtocolRoutesFirewallRules (nm_RoutesFirewallRules office_nm))).
Proof.
  split; [rewrite (proj1 new_filter_empty); by intros r q ?%not_elem_of_nil|]. intros q q' r (x & Hx & E) (x' & Hx' & E') _.
  assert (Hone : ∃ y, toProtocolRoutesFirewallRules (nm_RoutesFirewallRules office_nm) = [y]) by (vm_compute; by eexists). destruct Hone as [y Hy].
  rewrite Hy in Hx, Hx'. apply list_elem_of_singleton in Hx as ->, Hx' as ->. rewrite E in E'. by injection E' as <-.
Qed.


(** The laptop reaches the database through the server, on its port only. *)
Lemma routed_traffic_follows_policies_witness :
  account_says office demo_validated [] [database] [lan_router "srv"] "srv" ActionAccept (IP alice) (Some (v4 0x0A000007)) LayerTypeTCP 5432
  ∧ ¬ account_says office demo_validated [] [database] [lan_router "srv"] "srv" ActionAccept (IP srv) (Some (v4 0x0A000007)) LayerTypeTCP 5432.
Proof.
  assert (Hn : ∀ q, q = alice ∨ q = srv → 0 ≤ IP q < 2 ^ 32) by (intros q [-> | ->]; cbn; lia).
  pose proof new_filter_routes as Hown.
  assert (Hin : forwarded (IP alice) 0x0A000007 5432 = Ret (Some "p1", true)) by (vm_compute; reflexivity).
  assert (Hout : forwarded (IP srv) 0x0A000007 5432 = Ret (None, false)) by (vm_compute; reflexivity).
  split.
  - destruct (routed_traffic_follows_policies all_new Some no_unicode dotted_name office_more 0 tt no_expiration all_managed office demo_validated ∅ [] [database] []
      [lan_router "srv"] office_zone [] office_ok office_v4 decimal map_to_list no_selector "srv" srv office_nm false NewDefaultManager (new_filter, 0%nat) _ _
      (IP alice) (Some (v4 0x0A000007)) LayerTypeTCP 1000 5432 eq_refl ltac:(apply elem_of_union_r, elem_of_singleton; reflexivity) (office_maps "srv" (or_intror eq_refl))
      Hown office_keys (after_apply _ _ _) (Hn _ (or_introl eq_refl))) as [_ (i & b & E & Hb)].
    change (forwarded (IP alice) 0x0A000007 5432 = Ret (i, b)) in E. rewrite Hin in E. injection E as <- <-.
    destruct (proj1 Hb eq_refl) as [_ [H|H]]; [exact H|]. destruct (no_other_routes _ _ _ _ _ _ H).
  - destruct (routed_traffic_follows_policies all_new Some no_unicode dotted_name office_more 0 tt no_expiration all_managed office demo_validated ∅ [] [database] []
      [lan_router "srv"] office_zone [] office_ok office_v4 decimal map_to_list no_selector "srv" srv office_nm false NewDefaultManager (new_filter, 0%nat) _ _
      (IP srv) (Some (v4 0x0A000007)) LayerTypeTCP 1000 5432 eq_refl ltac:(apply elem_of_union_r, elem_of_singleton; reflexivity) (office_maps "srv" (or_intror eq_refl))
      Hown office_keys (after_apply _ _ _) (Hn _ (or_intror eq_refl))) as [_ (i & b & E & Hb)].
    change (forwarded (IP srv) 0x0A000007 5432 = Ret (i, b)) in E. rewrite Hout in E. injection E as <- <-.
    intros H. discriminate (proj2 Hb). split; [|by left]. intros [[(r & ?%not_elem_of_nil & _)|(r & ro & pol & _ & _ & _ & _ & _ & _ & _ & [Hp _] & Hs)]|Ho]; [done| |exact (no_other_routes _ _ _ _ _ _ Ho)].
    apply list_elem_of_singleton in Hp as ->. destruct Hs as (_ & rule & q & x & c & ->%list_elem_of_singleton & _ & Ha & _). discriminate Ha.
Defined.

(** ** Rules of another destination *)
(** One policy: administrators, of whom there are none, may use the network behind the server, and
    laptops may use port 443 of the servers. *)
Definition two_rules : Policy :=
  let rule i src dst port := {|
    r_ID := i; r_PolicyID := "p1"; r_Name := ""; r_Description := ""; r_Enabled := true; r_Action := "accept"; r_Destinations := [dst];
    r_DestinationResource := no_resource; r_Sources := [src]; r_SourceResource := no_resource; r_Bidirectional := false; r_Protocol := "tcp";
    r_Ports := [port]; r_PortRanges := []; r_AuthorizedGroups := ∅; r_AuthorizedUser := "" |} in
  demo_policy "p1" [rule "r1" "admins" "lan-users" "22"; rule "r2" "laptops" "servers" "443"].
Definition branch : Account := {|
  Peers := {[ "alice" := alice; "srv" := srv ]};
  Groups := {[ "laptops" := demo_group "laptops" ["alice"]; "servers" := demo_group "servers" ["srv"]; "admins" := demo_group "admins" [];
               "lan-users" := demo_group "lan-users" [] ]};
  Policies := [two_rules]; Users := ∅; PostureChecks := [] |}.
Definition branch_route : Route :=
  {| rt_ID := "rt"; rt_AccountID := "acc"; rt_Network := Some (prefix_v4 0x0A000000 8); rt_Domains := []; rt_KeepRoute := false; rt_NetID := "lan";
     rt_Description := ""; rt_Peer := "srv"; rt_PeerID := ""; rt_PeerGroups := []; rt_NetworkType := IPv4Network; rt_Masquerade := true;
     rt_Metric := 9999; rt_Enabled := true; rt_Groups := ["laptops"]; rt_AccessControlGroups := ["lan-users"]; rt_SkipAutoApply := false |}.
(** The server forwards the laptop's packets for port 443 of the network, although no rule for the
    network's access control group has the laptop as a source. *)
Example unrelated_rule_opens_route :
  (λ r, (srf_SourceRanges r, srf_Destination r, srf_Port r))
    <$> List.filter (λ r, negb (bool_decide (srf_SourceRanges r = [])))
          (GetPeerRoutesFirewallRules (account_view branch demo_validated) [branch_route] (λ p, ID p) "srv")
  = [(["100.100.1.1/32"], "10.0.0.0/8", 443)].
Proof. vm_compute. reflexivity. Qed.
(** A policy for netbird-ssh makes a rule for the route that the client rejects. *)
Example ssh_route_rule_rejected route peers ToUnicode dyn :
  let ssh := {| r_ID := "r"; r_PolicyID := "p"; r_Name := ""; r_Description := ""; r_Enabled := true; r_Action := "accept"; r_Destinations := [];
                r_DestinationResource := no_resource; r_Sources := []; r_SourceResource := no_resource; r_Bidirectional := false;
                r_Protocol := PolicyRuleProtocolNetbirdSSH; r_Ports := []; r_PortRanges := []; r_AuthorizedGroups := ∅; r_AuthorizedUser := "" |} in
  ∀ fr q, fr ∈ generateRouteFirewallRules route ssh peers → route_args ToUnicode (toProtocolRouteFirewallRule fr) dyn ≠ Ret q.
Proof.
  intros ssh fr q (c & _ & ->)%generated_rules; [|by intros pr ?%not_elem_of_nil]. unfold route_args. destruct (bool_decide _); [done|].
  destruct (parse_all _); [|done]. cbn [or_err mbind outcome_bind]. by destruct (determineDestination _ _ _ _).
Qed.
