(* ===== verification/HandlerChain.v ===== *)
(** The chain of DNS handlers in the client: [src/client/internal/dns/handler_chain.go].

    Handlers are registered for a domain pattern with a priority; a query goes to the matching
    handlers in the order of the chain until one does not ask to go on.  A handler is a value of
    any type with the two things the chain asks of it: whether it matches subdomains, and what it
    writes for a query, which may depend on and change the world.  [Fqdn] of github.com/miekg/dns is
    a parameter; names are ASCII.  The mutex makes every operation one step. *)
From Stdlib Require Import Sorting.Sorted.
From S2P Require Import Prelude GoText Domains.
Open Scope Z_scope.

Definition PriorityMgmtCache : Z := 150.
Definition PriorityDNSRoute : Z := 100.
Definition PriorityLocal : Z := 75.
Definition PriorityUpstream : Z := 50.
Definition PriorityDefault : Z := 1.
Definition PriorityFallback : Z := -100.
Definition MaxInt : Z := 2 ^ 63 - 1.

(** ** DNS messages, as far as the code reads or sets them *)
Definition RcodeSuccess : Z := 0.
Definition RcodeServerFailure : Z := 2.
Definition RcodeNameError : Z := 3.
Definition RcodeNotImplemented : Z := 4.
Definition RcodeRefused : Z := 5.
Record Question := { Name : string; Qtype : Z; Qclass : Z }.
#[export] Instance Question_eq_dec : EqDecision Question.
Proof. solve_decision. Defined.
#[export] Instance Question_countable : Countable Question.
Proof.
  refine (inj_countable' (λ q, (Name q, Qtype q, Qclass q)) (λ x, {| Name := x.1.1; Qtype := x.1.2; Qclass := x.2 |}) _). by intros [].
Defined.
Record Request := { r_Question : list Question }.
(** The reply [SetReply] makes of a request, with what the code sets in it. *)
Record Reply (RR : Type) := {
  rp_To : Request; rp_Rcode : Z; rp_Zero : bool; rp_Authoritative : bool; rp_RecursionAvailable : bool; rp_Answer : list RR }.
Arguments rp_To {_}. Arguments rp_Rcode {_}. Arguments rp_Zero {_}. Arguments rp_Authoritative {_}. Arguments rp_RecursionAvailable {_}. Arguments rp_Answer {_}.
Definition SetRcode {RR} (r : Request) (rcode : Z) : Reply RR :=
  {| rp_To := r; rp_Rcode := rcode; rp_Zero := false; rp_Authoritative := false; rp_RecursionAvailable := false; rp_Answer := [] |}.

(** ** Go's [strings] *)
Definition EqualFold (s t : string) : bool := bool_decide (ToLower s = ToLower t).
Definition HasSuffix (s suffix : string) : bool := bool_decide (str suffix `suffix_of` str s).
Definition TrimSuffix (s suffix : string) : bytes := if HasSuffix s suffix then take (length (str s) - length (str suffix))%nat (str s) else str s.
Definition dots (s : string) : Z := Z.of_nat (length (filter (λ b, b = dot) (str s))).

(** ** The chain *)
Record HandlerEntry (H : Type) := {
  he_Handler : H; he_Priority : Z; he_Pattern : string; he_OrigPattern : string; he_IsWildcard : bool; he_MatchSubdomains : bool }.
Arguments he_Handler {_}. Arguments he_Priority {_}. Arguments he_Pattern {_}. Arguments he_OrigPattern {_}. Arguments he_IsWildcard {_}.
Arguments he_MatchSubdomains {_}.

Section chain.
Context {H RR W : Type} (Fqdn : string → string) (MatchSubdomains : H → bool) (serve : H → Request → W → W * list (Reply RR)).
Abbreviation entry := (HandlerEntry H).

Definition findHandlerPosition (handlers : list entry) (newEntry : entry) : nat :=
  match list_find (λ h, he_Priority h < he_Priority newEntry
                        ∨ he_Priority h = he_Priority newEntry ∧ dots (he_Pattern newEntry) > dots (he_Pattern h)) handlers with
  | Some (i, _) => i
  | None => length handlers
  end.
(** The last entry with this pattern and priority is removed. *)
Fixpoint remove_first (P : entry → bool) (l : list entry) : list entry :=
  match l with [] => [] | e :: l => if P e then l else e :: remove_first P l end.
Definition removeEntry (pattern : string) (priority : Z) (handlers : list entry) : list entry :=
  rev (remove_first (λ e, EqualFold (he_OrigPattern e) pattern && (he_Priority e =? priority)) (rev handlers)).
Definition entry_of (origPattern : string) (handler : H) (priority : Z) : entry :=
  let isWildcard := String.prefix "*." origPattern in
  {| he_Handler := handler; he_Priority := priority;
     he_Pattern := if isWildcard then String.substring 2 (String.length origPattern - 2) origPattern else origPattern;
     he_OrigPattern := origPattern; he_IsWildcard := isWildcard; he_MatchSubdomains := MatchSubdomains handler |}.
Definition AddHandler (pattern : string) (handler : H) (priority : Z) (handlers : list entry) : list entry :=
  let entry := entry_of (ToLower (Fqdn pattern)) handler priority in
  let handlers := removeEntry (he_OrigPattern entry) priority handlers in
  let pos := findHandlerPosition handlers entry in
  take pos handlers ++ entry :: drop pos handlers.
Definition RemoveHandler (pattern : string) (priority : Z) (handlers : list entry) : list entry := removeEntry (Fqdn pattern) priority handlers.

Definition isHandlerMatch (qname : string) (e : entry) : bool :=
  if bool_decide (he_Pattern e = ".") then true
  else if he_IsWildcard e then
    (2 <=? length (split_at dot (TrimSuffix qname (he_Pattern e))))%nat && HasSuffix qname (he_Pattern e)
  else if he_MatchSubdomains e then EqualFold qname (he_Pattern e) || HasSuffix qname ("." +:+ he_Pattern e)
  else EqualFold qname (he_Pattern e).

(** [ResponseWriterChain.WriteMsg]: the signal to go on is not passed to the client. *)
Definition continue_signal (m : Reply RR) : bool := (rp_Rcode m =? RcodeNameError) && rp_Zero m.
(** The world, what the client gets, and the entries that were asked. *)
Fixpoint dispatch_loop (qname : string) (r : Request) (maxPriority : Z) (handlers : list entry) (w : W) : W * list (Reply RR) * list entry :=
  match handlers with
  | [] => (w, [SetRcode r RcodeRefused], [])
  | e :: handlers =>
      if (maxPriority <? he_Priority e) || negb (isHandlerMatch qname e) then dispatch_loop qname r maxPriority handlers w
      else
        let '(w, writes) := serve (he_Handler e) r w in
        let out := List.filter (λ m, negb (continue_signal m)) writes in
        if existsb continue_signal writes then
          let '(w, out', asked) := dispatch_loop qname r maxPriority handlers w in (w, out ++ out', e :: asked)
        else (w, out, [e])
  end.
Definition dispatch (handlers : list entry) (r : Request) (maxPriority : Z) (w : W) : W * list (Reply RR) * list entry :=
  match r_Question r with
  | [] => (w, [], [])
  | question :: _ => dispatch_loop (ToLower (Name question)) r maxPriority handlers w
  end.
Definition ServeDNS (handlers : list entry) (r : Request) (w : W) : W * list (Reply RR) := (dispatch handlers r MaxInt w).1.
Definition ResolveInternal (handlers : list entry) (r : Request) (maxPriority : Z) (w : W) : W * option (Reply RR) :=
  match r_Question r with
  | [] => (w, None)
  | _ =>
      let '(w, out, _) := dispatch handlers r maxPriority w in
      (w, m ← last out; if rp_Rcode m =? RcodeRefused then None else Some m)
  end.
Definition HasRootHandlerAtOrBelow (handlers : list entry) (maxPriority : Z) : bool :=
  existsb (λ h, bool_decide (he_Pattern h = ".") && (he_Priority h <=? maxPriority)) handlers.

(** ** The chain is a table *)
(** [e] is asked before [f]. *)
Definition before (e f : entry) : Prop :=
  he_Priority e > he_Priority f ∨ he_Priority e = he_Priority f ∧ dots (he_Pattern e) >= dots (he_Pattern f).
Abbreviation table := (gmap (string * Z) H).
Definition key (e : entry) : string * Z := (he_OrigPattern e, he_Priority e).
(** The chain is in order and holds the handlers of the table, one entry each. *)
Record implements (handlers : list entry) (t : table) : Prop := {
  ch_sorted : StronglySorted before handlers;
  ch_keys : NoDup (key <$> handlers);
  ch_table : ∀ k h, t !! k = Some h ↔ entry_of k.1 h k.2 ∈ handlers;
  ch_entries : ∀ e, e ∈ handlers → e = entry_of (he_OrigPattern e) (he_Handler e) (he_Priority e) ∧ ToLower (he_OrigPattern e) = he_OrigPattern e }.

Lemma remove_first_cases P l : (remove_first P l = l ∧ ∀ e, e ∈ l → P e = false)
  ∨ ∃ l1 e l2, l = l1 ++ e :: l2 ∧ P e = true ∧ remove_first P l = l1 ++ l2.
Proof using Type.
  induction l as [|x l IH]; cbn; [left; split; [done|by intros ? ?%not_elem_of_nil]|]. destruct (P x) eqn:Ex; [right; by exists [], x, l|].
  destruct IH as [[-> Hn]|(l1 & e & l2 & -> & He & ->)]; [left|right; by exists (x :: l1), e, l2]. split; [done|]. intros e [->|?]%elem_of_cons; auto.
Qed.
Lemma removeEntry_cases p prio l : (removeEntry p prio l = l ∧ ∀ e, e ∈ l → ¬ (ToLower (he_OrigPattern e) = ToLower p ∧ he_Priority e = prio))
  ∨ ∃ l1 e l2, l = l1 ++ e :: l2 ∧ ToLower (he_OrigPattern e) = ToLower p ∧ he_Priority e = prio ∧ removeEntry p prio l = l1 ++ l2.
Proof using Type.
  unfold removeEntry. set (P := λ e, _).
  assert (HP : ∀ e, P e = true ↔ ToLower (he_OrigPattern e) = ToLower p ∧ he_Priority e = prio).
  { intros e. unfold P, EqualFold. by rewrite andb_true_iff, bool_decide_eq_true, Z.eqb_eq. }
  destruct (remove_first_cases P (rev l)) as [[-> Hn]|(l1 & e & l2 & El & He & ->)].
  - left. rewrite rev_involutive. split; [done|]. intros e Hin Hp%HP. rewrite (Hn e) in Hp; [done|]. by rewrite list_elem_of_In, <- in_rev, <- list_elem_of_In.
  - right. exists (rev l2), e, (rev l1). apply (f_equal (@rev _)) in El. rewrite rev_involutive, rev_app_distr in El. cbn in El.
    rewrite <- app_assoc in El. apply HP in He as [? ?]. split; [done|]. split; [done|]. split; [done|]. apply rev_app_distr.
Qed.
Lemma sorted_app (l1 l2 : list entry) : StronglySorted before (l1 ++ l2) ↔
  StronglySorted before l1 ∧ StronglySorted before l2 ∧ ∀ x y, x ∈ l1 → y ∈ l2 → before x y.
Proof using Type.
  induction l1 as [|x l1 IH]; cbn.
  - split; [intros Hs; split; [constructor|]; split; [done|by intros ? ? ?%not_elem_of_nil]|by intros (_ & ? & _)].
  - split.
    + intros [H1 H2]%StronglySorted_inv. apply IH in H1 as (S1 & S2 & S3). rewrite Forall_app, !Forall_forall in H2. destruct H2 as [H2 H3]. split; [constructor; [done|by rewrite Forall_forall]|].
      split; [done|]. intros y z [->|?]%elem_of_cons ?; auto.
    + intros ([S1 H1]%StronglySorted_inv & S2 & S3). constructor; [apply IH; split; [done|]; split; [done|]; intros ? ? ?; apply S3; by right|].
      rewrite Forall_app. split; [done|]. rewrite Forall_forall. intros y ?. apply S3; [by left|done].
Qed.
Lemma removeEntry_sorted p prio l : StronglySorted before l → StronglySorted before (removeEntry p prio l).
Proof using Type.
  intros Hs. destruct (removeEntry_cases p prio l) as [[-> _]|(l1 & e & l2 & -> & _ & _ & ->)]; [done|].
  apply sorted_app in Hs as (S1 & [S2 _]%StronglySorted_inv & S3). apply sorted_app. split; [done|]. split; [done|]. intros x y ? ?. apply S3; [done|by right].
Qed.
Lemma before_trans e f g : before e f → before f g → before e g.
Proof using Type. unfold before. lia. Qed.
(** The position a new entry gets keeps the chain in order. *)
Lemma insert_sorted l e : StronglySorted before l →
  StronglySorted before (take (findHandlerPosition l e) l ++ e :: drop (findHandlerPosition l e) l).
Proof using Type.
  intros Hs. assert (Hsplit := take_drop (findHandlerPosition l e) l). set (n := findHandlerPosition l e) in *.
  assert (H1 : ∀ x, x ∈ take n l → before x e).
  { intros x (i & Hi)%list_elem_of_lookup. apply lookup_take_Some in Hi as [Hi Hlt]. unfold n, findHandlerPosition in Hlt.
    destruct (list_find _ l) as [[j y]|] eqn:Ef; [apply list_find_Some in Ef as (_ & _ & Hn); specialize (Hn i x Hi Hlt)
      |apply list_find_None in Ef; rewrite Forall_forall in Ef; pose proof (Ef x (list_elem_of_lookup_2 _ _ _ Hi)) as Hn]; cbn in Hn; unfold before; lia. }
  assert (H2 : ∀ x, x ∈ drop n l → before e x).
  { unfold n, findHandlerPosition. destruct (list_find _ l) as [[j y]|] eqn:Ef; [|rewrite drop_all; by intros ? ?%not_elem_of_nil].
    apply list_find_Some in Ef as (Hj & Hy & _). assert (Ey : before e y) by (unfold before; lia). rewrite (drop_S l y j Hj).
    intros x [->|Hx]%elem_of_cons; [done|]. apply (before_trans e y x Ey).
    rewrite <- (take_drop j l), (drop_S l y j Hj) in Hs. apply sorted_app in Hs as (_ & [_ Hf]%StronglySorted_inv & _). by rewrite Forall_forall in Hf; apply Hf. }
  rewrite <- Hsplit in Hs. apply sorted_app in Hs as (S1 & S2 & S3). apply sorted_app. split; [done|]. split.
  - constructor; [done|]. by rewrite Forall_forall.
  - intros x y Hx [->|Hy]%elem_of_cons; [by apply H1|by apply S3].
Qed.
(** What remains of the table when an entry is removed. *)
Lemma remove_implements p prio l t : implements l t → implements (removeEntry p prio l) (delete (ToLower p, prio) t).
Proof using Type.
  intros [Hs Hk Ht He]. destruct (removeEntry_cases p prio l) as [[E Hn]|(l1 & e & l2 & -> & Hp & <- & E)].
  - rewrite E. assert (Hd : delete (ToLower p, prio) t = t).
    { apply delete_id. destruct (t !! (ToLower p, prio)) as [h|] eqn:Eh; [|done]. apply Ht in Eh. destruct (He _ Eh) as [_ El]. cbn in El.
      destruct (Hn _ Eh). split; [|done]. exact El. }
    by rewrite Hd.
  - pose proof (removeEntry_sorted p (he_Priority e) _ Hs) as Hs'. rewrite E in *. rewrite fmap_app, fmap_cons in Hk. apply NoDup_app in Hk as (K1 & K2 & K3).
    apply NoDup_cons in K3 as [K4 K5]. destruct (He e) as [Ee El]; [apply elem_of_app; right; by left|]. rewrite El in Hp. split; [done| | |].
    + rewrite fmap_app. apply NoDup_app. split; [done|]. split; [|done]. intros x Hx ?. apply (K2 x Hx). by right.
    + assert (Hke : ∀ x, x ∈ l1 ++ l2 → key x ≠ key e).
      { intros x [Hx|Hx]%elem_of_app Ek; [apply (K2 (key x)); [by apply list_elem_of_fmap_2|rewrite Ek; by left]|apply K4; rewrite <- Ek; by apply list_elem_of_fmap_2]. }
      intros k h. rewrite lookup_delete_Some, Ht. split.
      * intros [Hne [?|[Eq|?]%elem_of_cons]%elem_of_app]; [apply elem_of_app; by left| |apply elem_of_app; by right].
        destruct Hne. rewrite <- Hp. apply (f_equal key) in Eq. unfold key in Eq. cbn in Eq. rewrite <- Eq. by destruct k.
      * intros Hin. split; [|apply elem_of_app in Hin as [?|?]; apply elem_of_app; [by left|right; by right]].
        intros <-. apply (Hke _ Hin). unfold key. cbn. by rewrite Hp.
    + intros x Hx. apply He. apply elem_of_app in Hx as [?|?]; apply elem_of_app; [by left|right; by right].
Qed.
Lemma AddHandler_implements p h prio l t : implements l t →
  implements (AddHandler p h prio l) (<[(ToLower (Fqdn p), prio) := h]> t).
Proof using Type.
  clear serve. intros Hi. unfold AddHandler. set (e := entry_of (ToLower (Fqdn p)) h prio).
  pose proof (remove_implements (he_OrigPattern e) prio l t Hi) as Hr. change (he_OrigPattern e) with (ToLower (Fqdn p)) in Hr. rewrite ToLower_idem in Hr.
  change (he_OrigPattern e) with (ToLower (Fqdn p)). set (l' := removeEntry _ prio l) in *. set (n := findHandlerPosition l' e).
  destruct Hr as [Hs Hk Ht He]. assert (Hin : ∀ x, x ∈ take n l' ++ e :: drop n l' ↔ x = e ∨ x ∈ l').
  { intros x. rewrite elem_of_app, elem_of_cons. rewrite <- (take_drop n l') at 3. rewrite elem_of_app. tauto. }
  assert (Hnew : key e ∉ key <$> l').
  { intros (x & Ek & Hx)%list_elem_of_fmap. destruct (He x Hx) as [Ex _]. unfold key in Ek. cbn in Ek. injection Ek as E1 E2.
    rewrite Ex, <- E1, <- E2 in Hx. apply (Ht (ToLower (Fqdn p), prio)) in Hx. by rewrite lookup_delete_eq in Hx. }
  split; [by apply insert_sorted| | |].
  - rewrite <- (take_drop n l'), fmap_app in Hk. rewrite <- (take_drop n l'), fmap_app, elem_of_app in Hnew. rewrite fmap_app, fmap_cons.
    apply NoDup_app in Hk as (K1 & K2 & K3). apply NoDup_app. split; [done|]. split; [|apply NoDup_cons; tauto].
    intros x Hx [->|?]%elem_of_cons; [tauto|by apply (K2 x)].
  - intros k h'. rewrite Hin, <- Ht, lookup_insert_Some, lookup_delete_Some. split.
    + intros [[<- <-]|[Hne ?]]; [by left|right]. by split; [|].
    + intros [Eq|[Hne ?]]; [left|by right]. assert (Ek := f_equal key Eq). unfold key in Ek. cbn in Ek. split; [rewrite <- Ek; by destruct k|]. by apply (f_equal he_Handler) in Eq.
  - intros x [->|Hx]%Hin; [|by apply He]. split; [done|]. apply ToLower_idem.
Qed.
Lemma RemoveHandler_implements p prio l t : implements l t → implements (RemoveHandler p prio l) (delete (ToLower (Fqdn p), prio) t).
Proof using Type. apply remove_implements. Qed.
Lemma empty_implements : implements [] ∅.
Proof using Type.
  split; [apply SSorted_nil|apply NoDup_nil_2| |by intros e ?%not_elem_of_nil]. intros k h. rewrite lookup_empty. split; [done|by intros ?%not_elem_of_nil].
Qed.

(** ** Queries *)
(** The handlers were asked one after another; the last one answered or not. *)
Inductive served (r : Request) : W → list entry → W → list (Reply RR) → bool → Prop :=
| served_none w : served r w [] w [] false
| served_answered e w w' writes : serve (he_Handler e) r w = (w', writes) → existsb continue_signal writes = false →
    served r w [e] w' (List.filter (λ m, negb (continue_signal m)) writes) true
| served_on e w w1 writes asked w2 out b : serve (he_Handler e) r w = (w1, writes) → existsb continue_signal writes = true →
    served r w1 asked w2 out b → served r w (e :: asked) w2 (List.filter (λ m, negb (continue_signal m)) writes ++ out) b.

Definition eligible (qname : string) (maxPriority : Z) (e : entry) : Prop := he_Priority e ≤ maxPriority ∧ isHandlerMatch qname e = true.
Lemma dispatch_loop_spec qname r mx l w w' out asked : StronglySorted before l → dispatch_loop qname r mx l w = (w', out, asked) →
  ∃ out0 b, served r w asked w' out0 b ∧ out = out0 ++ (if b then [] else [SetRcode r RcodeRefused])
    ∧ (∀ e, e ∈ asked → e ∈ l ∧ eligible qname mx e)
    ∧ ∀ f, f ∈ l → eligible qname mx f → f ∈ asked ∨ b = true ∧ ∃ e, last asked = Some e ∧ before e f.
Proof using Type.
  revert w w' out asked. induction l as [|e l IH]; intros w w' out asked Hs; cbn [dispatch_loop].
  { intros [= <- <- <-]. exists [], false. split; [constructor|]. split; [done|]. split; by intros ? ?%not_elem_of_nil. }
  apply StronglySorted_inv in Hs as [Hs Hb]. rewrite Forall_forall in Hb.
  destruct ((mx <? he_Priority e) || negb (isHandlerMatch qname e)) eqn:Ec.
  - intros E. destruct (IH _ _ _ _ Hs E) as (out0 & b & H1 & H2 & H3 & H4). exists out0, b. split; [done|]. split; [done|]. split.
    + intros x Hx. destruct (H3 x Hx). split; [by right|done].
    + intros f [->|Hf]%elem_of_cons Hel; [|by apply H4]. destruct Hel as [Hp Hm]. rewrite Hm in Ec. cbn in Ec. rewrite orb_false_r in Ec. lia.
  - apply orb_false_iff in Ec as [Ep Em%negb_false_iff]. assert (He : eligible qname mx e) by (split; [lia|done]).
    destruct (serve (he_Handler e) r w) as [w1 writes] eqn:Ew. destruct (existsb continue_signal writes) eqn:Ex.
    + destruct (dispatch_loop qname r mx l w1) as [[w2 out2] asked2] eqn:El. intros [= <- <- <-].
      destruct (IH _ _ _ _ Hs El) as (out0 & b & H1 & -> & H3 & H4). exists (List.filter (λ m, negb (continue_signal m)) writes ++ out0), b.
      split; [by econstructor|]. split; [by rewrite app_assoc|]. split.
      * intros x [->|Hx]%elem_of_cons; [split; [by left|done]|]. destruct (H3 x Hx). split; [by right|done].
      * intros f [->|Hf]%elem_of_cons Hel; [left; by left|]. destruct (H4 f Hf Hel) as [?|(-> & x & Hl & ?)]; [left; by right|right]. split; [done|].
        exists x. split; [|done]. by destruct asked2.
    + intros [= <- <- <-]. exists (List.filter (λ m, negb (continue_signal m)) writes), true. split; [by apply served_answered|]. split; [by rewrite app_nil_r|]. split.
      * intros x ->%list_elem_of_singleton. split; [by left|done].
      * intros f [->|Hf]%elem_of_cons Hel; [left; by left|right]. split; [done|]. exists e. split; [done|]. by apply Hb.
Qed.

(** ** Registrations and queries *)
Inductive operation := Add (pattern : string) (handler : H) (priority : Z) | Remove (pattern : string) (priority : Z).
Definition chain_step (l : list entry) (o : operation) : list entry :=
  match o with Add p h prio => AddHandler p h prio l | Remove p prio => RemoveHandler p prio l end.
(** What a registration means: one handler per pattern and priority. *)
Definition table_step (t : table) (o : operation) : table :=
  match o with Add p h prio => <[(ToLower (Fqdn p), prio) := h]> t | Remove p prio => delete (ToLower (Fqdn p), prio) t end.
Lemma operations_implement ops l t : implements l t → implements (foldl chain_step l ops) (foldl table_step t ops).
Proof using Type.
  revert l t. induction ops as [|[p h prio|p prio] ops IH]; intros l t Hi; cbn [foldl]; [done|apply IH..]; [by apply AddHandler_implements|by apply RemoveHandler_implements].
Qed.

(** C24: The chain refines a table of handlers, and queries are answered by the best one.  After any
    registrations and removals, a query is passed to handlers of the table that match it, one after
    another; if the last one answered, every matching handler that was not asked has a lower
    priority, or the same priority and a pattern with no more labels; otherwise every matching
    handler was asked, all wanted to pass the query on, and it is refused. *)
Theorem chain_answers ops r q rest mx w w' out asked : r_Question r = q :: rest →
  dispatch (foldl chain_step [] ops) r mx w = (w', out, asked) →
  ∃ out0 b, served r w asked w' out0 b ∧ out = out0 ++ (if b then [] else [SetRcode r RcodeRefused])
    ∧ (∀ e, e ∈ asked → foldl table_step ∅ ops !! key e = Some (he_Handler e) ∧ eligible (ToLower (Name q)) mx e)
    ∧ ∀ k h, foldl table_step ∅ ops !! k = Some h → eligible (ToLower (Name q)) mx (entry_of k.1 h k.2) →
        entry_of k.1 h k.2 ∈ asked ∨ b = true ∧ ∃ e, last asked = Some e ∧ before e (entry_of k.1 h k.2).
Proof using Type.
  intros Eq. unfold dispatch. rewrite Eq. pose proof (operations_implement ops [] ∅ empty_implements) as Hi. intros E.
  destruct (dispatch_loop_spec _ _ _ _ _ _ _ _ (ch_sorted _ _ Hi) E) as (out0 & b & Hs & Ho & Ha & Hall). exists out0, b.
  split; [done|]. split; [done|]. split.
  - intros e He. destruct (Ha e He) as [Hin Hel]. split; [|done]. apply (ch_table _ _ Hi). destruct (ch_entries _ _ Hi e Hin) as [Ee _].
    unfold key. cbn [fst snd]. by rewrite <- Ee.
  - intros k h Hk Hel. apply Hall; [by apply (ch_table _ _ Hi)|done].
Qed.
End chain.

(** ** A chain of two *)
(** Handler 1 passes everything on, the others answer. *)
Definition demo_serve (h : nat) (r : Request) (w : nat) : nat * list (Reply unit) :=
  (S w, [if bool_decide (h = 1%nat) then {| rp_To := r; rp_Rcode := RcodeNameError; rp_Zero := true; rp_Authoritative := false; rp_RecursionAvailable := false; rp_Answer := [] |}
         else SetRcode r RcodeSuccess]).
Definition with_dot (s : string) : string := if bool_decide (last (str s) = Some dot) then s else s +:+ ".".
Definition demo_ops : list (operation (H:=nat)) := [Add "nb" 2%nat PriorityUpstream; Add "NB." 1%nat PriorityLocal; Add "." 3%nat PriorityDefault].
Definition ask (n : string) : Request := {| r_Question := [{| Name := n; Qtype := 1; Qclass := 1 |}] |}.
Lemma chain_answers_witness :
  (dispatch demo_serve (foldl (chain_step with_dot (λ _, true)) [] demo_ops) (ask "Srv.nb.") MaxInt 0%nat).1.2 = [SetRcode (ask "Srv.nb.") RcodeSuccess]
  ∧ ∃ e, last (dispatch demo_serve (foldl (chain_step with_dot (λ _, true)) [] demo_ops) (ask "Srv.nb.") MaxInt 0%nat).2 = Some e
      ∧ before e (entry_of (λ _, true) "." 3%nat PriorityDefault).
Proof.
  split; [vm_compute; reflexivity|].
  destruct (dispatch demo_serve (foldl (chain_step with_dot (λ _, true)) [] demo_ops) (ask "Srv.nb.") MaxInt 0%nat) as [[w' out] asked] eqn:E.
  destruct (chain_answers with_dot (λ _, true) demo_serve demo_ops (ask "Srv.nb.") _ [] MaxInt 0%nat w' out asked eq_refl E) as (out0 & b & _ & _ & _ & Hall).
  destruct (Hall (".", PriorityDefault) 3%nat) as [Hin|[_ He]]; [vm_compute; reflexivity|split; [vm_compute; done|vm_compute; reflexivity]| |exact He].
  vm_compute in E. injection E as <- <- <-. repeat (apply elem_of_cons in Hin as [Hin|Hin]; [by vm_compute in Hin|]). by apply not_elem_of_nil in Hin.
Defined.

(** A wildcard takes queries of other domains: the suffix may start in the middle of a label. *)
Example wildcard_takes_other_domain :
  isHandlerMatch "www.myexample.com." (entry_of (λ _, true) "*.example.com." 1%nat PriorityDNSRoute) = true
  ∧ isHandlerMatch "myexample.com." (entry_of (λ _, true) "*.example.com." 1%nat PriorityDNSRoute) = false
  ∧ isHandlerMatch "www.example.com." (entry_of (λ _, true) "*.example.com." 1%nat PriorityDNSRoute) = true.
Proof. vm_compute. done. Qed.
