(* ===== verification/LocalResolver.v ===== *)
(** The local DNS resolver of the client: [src/client/internal/dns/local/local.go], with
    [resutil/resolve.go] and the record type of [src/dns/dns.go].

    The resolver answers from the zones of the network map, follows CNAME records, applies wildcards,
    and passes queries for names it does not have in a zone of the user on to the next handler.
    [NewRR], [Fqdn] and the names of record types are those of github.com/miekg/dns; [LookupNetIP] is the
    resolver of the system, which is told whether its context was cancelled.  [NewRR] gives a record or an
    error; a text without a record, for which it gives neither, is outside the model. *)
From stdpp Require Import pretty.
From S2P Require Import Prelude GoText NetIP Domains NetworkMap HandlerChain.
Open Scope Z_scope.

Definition TypeNS : Z := 2.
Definition TypeSOA : Z := 6.
Definition TypePTR : Z := 12.
Definition ClassINET : Z := 1.
Inductive rdata := RD_A (a : Z) | RD_AAAA (a : Z) | RD_CNAME (target : string) | RD_PTR (name : string) | RD_Other (text : string).
Record RR := { rr_Name : string; rr_Rrtype : Z; rr_Class : Z; rr_Ttl : Z; rr_Rdlength : Z; rr_Data : rdata }.

Record Resolver := {
  rs_records : gmap Question (list RR);
  rs_domains : gset string;
  rs_zones : gmap string bool;              (* is the zone non-authoritative *)
  rs_done : bool }.                         (* its context was cancelled *)
Record lookupResult := { lr_records : list RR; lr_rcode : Z; lr_hasExternalData : bool }.
(** What the system's resolver may fail with: a [net.DNSError] or another error. *)
Inductive lookup_error := DNSNotFound | DNSOther | NotDNSError.

(** ** dns.go *)
Section record.
Context (Fqdn : string → string) (TypeString : Z → string).
Definition SimpleRecord_String (s : SimpleRecord) : string :=
  Fqdn (rec_Name s) +:+ " " +:+ pretty (rec_TTL s) +:+ " " +:+ rec_Class s +:+ " " +:+ TypeString (rec_Type s mod 2 ^ 16) +:+ " " +:+ rec_RData s.
Definition SimpleRecord_Len (s : SimpleRecord) : Z :=
  let emptyString := bool_decide (rec_RData s = "") in
  if rec_Type s =? TypeA then if emptyString then 0 else 4
  else if rec_Type s =? TypeCNAME then
    if emptyString || bool_decide (rec_RData s = ".") then 1 else (Z.of_nat (String.length (rec_RData s)) + 1) mod 2 ^ 16
  else if rec_Type s =? TypeAAAA then if emptyString then 0 else 16
  else 0.
End record.

(** ** local.go *)
Definition NewResolver : Resolver := {| rs_records := ∅; rs_domains := ∅; rs_zones := ∅; rs_done := false |}.
Definition Stop (d : Resolver) : Resolver := {| rs_records := ∅; rs_domains := ∅; rs_zones := ∅; rs_done := true |}.
Definition set_records (m : gmap Question (list RR)) (d : Resolver) : Resolver :=
  {| rs_records := m; rs_domains := rs_domains d; rs_zones := rs_zones d; rs_done := rs_done d |}.

Definition supportsWildcard (queryType : Z) : bool := negb (queryType =? TypeNS) && negb (queryType =? TypeSOA).
(** The first label is replaced. *)
Fixpoint from_dot (s : string) : string :=
  match s with EmptyString => EmptyString | String c s' => if bool_decide (Ascii.byte_of_ascii c = dot) then s else from_dot s' end.
Definition transformDomainToWildcard (domain : string) : string := "*" +:+ from_dot domain.
Definition transformToWildcard (question : Question) : Question :=
  {| Name := transformDomainToWildcard (Name question); Qtype := Qtype question; Qclass := Qclass question |}.
Definition rename (n : string) (r : RR) : RR :=
  {| rr_Name := n; rr_Rrtype := rr_Rrtype r; rr_Class := rr_Class r; rr_Ttl := rr_Ttl r; rr_Rdlength := rr_Rdlength r; rr_Data := rr_Data r |}.
Definition responseFromWildRecords (originalName : string) (wildRecords : list RR) : lookupResult :=
  {| lr_records := rename originalName <$> wildRecords; lr_rcode := RcodeSuccess; lr_hasExternalData := false |}.

Definition getRecords (d : Resolver) (q : Question) : list RR := default [] (rs_records d !! q).
Definition hasRecord (d : Resolver) (q : Question) : bool := bool_decide (is_Some (rs_records d !! q)).
Definition hasRecordsForDomain (d : Resolver) (domainName : string) (qType : Z) : bool :=
  bool_decide (domainName ∈ rs_domains d) || supportsWildcard qType && bool_decide (transformDomainToWildcard domainName ∈ rs_domains d).

Section resolver.
Context (Fqdn : string → string) (TypeString : Z → string) (NewRR : string → option RR).
Context (LookupNetIP : bool → string → string → list addr + lookup_error).

(** *** resutil *)
Definition NetworkForQtype (qtype : Z) : string := if qtype =? TypeA then "ip4" else if qtype =? TypeAAAA then "ip6" else "".
Definition IPsToRRs (name : string) (ips : list addr) (ttl : Z) : list RR :=
  (λ ip, if ad_v6 ip
         then {| rr_Name := name; rr_Rrtype := TypeAAAA; rr_Class := ClassINET; rr_Ttl := ttl; rr_Rdlength := 0; rr_Data := RD_AAAA (ad_num ip) |}
         else {| rr_Name := name; rr_Rrtype := TypeA; rr_Class := ClassINET; rr_Ttl := ttl; rr_Rdlength := 0; rr_Data := RD_A (ad_num ip) |}) <$> ips.
Definition getRcodeForNotFound (done : bool) (domain : string) (originalQtype : Z) : Z :=
  let check alternativeNetwork :=
    match LookupNetIP done alternativeNetwork domain with
    | inr DNSNotFound => RcodeNameError
    | _ => RcodeSuccess
    end in
  if originalQtype =? TypeAAAA then check "ip4" else if originalQtype =? TypeA then check "ip6" else RcodeNameError.
Definition getRcodeForError (done : bool) (host : string) (qtype : Z) (err : lookup_error) : Z :=
  match err with DNSNotFound => getRcodeForNotFound done host qtype | DNSOther | NotDNSError => RcodeServerFailure end.
Definition LookupIP (done : bool) (network host : string) (qtype : Z) : list addr + Z :=
  match LookupNetIP done network host with
  | inr err => inr (getRcodeForError done host qtype err)
  | inl ips => inl (unmap <$> ips)
  end.

(** *** Zones *)
(** The zones of the parents of [s]. *)
Fixpoint parent_zone (zones : gmap string bool) (s : string) : option bool :=
  match s with
  | EmptyString => None
  | String c s =>
      if bool_decide (Ascii.byte_of_ascii c = dot) then
        match s with
        | EmptyString => None
        | _ => match zones !! s with Some nonAuth => Some nonAuth | None => parent_zone zones s end
        end
      else parent_zone zones s
  end.
Definition zone_of (zones : gmap string bool) (qname : string) : option bool :=
  let qname := ToLower (Fqdn qname) in
  match zones !! qname with Some nonAuth => Some nonAuth | None => parent_zone zones qname end.
Definition findZone (d : Resolver) (qname : string) : option bool := zone_of (rs_zones d) qname.
Definition shouldFallthrough (d : Resolver) (qname : string) : bool := default false (findZone d qname).
Definition isInManagedZone (d : Resolver) (name : string) : bool := bool_decide (is_Some (findZone d name)).

(** *** Look-ups *)
Definition found (rs : list RR) : lookupResult := {| lr_records := rs; lr_rcode := RcodeSuccess; lr_hasExternalData := false |}.
Definition none (rcode : Z) : lookupResult := {| lr_records := []; lr_rcode := rcode; lr_hasExternalData := false |}.
Definition resolveExternal (d : Resolver) (name : string) (qtype : Z) : lookupResult :=
  let network := NetworkForQtype qtype in
  if bool_decide (network = "") then none RcodeNotImplemented
  else
    match LookupIP (rs_done d) network name qtype with
    | inr rcode => {| lr_records := []; lr_rcode := rcode; lr_hasExternalData := true |}
    | inl ips => {| lr_records := IPsToRRs name ips 60; lr_rcode := RcodeSuccess; lr_hasExternalData := true |}
    end.
(** The code -1: keep following the chain. *)
Definition resolveCNAMETarget (d : Resolver) (targetName : string) (targetType qclass : Z) : lookupResult :=
  match getRecords d {| Name := targetName; Qtype := targetType; Qclass := qclass |} with
  | [] =>
      if hasRecord d {| Name := targetName; Qtype := TypeCNAME; Qclass := qclass |} then none (-1)
      else if hasRecordsForDomain d targetName targetType then none RcodeSuccess
      else if isInManagedZone d targetName then none RcodeNameError
      else resolveExternal d targetName targetType
  | records => found records
  end.
Definition buildChainResult (chain : list RR) (target : lookupResult) : lookupResult :=
  {| lr_records := chain ++ lr_records target; lr_rcode := lr_rcode target; lr_hasExternalData := lr_hasExternalData target |}.
Definition cname_records (d : Resolver) (cnameQuestion : Question) (targetType : Z) : list RR :=
  match getRecords d cnameQuestion with
  | [] => if supportsWildcard targetType
          then lr_records (responseFromWildRecords (Name cnameQuestion) (getRecords d (transformToWildcard cnameQuestion))) else []
  | rs => rs
  end.
Fixpoint cname_loop (depth : nat) (d : Resolver) (cnameQuestion : Question) (targetType : Z) (chain : list RR) : lookupResult :=
  match depth with
  | O => found chain
  | S depth =>
      match cname_records d cnameQuestion targetType with
      | [] => found chain
      | (first :: _) as cnameRecords =>
          let chain := chain ++ cnameRecords in
          match rr_Data first with
          | RD_CNAME target =>
              let targetName := ToLower target in
              let targetResult := resolveCNAMETarget d targetName targetType (Qclass cnameQuestion) in
              if lr_rcode targetResult =? -1
              then cname_loop depth d {| Name := targetName; Qtype := TypeCNAME; Qclass := Qclass cnameQuestion |} targetType chain
              else buildChainResult chain targetResult
          | _ => found chain
          end
      end
  end.
Definition lookupCNAMEChain (d : Resolver) (cnameQuestion : Question) (targetType : Z) : lookupResult := cname_loop 8 d cnameQuestion targetType [].

(** Several records take turns. *)
Definition rotate (q : Question) (d : Resolver) : Resolver :=
  match rs_records d !! q with
  | Some (first :: ((_ :: _) as rest)) => set_records (<[q := rest ++ [first]]> (rs_records d)) d
  | _ => d
  end.
Definition lookupRecords (d : Resolver) (question : Question) : Resolver * lookupResult :=
  let wildQuestion := transformToWildcard question in
  match rs_records d !! question with
  | Some records => (rotate question d, found records)
  | None =>
      match (if supportsWildcard (Qtype question) && bool_decide (Name question ∉ rs_domains d) then rs_records d !! wildQuestion else None) with
      | Some records => (rotate wildQuestion d, responseFromWildRecords (Name question) records)
      | None =>
          (d, if Qtype question =? TypeCNAME then none RcodeNameError
              else lookupCNAMEChain d {| Name := Name question; Qtype := TypeCNAME; Qclass := Qclass question |} (Qtype question))
      end
  end.

Definition determineRcode (d : Resolver) (question : Question) (result : lookupResult) : Z :=
  if negb (lr_rcode result =? 0) then lr_rcode result
  else if hasRecordsForDomain d (Name question) (Qtype question) then RcodeSuccess else RcodeNameError.
Definition continueToNext (r : Request) : Reply RR :=
  {| rp_To := r; rp_Rcode := RcodeNameError; rp_Zero := true; rp_Authoritative := false; rp_RecursionAvailable := false; rp_Answer := [] |}.
Definition normalized (question : Question) : Question := {| Name := ToLower (Fqdn (Name question)); Qtype := Qtype question; Qclass := Qclass question |}.
Definition reply_of (d : Resolver) (r : Request) (question : Question) (result : lookupResult) : Reply RR :=
  let rcode := determineRcode d question result in
  if (rcode =? RcodeNameError) && shouldFallthrough d (Name question) then continueToNext r
  else {| rp_To := r; rp_Rcode := rcode; rp_Zero := false; rp_Authoritative := negb (lr_hasExternalData result);
          rp_RecursionAvailable := true; rp_Answer := lr_records result |}.
Definition ServeDNS (d : Resolver) (r : Request) : Resolver * list (Reply RR) :=
  match r_Question r with
  | [] => (d, [])
  | question :: _ =>
      let question := normalized question in
      let '(d, result) := lookupRecords d question in
      (d, [reply_of d r question result])
  end.

(** *** Updates *)
Definition set_Rdlength (n : Z) (r : RR) : RR :=
  {| rr_Name := rr_Name r; rr_Rrtype := rr_Rrtype r; rr_Class := rr_Class r; rr_Ttl := rr_Ttl r; rr_Rdlength := n; rr_Data := rr_Data r |}.
Definition question_of (rr : RR) : Question := {| Name := ToLower (Fqdn (rr_Name rr)); Qtype := rr_Rrtype rr; Qclass := rr_Class rr |}.
Definition registerRecord (record : SimpleRecord) (d : Resolver) : Resolver :=
  match NewRR (SimpleRecord_String Fqdn TypeString record) with
  | None => d
  | Some rr =>
      let rr := set_Rdlength (SimpleRecord_Len record) rr in
      let q := question_of rr in
      {| rs_records := <[q := getRecords d q ++ [rr]]> (rs_records d); rs_domains := {[ Name q ]} ∪ rs_domains d; rs_zones := rs_zones d; rs_done := rs_done d |}
  end.
Definition update_zone (d : Resolver) (zone : CustomZone) : Resolver :=
  let d := {| rs_records := rs_records d; rs_domains := rs_domains d;
              rs_zones := <[ToLower (Fqdn (cz_Domain zone)) := cz_NonAuthoritative zone]> (rs_zones d); rs_done := rs_done d |} in
  foldl (λ d rec, registerRecord rec d) d (cz_Records zone).
Definition Update (customZones : list CustomZone) (d : Resolver) : Resolver :=
  foldl update_zone {| rs_records := ∅; rs_domains := ∅; rs_zones := ∅; rs_done := rs_done d |} customZones.

(** ** What the resolver holds *)
Definition entry_of_record (record : SimpleRecord) : option (Question * RR) :=
  rr ← NewRR (SimpleRecord_String Fqdn TypeString record);
  let rr := set_Rdlength (SimpleRecord_Len record) rr in Some (question_of rr, rr).
Definition entries (zones : list CustomZone) : list (Question * RR) := concat ((λ z, omap entry_of_record (cz_Records z)) <$> zones).
Definition zone_map (zones : list CustomZone) : gmap string bool :=
  foldl (λ m z, <[ToLower (Fqdn (cz_Domain z)) := cz_NonAuthoritative z]> m) ∅ zones.
Definition of_question (es : list (Question * RR)) (q : Question) : list RR := (filter (λ x, x.1 = q) es).*2.

(** The tables have the records [es], in any order, and the zones [zs]. *)
Record holds (es : list (Question * RR)) (zs : gmap string bool) (d : Resolver) : Prop := {
  h_records : ∀ q, match rs_records d !! q with Some l => l ≠ [] ∧ l ≡ₚ of_question es q | None => of_question es q = [] end;
  h_domains : ∀ n, n ∈ rs_domains d ↔ ∃ x, x ∈ es ∧ Name x.1 = n;
  h_zones : rs_zones d = zs }.

Lemma of_question_app es es' q : of_question (es ++ es') q = of_question es q ++ of_question es' q.
Proof using Type. unfold of_question. by rewrite filter_app, fmap_app. Qed.
Lemma of_question_one q0 rr q : of_question [(q0, rr)] q = if decide (q0 = q) then [rr] else [].
Proof using Type. unfold of_question. rewrite filter_cons. cbn [fst]. by destruct (decide (q0 = q)). Qed.
Lemma of_question_elem es q rr : rr ∈ of_question es q ↔ (q, rr) ∈ es.
Proof using Type.
  unfold of_question. rewrite list_elem_of_fmap. split; [intros ([q' rr'] & -> & [Hq Hin]%list_elem_of_filter); cbn in *; by subst|].
  intros Hin. exists (q, rr). split; [done|]. by apply list_elem_of_filter.
Qed.
Lemma registerRecord_holds es zs d record : holds es zs d → holds (es ++ option_list (entry_of_record record)) zs (registerRecord record d).
Proof using Type.
  clear LookupNetIP. intros [Hr Hd Hz]. unfold registerRecord, entry_of_record. destruct (NewRR _) as [rr|]; cbn [mbind option_bind]; cbv zeta; cbn [option_list]; [|rewrite app_nil_r; done].
  set (x := set_Rdlength _ rr). change (option_list (Some (question_of x, x))) with [(question_of x, x)]. split; cbn [rs_records rs_domains rs_zones]; [| |done].
  - intros q. specialize (Hr q). rewrite of_question_app, of_question_one. destruct (decide (question_of x = q)) as [<-|Hne].
    + rewrite lookup_insert_eq. unfold getRecords. split; [by destruct (default [] _)|].
      destruct (rs_records d !! question_of x) as [l|]; cbn [from_option id]; [destruct Hr as [_ ->]; done|by rewrite Hr].
    + rewrite lookup_insert_ne by done. by rewrite app_nil_r.
  - intros n. rewrite elem_of_union, elem_of_singleton, Hd. setoid_rewrite elem_of_app. setoid_rewrite list_elem_of_singleton. clear. naive_solver.
Qed.
Lemma Update_holds zones d : holds (entries zones) (zone_map zones) (Update zones d).
Proof using Type.
  clear LookupNetIP. unfold Update, entries, zone_map.
  assert (Hrec : ∀ recs es zs d, holds es zs d → holds (es ++ omap entry_of_record recs) zs (foldl (λ d rec, registerRecord rec d) d recs)).
  { induction recs as [|rec recs IH]; intros es zs d0 Hd; cbn [foldl]; [by rewrite app_nil_r|].
    replace (es ++ omap entry_of_record (rec :: recs)) with ((es ++ option_list (entry_of_record rec)) ++ omap entry_of_record recs).
    - by apply IH, registerRecord_holds.
    - rewrite <- app_assoc. f_equal. cbn. by destruct (entry_of_record rec). }
  assert (Hz : ∀ zones es zs d, holds es zs d → holds (es ++ concat ((λ z, omap entry_of_record (cz_Records z)) <$> zones))
    (foldl (λ m z, <[ToLower (Fqdn (cz_Domain z)) := cz_NonAuthoritative z]> m) zs zones) (foldl update_zone d zones)).
  { clear zones. induction zones as [|z zones IH]; intros es zs d0 Hd; cbn [foldl fmap list_fmap concat]; [by rewrite app_nil_r|].
    rewrite app_assoc. apply IH. unfold update_zone. apply Hrec. destruct Hd as [H1 H2 <-]. by split. }
  apply (Hz zones [] ∅). split; cbn; [done| |done]. intros n. split; [by intros ?%not_elem_of_empty|by intros (? & ?%not_elem_of_nil & _)].
Qed.
Lemma rotate_holds es zs d q : holds es zs d → holds es zs (rotate q d).
Proof using Type.
  intros [Hr Hd Hz]. unfold rotate. destruct (rs_records d !! q) as [[|x [|y l]]|] eqn:E; [by split..| |by split]. split; [|done..].
  intros q'. cbn [set_records rs_records]. destruct (decide (q = q')) as [<-|Hne]; [|rewrite lookup_insert_ne by done; apply Hr].
  rewrite lookup_insert_eq. specialize (Hr q). rewrite E in Hr. destruct Hr as [_ Hp]. split; [done|]. rewrite <- Hp.
  change (x :: y :: l) with ([x] ++ (y :: l)). by rewrite (comm (++)).
Qed.
Lemma lookupRecords_holds es zs d q : holds es zs d → holds es zs (lookupRecords d q).1.
Proof using Type.
  intros Hd. unfold lookupRecords. destruct (rs_records d !! q); [by apply rotate_holds|].
  set (wild := if supportsWildcard (Qtype q) && bool_decide (Name q ∉ rs_domains d) then rs_records d !! transformToWildcard q else None). destruct wild; [by apply rotate_holds|done].
Qed.
Lemma ServeDNS_holds es zs d r : holds es zs d → holds es zs (ServeDNS d r).1.
Proof using Type.
  intros Hd. unfold ServeDNS. destruct (r_Question r) as [|q ?]; [done|]. pose proof (lookupRecords_holds es zs d (normalized q) Hd).
  by destruct (lookupRecords d (normalized q)).
Qed.
Lemma queries_hold zones earlier d : holds (entries zones) (zone_map zones) (foldl (λ d r, (ServeDNS d r).1) (Update zones d) earlier).
Proof using Type.
  generalize (Update_holds zones d). generalize (Update zones d). induction earlier as [|r rs IH]; intros d1 H1; cbn [foldl]; [done|].
  by apply IH, ServeDNS_holds.
Qed.

(** ** What it answers *)
Definition cname_of (q : Question) : Question := {| Name := Name q; Qtype := TypeCNAME; Qclass := Qclass q |}.
(** A record the resolver was given, or the copy of a wildcard record for a name. *)
Definition registered (es : list (Question * RR)) (rr : RR) : Prop :=
  ∃ x, x ∈ es ∧ (rr = x.2 ∨ ∃ n, Name x.1 = transformDomainToWildcard n ∧ rr = rename n x.2).
Definition answers_with (m : Reply RR) (rs : list RR) : Prop := rp_Rcode m = RcodeSuccess ∧ rp_Authoritative m = true ∧ rp_Answer m ≡ₚ rs.
Section answers.
Context (es : list (Question * RR)) (zs : gmap string bool) (d : Resolver) (Hd : holds es zs d).

Lemma getRecords_elem q rr : rr ∈ getRecords d q ↔ (q, rr) ∈ es.
Proof using Hd.
  unfold getRecords. pose proof (h_records _ _ _ Hd q) as Hq. rewrite <- of_question_elem. destruct (rs_records d !! q) as [l|]; cbn [from_option id].
  - by destruct Hq as [_ ->].
  - by rewrite Hq.
Qed.
Lemma wild_registered n q rr : rr ∈ rename n <$> getRecords d (transformToWildcard q) → n = Name q → registered es rr.
Proof using Hd.
  intros (rr' & -> & Hin%getRecords_elem)%list_elem_of_fmap ->. exists (transformToWildcard q, rr'). split; [done|]. right. by exists (Name q).
Qed.
Lemma exact_registered q rr : rr ∈ getRecords d q → registered es rr.
Proof using Hd. intros Hin%getRecords_elem. exists (q, rr). split; [done|by left]. Qed.
Lemma cname_records_registered q ty rr : rr ∈ cname_records d q ty → registered es rr.
Proof using Hd.
  unfold cname_records. destruct (getRecords d q) as [|x l] eqn:E; [|rewrite <- E; apply exact_registered].
  destruct (supportsWildcard ty); [|by intros ?%not_elem_of_nil]. intros H. by apply (wild_registered (Name q) q).
Qed.
Lemma target_registered n ty cls rr : lr_hasExternalData (resolveCNAMETarget d n ty cls) = false →
  rr ∈ lr_records (resolveCNAMETarget d n ty cls) → registered es rr.
Proof using Hd.
  unfold resolveCNAMETarget. destruct (getRecords d _) as [|x l] eqn:E; [|intros _; cbn [lr_records found]; rewrite <- E; apply exact_registered].
  destruct (hasRecord _ _); [by intros _ ?%not_elem_of_nil|]. destruct (hasRecordsForDomain _ _ _); [by intros _ ?%not_elem_of_nil|].
  destruct (isInManagedZone _ _); [by intros _ ?%not_elem_of_nil|]. unfold resolveExternal. destruct (bool_decide _); [by intros _ ?%not_elem_of_nil|].
  by destruct (LookupIP _ _ _ _).
Qed.
Lemma cname_loop_registered depth q ty chain : (∀ rr, rr ∈ chain → registered es rr) →
  lr_hasExternalData (cname_loop depth d q ty chain) = false → ∀ rr, rr ∈ lr_records (cname_loop depth d q ty chain) → registered es rr.
Proof using Hd.
  revert q chain. induction depth as [|depth IH]; intros q chain Hc; cbn [cname_loop]; [done|].
  pose proof (cname_records_registered q ty) as Hr. destruct (cname_records d q ty) as [|first l] eqn:E; [done|].
  assert (Hc' : ∀ rr, rr ∈ chain ++ first :: l → registered es rr) by (intros rr [?|?]%elem_of_app; auto).
  destruct (rr_Data first) as [|?|target| |]; try done. destruct (lr_rcode _ =? -1); [by apply IH|].
  cbn [buildChainResult lr_hasExternalData lr_records]. intros He rr [?|?]%elem_of_app; [by apply Hc'|]. by eapply target_registered.
Qed.
Lemma lookup_registered q : lr_hasExternalData (lookupRecords d q).2 = false → ∀ rr, rr ∈ lr_records (lookupRecords d q).2 → registered es rr.
Proof using Hd.
  unfold lookupRecords. destruct (rs_records d !! q) as [l|] eqn:E.
  { intros _ rr Hin. apply (exact_registered q). unfold getRecords. by rewrite E. }
  set (wild := if supportsWildcard (Qtype q) && bool_decide (Name q ∉ rs_domains d) then rs_records d !! transformToWildcard q else None). destruct wild as [l|] eqn:Ew.
  { intros _ rr Hin. apply (wild_registered (Name q) q); [|done]. unfold wild in Ew. unfold getRecords. destruct (supportsWildcard (Qtype q) && _); [|done]. by rewrite Ew. }
  cbn [snd]. destruct (Qtype q =? TypeCNAME); [by intros _ rr ?%not_elem_of_nil|]. apply cname_loop_registered. by intros ? ?%not_elem_of_nil.
Qed.

(** A question with records of its own. *)
Lemma lookup_own q : of_question es q ≠ [] → (lookupRecords d q).2 = found (getRecords d q) ∧ getRecords d q ≡ₚ of_question es q.
Proof using Hd.
  intros Hne. unfold lookupRecords, getRecords. pose proof (h_records _ _ _ Hd q) as Hq. destruct (rs_records d !! q) as [l|]; [|done]. by destruct Hq as [_ ?].
Qed.
(** A name nothing is known about. *)
Definition unknown (n : string) : Prop := ∀ x, x ∈ es → Name x.1 ≠ n ∧ Name x.1 ≠ transformDomainToWildcard n.
Lemma unknown_records q : unknown (Name q) → rs_records d !! q = None ∧ rs_records d !! transformToWildcard q = None.
Proof using Hd.
  intros Hu. split.
  - pose proof (h_records _ _ _ Hd q) as Hq. destruct (rs_records d !! q) as [[|rr l]|]; [by destruct Hq| |done]. destruct Hq as [_ Hp].
    assert (Hin : rr ∈ of_question es q) by (rewrite <- Hp; by left). apply of_question_elem in Hin. by destruct (Hu _ Hin).
  - pose proof (h_records _ _ _ Hd (transformToWildcard q)) as Hq. destruct (rs_records d !! _) as [[|rr l]|]; [by destruct Hq| |done]. destruct Hq as [_ Hp].
    assert (Hin : rr ∈ of_question es (transformToWildcard q)) by (rewrite <- Hp; by left). apply of_question_elem in Hin. by destruct (Hu _ Hin).
Qed.
Lemma lookup_unknown q : unknown (Name q) → lookupRecords d q = (d, none (if Qtype q =? TypeCNAME then RcodeNameError else RcodeSuccess)).
Proof using Hd.
  intros Hu. destruct (unknown_records q Hu) as [E1 E2]. unfold lookupRecords. rewrite E1. set (b := supportsWildcard _ && _).
  assert (Ew : (if b then rs_records d !! transformToWildcard q else None) = None) by (by destruct b). rewrite Ew. f_equal. destruct (Qtype q =? TypeCNAME); [done|].
  set (q' := {| Name := Name q; Qtype := TypeCNAME; Qclass := Qclass q |}). destruct (unknown_records q' Hu) as [E3 E4].
  unfold lookupCNAMEChain. cbn [cname_loop]. unfold cname_records, getRecords. rewrite E3, E4. cbn. by destruct (supportsWildcard (Qtype q)).
Qed.
(** A wildcard of the name's parent. *)
Lemma name_known n : n ∈ rs_domains d ↔ ∃ x, x ∈ es ∧ Name x.1 = n.
Proof using Hd. apply (h_domains _ _ _ Hd). Qed.
Lemma no_own q : of_question es q = [] → rs_records d !! q = None.
Proof using Hd.
  intros E. pose proof (h_records _ _ _ Hd q) as Hq. destruct (rs_records d !! q) as [l|]; [|done]. destruct Hq as [Hne Hp].
  rewrite E in Hp. by apply Permutation_nil_r in Hp.
Qed.
Lemma own_records q : of_question es q ≠ [] → ∃ l, rs_records d !! q = Some l ∧ l ≠ [] ∧ l ≡ₚ of_question es q.
Proof using Hd. intros Hne. pose proof (h_records _ _ _ Hd q) as Hq. destruct (rs_records d !! q) as [l|]; [by exists l|done]. Qed.
Lemma lookup_wildcard q : (∀ x, x ∈ es → Name x.1 ≠ Name q) → supportsWildcard (Qtype q) = true → of_question es (transformToWildcard q) ≠ [] →
  ∃ l, (lookupRecords d q).2 = found (rename (Name q) <$> l) ∧ l ≡ₚ of_question es (transformToWildcard q).
Proof using Hd.
  intros Hn Hs Hw. destruct (own_records _ Hw) as (l & El & _ & Hp). exists l. split; [|done]. unfold lookupRecords. rewrite (no_own q), Hs.
  - rewrite bool_decide_eq_true_2; cbn [andb]; [by rewrite El|]. intros (x & Hx & Ex)%name_known. by apply (Hn x Hx).
  - destruct (of_question es q) as [|rr l'] eqn:E; [done|]. exfalso. apply (Hn (q, rr)); [|done]. apply of_question_elem. rewrite E. by left.
Qed.
(** A name that exists with records of other types. *)
Lemma lookup_chain q x : x ∈ es → Name x.1 = Name q → of_question es q = [] → Qtype q ≠ TypeCNAME →
  (lookupRecords d q).2 = cname_loop 8 d (cname_of q) (Qtype q) [].
Proof using Hd.
  intros Hx En Eq Ht. unfold lookupRecords. rewrite (no_own q Eq). assert (Hk : Name q ∈ rs_domains d) by (apply name_known; by exists x).
  rewrite (bool_decide_eq_false_2 (Name q ∉ rs_domains d)) by (intros H; by apply H). rewrite andb_false_r. cbn [snd].
  by rewrite (proj2 (Z.eqb_neq _ _) Ht).
Qed.
Lemma cname_loop_none depth q ty chain : of_question es q = [] → of_question es (transformToWildcard q) = [] → cname_loop depth d q ty chain = found chain.
Proof using Hd.
  intros E1 E2. destruct depth as [|depth]; [done|]. cbn [cname_loop]. unfold cname_records, getRecords. rewrite (no_own _ E1), (no_own _ E2).
  cbn [from_option id]. by destruct (supportsWildcard ty).
Qed.
(** An alias of a name with records of the type. *)
Lemma cname_loop_alias depth q ty rr target : of_question es q = [rr] → rr_Data rr = RD_CNAME target →
  let q' := {| Name := ToLower target; Qtype := ty; Qclass := Qclass q |} in of_question es q' ≠ [] →
  cname_loop (S depth) d q ty [] = found (rr :: getRecords d q').
Proof using Hd.
  intros E1 Er q' E2. destruct (own_records q) as (l & El & _ & Hp); [by rewrite E1|]. rewrite E1 in Hp. apply Permutation_singleton_r in Hp as ->.
  destruct (own_records q' E2) as (l' & El' & Hne' & _). cbn [cname_loop]. unfold cname_records, getRecords. rewrite El. cbn [from_option id app].
  rewrite Er. unfold resolveCNAMETarget, getRecords. fold q'. rewrite El'. cbn [from_option id]. by destruct l'.
Qed.
Lemma known_rcode q result n : (∃ x, x ∈ es ∧ Name x.1 = n) → n = Name q ∨ n = transformDomainToWildcard (Name q) ∧ supportsWildcard (Qtype q) = true →
  lr_rcode result = RcodeSuccess → determineRcode d q result = RcodeSuccess.
Proof using Hd.
  intros Hk Hn Er. unfold determineRcode, hasRecordsForDomain. rewrite Er. cbn [RcodeSuccess Z.eqb negb].
  apply name_known in Hk. destruct Hn as [->|[-> ->]]; rewrite (bool_decide_eq_true_2 _ Hk); [done|]. by rewrite orb_true_r.
Qed.
Lemma unknown_rcode q : unknown (Name q) → determineRcode d q (none (if Qtype q =? TypeCNAME then RcodeNameError else RcodeSuccess)) = RcodeNameError.
Proof using Hd.
  intros Hu. unfold determineRcode. destruct (Qtype q =? TypeCNAME); [done|]. cbn [none lr_rcode]. unfold hasRecordsForDomain.
  assert (Hdom : ∀ n, n = Name q ∨ n = transformDomainToWildcard (Name q) → bool_decide (n ∈ rs_domains d) = false).
  { intros n Hn. apply bool_decide_eq_false. intros (x & Hx & En)%name_known. destruct (Hu x Hx). destruct Hn; congruence. }
  rewrite !Hdom by auto. by rewrite andb_false_r.
Qed.
Lemma answer_found r q n recs recs' : (∃ x, x ∈ es ∧ Name x.1 = n) → n = Name q ∨ n = transformDomainToWildcard (Name q) ∧ supportsWildcard (Qtype q) = true →
  recs ≡ₚ recs' → answers_with (reply_of d r q (found recs)) recs'.
Proof using Hd. intros Hk Hn Hp. unfold reply_of. by rewrite (known_rcode q (found recs) n). Qed.
End answers.

(** What the reply to a normalized question is to be. *)
Definition correct_reply (es : list (Question * RR)) (zs : gmap string bool) (q : Question) (m : Reply RR) : Prop :=
  let known := ∃ x, x ∈ es ∧ Name x.1 = Name q in
  (of_question es q ≠ [] → answers_with m (of_question es q))
    ∧ (¬ known → supportsWildcard (Qtype q) = true → of_question es (transformToWildcard q) ≠ [] →
        answers_with m (rename (Name q) <$> of_question es (transformToWildcard q)))
    ∧ (known → of_question es q = [] → Qtype q ≠ TypeCNAME → of_question es (cname_of q) = [] → of_question es (transformToWildcard (cname_of q)) = [] →
        answers_with m [])
    ∧ (∀ rr target, of_question es q = [] → Qtype q ≠ TypeCNAME → of_question es (cname_of q) = [rr] → rr_Data rr = RD_CNAME target →
        let q' := {| Name := ToLower target; Qtype := Qtype q; Qclass := Qclass q |} in of_question es q' ≠ [] →
        answers_with m (rr :: of_question es q'))
    ∧ (unknown es (Name q) → rp_Rcode m = RcodeNameError ∧ rp_Answer m = [] ∧ rp_Zero m = default false (zone_of zs (Name q)))
    ∧ (rp_Authoritative m = true → ∀ rr, rr ∈ rp_Answer m → registered es rr).
Lemma reply_spec es zs d r q0 rest : holds es zs d → r_Question r = q0 :: rest → ∃ m, (ServeDNS d r).2 = [m] ∧ correct_reply es zs (normalized q0) m.
Proof using Type.
  intros Hd Er. set (q := normalized q0). unfold correct_reply. cbv zeta.
  unfold ServeDNS. rewrite Er. fold q. pose proof (lookupRecords_holds es zs d q Hd) as Hd'.
  pose proof (lookup_own es zs d Hd q) as Hown. pose proof (lookup_unknown es zs d Hd q) as Hun.
  pose proof (lookup_registered es zs d Hd q) as Hreg. pose proof (lookup_wildcard es zs d Hd q) as Hwild.
  pose proof (lookup_chain es zs d Hd q) as Hchain.
  destruct (lookupRecords d q) as [d' result]. cbn [fst snd] in *. eexists. split; [reflexivity|]. split_and!.
  - intros Hne. destruct (Hown Hne) as [-> Hp]. apply (answer_found es zs d' Hd' r q (Name q)); [|by left|done].
    destruct (of_question es q) as [|rr l] eqn:E; [done|]. exists (q, rr). split; [|done]. apply of_question_elem. rewrite E. by left.
  - intros Hk Hs Hw. destruct Hwild as (l & -> & Hp); [intros x Hx En; apply Hk; by exists x|done|done|].
    apply (answer_found es zs d' Hd' r q (transformDomainToWildcard (Name q))); [|by right|by rewrite Hp].
    destruct (of_question es _) as [|rr ?] eqn:E in Hw; [done|]. exists (transformToWildcard q, rr). split; [|done]. apply of_question_elem. rewrite E. by left.
  - intros (x & Hx & En) E1 Ht E2 E3. rewrite (Hchain x Hx En E1 Ht), (cname_loop_none es zs d Hd) by done.
    apply (answer_found es zs d' Hd' r q (Name q)); [by exists x|by left|done].
  - intros rr target E1 Ht E2 Erd E3. assert (Hx : (cname_of q, rr) ∈ es) by (apply of_question_elem; rewrite E2; by left).
    rewrite (Hchain _ Hx eq_refl E1 Ht), (cname_loop_alias es zs d Hd 7 (cname_of q) _ rr target) by done.
    apply (answer_found es zs d' Hd' r q (Name q)); [by exists (cname_of q, rr)|by left|].
    f_equiv. by apply (lookup_own es zs d Hd).
  - intros Hu. specialize (Hun Hu). injection Hun as -> ->. change (Qtype q0) with (Qtype q). unfold reply_of. rewrite (unknown_rcode es zs d Hd) by done.
    unfold shouldFallthrough, findZone. rewrite (h_zones _ _ _ Hd). by destruct (default false _).
  - unfold reply_of. destruct (_ && _); [done|]. cbn [rp_Authoritative rp_Answer]. intros Ha%negb_true_iff. by apply Hreg.
Qed.

(** C25: The local resolver answers with what the network map gave it.  After an update with the
    zones of a map and any queries, the reply to a query is: the records of the map with that name and
    type, in some order, when there are any; copies of the records of the wildcard, when the name
    itself is unknown; an empty answer without an error, when the name exists with other types and is
    no alias; the alias and the records of its target, when the map has them; that the name does not
    exist, or the signal to ask the next handler if the name is in a zone of the user, when the map has
    neither the name nor a wildcard for it; and in any case, unless an alias led outside, nothing but
    records of the map or copies of its wildcard records. *)
Theorem local_resolver_spec zones d0 earlier r q0 rest : r_Question r = q0 :: rest →
  let d := foldl (λ d r, (ServeDNS d r).1) (Update zones d0) earlier in
  let es := entries zones in
  let q := normalized q0 in
  let known := ∃ x, x ∈ es ∧ Name x.1 = Name q in
  ∃ m, (ServeDNS d r).2 = [m]
    ∧ (of_question es q ≠ [] → answers_with m (of_question es q))
    ∧ (¬ known → supportsWildcard (Qtype q) = true → of_question es (transformToWildcard q) ≠ [] →
        answers_with m (rename (Name q) <$> of_question es (transformToWildcard q)))
    ∧ (known → of_question es q = [] → Qtype q ≠ TypeCNAME → of_question es (cname_of q) = [] → of_question es (transformToWildcard (cname_of q)) = [] →
        answers_with m [])
    ∧ (∀ rr target, of_question es q = [] → Qtype q ≠ TypeCNAME → of_question es (cname_of q) = [rr] → rr_Data rr = RD_CNAME target →
        let q' := {| Name := ToLower target; Qtype := Qtype q; Qclass := Qclass q |} in of_question es q' ≠ [] →
        answers_with m (rr :: of_question es q'))
    ∧ (unknown es (Name q) → rp_Rcode m = RcodeNameError ∧ rp_Answer m = [] ∧ rp_Zero m = default false (zone_of (zone_map zones) (Name q)))
    ∧ (rp_Authoritative m = true → ∀ rr, rr ∈ rp_Answer m → registered es rr).
Proof using Type. intros Er. exact (reply_spec _ _ _ r q0 rest (queries_hold zones earlier d0) Er). Qed.
End resolver.

(** ** A zone *)
(** The texts of the records used here, as the library parses them. *)
Definition in_rr (n : string) (ty : Z) (data : rdata) : RR :=
  {| rr_Name := n; rr_Rrtype := ty; rr_Class := ClassINET; rr_Ttl := 300; rr_Rdlength := 0; rr_Data := data |}.
Definition demo_types (ty : Z) : string := if ty =? TypeA then "A" else if ty =? TypeCNAME then "CNAME" else "AAAA".
Definition demo_parse (text : string) : option RR :=
  (snd ∘ snd) <$> list_find (λ p, p.1 = text)
    [("a.nb. 300 IN A 100.64.0.1", in_rr "a.nb." TypeA (RD_A 1681915905)); ("A.nb. 300 IN A 100.64.0.2", in_rr "A.nb." TypeA (RD_A 1681915906));
     ("www.nb. 300 IN CNAME a.nb.", in_rr "www.nb." TypeCNAME (RD_CNAME "a.nb."));
     ("www.nb. 300 IN CNAME x.apps.nb.", in_rr "www.nb." TypeCNAME (RD_CNAME "x.apps.nb."));
     ("out.nb. 300 IN CNAME other.org.", in_rr "out.nb." TypeCNAME (RD_CNAME "other.org."));
     ("*.nb. 300 IN CNAME a.nb.", in_rr "*.nb." TypeCNAME (RD_CNAME "a.nb."));
     ("*.apps.nb. 300 IN A 100.64.0.1", in_rr "*.apps.nb." TypeA (RD_A 1681915905))].
(** The system finds every name, while its context is alive. *)
Definition demo_lookup (done : bool) (network host : string) : list addr + lookup_error :=
  if done then inr DNSOther else inl [{| ad_v6 := false; ad_num := 167772161 |}].
Definition simple (n : string) (ty : Z) (data : string) : SimpleRecord := {| rec_Name := n; rec_Type := ty; rec_Class := "IN"; rec_TTL := 300; rec_RData := data |}.
Definition zone_nb (records : list SimpleRecord) : CustomZone :=
  {| cz_Domain := "nb"; cz_Records := records; cz_SearchDomainDisabled := false; cz_NonAuthoritative := false |}.
Abbreviation demo_update records d := (Update with_dot demo_types demo_parse [zone_nb records] d).
Definition query (n : string) (ty : Z) : Request := {| r_Question := [{| Name := n; Qtype := ty; Qclass := ClassINET |}] |}.
Definition outcome (d : Resolver) (r : Request) : list (Z * list rdata) :=
  (λ m, (rp_Rcode m, rr_Data <$> rp_Answer m)) <$> (ServeDNS with_dot demo_lookup d r).2.
Definition demo_records : list SimpleRecord := [simple "a.nb" TypeA "100.64.0.1"; simple "A.nb" TypeA "100.64.0.2"; simple "www.nb" TypeCNAME "a.nb."].
Lemma local_resolver_spec_witness :
  let d := (ServeDNS with_dot demo_lookup (demo_update demo_records NewResolver) (query "a.nb" TypeA)).1 in
  outcome d (query "a.nb" TypeA) = [(RcodeSuccess, [RD_A 1681915906; RD_A 1681915905])]
  ∧ ∃ m, (ServeDNS with_dot demo_lookup d (query "WWW.nb" TypeA)).2 = [m] ∧ rp_Rcode m = RcodeSuccess
    ∧ rr_Data <$> rp_Answer m ≡ₚ [RD_CNAME "a.nb."; RD_A 1681915905; RD_A 1681915906].
Proof.
  split; [vm_compute; reflexivity|].
  destruct (local_resolver_spec with_dot demo_types demo_parse demo_lookup [zone_nb demo_records] NewResolver [query "a.nb" TypeA]
    (query "WWW.nb" TypeA) {| Name := "WWW.nb"; Qtype := TypeA; Qclass := ClassINET |} [] eq_refl) as (m & Hm & _ & _ & _ & Halias & _).
  exists m. split; [exact Hm|]. destruct (Halias (set_Rdlength 6 (in_rr "www.nb." TypeCNAME (RD_CNAME "a.nb."))) "a.nb.") as (Hr & _ & Hp);
    [vm_compute; reflexivity|discriminate|vm_compute; reflexivity|reflexivity|vm_compute; discriminate|].
  split; [exact Hr|]. rewrite Hp. vm_compute. reflexivity.
Defined.

(** A query for the alias of a name that has only an address: the name exists, and the reply says
    that it does not. *)
Example cname_query_of_host :
  outcome (demo_update demo_records NewResolver) (query "a.nb" TypeCNAME) = [(RcodeNameError, [])]
  ∧ outcome (demo_update demo_records NewResolver) (query "a.nb" TypeAAAA) = [(RcodeSuccess, [])].
Proof. vm_compute. done. Qed.
(** An alias of a name that a wildcard has the address of: asked directly the name has the address,
    through the alias it has none. *)
Example alias_of_wildcard_has_no_address :
  let d := demo_update [simple "*.apps.nb" TypeA "100.64.0.1"; simple "www.nb" TypeCNAME "x.apps.nb."] NewResolver in
  outcome d (query "x.apps.nb" TypeA) = [(RcodeSuccess, [RD_A 1681915905])]
  ∧ outcome d (query "www.nb" TypeA) = [(RcodeSuccess, [RD_CNAME "x.apps.nb."])].
Proof. vm_compute. done. Qed.
(** A wildcard alias applies to a name that exists, when it is asked for a type it does not have. *)
Example wildcard_alias_of_existing_name :
  let d := demo_update [simple "*.nb" TypeCNAME "a.nb."; simple "a.nb" TypeA "100.64.0.1"] NewResolver in
  outcome d (query "a.nb" TypeAAAA) = [(RcodeSuccess, [RD_CNAME "a.nb."])].
Proof. vm_compute. done. Qed.
(** Once it was stopped the resolver follows no alias outside, although it is updated again. *)
Example stopped_resolver_fails_outside :
  let records := [simple "out.nb" TypeCNAME "other.org."] in
  outcome (demo_update records NewResolver) (query "out.nb" TypeA) = [(RcodeSuccess, [RD_CNAME "other.org."; RD_A 167772161])]
  ∧ outcome (demo_update records (Stop (demo_update records NewResolver))) (query "out.nb" TypeA) = [(RcodeServerFailure, [RD_CNAME "other.org."])].
Proof. vm_compute. done. Qed.
