(* ===== verification/DnsServer.v ===== *)
(** The DNS server of the client: [src/client/internal/dns/server.go], with [host.go] and
    [hosts_dns_holder.go].

    The server turns the DNS configuration of a network map into handlers of the chain and records of
    the local resolver, and sets up the host.  Handlers in the chain are objects: the local resolver,
    upstream resolvers, numbered as they are made, and handlers of other parts of the client.  What
    the operating system and the network do during a call is an [Env]; the hashes of configurations
    and of upstream resolvers are parameters.  Reports to the status recorder and the files of the
    state manager are not modelled.  Go's maps are visited in the order of [map_to_list]; the entries
    of the chain under one pattern and priority do not depend on it. *)
From stdpp Require Import sorting.
From S2P Require Import Prelude GoText NetIP Domains AccountObjects RouteMap NetworkMap HandlerChain LocalResolver.
Open Scope Z_scope.

Definition RootZone : string := ".".
Definition DefaultPort : Z := 53.
Definition UDPNameServerType : Z := 1.
Abbreviation addrport := ((bool * Z) * Z)%type.
Definition AddrPort (ns : NameServer) : addrport := (srv_IP ns, srv_Port ns mod 2 ^ 16).

Inductive handler :=
| HLocal
| HUpstream (n : nat) (domain : string) (servers : list addrport)
| HOther (n : nat).
Record handlerWrapper := { hw_domain : string; hw_handler : handler; hw_priority : Z }.
Record nsGroupsByDomain := { gd_domain : string; gd_groups : list NameServerGroup }.
Record DomainConfig := { dc_Disabled : bool; dc_Domain : string; dc_MatchOnly : bool }.
Record HostDNSConfig := { hc_Domains : list DomainConfig; hc_RouteAll : bool; hc_ServerIP : option (bool * Z); hc_ServerPort : Z }.
Inductive hostManager := noopHostConfigurator | systemHostManager.
Record Env := {
  ev_Listen : bool; ev_initialize : bool; ev_netstack : bool; ev_android : bool;
  ev_RuntimeIP : option (bool * Z); ev_RuntimePort : Z;
  ev_supportCustomPort : bool; ev_applyDNSConfig : HostDNSConfig → bool;
  ev_getOriginalNameservers : option (list (bool * Z)) }.     (* [None]: the host manager does not keep them *)

Record DefaultServer := {
  ds_handlerChain : list (HandlerEntry handler);
  ds_dnsMuxMap : gmap string handlerWrapper;
  ds_localResolver : Resolver;
  ds_made : nat;                                              (* upstream resolvers made so far *)
  ds_stopped : gset nat;
  ds_hostsDNSHolder : gset addrport;
  ds_extraDomains : gmap string Z;
  ds_batchMode : bool;
  ds_hostManager : hostManager;
  ds_currentConfig : HostDNSConfig;
  ds_currentConfigHash : Z;
  ds_previousConfigHash : Z;
  ds_updateSerial : Z;
  ds_done : bool;                                             (* its context is cancelled *)
  ds_permanent : bool;
  ds_disableSys : bool }.

Definition MatchSubdomains (other : nat → bool) (h : handler) : bool := match h with HLocal | HUpstream _ _ _ => true | HOther n => other n end.

(** ** Setters *)
Definition with_chain (c : list (HandlerEntry handler)) (s : DefaultServer) : DefaultServer :=
  {| ds_handlerChain := c; ds_dnsMuxMap := ds_dnsMuxMap s; ds_localResolver := ds_localResolver s; ds_made := ds_made s; ds_stopped := ds_stopped s;
     ds_hostsDNSHolder := ds_hostsDNSHolder s; ds_extraDomains := ds_extraDomains s; ds_batchMode := ds_batchMode s; ds_hostManager := ds_hostManager s;
     ds_currentConfig := ds_currentConfig s; ds_currentConfigHash := ds_currentConfigHash s; ds_previousConfigHash := ds_previousConfigHash s;
     ds_updateSerial := ds_updateSerial s; ds_done := ds_done s; ds_permanent := ds_permanent s; ds_disableSys := ds_disableSys s |}.
Definition with_handlers (mux : gmap string handlerWrapper) (l : Resolver) (made : nat) (stopped : gset nat) (s : DefaultServer) : DefaultServer :=
  {| ds_handlerChain := ds_handlerChain s; ds_dnsMuxMap := mux; ds_localResolver := l; ds_made := made; ds_stopped := stopped;
     ds_hostsDNSHolder := ds_hostsDNSHolder s; ds_extraDomains := ds_extraDomains s; ds_batchMode := ds_batchMode s; ds_hostManager := ds_hostManager s;
     ds_currentConfig := ds_currentConfig s; ds_currentConfigHash := ds_currentConfigHash s; ds_previousConfigHash := ds_previousConfigHash s;
     ds_updateSerial := ds_updateSerial s; ds_done := ds_done s; ds_permanent := ds_permanent s; ds_disableSys := ds_disableSys s |}.
Definition with_domains (holder : gset addrport) (extra : gmap string Z) (batch : bool) (s : DefaultServer) : DefaultServer :=
  {| ds_handlerChain := ds_handlerChain s; ds_dnsMuxMap := ds_dnsMuxMap s; ds_localResolver := ds_localResolver s; ds_made := ds_made s; ds_stopped := ds_stopped s;
     ds_hostsDNSHolder := holder; ds_extraDomains := extra; ds_batchMode := batch; ds_hostManager := ds_hostManager s;
     ds_currentConfig := ds_currentConfig s; ds_currentConfigHash := ds_currentConfigHash s; ds_previousConfigHash := ds_previousConfigHash s;
     ds_updateSerial := ds_updateSerial s; ds_done := ds_done s; ds_permanent := ds_permanent s; ds_disableSys := ds_disableSys s |}.
Definition with_host (hm : hostManager) (c : HostDNSConfig) (hash : Z) (s : DefaultServer) : DefaultServer :=
  {| ds_handlerChain := ds_handlerChain s; ds_dnsMuxMap := ds_dnsMuxMap s; ds_localResolver := ds_localResolver s; ds_made := ds_made s; ds_stopped := ds_stopped s;
     ds_hostsDNSHolder := ds_hostsDNSHolder s; ds_extraDomains := ds_extraDomains s; ds_batchMode := ds_batchMode s; ds_hostManager := hm;
     ds_currentConfig := c; ds_currentConfigHash := hash; ds_previousConfigHash := ds_previousConfigHash s;
     ds_updateSerial := ds_updateSerial s; ds_done := ds_done s; ds_permanent := ds_permanent s; ds_disableSys := ds_disableSys s |}.
Definition with_serial (serial hash : Z) (s : DefaultServer) : DefaultServer :=
  {| ds_handlerChain := ds_handlerChain s; ds_dnsMuxMap := ds_dnsMuxMap s; ds_localResolver := ds_localResolver s; ds_made := ds_made s; ds_stopped := ds_stopped s;
     ds_hostsDNSHolder := ds_hostsDNSHolder s; ds_extraDomains := ds_extraDomains s; ds_batchMode := ds_batchMode s; ds_hostManager := ds_hostManager s;
     ds_currentConfig := ds_currentConfig s; ds_currentConfigHash := ds_currentConfigHash s; ds_previousConfigHash := hash;
     ds_updateSerial := serial; ds_done := ds_done s; ds_permanent := ds_permanent s; ds_disableSys := ds_disableSys s |}.
Definition with_done (s : DefaultServer) : DefaultServer :=
  {| ds_handlerChain := ds_handlerChain s; ds_dnsMuxMap := ds_dnsMuxMap s; ds_localResolver := ds_localResolver s; ds_made := ds_made s; ds_stopped := ds_stopped s;
     ds_hostsDNSHolder := ds_hostsDNSHolder s; ds_extraDomains := ds_extraDomains s; ds_batchMode := ds_batchMode s; ds_hostManager := ds_hostManager s;
     ds_currentConfig := ds_currentConfig s; ds_currentConfigHash := ds_currentConfigHash s; ds_previousConfigHash := ds_previousConfigHash s;
     ds_updateSerial := ds_updateSerial s; ds_done := true; ds_permanent := ds_permanent s; ds_disableSys := ds_disableSys s |}.
Definition newDefaultServer (permanent disableSys : bool) : DefaultServer :=
  {| ds_handlerChain := []; ds_dnsMuxMap := ∅; ds_localResolver := NewResolver; ds_made := 0; ds_stopped := ∅; ds_hostsDNSHolder := ∅;
     ds_extraDomains := ∅; ds_batchMode := false; ds_hostManager := noopHostConfigurator;
     ds_currentConfig := {| hc_Domains := []; hc_RouteAll := false; hc_ServerIP := None; hc_ServerPort := 0 |};
     ds_currentConfigHash := 2 ^ 64 - 1; ds_previousConfigHash := 0; ds_updateSerial := 0; ds_done := false;
     ds_permanent := permanent; ds_disableSys := disableSys |}.

Section server.
Context (Fqdn : string → string) (TypeString : Z → string) (NewRR : string → option RR) (other_subdomains : nat → bool).
Context (digest : string → list addrport → string) (hash_update : DNSConfig → option Z) (hash_host : HostDNSConfig → option Z).

(** ** Handlers *)
Definition addrport_le (a b : addrport) : Prop :=
  let size (v : bool) := if v then 128 else 32 in
  size a.1.1 < size b.1.1 ∨ size a.1.1 = size b.1.1 ∧ (a.1.2 < b.1.2 ∨ a.1.2 = b.1.2 ∧ a.2 ≤ b.2).
#[local] Instance addrport_le_dec : RelDecision addrport_le.
Proof. intros a b. unfold addrport_le. apply _. Defined.
Definition ID (h : handler) : string :=
  match h with
  | HLocal => "local-resolver"
  | HUpstream _ domain servers => "upstream-" +:+ digest domain (merge_sort addrport_le servers)
  | HOther n => ""
  end.
Definition stop_handler (h : handler) (s : DefaultServer) : DefaultServer :=
  match h with
  | HLocal => with_handlers (ds_dnsMuxMap s) (Stop (ds_localResolver s)) (ds_made s) (ds_stopped s) s
  | HUpstream n _ _ => with_handlers (ds_dnsMuxMap s) (ds_localResolver s) (ds_made s) ({[n]} ∪ ds_stopped s) s
  | HOther _ => s
  end.
Definition newUpstreamResolver (domain : string) (servers : list addrport) (s : DefaultServer) : handler * DefaultServer :=
  (HUpstream (ds_made s) domain servers, with_handlers (ds_dnsMuxMap s) (ds_localResolver s) (S (ds_made s)) (ds_stopped s) s).

Definition register_one (h : handler) (priority : Z) (s : DefaultServer) (domain : string) : DefaultServer :=
  if bool_decide (domain = "") then s
  else with_chain (AddHandler Fqdn (MatchSubdomains other_subdomains) domain h priority (ds_handlerChain s)) s.
Definition registerHandler (domains : list string) (h : handler) (priority : Z) (s : DefaultServer) : DefaultServer :=
  foldl (register_one h priority) s domains.
Definition deregister_one (priority : Z) (s : DefaultServer) (domain : string) : DefaultServer :=
  if bool_decide (domain = "") then s else with_chain (RemoveHandler Fqdn domain priority (ds_handlerChain s)) s.
Definition deregisterHandler (domains : list string) (priority : Z) (s : DefaultServer) : DefaultServer :=
  foldl (deregister_one priority) s domains.

Definition addHostRootZone (s : DefaultServer) : DefaultServer :=
  if bool_decide (ds_hostsDNSHolder s = ∅) then s
  else let '(h, s) := newUpstreamResolver RootZone (elements (ds_hostsDNSHolder s)) s in registerHandler [RootZone] h PriorityDefault s.
Definition OnUpdatedHostDNSServer (hostsDnsList : list addrport) (s : DefaultServer) : DefaultServer :=
  let s := with_domains (list_to_set hostsDnsList) (ds_extraDomains s) (ds_batchMode s) s in
  if existsb (λ w, bool_decide (hw_domain w = RootZone)) (map_to_list (ds_dnsMuxMap s)).*2 then s else addHostRootZone s.

(** ** The host *)
Definition dnsConfigToHostDNSConfig (c : DNSConfig) (ip : option (bool * Z)) (port : Z) : HostDNSConfig :=
  let groups := filter (λ g, ns_NameServers g ≠ []) (cfg_NameServerGroups c) in
  {| hc_Domains :=
       concat ((λ g, (λ d, {| dc_Disabled := false; dc_Domain := ToLower (Fqdn (domain_text d)); dc_MatchOnly := negb (ns_SearchDomainsEnabled g) |}) <$> ns_Domains g) <$> groups)
       ++ ((λ z, {| dc_Disabled := false; dc_Domain := ToLower (Fqdn (cz_Domain z)); dc_MatchOnly := cz_SearchDomainDisabled z |}) <$> CustomZones c);
     hc_RouteAll := existsb ns_Primary groups; hc_ServerIP := ip; hc_ServerPort := port |}.
Definition SearchDomains (s : DefaultServer) : list string :=
  dc_Domain <$> filter (λ d, dc_Disabled d = false ∧ dc_MatchOnly d = false) (hc_Domains (ds_currentConfig s)).
Definition getOriginalNameservers (ev : Env) (s : DefaultServer) : option (list (bool * Z)) :=
  match ds_hostManager s with noopHostConfigurator => None | systemHostManager => ev_getOriginalNameservers ev end.
Definition registerFallback (ev : Env) (config : HostDNSConfig) (s : DefaultServer) : DefaultServer :=
  match getOriginalNameservers ev s with
  | None => s
  | Some [] => deregisterHandler [RootZone] PriorityFallback s
  | Some originalNameservers =>
      let servers := (λ ns, (ns, DefaultPort)) <$> filter (λ ns, Some ns ≠ hc_ServerIP config) originalNameservers in
      let '(h, s) := newUpstreamResolver RootZone servers s in
      registerHandler [RootZone] h PriorityFallback s
  end.
Definition full_config (s : DefaultServer) : HostDNSConfig :=
  let config := ds_currentConfig s in
  let extra := filter (λ d, d ∉ dc_Domain <$> hc_Domains config) (map_to_list (ds_extraDomains s)).*1 in
  {| hc_Domains := hc_Domains config ++ ((λ d, {| dc_Disabled := false; dc_Domain := d; dc_MatchOnly := true |}) <$> extra);
     hc_RouteAll := hc_RouteAll config; hc_ServerIP := hc_ServerIP config; hc_ServerPort := hc_ServerPort config |}.
Definition applyHostConfig (ev : Env) (s : DefaultServer) : DefaultServer :=
  if ds_done s then s
  else
    let config := full_config s in
    let hash := hash_host config in
    if bool_decide (hash = Some (ds_currentConfigHash s)) then s
    else
      let applied := match ds_hostManager s with noopHostConfigurator => true | systemHostManager => ev_applyDNSConfig ev config end in
      if applied then
        registerFallback ev config (with_host (ds_hostManager s) (ds_currentConfig s) (default (ds_currentConfigHash s) hash) s)
      else s.

Definition enableDNS (ev : Env) (s : DefaultServer) : DefaultServer :=
  if negb (ev_Listen ev) then s
  else match ds_hostManager s with
  | systemHostManager => s
  | noopHostConfigurator =>
      if ds_disableSys s || ev_netstack ev then s
      else if bool_decide (ev_RuntimeIP ev = None) || negb (ev_initialize ev) then s
      else with_host systemHostManager (ds_currentConfig s) (ds_currentConfigHash s) s
  end.
Definition disableDNS (ev : Env) (s : DefaultServer) : DefaultServer :=
  match ds_hostManager s with
  | noopHostConfigurator => s
  | systemHostManager =>
      let s := match getOriginalNameservers ev s with
               | Some (_ :: _) => deregisterHandler [RootZone] PriorityFallback s
               | _ => s
               end in
      with_host noopHostConfigurator (ds_currentConfig s) (ds_currentConfigHash s) s
  end.
Definition Initialize (ev : Env) (s : DefaultServer) : DefaultServer :=
  match ds_hostManager s with
  | systemHostManager => s
  | noopHostConfigurator =>
      if ds_permanent s && negb (ev_Listen ev) then s
      else if ds_disableSys s || ev_netstack ev then s
      else if ev_initialize ev then with_host systemHostManager (ds_currentConfig s) (ds_currentConfigHash s) s else s
  end.
Definition Server_Stop (ev : Env) (s : DefaultServer) : DefaultServer :=
  let s := disableDNS ev (with_done s) in with_domains (ds_hostsDNSHolder s) ∅ (ds_batchMode s) s.

(** ** Handlers of other parts *)
Definition NormalizeZone (domain : string) : string := if String.prefix "*." domain then String.substring 2 (String.length domain - 2) domain else domain.
Definition toZone (d : string) : string := NormalizeZone (Fqdn (ToLower d)).
Definition apply_unless_batch (ev : Env) (s : DefaultServer) : DefaultServer := if ds_batchMode s then s else applyHostConfig ev s.
Definition RegisterHandler (ev : Env) (domains : list string) (h : handler) (priority : Z) (s : DefaultServer) : DefaultServer :=
  let s := registerHandler domains h priority s in
  let extra := foldl (λ m d, <[toZone d := default 0 (m !! toZone d) + 1]> m) (ds_extraDomains s) domains in
  apply_unless_batch ev (with_domains (ds_hostsDNSHolder s) extra (ds_batchMode s) s).
Definition DeregisterHandler (ev : Env) (domains : list string) (priority : Z) (s : DefaultServer) : DefaultServer :=
  let s := deregisterHandler domains priority s in
  let extra := foldl (λ m d, let n := default 0 (m !! toZone d) - 1 in if n <=? 0 then delete (toZone d) m else <[toZone d := n]> m) (ds_extraDomains s) domains in
  apply_unless_batch ev (with_domains (ds_hostsDNSHolder s) extra (ds_batchMode s) s).
Definition BeginBatch (s : DefaultServer) : DefaultServer := with_domains (ds_hostsDNSHolder s) (ds_extraDomains s) true s.
Definition CancelBatch (s : DefaultServer) : DefaultServer := with_domains (ds_hostsDNSHolder s) (ds_extraDomains s) false s.
Definition EndBatch (ev : Env) (s : DefaultServer) : DefaultServer := applyHostConfig ev (CancelBatch s).

(** ** The configuration of a network map *)
Definition buildLocalHandlerUpdate (customZones : list CustomZone) : list handlerWrapper * list CustomZone :=
  let zones := filter (λ z, cz_Records z ≠ []) customZones in
  ((λ z, {| hw_domain := cz_Domain z; hw_handler := HLocal; hw_priority := PriorityLocal |}) <$> zones,
   (λ z, {| cz_Domain := cz_Domain z; cz_Records := filter (λ r, rec_Class r = DefaultClass) (cz_Records z);
            cz_SearchDomainDisabled := cz_SearchDomainDisabled z; cz_NonAuthoritative := cz_NonAuthoritative z |}) <$> zones).

Definition add_group (g : NameServerGroup) (m : gmap string (list NameServerGroup)) (domain : string) : gmap string (list NameServerGroup) :=
  if bool_decide (domain = "") then m else <[domain := default [] (m !! domain) ++ [g]]> m.
Definition groupNSGroupsByDomain (nsGroups : list NameServerGroup) : list nsGroupsByDomain :=
  let domainMap := foldl (λ m g, if ns_Primary g then add_group g m RootZone else foldl (add_group g) m (domain_text <$> ns_Domains g)) ∅ nsGroups in
  (λ x, {| gd_domain := x.1; gd_groups := x.2 |}) <$> map_to_list domainMap.
Definition leaksPriority (basePriority priority : Z) : bool :=
  (basePriority =? PriorityUpstream) && (priority <=? PriorityDefault) || (basePriority =? PriorityDefault) && (priority <=? PriorityFallback).
Definition upstream_servers (ev : Env) (nsGroup : NameServerGroup) : list addrport :=
  AddrPort <$> filter (λ ns, srv_NSType ns = UDPNameServerType ∧ Some (srv_IP ns) ≠ ev_RuntimeIP ev) (ns_NameServers nsGroup).
Fixpoint create_loop (ev : Env) (domain : string) (basePriority : Z) (i : Z) (groups : list NameServerGroup) (s : DefaultServer) : list handlerWrapper * DefaultServer :=
  match groups with
  | [] => ([], s)
  | nsGroup :: groups =>
      let priority := basePriority - i in
      if leaksPriority basePriority priority then ([], s)
      else
        let servers := upstream_servers ev nsGroup in
        let '(h, s) := newUpstreamResolver domain servers s in
        match servers with
        | [] => create_loop ev domain basePriority (i + 1) groups (stop_handler h s)
        | _ =>
            let '(updates, s) := create_loop ev domain basePriority (i + 1) groups s in
            ({| hw_domain := domain; hw_handler := h; hw_priority := priority |} :: updates, s)
        end
  end.
Definition createHandlersForDomainGroup (ev : Env) (domainGroup : nsGroupsByDomain) (basePriority : Z) (s : DefaultServer) : list handlerWrapper * DefaultServer :=
  create_loop ev (gd_domain domainGroup) basePriority 0 (gd_groups domainGroup) s.
(** A group with servers that is neither primary nor for a domain, or is for the empty domain. *)
Definition bad_group (g : NameServerGroup) : bool :=
  match ns_NameServers g with
  | [] => false
  | _ => negb (ns_Primary g) && bool_decide (ns_Domains g = []) || bool_decide ([] ∈ ns_Domains g)
  end.
Fixpoint create_all (ev : Env) (groups : list nsGroupsByDomain) (s : DefaultServer) : list handlerWrapper * DefaultServer :=
  match groups with
  | [] => ([], s)
  | g :: groups =>
      let basePriority := if bool_decide (gd_domain g = RootZone) then PriorityDefault else PriorityUpstream in
      let '(updates, s) := createHandlersForDomainGroup ev g basePriority s in
      let '(updates', s) := create_all ev groups s in
      (updates ++ updates', s)
  end.
Definition buildUpstreamHandlerUpdate (ev : Env) (nameServerGroups : list NameServerGroup) (s : DefaultServer) : option (list handlerWrapper * DefaultServer) :=
  if existsb bad_group nameServerGroups then None else Some (create_all ev (groupNSGroupsByDomain nameServerGroups) s).

Definition mux_remove (s : DefaultServer) (existing : handlerWrapper) : DefaultServer :=
  stop_handler (hw_handler existing) (deregisterHandler [hw_domain existing] (hw_priority existing) s).
Definition mux_add (s : DefaultServer) (update : handlerWrapper) : DefaultServer :=
  registerHandler [hw_domain update] (hw_handler update) (hw_priority update) s.
Definition is_root (w : handlerWrapper) : bool := bool_decide (hw_domain w = RootZone).
Definition updateMux (muxUpdates : list handlerWrapper) (s0 : DefaultServer) : DefaultServer :=
  let existing := (map_to_list (ds_dnsMuxMap s0)).*2 in
  let s := foldl mux_add (foldl mux_remove s0 existing) muxUpdates in
  let s := if negb (existsb is_root muxUpdates) && existsb is_root existing then addHostRootZone s else s in
  let muxUpdateMap := foldl (λ m u, <[ID (hw_handler u) := u]> m) ∅ muxUpdates in
  with_handlers muxUpdateMap (ds_localResolver s) (ds_made s) (ds_stopped s) s.

Definition applyConfiguration (ev : Env) (update : DNSConfig) (s : DefaultServer) : DefaultServer * bool :=
  let s := if ServiceEnable update then enableDNS ev s else if negb (ds_permanent s) then disableDNS ev s else s in
  let '(localMuxUpdates, localZones) := buildLocalHandlerUpdate (CustomZones update) in
  match buildUpstreamHandlerUpdate ev (cfg_NameServerGroups update) s with
  | None => (s, false)
  | Some (upstreamMuxUpdates, s) =>
      let s := updateMux (localMuxUpdates ++ upstreamMuxUpdates) s in
      let s := with_handlers (ds_dnsMuxMap s) (Update Fqdn TypeString NewRR localZones (ds_localResolver s)) (ds_made s) (ds_stopped s) s in
      let config := dnsConfigToHostDNSConfig update (ev_RuntimeIP ev) (ev_RuntimePort ev) in
      let supportCustomPort := match ds_hostManager s with noopHostConfigurator => true | systemHostManager => ev_supportCustomPort ev end in
      let config := if negb (ev_RuntimePort ev =? DefaultPort) && negb supportCustomPort
                    then {| hc_Domains := hc_Domains config; hc_RouteAll := false; hc_ServerIP := hc_ServerIP config; hc_ServerPort := hc_ServerPort config |}
                    else config in
      (applyHostConfig ev (with_host (ds_hostManager s) config (ds_currentConfigHash s) s), true)
  end.
Definition UpdateDNSServer (ev : Env) (serial : Z) (update : DNSConfig) (s : DefaultServer) : DefaultServer * bool :=
  if ds_done s then (s, false)
  else if serial <? ds_updateSerial s then (s, false)
  else
    let hash := default 0 (hash_update update) in
    if ds_previousConfigHash s =? hash then (with_serial serial (ds_previousConfigHash s) s, true)
    else
      let '(s, ok) := applyConfiguration ev update s in
      if ok then (with_serial serial hash s, true) else (s, false).

(** ** Upstreams that fail *)
Definition with_config (c : HostDNSConfig) (s : DefaultServer) : DefaultServer := with_host (ds_hostManager s) c (ds_currentConfigHash s) s.
Definition set_Disabled (b : bool) (d : DomainConfig) : DomainConfig := {| dc_Disabled := b; dc_Domain := dc_Domain d; dc_MatchOnly := dc_MatchOnly d |}.
Definition set_Domains (ds : list DomainConfig) (c : HostDNSConfig) : HostDNSConfig :=
  {| hc_Domains := ds; hc_RouteAll := hc_RouteAll c; hc_ServerIP := hc_ServerIP c; hc_ServerPort := hc_ServerPort c |}.
Definition set_RouteAll (b : bool) (c : HostDNSConfig) : HostDNSConfig :=
  {| hc_Domains := hc_Domains c; hc_RouteAll := b; hc_ServerIP := hc_ServerIP c; hc_ServerPort := hc_ServerPort c |}.
Definition disable_domain (priority : Z) (st : DefaultServer * gmap string Z) (x : nat * DomainConfig) : DefaultServer * gmap string Z :=
  let '(s, removeIndex) := st in
  match removeIndex !! dc_Domain x.2 with
  | None => (s, removeIndex)
  | Some _ =>
      let s := with_config (set_Domains (<[x.1 := set_Disabled true x.2]> (hc_Domains (ds_currentConfig s))) (ds_currentConfig s)) s in
      (deregisterHandler [dc_Domain x.2] priority s, <[dc_Domain x.2 := Z.of_nat x.1]> removeIndex)
  end.
Definition deactivate (ev : Env) (nsGroup : NameServerGroup) (priority : Z) (s : DefaultServer) : DefaultServer * gmap string Z :=
  let removeIndex : gmap string Z := foldl (λ m d, <[domain_text d := -1]> m) ∅ (ns_Domains nsGroup) in
  let '(s, removeIndex) :=
    if ns_Primary nsGroup
    then (deregisterHandler [RootZone] priority (with_config (set_RouteAll false (ds_currentConfig s)) s), <[RootZone := -1]> removeIndex)
    else (s, removeIndex) in
  let '(s, removeIndex) := foldl (disable_domain priority) (s, removeIndex) (imap pair (hc_Domains (ds_currentConfig s))) in
  let s := applyHostConfig ev s in
  let s := if ev_android ev && ns_Primary nsGroup && negb (bool_decide (ds_hostsDNSHolder s = ∅)) then addHostRootZone s else s in
  (s, removeIndex).
Definition enable_domain (h : handler) (priority : Z) (s : DefaultServer) (x : string * Z) : DefaultServer :=
  let '(domain, i) := x in
  match (if i =? -1 then None else hc_Domains (ds_currentConfig s) !! Z.to_nat i) with
  | None => s
  | Some d =>
      if bool_decide (dc_Domain d = domain)
      then registerHandler [domain] h priority
             (with_config (set_Domains (<[Z.to_nat i := set_Disabled false d]> (hc_Domains (ds_currentConfig s))) (ds_currentConfig s)) s)
      else s
  end.
Definition reactivate (ev : Env) (nsGroup : NameServerGroup) (h : handler) (priority : Z) (removeIndex : gmap string Z) (s : DefaultServer) : DefaultServer :=
  let s := foldl (enable_domain h priority) s (map_to_list removeIndex) in
  let s := if ns_Primary nsGroup then registerHandler [RootZone] h priority (with_config (set_RouteAll true (ds_currentConfig s)) s) else s in
  applyHostConfig ev s.

(** ** What an operation does to the handlers of the local resolver *)
Abbreviation implements := (implements (MatchSubdomains other_subdomains)).
Abbreviation table := (gmap (string * Z) handler).
Definition local_part (t t' : table) : Prop := ∀ p, t' !! (p, PriorityLocal) = t !! (p, PriorityLocal).
(** The operation leaves the local resolver and its registrations alone. *)
Definition keeps (s s' : DefaultServer) : Prop :=
  ds_localResolver s' = ds_localResolver s
  ∧ ∀ t, implements (ds_handlerChain s) t → ∃ t', implements (ds_handlerChain s') t' ∧ local_part t t'.
#[local] Instance keeps_preorder : PreOrder keeps.
Proof using Type.
  split; [intros s; split; [done|]; intros t ?; by exists t|]. intros s1 s2 s3 [E1 H1] [E2 H2]. split; [by rewrite E2|].
  intros t (t1 & [(t2 & ? & Hp)%H2 Hp1])%H1. exists t2. split; [done|]. intros p. by rewrite Hp, Hp1.
Qed.
Lemma keeps_foldl {A} (f : DefaultServer → A → DefaultServer) l s : (∀ s x, x ∈ l → keeps s (f s x)) → keeps s (foldl f s l).
Proof using Type.
  revert s. induction l as [|x l IH]; intros s Hf; cbn [foldl]; [done|]. transitivity (f s x); [apply Hf; by left|]. apply IH. intros ? ? ?. apply Hf. by right.
Qed.
Lemma keeps_register domains h prio s : prio ≠ PriorityLocal → keeps s (registerHandler domains h prio s).
Proof using Type.
  intros Hp. apply keeps_foldl. clear s. intros s d _. unfold register_one. destruct (bool_decide (d = "")); [done|]. split; [done|]. intros t Ht.
  eexists. split; [by apply AddHandler_implements|]. intros p. rewrite lookup_insert_ne by congruence. done.
Qed.
Lemma keeps_deregister domains prio s : prio ≠ PriorityLocal → keeps s (deregisterHandler domains prio s).
Proof using Type.
  intros Hp. apply keeps_foldl. clear s. intros s d _. unfold deregister_one. destruct (bool_decide (d = "")); [done|]. split; [done|]. intros t Ht.
  eexists. split; [by apply RemoveHandler_implements|]. intros p. rewrite lookup_delete_ne by congruence. done.
Qed.
(** The fields beside these two do not matter. *)
Lemma keeps_fields s s' : ds_handlerChain s' = ds_handlerChain s → ds_localResolver s' = ds_localResolver s → keeps s s'.
Proof using Type. intros E1 E2. split; [done|]. intros t ?. exists t. by rewrite E1. Qed.
Lemma keeps_then s s1 s' : ds_handlerChain s1 = ds_handlerChain s → ds_localResolver s1 = ds_localResolver s → keeps s1 s' → keeps s s'.
Proof using Type. intros ? ?. transitivity s1; [by apply keeps_fields|done]. Qed.
Lemma keeps_fallback ev c s : keeps s (registerFallback ev c s).
Proof using Type.
  unfold registerFallback. destruct (getOriginalNameservers ev s) as [[|x l]|]; [by apply keeps_deregister| |done].
  cbn [newUpstreamResolver]. eapply keeps_then; [| |by apply keeps_register]; done.
Qed.
Lemma keeps_applyHostConfig ev s : keeps s (applyHostConfig ev s).
Proof using Type.
  unfold applyHostConfig. destruct (ds_done s); [done|]. destruct (bool_decide _); [done|]. destruct (match ds_hostManager s with noopHostConfigurator => _ | _ => _ end); [|done].
  eapply keeps_then; [| |apply keeps_fallback]; done.
Qed.
Lemma keeps_addHostRootZone s : keeps s (addHostRootZone s).
Proof using Type. unfold addHostRootZone. destruct (bool_decide _); [done|]. cbn [newUpstreamResolver]. eapply keeps_then; [| |by apply keeps_register]; done. Qed.
Lemma keeps_enable ev s : keeps s (enableDNS ev s).
Proof using Type.
  unfold enableDNS. destruct (negb _); [done|]. destruct (ds_hostManager s); [|done]. destruct (_ || _); [done|]. destruct (_ || _); [done|]. by apply keeps_fields.
Qed.
Lemma keeps_disable ev s : keeps s (disableDNS ev s).
Proof using Type.
  unfold disableDNS. destruct (ds_hostManager s); [done|]. destruct (getOriginalNameservers ev s) as [[|x l]|]; [by apply keeps_fields| |by apply keeps_fields].
  transitivity (deregisterHandler [RootZone] PriorityFallback s); [by apply keeps_deregister|by apply keeps_fields].
Qed.
Lemma keeps_batch ev s : keeps s (apply_unless_batch ev s).
Proof using Type. unfold apply_unless_batch. destruct (ds_batchMode s); [done|apply keeps_applyHostConfig]. Qed.
Lemma keeps_RegisterHandler ev domains h prio s : prio ≠ PriorityLocal → keeps s (RegisterHandler ev domains h prio s).
Proof using Type.
  intros Hp. unfold RegisterHandler. transitivity (registerHandler domains h prio s); [by apply keeps_register|]. eapply keeps_then; [| |apply keeps_batch]; done.
Qed.
Lemma keeps_DeregisterHandler ev domains prio s : prio ≠ PriorityLocal → keeps s (DeregisterHandler ev domains prio s).
Proof using Type.
  intros Hp. unfold DeregisterHandler. transitivity (deregisterHandler domains prio s); [by apply keeps_deregister|]. eapply keeps_then; [| |apply keeps_batch]; done.
Qed.
Lemma keeps_deactivate ev g prio s : prio ≠ PriorityLocal → keeps s (deactivate ev g prio s).1.
Proof using Type.
  intros Hp. unfold deactivate. set (st := if ns_Primary g then _ else _). assert (H1 : keeps s st.1).
  { unfold st. destruct (ns_Primary g); [|done]. eapply keeps_then; [| |by apply keeps_deregister]; done. }
  destruct st as [s1 idx]. cbn [fst] in H1. assert (H2 : ∀ l s i, keeps s (foldl (disable_domain prio) (s, i) l).1).
  { clear -Hp. induction l as [|x l IH]; intros s i; cbn [foldl]; [done|]. unfold disable_domain at 2. destruct (i !! dc_Domain x.2); [|apply IH].
    etransitivity; [|apply IH]. eapply keeps_then; [| |by apply keeps_deregister]; done. }
  specialize (H2 (imap pair (hc_Domains (ds_currentConfig s1))) s1 idx). destruct (foldl _ _ _) as [s2 idx2]. cbn [fst] in *.
  transitivity s1; [done|]. transitivity s2; [done|]. transitivity (applyHostConfig ev s2); [apply keeps_applyHostConfig|].
  destruct (_ && _ && _); [apply keeps_addHostRootZone|done].
Qed.
Lemma keeps_reactivate ev g h prio idx s : prio ≠ PriorityLocal → keeps s (reactivate ev g h prio idx s).
Proof using Type.
  intros Hp. unfold reactivate. set (s1 := foldl _ s _). assert (H1 : keeps s s1).
  { apply keeps_foldl. clear -Hp. intros s [d i] _. unfold enable_domain. destruct (if i =? -1 then None else _) as [x|]; [|done].
    destruct (bool_decide _); [|done]. eapply keeps_then; [| |by apply keeps_register]; done. }
  transitivity s1; [done|]. etransitivity; [|apply keeps_applyHostConfig]. destruct (ns_Primary g); [|done]. eapply keeps_then; [| |by apply keeps_register]; done.
Qed.

(** ** A configuration takes effect *)
(** Under the priority of the local resolver only it is registered. *)
Definition only_local (t : table) : Prop := ∀ p h, t !! (p, PriorityLocal) = Some h → h = HLocal.
Definition sound (s : DefaultServer) : Prop := ∃ t, implements (ds_handlerChain s) t ∧ only_local t.
Lemma keeps_sound s s' : keeps s s' → sound s → sound s'.
Proof using Type. intros [_ Hk] (t & (t' & Ht' & Hp)%Hk & Ho). exists t'. split; [done|]. intros p h. rewrite Hp. apply Ho. Qed.
(** The wrappers [updateMux] is called with. *)
Definition upstream_wrapper (w : handlerWrapper) : Prop := hw_priority w ≤ PriorityUpstream.
Lemma create_loop_keeps ev domain base i groups s : 0 ≤ i → base ≤ PriorityUpstream →
  keeps s (create_loop ev domain base i groups s).2 ∧ Forall upstream_wrapper (create_loop ev domain base i groups s).1.
Proof using Type.
  intros Hi Hb. revert i s Hi. induction groups as [|g groups IH]; intros i s Hi; cbn [create_loop]; [by split|].
  destruct (leaksPriority _ _); [by split|]. cbn [newUpstreamResolver]. destruct (upstream_servers ev g) as [|a l].
  - cbn [stop_handler]. destruct (IH (i + 1) (stop_handler (HUpstream (ds_made s) domain [])
      (newUpstreamResolver domain [] s).2) ltac:(lia)) as [H1 H2]. split; [|done]. eapply keeps_then; [| |exact H1]; done.
  - destruct (IH (i + 1) (newUpstreamResolver domain (a :: l) s).2 ltac:(lia)) as [H1 H2]. cbn [newUpstreamResolver snd] in H1, H2.
    destruct (create_loop _ _ _ _ _ _) as [us s']. cbn [fst snd] in *. split; [eapply keeps_then; [| |exact H1]; done|].
    constructor; [|done]. unfold upstream_wrapper. cbn. lia.
Qed.
Lemma create_all_keeps ev groups s : keeps s (create_all ev groups s).2 ∧ Forall upstream_wrapper (create_all ev groups s).1.
Proof using Type.
  revert s. induction groups as [|g groups IH]; intros s; cbn [create_all]; [by split|]. unfold createHandlersForDomainGroup.
  set (base := if bool_decide (gd_domain g = RootZone) then PriorityDefault else PriorityUpstream). assert (Hb : base ≤ PriorityUpstream) by (unfold base; destruct (bool_decide _); done).
  destruct (create_loop_keeps ev (gd_domain g) base 0 (gd_groups g) s ltac:(done) Hb) as [H1 H2].
  destruct (create_loop _ _ _ _ _ _) as [us s1]. destruct (IH s1) as [H3 H4]. destruct (create_all _ _ _) as [us' s2]. cbn [fst snd] in *.
  split; [by transitivity s1|by apply Forall_app].
Qed.
(** Taking the old handlers out of the chain. *)
Lemma sound_remove s w : sound s → sound (mux_remove s w).
Proof using Type.
  intros (t & Ht & Ho). unfold mux_remove, deregisterHandler. cbn [foldl]. unfold deregister_one.
  assert (Hs : ∀ h s', ds_handlerChain (stop_handler h s') = ds_handlerChain s') by (by intros []). unfold sound. rewrite Hs.
  destruct (bool_decide _); [by exists t|]. eexists. split; [by apply RemoveHandler_implements|]. intros p h [_ ?]%lookup_delete_Some. by eapply Ho.
Qed.
Lemma sound_removes ws s : sound s → sound (foldl mux_remove s ws).
Proof using Type. revert s. induction ws as [|w ws IH]; intros s Hs; cbn [foldl]; [done|]. by apply IH, sound_remove. Qed.
(** Registering the zones. *)
Definition registered_zones (zones : list CustomZone) (s : DefaultServer) : Prop :=
  ∃ t, implements (ds_handlerChain s) t ∧ only_local t
    ∧ ∀ z, z ∈ zones → cz_Domain z ≠ "" → t !! (ToLower (Fqdn (cz_Domain z)), PriorityLocal) = Some HLocal.
Lemma keeps_zones zones s s' : keeps s s' → registered_zones zones s → registered_zones zones s'.
Proof using Type.
  intros [_ Hk] (t & (t' & Ht' & Hp)%Hk & Ho & Hz). exists t'. split; [done|]. split; [intros p h; rewrite Hp; apply Ho|]. intros z. rewrite Hp. apply Hz.
Qed.
Lemma add_zones zones done_ s : registered_zones done_ s →
  registered_zones (done_ ++ zones) (foldl mux_add s ((λ z, {| hw_domain := cz_Domain z; hw_handler := HLocal; hw_priority := PriorityLocal |}) <$> zones)).
Proof using Type.
  revert done_ s. induction zones as [|z zones IH]; intros ds s Hs; cbn [fmap list_fmap foldl]; [by rewrite app_nil_r|].
  replace (ds ++ z :: zones) with ((ds ++ [z]) ++ zones) by (by rewrite <- app_assoc). apply IH. clear IH. destruct Hs as (t & Ht & Ho & Hz).
  unfold mux_add, registerHandler. cbn [foldl hw_domain hw_handler hw_priority]. unfold register_one. destruct (decide (cz_Domain z = "")) as [E|Hne].
  - rewrite bool_decide_eq_true_2 by done. exists t. split; [done|]. split; [done|]. intros z' [?|Ez%list_elem_of_singleton]%elem_of_app ?; [by apply Hz|by subst z'].
  - rewrite bool_decide_eq_false_2 by done. eexists. split; [by apply AddHandler_implements|]. split.
    + intros p h [[_ <-]|[_ ?]]%lookup_insert_Some; [done|by eapply Ho].
    + intros z' [Hin|Ez%list_elem_of_singleton]%elem_of_app Hd; [|subst z'; by apply lookup_insert_eq]. apply lookup_insert_Some.
      destruct (decide ((ToLower (Fqdn (cz_Domain z)), PriorityLocal) = (ToLower (Fqdn (cz_Domain z')), PriorityLocal))); [by left|right; split; [done|by apply Hz]].
Qed.
Definition served_zones (customZones : list CustomZone) : list CustomZone := filter (λ z, cz_Records z ≠ []) customZones.
Definition local_zones (customZones : list CustomZone) : list CustomZone := (buildLocalHandlerUpdate customZones).2.
Lemma updateMux_zones customZones us s : sound s → Forall upstream_wrapper us →
  registered_zones (served_zones customZones) (updateMux ((buildLocalHandlerUpdate customZones).1 ++ us) s).
Proof using Type.
  intros Hs Hu. unfold updateMux. set (root := negb _ && _). cbn [buildLocalHandlerUpdate fst]. fold (served_zones customZones). rewrite !(foldl_app mux_add).
  set (s1 := foldl mux_remove s _). assert (H1 : registered_zones [] s1).
  { destruct (sound_removes (map_to_list (ds_dnsMuxMap s)).*2 s Hs) as (t & Ht & Ho). exists t. split; [done|]. split; [done|]. by intros z ?%not_elem_of_nil. }
  apply (add_zones (served_zones customZones)) in H1. cbn [app] in H1. set (s2 := foldl mux_add s1 _) in *.
  assert (H2 : keeps s2 (foldl mux_add s2 us)).
  { apply keeps_foldl. intros s' w Hw. rewrite Forall_forall in Hu. specialize (Hu w Hw). apply keeps_register. unfold upstream_wrapper, PriorityUpstream in Hu. unfold PriorityLocal. lia. }
  set (s3 := foldl mux_add s2 us) in *. assert (H3 : registered_zones (served_zones customZones) s3) by (by eapply keeps_zones).
  destruct root; [|exact H3]. exact (keeps_zones _ s3 (addHostRootZone s3) (keeps_addHostRootZone s3) H3).
Qed.
(** The state after a configuration was applied: its zones are registered, and its records are in the
    local resolver. *)
Definition configured (customZones : list CustomZone) (s : DefaultServer) : Prop :=
  registered_zones (served_zones customZones) s
  ∧ holds (entries Fqdn TypeString NewRR (local_zones customZones)) (zone_map Fqdn (local_zones customZones)) (ds_localResolver s).
Lemma keeps_configured zones s s' : keeps s s' → configured zones s → configured zones s'.
Proof using Type. intros Hk [H1 H2]. split; [by eapply keeps_zones|]. destruct Hk as [-> _]. done. Qed.
Lemma configured_sound zones s : configured zones s → sound s.
Proof using Type. intros [(t & ? & ? & _) _]. by exists t. Qed.
Lemma applyConfiguration_spec ev update s s' ok : sound s → applyConfiguration ev update s = (s', ok) →
  if ok then configured (CustomZones update) s' else keeps s s'.
Proof using Type.
  intros Hs. unfold applyConfiguration. set (s1 := if ServiceEnable update then _ else _).
  assert (H1 : keeps s s1) by (unfold s1; destruct (ServiceEnable update); [apply keeps_enable|destruct (negb _); [apply keeps_disable|done]]).
  destruct (buildLocalHandlerUpdate (CustomZones update)) as [lus lz] eqn:El. unfold buildUpstreamHandlerUpdate. destruct (existsb bad_group _); [by intros [= <- <-]|].
  destruct (create_all_keeps ev (groupNSGroupsByDomain (cfg_NameServerGroups update)) s1) as [H2 H3]. destruct (create_all _ _ _) as [us s2]. cbn [fst snd] in *.
  intros [= <- <-]. eapply keeps_configured; [apply keeps_applyHostConfig|]. split.
  - replace lus with (buildLocalHandlerUpdate (CustomZones update)).1 by (by rewrite El).
    apply (updateMux_zones (CustomZones update) us s2); [|done]. eapply keeps_sound; [exact H2|]. by eapply keeps_sound.
  - cbn [with_host with_handlers ds_localResolver]. unfold local_zones. rewrite El. apply Update_holds.
Qed.

(** ** Queries *)
Section queries.
Context {X : Type} (LookupNetIP : bool → string → string → list addr + lookup_error) (ext : handler → Request → X → X * list (Reply RR)).

(** A stopped upstream resolver writes nothing; a running one, and the handlers of other parts, do
    what [ext] says. *)
Definition serve_handler (stopped : gset nat) (h : handler) (r : Request) (w : Resolver * X) : (Resolver * X) * list (Reply RR) :=
  match h with
  | HLocal => let '(l, out) := LocalResolver.ServeDNS Fqdn LookupNetIP w.1 r in ((l, w.2), out)
  | HUpstream n _ _ => if bool_decide (n ∈ stopped) then (w, []) else let '(x, out) := ext h r w.2 in ((w.1, x), out)
  | HOther _ => let '(x, out) := ext h r w.2 in ((w.1, x), out)
  end.
Definition with_resolver (l : Resolver) (s : DefaultServer) : DefaultServer := with_handlers (ds_dnsMuxMap s) l (ds_made s) (ds_stopped s) s.
Definition answer (r : Request) (st : DefaultServer * X) : (DefaultServer * X) * list (Reply RR) :=
  let '(w, out) := HandlerChain.ServeDNS (serve_handler (ds_stopped st.1)) (ds_handlerChain st.1) r (ds_localResolver st.1, st.2) in
  ((with_resolver w.1 st.1, w.2), out).

Inductive server_op :=
| OpUpdate (ev : Env) (serial : Z) (update : DNSConfig)
| OpRegister (ev : Env) (domains : list string) (h : handler) (priority : Z)
| OpDeregister (ev : Env) (domains : list string) (priority : Z)
| OpBeginBatch | OpCancelBatch | OpEndBatch (ev : Env)
| OpHostDNS (servers : list addrport)
| OpDeactivate (ev : Env) (g : NameServerGroup) (priority : Z)
| OpReactivate (ev : Env) (g : NameServerGroup) (h : handler) (priority : Z) (removeIndex : gmap string Z)
| OpInitialize (ev : Env) | OpStop (ev : Env)
| OpQuery (r : Request).
Definition server_step (st : DefaultServer * X) (o : server_op) : DefaultServer * X :=
  let '(s, x) := st in
  match o with
  | OpUpdate ev serial update => ((UpdateDNSServer ev serial update s).1, x)
  | OpRegister ev domains h priority => (RegisterHandler ev domains h priority s, x)
  | OpDeregister ev domains priority => (DeregisterHandler ev domains priority s, x)
  | OpBeginBatch => (BeginBatch s, x)
  | OpCancelBatch => (CancelBatch s, x)
  | OpEndBatch ev => (EndBatch ev s, x)
  | OpHostDNS servers => (OnUpdatedHostDNSServer servers s, x)
  | OpDeactivate ev g priority => ((deactivate ev g priority s).1, x)
  | OpReactivate ev g h priority removeIndex => (reactivate ev g h priority removeIndex s, x)
  | OpInitialize ev => (Initialize ev s, x)
  | OpStop ev => (Server_Stop ev s, x)
  | OpQuery r => (answer r st).1
  end.
(** Other parts of the client and the upstream resolvers do not use the priority of the local one. *)
Definition op_ok (o : server_op) : Prop :=
  match o with
  | OpRegister _ _ _ p | OpDeregister _ _ p | OpDeactivate _ _ p | OpReactivate _ _ _ p _ => p ≠ PriorityLocal
  | _ => True
  end.
Definition no_update (o : server_op) : Prop := match o with OpUpdate _ _ _ => False | _ => True end.

(** A query changes the order of records at most. *)
Lemma dispatch_holds es zs stopped qname r mx l w :
  holds es zs w.1 → holds es zs (dispatch_loop (serve_handler stopped) qname r mx l w).1.1.1.
Proof using Type.
  revert w. induction l as [|e l IH]; intros w Hw; cbn [dispatch_loop]; [done|]. destruct (_ || _); [by apply IH|].
  assert (Hs : holds es zs (serve_handler stopped (he_Handler e) r w).1.1).
  { clear -Hw. destruct (he_Handler e) as [|n ? ?|n]; cbn [serve_handler].
    - pose proof (ServeDNS_holds Fqdn LookupNetIP es zs w.1 r Hw). by destruct (LocalResolver.ServeDNS _ _ _ _).
    - destruct (bool_decide _); [done|]. by destruct (ext _ _ _).
    - by destruct (ext _ _ _). }
  destruct (serve_handler _ _ _ _) as [w1 writes]. cbn [fst] in Hs. destruct (existsb _ writes); [|done].
  specialize (IH w1 Hs). by destruct (dispatch_loop _ _ _ _ _ _) as [[w2 out] asked].
Qed.
Lemma configured_query zones r st : configured zones st.1 → configured zones (answer r st).1.1.
Proof using Type.
  intros [Hr Hh]. unfold answer, HandlerChain.ServeDNS, dispatch. destruct (r_Question r) as [|q ?]; [by split|].
  pose proof (dispatch_holds _ _ (ds_stopped st.1) (ToLower (Name q)) r MaxInt (ds_handlerChain st.1) (ds_localResolver st.1, st.2) Hh) as Hd.
  destruct (dispatch_loop _ _ _ _ _ _) as [[w out] asked]. by split.
Qed.
Lemma sound_query r st : sound st.1 → sound (answer r st).1.1.
Proof using Type. intros (t & Ht & Ho). exists t. unfold answer. destruct (HandlerChain.ServeDNS _ _ _ _) as [w out]. done. Qed.
(** ** Any operations *)
Definition is_query (o : server_op) : option Request := match o with OpQuery r => Some r | _ => None end.
Lemma step_keeps st o : op_ok o → no_update o → is_query o = None → keeps st.1 (server_step st o).1.
Proof using Type.
  destruct st as [s x]. intros Ho Hn Hq. destruct o; try done; cbn [server_step fst op_ok] in *.
  - by apply keeps_RegisterHandler.
  - by apply keeps_DeregisterHandler.
  - by apply keeps_fields.
  - by apply keeps_fields.
  - eapply keeps_then; [| |apply keeps_applyHostConfig]; done.
  - unfold OnUpdatedHostDNSServer. destruct (existsb _ _); [by apply keeps_fields|]. eapply keeps_then; [| |apply keeps_addHostRootZone]; done.
  - by apply keeps_deactivate.
  - by apply keeps_reactivate.
  - unfold Initialize. destruct (ds_hostManager s); [|done]. destruct (_ && _); [done|]. destruct (_ || _); [done|]. destruct (ev_initialize ev); [by apply keeps_fields|done].
  - unfold Server_Stop. transitivity (disableDNS ev (with_done s)); [|by apply keeps_fields]. eapply keeps_then; [| |apply keeps_disable]; done.
Qed.
Lemma UpdateDNSServer_sound ev serial update s : sound s → sound (UpdateDNSServer ev serial update s).1.
Proof using Type.
  intros Hs. unfold UpdateDNSServer. destruct (ds_done s); [done|]. destruct (serial <? _); [done|]. destruct (_ =? _); [done|].
  destruct (applyConfiguration ev update s) as [s' ok] eqn:E. apply applyConfiguration_spec in E; [|done].
  destruct ok; [exact (configured_sound _ _ E)|by eapply keeps_sound].
Qed.
Lemma step_sound st o : op_ok o → sound st.1 → sound (server_step st o).1.
Proof using Type.
  intros Ho Hs. destruct (is_query o) as [r|] eqn:Eq.
  { destruct st, o; try done. injection Eq as ->. by apply sound_query. }
  destruct o as [ev serial update| | | | | | | | | | |]; [destruct st; by apply UpdateDNSServer_sound|..]; (eapply keeps_sound; [|exact Hs]; by apply step_keeps).
Qed.
Lemma steps_sound ops st : Forall op_ok ops → sound st.1 → sound (foldl server_step st ops).1.
Proof using Type. revert st. induction ops as [|o ops IH]; intros st Ho Hs; cbn [foldl]; [done|]. apply Forall_cons in Ho as [? ?]. by apply IH, step_sound. Qed.
Lemma steps_configured zones ops st : Forall op_ok ops → Forall no_update ops → configured zones st.1 → configured zones (foldl server_step st ops).1.
Proof using Type.
  revert st. induction ops as [|o ops IH]; intros st Ho Hn Hs; cbn [foldl]; [done|]. apply Forall_cons in Ho as [? ?]. apply Forall_cons in Hn as [? ?]. apply IH; [done..|].
  destruct (is_query o) as [r|] eqn:Eq; [|by eapply keeps_configured; [apply step_keeps|]]. destruct st, o; try done. injection Eq as ->. by apply configured_query.
Qed.
Lemma newDefaultServer_sound permanent disableSys : sound (newDefaultServer permanent disableSys).
Proof using Type. exists ∅. split; [apply empty_implements|]. intros p h. by rewrite lookup_empty. Qed.
Lemma applied_configured ev serial update s s' : sound s → ds_previousConfigHash s ≠ default 0 (hash_update update) →
  UpdateDNSServer ev serial update s = (s', true) → configured (CustomZones update) s'.
Proof using Type.
  intros Hs Hh. unfold UpdateDNSServer. destruct (ds_done s); [done|]. destruct (serial <? _); [done|]. rewrite (proj2 (Z.eqb_neq _ _) Hh).
  destruct (applyConfiguration ev update s) as [s1 ok] eqn:E. apply applyConfiguration_spec in E; [|done]. destruct ok; [|done]. intros [= <-].
  eapply keeps_configured; [|exact E]. by apply keeps_fields.
Qed.

(** The best handler that matches is the local resolver, and it answers. *)
Lemma local_first serve (h : handler) qname r mx prio l w w' writes : StronglySorted before l →
  (∀ e, e ∈ l → isHandlerMatch qname e = true → he_Priority e ≤ prio ∧ (he_Priority e = prio → he_Handler e = h)) →
  (∃ e, e ∈ l ∧ isHandlerMatch qname e = true ∧ he_Priority e = prio) → prio ≤ mx →
  serve h r w = (w', writes) → existsb (@continue_signal RR) writes = false →
  (@dispatch_loop handler RR (Resolver * X) serve qname r mx l w).1 = (w', writes).
Proof using Type.
  intros Hs. induction l as [|e l IH]; intros Hle (f & Hf & Hm & Hp) Hmx Es Ec; [by apply not_elem_of_nil in Hf|]. cbn [dispatch_loop].
  apply StronglySorted_inv in Hs as [Hs Hb]. rewrite Forall_forall in Hb. destruct (isHandlerMatch qname e) eqn:Em.
  - destruct (Hle e ltac:(by left) Em) as [Hle1 Hh]. assert (He : he_Priority e = prio).
    { apply elem_of_cons in Hf as [->|Hf]; [done|]. specialize (Hb f Hf). unfold before in Hb. lia. }
    rewrite (proj2 (Z.ltb_ge _ _)) by lia. cbn [negb orb]. rewrite (Hh He), Es, Ec. cbn [fst]. f_equal.
    clear -Ec. induction writes as [|m ms IH]; [done|]. cbn in *. apply orb_false_iff in Ec as [-> Ec]. cbn. by rewrite IH.
  - rewrite orb_true_r. apply IH; [done| |by apply elem_of_cons in Hf as [->|?]; [congruence|exists f]|done..]. intros x ? ?. apply Hle; [by right|done].
Qed.
(** The pattern of the zone takes the name. *)
Definition matches_zone (q0 : Question) (z : CustomZone) : bool :=
  isHandlerMatch (ToLower (Name q0)) (entry_of (MatchSubdomains other_subdomains) (ToLower (Fqdn (cz_Domain z))) HLocal PriorityLocal).
Lemma answer_local zones r q0 rest st z m : configured zones st.1 → r_Question r = q0 :: rest →
  z ∈ zones → cz_Records z ≠ [] → cz_Domain z ≠ "" → matches_zone q0 z = true →
  (∀ e, e ∈ ds_handlerChain st.1 → PriorityLocal < he_Priority e → isHandlerMatch (ToLower (Name q0)) e = false) →
  (LocalResolver.ServeDNS Fqdn LookupNetIP (ds_localResolver st.1) r).2 = [m] → continue_signal m = false → (answer r st).2 = [m].
Proof using Type.
  intros [(t & Ht & Ho & Hz) _] Er Hz1 Hz2 Hz3 Hm Hhigh El Hc. unfold answer, HandlerChain.ServeDNS, dispatch. rewrite Er.
  set (serve := serve_handler (ds_stopped st.1)). set (w := (ds_localResolver st.1, st.2)).
  destruct (serve HLocal r w) as [w' writes] eqn:Es. assert (Hw : writes = [m]).
  { revert Es. unfold serve. cbn [serve_handler w fst]. destruct (LocalResolver.ServeDNS _ _ _ _) as [l out]. cbn [snd] in El. intros [= _ <-]. done. }
  subst writes. rewrite (local_first serve HLocal (ToLower (Name q0)) r MaxInt PriorityLocal (ds_handlerChain st.1) w w' [m]); [done|apply Ht| | |done|done|].
  - intros e He Hme. split.
    + destruct (decide (PriorityLocal < he_Priority e)) as [Hlt|]; [|lia]. by rewrite (Hhigh e He Hlt) in Hme.
    + intros Hp. destruct (ch_entries _ _ _ Ht e He) as [Ee _]. apply (Ho (he_OrigPattern e)), (ch_table _ _ _ Ht). cbn [fst snd]. rewrite <- Hp, <- Ee. done.
  - assert (Hin : z ∈ served_zones zones) by (by apply list_elem_of_filter). specialize (Hz z Hin Hz3). apply (ch_table _ _ _ Ht) in Hz.
    eexists. split; [exact Hz|]. done.
  - cbn. by rewrite Hc.
Qed.

(** C23: The names of the network map resolve.  Take a server that did any operations, applied a
    configuration, and then did any operations except further updates: batches, handlers of DNS
    routes, upstream resolvers that fail and come back, changes of the host's servers, queries.  A
    query for a name in a zone of the configuration that no handler of a higher priority takes gets
    one reply.  It has exactly the records of the configuration with that name, type and the class of
    the internet, when there are any; and says that the name does not exist, without any other server
    being asked, when the configuration has neither the name nor a wildcard for it and the zone is not
    one of the user. *)
Theorem configured_names_resolve permanent disableSys x ops ev serial update s1 x1 s2 ops' st r q0 rest z :
  Forall op_ok ops → foldl server_step (newDefaultServer permanent disableSys, x) ops = (s1, x1) →
  ds_previousConfigHash s1 ≠ default 0 (hash_update update) → UpdateDNSServer ev serial update s1 = (s2, true) →
  Forall op_ok ops' → Forall no_update ops' → foldl server_step (s2, x1) ops' = st →
  r_Question r = q0 :: rest → z ∈ CustomZones update → cz_Records z ≠ [] → cz_Domain z ≠ "" → matches_zone q0 z = true →
  (∀ e, e ∈ ds_handlerChain st.1 → PriorityLocal < he_Priority e → isHandlerMatch (ToLower (Name q0)) e = false) →
  let zones := local_zones (CustomZones update) in
  let es := entries Fqdn TypeString NewRR zones in
  let q := normalized Fqdn q0 in
  (of_question es q ≠ [] → ∃ m, (answer r st).2 = [m] ∧ answers_with m (of_question es q))
  ∧ (unknown es (Name q) → default false (zone_of Fqdn (zone_map Fqdn zones) (Name q)) = false →
      ∃ m, (answer r st).2 = [m] ∧ rp_Rcode m = RcodeNameError ∧ rp_Answer m = []).
Proof using Type.
  intros Ho E1 Hh Eu Ho' Hn Est Er Hz Hz2 Hz3 Hm Hhigh zones es q. pose proof (steps_sound ops (_, x) Ho (newDefaultServer_sound permanent disableSys)) as Hs.
  rewrite E1 in Hs. pose proof (applied_configured ev serial update s1 s2 Hs Hh Eu) as Hc.
  pose proof (steps_configured (CustomZones update) ops' (s2, x1) Ho' Hn Hc) as Hc'. rewrite Est in Hc'.
  destruct (reply_spec Fqdn LookupNetIP es (zone_map Fqdn zones) (ds_localResolver st.1) r q0 rest (proj2 Hc') Er) as (m & El & Hown & _ & _ & _ & Hun & _).
  assert (Ha : continue_signal m = false → (answer r st).2 = [m]) by (by apply (answer_local (CustomZones update) r q0 rest st z m)).
  split.
  - intros Hne. destruct (Hown Hne) as (Hr & Hau & Hp). exists m. split; [|by split_and!]. apply Ha. unfold continue_signal. by rewrite Hr.
  - intros Hu Hz0. destruct (Hun Hu) as (Hr & Han & Hzero). exists m. split; [|done]. apply Ha. unfold continue_signal. rewrite Hzero. unfold q in Hz0. by rewrite Hz0, andb_false_r.
Qed.
End queries.
End server.

(** ** A server *)
Definition quiet : Env :=
  {| ev_Listen := true; ev_initialize := true; ev_netstack := false; ev_android := false; ev_RuntimeIP := Some (false, 1681981439); ev_RuntimePort := 53;
     ev_supportCustomPort := true; ev_applyDNSConfig := λ _, true; ev_getOriginalNameservers := None |}.
Definition demo_digest (domain : string) (servers : list addrport) : string := domain.
Definition demo_hash (c : DNSConfig) : option Z := Some (1 + Z.of_nat (length (CustomZones c)) + 10 * Z.of_nat (length (cfg_NameServerGroups c))).
Definition no_hash (c : HostDNSConfig) : option Z := None.
(** Upstream servers have every name; the world counts the questions they got. *)
Definition demo_ext (h : handler) (r : Request) (x : nat) : nat * list (Reply RR) := (S x, [SetRcode r RcodeSuccess]).
Definition zone_named (d : string) (records : list SimpleRecord) : CustomZone :=
  {| cz_Domain := d; cz_Records := records; cz_SearchDomainDisabled := false; cz_NonAuthoritative := false |}.
Definition demo_servers (primary : bool) (domains : list string) : NameServerGroup :=
  {| ns_ID := "g"; ns_AccountID := "acc"; ns_Name := "g"; ns_Description := ""; ns_NameServers := [{| srv_IP := (false, 134744072); srv_NSType := 1; srv_Port := 53 |}];
     ns_Groups := []; ns_Primary := primary; ns_Domains := str <$> domains; ns_Enabled := true; ns_SearchDomainsEnabled := false |}.
Definition config_of (zones : list CustomZone) (groups : list NameServerGroup) : DNSConfig :=
  {| ServiceEnable := true; CustomZones := zones; cfg_NameServerGroups := groups |}.
Abbreviation demo_step := (server_step with_dot demo_types demo_parse (λ _, true) demo_digest demo_hash no_hash demo_lookup demo_ext).
Abbreviation demo_answer r st := (answer with_dot demo_lookup demo_ext r st).
Definition fresh : DefaultServer * nat := (newDefaultServer false false, 0%nat).
Definition replies (out : list (Reply RR)) : list (Z * list rdata) := (λ m, (rp_Rcode m, rr_Data <$> rp_Answer m)) <$> out.
(** A configuration with two zones, a DNS route, and queries. *)
Definition two_zones : DNSConfig := config_of [zone_named "corp" [simple "h.corp" TypeA "100.64.0.9"]; zone_nb demo_records] [demo_servers true []].
Definition one_zone : DNSConfig := config_of [zone_nb demo_records] [demo_servers true []].
Definition demo_history : list server_op := [OpInitialize quiet; OpUpdate quiet 1 two_zones; OpRegister quiet ["*.route.org"] (HOther 7) PriorityDNSRoute].
Definition demo_later : list server_op := [OpQuery (query "a.nb." TypeA); OpDeactivate quiet (demo_servers true []) PriorityDefault].
Definition demo_state : DefaultServer * nat := foldl demo_step fresh demo_history.
Definition demo_updated : DefaultServer := (UpdateDNSServer with_dot demo_types demo_parse (λ _, true) demo_digest demo_hash no_hash quiet 2 one_zone demo_state.1).1.
Definition demo_final : DefaultServer * nat := foldl demo_step (demo_updated, demo_state.2) demo_later.

(** A zone that is no longer in the configuration stays with the local resolver: names in it do not
    exist, although a server that never had the zone passes them to the upstream servers. *)
Example removed_zone_stays :
  replies (demo_answer (query "www.corp." TypeA) (foldl demo_step fresh [OpUpdate quiet 1 two_zones; OpUpdate quiet 2 one_zone])).2 = [(RcodeNameError, [])]
  ∧ replies (demo_answer (query "www.corp." TypeA) (foldl demo_step fresh [OpUpdate quiet 2 one_zone])).2 = [(RcodeSuccess, [])].
Proof. vm_compute. done. Qed.
(** The servers of a domain are not taken out when they fail: the configuration has the domain with
    a dot at its end, the group without it. *)
Example failed_servers_stay :
  let s := (foldl demo_step fresh [OpUpdate quiet 1 (config_of [] [demo_servers false ["example.com"]])]).1 in
  let '(s', removeIndex) := deactivate with_dot (λ _, true) no_hash quiet (demo_servers false ["example.com"]) PriorityUpstream s in
  ds_handlerChain s' = ds_handlerChain s ∧ (dc_Disabled <$> hc_Domains (ds_currentConfig s')) = [false] ∧ removeIndex = {[ "example.com" := -1 ]}.
Proof. vm_compute. done. Qed.
(** The updates of the configuration stop the resolver: afterwards an alias that leads outside fails. *)
Example update_breaks_outside_alias :
  let records := [simple "out.nb" TypeCNAME "other.org."] in
  let c1 := config_of [zone_nb records] [] in
  let c2 := config_of [zone_nb records; zone_named "corp" [simple "h.corp" TypeA "100.64.0.9"]] [] in
  replies (demo_answer (query "out.nb." TypeA) (foldl demo_step fresh [OpUpdate quiet 1 c1])).2 = [(RcodeSuccess, [RD_CNAME "other.org."; RD_A 167772161])]
  ∧ replies (demo_answer (query "out.nb." TypeA) (foldl demo_step fresh [OpUpdate quiet 1 c1; OpUpdate quiet 2 c2])).2 = [(RcodeServerFailure, [RD_CNAME "other.org."])].
Proof. vm_compute. done. Qed.
Lemma configured_names_resolve_witness :
  ∃ m, (demo_answer (query "A.nb." TypeA) demo_final).2 = [m] ∧ rp_Rcode m = RcodeSuccess ∧ rr_Data <$> rp_Answer m ≡ₚ [RD_A 1681915905; RD_A 1681915906].
Proof.
  assert (Hhigh : ∀ e, e ∈ ds_handlerChain demo_final.1 → PriorityLocal < he_Priority e → isHandlerMatch (ToLower "A.nb.") e = false).
  { intros e He Hp. assert (Hall : forallb (λ e, (he_Priority e <=? PriorityLocal) || negb (isHandlerMatch (ToLower "A.nb.") e)) (ds_handlerChain demo_final.1) = true)
      by (vm_compute; reflexivity). rewrite forallb_forall in Hall. specialize (Hall e (proj1 (list_elem_of_In _ _) He)).
    rewrite (proj2 (Z.leb_gt _ _) Hp) in Hall. by apply negb_true_iff in Hall. }
  destruct (configured_names_resolve with_dot demo_types demo_parse (λ _, true) demo_digest demo_hash no_hash demo_lookup demo_ext
    false false 0%nat demo_history quiet 2 one_zone demo_state.1 demo_state.2 demo_updated demo_later demo_final
    (query "A.nb." TypeA) {| Name := "A.nb."; Qtype := TypeA; Qclass := ClassINET |} [] (zone_nb demo_records)) as [Hown _];
    [by repeat constructor|vm_compute; reflexivity|vm_compute; discriminate|vm_compute; reflexivity|by repeat constructor|by repeat constructor
    |reflexivity|reflexivity|by left|done|done|vm_compute; reflexivity|exact Hhigh|].
  destruct Hown as (m & Hm & Hr & _ & Hp); [vm_compute; discriminate|]. exists m. split; [exact Hm|]. split; [exact Hr|]. rewrite Hp. vm_compute. reflexivity.
Defined.
